(* ===== verification/_CoqProject ===== *)
-Q . S2P
Prelude.v
CxxStd.v
UrlEncode.v
Base64.v
ByteStream.v
StringBuffer.v
Conn.v
BodyReader.v
Chunked.v
Split.v
OrdMap.v
HttpTypes.v
CookieCodec.v
HttpParser.v
HttpHead.v
Http1Sink.v
Http1Reader.v
Http1RoundTrip.v
HuffmanTable.v
Huffman.v
HpackTable.v
Hpack.v
Endian.v
WebSocket.v
Http2Frame.v
Http2Request.v
Http2Session.v
Http2SessionInv.v
Http2SessionSpec.v
Router.v
RouterSpec.v
Mutex.v
Pipe.v
Pool.v
PoolInv.v
ReadOnly.v
HttpOutgoing.v
ResponseRoundTrip.v
HttpServer.v
HttpServerSpec.v
CookieStore.v
Url.v
HttpClient.v
HttpClientSpec.v
Scheduler.v
Future.v
FileCache.v
StaticFiles.v
StaticFilesSpec.v
Form.v
Digest.v
DigestSpec.v
WsHandshake.v
WsHandshakeSpec.v
IoTable.v
Channel.v
Tcp.v
TcpInv.v
TcpSpec.v
TcpStream.v
Http2ClientSession.v
Http2ClientSpec.v
CancelToken.v
Timeout.v
PgConfig.v
PgConnection.v
PgTransaction.v
DnsResolver.v
TlsStream.v
OpenSSLProvider.v
TcpServer.v
Http2Facade.v
Http2EndToEnd.v
Http2Client.v
Generator.v
Task.v
InetAddress.v
