(* ===== verification/Prelude.v ===== *)
(** * nitrocoro: a verification development

    nitrocoro (src/) is a C++20 coroutine runtime with an HTTP/1.1 and HTTP/2
    server and client, TLS, WebSockets, and a PostgreSQL client with a connection
    pool.  This library is a shallow embedding of its logic: functions of the source are
    Rocq functions of the same names on the same data, statement by statement,
    and the theorems are about these functions.

    ** The program and its parts

    A [Scheduler] per thread runs coroutines; they wait for timers, for
    descriptors, for each other ([Mutex], [Pipe], [Future]) and for streams
    ([io::Stream]).  A [TcpConnection] is such a stream: its [Channel] waits for
    the descriptor in the scheduler's table; a [TlsStream] is one on top of it.  A
    [TcpServer] accepts connections, a [DnsResolver] finds the addresses to connect
    to.  On streams live the protocols: an HTTP/1 server reads a
    head line by line ([HttpParser]), finds a handler ([HttpRouter]), lends it
    the body ([Http1BodyReader]) and writes its response ([Http1ResponseSink]);
    the client does the converse and keeps idle connections and cookies; the
    HTTP/2 session does both for many streams of one connection, with header
    blocks in HPACK; an upgraded connection speaks WebSocket frames.

    ** Files

    Foundations.
    - [Prelude]: outcomes of C++ calls (a value, an exception, undefined
      behaviour, a loop out of fuel), the monad [M] of member functions, bytes,
      and lemmas on lists and machine integers.
    - [CxxStd]: [string_view], [stoul], [stoi], [to_string], the C locale.
    - [Endian]: big-endian integers.  [Split]: the loop over the parts of a
      string.  [OrdMap]: [std::map] with its order.

    Utilities (src/src, src/include/nitrocoro/utils).
    - [UrlEncode], [Base64] (utils/*.cc), [StringBuffer] (StringBuffer.h),
      [Url] (Url.cc), [Digest] (Sha1.cc, Md5.cc) with the standards in
      [DigestSpec].

    HTTP/1 (src/extensions/http).
    - [ByteStream], [Conn]: the class of streams (io/Stream.h) against which all
      readers and writers are proved, with an instance that delivers any
      segmentation, and the connection with its buffer.
    - [HttpTypes], [CookieCodec], [HttpParser], [HttpHead], [BodyReader],
      [Chunked], [Http1Reader], [Http1Sink], [HttpOutgoing]: headers, methods and
      status lines; Set-Cookie; the line parsers; [parseNext] and
      [parseResponse]; body readers and writers; the sinks; what programs set.
    - [Router]: RouterCore.cc and HttpRouter.cc.  [HttpServer]: HttpServer.cc.
      [HttpClient], [CookieStore]: HttpClient.cc and CookieStore.cc.
      [FileCache], [StaticFiles]: StaticFiles.cc.  [Form]: Form.cc.
    - [Http1RoundTrip], [ReadOnly], [ResponseRoundTrip], [RouterSpec],
      [HttpServerSpec], [HttpClientSpec], [StaticFilesSpec]: what they promise.

    HTTP/2 (src/extensions/http2).
    - [HuffmanTable], [Huffman], [HpackTable], [Hpack]: hpack/*.cc.
      [Http2Frame]: frame/FrameReader.cc.  [Http2Request]: a request's header
      block, from [Http2ClientSession::sendHeaders] to
      [Http2Session::buildRequest].  [Http2Session]: Http2Session.cc, its state
      and one function per frame; [Http2SessionInv] and [Http2SessionSpec].
      [Http2ClientSession]: Http2ClientSession.cc likewise, with what programs do
      between two frames; [Http2ClientSpec].
    - [Http2Facade]: what a request is served by, Http2BodyReader.h,
      Http2ResponseSink.cc and dispatchStream of Http2Session.cc.  [Http2Client]:
      Http2Client.cc and Http2Server.cc, the choice of a protocol and of a session.
      [Http2EndToEnd]: from the client's sink to the server's handler.

    WebSocket (src/extensions/websocket): [WebSocket], WsConnection.cc;
      [WsHandshake], WsServer.cc, WsClient.cc, WsContextImpl.cc and WsRouter.cc,
      with [WsHandshakeSpec].

    Runtime (src/include/nitrocoro/core, src/src).
    - [Task], [Generator]: Task.h and Generator.h, frames and the transfers between
      them.  That awaiting a task is a call is a theorem, and the rest of the
      development is written that way.
    - [Mutex], [Pipe], [Future], [CancelToken], [Timeout], [Scheduler]: Mutex.h,
      Pipe.h with MpscQueue.h, Future.h with LockFreeList.h, CancelToken.h,
      Timeout.h, Scheduler.cc.  Each thread is a program counter and every access
      to shared memory a step; theorems quantify over all interleavings.
    - [IoTable]: the scheduler's table of descriptors and the interest list of
      the kernel behind it.  [Channel]: Channel.cc.  [Tcp]: TcpConnection.cc,
      Socket.cc and both buffer adapters, on a socket of the kernel with
      edge-triggered events; [TcpInv], [TcpSpec]; [TcpStream], the connection as
      an instance of [ByteStream].
    - [TcpServer]: TcpServer.cc, accepting, handlers and stopping, turn by turn, and
      the adapters of accept and connect.  [DnsResolver]: DnsResolver.cc with
      TaskQueue.cc, lookups on the thread pool, their cache and those who share one.
      [InetAddress]: InetAddress.cc, the octets of both socket addresses.

    TLS (src/extensions/tls): [TlsStream], TlsStream.cc over an interface of
    providers, both ends turn by turn, with writes to the connection that suspend
    half-way or fail; [OpenSSLProvider], providers/OpenSSLProvider.cc as an instance of it.

    PostgreSQL (src/extensions/pg).
    - [Pool], [PoolInv]: the connection pool.  [PgConfig]: connection strings,
      parameters and results.  [PgConnection]: the read loop and queries of a
      connection, turn by turn.  [PgTransaction]: PgTransaction.cc.

    ** What the theorems show

    - End to end: what the client writes for a request is what the server's handler
      sees, and what it answers comes back ([client_server_exchange]); a
      connection is a function of its requests ([server_pipeline]); requests and
      responses survive the wire however it is segmented ([request_roundtrip],
      [response_roundtrip], [chunked_roundtrip], [parse_next_total]).
    - TLS: over any provider that keeps its promise a stream delivers what was
      written while no two coroutines of an end are in a write to the connection
      at once ([tls_delivers]), which the source does not see to
      ([tls_records_mix]); the provider built on OpenSSL keeps it
      ([openssl_streams]); ALPN selects the server's first choice
      ([alpn_negotiated]) and both ends of HTTP/2 agree on it ([h2_negotiation]).
    - Codecs: HPACK and its Huffman code ([hpack_headers_roundtrip] of the part of
      a block that holds a message's headers, [hpack_decode_safe],
      [huffman_decode_exact], [hpack_table_refines]), whole header blocks of requests
      ([h2_request_roundtrip]), frames ([h2_frame_roundtrip]), WebSocket messages
      and the handshake ([ws_receive_message], [ws_send_receive],
      [ws_handshake]), digests ([digests_standard]), forms ([form_roundtrip]),
      connection strings ([pg_config_roundtrip]), cookies, URLs.
    - The HTTP/2 session ends on any input and hands over each stream at most once,
      unless a client sends CONTINUATION on stream 0 ([h2_session_dispatch]),
      whichever way header blocks are cut ([h2_continuation_equivalence]); a request
      whose octets arrive whole is served, its body read and its answer framed
      ([h2_stream_answered]), and what the client's sink writes is such a request
      ([h2_request_delivered]); the client shares one session among requests or falls back
      ([h2_client_requests]); the client session
      ends too, with its map sound ([h2_client_session]), and rejects every reply
      of that server ([h2_client_rejects]).
    - Data structures refine their specifications: [string_buffer_refines],
      [router_match_refines], [cookie_store_refines], [file_cache_refines].
    - Static files: nothing outside the root is read ([static_files_confined]),
      every request is answered ([static_files_answers]).
    - TCP: to a coroutine that makes its calls one after the other a connection is
      a pair of byte queues ([tcp_is_stream]); whatever the
      kernel, the loop and cancellations do, who can go on is woken
      ([tcp_no_lost_wakeup]); the table follows descriptors that are closed and
      used again ([io_table_current]); forceClose ([tcp_force_close]); the first
      [stop] of a server that was started ends its accept loop and shuts down what
      is still connected ([tcp_server_stops]).
    - Names: who waits for an address is attended to, and gets what a lookup of that
      name gave ([dns_resolves]), from the cache only while it is fresh
      ([dns_cache_fresh]).
    - Coroutines: however they are resumed, tasks compute what their programs do in
      direct style, in finitely many transfers ([task_direct_style]); a loop over a
      generator is one over what its body yields ([generator_iterates]), except
      that begin loses an exception.
    - Concurrency: the mutex is a fair lock, pipe, future and scheduler lose no
      wake-up, a cancellation reaches everyone once ([cancel_reaches_all]), a
      deadline or its coroutine prevails and the caller is resumed once
      ([timeout_first_wins]), the pool leaves nobody waiting beside an idle
      connection.
    - PostgreSQL: a query gets a result of its own command
      ([pg_results_match]), and when queries are begun one at a time, none on a
      broken connection, it is answered ([pg_query_answered]); a transaction ends once
      ([pg_transaction_ends]).
    - Theorems kept beside these say where the code does not do what it means
      to (the list is in the manifest's findings).

    ** Conventions

    A [w]-bit integer is a [Z] with [u16], [u32] or [u64] where it wraps.  An
    access outside an object is [Undefined], an exception [Throw]; a member
    function keeps the state it leaves also when it throws.  [std::map] and what
    is iterated in order are association lists, hash maps that are only looked
    up are [gmap]s.

    Fuel.  Loops that are not structural take fuel computed from their input:
    the length of the text for parsers, twice the bytes that can arrive for
    trailers, 66 for a chunk-size line (which is given up after 64 bytes), ten
    and one more rounds for HPACK integers, the length of what a stream still
    delivers for sessions (a frame of the client session takes nine octets at
    least), the script of the kernel and the network for a TCP read or write: each
    of its entries is one turn, and when it is over each octet written costs at most
    eleven and what else there is eleven; what a BIO holds, or a
    session of TLS has readable, and one more for the loops of the provider.  [Diverge] marks fuel that ran out, or a wait that
    never ends (a body whose sender stays), and the theorems exclude it.

    ** What is assumed

    Memory is sequentially consistent ([Pipe] has, as an option, the one store
    buffer that breaks it).  What runs on one scheduler is not interrupted
    between its suspension points.  Handlers, middlewares, upgraders and
    callbacks are arguments, and so is what comes from outside: the network, the
    name service ([getaddrinfo]), clocks and dates, the file system, random mask keys,
    [std::regex], [strptime], the iteration order of unordered maps and the
    choice among equal timers.  OpenSSL is a class of the calls the source makes
    with what is documented of memory BIOs and of two connections that talk; libpq
    is a class of its calls with what is documented of the order of commands and
    results; a small instance of each shows that they can be had.  For HTTP/2, what request coroutines do while the
    session waits is a schedule, over all of which theorems quantify.

    ** Not modelled

    System calls and what only wraps them: the set-up of sockets in TcpServer.cc;
    the constructor of OpenSSLContext, which only configures
    OpenSSL, and its SNI callback; of libpq, the connection's handshake and
    notifications; the handles' move operations and the type traits of coroutines
    (CoroTraits.h); the clients of HTTPS and WSS, which
    only pass a TLS upgrader to the modelled ones; the map from schedulers to
    caches of StaticFiles.cc; logging, the test harness and the examples. *)

From Stdlib Require Import ZArith Lia String Strings.Byte.
From stdpp Require Import base numbers option list gmap strings relations.

Open Scope Z_scope.

(** ** Outcomes of C++ code

    A call returns a value, throws an exception that the caller may catch, or
    has undefined behaviour (an access outside an object).  [Diverge] marks a
    loop whose bound in the model is exhausted, as no loop of the source ends, or a
    wait that never ends; the theorems exclude it. *)

Inductive exn : Type :=
| RuntimeError (what : string)
| InvalidArgument (what : string)
| OutOfRange (what : string)
| LengthError
| FutureError.

Inductive outcome (A : Type) : Type :=
| Ok (a : A)
| Throw (e : exn)
| Undefined
| Diverge.
Arguments Ok {A} a.
Arguments Throw {A} e.
Arguments Undefined {A}.
Arguments Diverge {A}.

Definition obind {A B : Type} (m : outcome A) (k : A -> outcome B) : outcome B :=
  match m with
  | Ok a => k a
  | Throw e => Throw e
  | Undefined => Undefined
  | Diverge => Diverge
  end.

Definition is_ok {A : Type} (m : outcome A) : bool :=
  match m with Ok _ => true | _ => false end.

Definition is_undefined {A : Type} (m : outcome A) : bool :=
  match m with Undefined => true | _ => false end.

Declare Scope cxx_scope.
Delimit Scope cxx_scope with cxx.
Notation "'let!' x ':=' m 'in' k" := (obind m (fun x => k))
  (at level 10, x pattern, m at level 200, k at level 200,
   format "'[v' 'let!'  x  ':='  m  'in' '/' k ']'") : cxx_scope.
Open Scope cxx_scope.

(** ** Member functions

    A member function reads and changes the object it is called on: it maps
    the object's state to an outcome and the state it leaves, also when it
    throws. *)

Definition M (S A : Type) : Type := S -> outcome A * S.

Definition mret {S A : Type} (a : A) : M S A := fun s => (Ok a, s).
Definition mthrow {S A : Type} (e : exn) : M S A := fun s => (Throw e, s).
Definition mget {S : Type} : M S S := fun s => (Ok s, s).
Definition mput {S : Type} (s : S) : M S unit := fun _ => (Ok tt, s).
Definition mlift {S A : Type} (o : outcome A) : M S A := fun s => (o, s).

Definition mbind {S A B : Type} (m : M S A) (k : A -> M S B) : M S B := fun s =>
  match m s with
  | (Ok a, s') => k a s'
  | (Throw e, s') => (Throw e, s')
  | (Undefined, s') => (Undefined, s')
  | (Diverge, s') => (Diverge, s')
  end.

(** [try { m } catch (const std::exception &) { h }] *)
Definition mtry {S A : Type} (m : M S A) (h : exn -> M S A) : M S A := fun s =>
  match m s with
  | (Throw e, s') => h e s'
  | r => r
  end.

Notation "'let*' x ':=' m 'in' k" := (mbind m (fun x => k))
  (at level 10, x pattern, m at level 200, k at level 200,
   format "'[v' 'let*'  x  ':='  m  'in' '/' k ']'") : cxx_scope.

(** ** Bytes: [std::string] and [std::vector<uint8_t>] are lists of bytes *)

Abbreviation byte := Byte.byte.
Abbreviation bytes := (list Byte.byte).

#[export] Instance byte_eq_decision : EqDecision byte := Byte.byte_eq_dec.

#[export] Program Instance byte_countable : Countable byte :=
  inj_countable Byte.to_N Byte.of_N _.
Next Obligation. exact Byte.of_to_N. Qed.

(** The unsigned value of a byte, and the conversion [static_cast<uint8_t>]. *)
Definition b2z (b : byte) : Z := Z.of_N (Byte.to_N b).

Definition z2b (z : Z) : byte :=
  match Byte.of_N (Z.to_N (z mod 256)) with
  | Some b => b
  | None => Byte.x00
  end.

(** A string literal of the source as the bytes it holds. *)
Definition str (s : string) : bytes := list_byte_of_string s.

(** The character [c] of a character literal. *)
Definition chr (s : string) : byte :=
  match list_byte_of_string s with
  | b :: _ => b
  | [] => Byte.x00
  end.

(** [size()] of a string or a vector. *)
Definition size {A : Type} (s : list A) : Z := Z.of_nat (length s).

(** ** Machine-width integers *)

Definition u8 (z : Z) : Z := z mod 2 ^ 8.
Definition u16 (z : Z) : Z := z mod 2 ^ 16.
Definition u32 (z : Z) : Z := z mod 2 ^ 32.
Definition u64 (z : Z) : Z := z mod 2 ^ 64.

(** ** Lemmas on bytes *)

Lemma b2z_range (b : byte) : 0 <= b2z b < 256.
Proof.
  unfold b2z. pose proof (Byte.to_N_bounded b). lia.
Qed.

Lemma z2b_b2z (b : byte) : z2b (b2z b) = b.
Proof.
  unfold z2b. rewrite Z.mod_small by apply b2z_range.
  unfold b2z. rewrite N2Z.id. by rewrite Byte.of_to_N.
Qed.

Lemma b2z_z2b (z : Z) : b2z (z2b z) = z mod 256.
Proof.
  unfold z2b. pose proof (Z.mod_pos_bound z 256 ltac:(lia)) as Hz.
  destruct (Byte.of_N (Z.to_N (z mod 256))) as [b |] eqn:Hb.
  - apply Byte.to_of_N in Hb. unfold b2z. rewrite Hb. lia.
  - apply Byte.of_N_None_iff in Hb. lia.
Qed.

Lemma b2z_z2b_small (z : Z) : 0 <= z < 256 -> b2z (z2b z) = z.
Proof. intros Hz. rewrite b2z_z2b. by apply Z.mod_small. Qed.

Lemma b2z_inj (a b : byte) : b2z a = b2z b -> a = b.
Proof. intros H. by rewrite <- (z2b_b2z a), <- (z2b_b2z b), H. Qed.

Lemma byte_eqb_eq (a b : byte) : Byte.eqb a b = true <-> a = b.
Proof. split; [apply byte_dec_bl | apply byte_dec_lb]. Qed.

Lemma z2b_eq_iff (z : Z) (b : byte) : z2b z = b <-> z mod 256 = b2z b.
Proof.
  split; [intros <-; by rewrite b2z_z2b | intros H].
  apply b2z_inj. by rewrite b2z_z2b.
Qed.

(** Every byte is one of 256: a boolean property of bytes is decided by
    computation. *)
Definition all_bytes : bytes := map (fun n => z2b (Z.of_nat n)) (seq 0 256).

Lemma elem_of_all_bytes (b : byte) : In b all_bytes.
Proof.
  unfold all_bytes. apply in_map_iff. exists (Z.to_nat (b2z b)).
  pose proof (b2z_range b). split.
  - rewrite Z2Nat.id by lia. apply z2b_b2z.
  - apply in_seq. lia.
Qed.

Lemma byte_forall (P : byte -> bool) :
  forallb P all_bytes = true -> forall b, P b = true.
Proof.
  intros H b. rewrite forallb_forall in H. apply H, elem_of_all_bytes.
Qed.

Lemma byte_forall_dec (P : byte -> Prop) `{!forall b, Decision (P b)} :
  forallb (fun b => bool_decide (P b)) all_bytes = true -> forall b, P b.
Proof.
  intros Hall b. eapply bool_decide_eq_true. exact (byte_forall _ Hall b).
Qed.

(** A range of integers is finite: a boolean property on it is decided by
    computation. *)
Definition zrange (n : nat) : list Z := map Z.of_nat (seq 0 n).

Lemma zrange_forall (n : nat) (P : Z -> bool) :
  forallb P (zrange n) = true -> forall z, 0 <= z < Z.of_nat n -> P z = true.
Proof.
  intros H z Hz. rewrite forallb_forall in H. apply H.
  unfold zrange. apply in_map_iff. exists (Z.to_nat z).
  split; [lia | apply in_seq; lia].
Qed.

(** ** Bit operations as arithmetic *)

Lemma lor_shiftl_add (x y k : Z) :
  0 <= k -> 0 <= y < 2 ^ k -> Z.lor (Z.shiftl x k) y = x * 2 ^ k + y.
Proof.
  intros Hk Hy.
  assert (Hland : Z.land (Z.shiftl x k) y = 0).
  { apply Z.bits_inj'. intros n Hn.
    rewrite Z.land_spec, Z.bits_0, Z.shiftl_spec by lia.
    destruct (Z.lt_ge_cases n k) as [Hlt | Hge].
    - by rewrite Z.testbit_neg_r by lia.
    - replace (Z.testbit y n) with false; [apply andb_false_r |].
      symmetry. destruct (Z.eq_dec y 0) as [-> | Hy0]; [apply Z.testbit_0_l |].
      apply Z.bits_above_log2; [lia |].
      apply Z.log2_lt_pow2; [lia |].
      apply Z.lt_le_trans with (2 ^ k); [lia |]. by apply Z.pow_le_mono_r. }
  rewrite <- (Z.lxor_lor _ _ Hland), <- (Z.add_nocarry_lxor _ _ Hland).
  by rewrite Z.shiftl_mul_pow2.
Qed.

Lemma land_ones_mod (x k : Z) : 0 <= k -> Z.land x (Z.ones k) = x mod 2 ^ k.
Proof. apply Z.land_ones. Qed.

Lemma land_mask_mod (x m k : Z) :
  0 <= k -> m = 2 ^ k - 1 -> Z.land x m = x mod 2 ^ k.
Proof.
  intros Hk ->. rewrite <- Z.land_ones by done.
  by rewrite Z.ones_equiv, Z.sub_1_r.
Qed.

(** ** Lemmas on runs *)

(** An invariant that every step preserves holds after any steps. *)
Lemma foldl_invariant {S T : Type} (f : S -> T -> S) (I : S -> Prop) (ts : list T) (s : S) :
  (forall t s, I s -> I (f s t)) -> I s -> I (foldl f s ts).
Proof. intros Hf. revert s. induction ts as [| t ts IH]; intros s Hs; [done |]. cbn. by apply IH, Hf. Qed.

(** ** Lemmas on outcomes *)

Lemma obind_ok {A B : Type} (m : outcome A) (k : A -> outcome B) (b : B) :
  obind m k = Ok b -> exists a, m = Ok a /\ k a = Ok b.
Proof. destruct m; simpl; [eauto | discriminate ..]. Qed.

Lemma obind_assoc {A B C : Type} (m : outcome A) (f : A -> outcome B) (g : B -> outcome C) :
  obind (obind m f) g = obind m (fun a => obind (f a) g).
Proof. by destruct m. Qed.

Lemma obind_ret_r {A : Type} (m : outcome A) : obind m Ok = m.
Proof. by destruct m. Qed.

Lemma mbind_ok {S A B : Type} (m : M S A) (k : A -> M S B) (s s1 : S) (a : A) :
  m s = (Ok a, s1) -> mbind m k s = k a s1.
Proof. unfold mbind. by intros ->. Qed.

Lemma mbind_lift {S A B : Type} (o : outcome A) (a : A) (k : A -> M S B) (s : S) :
  o = Ok a -> mbind (mlift o) k s = k a s.
Proof. by intros ->. Qed.

Lemma mbind_get {S B : Type} (k : S -> M S B) (s : S) : mbind mget k s = k s s.
Proof. reflexivity. Qed.

Lemma mbind_put {S B : Type} (k : unit -> M S B) (s s' : S) : mbind (mput s') k s = k tt s'.
Proof. reflexivity. Qed.

Lemma mbind_inv {S A B : Type} (m : M S A) (k : A -> M S B) (s s' : S) (b : B) :
  mbind m k s = (Ok b, s') -> exists a s1, m s = (Ok a, s1) /\ k a s1 = (Ok b, s').
Proof.
  unfold mbind. destruct (m s) as [[a | | |] s1]; intros; simplify_eq. eauto.
Qed.

(** [runs m s Q]: from the state [s], [m] returns a value, and the value and
    the state it leaves satisfy [Q]. *)
Definition runs {S A : Type} (m : M S A) (s : S) (Q : A -> S -> Prop) : Prop :=
  exists a s', m s = (Ok a, s') /\ Q a s'.

Lemma runs_ret {S A : Type} (a : A) (s : S) (Q : A -> S -> Prop) :
  Q a s -> runs (mret a) s Q.
Proof. intros HQ. by exists a, s. Qed.

Lemma runs_get {S : Type} (s : S) (Q : S -> S -> Prop) : Q s s -> runs mget s Q.
Proof. intros HQ. by exists s, s. Qed.

Lemma runs_put {S : Type} (s s' : S) (Q : unit -> S -> Prop) : Q tt s' -> runs (mput s') s Q.
Proof. intros HQ. by exists tt, s'. Qed.

Lemma runs_lift {S A : Type} (o : outcome A) (a : A) (s : S) (Q : A -> S -> Prop) :
  o = Ok a -> Q a s -> runs (mlift o) s Q.
Proof. intros -> HQ. by exists a, s. Qed.

Lemma runs_bind {S A B : Type} (m : M S A) (k : A -> M S B) (s : S) (Q : B -> S -> Prop) :
  runs m s (fun a s' => runs (k a) s' Q) -> runs (mbind m k) s Q.
Proof.
  intros (a & s' & Hm & b & s'' & Hk & HQ). exists b, s''. split; [| done].
  by rewrite (mbind_ok _ _ _ _ _ Hm).
Qed.

Lemma runs_mono {S A : Type} (m : M S A) (s : S) (P Q : A -> S -> Prop) :
  runs m s P -> (forall a s', P a s' -> Q a s') -> runs m s Q.
Proof. intros (a & s' & Hm & HP) HPQ. exists a, s'. auto. Qed.

(** [safe o Q]: [o] returns a value that satisfies [Q] or throws; it does
    nothing undefined and ends. *)
Definition safe {A : Type} (o : outcome A) (Q : A -> Prop) : Prop :=
  match o with Ok a => Q a | Throw _ => True | _ => False end.

Lemma safe_bind {A B : Type} (o : outcome A) (k : A -> outcome B) (P : A -> Prop) (Q : B -> Prop) :
  safe o P -> (forall a, P a -> safe (k a) Q) -> safe (obind o k) Q.
Proof. destruct o; simpl; auto. Qed.

Lemma safe_mono {A : Type} (o : outcome A) (P Q : A -> Prop) :
  safe o P -> (forall a, P a -> Q a) -> safe o Q.
Proof. destruct o; simpl; auto. Qed.

(** The same of a member function that keeps the invariant [I] of its object,
    also when it throws. *)
Definition msafe {S A : Type} (m : M S A) (s : S) (I : S -> Prop) (Q : A -> Prop) : Prop :=
  match m s with
  | (Ok a, s') => I s' /\ Q a
  | (Throw _, s') => I s'
  | _ => False
  end.

Lemma msafe_ret {S A : Type} (a : A) (s : S) (I : S -> Prop) (Q : A -> Prop) :
  I s -> Q a -> msafe (mret a) s I Q.
Proof. by split. Qed.

Lemma msafe_throw {S A : Type} (e : exn) (s : S) (I : S -> Prop) (Q : A -> Prop) :
  I s -> msafe (mthrow e) s I Q.
Proof. done. Qed.

Lemma msafe_bind {S A B : Type} (m : M S A) (k : A -> M S B) (s : S) (I : S -> Prop)
    (P : A -> Prop) (Q : B -> Prop) :
  msafe m s I P -> (forall a s', I s' -> P a -> msafe (k a) s' I Q) -> msafe (mbind m k) s I Q.
Proof. unfold msafe, mbind. destruct (m s) as [[a | | |] s']; [| done ..]. intros [? ?] Hk. by apply Hk. Qed.

Lemma msafe_lift {S A B : Type} (o : outcome A) (k : A -> M S B) (s : S) (I : S -> Prop)
    (P : A -> Prop) (Q : B -> Prop) :
  I s -> safe o P -> (forall a, P a -> msafe (k a) s I Q) -> msafe (mbind (mlift o) k) s I Q.
Proof. unfold msafe, mbind, mlift. destruct o; simpl; intros HI Hs Hk; [by apply Hk | done ..]. Qed.

Lemma msafe_get {S B : Type} (k : S -> M S B) (s : S) (I : S -> Prop) (Q : B -> Prop) :
  msafe (k s) s I Q -> msafe (mbind mget k) s I Q.
Proof. done. Qed.

Lemma msafe_put {S B : Type} (k : unit -> M S B) (s s' : S) (I : S -> Prop) (Q : B -> Prop) :
  msafe (k tt) s' I Q -> msafe (mbind (mput s') k) s I Q.
Proof. done. Qed.

(** [keeps m s I Q]: [m] ends from the state [s], leaves a state that satisfies
    [I] whatever comes of it, and a value it returns satisfies [Q]. *)
Definition keeps {S A : Type} (m : M S A) (s : S) (I : S -> Prop) (Q : A -> S -> Prop) : Prop :=
  I (snd (m s)) /\ fst (m s) <> Diverge /\ forall a, fst (m s) = Ok a -> Q a (snd (m s)).

Lemma keeps_ret {S A : Type} (a : A) (s : S) (I : S -> Prop) (Q : A -> S -> Prop) :
  I s -> Q a s -> keeps (mret a) s I Q.
Proof. intros HI HQ. split; [done |]. split; [done |]. intros a' Ha. by injection Ha as <-. Qed.

Lemma keeps_bind {S A B : Type} (m : M S A) (k : A -> M S B) (s : S) (I : S -> Prop)
    (P : A -> S -> Prop) (Q : B -> S -> Prop) :
  keeps m s I P -> (forall a s', I s' -> P a s' -> keeps (k a) s' I Q) -> keeps (mbind m k) s I Q.
Proof.
  unfold keeps, mbind. destruct (m s) as [[a | | |] s']; cbn [fst snd]; intros (HI & Hd & HP) Hk;
    [| by repeat split .. | done]. apply Hk; [done |]. by apply HP.
Qed.

Lemma keeps_lift {S A B : Type} (o : outcome A) (k : A -> M S B) (s : S) (I : S -> Prop)
    (Q : B -> S -> Prop) :
  I s -> o <> Diverge -> (forall a, o = Ok a -> keeps (k a) s I Q) -> keeps (mbind (mlift o) k) s I Q.
Proof.
  unfold keeps, mbind, mlift. destruct o; simpl; intros HI Hd Hk; [by apply Hk | by repeat split .. | done].
Qed.

Lemma keeps_get {S B : Type} (k : S -> M S B) (s : S) (I : S -> Prop) (Q : B -> S -> Prop) :
  keeps (k s) s I Q -> keeps (mbind mget k) s I Q.
Proof. done. Qed.

Lemma keeps_try {S A : Type} (m : M S A) (h : exn -> M S A) (s : S) (I : S -> Prop) (Q : A -> S -> Prop) :
  keeps m s I Q -> (forall e s', I s' -> keeps (h e) s' I Q) -> keeps (mtry m h) s I Q.
Proof.
  unfold keeps, mtry. destruct (m s) as [[a | | |] s']; cbn [fst snd]; intros (HI & Hd & HQ) Hh; auto.
Qed.

Lemma keeps_mono {S A : Type} (m : M S A) (s : S) (I : S -> Prop) (P Q : A -> S -> Prop) :
  keeps m s I P -> (forall a s', P a s' -> Q a s') -> keeps m s I Q.
Proof. intros (HI & Hd & HP) HPQ. split; [done |]. split; [done |]. auto. Qed.

(** [leaves f v m s]: whatever comes of [m] from the state [s], it leaves the
    part [f] of the state at [v]. *)
Definition leaves {S A B : Type} (f : S -> B) (v : B) (m : M S A) (s : S) : Prop := f (snd (m s)) = v.

Section leaves_lemmas.
Context {S B : Type} (f : S -> B) (v : B).

Lemma leaves_ret {A : Type} (a : A) (s : S) : f s = v -> leaves f v (mret a) s.
Proof. done. Qed.

Lemma leaves_throw {A : Type} (e : exn) (s : S) : f s = v -> leaves f v (mthrow (A := A) e) s.
Proof. done. Qed.

Lemma leaves_lift {A : Type} (o : outcome A) (s : S) : f s = v -> leaves f v (mlift o) s.
Proof. done. Qed.

Lemma leaves_put (s s' : S) : f s' = v -> leaves f v (mput s') s.
Proof. done. Qed.

Lemma leaves_bind {A C : Type} (m : M S A) (k : A -> M S C) (s : S) :
  leaves f v m s -> (forall a s', f s' = v -> leaves f v (k a) s') -> leaves f v (mbind m k) s.
Proof. unfold leaves, mbind. destruct (m s) as [[a | | |] s']; cbn [snd]; auto. Qed.

Lemma leaves_bind_get {C : Type} (k : S -> M S C) (s : S) : leaves f v (k s) s -> leaves f v (mbind mget k) s.
Proof. done. Qed.

Lemma leaves_bind_put {C : Type} (k : unit -> M S C) (s s' : S) :
  leaves f v (k tt) s' -> leaves f v (mbind (mput s') k) s.
Proof. done. Qed.

Lemma leaves_bind_lift {A C : Type} (o : outcome A) (k : A -> M S C) (s : S) :
  f s = v -> (forall a, leaves f v (k a) s) -> leaves f v (mbind (mlift o) k) s.
Proof. intros Hs Hk. destruct o; [apply Hk | done ..]. Qed.

Lemma leaves_try {A : Type} (m : M S A) (h : exn -> M S A) (s : S) :
  leaves f v m s -> (forall e s', f s' = v -> leaves f v (h e) s') -> leaves f v (mtry m h) s.
Proof. unfold leaves, mtry. destruct (m s) as [[a | | |] s']; cbn [snd]; auto. Qed.
End leaves_lemmas.

(** ** Sizes *)

Lemma size_nil {A : Type} : size (@nil A) = 0.
Proof. reflexivity. Qed.

Lemma size_cons {A : Type} (a : A) (l : list A) : size (a :: l) = 1 + size l.
Proof. unfold size. simpl. lia. Qed.

Lemma size_app {A : Type} (l k : list A) : size (l ++ k) = size l + size k.
Proof. unfold size. rewrite length_app. lia. Qed.

Lemma size_nonneg {A : Type} (l : list A) : 0 <= size l.
Proof. unfold size. lia. Qed.

Lemma size_zero_nil {A : Type} (l : list A) : size l = 0 -> l = [].
Proof. destruct l; [done | rewrite size_cons; pose proof (size_nonneg l); lia]. Qed.

Create HintDb cxx.
Create Rewrite HintDb cxx.
#[export] Hint Resolve b2z_range size_nonneg elem_of_all_bytes : cxx.
#[export] Hint Rewrite z2b_b2z b2z_z2b @size_nil @size_cons @size_app : cxx.

(** ** Tactics *)

(** Case analysis on every [match] and [if] of the goal, with the equations
    each case gives. *)
Ltac cases :=
  repeat (case_match; simplify_eq/=; try done).

(** Step through the binds, reads and writes of a member function. *)
Ltac run_step :=
  match goal with
  | |- runs (mbind _ _) _ _ => apply runs_bind
  | |- runs (mret _) _ _ => apply runs_ret
  | |- runs mget _ _ => apply runs_get
  | |- runs (mput _) _ _ => apply runs_put
  | |- runs (match ?x with _ => _ end) _ _ => destruct x eqn:?
  end.

(** One step of a [leaves] goal; what is left are the calls. *)
Ltac leaves_step :=
  match goal with
  | |- leaves _ _ (mret _) _ => apply leaves_ret
  | |- leaves _ _ (mthrow _) _ => apply leaves_throw
  | |- leaves _ _ (mlift _) _ => apply leaves_lift
  | |- leaves _ _ (mput _) _ => apply leaves_put
  | |- leaves _ _ (mbind mget _) _ => apply leaves_bind_get
  | |- leaves _ _ (mbind (mput _) _) _ => apply leaves_bind_put
  | |- leaves _ _ (mbind (mlift _) _) _ => apply leaves_bind_lift; [| intros ?]
  | |- leaves _ _ (mbind _ _) _ => apply leaves_bind; [| intros ? ? ?]
  | |- leaves _ _ (if ?b then _ else _) _ => destruct b eqn:?
  | |- leaves _ _ (match ?x with _ => _ end) _ => destruct x eqn:?
  end.

(** Turn the boolean comparisons of the context and the goal into
    propositions. *)
Ltac to_prop :=
  repeat match goal with
  | H : context [(_ <? _) = true] |- _ => rewrite Z.ltb_lt in H
  | H : context [(_ <? _) = false] |- _ => rewrite Z.ltb_ge in H
  | H : context [(_ <=? _) = true] |- _ => rewrite Z.leb_le in H
  | H : context [(_ <=? _) = false] |- _ => rewrite Z.leb_gt in H
  | H : context [(_ =? _) = true] |- _ => rewrite Z.eqb_eq in H
  | H : context [(_ =? _) = false] |- _ => rewrite Z.eqb_neq in H
  | H : _ && _ = true |- _ => apply andb_prop in H as [? ?]
  | H : negb _ = true |- _ => apply negb_true_iff in H
  | H : negb _ = false |- _ => apply negb_false_iff in H
  end.

(** [bits_to_arith] turns masks and shifts by constants into [mod], [/] and
    multiplication; [solve_bits] then closes the equation. *)
Ltac bits_to_arith :=
  repeat match goal with
  | |- context [Z.land ?x 1] => rewrite (land_mask_mod x 1 1) by lia
  | |- context [Z.land ?x 3] => rewrite (land_mask_mod x 3 2) by lia
  | |- context [Z.land ?x 15] => rewrite (land_mask_mod x 15 4) by lia
  | |- context [Z.land ?x 63] => rewrite (land_mask_mod x 63 6) by lia
  | |- context [Z.land ?x 127] => rewrite (land_mask_mod x 127 7) by lia
  | |- context [Z.land ?x 255] => rewrite (land_mask_mod x 255 8) by lia
  end;
  repeat match goal with
  | |- context [Z.shiftr ?x ?k] => rewrite (Z.shiftr_div_pow2 x k) by lia
  end;
  repeat match goal with
  | |- context [Z.lor (Z.shiftl ?x ?k) ?y] =>
      rewrite (lor_shiftl_add x y k)
        by (change (2 ^ 6) with 64 in *; change (2 ^ 4) with 16 in *;
            change (2 ^ 2) with 4 in *; change (2 ^ 8) with 256 in *;
            Z.to_euclidean_division_equations; lia)
  end;
  repeat match goal with
  | |- context [Z.shiftl ?x ?k] => rewrite (Z.shiftl_mul_pow2 x k) by lia
  end.

Ltac solve_bits :=
  bits_to_arith; cbn [Z.pow Z.pow_pos Pos.iter Z.mul Pos.mul]; Z.to_euclidean_division_equations; lia.

(** Replace the bytes of the goal by integers in range and finish by
    arithmetic. *)
Ltac byte_lia :=
  repeat match goal with
  | b : byte |- _ =>
      lazymatch goal with
      | _ : 0 <= b2z b < 256 |- _ => fail
      | _ => pose proof (b2z_range b)
      end
  end; lia.
