(* ===== verification/CxxStd.v ===== *)
(** The parts of the C++ standard library the source is written with:
    [std::string_view] searches and [substr], the C locale's character
    classes, [std::to_string], [std::stoul] and [std::stoi].  Positions are
    [size_t] values, [npos] is [2^64 - 1], and the arithmetic the source does
    on positions wraps as the source's does. *)

From Stdlib Require Import ZArith Lia String Strings.Byte.
From stdpp Require Import base numbers option list.
From S2P Require Import Prelude.
Open Scope Z_scope.

(** ** [std::string_view] *)

Definition npos : Z := 2 ^ 64 - 1.

Fixpoint index_of (P : byte -> bool) (s : bytes) : option nat :=
  match s with
  | [] => None
  | b :: s' => if P b then Some 0%nat else S <$> index_of P s'
  end.

Fixpoint rindex_of (P : byte -> bool) (s : bytes) : option nat :=
  match s with
  | [] => None
  | b :: s' =>
      match rindex_of P s' with
      | Some i => Some (S i)
      | None => if P b then Some 0%nat else None
      end
  end.

Fixpoint starts_with (pat s : bytes) : bool :=
  match pat, s with
  | [], _ => true
  | p :: pat', b :: s' => Byte.eqb p b && starts_with pat' s'
  | _ :: _, [] => false
  end.

Fixpoint index_of_sub (pat s : bytes) : option nat :=
  if starts_with pat s then Some 0%nat
  else match s with
       | [] => None
       | _ :: s' => S <$> index_of_sub pat s'
       end.

Definition to_pos (base : Z) (o : option nat) : Z :=
  match o with
  | Some i => base + Z.of_nat i
  | None => npos
  end.

(** [s.find(c, pos)] and the other forward searches for one character. *)
Definition sv_find_if (P : byte -> bool) (s : bytes) (pos : Z) : Z :=
  if size s <=? pos then npos
  else to_pos pos (index_of P (drop (Z.to_nat pos) s)).

Definition sv_find (s : bytes) (c : byte) (pos : Z) : Z :=
  sv_find_if (Byte.eqb c) s pos.

Definition sv_find_first_not_of (s : bytes) (c : byte) (pos : Z) : Z :=
  sv_find_if (fun b => negb (Byte.eqb c b)) s pos.

(** [s.find(pat, pos)] for a string. *)
Definition sv_find_str (s pat : bytes) (pos : Z) : Z :=
  if size s <? pos then npos
  else to_pos pos (index_of_sub pat (drop (Z.to_nat pos) s)).

(** [s.find_last_not_of(c, pos)], [s.rfind(c)]. *)
Definition sv_rfind_if (P : byte -> bool) (s : bytes) (pos : Z) : Z :=
  to_pos 0 (rindex_of P (take (Z.to_nat (Z.min (pos + 1) (size s))) s)).

Definition sv_find_last_not_of (s : bytes) (c : byte) (pos : Z) : Z :=
  sv_rfind_if (fun b => negb (Byte.eqb c b)) s pos.

Definition sv_rfind (s : bytes) (c : byte) : Z := sv_rfind_if (Byte.eqb c) s npos.

(** [s.substr(pos, n)]: throws when [pos] is past the end. *)
Definition sv_substr (s : bytes) (pos n : Z) : outcome bytes :=
  if size s <? pos then Throw (OutOfRange "string_view::substr")
  else Ok (take (Z.to_nat (Z.min n (size s - pos))) (drop (Z.to_nat pos) s)).

(** [s[i]]: undefined outside the string. *)
Definition at_ {A : Type} (s : list A) (i : Z) : outcome A :=
  if (0 <=? i) && (i <? size s)
  then match s !! Z.to_nat i with Some b => Ok b | None => Undefined end
  else Undefined.

(** ** The C locale *)

Definition in_range (lo hi : Z) (b : byte) : bool := (lo <=? b2z b) && (b2z b <=? hi).

Definition isupper : byte -> bool := in_range 65 90.
Definition islower : byte -> bool := in_range 97 122.
Definition isdigit : byte -> bool := in_range 48 57.
Definition isalpha (b : byte) : bool := isupper b || islower b.
Definition isspace (b : byte) : bool := Byte.eqb b x20 || in_range 9 13 b.

Definition tolower (b : byte) : byte := if isupper b then z2b (b2z b + 32) else b.
Definition toupper (b : byte) : byte := if islower b then z2b (b2z b - 32) else b.

(** ** [std::to_string] and the [%x] conversion *)

Definition digit_char (d : Z) : byte := z2b (if d <? 10 then 48 + d else 87 + d).

Fixpoint digits_of (base : Z) (fuel : nat) (n : Z) (acc : bytes) : bytes :=
  match fuel with
  | O => acc
  | S fuel' =>
      let acc' := digit_char (n mod base) :: acc in
      if n <? base then acc' else digits_of base fuel' (n / base) acc'
  end.

(** Twenty decimal digits, or sixteen hexadecimal ones, hold every unsigned
    64-bit value. *)
Definition to_string (n : Z) : bytes :=
  if n <? 0 then chr "-" :: digits_of 10 20 (- n) [] else digits_of 10 20 n [].

Definition to_hex (n : Z) : bytes := digits_of 16 16 n [].

(** ** [std::stoul] and [std::stoi] *)

Definition digit_val (base : Z) (b : byte) : option Z :=
  let v := if isdigit b then b2z b - 48
           else if islower b then b2z b - 87
           else if isupper b then b2z b - 55
           else 99 in
  if v <? base then Some v else None.

Fixpoint parse_digits (base acc : Z) (s : bytes) : Z :=
  match s with
  | b :: s' =>
      match digit_val base b with
      | Some d => parse_digits base (acc * base + d) s'
      | None => acc
      end
  | [] => acc
  end.

Fixpoint skip_space (s : bytes) : bytes :=
  match s with
  | b :: s' => if isspace b then skip_space s' else s
  | [] => []
  end.

Definition parse_sign (s : bytes) : bool * bytes :=
  match s with
  | b :: s' =>
      if Byte.eqb b x2d then (true, s')
      else if Byte.eqb b x2b then (false, s')
      else (false, s)
  | [] => (false, [])
  end.

(** The optional [0x] of base 16, taken only before a hexadecimal digit. *)
Definition skip_0x (base : Z) (s : bytes) : bytes :=
  match s with
  | b0 :: b1 :: b2 :: s' =>
      if (base =? 16) && Byte.eqb b0 x30 && (Byte.eqb b1 x78 || Byte.eqb b1 x58)
         && (match digit_val 16 b2 with Some _ => true | None => false end)
      then b2 :: s' else s
  | _ => s
  end.

(** The sign and the magnitude [strtol] and [strtoul] read, or [None] when
    there is no digit; what follows the digits is ignored. *)
Definition parse_number (base : Z) (s : bytes) : option (bool * Z) :=
  let '(neg, s1) := parse_sign (skip_space s) in
  let s2 := skip_0x base s1 in
  match s2 with
  | b :: _ =>
      match digit_val base b with
      | Some _ => Some (neg, parse_digits base 0 s2)
      | None => None
      end
  | [] => None
  end.

Definition stoul (s : bytes) (base : Z) : outcome Z :=
  match parse_number base s with
  | None => Throw (InvalidArgument "stoul")
  | Some (neg, v) =>
      if 2 ^ 64 <=? v then Throw (OutOfRange "stoul")
      else Ok (if neg then u64 (- v) else v)
  end.

Definition stoi (s : bytes) : outcome Z :=
  match parse_number 10 s with
  | None => Throw (InvalidArgument "stoi")
  | Some (neg, v) =>
      let r := if neg then - v else v in
      if (r <? - 2 ^ 31) || (2 ^ 31 <=? r) then Throw (OutOfRange "stoi") else Ok r
  end.

(** ** Indexing *)

Lemma at_lookup {A : Type} (s : list A) (i : nat) (b : A) :
  s !! i = Some b -> at_ s (Z.of_nat i) = Ok b.
Proof.
  intros Hb. pose proof (lookup_lt_Some _ _ _ Hb). unfold at_, size.
  rewrite (proj2 (Z.leb_le _ _)), (proj2 (Z.ltb_lt _ _)) by lia. cbn [andb].
  by rewrite Nat2Z.id, Hb.
Qed.

Lemma at_mid {A : Type} (a b : list A) (x : A) : at_ (a ++ x :: b) (size a) = Ok x.
Proof. unfold size. apply at_lookup. by apply list_lookup_middle. Qed.

Lemma at_total {A : Type} (s : list A) (i : Z) :
  0 <= i < size s -> exists b, at_ s i = Ok b /\ s !! Z.to_nat i = Some b.
Proof.
  intros Hi. unfold size in Hi.
  destruct (lookup_lt_is_Some_2 s (Z.to_nat i) ltac:(lia)) as [b Hb].
  exists b. split; [| done]. rewrite <- (Z2Nat.id i) by lia. by apply at_lookup.
Qed.

Lemma at_outside {A : Type} (s : list A) (i : Z) :
  i < 0 \/ size s <= i -> at_ s i = Undefined.
Proof.
  intros Hi. unfold at_.
  destruct (Z.leb_spec 0 i), (Z.ltb_spec i (size s)); cbn [andb]; done || lia.
Qed.

(** ** Printing and parsing numbers *)

Lemma digit_val_char (base d : Z) :
  base = 10 \/ base = 16 -> 0 <= d < base -> digit_val base (digit_char d) = Some d.
Proof.
  intros Hb Hd.
  assert (H : forallb (fun d =>
    (if d <? 10 then bool_decide (digit_val 10 (digit_char d) = Some d) else true)
    && bool_decide (digit_val 16 (digit_char d) = Some d)) (zrange 16) = true) by reflexivity.
  pose proof (zrange_forall 16 _ H d) as Hall. cbv beta in Hall.
  specialize (Hall ltac:(lia)). apply andb_prop in Hall as [H1 H2].
  apply bool_decide_eq_true in H2. destruct Hb as [-> | ->]; [| done].
  destruct (Z.ltb_spec d 10); [by apply bool_decide_eq_true in H1 | lia].
Qed.

(** The digits a number is printed with, and what reading them gives. *)
Lemma digits_of_spec (base : Z) (fuel : nat) (n : Z) (acc : bytes) :
  base = 10 \/ base = 16 -> 0 <= n < base ^ Z.of_nat fuel -> (0 < fuel)%nat ->
  exists ds, digits_of base fuel n acc = ds ++ acc /\ (0 < length ds <= fuel)%nat
    /\ Forall (fun b => exists d, 0 <= d < base /\ b = digit_char d) ds
    /\ forall a rest,
        parse_digits base a (ds ++ rest)
        = parse_digits base (a * base ^ Z.of_nat (length ds) + n) rest.
Proof.
  intros Hb. revert n acc. induction fuel as [| fuel IH]; intros n acc Hn Hf; [lia |].
  cbn [digits_of]. pose proof (Z.mod_pos_bound n base ltac:(lia)) as Hmod.
  destruct (Z.ltb_spec n base) as [Hlt | Hge].
  - exists [digit_char (n mod base)]. split; [done |]. split; [simpl; lia |]. split.
    + apply Forall_singleton. eauto.
    + intros a rest. simpl. rewrite digit_val_char by done.
      rewrite Z.mod_small by lia. change (Z.of_nat 1) with 1. by rewrite Z.pow_1_r.
  - destruct fuel as [| fuel].
    { change (Z.of_nat 1) with 1 in Hn. rewrite Z.pow_1_r in Hn. lia. }
    destruct (IH (n / base) (digit_char (n mod base) :: acc)) as (ds & -> & Hlen & Hds & Hp);
      [| lia |].
    { rewrite (Nat2Z.inj_succ (S fuel)), Z.pow_succ_r in Hn by lia.
      split; [apply Z.div_pos; lia | apply Z.div_lt_upper_bound; lia]. }
    exists (ds ++ [digit_char (n mod base)]). rewrite <- app_assoc. split; [done |].
    split; [rewrite length_app; simpl; lia |]. split.
    + apply Forall_app. split; [done |]. apply Forall_singleton. eauto.
    + intros a rest. rewrite <- app_assoc, Hp. simpl. rewrite digit_val_char by done.
      f_equal. rewrite length_app, Nat2Z.inj_add. change (Z.of_nat (length [_])) with 1.
      rewrite Z.pow_add_r, Z.pow_1_r by lia. pose proof (Z.div_mod n base ltac:(lia)). nia.
Qed.

(** Characters that are digits are not blanks, signs, CR or LF. *)
Lemma digit_char_plain (base d : Z) :
  base = 10 \/ base = 16 -> 0 <= d < base ->
  isspace (digit_char d) = false /\ Byte.eqb (digit_char d) x2d = false
  /\ Byte.eqb (digit_char d) x2b = false /\ Byte.eqb (digit_char d) x78 = false
  /\ Byte.eqb (digit_char d) x58 = false /\ Byte.eqb x0d (digit_char d) = false
  /\ Byte.eqb (digit_char d) x20 = false.
Proof.
  intros Hb Hd.
  assert (H : forallb (fun d =>
    negb (isspace (digit_char d)) && negb (Byte.eqb (digit_char d) x2d)
    && negb (Byte.eqb (digit_char d) x2b) && negb (Byte.eqb (digit_char d) x78)
    && negb (Byte.eqb (digit_char d) x58) && negb (Byte.eqb x0d (digit_char d))
    && negb (Byte.eqb (digit_char d) x20)) (zrange 16) = true) by reflexivity.
  pose proof (zrange_forall 16 _ H d) as Hall. cbv beta in Hall.
  specialize (Hall ltac:(lia)). to_prop. done.
Qed.

Lemma skip_0x_plain (base : Z) (b0 b1 : byte) (s : bytes) :
  Byte.eqb b1 x78 = false -> Byte.eqb b1 x58 = false ->
  skip_0x base (b0 :: b1 :: s) = b0 :: b1 :: s.
Proof.
  intros H1 H2. unfold skip_0x. rewrite H1, H2.
  destruct s; [done |]. by rewrite andb_false_r.
Qed.

Lemma parse_number_digits (base n : Z) (fuel : nat) :
  base = 10 \/ base = 16 -> 0 <= n < base ^ Z.of_nat fuel -> (0 < fuel)%nat ->
  parse_number base (digits_of base fuel n []) = Some (false, n).
Proof.
  intros Hb Hn Hf.
  destruct (digits_of_spec base fuel n [] Hb Hn Hf) as (ds & -> & Hlen & Hds & Hp).
  specialize (Hp 0 []). rewrite app_nil_r in *.
  destruct ds as [| b0 ds]; [simpl in Hlen; lia |].
  apply Forall_cons in Hds as [(d0 & Hd0 & ->) Hds].
  destruct (digit_char_plain base d0 Hb Hd0) as (Hs & Hm & Hpl & _).
  unfold parse_number. cbn [skip_space]. rewrite Hs. unfold parse_sign. rewrite Hm, Hpl.
  assert (Hskip : skip_0x base (digit_char d0 :: ds) = digit_char d0 :: ds).
  { destruct ds as [| b1 ds]; [done |].
    apply Forall_cons in Hds as [(d1 & Hd1 & ->) _].
    destruct (digit_char_plain base d1 Hb Hd1) as (_ & _ & _ & ? & ? & _).
    by apply skip_0x_plain. }
  rewrite Hskip, digit_val_char by done. by rewrite Hp.
Qed.

Lemma stoul_to_string (n : Z) : 0 <= n < 2 ^ 64 -> stoul (to_string n) 10 = Ok n.
Proof.
  intros Hn. unfold stoul, to_string. destruct (Z.ltb_spec n 0); [lia |].
  rewrite parse_number_digits; [| by left | lia | lia].
  destruct (Z.leb_spec (2 ^ 64) n); [lia | done].
Qed.

Lemma stoul_to_hex (n : Z) : 0 <= n < 2 ^ 64 -> stoul (to_hex n) 16 = Ok n.
Proof.
  intros Hn. unfold stoul, to_hex.
  rewrite parse_number_digits; [| by right | lia | lia].
  destruct (Z.leb_spec (2 ^ 64) n); [lia | done].
Qed.

Lemma to_hex_plain (n : Z) :
  0 <= n < 2 ^ 64 ->
  (0 < length (to_hex n) <= 16)%nat /\ Forall (fun b => Byte.eqb x0d b = false) (to_hex n).
Proof.
  intros Hn. unfold to_hex.
  destruct (digits_of_spec 16 16 n []) as (ds & -> & Hlen & Hds & _); [by right | lia | lia |].
  rewrite app_nil_r. split; [done |].
  eapply Forall_impl; [exact Hds |]. intros b (d & Hd & ->).
  by destruct (digit_char_plain 16 d (or_intror eq_refl) Hd) as (_ & _ & _ & _ & _ & ? & _).
Qed.

(** More fuel than digits changes nothing. *)
Lemma digits_of_fuel (base : Z) (fuel k : nat) (n : Z) (acc : bytes) :
  1 < base -> (0 < fuel)%nat -> 0 <= n < base ^ Z.of_nat fuel ->
  digits_of base (fuel + k) n acc = digits_of base fuel n acc.
Proof.
  intros Hb. revert n acc. induction fuel as [| fuel IH]; intros n acc Hf Hn; [lia |].
  cbn [Nat.add digits_of]. destruct (Z.ltb_spec n base); [done |].
  destruct fuel; [change (Z.of_nat 1) with 1 in Hn; rewrite Z.pow_1_r in Hn; lia |].
  apply IH; [lia |]. rewrite Nat2Z.inj_succ, Z.pow_succ_r in Hn by lia.
  split; [apply Z.div_pos; lia | apply Z.div_lt_upper_bound; lia].
Qed.

Lemma to_hex_short (n : Z) : 0 <= n < 2 ^ 52 -> (length (to_hex n) <= 13)%nat.
Proof.
  intros Hn. unfold to_hex. rewrite (digits_of_fuel 16 13 3) by lia.
  destruct (digits_of_spec 16 13 n []) as (ds & -> & Hl & _); [by right | lia | lia |].
  rewrite app_nil_r. lia.
Qed.
