(* ===== verification/UrlEncode.v ===== *)
(** Percent encoding: [utils::urlEncode], [urlEncodeComponent], [urlDecode]
    and [urlDecodeComponent] of src/src/utils/UrlEncode.cc. *)

From Stdlib Require Import ZArith Lia String Strings.Byte.
From stdpp Require Import base numbers option list.
From S2P Require Import Prelude CxxStd.
Open Scope Z_scope.

Definition kHex : bytes := str "0123456789ABCDEF".

Definition isUnreserved (c : byte) : bool :=
  in_range 65 90 c || in_range 97 122 c || in_range 48 57 c
  || Byte.eqb c x2d || Byte.eqb c x5f || Byte.eqb c x2e || Byte.eqb c x7e.

Definition hexVal (c : byte) : Z :=
  if in_range 48 57 c then b2z c - 48
  else if in_range 65 70 c then b2z c - 65 + 10
  else if in_range 97 102 c then b2z c - 97 + 10
  else -1.

Definition hexDigit (i : Z) : byte := nth (Z.to_nat i) kHex x00.

(** [result += '%'; result += kHex[uc >> 4]; result += kHex[uc & 0xf]] *)
Definition percentEncode (c : byte) : bytes :=
  [x25; hexDigit (Z.shiftr (b2z c) 4); hexDigit (Z.land (b2z c) 15)].

Fixpoint decodeImpl (decodePlus skipSlash : bool) (input : bytes) : bytes :=
  match input with
  | [] => []
  | c :: rest =>
      if decodePlus && Byte.eqb c x2b then x20 :: decodeImpl decodePlus skipSlash rest
      else if Byte.eqb c x25 then
        match rest with
        | h :: l :: rest' =>
            let hi := hexVal h in
            let lo := hexVal l in
            if (0 <=? hi) && (0 <=? lo) then
              let decoded := z2b (Z.lor (Z.shiftl hi 4) lo) in
              (if skipSlash && Byte.eqb decoded x2f then str "%2F" else [decoded])
                ++ decodeImpl decodePlus skipSlash rest'
            else x25 :: decodeImpl decodePlus skipSlash rest
        | _ => x25 :: decodeImpl decodePlus skipSlash rest
        end
      else c :: decodeImpl decodePlus skipSlash rest
  end.

Definition urlDecode (input : bytes) : bytes := decodeImpl false true input.

Definition urlDecodeComponent (input : bytes) : bytes := decodeImpl true false input.

Fixpoint urlEncode (input : bytes) : bytes :=
  match input with
  | [] => []
  | c :: rest =>
      (if isUnreserved c || Byte.eqb c x2f then [c]
       else if Byte.eqb c x2b then str "%2B"
       else percentEncode c) ++ urlEncode rest
  end.

Fixpoint urlEncodeComponent (input : bytes) : bytes :=
  match input with
  | [] => []
  | c :: rest =>
      (if isUnreserved c then [c]
       else if Byte.eqb c x2b then str "%2B"
       else percentEncode c) ++ urlEncodeComponent rest
  end.

(** ** Lemmas *)

(** The two encoders differ in the characters they let through. *)
Definition encodeChar (keepSlash : bool) (c : byte) : bytes :=
  if isUnreserved c || (keepSlash && Byte.eqb c x2f) then [c]
  else if Byte.eqb c x2b then str "%2B"
  else percentEncode c.

(** What an encoder emits for one character: itself, or an escape whose two
    digits give the character back. *)
Definition encodeChar_ok (keepSlash : bool) (c : byte) : bool :=
  match encodeChar keepSlash c with
  | [d] => Byte.eqb c d && negb (Byte.eqb c x25) && negb (Byte.eqb c x2b)
  | [p; h; l] =>
      Byte.eqb p x25 && (0 <=? hexVal h) && (0 <=? hexVal l)
      && Byte.eqb (z2b (Z.lor (Z.shiftl (hexVal h) 4) (hexVal l))) c
      && (negb keepSlash || negb (Byte.eqb c x2f))
  | _ => false
  end.

Lemma encodeChar_ok_all (keepSlash : bool) (c : byte) : encodeChar_ok keepSlash c = true.
Proof. apply byte_forall. by destruct keepSlash; vm_compute. Qed.

(** Decoding what the encoder emitted for a character gives the character. *)
Lemma decodeImpl_encodeChar (dp keepSlash : bool) (c : byte) (rest : bytes) :
  decodeImpl dp keepSlash (encodeChar keepSlash c ++ rest)
  = c :: decodeImpl dp keepSlash rest.
Proof.
  pose proof (encodeChar_ok_all keepSlash c) as Hok. unfold encodeChar_ok in Hok.
  destruct (encodeChar keepSlash c) as [| d [| h [| l [| ? ?]]]]; try done.
  - apply andb_prop in Hok as [[Hd Hp]%andb_prop Hplus].
    apply Byte.byte_dec_bl in Hd as <-. rewrite negb_true_iff in Hp, Hplus.
    simpl. rewrite Hp, Hplus. by rewrite andb_false_r.
  - apply andb_prop in Hok as [[[[Hd Hh]%andb_prop Hl]%andb_prop Hc]%andb_prop Hs].
    apply Byte.byte_dec_bl in Hd as ->. apply Byte.byte_dec_bl in Hc.
    cbn [app decodeImpl]. change (Byte.eqb x25 x2b) with false.
    change (Byte.eqb x25 x25) with true.
    rewrite andb_false_r, Hh, Hl, Hc. cbn [andb].
    destruct keepSlash; [| done]. simpl in Hs. rewrite negb_true_iff in Hs.
    by rewrite Hs.
Qed.

Lemma urlEncode_cons (c : byte) (s : bytes) :
  urlEncode (c :: s) = encodeChar true c ++ urlEncode s.
Proof. reflexivity. Qed.

Lemma urlEncodeComponent_cons (c : byte) (s : bytes) :
  urlEncodeComponent (c :: s) = encodeChar false c ++ urlEncodeComponent s.
Proof. unfold encodeChar. simpl. by rewrite orb_false_r. Qed.

(** ** Properties *)

(** Decoding undoes encoding, for whole paths ([urlEncode], which keeps
    [/]) and for components ([urlEncodeComponent]), on every byte string. *)
Theorem url_roundtrip (s : bytes) :
  urlDecode (urlEncode s) = s /\ urlDecodeComponent (urlEncodeComponent s) = s.
Proof.
  unfold urlDecode, urlDecodeComponent.
  induction s as [| c s [IH1 IH2]]; [done |].
  rewrite urlEncode_cons, urlEncodeComponent_cons, !decodeImpl_encodeChar.
  by rewrite IH1, IH2.
Qed.

Definition countByte (c : byte) (s : bytes) : nat := length (filter (fun b => b = c) s).

Lemma countByte_cons (c b : byte) (s : bytes) :
  countByte c (b :: s) = ((if decide (b = c) then 1 else 0) + countByte c s)%nat.
Proof. unfold countByte. rewrite filter_cons. by destruct (decide (b = c)). Qed.
