(* ===== verification/Base64.v ===== *)
(** Base64: [utils::base64Encode] and [utils::base64Decode] of
    src/src/utils/Base64.cc.  Both allocate the result first and then store
    its characters one by one ([result[j++] = ...]); the model keeps the
    buffer and the index, and a store outside the buffer is undefined. *)

From Stdlib Require Import ZArith Lia String Strings.Byte.
From stdpp Require Import base numbers option list.
From S2P Require Import Prelude CxxStd.
Open Scope Z_scope.

Definition kEncTable : bytes :=
  str "ABCDEFGHIJKLMNOPQRSTUVWXYZabcdefghijklmnopqrstuvwxyz0123456789+/".

Definition kDecTable : list Z :=
  [-1;-1;-1;-1;-1;-1;-1;-1;-1;-1;-1;-1;-1;-1;-1;-1;
   -1;-1;-1;-1;-1;-1;-1;-1;-1;-1;-1;-1;-1;-1;-1;-1;
   -1;-1;-1;-1;-1;-1;-1;-1;-1;-1;-1;62;-1;-1;-1;63;
   52;53;54;55;56;57;58;59;60;61;-1;-1;-1;-1;-1;-1;
   -1; 0; 1; 2; 3; 4; 5; 6; 7; 8; 9;10;11;12;13;14;
   15;16;17;18;19;20;21;22;23;24;25;-1;-1;-1;-1;-1;
   -1;26;27;28;29;30;31;32;33;34;35;36;37;38;39;40;
   41;42;43;44;45;46;47;48;49;50;51;-1;-1;-1;-1;-1;
   -1;-1;-1;-1;-1;-1;-1;-1;-1;-1;-1;-1;-1;-1;-1;-1;
   -1;-1;-1;-1;-1;-1;-1;-1;-1;-1;-1;-1;-1;-1;-1;-1;
   -1;-1;-1;-1;-1;-1;-1;-1;-1;-1;-1;-1;-1;-1;-1;-1;
   -1;-1;-1;-1;-1;-1;-1;-1;-1;-1;-1;-1;-1;-1;-1;-1;
   -1;-1;-1;-1;-1;-1;-1;-1;-1;-1;-1;-1;-1;-1;-1;-1;
   -1;-1;-1;-1;-1;-1;-1;-1;-1;-1;-1;-1;-1;-1;-1;-1;
   -1;-1;-1;-1;-1;-1;-1;-1;-1;-1;-1;-1;-1;-1;-1;-1;
   -1;-1;-1;-1;-1;-1;-1;-1;-1;-1;-1;-1;-1;-1;-1;-1].

Definition enc (v : Z) : byte := nth (Z.to_nat v) kEncTable x00.
Definition dec (c : byte) : Z := nth (Z.to_nat (b2z c)) kDecTable (-1).

(** The result under construction: the buffer and [j]. *)
Definition writer : Type := bytes * nat.

(** [result[j++] = b] *)
Definition put (b : byte) (w : writer) : outcome writer :=
  let '(buf, j) := w in
  if (j <? length buf)%nat then Ok (<[j := b]> buf, S j) else Undefined.

Fixpoint encodeLoop (src : bytes) (w : writer) : outcome writer :=
  match src with
  | a :: b :: c :: src' =>
      let! w := put (enc (Z.shiftr (b2z a) 2)) w in
      let! w := put (enc (Z.lor (Z.shiftl (Z.land (b2z a) 3) 4) (Z.shiftr (b2z b) 4))) w in
      let! w := put (enc (Z.lor (Z.shiftl (Z.land (b2z b) 15) 2) (Z.shiftr (b2z c) 6))) w in
      let! w := put (enc (Z.land (b2z c) 63)) w in
      encodeLoop src' w
  | [a; b] =>
      let! w := put (enc (Z.shiftr (b2z a) 2)) w in
      let! w := put (enc (Z.lor (Z.shiftl (Z.land (b2z a) 3) 4) (Z.shiftr (b2z b) 4))) w in
      let! w := put (enc (Z.shiftl (Z.land (b2z b) 15) 2)) w in
      put x3d w
  | [a] =>
      let! w := put (enc (Z.shiftr (b2z a) 2)) w in
      let! w := put (enc (Z.shiftl (Z.land (b2z a) 3) 4)) w in
      let! w := put x3d w in
      put x3d w
  | [] => Ok w
  end.

Definition base64Encode (input : bytes) : outcome bytes :=
  let outLen := (((length input + 2) / 3) * 4)%nat in
  let! w := encodeLoop input (replicate outLen x00, 0%nat) in
  Ok (fst w).

(** One group of four characters. *)
Definition decodeGroup (i0 i1 i2 i3 : byte) (w : writer) : outcome writer :=
  let a := dec i0 in
  let b := dec i1 in
  let c := dec i2 in
  let d := dec i3 in
  if (a <? 0) || (b <? 0) then Throw (InvalidArgument "base64Decode: invalid character")
  else
    let! w := put (z2b (Z.lor (Z.shiftl a 2) (Z.shiftr b 4))) w in
    let! w :=
      (if negb (Byte.eqb i2 x3d) then
         if c <? 0 then Throw (InvalidArgument "base64Decode: invalid character")
         else put (z2b (Z.lor (Z.shiftl (Z.land b 15) 4) (Z.shiftr c 2))) w
       else Ok w) in
    if negb (Byte.eqb i3 x3d) then
      if d <? 0 then Throw (InvalidArgument "base64Decode: invalid character")
      else put (z2b (Z.lor (Z.shiftl (Z.land c 3) 6) d)) w
    else Ok w.

Fixpoint decodeLoop (input : bytes) (w : writer) : outcome writer :=
  match input with
  | [] => Ok w
  | i0 :: i1 :: i2 :: i3 :: input' =>
      let! w := decodeGroup i0 i1 i2 i3 w in
      decodeLoop input' w
  | _ => Undefined
  end.

Definition padInput (input : bytes) : bytes :=
  if (length input mod 4 =? 0)%nat then input
  else input ++ replicate (4 - length input mod 4) x3d.

Definition base64Decode (input0 : bytes) : outcome bytes :=
  let input := padInput input0 in
  let outLen := ((length input / 4) * 3)%nat in
  let! l1 := at_ input (u64 (size input - 1)) in
  let outLen := if Byte.eqb l1 x3d then (outLen - 1)%nat else outLen in
  let! l2 := at_ input (u64 (size input - 2)) in
  let outLen := if Byte.eqb l2 x3d then (outLen - 1)%nat else outLen in
  let! w := decodeLoop input (replicate outLen x00, 0%nat) in
  Ok (fst w).

Example base64_rfc4648 :
  base64Encode (str "foobar") = Ok (str "Zm9vYmFy")
  /\ base64Encode (str "fooba") = Ok (str "Zm9vYmE=")
  /\ base64Decode (str "Zm9vYg==") = Ok (str "foob").
Proof. by vm_compute. Qed.

(** ** The result buffer *)

(** A buffer in which [w] has been stored and [k] bytes are still zero. *)
Definition partial (w : bytes) (k : nat) : writer := (w ++ replicate k x00, length w).

Lemma put_partial (b : byte) (w : bytes) (k : nat) :
  put b (partial w (S k)) = Ok (partial (w ++ [b]) k).
Proof.
  unfold put, partial. rewrite length_app, length_replicate.
  destruct (Nat.ltb_spec (length w) (length w + S k)); [| lia].
  rewrite length_app, Nat.add_1_r. simpl. repeat f_equal.
  rewrite <- (Nat.add_0_r (length w)), insert_app_r. simpl. by rewrite <- app_assoc.
Qed.

Lemma put_safe (b : byte) (buf : bytes) (j : nat) :
  (j < length buf)%nat -> exists buf', put b (buf, j) = Ok (buf', S j) /\ length buf' = length buf.
Proof.
  intros Hj. unfold put. destruct (Nat.ltb_spec j (length buf)); [| lia].
  eexists. split; [done |]. apply length_insert.
Qed.

(** ** What the encoder writes *)

Fixpoint encodeSpec (src : bytes) : bytes :=
  match src with
  | a :: b :: c :: src' =>
      [enc (Z.shiftr (b2z a) 2);
       enc (Z.lor (Z.shiftl (Z.land (b2z a) 3) 4) (Z.shiftr (b2z b) 4));
       enc (Z.lor (Z.shiftl (Z.land (b2z b) 15) 2) (Z.shiftr (b2z c) 6));
       enc (Z.land (b2z c) 63)] ++ encodeSpec src'
  | [a; b] =>
      [enc (Z.shiftr (b2z a) 2);
       enc (Z.lor (Z.shiftl (Z.land (b2z a) 3) 4) (Z.shiftr (b2z b) 4));
       enc (Z.shiftl (Z.land (b2z b) 15) 2); x3d]
  | [a] => [enc (Z.shiftr (b2z a) 2); enc (Z.shiftl (Z.land (b2z a) 3) 4); x3d; x3d]
  | [] => []
  end.

(** Induction three characters at a time. *)
Lemma triple_ind (P : bytes -> Prop) :
  P [] -> (forall a, P [a]) -> (forall a b, P [a; b]) ->
  (forall a b c s, P s -> P (a :: b :: c :: s)) -> forall s, P s.
Proof.
  intros H0 H1 H2 H3. fix IH 1.
  intros [| a [| b [| c s]]]; [exact H0 | apply H1 | apply H2 | apply H3, IH].
Qed.

Lemma length_encodeSpec (src : bytes) :
  length (encodeSpec src) = (((length src + 2) / 3) * 4)%nat.
Proof.
  induction src as [| | | a b c src IH] using triple_ind; try done.
  cbn [encodeSpec length app]. rewrite IH.
  replace (S (S (S (length src))) + 2)%nat with (length src + 2 + 1 * 3)%nat by lia.
  rewrite Nat.div_add by lia. lia.
Qed.

Lemma encodeLoop_spec (src w : bytes) (k : nat) :
  encodeLoop src (partial w (length (encodeSpec src) + k)) = Ok (partial (w ++ encodeSpec src) k).
Proof.
  revert w. induction src as [| a | a b | a b c src IH] using triple_ind; intros w;
    cbn [encodeLoop encodeSpec length Nat.add app]; rewrite ?put_partial; cbn [obind];
    rewrite ?put_partial; cbn [obind]; rewrite ?put_partial; cbn [obind];
    rewrite ?put_partial; cbn [obind].
  - by rewrite app_nil_r.
  - by rewrite <- !app_assoc.
  - by rewrite <- !app_assoc.
  - rewrite IH. by rewrite <- !app_assoc.
Qed.

Lemma base64Encode_spec (s : bytes) : base64Encode s = Ok (encodeSpec s).
Proof.
  unfold base64Encode. rewrite <- length_encodeSpec.
  change (replicate _ x00, 0%nat) with (partial [] (length (encodeSpec s))).
  rewrite <- (Nat.add_0_r (length (encodeSpec s))), encodeLoop_spec. simpl.
  by rewrite app_nil_r.
Qed.

(** ** Decoding what was encoded *)

Lemma dec_enc (v : Z) : 0 <= v < 64 -> dec (enc v) = v.
Proof.
  intros Hv. apply Z.eqb_eq. revert v Hv. by apply (zrange_forall 64).
Qed.

Lemma enc_not_pad (v : Z) : 0 <= v < 64 -> Byte.eqb (enc v) x3d = false.
Proof.
  intros Hv. apply negb_true_iff. revert v Hv.
  by apply (zrange_forall 64 (fun v => negb (Byte.eqb (enc v) x3d))).
Qed.

Section group.
Context (a b c : byte).

Let v1 := Z.shiftr (b2z a) 2.
Let v2 := Z.lor (Z.shiftl (Z.land (b2z a) 3) 4) (Z.shiftr (b2z b) 4).
Let v3 := Z.lor (Z.shiftl (Z.land (b2z b) 15) 2) (Z.shiftr (b2z c) 6).
Let v4 := Z.land (b2z c) 63.

Lemma group_ranges : 0 <= v1 < 64 /\ 0 <= v2 < 64 /\ 0 <= v3 < 64 /\ 0 <= v4 < 64.
Proof.
  pose proof (b2z_range a). pose proof (b2z_range b). pose proof (b2z_range c).
  unfold v1, v2, v3, v4. repeat split; solve_bits.
Qed.

Lemma group_values :
  z2b (Z.lor (Z.shiftl v1 2) (Z.shiftr v2 4)) = a
  /\ z2b (Z.lor (Z.shiftl (Z.land v2 15) 4) (Z.shiftr v3 2)) = b
  /\ z2b (Z.lor (Z.shiftl (Z.land v3 3) 6) v4) = c.
Proof.
  pose proof (b2z_range a). pose proof (b2z_range b). pose proof (b2z_range c).
  unfold v1, v2, v3, v4. repeat split; apply z2b_eq_iff; solve_bits.
Qed.
End group.

Lemma ltb_neg_false (v : Z) : 0 <= v -> (v <? 0) = false.
Proof. lia. Qed.

Lemma decodeGroup_full (a b c : byte) (w : bytes) (k : nat) :
  decodeGroup (enc (Z.shiftr (b2z a) 2))
    (enc (Z.lor (Z.shiftl (Z.land (b2z a) 3) 4) (Z.shiftr (b2z b) 4)))
    (enc (Z.lor (Z.shiftl (Z.land (b2z b) 15) 2) (Z.shiftr (b2z c) 6)))
    (enc (Z.land (b2z c) 63)) (partial w (S (S (S k))))
  = Ok (partial (w ++ [a; b; c]) k).
Proof.
  destruct (group_ranges a b c) as (? & ? & ? & ?).
  destruct (group_values a b c) as (Ha & Hb & Hc).
  unfold decodeGroup. rewrite !dec_enc, !ltb_neg_false, !enc_not_pad by lia.
  cbn [orb negb]. rewrite Ha, put_partial. cbn [obind].
  rewrite Hb, put_partial. cbn [obind]. rewrite Hc, put_partial.
  by rewrite <- !app_assoc.
Qed.

Lemma decodeGroup_two (a b : byte) (w : bytes) (k : nat) :
  decodeGroup (enc (Z.shiftr (b2z a) 2))
    (enc (Z.lor (Z.shiftl (Z.land (b2z a) 3) 4) (Z.shiftr (b2z b) 4)))
    (enc (Z.shiftl (Z.land (b2z b) 15) 2)) x3d (partial w (S (S k)))
  = Ok (partial (w ++ [a; b]) k).
Proof.
  destruct (group_ranges a b x00) as (? & ? & Hr & _).
  destruct (group_values a b x00) as (Ha & Hb & _).
  change (Z.shiftr (b2z x00) 6) with 0 in *. rewrite Z.lor_0_r in *.
  unfold decodeGroup. rewrite !dec_enc, !ltb_neg_false, !enc_not_pad by lia.
  change (Byte.eqb x3d x3d) with true. cbn [orb negb].
  rewrite Ha, put_partial. cbn [obind]. rewrite Hb, put_partial. cbn [obind].
  by rewrite <- !app_assoc.
Qed.

Lemma decodeGroup_one (a : byte) (w : bytes) (k : nat) :
  decodeGroup (enc (Z.shiftr (b2z a) 2)) (enc (Z.shiftl (Z.land (b2z a) 3) 4)) x3d x3d
    (partial w (S k))
  = Ok (partial (w ++ [a]) k).
Proof.
  destruct (group_ranges a x00 x00) as (? & Hr & _ & _).
  destruct (group_values a x00 x00) as (Ha & _ & _).
  change (Z.shiftr (b2z x00) 4) with 0 in *. rewrite Z.lor_0_r in *.
  unfold decodeGroup. rewrite !dec_enc, !ltb_neg_false by lia.
  change (Byte.eqb x3d x3d) with true. cbn [orb negb].
  by rewrite Ha, put_partial.
Qed.

Lemma decodeLoop_encodeSpec (s w : bytes) :
  decodeLoop (encodeSpec s) (partial w (length s)) = Ok (partial (w ++ s) 0).
Proof.
  revert w. induction s as [| a | a b | a b c s IH] using triple_ind; intros w.
  - simpl. by rewrite app_nil_r.
  - cbn [encodeSpec decodeLoop length]. by rewrite decodeGroup_one.
  - cbn [encodeSpec decodeLoop length]. by rewrite decodeGroup_two.
  - cbn [encodeSpec decodeLoop length app]. rewrite decodeGroup_full. cbn [obind].
    rewrite IH. by rewrite <- app_assoc.
Qed.

(** The padding of an encoded string tells how many bytes it encodes. *)
Definition padCount (s : bytes) : nat :=
  (if Byte.eqb (nth (length s - 1) s x00) x3d then 1 else 0)
  + (if Byte.eqb (nth (length s - 2) s x00) x3d then 1 else 0).

Lemma padCount_encodeSpec (s : bytes) :
  s <> [] -> (padCount (encodeSpec s) + length s = length (encodeSpec s) / 4 * 3)%nat.
Proof.
  rewrite length_encodeSpec, Nat.div_mul by lia.
  induction s as [| a | a b | a b c s IH] using triple_ind; intros Hs; [done | | |].
  - done.
  - unfold padCount. cbn [encodeSpec length Nat.sub nth].
    change (Byte.eqb x3d x3d) with true.
    destruct (group_ranges a b x00) as (_ & _ & Hr & _).
    change (Z.shiftr (b2z x00) 6) with 0 in *. rewrite Z.lor_0_r in *.
    by rewrite enc_not_pad.
  - replace (length (a :: b :: c :: s) + 2)%nat with (length s + 2 + 1 * 3)%nat by (simpl; lia).
    rewrite Nat.div_add by lia.
    destruct (decide (s = [])) as [-> | Hne].
    + destruct (group_ranges a b c) as (_ & _ & H3 & H4).
      unfold padCount. cbn [encodeSpec length Nat.sub nth app].
      by rewrite !enc_not_pad.
    + specialize (IH Hne). cbn [length]. rewrite Nat.mul_add_distr_r.
      rewrite <- IH. cut (padCount (encodeSpec (a :: b :: c :: s)) = padCount (encodeSpec s)); [lia |].
      assert (Hlen : (4 <= length (encodeSpec s))%nat).
      { destruct s as [| a1 [| b1 [| c1 s]]]; [done | simpl; lia ..]. }
      unfold padCount. cbn [encodeSpec app length].
      do 2 (match goal with |- context [nth (S ?n - ?k) _] =>
        replace (S n - k)%nat with (S (S (S (S (length (encodeSpec s) - k)))))
          by lia end).
      done.
Qed.

Lemma last_read (s : bytes) (k : nat) :
  (0 < k <= length s)%nat -> size s < 2 ^ 64 ->
  at_ s (u64 (size s - Z.of_nat k)) = Ok (nth (length s - k) s x00).
Proof.
  intros Hk Hsize. unfold u64, size in *. rewrite Z.mod_small by lia.
  replace (Z.of_nat (length s) - Z.of_nat k) with (Z.of_nat (length s - k)) by lia.
  apply at_lookup. destruct (nth_lookup_or_length s (length s - k) x00); [done | lia].
Qed.

Lemma padInput_length (s : bytes) : exists n, length (padInput s) = (4 * n)%nat.
Proof.
  unfold padInput. pose proof (Nat.div_mod_eq (length s) 4) as Hd.
  destruct (Nat.eqb_spec (length s mod 4) 0) as [H0 | H0].
  - exists (length s / 4)%nat. lia.
  - pose proof (Nat.mod_upper_bound (length s) 4 ltac:(lia)).
    exists (S (length s / 4)). rewrite length_app, length_replicate. lia.
Qed.

(** The decoder once its padding and its two reads of the end are resolved. *)
Lemma base64Decode_unfold (s : bytes) :
  s <> [] -> size s < 2 ^ 62 ->
  base64Decode s =
    let input := padInput s in
    obind (decodeLoop input (replicate (length input / 4 * 3 - padCount input) x00, 0%nat))
      (fun w => Ok (fst w)).
Proof.
  intros Hs Hsize. destruct (padInput_length s) as [n Hn].
  assert (Hle : (length s <= length (padInput s) <= length s + 4)%nat).
  { unfold padInput. destruct (length s mod 4 =? 0)%nat; [lia |].
    rewrite length_app, length_replicate. lia. }
  assert (Hpos : (0 < length s)%nat) by (destruct s; [done | simpl; lia]).
  unfold size in Hsize. unfold base64Decode.
  rewrite (last_read _ 1), (last_read _ 2) by (unfold size; lia). cbn [obind].
  unfold padCount. cbv zeta.
  destruct (Byte.eqb (nth (length (padInput s) - 1) _ _) _),
    (Byte.eqb (nth (length (padInput s) - 2) _ _) _); cbn [Nat.add];
    by rewrite <- ?Nat.sub_add_distr, ?Nat.sub_0_r.
Qed.

(** ** Memory safety of the decoder *)

(** An upper bound on the stores the decoder does for its input. *)
Fixpoint stores (input : bytes) : nat :=
  match input with
  | _ :: _ :: i2 :: i3 :: input' =>
      (1 + (if Byte.eqb i2 x3d then 0 else 1) + (if Byte.eqb i3 x3d then 0 else 1)
       + stores input')%nat
  | _ => 0%nat
  end.

Lemma decodeGroup_safe (i0 i1 i2 i3 : byte) (buf : bytes) (j : nat) :
  (j + stores [i0; i1; i2; i3] <= length buf)%nat ->
  match decodeGroup i0 i1 i2 i3 (buf, j) with
  | Ok (buf', j') => length buf' = length buf /\ j' = (j + stores [i0; i1; i2; i3])%nat
  | Throw _ => True
  | Undefined | Diverge => False
  end.
Proof.
  cbn [stores]. intros Hj. unfold decodeGroup.
  destruct ((dec i0 <? 0) || (dec i1 <? 0)); [done |].
  match goal with |- context [put ?b (buf, j)] =>
    destruct (put_safe b buf j ltac:(lia)) as (buf1 & -> & Hb1) end. cbn [obind].
  destruct (Byte.eqb i2 x3d), (Byte.eqb i3 x3d); cbn [negb obind];
    repeat first
      [ destruct (_ <? 0); [done |]
      | match goal with |- context [put ?b (?buf0, ?j0)] =>
          let Hs := fresh in
          destruct (put_safe b buf0 j0 ltac:(lia)) as (? & Hs & ?); rewrite Hs; clear Hs;
          cbn [obind] end ];
    split; lia || congruence.
Qed.

Lemma decodeLoop_safe (n : nat) (input buf : bytes) (j : nat) :
  length input = (4 * n)%nat -> (j + stores input <= length buf)%nat ->
  decodeLoop input (buf, j) <> Undefined.
Proof.
  revert input buf j. induction n as [| n IH]; intros input buf j Hlen Hj.
  - by destruct input.
  - destruct input as [| i0 [| i1 [| i2 [| i3 input]]]]; try (simpl in Hlen; lia).
    cbn [decodeLoop]. cbn [stores] in Hj.
    pose proof (decodeGroup_safe i0 i1 i2 i3 buf j) as Hg. cbn [stores] in Hg.
    specialize (Hg ltac:(lia)).
    destruct (decodeGroup i0 i1 i2 i3 (buf, j)) as [[buf' j'] | | |]; cbn [obind]; try done.
    destruct Hg as [Hb ->]. apply IH; simpl in Hlen; lia.
Qed.

(** Only the last group's padding is subtracted from the buffer. *)
Lemma stores_fit (n : nat) (input : bytes) :
  length input = (4 * S n)%nat -> (stores input + padCount input <= 3 * S n)%nat.
Proof.
  revert input. induction n as [| n IH]; intros input Hlen;
    destruct input as [| i0 [| i1 [| i2 [| i3 input]]]]; try (simpl in Hlen; lia).
  - destruct input; [| simpl in Hlen; lia]. unfold padCount. cbn [stores length Nat.sub nth].
    destruct (Byte.eqb i2 x3d), (Byte.eqb i3 x3d); lia.
  - assert (Hpad : padCount (i0 :: i1 :: i2 :: i3 :: input) = padCount input).
    { unfold padCount. simpl in Hlen. cbn [length].
      do 2 (match goal with |- context [nth (S ?m - ?k) _] =>
        replace (S m - k)%nat with (S (S (S (S (length input - k))))) by lia end).
      done. }
    rewrite Hpad. specialize (IH input ltac:(simpl in Hlen; lia)). cbn [stores].
    destruct (Byte.eqb i2 x3d), (Byte.eqb i3 x3d); lia.
Qed.

(** ** Properties *)

(** Decoding an encoded string gives the string back, whatever its length
    modulo three; the encoder itself never stores outside its result, and its
    result has four characters per group of three bytes. *)
Theorem base64_roundtrip (s : bytes) :
  s <> [] -> size s < 2 ^ 60 ->
  exists e, base64Encode s = Ok e
    /\ length e = (((length s + 2) / 3) * 4)%nat
    /\ base64Decode e = Ok s.
Proof.
  intros Hs Hsize. exists (encodeSpec s).
  pose proof (length_encodeSpec s) as Hlen.
  assert (Hbound : (length (encodeSpec s) <= 2 * (length s + 2))%nat).
  { rewrite Hlen. pose proof (Nat.Div0.mul_div_le (length s + 2) 3). lia. }
  split; [apply base64Encode_spec |]. split; [done |].
  assert (Hpad : padInput (encodeSpec s) = encodeSpec s).
  { unfold padInput. rewrite Hlen, Nat.Div0.mod_mul. done. }
  rewrite base64Decode_unfold.
  - cbv zeta. rewrite Hpad, <- padCount_encodeSpec by done.
    replace (padCount (encodeSpec s) + length s - padCount (encodeSpec s))%nat
      with (length s) by lia.
    change (replicate (length s) x00, 0%nat) with (partial [] (length s)).
    rewrite decodeLoop_encodeSpec. cbn [obind fst app partial]. by rewrite app_nil_r.
  - intros He. rewrite He in Hlen. destruct s as [| ? [| ? [| ? ?]]]; simpl in *; done || lia.
  - unfold size in *. destruct s; [done |]. lia.
Qed.

Lemma base64_roundtrip_witness :
  exists e, base64Encode (str "any carnal pleas") = Ok e
    /\ length e = (((16 + 2) / 3) * 4)%nat
    /\ base64Decode e = Ok (str "any carnal pleas").
Proof. apply (base64_roundtrip (str "any carnal pleas")); [done | reflexivity]. Defined.

(** On every non-empty input, valid or not, the decoder stays inside its
    result: it returns or throws, and never stores or reads out of bounds. *)
Theorem base64Decode_memory_safe (s : bytes) :
  s <> [] -> size s < 2 ^ 62 -> base64Decode s <> Undefined.
Proof.
  intros Hs Hsize. rewrite base64Decode_unfold by done. cbv zeta.
  destruct (padInput_length s) as [[| n] Hn].
  - destruct (padInput s) eqn:Hp; [| done]. unfold padInput in Hp.
    destruct (_ =? 0)%nat; [done |]. by apply app_eq_nil in Hp as [? _].
  - pose proof (stores_fit n (padInput s) Hn) as Hfit.
    rewrite Hn. replace (4 * S n / 4)%nat with (S n) by (symmetry; rewrite Nat.mul_comm; by apply Nat.div_mul).
    pose proof (decodeLoop_safe (S n) (padInput s)
      (replicate (S n * 3 - padCount (padInput s)) x00) 0 Hn) as Hsafe.
    rewrite length_replicate in Hsafe. specialize (Hsafe ltac:(lia)).
    by destruct (decodeLoop _ _) as [[? ?] | | |].
Qed.

Lemma base64Decode_memory_safe_witness : base64Decode (str "A=*=") <> Undefined.
Proof. apply (base64Decode_memory_safe (str "A=*=")); [done | reflexivity]. Defined.

(** The empty input is read at [size() - 1]. *)
Lemma base64Decode_empty_undefined : base64Decode [] = Undefined.
Proof. reflexivity. Qed.
