(* ===== verification/ByteStream.v ===== *)
(** Byte streams: the interface [io::Stream] of
    src/include/nitrocoro/io/Stream.h as its clients use it, and a concrete
    stream that delivers a script of segments.

    [io::Stream] erases the type of a connection; what a client relies on is
    [read], which gives between one and [len] of the bytes the peer sent, in
    order, and no byte only at the end of the stream, and [write], which
    appends to what the peer receives.  The class states exactly that, the
    readers and sessions are verified against it, and a stream whose reads
    are cut at arbitrary places implements it. *)

From Stdlib Require Import ZArith Lia String Strings.Byte.
From stdpp Require Import base numbers option list.
From S2P Require Import Prelude CxxStd.
Open Scope Z_scope.

Class ByteStream (S : Type) : Type := {
  stream_read : nat -> S -> bytes * S;
  stream_write : bytes -> S -> S;
  pending : S -> bytes;  (** what the peer sent and nobody read yet *)
  sent : S -> bytes;     (** what has been written to the peer *)
  stream_read_ok (n : nat) (s s' : S) (r : bytes) :
    stream_read n s = (r, s') ->
    pending s = r ++ pending s' /\ (length r <= n)%nat
    /\ (r = [] -> n = 0%nat \/ pending s = []) /\ sent s' = sent s;
  stream_write_ok (d : bytes) (s : S) :
    sent (stream_write d s) = sent s ++ d /\ pending (stream_write d s) = pending s
}.

(** ** The segments of a connection *)

(** The segments that arrive, in order; a read takes bytes of the first one. *)
Record script : Type := Script {
  segments : list bytes;
  written : bytes
}.

(** Empty segments carry nothing. *)
Fixpoint read_segments (n : nat) (segs : list bytes) : bytes * list bytes :=
  match segs with
  | [] => ([], [])
  | [] :: segs' => read_segments n segs'
  | c :: segs' =>
      if (length c <=? n)%nat then (c, segs') else (take n c, drop n c :: segs')
  end.

Lemma read_segments_ok (n : nat) (segs segs' : list bytes) (r : bytes) :
  read_segments n segs = (r, segs') ->
  concat segs = r ++ concat segs' /\ (length r <= n)%nat
  /\ (r = [] -> n = 0%nat \/ concat segs = []).
Proof.
  induction segs as [| [| b c] segs IH]; intros H.
  - simplify_eq/=. split; [done | split; [lia | auto]].
  - by apply IH.
  - cbn [read_segments] in H.
    destruct (Nat.leb_spec (length (b :: c)) n); simplify_eq/=.
    + split; [done | split; [done |]]. done.
    + split; [by rewrite app_comm_cons, app_assoc, take_drop |]. split.
      * rewrite length_take. lia.
      * intros Hr. left. by destruct n.
Qed.

#[export, refine] Instance script_stream : ByteStream script := {
  stream_read n s :=
    let '(r, segs) := read_segments n (segments s) in (r, Script segs (written s));
  stream_write d s := Script (segments s) (written s ++ d);
  pending s := concat (segments s);
  sent := written
}.
Proof.
  - intros n s s' r H. destruct (read_segments n (segments s)) as [r0 segs] eqn:Hr.
    simplify_eq/=. by apply read_segments_ok in Hr as (? & ? & ?).
  - by intros d [segs w].
Defined.

(** ** [readExact]: read until [len] bytes have arrived *)

Section read_exact.
Context {S : Type} `{!ByteStream S}.

(** The loop of [readExact]: each round asks for what is missing.  A round
    that ends the loop early returns [None].  Every round but the last
    receives a byte, so [len] rounds and one more are enough. *)
Fixpoint readExactLoop (fuel len : nat) (acc : bytes) (s : S) : outcome (option bytes) * S :=
  if (length acc <? len)%nat then
    match fuel with
    | O => (Diverge, s)
    | Datatypes.S fuel' =>
        let '(r, s') := stream_read (len - length acc) s in
        match r with
        | [] => (Ok None, s')
        | _ => readExactLoop fuel' len (acc ++ r) s'
        end
    end
  else (Ok (Some acc), s).

Definition readExact (len : nat) (s : S) : outcome (option bytes) * S :=
  readExactLoop (Datatypes.S len) len [] s.

Lemma readExactLoop_spec (fuel len : nat) (acc : bytes) (s : S) :
  (length acc <= len)%nat -> (len - length acc < fuel)%nat ->
  exists s', sent s' = sent s /\
    if (length acc + length (pending s) <? len)%nat
    then readExactLoop fuel len acc s = (Ok None, s')
    else readExactLoop fuel len acc s
           = (Ok (Some (acc ++ take (len - length acc) (pending s))), s')
         /\ pending s' = drop (len - length acc) (pending s).
Proof.
  revert acc s. induction fuel as [| fuel IH]; intros acc s Hacc Hfuel; [lia |].
  cbn [readExactLoop]. destruct (Nat.ltb_spec (length acc) len) as [Hlt | Hge].
  - destruct (stream_read (len - length acc) s) as [r s1] eqn:Hr.
    apply stream_read_ok in Hr as (Hp & Hlen & Hend & Hsent).
    destruct r as [| b r].
    + destruct (Hend eq_refl) as [? | Hnil]; [lia |]. exists s1. split; [done |].
      rewrite Hnil. simpl. destruct (Nat.ltb_spec (length acc + 0) len); [done | lia].
    + destruct (IH (acc ++ b :: r) s1) as (s' & Hs' & Hres).
      { rewrite length_app. lia. }
      { rewrite length_app. simpl. lia. }
      exists s'. split; [congruence |]. rewrite Hp.
      rewrite length_app in Hres. rewrite length_app.
      replace (length acc + (length (b :: r) + length (pending s1)))%nat
        with (length acc + length (b :: r) + length (pending s1))%nat by lia.
      destruct (_ <? len)%nat; [done |]. destruct Hres as [-> ->].
      replace (len - (length acc + length (b :: r)))%nat
        with (len - length acc - length (b :: r))%nat by lia.
      rewrite take_app_ge, drop_app_ge by lia. by rewrite <- app_assoc.
  - exists s. split; [done |].
    replace (len - length acc)%nat with 0%nat by lia.
    destruct (Nat.ltb_spec (length acc + length (pending s)) len); [lia |].
    by rewrite take_0, app_nil_r, drop_0.
Qed.

(** [readExact] gives exactly the next [len] bytes, however the stream cuts
    them, and [None] when the stream ends before. *)
Lemma readExact_spec (len : nat) (s : S) :
  exists s', sent s' = sent s /\
    if (length (pending s) <? len)%nat
    then readExact len s = (Ok None, s')
    else readExact len s = (Ok (Some (take len (pending s))), s')
         /\ pending s' = drop len (pending s).
Proof.
  destruct (readExactLoop_spec (Datatypes.S len) len [] s) as (s' & Hs & H);
    [simpl; lia .. |].
  exists s'. split; [done |]. simpl length in H. by rewrite Nat.sub_0_r in H.
Qed.
End read_exact.
