(* ===== verification/StringBuffer.v ===== *)
(** [utils::StringBuffer] of src/include/nitrocoro/utils/StringBuffer.h: a
    string with a read and a write offset, compacted or grown before a write.

    The offsets are counted without wrapping (a [std::string] never reaches
    [2^63] bytes); an access outside [buffer_] is undefined, in particular any
    access after [consume], which does not check its argument, moved the read
    offset past the write offset. *)

From Stdlib Require Import ZArith Lia String Strings.Byte.
From stdpp Require Import base numbers option list.
From S2P Require Import Prelude CxxStd.
Open Scope Z_scope.

Record StringBuffer : Type := mkStringBuffer {
  buffer_ : bytes;
  readOffset_ : nat;
  writeOffset_ : nat
}.

Definition empty_buffer : StringBuffer := mkStringBuffer [] 0 0.

Definition inside (b : StringBuffer) : bool :=
  (readOffset_ b <=? writeOffset_ b)%nat && (writeOffset_ b <=? length (buffer_ b))%nat.

(** The bytes written and not consumed. *)
Definition contents (b : StringBuffer) : bytes :=
  take (writeOffset_ b - readOffset_ b) (drop (readOffset_ b) (buffer_ b)).

Definition view (b : StringBuffer) : outcome bytes :=
  if inside b then Ok (contents b) else Undefined.

Definition find (pattern : bytes) (b : StringBuffer) : outcome Z :=
  let! unconsumed := view b in
  Ok (sv_find_str unconsumed pattern 0).

Definition consume (n : nat) (b : StringBuffer) : StringBuffer :=
  mkStringBuffer (buffer_ b) (readOffset_ b + n) (writeOffset_ b).

(** [buffer_.resize(n)] for growing. *)
Definition resize (n : nat) (s : bytes) : bytes := take n s ++ replicate (n - length s) x00.

Definition prepareWrite (len : nat) (b : StringBuffer) : outcome StringBuffer :=
  if inside b then
    if (length (buffer_ b) - writeOffset_ b <? len)%nat then
      if (0 <? readOffset_ b)%nat
         && (len <=? length (buffer_ b) - (writeOffset_ b - readOffset_ b))%nat
      then
        let remaining := (writeOffset_ b - readOffset_ b)%nat in
        Ok (mkStringBuffer
              (take remaining (drop (readOffset_ b) (buffer_ b)) ++ drop remaining (buffer_ b))
              0 remaining)
      else
        Ok (mkStringBuffer (resize (writeOffset_ b + len) (buffer_ b))
              (readOffset_ b) (writeOffset_ b))
    else Ok b
  else Undefined.

Definition writableSize (b : StringBuffer) : nat := (length (buffer_ b) - writeOffset_ b)%nat.

(** The caller stores [data] at the pointer [prepareWrite] or [beginWrite]
    gave. *)
Definition store (data : bytes) (b : StringBuffer) : outcome StringBuffer :=
  if (writeOffset_ b + length data <=? length (buffer_ b))%nat then
    Ok (mkStringBuffer
          (take (writeOffset_ b) (buffer_ b) ++ data
             ++ drop (writeOffset_ b + length data) (buffer_ b))
          (readOffset_ b) (writeOffset_ b))
  else Undefined.

Definition commitWrite (len : nat) (b : StringBuffer) : StringBuffer :=
  mkStringBuffer (buffer_ b) (readOffset_ b) (writeOffset_ b + len).

Definition remainSize (b : StringBuffer) : nat := (writeOffset_ b - readOffset_ b)%nat.

Definition hasRemaining (b : StringBuffer) : bool := (readOffset_ b <? writeOffset_ b)%nat.

Definition reset (b : StringBuffer) : StringBuffer := mkStringBuffer (buffer_ b) 0 0.

Definition extract (b : StringBuffer) : outcome (bytes * StringBuffer) :=
  if (readOffset_ b =? 0)%nat then
    Ok (resize (writeOffset_ b) (buffer_ b), mkStringBuffer [] 0 0)
  else
    let! v := view b in
    Ok (v, mkStringBuffer [] 0 0).

(** ** The abstract buffer: a queue of bytes *)

Definition wf (b : StringBuffer) : Prop :=
  (readOffset_ b <= writeOffset_ b <= length (buffer_ b))%nat.

(** [b] is a well-formed buffer that holds [d]. *)
Definition holds (b : StringBuffer) (d : bytes) : Prop := wf b /\ contents b = d.

Lemma wf_inside (b : StringBuffer) : wf b <-> inside b = true.
Proof.
  unfold wf, inside. rewrite andb_true_iff, !Nat.leb_le. lia.
Qed.

Lemma holds_empty : holds empty_buffer [].
Proof. split; [unfold wf; simpl; lia | done]. Qed.

Lemma holds_view (b : StringBuffer) (d : bytes) : holds b d -> view b = Ok d.
Proof. intros [Hwf <-]. unfold view. by rewrite (proj1 (wf_inside b) Hwf). Qed.

Lemma length_contents (b : StringBuffer) : wf b -> length (contents b) = remainSize b.
Proof.
  unfold wf, contents, remainSize. intros H. rewrite length_take, length_drop. lia.
Qed.

Lemma holds_remainSize (b : StringBuffer) (d : bytes) : holds b d -> remainSize b = length d.
Proof. intros [Hwf <-]. symmetry. by apply length_contents. Qed.

Lemma holds_consume (n : nat) (b : StringBuffer) (d : bytes) :
  holds b d -> (n <= length d)%nat -> holds (consume n b) (drop n d).
Proof.
  intros [Hwf <-] Hn. rewrite length_contents in Hn by done. unfold remainSize in Hn.
  unfold wf in *. split; [unfold wf; simpl; lia |].
  unfold contents; simpl. rewrite skipn_firstn_comm, drop_drop. f_equal. lia.
Qed.

Lemma holds_reset (b : StringBuffer) : holds (reset b) [].
Proof. split; [unfold wf; simpl; lia | done]. Qed.

(** Room for [len] bytes after the written ones. *)
Definition room (b : StringBuffer) (len : nat) : Prop :=
  (writeOffset_ b + len <= length (buffer_ b))%nat.

Lemma length_resize (n : nat) (s : bytes) : length (resize n s) = n.
Proof. unfold resize. rewrite length_app, length_take, length_replicate. lia. Qed.

Lemma take_resize (k n : nat) (s : bytes) :
  (k <= length s)%nat -> (k <= n)%nat -> take k (resize n s) = take k s.
Proof.
  intros Hk Hn. unfold resize. rewrite take_app_le by (rewrite length_take; lia).
  rewrite take_take. f_equal. lia.
Qed.

Lemma contents_take (b : StringBuffer) :
  contents b = drop (readOffset_ b) (take (writeOffset_ b) (buffer_ b)).
Proof. unfold contents. by rewrite skipn_firstn_comm. Qed.

Lemma holds_prepareWrite (len : nat) (b : StringBuffer) (d : bytes) :
  holds b d -> exists b', prepareWrite len b = Ok b' /\ holds b' d /\ room b' len.
Proof.
  intros [Hwf Hd]. unfold prepareWrite. rewrite (proj1 (wf_inside b) Hwf).
  unfold wf in Hwf.
  destruct (Nat.ltb_spec (length (buffer_ b) - writeOffset_ b) len) as [Hlt | Hge].
  - destruct (0 <? readOffset_ b)%nat eqn:Hr; cbn [andb];
      [destruct (Nat.leb_spec len (length (buffer_ b) - (writeOffset_ b - readOffset_ b))) |].
    + eexists. split; [done |].
      assert (Hlen : length (take (writeOffset_ b - readOffset_ b)
        (drop (readOffset_ b) (buffer_ b))) = (writeOffset_ b - readOffset_ b)%nat)
        by (rewrite length_take, length_drop; lia).
      split; [split |].
      * unfold wf; cbn [readOffset_ writeOffset_ buffer_].
        rewrite length_app, Hlen, length_drop. lia.
      * unfold contents at 1; cbn [readOffset_ writeOffset_ buffer_].
        rewrite drop_0, Nat.sub_0_r, take_app_length' by done. done.
      * unfold room; cbn [readOffset_ writeOffset_ buffer_].
        rewrite length_app, Hlen, length_drop. lia.
    + eexists. split; [done |]. split; [split |].
      * unfold wf; cbn [readOffset_ writeOffset_ buffer_]. rewrite length_resize. lia.
      * rewrite contents_take; cbn [readOffset_ writeOffset_ buffer_].
        rewrite take_resize by lia. by rewrite <- contents_take.
      * unfold room; cbn [readOffset_ writeOffset_ buffer_]. rewrite length_resize. lia.
    + eexists. split; [done |]. split; [split |].
      * unfold wf; cbn [readOffset_ writeOffset_ buffer_]. rewrite length_resize. lia.
      * rewrite contents_take; cbn [readOffset_ writeOffset_ buffer_].
        rewrite take_resize by lia. by rewrite <- contents_take.
      * unfold room; cbn [readOffset_ writeOffset_ buffer_]. rewrite length_resize. lia.
  - exists b. split; [done |]. split; [done |]. unfold room. lia.
Qed.

(** Storing [data] where there is room and committing it appends it. *)
Lemma holds_store (data : bytes) (b : StringBuffer) (d : bytes) (len : nat) :
  holds b d -> room b len -> (length data <= len)%nat ->
  exists b', store data b = Ok b' /\ holds (commitWrite (length data) b') (d ++ data).
Proof.
  intros [Hwf Hd] Hroom Hlen. unfold room, wf, store in *.
  destruct (Nat.leb_spec (writeOffset_ b + length data) (length (buffer_ b))); [| lia].
  eexists. split; [done |].
  assert (Hw : length (take (writeOffset_ b) (buffer_ b)) = writeOffset_ b)
    by (rewrite length_take; lia).
  split.
  - unfold wf; cbn [commitWrite readOffset_ writeOffset_ buffer_].
    rewrite !length_app, Hw, length_drop. lia.
  - rewrite contents_take; cbn [commitWrite readOffset_ writeOffset_ buffer_].
    rewrite take_app_ge by lia. rewrite Hw.
    replace (writeOffset_ b + length data - writeOffset_ b)%nat with (length data) by lia.
    rewrite take_app_length. rewrite drop_app_le by lia.
    by rewrite <- contents_take, Hd.
Qed.

Lemma holds_extract (b : StringBuffer) (d : bytes) :
  holds b d -> exists b', extract b = Ok (d, b') /\ holds b' [].
Proof.
  intros Hb. exists empty_buffer. split; [| apply holds_empty].
  unfold extract. destruct (Nat.eqb_spec (readOffset_ b) 0) as [H0 | H0].
  - destruct Hb as [Hwf <-]. unfold wf in Hwf. rewrite contents_take, H0, drop_0.
    unfold resize. replace (writeOffset_ b - length (buffer_ b))%nat with 0%nat by lia.
    by rewrite app_nil_r.
  - by rewrite (holds_view b d Hb).
Qed.

(** ** The buffer as its users drive it, and what it refines *)

Inductive op : Type :=
| OpWrite (len : nat) (data : bytes)  (** [prepareWrite(len)], a store, [commitWrite] *)
| OpView
| OpConsume (n : nat)
| OpReset
| OpExtract.

Definition run_op (o : op) (b : StringBuffer) : outcome (bytes * StringBuffer) :=
  match o with
  | OpWrite len data =>
      let! b := prepareWrite len b in
      let! b := store data b in
      Ok ([], commitWrite (length data) b)
  | OpView => let! v := view b in Ok (v, b)
  | OpConsume n => Ok ([], consume n b)
  | OpReset => Ok ([], reset b)
  | OpExtract => extract b
  end.

(** A queue of bytes; [None] when the caller stores more than it asked room
    for or consumes more than there is. *)
Definition spec_op (o : op) (d : bytes) : option (bytes * bytes) :=
  match o with
  | OpWrite len data => if (length data <=? len)%nat then Some ([], d ++ data) else None
  | OpView => Some (d, d)
  | OpConsume n => if (n <=? length d)%nat then Some ([], drop n d) else None
  | OpReset => Some ([], [])
  | OpExtract => Some (d, [])
  end.

Lemma run_op_refines (o : op) (b : StringBuffer) (d d' out : bytes) :
  holds b d -> spec_op o d = Some (out, d') ->
  exists b', run_op o b = Ok (out, b') /\ holds b' d'.
Proof.
  intros Hb Hs. destruct o as [len data | | n | |]; cbn [spec_op run_op] in *.
  - destruct (Nat.leb_spec (length data) len) as [Hl |]; simplify_eq.
    destruct (holds_prepareWrite len b d Hb) as (b1 & -> & H1 & Hroom). cbn [obind].
    destruct (holds_store data b1 d len H1 Hroom Hl) as (b2 & -> & H2). cbn [obind].
    eauto.
  - simplify_eq. rewrite (holds_view b d' Hb). cbn [obind]. eauto.
  - destruct (Nat.leb_spec n (length d)); simplify_eq. eauto using holds_consume.
  - simplify_eq. eauto using holds_reset.
  - simplify_eq. by apply holds_extract.
Qed.

Fixpoint run_ops (os : list op) (b : StringBuffer) : outcome (list bytes) :=
  match os with
  | [] => Ok []
  | o :: os' =>
      let! (out, b') := run_op o b in
      let! outs := run_ops os' b' in
      Ok (out :: outs)
  end.

Fixpoint spec_ops (os : list op) (d : bytes) : option (list bytes) :=
  match os with
  | [] => Some []
  | o :: os' =>
      match spec_op o d with
      | Some (out, d') => cons out <$> spec_ops os' d'
      | None => None
      end
  end.

Lemma run_ops_refines (os : list op) (b : StringBuffer) (d : bytes) (outs : list bytes) :
  holds b d -> spec_ops os d = Some outs -> run_ops os b = Ok outs.
Proof.
  revert b d outs. induction os as [| o os IH]; intros b d outs Hb Hs; simplify_eq/=; [done |].
  destruct (spec_op o d) as [[out d'] |] eqn:Ho; [| done].
  destruct (run_op_refines o b d d' out Hb Ho) as (b' & -> & Hb'). cbn [obind].
  destruct (spec_ops os d') as [outs' |] eqn:Hos; [| done]. simplify_eq/=.
  by rewrite (IH b' d' outs' Hb' Hos).
Qed.

(** ** Properties *)

(** The buffer refines a queue of bytes.  For every sequence of writes,
    views, consumes, resets and extracts that respects the two duties of a
    caller (store no more than was asked for, consume no more than there is),
    a buffer that starts empty gives what the queue gives, whenever it grows
    or moves its bytes, and no access is out of bounds. *)
Theorem string_buffer_refines (os : list op) (outs : list bytes) :
  spec_ops os [] = Some outs -> run_ops os empty_buffer = Ok outs.
Proof. apply run_ops_refines, holds_empty. Qed.

Lemma string_buffer_refines_witness :
  run_ops [OpWrite 4 (str "abcd"); OpConsume 3; OpWrite 3 (str "ef"); OpView; OpExtract; OpView]
    empty_buffer = Ok [[]; []; []; str "def"; str "def"; []].
Proof. apply string_buffer_refines. reflexivity. Defined.
