(* ===== verification/Conn.v ===== *)
(** A connection as the HTTP/1 code uses it: the stream and the
    [StringBuffer] in which what was read ahead is kept, and the search for
    the end of a line. *)

From Stdlib Require Import ZArith Lia String Strings.Byte.
From stdpp Require Import base numbers option list.
From S2P Require Import Prelude CxxStd ByteStream StringBuffer.
Open Scope Z_scope.

Definition CRLF : bytes := [x0d; x0a].

(** ** The connection: the buffer and the stream *)

Record conn (S : Type) : Type := Conn {
  buf : StringBuffer;
  strm : S
}.
Arguments Conn {S} buf strm.
Arguments buf {S} c.
Arguments strm {S} c.

Section connection.
Context {S : Type} `{!ByteStream S}.

(** What the peer sent and the reader has not delivered: the buffered bytes
    and those still in the stream. *)
Definition remains (c : conn S) (d : bytes) : Prop :=
  wf (buf c) /\ contents (buf c) ++ pending (strm c) = d.

(** [char * p = buffer_->prepareWrite(len); n = co_await stream_->read(p, len);]
    and, unless the stream ended, [buffer_->commitWrite(n)]. *)
Definition fill (len : nat) : M (conn S) nat := fun c =>
  match prepareWrite len (buf c) with
  | Ok b =>
      let '(r, s) := stream_read len (strm c) in
      match store r b with
      | Ok b' => (Ok (length r), Conn (commitWrite (length r) b') s)
      | Throw e => (Throw e, Conn b s)
      | Undefined => (Undefined, Conn b s)
      | Diverge => (Diverge, Conn b s)
      end
  | Throw e => (Throw e, c)
  | Undefined => (Undefined, c)
  | Diverge => (Diverge, c)
  end.

Lemma fill_spec (len : nat) (c : conn S) (d : bytes) :
  remains c d -> (0 < len)%nat ->
  exists n c', fill len c = (Ok n, c') /\ remains c' d
    /\ remainSize (buf c') = (remainSize (buf c) + n)%nat
    /\ (n = 0%nat -> pending (strm c) = [])
    /\ contents (buf c) `prefix_of` contents (buf c').
Proof.
  intros [Hwf Hd] Hpos. unfold fill.
  destruct (holds_prepareWrite len (buf c) (contents (buf c))) as (b & -> & Hb & Hroom);
    [by split |].
  destruct (stream_read len (strm c)) as [r s] eqn:Hr.
  apply stream_read_ok in Hr as (Hp & Hlen & Hend & _).
  destruct (holds_store r b (contents (buf c)) len Hb Hroom Hlen) as (b' & -> & Hb').
  eexists _, _. split; [done |]. destruct Hb' as [Hwf' Hc'].
  split; [split; [done |] | split; [| split]]; cbn [buf strm].
  - by rewrite Hc', <- app_assoc, <- Hp.
  - rewrite <- !length_contents, Hc' by done. apply length_app.
  - intros Hn. destruct r; [| done]. destruct (Hend eq_refl); [lia | done].
  - rewrite Hc'. by apply prefix_app_r.
Qed.

(** [fill] or throw [what] at the end of the stream. *)
Definition fillOrThrow (len : nat) (what : string) : M (conn S) unit :=
  let* n := fill len in
  if (n =? 0)%nat then mthrow (RuntimeError what) else mret tt.

Definition consumeM (n : nat) : M (conn S) unit := fun c =>
  (Ok tt, Conn (consume n (buf c)) (strm c)).
End connection.

(** ** Lemmas: finding the end of a line *)

Definition no_cr (line : bytes) : Prop := Forall (fun b => Byte.eqb x0d b = false) line.

Lemma index_of_crlf (line v q rest : bytes) :
  no_cr line -> v ++ q = line ++ CRLF ++ rest ->
  index_of_sub CRLF v
  = if (length line + 2 <=? length v)%nat then Some (length line) else None.
Proof.
  revert v. induction line as [| b line IH]; intros v Hl Hv.
  - destruct v as [| v0 [| v1 v]]; simplify_eq/=; done.
  - apply Forall_cons in Hl as [Hb Hl].
    destruct v as [| v0 v]; [done |]. injection Hv as -> Hv.
    cbn [index_of_sub starts_with CRLF length Nat.add Nat.leb]. rewrite Hb. cbn [andb].
    rewrite (IH v Hl Hv).
    by destruct (length line + 2 <=? length v)%nat.
Qed.

Lemma starts_with_length (pat s : bytes) : starts_with pat s = true -> (length pat <= length s)%nat.
Proof.
  revert s. induction pat as [| p pat IH]; intros [| b s]; simpl; try done || lia.
  intros H. apply andb_prop in H as [_ H]. apply IH in H. lia.
Qed.

Lemma index_of_sub_bound (pat s : bytes) (i : nat) :
  index_of_sub pat s = Some i -> (i + length pat <= length s)%nat.
Proof.
  revert i. induction s as [| b s IH]; intros i H; cbn [index_of_sub] in H;
    destruct (starts_with pat _) eqn:Hs; simplify_eq; try by apply starts_with_length in Hs.
  destruct (index_of_sub pat s) as [j |]; simplify_eq/=. specialize (IH j eq_refl). lia.
Qed.

(** What [find] gives on any buffer. *)
Lemma find_crlf_cases (b : StringBuffer) :
  wf b -> exists pos, find CRLF b = Ok pos
    /\ (pos = npos \/ (0 <= pos /\ pos + 2 <= Z.of_nat (remainSize b))).
Proof.
  intros Hwf. unfold find. rewrite (holds_view b (contents b)) by done. cbn [obind].
  eexists. split; [done |]. unfold sv_find_str. pose proof (size_nonneg (contents b)).
  destruct (Z.ltb_spec (size (contents b)) 0); [lia |].
  change (Z.to_nat 0) with 0%nat. rewrite drop_0.
  destruct (index_of_sub CRLF (contents b)) as [i |] eqn:Hi; [right | by left].
  apply index_of_sub_bound in Hi. rewrite length_contents in Hi by done. simpl in *. lia.
Qed.

Section conn_lemmas.
Context {S : Type} `{!ByteStream S}.

Lemma remains_consume (c : conn S) (d : bytes) (n : nat) :
  remains c d -> (n <= remainSize (buf c))%nat ->
  take n (contents (buf c)) = take n d /\ remains (Conn (consume n (buf c)) (strm c)) (drop n d).
Proof.
  intros [Hwf <-] Hn. rewrite <- (length_contents _ Hwf) in Hn.
  rewrite take_app_le by done. split; [done |].
  destruct (holds_consume n (buf c) _ (conj Hwf eq_refl) Hn) as [Hwf' Hc'].
  split; [done |]. cbn [buf strm]. by rewrite Hc', drop_app_le.
Qed.

Lemma remains_read (c : conn S) (d out : bytes) (n : nat) (s : S) :
  remains c d -> remainSize (buf c) = 0%nat -> stream_read n (strm c) = (out, s) ->
  exists d', d = out ++ d' /\ (length out <= n)%nat /\ remains (Conn (buf c) s) d'
    /\ (out = [] -> n = 0%nat \/ d = []).
Proof.
  intros [Hwf <-] H0 Hr. apply stream_read_ok in Hr as (Hp & Hl & Hnil & _).
  rewrite <- (length_contents _ Hwf) in H0. apply nil_length_inv in H0.
  exists (pending s). rewrite H0. simpl. split; [done |]. split; [done |].
  split; [| done]. split; [done |]. cbn [buf strm]. by rewrite H0.
Qed.

Lemma find_crlf (b : StringBuffer) (line q rest : bytes) :
  wf b -> no_cr line -> contents b ++ q = line ++ CRLF ++ rest ->
  find CRLF b
  = Ok (if (length line + 2 <=? remainSize b)%nat then size line else npos).
Proof.
  intros Hwf Hl Hq. unfold find. rewrite (holds_view b (contents b)) by done.
  cbn [obind]. unfold sv_find_str. pose proof (size_nonneg (contents b)).
  destruct (Z.ltb_spec (size (contents b)) 0); [lia |].
  change (Z.to_nat 0) with 0%nat. rewrite drop_0.
  rewrite (index_of_crlf line _ q rest Hl Hq), (length_contents b Hwf).
  by destruct (length line + 2 <=? remainSize b)%nat.
Qed.

Lemma remains_length (c : conn S) (d : bytes) :
  remains c d -> length d = (remainSize (buf c) + length (pending (strm c)))%nat.
Proof. intros [Hwf <-]. by rewrite length_app, length_contents. Qed.

Lemma fill_bound (len : nat) (c c' : conn S) (n : nat) : fill len c = (Ok n, c') -> (n <= len)%nat.
Proof.
  unfold fill. destruct (prepareWrite len (buf c)); [| done ..].
  destruct (stream_read len (strm c)) as [r s] eqn:Hr. apply stream_read_ok in Hr as (_ & Hl & _).
  destruct (store r a); [| done ..]. by intros [= <- _].
Qed.

Lemma fillOrThrow_ok (len : nat) (what : string) (c : conn S) (d : bytes) :
  (0 < len)%nat -> remains c d -> (remainSize (buf c) < length d)%nat ->
  exists c' n, fillOrThrow len what c = (Ok tt, c') /\ remains c' d /\ (0 < n)%nat
    /\ remainSize (buf c') = (remainSize (buf c) + n)%nat
    /\ length (pending (strm c)) = (length (pending (strm c')) + n)%nat.
Proof.
  intros Hpos Hrem Hlt. destruct (fill_spec len c d Hrem Hpos) as (n & c' & Hf & Hrem' & Hsz & Hend & _).
  unfold fillOrThrow. rewrite (mbind_ok _ _ _ _ _ Hf).
  pose proof (remains_length c d Hrem). pose proof (remains_length c' d Hrem').
  destruct n as [| n].
  - rewrite (Hend eq_refl) in *. simpl in *. lia.
  - exists c', (Datatypes.S n). cbn [Nat.eqb]. split; [done |]. split; [done |]. lia.
Qed.

Lemma consumeM_ok (n : nat) (c : conn S) (a d : bytes) :
  remains c (a ++ d) -> length a = n -> (n <= remainSize (buf c))%nat ->
  exists c', consumeM n c = (Ok tt, c') /\ remains c' d
    /\ remainSize (buf c') = (remainSize (buf c) - n)%nat /\ strm c' = strm c.
Proof.
  intros Hrem Ha Hn. destruct (remains_consume c _ n Hrem Hn) as [_ Hrem'].
  rewrite <- Ha, drop_app_length in Hrem'. eexists. split; [done |].
  split; [by rewrite <- Ha |]. split; [| done].
  unfold remainSize; cbn [buf consume readOffset_ writeOffset_]. lia.
Qed.
End conn_lemmas.
