(* ===== verification/BodyReader.v ===== *)
(** Message bodies delimited by a length or by the end of the connection:
    [Http1BodyReader], [ContentLengthReader], [UntilCloseReader],
    [NoopReader], and the loop that collects a whole body,
    [HttpIncomingStreamBase::readToEnd] (src/extensions/http/src).

    The two readers share the connection's [StringBuffer], which holds what
    was read past the headers, with the session. *)

From Stdlib Require Import ZArith Lia String Strings.Byte.
From stdpp Require Import base numbers option list.
From S2P Require Import Prelude CxxStd ByteStream StringBuffer Conn.
Open Scope Z_scope.

(** ** The interface of a body reader *)

(** What a reader promises to its client: [delivers r d rest] says that the
    reader [r] still has the body bytes [d] to deliver and that the
    connection then goes on with [rest].  A read for [n > 0] bytes gives the
    next bytes, at most [n] of them, and none only when the body is over. *)
Class BodyReader (R : Type) : Type := {
  readImpl : nat -> M R bytes;
  isComplete : R -> bool;
  delivers : R -> bytes -> bytes -> Prop;
  readImpl_ok (n : nat) (r : R) (d rest : bytes) :
    delivers r d rest -> (0 < n)%nat -> isComplete r = false ->
    exists out r', readImpl n r = (Ok out, r') /\ (length out <= n)%nat
      /\ exists d', d = out ++ d' /\ delivers r' d' rest
      /\ (out = [] -> isComplete r' = true);
  complete_ok (r : R) (d rest : bytes) :
    delivers r d rest -> isComplete r = true -> d = []
}.

Section http1_body_reader.
Context {R : Type} `{!BodyReader R}.

(** [Http1BodyReader]: the reader and its [draining_] flag. *)
Record Http1BodyReader : Type := mkReader {
  impl : R;
  draining_ : bool
}.

Definition read (len : nat) : M Http1BodyReader bytes := fun r =>
  if draining_ r || isComplete (impl r) then (Ok [], r)
  else let '(o, i) := readImpl len (impl r) in (o, mkReader i (draining_ r)).

(** The loop of [drain] reads 4096 bytes at a time and drops them. *)
Fixpoint drainLoop (fuel : nat) (r : Http1BodyReader) : outcome unit * Http1BodyReader :=
  if isComplete (impl r) then (Ok tt, r)
  else
    match fuel with
    | O => (Diverge, r)
    | S fuel' =>
        let '(o, i) := readImpl 4096 (impl r) in
        let r' := mkReader i (draining_ r) in
        match o with
        | Ok [] => (Ok tt, r')
        | Ok _ => drainLoop fuel' r'
        | Throw e => (Throw e, r')
        | Undefined => (Undefined, r')
        | Diverge => (Diverge, r')
        end
    end.

Definition drain (fuel : nat) : M Http1BodyReader unit := fun r =>
  drainLoop fuel (mkReader (impl r) true).

Lemma drainLoop_ok (fuel : nat) (r : Http1BodyReader) (d rest : bytes) :
  delivers (impl r) d rest -> (length d < fuel)%nat ->
  exists r', drainLoop fuel r = (Ok tt, r') /\ delivers (impl r') [] rest
    /\ isComplete (impl r') = true /\ draining_ r' = draining_ r.
Proof.
  revert r d. induction fuel as [| fuel IH]; intros r d Hd Hf; [lia |].
  cbn [drainLoop]. destruct (isComplete (impl r)) eqn:Hc.
  - exists r. split; [done |]. by rewrite (complete_ok _ _ _ Hd Hc) in Hd.
  - destruct (readImpl_ok 4096 (impl r) d rest Hd ltac:(lia) Hc)
      as (out & i & -> & Hlen & d' & -> & Hd' & Hnil).
    destruct out as [| b out].
    + eexists. split; [done |]. specialize (Hnil eq_refl).
      by rewrite (complete_ok _ _ _ Hd' Hnil) in Hd'.
    + destruct (IH (mkReader i (draining_ r)) d' Hd') as (r' & ? & ? & ? & ?); [| eauto 6].
      rewrite length_app in Hf. simpl in Hf. lia.
Qed.

(** [readToEnd]: collect the body in a [WriteBuffer]. *)
Fixpoint readToEndLoop (fuel total : nat) (b : StringBuffer) (r : Http1BodyReader)
  : outcome (nat * StringBuffer) * Http1BodyReader :=
  if isComplete (impl r) then (Ok (total, b), r)
  else
    match fuel with
    | O => (Diverge, r)
    | S fuel' =>
        let kExtendThreshold := 4096%nat in
        let kExtendSize := (2 * 4096)%nat in
        let room :=
          (if (writableSize b <? kExtendThreshold)%nat
           then let! b' := prepareWrite kExtendSize b in Ok (b', kExtendSize)
           else Ok (b, writableSize b)) in
        match room with
        | Ok (b', available) =>
            let '(o, r') := read available r in
            match o with
            | Ok [] => (Ok (total, b'), r')
            | Ok out =>
                match store out b' with
                | Ok b'' =>
                    readToEndLoop fuel' (total + length out) (commitWrite (length out) b'') r'
                | Throw e => (Throw e, r')
                | Undefined => (Undefined, r')
                | Diverge => (Diverge, r')
                end
            | Throw e => (Throw e, r')
            | Undefined => (Undefined, r')
            | Diverge => (Diverge, r')
            end
        | Throw e => (Throw e, r)
        | Undefined => (Undefined, r)
        | Diverge => (Diverge, r)
        end
    end.

(** [toCompleteRequest] and [toCompleteResponse]: read everything into an
    empty buffer and extract it. *)
Definition readBody (fuel : nat) (r : Http1BodyReader) : outcome bytes * Http1BodyReader :=
  match readToEndLoop fuel 0 empty_buffer r with
  | (Ok (_, b), r') =>
      match extract b with
      | Ok (v, _) => (Ok v, r')
      | Throw e => (Throw e, r')
      | Undefined => (Undefined, r')
      | Diverge => (Diverge, r')
      end
  | (Throw e, r') => (Throw e, r')
  | (Undefined, r') => (Undefined, r')
  | (Diverge, r') => (Diverge, r')
  end.

(** The two ways [readToEnd] finds room for a read. *)
Lemma readToEnd_room (b : StringBuffer) (acc : bytes) :
  holds b acc ->
  exists b1 available,
    (if (writableSize b <? 4096)%nat
     then let! b' := prepareWrite (2 * 4096) b in Ok (b', (2 * 4096)%nat)
     else Ok (b, writableSize b)) = Ok (b1, available)
    /\ holds b1 acc /\ room b1 available /\ (0 < available)%nat.
Proof.
  intros Hb. destruct (Nat.ltb_spec (writableSize b) 4096) as [_ | Hge].
  - destruct (holds_prepareWrite (2 * 4096) b acc Hb) as (b1 & -> & ? & ?).
    eexists b1, _. split; [done |]. split; [done |]. split; [done | lia].
  - eexists b, _. split; [done |]. split; [done |].
    split; [| lia]. unfold room, writableSize in *.
    destruct Hb as [Hwf _]. unfold wf in Hwf. lia.
Qed.

Lemma readToEndLoop_ok (fuel total : nat) (b : StringBuffer) (r : Http1BodyReader)
    (acc d rest : bytes) :
  holds b acc -> delivers (impl r) d rest -> draining_ r = false -> (length d < fuel)%nat ->
  exists b' r', readToEndLoop fuel total b r = (Ok ((total + length d)%nat, b'), r')
    /\ holds b' (acc ++ d) /\ delivers (impl r') [] rest /\ isComplete (impl r') = true.
Proof.
  revert total b r acc d. induction fuel as [| fuel IH]; intros total b r acc d Hb Hd Hdr Hf;
    [lia |].
  cbn [readToEndLoop]. destruct (isComplete (impl r)) eqn:Hc.
  { exists b, r. pose proof (complete_ok _ _ _ Hd Hc) as ->.
    by rewrite Nat.add_0_r, app_nil_r. }
  destruct (readToEnd_room b acc Hb) as (b1 & available & -> & Hb1 & Hroom & Hav).
  unfold read. rewrite Hdr, Hc. cbn [orb].
  destruct (readImpl_ok available (impl r) d rest Hd Hav Hc)
    as (out & i & -> & Hlen & d' & -> & Hd' & Hnil).
  destruct out as [| x out].
  - eexists _, _. specialize (Hnil eq_refl).
    pose proof (complete_ok _ _ _ Hd' Hnil) as ->. cbn [app length].
    rewrite app_nil_r, Nat.add_0_r. split; [done |]. by split.
  - destruct (holds_store (x :: out) b1 acc available Hb1 Hroom Hlen) as (b2 & -> & Hb2).
    rewrite length_app in Hf.
    destruct (IH (total + length (x :: out))%nat _ (mkReader i false) _ d' Hb2 Hd' eq_refl)
      as (b' & r' & Heq & Hb' & Hr').
    { simpl in Hf. lia. }
    exists b', r'. rewrite Heq. rewrite <- app_assoc in Hb'.
    split; [| by split]. rewrite length_app. do 3 f_equal. lia.
Qed.

(** The whole body, whatever the reader cuts it into. *)
Lemma readBody_ok (fuel : nat) (i : R) (d rest : bytes) :
  delivers i d rest -> (length d < fuel)%nat ->
  exists r', readBody fuel (mkReader i false) = (Ok d, r') /\ delivers (impl r') [] rest
    /\ isComplete (impl r') = true.
Proof.
  intros Hd Hf. unfold readBody.
  destruct (readToEndLoop_ok fuel 0 empty_buffer (mkReader i false) [] d rest)
    as (b' & r' & -> & Hb' & Hr'); [apply holds_empty | exact Hd | done | exact Hf |].
  destruct (holds_extract b' ([] ++ d) Hb') as (b2 & -> & _). eauto.
Qed.
End http1_body_reader.
Arguments Http1BodyReader : clear implicits.

(** ** [NoopReader] *)

Record NoopReader : Type := mkNoop { noop_rest : bytes }.

#[export, refine] Instance noop_reader : BodyReader NoopReader := {
  readImpl _ r := (Ok [], r);
  isComplete _ := true;
  delivers r d rest := d = [] /\ rest = noop_rest r
}.
Proof.
  - done.
  - by intros r d rest [-> _] _.
Defined.

(** ** [ContentLengthReader] *)

Record ContentLengthReader (S : Type) : Type := mkContentLength {
  cl_conn : conn S;
  contentLength_ : Z;
  bytesRead_ : Z
}.
Arguments mkContentLength {S} cl_conn contentLength_ bytesRead_.
Arguments cl_conn {S} c.
Arguments contentLength_ {S} c.
Arguments bytesRead_ {S} c.

(** [std::min] of a buffer length and a [size_t], as the count of a copy. *)
Definition upto (n : nat) (z : Z) : nat := Z.to_nat (Z.min (Z.of_nat n) z).

Section content_length.
Context {S : Type} `{!ByteStream S}.

Definition contentLengthRead (len : nat) : M (ContentLengthReader S) bytes := fun r =>
  if contentLength_ r <=? bytesRead_ r then (Ok [], r)
  else
    let c := cl_conn r in
    if (0 <? remainSize (buf c))%nat then
      match view (buf c) with
      | Ok v =>
          let toRead := upto (len `min` remainSize (buf c)) (contentLength_ r - bytesRead_ r) in
          (Ok (take toRead v),
           mkContentLength (Conn (consume toRead (buf c)) (strm c))
             (contentLength_ r) (bytesRead_ r + Z.of_nat toRead))
      | Throw e => (Throw e, r)
      | Undefined => (Undefined, r)
      | Diverge => (Diverge, r)
      end
    else
      let toRead := upto len (contentLength_ r - bytesRead_ r) in
      let '(out, s) := stream_read toRead (strm c) in
      let c' := Conn (buf c) s in
      match out with
      | [] => (Throw (RuntimeError "Connection closed before content-length body complete"),
               mkContentLength c' (contentLength_ r) (bytesRead_ r))
      | _ => (Ok out, mkContentLength c' (contentLength_ r) (bytesRead_ r + size out))
      end.

Definition contentLengthDelivers (r : ContentLengthReader S) (d rest : bytes) : Prop :=
  remains (cl_conn r) (d ++ rest) /\ size d = contentLength_ r - bytesRead_ r.

Lemma contentLengthRead_ok (n : nat) (r : ContentLengthReader S) (d rest : bytes) :
  contentLengthDelivers r d rest -> (0 < n)%nat ->
  (contentLength_ r <=? bytesRead_ r) = false ->
  exists out r', contentLengthRead n r = (Ok out, r') /\ (length out <= n)%nat
    /\ exists d', d = out ++ d' /\ contentLengthDelivers r' d' rest /\ out <> [].
Proof.
  intros [Hrem Hsz] Hn Hc. unfold contentLengthRead. rewrite Hc. to_prop.
  assert (Hd : d <> []) by (intros ->; rewrite size_nil in Hsz; lia).
  destruct (Nat.ltb_spec 0 (remainSize (buf (cl_conn r)))) as [Hav | Hav].
  - rewrite (holds_view _ (contents (buf (cl_conn r)))) by (destruct Hrem; by split).
    set (k := upto _ _).
    assert (Hk : (0 < k <= n)%nat /\ (k <= remainSize (buf (cl_conn r)))%nat
                 /\ (k <= length d)%nat).
    { unfold k, upto, size in *. lia. }
    destruct (remains_consume _ _ k Hrem) as [Htake Hrem']; [lia |].
    rewrite take_app_le in Htake by lia. rewrite drop_app_le in Hrem' by lia.
    eexists _, _. split; [done |]. rewrite Htake. split; [rewrite length_take; lia |].
    exists (drop k d). rewrite take_drop. split; [done |]. split.
    + split; cbn [cl_conn contentLength_ bytesRead_]; [done |].
      unfold size in *. rewrite length_drop. lia.
    + intros H. apply (f_equal length) in H. rewrite length_take in H. simpl in H. lia.
  - set (k := upto _ _).
    assert (Hk : (0 < k <= n)%nat /\ (k <= length d)%nat) by (unfold k, upto, size in *; lia).
    destruct (stream_read k (strm (cl_conn r))) as [out s] eqn:Hr.
    destruct (remains_read _ _ out k s Hrem ltac:(lia) Hr) as (d1 & Hd1 & Hl & Hrem' & Hnil).
    destruct out as [| b out].
    { destruct (Hnil eq_refl) as [? | Heq]; [lia |]. by apply app_eq_nil in Heq as [? _]. }
    eexists _, _. split; [done |]. split; [lia |].
    destruct (app_eq_inv d rest (b :: out) d1 Hd1) as [(k' & -> & Hk') | (k' & Ho & ->)].
    + exists k'. split; [done |]. split; [| done].
      split; cbn [cl_conn contentLength_ bytesRead_]; [by rewrite <- Hk' |].
      rewrite size_app in Hsz. lia.
    + assert (k' = []) as ->.
      { apply (f_equal length) in Ho. rewrite length_app in Ho.
        apply nil_length_inv. lia. }
      rewrite app_nil_r in Ho. rewrite <- Ho in *. exists []. rewrite app_nil_r.
      split; [done |]. split; [| done].
      split; cbn [cl_conn contentLength_ bytesRead_ app]; [done |]. rewrite size_nil. lia.
Qed.
End content_length.

#[export, refine] Instance content_length_reader {S : Type} `{!ByteStream S} :
  BodyReader (ContentLengthReader S) := {
  readImpl := contentLengthRead;
  isComplete r := contentLength_ r <=? bytesRead_ r;
  delivers := contentLengthDelivers
}.
Proof.
  - intros n r d rest Hd Hn Hc.
    destruct (contentLengthRead_ok n r d rest Hd Hn Hc) as (out & r' & ? & ? & d' & ? & ? & ?).
    exists out, r'. split; [done |]. split; [done |]. by exists d'.
  - intros r d rest [_ Hsz] Hc. to_prop. apply size_zero_nil.
    pose proof (size_nonneg d). lia.
Defined.

(** ** [UntilCloseReader] *)

Record UntilCloseReader (S : Type) : Type := mkUntilClose {
  uc_conn : conn S;
  complete_ : bool
}.
Arguments mkUntilClose {S} uc_conn complete_.
Arguments uc_conn {S} u.
Arguments complete_ {S} u.

Section until_close.
Context {S : Type} `{!ByteStream S}.

Definition untilCloseRead (len : nat) : M (UntilCloseReader S) bytes := fun r =>
  if complete_ r then (Ok [], r)
  else
    let c := uc_conn r in
    if (0 <? remainSize (buf c))%nat then
      match view (buf c) with
      | Ok v =>
          let toRead := (len `min` remainSize (buf c))%nat in
          (Ok (take toRead v),
           mkUntilClose (Conn (consume toRead (buf c)) (strm c)) (complete_ r))
      | Throw e => (Throw e, r)
      | Undefined => (Undefined, r)
      | Diverge => (Diverge, r)
      end
    else
      let '(out, s) := stream_read len (strm c) in
      let c' := Conn (buf c) s in
      match out with
      | [] => (Ok [], mkUntilClose c' true)
      | _ => (Ok out, mkUntilClose c' (complete_ r))
      end.

Definition untilCloseDelivers (r : UntilCloseReader S) (d rest : bytes) : Prop :=
  remains (uc_conn r) d /\ rest = [] /\ (complete_ r = true -> d = []).

Lemma untilCloseRead_ok (n : nat) (r : UntilCloseReader S) (d rest : bytes) :
  untilCloseDelivers r d rest -> (0 < n)%nat -> complete_ r = false ->
  exists out r', untilCloseRead n r = (Ok out, r') /\ (length out <= n)%nat
    /\ exists d', d = out ++ d' /\ untilCloseDelivers r' d' rest
    /\ (out = [] -> complete_ r' = true).
Proof.
  intros (Hrem & -> & _) Hn Hc. unfold untilCloseRead. rewrite Hc.
  destruct (Nat.ltb_spec 0 (remainSize (buf (uc_conn r)))) as [Hav | Hav].
  - rewrite (holds_view _ (contents (buf (uc_conn r)))) by (destruct Hrem; by split).
    set (k := (n `min` _)%nat).
    destruct (remains_consume _ _ k Hrem) as [Htake Hrem']; [unfold k; lia |].
    assert (Hlen : (remainSize (buf (uc_conn r)) <= length d)%nat).
    { destruct Hrem as [Hwf <-]. rewrite length_app, length_contents by done. lia. }
    eexists _, _. split; [done |]. rewrite Htake.
    split; [rewrite length_take; unfold k; lia |].
    exists (drop k d). rewrite take_drop. split; [done |]. split.
    + split; cbn [uc_conn complete_]; [done |]. done.
    + intros H. apply (f_equal length) in H. rewrite length_take in H. simpl in H.
      unfold k in *. lia.
  - destruct (stream_read n (strm (uc_conn r))) as [out s] eqn:Hr.
    destruct (remains_read _ _ out n s Hrem ltac:(lia) Hr) as (d1 & -> & Hl & Hrem' & Hnil).
    destruct out as [| b out].
    + destruct (Hnil eq_refl) as [? | Heq]; [lia |]. simpl in Heq. subst d1.
      eexists _, _. split; [done |]. split; [simpl; lia |]. exists [].
      split; [done |]. split; [| done]. split; [exact Hrem' | done].
    + eexists _, _. split; [done |]. split; [done |]. exists d1.
      split; [done |]. split; [| done].
      split; [exact Hrem' | done].
Qed.
End until_close.

#[export, refine] Instance until_close_reader {S : Type} `{!ByteStream S} :
  BodyReader (UntilCloseReader S) := {
  readImpl := untilCloseRead;
  isComplete := complete_;
  delivers := untilCloseDelivers
}.
Proof.
  - intros. by apply untilCloseRead_ok.
  - intros r d rest (_ & _ & H) Hc. by apply H.
Defined.

(** ** A body cut short *)

Section truncated.
Context {S : Type} `{!ByteStream S}.

(** While fewer bytes can come than the header announced, a read gives some
    of them or throws. *)
Lemma contentLengthRead_short (n : nat) (r : ContentLengthReader S) (d : bytes) :
  remains (cl_conn r) d -> size d < contentLength_ r - bytesRead_ r -> (0 < n)%nat ->
  (exists r', contentLengthRead n r
     = (Throw (RuntimeError "Connection closed before content-length body complete"), r'))
  \/ exists out r' d', contentLengthRead n r = (Ok out, r') /\ out <> [] /\ d = out ++ d'
       /\ (length out <= n)%nat
       /\ remains (cl_conn r') d' /\ size d' < contentLength_ r' - bytesRead_ r'.
Proof.
  intros Hrem Hsz Hn. unfold contentLengthRead. pose proof (size_nonneg d).
  destruct (Z.leb_spec (contentLength_ r) (bytesRead_ r)); [lia |].
  destruct (Nat.ltb_spec 0 (remainSize (buf (cl_conn r)))) as [Hav | Hav].
  - right. rewrite (holds_view _ (contents (buf (cl_conn r)))) by (destruct Hrem; by split).
    assert (Hlen : (remainSize (buf (cl_conn r)) <= length d)%nat).
    { destruct Hrem as [Hwf <-]. rewrite length_app, length_contents by done. lia. }
    set (k := upto _ _).
    assert (Hk : (0 < k <= n)%nat /\ (k <= remainSize (buf (cl_conn r)))%nat)
      by (unfold k, upto, size in *; lia).
    destruct (remains_consume _ _ k Hrem ltac:(lia)) as [-> Hrem'].
    eexists _, _, (drop k d). split; [done |]. split.
    { intros Ho. apply (f_equal length) in Ho. rewrite length_take in Ho. simpl in Ho. lia. }
    split; [by rewrite take_drop |]. split; [rewrite length_take; lia |]. split; [done |].
    cbn [contentLength_ bytesRead_]. unfold size in *. rewrite length_drop. lia.
  - set (k := upto _ _). destruct (stream_read k (strm (cl_conn r))) as [out s] eqn:Hr.
    destruct (remains_read _ _ out k s Hrem ltac:(lia) Hr) as (d1 & -> & Hl & Hrem' & Hnil).
    destruct out as [| b out]; [left; eauto | right].
    eexists _, _, d1. split; [done |]. split; [done |]. split; [done |].
    split; [unfold k, upto in *; lia |]. split; [done |].
    cbn [contentLength_ bytesRead_]. rewrite size_app in Hsz. lia.
Qed.

Lemma readToEndLoop_short (fuel total : nat) (b : StringBuffer) (r : ContentLengthReader S)
    (acc d : bytes) :
  holds b acc -> remains (cl_conn r) d -> size d < contentLength_ r - bytesRead_ r ->
  (length d < fuel)%nat ->
  exists r', readToEndLoop fuel total b (mkReader r false)
    = (Throw (RuntimeError "Connection closed before content-length body complete"), r').
Proof.
  revert total b r acc d. induction fuel as [| fuel IH]; intros total b r acc d Hb Hrem Hsz Hf;
    [lia |].
  pose proof (size_nonneg d). cbn [readToEndLoop impl isComplete content_length_reader].
  destruct (Z.leb_spec (contentLength_ r) (bytesRead_ r)) as [| Hlt]; [lia |].
  destruct (readToEnd_room b acc Hb) as (b1 & available & -> & Hb1 & Hroom & Hav).
  unfold read. cbn [draining_ impl isComplete content_length_reader orb readImpl].
  destruct (Z.leb_spec (contentLength_ r) (bytesRead_ r)); [lia |].
  destruct (contentLengthRead_short available r d Hrem Hsz Hav)
    as [(r' & ->) | (out & r' & d' & -> & Hne & -> & Hl & Hrem' & Hsz')]; [eauto |].
  destruct out as [| x out]; [done |].
  destruct (holds_store (x :: out) b1 acc available Hb1 Hroom Hl) as (b2 & -> & Hb2).
  eapply IH; [exact Hb2 | exact Hrem' | exact Hsz' |].
  rewrite length_app in Hf. simpl in Hf. lia.
Qed.
End truncated.

(** ** Properties *)

(** A body with a declared length is delivered exactly: whatever is
    buffered and however the rest arrives, collecting it gives the first
    [contentLength] bytes after the headers and leaves what follows them. *)
Theorem content_length_body {S : Type} `{!ByteStream S} (c : conn S) (d rest : bytes) (fuel : nat) :
  remains c (d ++ rest) -> (length d < fuel)%nat ->
  exists r', readBody fuel (mkReader (mkContentLength c (size d) 0) false) = (Ok d, r')
    /\ remains (cl_conn (impl r')) rest.
Proof.
  intros Hrem Hf.
  destruct (readBody_ok fuel (mkContentLength c (size d) 0) d rest) as (r' & Hr & [Hd _] & _);
    [split; [done | cbn; lia] | exact Hf | eauto].
Qed.

(** Half of the body is buffered; the rest comes in two segments, the second
    with the start of the next request. *)
Lemma content_length_body_witness :
  exists r', readBody 9 (mkReader (mkContentLength
      (Conn (mkStringBuffer (str "..bod") 2 5) (Script [str "y: 8"; str "GET /"] [])) (size (str "body: 8")) 0) false)
    = (Ok (str "body: 8"), r')
  /\ remains (cl_conn (impl r')) (str "GET /").
Proof.
  apply (content_length_body
    (Conn (mkStringBuffer (str "..bod") 2 5) (Script [str "y: 8"; str "GET /"] []))
    (str "body: 8") (str "GET /") 9).
  - split; [unfold wf; simpl; lia | reflexivity].
  - simpl. lia.
Defined.

(** A connection that ends before the declared length never yields a
    body: collecting it throws, it does not return the part that arrived. *)
Theorem content_length_truncated {S : Type} `{!ByteStream S} (c : conn S) (d : bytes) (n : Z)
    (fuel : nat) :
  remains c d -> size d < n -> (length d < fuel)%nat ->
  exists r', readBody fuel (mkReader (mkContentLength c n 0) false)
    = (Throw (RuntimeError "Connection closed before content-length body complete"), r').
Proof.
  intros Hrem Hn Hf. unfold readBody.
  destruct (readToEndLoop_short fuel 0 empty_buffer (mkContentLength c n 0) [] d) as [r' ->];
    [apply holds_empty | exact Hrem | cbn; lia | exact Hf | eauto].
Qed.

Lemma content_length_truncated_witness :
  exists r', readBody 5 (mkReader (mkContentLength
      (Conn empty_buffer (Script [str "ab"; str "c"] [])) 4 0) false)
    = (Throw (RuntimeError "Connection closed before content-length body complete"), r').
Proof.
  apply (content_length_truncated (Conn empty_buffer (Script [str "ab"; str "c"] [])) (str "abc") 4 5).
  - split; [unfold wf; simpl; lia | reflexivity].
  - reflexivity.
  - simpl. lia.
Defined.
