(* ===== verification/Chunked.v ===== *)
(** Chunked transfer coding: [ChunkedWriter] and [ChunkedReader] of
    src/extensions/http/src/body_writer and body_reader.

    The reader's loops are bounded as follows: a chunk-size line is given up
    after 64 buffered bytes and every round of its loop buffers at least one,
    so 66 rounds are enough; the two bytes after a chunk need three; a trailer
    loop consumes a line or reads a byte per round, so twice the bytes still
    in the stream and the buffered ones bound it. *)

From Stdlib Require Import ZArith Lia String Strings.Byte.
From stdpp Require Import base numbers option list.
From S2P Require Import Prelude CxxStd ByteStream StringBuffer Conn BodyReader.
Open Scope Z_scope.

(** ** [ChunkedWriter] *)

Section writer.
Context {S : Type} `{!ByteStream S}.

(** [snprintf] into [char sizeBuf\[16\]] stores at most fifteen characters
    and a NUL but returns the length of the whole line, and that many bytes
    of the array are appended. *)
Definition chunkedWrite (data : bytes) : M S unit := fun s =>
  match data with
  | [] => (Ok tt, s)
  | _ =>
      let sizeLine := to_hex (size data) ++ CRLF in
      let sizeBuf := take 15 sizeLine ++ [x00] in
      if (length sizeLine <=? 16)%nat
      then (Ok tt, stream_write (take (length sizeLine) sizeBuf ++ data ++ CRLF) s)
      else (Undefined, s)
  end.

Definition chunkedEnd : M S unit := fun s =>
  (Ok tt, stream_write (str "0" ++ CRLF ++ CRLF) s).

(** A handler writes pieces of a body, then the sink ends it. *)
Fixpoint chunkedWriteAll (pieces : list bytes) : M S unit :=
  match pieces with
  | [] => chunkedEnd
  | p :: pieces' => let* _ := chunkedWrite p in chunkedWriteAll pieces'
  end.
End writer.

(** ** [ChunkedReader] *)

Inductive ChunkState : Type := ReadSize | ReadData | Complete.

Record ChunkedReader (S : Type) : Type := mkChunked {
  ck_conn : conn S;
  state_ : ChunkState;
  currentChunkSize_ : Z;
  currentChunkRead_ : Z
}.
Arguments mkChunked {S} ck_conn state_ currentChunkSize_ currentChunkRead_.
Arguments ck_conn {S} c.
Arguments state_ {S} c.
Arguments currentChunkSize_ {S} c.
Arguments currentChunkRead_ {S} c.

Section reader.
Context {S : Type} `{!ByteStream S}.

Definition set_conn (c : conn S) (r : ChunkedReader S) : ChunkedReader S :=
  mkChunked c (state_ r) (currentChunkSize_ r) (currentChunkRead_ r).

Definition set_state (st : ChunkState) (r : ChunkedReader S) : ChunkedReader S :=
  mkChunked (ck_conn r) st (currentChunkSize_ r) (currentChunkRead_ r).

(** Run a step on the connection. *)
Definition on_conn {A : Type} (m : M (conn S) A) : M (ChunkedReader S) A := fun r =>
  let '(o, c) := m (ck_conn r) in (o, set_conn c r).

Fixpoint skipCRLFLoop (fuel : nat) : M (conn S) unit := fun c =>
  if (remainSize (buf c) <? 2)%nat then
    match fuel with
    | O => (Diverge, c)
    | Datatypes.S fuel' =>
        (let* _ := fillOrThrow 128 "Connection closed before chunk CRLF complete" in
         skipCRLFLoop fuel') c
    end
  else consumeM 2 c.

Definition skipCRLF : M (conn S) unit := skipCRLFLoop 3.

Fixpoint skipTrailerLoop (fuel : nat) (lines : Z) : M (conn S) unit :=
  match fuel with
  | O => mlift Diverge
  | Datatypes.S fuel' =>
      let* c := mget in
      let* pos := mlift (find CRLF (buf c)) in
      if pos =? npos then
        if (8192 <=? Z.of_nat (remainSize (buf c)))
        then mthrow (RuntimeError "Invalid chunked encoding: trailer line too long")
        else
          let* _ := fillOrThrow 128 "Connection closed before chunked trailer complete" in
          skipTrailerLoop fuel' lines
      else
        let* _ := consumeM (Z.to_nat (pos + 2)) in
        if pos =? 0 then mret tt
        else if 128 <? lines + 1
        then mthrow (RuntimeError "Invalid chunked encoding: too many trailer headers")
        else skipTrailerLoop fuel' (lines + 1)
  end.

Definition skipTrailer : M (conn S) unit := fun c =>
  skipTrailerLoop (2 * length (pending (strm c)) + remainSize (buf c) + 1) 0 c.

Definition MAX_CHUNK_SIZE_LINE : Z := 64.

Fixpoint parseChunkSizeLoop (fuel : nat) : M (ChunkedReader S) bool :=
  match fuel with
  | O => mlift Diverge
  | Datatypes.S fuel' =>
      let* r := mget in
      let b := buf (ck_conn r) in
      let* pos := mlift (find CRLF b) in
      if pos =? npos then
        if MAX_CHUNK_SIZE_LINE <=? Z.of_nat (remainSize b)
        then mthrow (RuntimeError "Invalid chunked encoding: chunk size line too long")
        else
          let* _ := on_conn (fillOrThrow 128 "Connection closed before chunk size complete") in
          parseChunkSizeLoop fuel'
      else if MAX_CHUNK_SIZE_LINE <? pos
      then mthrow (RuntimeError "Invalid chunked encoding: chunk size line too long")
      else
        let* v := mlift (view b) in
        let* line := mlift (sv_substr v 0 pos) in
        let* sz := mlift (stoul line 16) in
        let* _ := on_conn (consumeM (Z.to_nat (pos + 2))) in
        let* r := mget in
        let* _ := mput (mkChunked (ck_conn r) (state_ r) sz 0) in
        if sz =? 0 then
          let* _ := on_conn skipTrailer in
          let* r := mget in
          let* _ := mput (set_state Complete r) in
          mret true
        else
          let* r := mget in
          let* _ := mput (set_state ReadData r) in
          mret true
  end.

Definition parseChunkSize : M (ChunkedReader S) bool := parseChunkSizeLoop 66.

(** After [toRead] bytes of the chunk: at its end, skip the CRLF. *)
Definition advance (toRead : nat) : M (ChunkedReader S) unit :=
  let* r := mget in
  let r' := mkChunked (ck_conn r) (state_ r) (currentChunkSize_ r)
              (currentChunkRead_ r + Z.of_nat toRead) in
  let* _ := mput r' in
  if currentChunkSize_ r' <=? currentChunkRead_ r' then
    let* _ := on_conn skipCRLF in
    let* r := mget in
    mput (set_state ReadSize r)
  else mret tt.

(** The part of [readImpl] after the chunk size is known. *)
Definition readData (len : nat) : M (ChunkedReader S) bytes :=
  let* r := mget in
  let c := ck_conn r in
  let available := remainSize (buf c) in
  let remaining := currentChunkSize_ r - currentChunkRead_ r in
  if (0 <? available)%nat then
    let toRead := upto (available `min` len) remaining in
    let* v := mlift (view (buf c)) in
    let* _ := on_conn (consumeM toRead) in
    let* _ := advance toRead in
    mret (take toRead v)
  else
    let toRead := upto len remaining in
    let '(out, s) := stream_read toRead (strm c) in
    let* _ := mput (set_conn (Conn (buf c) s) r) in
    match out with
    | [] => mthrow (RuntimeError "Connection closed before chunk data complete")
    | _ => let* _ := advance (length out) in mret out
    end.

Definition chunkedRead (len : nat) : M (ChunkedReader S) bytes :=
  let* r := mget in
  match state_ r with
  | Complete => mret []
  | ReadSize =>
      let* ok := parseChunkSize in
      if negb ok then mthrow (RuntimeError "Invalid chunked encoding")
      else
        let* r := mget in
        match state_ r with
        | Complete => mret []
        | _ => readData len
        end
  | ReadData => readData len
  end.
End reader.

(** ** The wire format *)

Definition encodeChunk (d : bytes) : bytes := to_hex (size d) ++ CRLF ++ d ++ CRLF.

Definition encodeChunks (ds : list bytes) : bytes := concat (map encodeChunk ds).

Definition lastChunk : bytes := str "0" ++ CRLF ++ CRLF.

(** A chunk the writer emits: not empty, and short enough for its size line. *)
Definition chunk_ok (d : bytes) : Prop := d <> [] /\ size d < 2 ^ 52.

Section lemmas.
Context {S : Type} `{!ByteStream S}.

Lemma skipCRLFLoop_ok (fuel : nat) (c : conn S) (d : bytes) :
  remains c (CRLF ++ d) -> (2 <= fuel + remainSize (buf c))%nat ->
  exists c', skipCRLFLoop fuel c = (Ok tt, c') /\ remains c' d.
Proof.
  revert c. induction fuel as [| fuel IH]; intros c Hrem Hf; cbn [skipCRLFLoop];
    destruct (Nat.ltb_spec (remainSize (buf c)) 2) as [Hlt | Hge]; try lia.
  - destruct (consumeM_ok 2 c CRLF d Hrem eq_refl Hge) as (c' & -> & ? & _). eauto.
  - destruct (fillOrThrow_ok 128 "Connection closed before chunk CRLF complete" c _ ltac:(lia) Hrem)
      as (c' & n & Hfill & Hrem' & Hn & Hsz & _); [rewrite length_app; simpl; lia |].
    rewrite (mbind_ok _ _ _ _ _ Hfill). apply IH; [done | lia].
  - destruct (consumeM_ok 2 c CRLF d Hrem eq_refl Hge) as (c' & -> & ? & _). eauto.
Qed.

(** A trailer: header lines, which the reader drops, and an empty line. *)
Definition trailer (ls : list bytes) : bytes :=
  concat (map (fun l => l ++ CRLF) ls) ++ CRLF.

Definition trailer_line (l : bytes) : Prop := no_cr l /\ 0 < size l < 8000.

Lemma skipTrailerLoop_ok (fuel : nat) (c : conn S) (lines : Z) (ls : list bytes) (d : bytes) :
  remains c (trailer ls ++ d) -> Forall trailer_line ls ->
  0 <= lines -> lines + size ls <= 128 ->
  (2 * length (pending (strm c)) + remainSize (buf c) < fuel)%nat ->
  exists c', skipTrailerLoop fuel lines c = (Ok tt, c') /\ remains c' d.
Proof.
  revert c lines ls. induction fuel as [| fuel IH]; intros c lines ls Hrem Hls Hl0 Hl Hf; [lia |].
  cbn [skipTrailerLoop]. rewrite (mbind_ok mget _ c c c eq_refl).
  (* the first line, empty or not, and what follows it *)
  assert (Hline : exists line more, trailer ls ++ d = line ++ CRLF ++ more /\ no_cr line
    /\ size line < 8000
    /\ (line = [] -> more = d)
    /\ (line <> [] -> exists ls', more = trailer ls' ++ d /\ Forall trailer_line ls'
                        /\ size ls = 1 + size ls')).
  { destruct ls as [| l ls].
    - exists [], d. split; [done |]. split; [constructor | by repeat split].
    - apply Forall_cons in Hls as [[Hcr Hlen] Hls]. exists l, (trailer ls ++ d).
      split; [unfold trailer; simpl; by rewrite <- !app_assoc |].
      split; [done |]. split; [lia |]. split; [intros Hl'; rewrite Hl' in Hlen; change (size []) with 0 in Hlen; lia |].
      intros _. exists ls. by rewrite size_cons. }
  destruct Hline as (line & more & Heq & Hcr & Hlen & Hnil & Hcons).
  assert (Hfind := Hrem). destruct Hfind as [Hwf Hd].
  rewrite (mbind_ok _ _ c c _ (f_equal (fun o => (o, c))
    (find_crlf (buf c) line (pending (strm c)) more Hwf Hcr (eq_trans Hd Heq)))).
  rewrite Heq in Hrem.
  destruct (Nat.leb_spec (length line + 2) (remainSize (buf c))) as [Hge | Hlt].
  - assert (Hpos : (size line =? npos) = false).
    { apply Z.eqb_neq. clear - Hlen. unfold size, npos in *. lia. }
    rewrite Hpos. replace (Z.to_nat (size line + 2)) with (length line + 2)%nat
      by (unfold size; lia).
    rewrite app_assoc in Hrem.
    destruct (consumeM_ok (length line + 2) c (line ++ CRLF) more Hrem) as (c' & Hc & Hr & Hs & Hp);
      [by rewrite length_app | lia |].
    rewrite (mbind_ok _ _ _ _ _ Hc).
    destruct line as [| b line].
    + rewrite (Hnil eq_refl) in Hr. exists c'. done.
    + destruct (Hcons ltac:(done)) as (ls' & -> & Hls' & Hsz).
      rewrite size_cons. pose proof (size_nonneg line). pose proof (size_nonneg ls').
      destruct (Z.eqb_spec (1 + size line) 0); [lia |].
      destruct (Z.ltb_spec 128 (lines + 1)); [lia |].
      apply (IH c' (lines + 1) ls' Hr Hls'); [lia .. |]. rewrite Hp. lia.
  - change (npos =? npos) with true. cbv iota.
    destruct (Z.leb_spec 8192 (Z.of_nat (remainSize (buf c)))); [unfold size in Hlen; lia |].
    destruct (fillOrThrow_ok 128 "Connection closed before chunked trailer complete" c _ ltac:(lia) Hrem)
      as (c' & n & Hfill & Hrem' & Hn & Hsz & Hp); [rewrite !length_app; simpl; lia |].
    rewrite (mbind_ok _ _ _ _ _ Hfill). rewrite <- Heq in Hrem'.
    apply (IH c' lines ls Hrem' Hls Hl0 Hl). lia.
Qed.

(** ** The chunk-size line *)

(** The loop buffers the line and reads its number. *)
Lemma parseChunkSizeLoop_line (fuel : nat) (r : ChunkedReader S) (n : Z) (more : bytes) :
  remains (ck_conn r) (to_hex n ++ CRLF ++ more) -> 0 <= n < 2 ^ 64 ->
  (20 <= fuel + remainSize (buf (ck_conn r)))%nat -> (0 < fuel)%nat ->
  exists c', remains c' more /\
    parseChunkSizeLoop fuel r
    = (if n =? 0 then
         let* _ := on_conn skipTrailer in
         let* r := mget in
         let* _ := mput (set_state Complete r) in mret true
       else
         let* r := mget in
         let* _ := mput (set_state ReadData r) in mret true)
      (mkChunked c' (state_ r) n 0).
Proof.
  intros Hrem Hn. destruct (to_hex_plain n Hn) as [Hlen Hcr].
  revert r Hrem. induction fuel as [| fuel IH]; intros r Hrem Hf Hpos; [lia |].
  cbn [parseChunkSizeLoop]. rewrite (mbind_ok mget _ r r r eq_refl).
  assert (Hview := Hrem). destruct Hview as [Hwf Hd].
  rewrite (mbind_ok _ _ r r _ (f_equal (fun o => (o, r))
    (find_crlf (buf (ck_conn r)) (to_hex n) (pending (strm (ck_conn r))) more Hwf Hcr Hd))).
  destruct (Nat.leb_spec (length (to_hex n) + 2) (remainSize (buf (ck_conn r)))) as [Hge | Hlt].
  - assert (Hp : (size (to_hex n) =? npos) = false).
    { apply Z.eqb_neq. clear - Hlen. unfold size, npos. lia. }
    rewrite Hp. destruct (Z.ltb_spec MAX_CHUNK_SIZE_LINE (size (to_hex n)));
      [clear - Hlen H; unfold size, MAX_CHUNK_SIZE_LINE in *; lia |].
    rewrite (mbind_ok _ _ r r _ (f_equal (fun o => (o, r))
      (holds_view (buf (ck_conn r)) _ (conj Hwf eq_refl)))).
    assert (Hsub : sv_substr (contents (buf (ck_conn r))) 0 (size (to_hex n)) = Ok (to_hex n)).
    { unfold sv_substr. pose proof (size_nonneg (contents (buf (ck_conn r)))).
      destruct (Z.ltb_spec (size (contents (buf (ck_conn r)))) 0); [lia |].
      change (Z.to_nat 0) with 0%nat. rewrite drop_0. f_equal.
      assert (Hc : (length (to_hex n) <= length (contents (buf (ck_conn r))))%nat)
        by (rewrite length_contents by done; lia).
      replace (Z.to_nat _) with (length (to_hex n)) by (clear - Hc; unfold size; lia).
      assert (Ht := f_equal (take (length (to_hex n))) Hd).
      by rewrite take_app_le, take_app_length in Ht by done. }
    rewrite (mbind_ok _ _ r r _ (f_equal (fun o => (o, r)) Hsub)).
    rewrite (mbind_ok _ _ r r _ (f_equal (fun o => (o, r)) (stoul_to_hex n Hn))).
    replace (Z.to_nat (size (to_hex n) + 2)) with (length (to_hex n) + 2)%nat
      by (clear; unfold size; lia).
    rewrite app_assoc in Hrem.
    destruct (consumeM_ok (length (to_hex n) + 2) (ck_conn r) (to_hex n ++ CRLF) more Hrem)
      as (c' & Hc & Hr & _); [by rewrite length_app | lia |].
    exists c'. split; [done |].
    unfold mbind at 1. unfold on_conn at 1. rewrite Hc. by destruct (n =? 0).
  - change (npos =? npos) with true. cbv iota.
    destruct (Z.leb_spec MAX_CHUNK_SIZE_LINE (Z.of_nat (remainSize (buf (ck_conn r)))));
      [clear - Hlt Hlen H; unfold MAX_CHUNK_SIZE_LINE in *; lia |].
    destruct (fillOrThrow_ok 128 "Connection closed before chunk size complete" (ck_conn r) _ ltac:(lia) Hrem)
      as (c' & k & Hfill & Hrem' & Hk & Hsz & _); [rewrite !length_app; simpl; lia |].
    destruct (IH (set_conn c' r)) as (c2 & Hc2 & Heq); [done | simpl; lia | lia |].
    exists c2. split; [done |].
    unfold mbind at 1. unfold on_conn at 1. rewrite Hfill. exact Heq.
Qed.

(** ** What a reader still has to deliver *)

Definition chunkedDelivers (r : ChunkedReader S) (d rest : bytes) : Prop :=
  exists ls, Forall trailer_line ls /\ size ls <= 128 /\
  match state_ r with
  | Complete => d = [] /\ remains (ck_conn r) rest
  | ReadSize =>
      exists ds, Forall chunk_ok ds /\ d = concat ds
        /\ remains (ck_conn r) (encodeChunks ds ++ str "0" ++ CRLF ++ trailer ls ++ rest)
  | ReadData =>
      exists cur ds, cur <> [] /\ Forall chunk_ok ds /\ d = cur ++ concat ds
        /\ size cur = currentChunkSize_ r - currentChunkRead_ r
        /\ remains (ck_conn r)
             (cur ++ CRLF ++ encodeChunks ds ++ str "0" ++ CRLF ++ trailer ls ++ rest)
  end.

Lemma advance_ok (r : ChunkedReader S) (k : nat) (cur rest : bytes) (ds ls : list bytes) :
  state_ r = ReadData -> Forall trailer_line ls -> size ls <= 128 -> Forall chunk_ok ds ->
  size cur = currentChunkSize_ r - (currentChunkRead_ r + Z.of_nat k) ->
  remains (ck_conn r)
    (cur ++ CRLF ++ encodeChunks ds ++ str "0" ++ CRLF ++ trailer ls ++ rest) ->
  exists r', advance k r = (Ok tt, r') /\ chunkedDelivers r' (cur ++ concat ds) rest.
Proof.
  intros Hst Hls Hl Hds Hsz Hrem. unfold advance.
  rewrite (mbind_ok mget _ r r r eq_refl). unfold mbind at 1. cbn [mput].
  cbn [currentChunkSize_ currentChunkRead_].
  destruct (Z.leb_spec (currentChunkSize_ r) (currentChunkRead_ r + Z.of_nat k)) as [Hle | Hgt].
  - assert (cur = []) as ->.
    { apply size_zero_nil. pose proof (size_nonneg cur). lia. }
    destruct (skipCRLFLoop_ok 3 (ck_conn r) _ Hrem) as (c' & Hskip & Hrem'); [lia |].
    eexists. split.
    + unfold mbind at 1, on_conn. cbn [ck_conn]. unfold skipCRLF. rewrite Hskip.
      unfold mbind, mget, mput. reflexivity.
    + exists ls. split; [done |]. split; [done |]. cbn [state_ set_state set_conn ck_conn].
      exists ds. done.
  - eexists. split; [reflexivity |].
    exists ls. split; [done |]. split; [done |]. cbn [state_ ck_conn]. rewrite Hst.
    exists cur, ds. split; [intros ->; change (size []) with 0 in Hsz; lia |].
    split; [done |]. split; [done |]. by split.
Qed.

Lemma readData_ok (len : nat) (r : ChunkedReader S) (d rest : bytes) :
  chunkedDelivers r d rest -> state_ r = ReadData -> (0 < len)%nat ->
  exists out r', readData len r = (Ok out, r') /\ (length out <= len)%nat
    /\ exists d', d = out ++ d' /\ chunkedDelivers r' d' rest /\ out <> [].
Proof.
  intros (ls & Hls & Hl & Hdel) Hst Hlen. rewrite Hst in Hdel.
  destruct Hdel as (cur & ds & Hne & Hds & -> & Hsz & Hrem).
  assert (Hcur : (0 < length cur)%nat) by (destruct cur; [done | simpl; lia]).
  unfold readData. rewrite (mbind_ok mget _ r r r eq_refl).
  destruct (Nat.ltb_spec 0 (remainSize (buf (ck_conn r)))) as [Hav | Hav].
  - set (k := upto _ _).
    assert (Hk : (0 < k <= len)%nat /\ (k <= remainSize (buf (ck_conn r)))%nat
                 /\ (k <= length cur)%nat) by (unfold k, upto, size in *; lia).
    destruct (Hrem) as [Hwf Hd].
    rewrite (mbind_ok _ _ r r _ (f_equal (fun o => (o, r))
      (holds_view (buf (ck_conn r)) _ (conj Hwf eq_refl)))).
    destruct (remains_consume _ _ k Hrem ltac:(lia)) as [Htake Hrem'].
    rewrite take_app_le in Htake by lia. rewrite drop_app_le in Hrem' by lia.
    unfold mbind at 1. unfold on_conn at 1, consumeM at 1.
    edestruct (advance_ok (set_conn (Conn (consume k (buf (ck_conn r))) (strm (ck_conn r))) r)
      k (drop k cur) rest ds ls) as (r' & Hadv & Hdel'); try done.
    { cbn [set_conn currentChunkSize_ currentChunkRead_]. unfold size in *.
      rewrite length_drop. lia. }
    rewrite (mbind_ok _ _ _ _ _ Hadv). eexists _, r'. split; [reflexivity |].
    rewrite Htake. split; [rewrite length_take; lia |].
    exists (drop k cur ++ concat ds). rewrite app_assoc, take_drop.
    split; [done |]. split; [done |].
    intros H. apply (f_equal length) in H. rewrite length_take in H. simpl in H. lia.
  - set (k := upto _ _).
    assert (Hk : (0 < k <= len)%nat /\ (k <= length cur)%nat)
      by (unfold k, upto, size in *; lia).
    destruct (stream_read k (strm (ck_conn r))) as [out s] eqn:Hr.
    destruct (remains_read _ _ out k s Hrem ltac:(lia) Hr) as (d1 & Hd1 & Ho & Hrem' & Hnil).
    unfold mbind at 1. cbn [mput].
    destruct out as [| b out].
    { destruct (Hnil eq_refl) as [? | Heq]; [lia |]. by apply app_eq_nil in Heq as [? _]. }
    destruct (app_eq_inv _ _ _ _ Hd1) as [(k' & -> & Hk') | (k' & Ho' & Hk')].
    + edestruct (advance_ok (set_conn (Conn (buf (ck_conn r)) s) r) (length (b :: out)) k' rest ds ls)
        as (r' & Hadv & Hdel'); try done.
      { cbn [set_conn currentChunkSize_ currentChunkRead_].
        rewrite size_app in Hsz. unfold size in *. lia. }
      { cbn [set_conn ck_conn]. by rewrite <- Hk'. }
      rewrite (mbind_ok _ _ _ _ _ Hadv). eexists _, r'. split; [reflexivity |].
      split; [lia |]. exists (k' ++ concat ds). by rewrite <- app_assoc.
    + assert (k' = []) as ->.
      { apply (f_equal length) in Ho'. rewrite length_app in Ho'.
        apply nil_length_inv. lia. }
      rewrite app_nil_r in Ho'. subst cur. simpl in Hk'. subst d1.
      edestruct (advance_ok (set_conn (Conn (buf (ck_conn r)) s) r) (length (b :: out)) [] rest ds ls)
        as (r' & Hadv & Hdel'); try done.
      { cbn [set_conn currentChunkSize_ currentChunkRead_].
        change (size []) with 0. unfold size in *. lia. }
      rewrite (mbind_ok _ _ _ _ _ Hadv). eexists _, r'. split; [reflexivity |].
      split; [lia |]. by exists (concat ds).
Qed.
End lemmas.

Section chunked_reader.
Context {S : Type} `{!ByteStream S}.

Lemma skipTrailer_ok (c : conn S) (ls : list bytes) (d : bytes) :
  remains c (trailer ls ++ d) -> Forall trailer_line ls -> size ls <= 128 ->
  exists c', skipTrailer c = (Ok tt, c') /\ remains c' d.
Proof.
  intros Hrem Hls Hl. unfold skipTrailer. eapply skipTrailerLoop_ok; eauto; lia.
Qed.

Lemma chunkedRead_ok (n : nat) (r : ChunkedReader S) (d rest : bytes) :
  chunkedDelivers r d rest -> (0 < n)%nat ->
  (match state_ r with Complete => true | _ => false end) = false ->
  exists out r', chunkedRead n r = (Ok out, r') /\ (length out <= n)%nat
    /\ exists d', d = out ++ d' /\ chunkedDelivers r' d' rest
    /\ (out = [] -> state_ r' = Complete).
Proof.
  intros Hdel Hn Hc. unfold chunkedRead. rewrite (mbind_ok mget _ r r r eq_refl).
  destruct (state_ r) eqn:Hst; [| | done].
  - destruct Hdel as (ls & Hls & Hl & Hdel). rewrite Hst in Hdel.
    destruct Hdel as (ds & Hds & -> & Hrem).
    assert (Hpc : forall (sz : Z) (more : bytes),
      remains (ck_conn r) (to_hex sz ++ CRLF ++ more) -> 0 <= sz < 2 ^ 64 ->
      exists c', remains c' more /\ parseChunkSize r
        = (if sz =? 0 then
             let* _ := on_conn skipTrailer in
             let* r := mget in let* _ := mput (set_state Complete r) in mret true
           else
             let* r := mget in let* _ := mput (set_state ReadData r) in mret true)
          (mkChunked c' (state_ r) sz 0)).
    { intros sz more H1 H2. apply parseChunkSizeLoop_line; [done | done | lia | lia]. }
    destruct ds as [| d1 ds].
    + destruct (Hpc 0 (trailer ls ++ rest) Hrem ltac:(lia)) as (c' & Hrem' & Heq).
      destruct (skipTrailer_ok c' ls rest Hrem' Hls Hl) as (c2 & Hskip & Hrem2).
      exists [], (mkChunked c2 Complete 0 0). split.
      { unfold mbind at 1. rewrite Heq. cbn [Z.eqb].
        unfold mbind at 1, on_conn. cbn [ck_conn]. by rewrite Hskip. }
      split; [simpl; lia |]. exists []. split; [done |]. split; [| done].
      exists ls. by cbn [state_].
    + apply Forall_cons in Hds as [[Hne Hsz] Hds].
      assert (Hrem0 : remains (ck_conn r) (to_hex (size d1) ++ CRLF ++
        (d1 ++ CRLF ++ encodeChunks ds ++ str "0" ++ CRLF ++ trailer ls ++ rest))).
      { unfold encodeChunks in Hrem. cbn [map concat] in Hrem. unfold encodeChunk at 1 in Hrem.
        by rewrite <- !app_assoc in Hrem. }
      pose proof (size_nonneg d1).
      destruct (Hpc (size d1) _ Hrem0 ltac:(lia)) as (c' & Hrem' & Heq).
      assert (Hnz : (size d1 =? 0) = false).
      { apply Z.eqb_neq. intros H0. by apply size_zero_nil in H0. }
      rewrite Hnz in Heq.
      destruct (readData_ok n (mkChunked c' ReadData (size d1) 0) (d1 ++ concat ds) rest)
        as (out & r' & Hrd & Hlen & d' & Hd' & Hdel' & Hout).
      { exists ls. split; [done |]. split; [done |]. cbn [state_].
        exists d1, ds. split; [done |]. split; [done |]. split; [done |].
        split; [| done]. cbn. lia. }
      { done. }
      { done. }
      exists out, r'. split.
      { unfold mbind at 1. rewrite Heq. unfold mbind, mget, mput, mret, set_state. cbn.
        exact Hrd. }
      split; [done |]. exists d'. by split.
  - destruct (readData_ok n r d rest Hdel Hst Hn)
      as (out & r' & Hrd & Hlen & d' & Hd' & Hdel' & Hout).
    exists out, r'. split; [done |]. split; [done |]. exists d'. by split.
Qed.

Lemma chunkedWrite_ok (d : bytes) (s : S) :
  d <> [] -> size d < 2 ^ 52 -> chunkedWrite d s = (Ok tt, stream_write (encodeChunk d) s).
Proof.
  intros Hne Hd. pose proof (to_hex_short (size d) (conj (size_nonneg d) Hd)) as Hl.
  assert (Hlen : (length (to_hex (size d) ++ CRLF) <= 15)%nat)
    by (rewrite length_app; simpl; lia).
  unfold chunkedWrite, encodeChunk. destruct d; [done |]. cbv zeta.
  set (line := to_hex _ ++ CRLF) in *. destruct (Nat.leb_spec (length line) 16); [| lia].
  rewrite (firstn_all2 line Hlen), take_app_length.
  unfold line. by rewrite <- app_assoc.
Qed.

(** The writer puts one chunk per non-empty piece, and the last chunk. *)
Lemma chunkedWriteAll_ok (pieces : list bytes) (s : S) :
  Forall (fun d => size d < 2 ^ 52) pieces ->
  exists s', chunkedWriteAll pieces s = (Ok tt, s') /\ pending s' = pending s /\
    sent s' = sent s ++ encodeChunks (filter (fun d => d <> []) pieces) ++ lastChunk.
Proof.
  revert s. induction pieces as [| p pieces IH]; intros s Hp; cbn [chunkedWriteAll].
  - eexists. split; [reflexivity |].
    destruct (stream_write_ok (str "0" ++ CRLF ++ CRLF) s) as [Hs Hpd]. done.
  - apply Forall_cons in Hp as [Hp Hps]. destruct p as [| b p].
    + destruct (IH s Hps) as (s' & Hw & H1 & H2). exists s'.
      unfold mbind. cbn [chunkedWrite]. rewrite Hw. split; [done |]. split; [done |].
      rewrite H2. by rewrite filter_cons_False by (intros H; by apply H).
    + destruct (stream_write_ok (encodeChunk (b :: p)) s) as [Hs1 Hp1].
      destruct (IH (stream_write (encodeChunk (b :: p)) s) Hps) as (s' & Hw & H1 & H2).
      exists s'. rewrite (mbind_ok _ _ _ _ _ (chunkedWrite_ok (b :: p) s ltac:(done) Hp)).
      split; [done |]. split; [congruence |]. rewrite H2, Hs1, filter_cons_True by done.
      unfold encodeChunks. cbn [map concat]. by rewrite <- !app_assoc.
Qed.
End chunked_reader.

#[export, refine] Instance chunked_reader {S : Type} `{!ByteStream S} :
  BodyReader (ChunkedReader S) := {
  readImpl := chunkedRead;
  isComplete r := match state_ r with Complete => true | _ => false end;
  delivers := chunkedDelivers
}.
Proof.
  - intros n r d rest Hd Hn Hc.
    destruct (chunkedRead_ok n r d rest Hd Hn Hc) as (out & r' & ? & ? & d' & ? & ? & Hout).
    exists out, r'. split; [done |]. split; [done |]. exists d'.
    split; [done |]. split; [done |]. intros Ho. by rewrite (Hout Ho).
  - intros r d rest (ls & _ & _ & Hd) Hc. destruct (state_ r); [done .. |]. by destruct Hd.
Defined.

(** ** Properties *)

(** C7: the chunked coding is a round trip.  Whatever pieces a handler writes,
    what the writer sends, arriving in whatever segments, possibly with bytes
    already buffered and followed by anything, is read back as the
    concatenation of the pieces: the loop that collects the body ends, throws
    nothing and leaves exactly the bytes that follow the body. *)
Theorem chunked_roundtrip {W R : Type} `{!ByteStream W, !ByteStream R}
    (pieces : list bytes) (w : W) (c : conn R) (rest : bytes) (fuel : nat) :
  Forall (fun d => size d < 2 ^ 52) pieces -> sent w = [] ->
  wf (buf c) -> contents (buf c) ++ pending (strm c) = sent (snd (chunkedWriteAll pieces w)) ++ rest ->
  (length (concat pieces) < fuel)%nat ->
  fst (chunkedWriteAll pieces w) = Ok tt
  /\ exists r', readBody fuel (mkReader (mkChunked c ReadSize 0 0) false) = (Ok (concat pieces), r')
       /\ remains (ck_conn (impl r')) rest.
Proof.
  intros Hp Hw Hwf Hc Hf. destruct (chunkedWriteAll_ok pieces w Hp) as (s' & Heq & _ & Hsent).
  rewrite Heq in *. cbn [fst snd] in *. split; [done |].
  rewrite Hw in Hsent. rewrite Hsent in Hc. simpl app in Hc.
  set (ds := filter (fun d => d <> []) pieces) in *.
  assert (Hcat : concat ds = concat pieces).
  { unfold ds. clear. induction pieces as [| p pieces IH]; [done |].
    rewrite filter_cons. destruct (decide (p <> [])) as [Hne | He]; simpl; [by rewrite IH |].
    destruct p; [done |]. exfalso. by apply He. }
  assert (Hok : Forall chunk_ok ds).
  { apply Forall_forall. intros d Hd. apply list_elem_of_filter in Hd as [Hne Hd].
    split; [done |]. by apply (proj1 (Forall_forall _ _) Hp). }
  edestruct (readBody_ok fuel (mkChunked c ReadSize 0 0) (concat pieces) rest)
    as (r' & Hread & Hdel); [| exact Hf |].
  { exists []. split; [constructor |]. split; [done |]. cbn [state_ ck_conn].
    exists ds. split; [done |]. split; [done |]. split; [done |].
    rewrite Hc. unfold trailer, lastChunk. simpl. by rewrite <- !app_assoc. }
  exists r'. split; [done |].
  destruct Hdel as [(ls & _ & _ & Hdel) Hcomp].
  cbn in Hcomp. destruct (state_ (impl r')); [done .. |]. by destruct Hdel.
Qed.

Lemma chunked_roundtrip_witness :
  fst (chunkedWriteAll [str "Hello, "; []; str "world!"] (Script [] [])) = Ok tt
  /\ exists r', readBody 20 (mkReader (mkChunked (Conn (mkStringBuffer (str "x7") 1 2)
       (Script [CRLF ++ str "H"; str "ello, "; CRLF; str "6"; CRLF ++ str "world!";
                CRLF ++ str "0" ++ CRLF ++ CRLF ++ str "GET"] [])) ReadSize 0 0) false)
       = (Ok (concat [str "Hello, "; []; str "world!"]), r')
     /\ remains (ck_conn (impl r')) (str "GET").
Proof.
  apply (chunked_roundtrip [str "Hello, "; []; str "world!"] (Script [] [])
    (Conn (mkStringBuffer (str "x7") 1 2)
       (Script [CRLF ++ str "H"; str "ello, "; CRLF; str "6"; CRLF ++ str "world!";
                CRLF ++ str "0" ++ CRLF ++ CRLF ++ str "GET"] [])) (str "GET") 20).
  - repeat constructor.
  - reflexivity.
  - unfold wf; simpl; lia.
  - reflexivity.
  - simpl; lia.
Defined.
