(* ===== verification/Split.v ===== *)
(** The loop that walks over the parts of a string between delimiters, which
    the parsers of query strings, forms and cookies are all written with:
<<
    size_t start = 0;
    while (start < s.size()) {
        size_t p = s.find(delim, start);
        size_t end = (p == npos) ? s.size() : p;
        std::string_view part = s.substr(start, end - start);
        ...
        if (p == npos) break;
        start = p + 1;
    }
>>
    and what it computes: the body runs on each part in order, and an empty
    part after the last delimiter is not visited. *)

From Stdlib Require Import ZArith Lia String Strings.Byte.
From stdpp Require Import base numbers option list.
From S2P Require Import Prelude CxxStd.
Open Scope Z_scope.

Section split.
Context {A : Type} (delim : byte) (body : bytes -> A -> outcome A).

(** Every round but the last moves [start] forward: one round per character
    and one more are enough. *)
Fixpoint splitLoop (fuel : nat) (s : bytes) (start : Z) (acc : A) : outcome A :=
  if start <? size s then
    match fuel with
    | O => Diverge
    | S fuel' =>
        let p := sv_find s delim start in
        let e := if p =? npos then size s else p in
        let! part := sv_substr s start (e - start) in
        let! acc := body part acc in
        if p =? npos then Ok acc else splitLoop fuel' s (p + 1) acc
    end
  else Ok acc.

Definition forEachPart (s : bytes) (acc : A) : outcome A :=
  splitLoop (S (length s)) s 0 acc.

(** ** What the loop computes *)

(** The text up to the first delimiter and the text after it. *)
Fixpoint cut (s : bytes) : bytes * option bytes :=
  match s with
  | [] => ([], None)
  | b :: s' =>
      if Byte.eqb delim b then ([], Some s')
      else let '(part, rest) := cut s' in (b :: part, rest)
  end.

Fixpoint foldParts (fuel : nat) (s : bytes) (acc : A) : outcome A :=
  match s, fuel with
  | [], _ => Ok acc
  | _, O => Diverge
  | _, S fuel' =>
      let '(part, rest) := cut s in
      let! acc := body part acc in
      match rest with
      | Some s' => foldParts fuel' s' acc
      | None => Ok acc
      end
  end.
End split.

(** ** Lemmas on searches *)

Lemma index_of_Some (P : byte -> bool) (s : bytes) (i : nat) :
  index_of P s = Some i ->
  exists b, s !! i = Some b /\ P b = true /\ Forall (fun b => P b = false) (take i s).
Proof.
  revert i. induction s as [| b s IH]; intros i; simpl; [done |].
  destruct (P b) eqn:Hb; intros H; simplify_eq/=.
  - exists b. by repeat split.
  - destruct (index_of P s) as [j |] eqn:Hj; simplify_eq/=.
    destruct (IH j eq_refl) as (c & ? & ? & ?). exists c. repeat split; [done .. |].
    by constructor.
Qed.

Lemma index_of_None (P : byte -> bool) (s : bytes) :
  index_of P s = None -> Forall (fun b => P b = false) s.
Proof.
  induction s as [| b s IH]; simpl; [done |]. destruct (P b) eqn:Hb; [done |].
  destruct (index_of P s); [done |]. intros _. constructor; auto.
Qed.

Lemma index_of_app (P : byte -> bool) (a : bytes) (c : byte) (b : bytes) :
  Forall (fun b => P b = false) a -> P c = true ->
  index_of P (a ++ c :: b) = Some (length a).
Proof.
  intros Ha Hc. induction Ha as [| x a Hx Ha IH]; simpl; [by rewrite Hc |].
  by rewrite Hx, IH.
Qed.

Lemma index_of_none (P : byte -> bool) (a : bytes) :
  Forall (fun b => P b = false) a -> index_of P a = None.
Proof. induction 1 as [| x a Hx Ha IH]; simpl; [done |]. by rewrite Hx, IH. Qed.

(** Searching from a position that follows a prefix. *)
Lemma sv_find_if_app (P : byte -> bool) (p a : bytes) (c : byte) (b : bytes) :
  Forall (fun b => P b = false) a -> P c = true ->
  sv_find_if P (p ++ a ++ c :: b) (size p) = size p + size a.
Proof.
  intros Ha Hc. unfold sv_find_if. rewrite !size_app, size_cons.
  pose proof (size_nonneg a). pose proof (size_nonneg b).
  destruct (Z.leb_spec (size p + (size a + (1 + size b))) (size p)); [lia |].
  unfold size at 2. rewrite Nat2Z.id, drop_app_length, index_of_app by done. done.
Qed.

Lemma sv_find_if_none (P : byte -> bool) (p a : bytes) :
  Forall (fun b => P b = false) a -> sv_find_if P (p ++ a) (size p) = npos.
Proof.
  intros Ha. unfold sv_find_if. destruct (size (p ++ a) <=? size p); [done |].
  unfold size. by rewrite Nat2Z.id, drop_app_length, index_of_none.
Qed.

Lemma sv_find_if_cases (P : byte -> bool) (s : bytes) (pos : Z) :
  0 <= pos -> size s < npos ->
  (sv_find_if P s pos = npos)
  \/ (pos <= sv_find_if P s pos < size s).
Proof.
  intros Hpos Hs. unfold sv_find_if. destruct (Z.leb_spec (size s) pos); [by left |].
  destruct (index_of P (drop (Z.to_nat pos) s)) as [i |] eqn:Hi; [right | by left].
  apply index_of_Some in Hi as (b & Hb & _). apply lookup_lt_Some in Hb.
  rewrite length_drop in Hb. simpl. unfold size in *. lia.
Qed.

(** ** Lemmas on [substr] *)

Lemma sv_substr_mid (p a b : bytes) (n : Z) :
  n = size a -> sv_substr (p ++ a ++ b) (size p) n = Ok a.
Proof.
  intros ->. unfold sv_substr. rewrite !size_app.
  pose proof (size_nonneg a). pose proof (size_nonneg b).
  destruct (Z.ltb_spec (size p + (size a + size b)) (size p)); [lia |].
  rewrite Z.min_l by lia. unfold size. rewrite !Nat2Z.id, drop_app_length.
  by rewrite take_app_length.
Qed.

Lemma sv_substr_rest (p a : bytes) (n : Z) :
  size a <= n -> sv_substr (p ++ a) (size p) n = Ok a.
Proof.
  intros Hn. unfold sv_substr. rewrite size_app. pose proof (size_nonneg a).
  destruct (Z.ltb_spec (size p + size a) (size p)); [lia |].
  rewrite Z.min_r by lia. replace (size p + size a - size p) with (size a) by lia.
  unfold size. by rewrite !Nat2Z.id, drop_app_length, firstn_all.
Qed.

Lemma sv_substr_total (s : bytes) (pos n : Z) :
  0 <= pos <= size s -> exists r, sv_substr s pos n = Ok r.
Proof.
  intros H. unfold sv_substr. destruct (Z.ltb_spec (size s) pos); [lia |]. eauto.
Qed.

(** ** The loop computes the fold over the parts *)

Lemma cut_spec (delim : byte) (s : bytes) :
  match cut delim s with
  | (part, None) => s = part /\ Forall (fun b => Byte.eqb delim b = false) part
  | (part, Some rest) =>
      s = part ++ delim :: rest /\ Forall (fun b => Byte.eqb delim b = false) part
  end.
Proof.
  induction s as [| b s IH]; simpl; [done |].
  destruct (Byte.eqb delim b) eqn:Hb.
  - apply Byte.byte_dec_bl in Hb as ->. done.
  - destruct (cut delim s) as [part [rest |]]; destruct IH as [-> Hp]; split; try done;
      by constructor.
Qed.

Lemma splitLoop_parts {A : Type} (delim : byte) (body : bytes -> A -> outcome A)
    (fuel : nat) (p s : bytes) (acc : A) :
  size (p ++ s) < npos -> (length s < fuel)%nat ->
  splitLoop delim body fuel (p ++ s) (size p) acc = foldParts delim body fuel s acc.
Proof.
  revert p s acc. induction fuel as [| fuel IH]; intros p s acc Hnp Hf; [lia |].
  cbn [splitLoop]. destruct s as [| b s].
  { rewrite app_nil_r, Z.ltb_irrefl. done. }
  rewrite size_app, size_cons in *. pose proof (size_nonneg s). pose proof (size_nonneg p).
  destruct (Z.ltb_spec (size p) (size p + (1 + size s))); [| lia].
  unfold foldParts; fold (foldParts delim body).
  pose proof (cut_spec delim (b :: s)) as Hcut.
  destruct (cut delim (b :: s)) as [part [rest |]]; destruct Hcut as [Hs Hp];
    pose proof (f_equal size Hs) as Hsz; pose proof (f_equal length Hs) as Hln;
    rewrite size_cons in Hsz; simpl length in Hln; rewrite Hs.
  - unfold sv_find. rewrite sv_find_if_app by (done || by destruct delim).
    assert (Hne : (size p + size part =? npos) = false).
    { apply Z.eqb_neq. rewrite size_app, size_cons in Hsz. pose proof (size_nonneg rest). lia. }
    rewrite Hne, sv_substr_mid by lia. cbn [obind].
    destruct (body part acc) as [acc' | | |]; cbn [obind]; try done.
    assert (Happ : p ++ part ++ delim :: rest = (p ++ part ++ [delim]) ++ rest)
      by (by rewrite <- !app_assoc).
    rewrite Happ.
    replace (size p + size part + 1) with (size (p ++ part ++ [delim]))
      by (rewrite !size_app; change (size [delim]) with 1; lia).
    apply IH.
    + rewrite <- Happ, <- Hs, size_app, size_cons. lia.
    + rewrite length_app in Hln. simpl in Hln, Hf. lia.
  - unfold sv_find. rewrite sv_find_if_none by done. change (npos =? npos) with true. cbv iota.
    rewrite sv_substr_rest; [done |]. lia.
Qed.

Lemma forEachPart_parts {A : Type} (delim : byte) (body : bytes -> A -> outcome A)
    (s : bytes) (acc : A) :
  size s < npos ->
  forEachPart delim body s acc = foldParts delim body (S (length s)) s acc.
Proof.
  intros Hs. apply (splitLoop_parts delim body (S (length s)) [] s acc); [exact Hs | lia].
Qed.

(** Whatever the parts, a body that never fails makes a loop that never
    fails. *)
Lemma foldParts_ok {A : Type} (delim : byte) (body : bytes -> A -> outcome A)
    (fuel : nat) (s : bytes) (acc : A) :
  (forall part acc, size part <= size s -> exists acc', body part acc = Ok acc') ->
  (length s < fuel)%nat -> exists acc', foldParts delim body fuel s acc = Ok acc'.
Proof.
  revert s acc. induction fuel as [| fuel IH]; intros s acc Hb Hf; [lia |].
  destruct s as [| b s]; [simpl; eauto |].
  unfold foldParts; fold (foldParts delim body).
  pose proof (cut_spec delim (b :: s)) as Hcut.
  destruct (cut delim (b :: s)) as [part [rest |]]; destruct Hcut as [Hs Hp];
    pose proof (f_equal size Hs) as Hsz.
  - rewrite size_app, !size_cons in Hsz. rewrite size_cons in Hb.
    pose proof (size_nonneg rest). pose proof (size_nonneg part).
    destruct (Hb part acc) as [acc' ->]; [lia |]. cbn [obind].
    apply IH; [intros; apply Hb; lia |].
    apply (f_equal length) in Hs. rewrite length_app in Hs. simpl in Hs, Hf. lia.
  - destruct (Hb part acc) as [acc' ->]; [lia |]. cbn [obind]. eauto.
Qed.

(** The parts of pieces joined by the delimiter are the pieces. *)
Fixpoint join (delim : byte) (pieces : list bytes) : bytes :=
  match pieces with
  | [] => []
  | [p] => p
  | p :: pieces' => p ++ delim :: join delim pieces'
  end.

Lemma cut_app (delim : byte) (p rest : bytes) :
  Forall (fun b => Byte.eqb delim b = false) p ->
  cut delim (p ++ delim :: rest) = (p, Some rest).
Proof.
  induction 1 as [| b p Hb Hp IH]; simpl; [by destruct delim |]. by rewrite Hb, IH.
Qed.

Lemma cut_none (delim : byte) (p : bytes) :
  Forall (fun b => Byte.eqb delim b = false) p -> cut delim p = (p, None).
Proof. induction 1 as [| b p Hb Hp IH]; simpl; [done |]. by rewrite Hb, IH. Qed.

Fixpoint foldOutcome {A B : Type} (f : B -> A -> outcome A) (l : list B) (acc : A) : outcome A :=
  match l with
  | [] => Ok acc
  | b :: l' => let! acc := f b acc in foldOutcome f l' acc
  end.

Lemma foldParts_join {A : Type} (delim : byte) (body : bytes -> A -> outcome A)
    (fuel : nat) (pieces : list bytes) (acc : A) :
  Forall (fun p => p <> [] /\ Forall (fun b => Byte.eqb delim b = false) p) pieces ->
  (length (join delim pieces) < fuel)%nat ->
  foldParts delim body fuel (join delim pieces) acc = foldOutcome body pieces acc.
Proof.
  revert pieces acc. induction fuel as [| fuel IH]; intros pieces acc Hp Hf; [lia |].
  destruct pieces as [| p pieces]; [done |].
  apply Forall_cons in Hp as [[Hne Hp] Hps].
  assert (Hstep : forall s, s <> [] -> foldParts delim body (S fuel) s acc =
    let '(part, rest) := cut delim s in
    let! acc := body part acc in
    match rest with Some s' => foldParts delim body fuel s' acc | None => Ok acc end).
  { intros [| ? ?]; done. }
  destruct pieces as [| q pieces].
  - cbn [join]. rewrite Hstep, cut_none by done. cbn [foldOutcome]. by destruct (body p acc).
  - change (join delim (p :: q :: pieces)) with (p ++ delim :: join delim (q :: pieces)) in *.
    rewrite Hstep by (by destruct p). rewrite cut_app by done. cbn [foldOutcome].
    destruct (body p acc) as [acc' | | |]; cbn [obind]; try done.
    apply IH; [done |]. rewrite length_app in Hf. cbn [length] in Hf. lia.
Qed.

(** ** Searching from the end, and trimming *)

Lemma rindex_of_app (P : byte -> bool) (p : bytes) (c : byte) (q : bytes) :
  P c = true -> Forall (fun b => P b = false) q ->
  rindex_of P (p ++ c :: q) = Some (length p).
Proof.
  intros Hc Hq.
  assert (Hn : rindex_of P q = None)
    by (induction Hq as [| x q Hx Hq IH]; simpl; [done |]; by rewrite IH, Hx).
  induction p as [| x p IH]; simpl; [by rewrite Hn, Hc |]. by rewrite IH.
Qed.

Lemma sv_rfind_if_app (P : byte -> bool) (p : bytes) (c : byte) (q r : bytes) (pos : Z) :
  P c = true -> Forall (fun b => P b = false) q ->
  pos + 1 = size (p ++ c :: q) \/ (r = [] /\ size (p ++ c :: q) <= pos + 1) ->
  sv_rfind_if P (p ++ c :: q ++ r) pos = size p.
Proof.
  intros Hc Hq Hpos. unfold sv_rfind_if.
  assert (Happ : p ++ c :: q ++ r = (p ++ c :: q) ++ r) by (by rewrite <- app_assoc).
  rewrite Happ. pose proof (size_nonneg r).
  replace (Z.min (pos + 1) (size ((p ++ c :: q) ++ r))) with (size (p ++ c :: q)).
  - unfold size at 1. rewrite Nat2Z.id, take_app_length, rindex_of_app by done. done.
  - rewrite (size_app (p ++ c :: q) r). destruct Hpos as [-> | [-> Hpos]]; [lia |].
    rewrite size_nil. lia.
Qed.

(** No blank at either end. *)
Definition trimmed (s : bytes) : bool :=
  match s with
  | [] => true
  | b :: _ => negb (Byte.eqb x20 b) && negb (Byte.eqb x20 (List.last s x00))
  end.

Definition blanks (s : bytes) : Prop := Forall (fun b => negb (Byte.eqb x20 b) = false) s.

(** A trimmed text that is not empty, by its first and its last character. *)
Lemma trimmed_cons (b : byte) (s : bytes) :
  trimmed (b :: s) = true ->
  negb (Byte.eqb x20 b) = true
  /\ exists p c, b :: s = p ++ [c] /\ negb (Byte.eqb x20 c) = true.
Proof.
  unfold trimmed. intros H. apply andb_prop in H as [Hb Hl]. split; [done |].
  exists (removelast (b :: s)), (List.last (b :: s) x00). split; [| done].
  by apply app_removelast_last.
Qed.

(** The characters between the first and the last that are not blank. *)
Lemma between_blanks (p a v z : bytes) :
  blanks a -> blanks z -> v <> [] -> trimmed v = true -> size (p ++ a ++ v ++ z) < npos ->
  sv_find_first_not_of (p ++ a ++ v ++ z) x20 (size p) = size p + size a
  /\ sv_find_last_not_of (p ++ a ++ v ++ z) x20 npos = size p + size a + size v - 1
  /\ sv_substr (p ++ a ++ v ++ z) (size p + size a)
       (u64 (u64 (size p + size a + size v - 1 - (size p + size a)) + 1)) = Ok v.
Proof.
  intros Ha Hz Hv Ht Hsz. destruct v as [| b v]; [done |].
  destruct (trimmed_cons b v Ht) as (Hb & q & c & Hq & Hc).
  pose proof (size_nonneg p). pose proof (size_nonneg a). pose proof (size_nonneg z).
  pose proof (size_nonneg v). rewrite !size_app, size_cons in Hsz. rewrite size_cons.
  split; [| split].
  - unfold sv_find_first_not_of. cbn [app]. by apply sv_find_if_app.
  - unfold sv_find_last_not_of. rewrite Hq.
    replace (p ++ a ++ (q ++ [c]) ++ z) with ((p ++ a ++ q) ++ c :: z ++ [])
      by (rewrite app_nil_r, <- !app_assoc; done).
    pose proof (f_equal size Hq) as Hsq. rewrite size_cons, size_app in Hsq.
    change (size [c]) with 1 in Hsq.
    rewrite sv_rfind_if_app; [rewrite !size_app; lia | done | done |].
    right. split; [done |]. rewrite !size_app, size_cons. unfold npos in *. lia.
  - unfold npos in Hsz. unfold u64.
    replace (size p + size a + (1 + size v) - 1 - (size p + size a)) with (size v) by lia.
    rewrite (Z.mod_small (size v)), Z.mod_small by lia.
    rewrite <- size_app.
    replace (p ++ a ++ (b :: v) ++ z) with ((p ++ a) ++ (b :: v) ++ z)
      by (by rewrite <- !app_assoc).
    apply sv_substr_mid. rewrite size_cons. lia.
Qed.
