(* ===== verification/OrdMap.v ===== *)
(** [std::map<std::string, V>]: a map kept in the order of its keys, which is
    the order its iteration and the code that serializes it use.  Keys compare
    as [std::string] does, byte by byte as unsigned characters. *)

From Stdlib Require Import ZArith Lia String Strings.Byte Sorting.Sorted.
From stdpp Require Import base numbers option list sorting.
From S2P Require Import Prelude.
Open Scope Z_scope.

(** ** The order of keys *)

Fixpoint bcompare (a b : bytes) : comparison :=
  match a, b with
  | [], [] => Eq
  | [], _ :: _ => Lt
  | _ :: _, [] => Gt
  | x :: a', y :: b' =>
      match b2z x ?= b2z y with
      | Eq => bcompare a' b'
      | c => c
      end
  end.

Lemma bcompare_refl (a : bytes) : bcompare a a = Eq.
Proof. induction a as [| x a IH]; simpl; [done |]. by rewrite Z.compare_refl. Qed.

Lemma bcompare_eq (a b : bytes) : bcompare a b = Eq -> a = b.
Proof.
  revert b. induction a as [| x a IH]; intros [| y b]; simpl; try done.
  destruct (Z.compare_spec (b2z x) (b2z y)) as [H | |]; try done.
  intros Hab. apply b2z_inj in H as ->. by rewrite (IH b Hab).
Qed.

Lemma bcompare_antisym (a b : bytes) : bcompare b a = CompOpp (bcompare a b).
Proof.
  revert b. induction a as [| x a IH]; intros [| y b]; simpl; try done.
  rewrite (Z.compare_antisym (b2z x) (b2z y)). by destruct (b2z x ?= b2z y); simpl.
Qed.

Lemma bcompare_trans (a b c : bytes) :
  bcompare a b = Lt -> bcompare b c = Lt -> bcompare a c = Lt.
Proof.
  revert b c. induction a as [| x a IH]; intros [| y b] [| z c]; simpl; try done.
  destruct (Z.compare_spec (b2z x) (b2z y)), (Z.compare_spec (b2z y) (b2z z)); try done;
    intros H1 H2; destruct (Z.compare_spec (b2z x) (b2z z)); try lia; try done.
  by apply (IH b c).
Qed.

Definition blt (a b : bytes) : Prop := bcompare a b = Lt.

Lemma blt_irrefl (a : bytes) : ~ blt a a.
Proof. unfold blt. by rewrite bcompare_refl. Qed.

(** ** The map *)

Section ordmap.
Context {V : Type}.

Definition ordmap : Type := list (bytes * V).

Fixpoint om_find (k : bytes) (m : ordmap) : option V :=
  match m with
  | [] => None
  | (k', v) :: m' => if decide (k = k') then Some v else om_find k m'
  end.

Definition om_contains (k : bytes) (m : ordmap) : bool :=
  match om_find k m with Some _ => true | None => false end.

(** [m.insert_or_assign(k, v)], and [m\[k\] = v]. *)
Fixpoint om_insert (k : bytes) (v : V) (m : ordmap) : ordmap :=
  match m with
  | [] => [(k, v)]
  | (k', v') :: m' =>
      match bcompare k k' with
      | Lt => (k, v) :: m
      | Eq => (k, v) :: m'
      | Gt => (k', v') :: om_insert k v m'
      end
  end.

(** [m.emplace(k, v)]: nothing happens when the key is there. *)
Definition om_emplace (k : bytes) (v : V) (m : ordmap) : ordmap :=
  if om_contains k m then m else om_insert k v m.

(** ** The invariant: keys in increasing order *)

Definition om_wf (m : ordmap) : Prop := StronglySorted (fun p q => blt (fst p) (fst q)) m.

Lemma om_wf_nil : om_wf [].
Proof. constructor. Qed.

Lemma om_insert_keys (k : bytes) (v : V) (m : ordmap) (p : bytes * V) :
  In p (om_insert k v m) -> p = (k, v) \/ In p m.
Proof.
  induction m as [| [k' v'] m IH]; simpl; [intuition congruence |].
  destruct (bcompare k k'); simpl; intuition congruence.
Qed.

Lemma om_insert_wf (k : bytes) (v : V) (m : ordmap) : om_wf m -> om_wf (om_insert k v m).
Proof.
  unfold om_wf. induction m as [| [k' v'] m IH]; intros Hm; simpl.
  - repeat constructor.
  - apply StronglySorted_inv in Hm as [Hm Hlt]. rewrite List.Forall_forall in Hlt.
    destruct (bcompare k k') eqn:Hc.
    + apply bcompare_eq in Hc as ->. constructor; [done |]. by apply List.Forall_forall.
    + constructor; [constructor; [done | by apply List.Forall_forall] |].
      constructor; [done |]. apply List.Forall_forall. intros p Hp.
      apply (bcompare_trans k k' (fst p) Hc). by apply (Hlt p).
    + constructor; [by apply IH |]. apply List.Forall_forall. intros p Hp.
      apply om_insert_keys in Hp as [-> | Hp]; [| by apply Hlt].
      unfold blt; simpl. by rewrite bcompare_antisym, Hc.
Qed.

Lemma om_find_insert (k k' : bytes) (v : V) (m : ordmap) :
  om_wf m -> om_find k' (om_insert k v m) = if decide (k' = k) then Some v else om_find k' m.
Proof.
  unfold om_wf. induction m as [| [k0 v0] m IH]; intros Hm; [done |].
  apply StronglySorted_inv in Hm as [Hm Hlt]. cbn [om_insert].
  destruct (bcompare k k0) eqn:Hc; cbn [om_find].
  - apply bcompare_eq in Hc as ->. by destruct (decide (k' = k0)).
  - done.
  - rewrite IH by done.
    destruct (decide (k' = k0)) as [-> |], (decide (k0 = k)) as [-> |]; try done.
    by rewrite bcompare_refl in Hc.
Qed.

Lemma om_wf_app_l (m n : ordmap) : om_wf (m ++ n) -> om_wf m.
Proof. apply StronglySorted_app_1_l. Qed.

(** Inserting the greatest key appends. *)
Lemma om_insert_snoc (k : bytes) (v : V) (m : ordmap) :
  om_wf (m ++ [(k, v)]) -> om_insert k v m = m ++ [(k, v)].
Proof.
  unfold om_wf. induction m as [| [k' v'] m IH]; intros Hm; [done |]. cbn [app om_insert] in *.
  apply StronglySorted_inv in Hm as [Hm Hlt]. rewrite List.Forall_forall in Hlt.
  assert (Hk : blt k' k) by (apply (Hlt (k, v)), in_or_app; simpl; auto).
  unfold blt in Hk. rewrite bcompare_antisym, Hk. cbn. by rewrite IH.
Qed.

Lemma om_emplace_wf (k : bytes) (v : V) (m : ordmap) : om_wf m -> om_wf (om_emplace k v m).
Proof. intros Hm. unfold om_emplace. destruct (om_contains k m); auto using om_insert_wf. Qed.

Lemma om_find_emplace (k k' : bytes) (v : V) (m : ordmap) :
  om_wf m ->
  om_find k' (om_emplace k v m)
  = if decide (k' = k)
    then Some (match om_find k m with Some w => w | None => v end)
    else om_find k' m.
Proof.
  intros Hm. unfold om_emplace, om_contains. destruct (om_find k m) as [w |] eqn:Hf.
  - destruct (decide (k' = k)) as [-> |]; done.
  - by apply om_find_insert.
Qed.

Lemma om_find_In (k : bytes) (v : V) (m : ordmap) : om_find k m = Some v -> In (k, v) m.
Proof.
  induction m as [| [k' v'] m IH]; simpl; [done |].
  destruct (decide (k = k')) as [-> |]; intros; simplify_eq; auto.
Qed.

Lemma om_In_find (k : bytes) (v : V) (m : ordmap) :
  om_wf m -> In (k, v) m -> om_find k m = Some v.
Proof.
  unfold om_wf. induction m as [| [k' v'] m IH]; intros Hm Hin; [done |].
  apply StronglySorted_inv in Hm as [Hm Hlt]. cbn [om_find].
  destruct Hin as [Heq | Hin]; [simplify_eq; by destruct (decide (k = k)) |].
  destruct (decide (k = k')) as [-> |]; [| by apply IH].
  rewrite List.Forall_forall in Hlt. by destruct (blt_irrefl k' (Hlt _ Hin)).
Qed.

(** Two ordered maps with the same lookups are equal. *)
Lemma om_ext (m1 m2 : ordmap) :
  om_wf m1 -> om_wf m2 -> (forall k, om_find k m1 = om_find k m2) -> m1 = m2.
Proof.
  unfold om_wf. revert m2. induction m1 as [| [k1 v1] m1 IH]; intros m2 H1 H2 Hext.
  - destruct m2 as [| [k2 v2] m2]; [done |]. specialize (Hext k2). simpl in Hext.
    by destruct (decide (k2 = k2)).
  - assert (Hne : forall (k k' : bytes) (v : V) (m : ordmap),
      StronglySorted (fun p q => blt (fst p) (fst q)) ((k', v) :: m) ->
      blt k k' -> om_find k ((k', v) :: m) = None).
    { intros k k' v m Hs Hlt. destruct (om_find k ((k', v) :: m)) as [w |] eqn:Hf; [| done].
      apply om_find_In in Hf. apply StronglySorted_inv in Hs as [_ Hs].
      rewrite List.Forall_forall in Hs. destruct Hf as [Heq | Hin].
      - simplify_eq. by destruct (blt_irrefl k).
      - pose proof (bcompare_trans _ _ _ Hlt (Hs _ Hin)) as Hc. by destruct (blt_irrefl k). }
    destruct m2 as [| [k2 v2] m2].
    { specialize (Hext k1). simpl in Hext. by destruct (decide (k1 = k1)). }
    destruct (bcompare k1 k2) eqn:Hc.
    + apply bcompare_eq in Hc as ->. pose proof (Hext k2) as Hv. simpl in Hv.
      destruct (decide (k2 = k2)); [| done]. simplify_eq. f_equal.
      pose proof H1 as H1'. pose proof H2 as H2'.
      apply StronglySorted_inv in H1 as [H1 L1]. apply StronglySorted_inv in H2 as [H2 L2].
      apply IH; [done .. |]. intros k. specialize (Hext k). simpl in Hext.
      destruct (decide (k = k2)) as [-> |]; [| done].
      assert (Hnone : forall m : ordmap, List.Forall (fun q => blt k2 (fst q)) m ->
        om_find k2 m = None).
      { intros m Hm. destruct (om_find k2 m) as [w |] eqn:Hf; [| done].
        apply om_find_In in Hf. rewrite List.Forall_forall in Hm.
        by destruct (blt_irrefl k2 (Hm _ Hf)). }
      by rewrite (Hnone m1), (Hnone m2).
    + specialize (Hext k1). rewrite (Hne k1 k2 v2 m2 H2 Hc) in Hext. simpl in Hext.
      by destruct (decide (k1 = k1)).
    + specialize (Hext k2). rewrite (Hne k2 k1 v1 m1 H1) in Hext
        by (unfold blt; by rewrite bcompare_antisym, Hc).
      simpl in Hext. by destruct (decide (k2 = k2)).
Qed.
End ordmap.
Arguments ordmap : clear implicits.

#[export] Hint Resolve om_wf_nil om_insert_wf om_emplace_wf : cxx.
