(* ===== verification/HttpTypes.v ===== *)
(** The vocabulary of HTTP messages: header names and their codes
    (src/extensions/http/src/HttpHeader.cc), the method registry
    (HttpMethod.cc), versions and status lines (HttpUtils.cc), and the message
    records (HttpMessage.h, Cookie.h). *)

From Stdlib Require Import ZArith Lia String Strings.Byte.
From stdpp Require Import base numbers option list gmap.
From S2P Require Import Prelude CxxStd OrdMap.
Open Scope Z_scope.

(** ** Header names *)

Inductive NameCode : Type :=
  | NC_CacheControl | NC_Connection | NC_Date | NC_TransferEncoding | NC_Upgrade
  | NC_Accept | NC_AcceptEncoding | NC_AcceptLanguage | NC_Authorization | NC_Host
  | NC_IfModifiedSince | NC_IfNoneMatch | NC_Referer | NC_UserAgent | NC_Expect
  | NC_AcceptRanges | NC_Age | NC_ETag | NC_Location | NC_RetryAfter | NC_Server | NC_Vary
  | NC_WwwAuthenticate | NC_Allow | NC_ContentEncoding | NC_ContentLanguage
  | NC_ContentLength | NC_ContentRange | NC_ContentType | NC_Expires | NC_LastModified
  | NC_Cookie | NC_SetCookie | NC_AccessControlAllowOrigin | NC_AccessControlAllowMethods
  | NC_AccessControlAllowHeaders | NC_AccessControlAllowCredentials | NC_Origin
  | NC_SecWebSocketKey | NC_SecWebSocketAccept | NC_SecWebSocketVersion
  | NC_SecWebSocketProtocol | NC_SecWebSocketExtensions | NC_XForwardedFor
  | NC_XForwardedProto | NC_XRealIp | NC_Unknown.

#[export] Instance NameCode_eq_decision : EqDecision NameCode.
Proof. solve_decision. Defined.

(** The rows of [codeToNames], in the order of the enumeration. *)
Definition namePairs : list (NameCode * (bytes * bytes)) :=
  [
   (NC_CacheControl, (str "cache-control", str "Cache-Control"));
   (NC_Connection, (str "connection", str "Connection"));
   (NC_Date, (str "date", str "Date"));
   (NC_TransferEncoding, (str "transfer-encoding", str "Transfer-Encoding"));
   (NC_Upgrade, (str "upgrade", str "Upgrade"));
   (NC_Accept, (str "accept", str "Accept"));
   (NC_AcceptEncoding, (str "accept-encoding", str "Accept-Encoding"));
   (NC_AcceptLanguage, (str "accept-language", str "Accept-Language"));
   (NC_Authorization, (str "authorization", str "Authorization"));
   (NC_Host, (str "host", str "Host"));
   (NC_IfModifiedSince, (str "if-modified-since", str "If-Modified-Since"));
   (NC_IfNoneMatch, (str "if-none-match", str "If-None-Match"));
   (NC_Referer, (str "referer", str "Referer"));
   (NC_UserAgent, (str "user-agent", str "User-Agent"));
   (NC_Expect, (str "expect", str "Expect"));
   (NC_AcceptRanges, (str "accept-ranges", str "Accept-Ranges"));
   (NC_Age, (str "age", str "Age"));
   (NC_ETag, (str "etag", str "ETag"));
   (NC_Location, (str "location", str "Location"));
   (NC_RetryAfter, (str "retry-after", str "Retry-After"));
   (NC_Server, (str "server", str "Server"));
   (NC_Vary, (str "vary", str "Vary"));
   (NC_WwwAuthenticate, (str "www-authenticate", str "WWW-Authenticate"));
   (NC_Allow, (str "allow", str "Allow"));
   (NC_ContentEncoding, (str "content-encoding", str "Content-Encoding"));
   (NC_ContentLanguage, (str "content-language", str "Content-Language"));
   (NC_ContentLength, (str "content-length", str "Content-Length"));
   (NC_ContentRange, (str "content-range", str "Content-Range"));
   (NC_ContentType, (str "content-type", str "Content-Type"));
   (NC_Expires, (str "expires", str "Expires"));
   (NC_LastModified, (str "last-modified", str "Last-Modified"));
   (NC_Cookie, (str "cookie", str "Cookie"));
   (NC_SetCookie, (str "set-cookie", str "Set-Cookie"));
   (NC_AccessControlAllowOrigin, (str "access-control-allow-origin", str "Access-Control-Allow-Origin"));
   (NC_AccessControlAllowMethods, (str "access-control-allow-methods", str "Access-Control-Allow-Methods"));
   (NC_AccessControlAllowHeaders, (str "access-control-allow-headers", str "Access-Control-Allow-Headers"));
   (NC_AccessControlAllowCredentials, (str "access-control-allow-credentials", str "Access-Control-Allow-Credentials"));
   (NC_Origin, (str "origin", str "Origin"));
   (NC_SecWebSocketKey, (str "sec-websocket-key", str "Sec-WebSocket-Key"));
   (NC_SecWebSocketAccept, (str "sec-websocket-accept", str "Sec-WebSocket-Accept"));
   (NC_SecWebSocketVersion, (str "sec-websocket-version", str "Sec-WebSocket-Version"));
   (NC_SecWebSocketProtocol, (str "sec-websocket-protocol", str "Sec-WebSocket-Protocol"));
   (NC_SecWebSocketExtensions, (str "sec-websocket-extensions", str "Sec-WebSocket-Extensions"));
   (NC_XForwardedFor, (str "x-forwarded-for", str "X-Forwarded-For"));
   (NC_XForwardedProto, (str "x-forwarded-proto", str "X-Forwarded-Proto"));
   (NC_XRealIp, (str "x-real-ip", str "X-Real-IP"));
   (NC_Unknown, ([], []))].

Fixpoint lookupCode (code : NameCode) (rows : list (NameCode * (bytes * bytes))) : bytes * bytes :=
  match rows with
  | [] => ([], [])
  | (c, p) :: rows' => if decide (c = code) then p else lookupCode code rows'
  end.

Definition codeToNames (code : NameCode) : bytes * bytes := lookupCode code namePairs.
Definition codeToName (code : NameCode) : bytes := fst (codeToNames code).
Definition codeToCanonicalName (code : NameCode) : bytes := snd (codeToNames code).

(** The table [nameMap] of [nameToCode]: every code but [Unknown]. *)
Fixpoint lookupName (lowerName : bytes) (rows : list (NameCode * (bytes * bytes))) : NameCode :=
  match rows with
  | [] => NC_Unknown
  | (c, (lower, _)) :: rows' =>
      if decide (lower = lowerName) then c else lookupName lowerName rows'
  end.

Definition nameToCode (lowerName : bytes) : NameCode :=
  lookupName lowerName (filter (fun row => fst row <> NC_Unknown) namePairs).

Definition toLower (s : bytes) : bytes := map tolower s.

Fixpoint toCanonicalLoop (capitalizeNext : bool) (s : bytes) : bytes :=
  match s with
  | [] => []
  | c :: s' =>
      if capitalizeNext && isalpha c then toupper c :: toCanonicalLoop false s'
      else if Byte.eqb c x2d then c :: toCanonicalLoop true s'
      else tolower c :: toCanonicalLoop capitalizeNext s'
  end.

Definition toCanonical (s : bytes) : bytes := toCanonicalLoop true s.

Record HttpHeader : Type := mkHeader {
  name_ : bytes;
  value_ : bytes;
  nameCode_ : NameCode
}.

(** The two constructors. *)
Definition newHeader (name value : bytes) : HttpHeader :=
  mkHeader (toLower name) value (nameToCode (toLower name)).

Definition newHeaderCode (code : NameCode) (value : bytes) : HttpHeader :=
  mkHeader (codeToName code) value code.

Definition canonicalName (h : HttpHeader) : bytes :=
  if decide (nameCode_ h = NC_Unknown) then toCanonical (name_ h)
  else codeToCanonicalName (nameCode_ h).

Fixpoint nameEqualsLoop (name lower : bytes) : bool :=
  match name, lower with
  | c :: name', l :: lower' => Byte.eqb (tolower c) l && nameEqualsLoop name' lower'
  | _, _ => true
  end.

Definition nameEquals (name : bytes) (h : HttpHeader) : bool :=
  (length name =? length (name_ h))%nat && nameEqualsLoop name (name_ h).

Abbreviation HttpHeaderMap := (ordmap HttpHeader).

Definition getHeader (name : bytes) (headers : HttpHeaderMap) : bytes :=
  match om_find (toLower name) headers with Some h => value_ h | None => [] end.

Definition getHeaderCode (code : NameCode) (headers : HttpHeaderMap) : bytes :=
  match om_find (codeToName code) headers with Some h => value_ h | None => [] end.

(** ** Methods *)

(** [HttpMethod::id]. *)
Abbreviation HttpMethod := Z.

Definition Get : HttpMethod := 0.
Definition Head : HttpMethod := 1.
Definition Post : HttpMethod := 2.
Definition Put : HttpMethod := 3.
Definition Delete : HttpMethod := 4.
Definition Options : HttpMethod := 5.
Definition Patch : HttpMethod := 6.
Definition Trace : HttpMethod := 7.
Definition Connect : HttpMethod := 8.
Definition _Invalid : HttpMethod := 9.

Definition standardMethodName (id : Z) : bytes :=
  if id =? Get then str "GET"
  else if id =? Head then str "HEAD"
  else if id =? Post then str "POST"
  else if id =? Put then str "PUT"
  else if id =? Delete then str "DELETE"
  else if id =? Options then str "OPTIONS"
  else if id =? Patch then str "PATCH"
  else if id =? Trace then str "TRACE"
  else if id =? Connect then str "CONNECT"
  else [].

(** The registry: a vector of names and the map back to their ids. *)
Record MethodRegistry : Type := mkRegistry {
  names : list bytes;
  ids : gmap bytes Z
}.

Definition addMethod (name : bytes) (reg : MethodRegistry) : HttpMethod * MethodRegistry :=
  match ids reg !! name with
  | Some id => (id, reg)
  | None =>
      let id := u16 (size (names reg)) in
      (id, mkRegistry (names reg ++ [name]) (<[name := id]> (ids reg)))
  end.

Fixpoint addStandard (n : nat) (i : Z) (reg : MethodRegistry) : MethodRegistry :=
  match n with
  | O => reg
  | S n' => addStandard n' (i + 1) (snd (addMethod (standardMethodName i) reg))
  end.

(** The constructor of the registry: the standard methods and the slot of
    [_Invalid]. *)
Definition initRegistry : MethodRegistry :=
  snd (addMethod [] (addStandard (Z.to_nat _Invalid) 0 (mkRegistry [] ∅))).

Definition methodToString (reg : MethodRegistry) (id : HttpMethod) : bytes :=
  if (0 <=? id) && (id <? size (names reg)) then nth (Z.to_nat id) (names reg) [] else [].

Definition methodFromString (reg : MethodRegistry) (s : bytes) : HttpMethod :=
  match ids reg !! s with Some id => id | None => _Invalid end.

Definition registerMethod (name : bytes) (reg : MethodRegistry) : HttpMethod * MethodRegistry :=
  addMethod name reg.

(** ** Versions and status lines *)

Inductive Version : Type := kUnknown | kHttp10 | kHttp11.

#[export] Instance Version_eq_decision : EqDecision Version.
Proof. solve_decision. Defined.

Definition versionToString (v : Version) : bytes :=
  match v with
  | kHttp10 => str "HTTP/1.0"
  | kHttp11 => str "HTTP/1.1"
  | kUnknown => str "UNKNOWN"
  end.

Definition statusReasons : list (Z * bytes) :=
  [
   (100, str "Continue");
   (101, str "Switching Protocols");
   (102, str "Processing");
   (103, str "Early Hints");
   (200, str "OK");
   (201, str "Created");
   (202, str "Accepted");
   (203, str "Non-Authoritative Information");
   (204, str "No Content");
   (205, str "Reset Content");
   (206, str "Partial Content");
   (207, str "Multi-Status");
   (208, str "Already Reported");
   (226, str "IM Used");
   (300, str "Multiple Choices");
   (301, str "Moved Permanently");
   (302, str "Found");
   (303, str "See Other");
   (304, str "Not Modified");
   (305, str "Use Proxy");
   (306, str "(Unused)");
   (307, str "Temporary Redirect");
   (308, str "Permanent Redirect");
   (400, str "Bad Request");
   (401, str "Unauthorized");
   (402, str "Payment Required");
   (403, str "Forbidden");
   (404, str "Not Found");
   (405, str "Method Not Allowed");
   (406, str "Not Acceptable");
   (407, str "Proxy Authentication Required");
   (408, str "Request Time-out");
   (409, str "Conflict");
   (410, str "Gone");
   (411, str "Length Required");
   (412, str "Precondition Failed");
   (413, str "Request Entity Too Large");
   (414, str "Request-URI Too Large");
   (415, str "Unsupported Media Type");
   (416, str "Requested Range Not Satisfiable");
   (417, str "Expectation Failed");
   (418, str "I'm a Teapot");
   (421, str "Misdirected Request");
   (422, str "Unprocessable Entity");
   (423, str "Locked");
   (424, str "Failed Dependency");
   (425, str "Too Early");
   (426, str "Upgrade Required");
   (428, str "Precondition Required");
   (429, str "Too Many Requests");
   (431, str "Request Header Fields Too Large");
   (451, str "Unavailable For Legal Reasons");
   (500, str "Internal Server Error");
   (501, str "Not Implemented");
   (502, str "Bad Gateway");
   (503, str "Service Unavailable");
   (504, str "Gateway Time-out");
   (505, str "HTTP Version Not Supported");
   (506, str "Variant Also Negotiates");
   (507, str "Insufficient Storage");
   (508, str "Loop Detected");
   (510, str "Not Extended");
   (511, str "Network Authentication Required")].

Fixpoint lookupStatus (code : Z) (rows : list (Z * bytes)) : option bytes :=
  match rows with
  | [] => None
  | (c, r) :: rows' => if c =? code then Some r else lookupStatus code rows'
  end.

Definition statusCodeToString (code : Z) : bytes :=
  match lookupStatus code statusReasons with
  | Some r => r
  | None =>
      if (100 <=? code) && (code <? 200) then str "Informational"
      else if (200 <=? code) && (code <? 300) then str "Successful"
      else if (300 <=? code) && (code <? 400) then str "Redirection"
      else if (400 <=? code) && (code <? 500) then str "Bad Request"
      else if (500 <=? code) && (code <? 600) then str "Server Error"
      else str "Undefined Error"
  end.

(** ** Messages *)

Inductive TransferMode : Type := ContentLength | Chunked | UntilClose.

#[export] Instance TransferMode_eq_decision : EqDecision TransferMode.
Proof. solve_decision. Defined.

Record HttpRequest : Type := mkRequest {
  version : Version;
  method : HttpMethod;
  path : bytes;
  rawPath : bytes;
  query : bytes;
  headers : HttpHeaderMap;
  cookies : ordmap bytes;
  queries : ordmap bytes;
  transferMode : TransferMode;
  contentLength : Z;
  keepAlive : bool
}.

Definition newRequest : HttpRequest :=
  mkRequest kHttp11 _Invalid [] [] [] [] [] [] ContentLength 0 true.

Inductive SameSite : Type := Unset | Strict | Lax | SameSiteNone.

#[export] Instance SameSite_eq_decision : EqDecision SameSite.
Proof. solve_decision. Defined.

Record Cookie : Type := mkCookie {
  c_name : bytes;
  c_value : bytes;
  c_domain : bytes;
  c_path : bytes;
  c_expires : bytes;
  c_maxAge : Z;
  c_sameSite : SameSite;
  c_secure : bool;
  c_httpOnly : bool
}.

Definition newCookie : Cookie := mkCookie [] [] [] [] [] (-1) Unset false false.

Record HttpResponse : Type := mkResponse {
  r_version : Version;
  r_statusCode : Z;
  r_statusReason : bytes;
  r_headers : HttpHeaderMap;
  r_cookies : list Cookie;
  r_transferMode : TransferMode;
  r_contentLength : Z;
  r_shouldClose : bool
}.

Definition newResponse : HttpResponse :=
  mkResponse kHttp11 200 [] [] [] ContentLength 0 false.

(** ** Lemmas: header names *)

Lemma tolower_idem (c : byte) : tolower (tolower c) = tolower c.
Proof. revert c. apply (byte_forall_dec (fun c => tolower (tolower c) = tolower c)). by vm_compute. Qed.

Lemma tolower_toupper (c : byte) : tolower (toupper c) = tolower c.
Proof. revert c. apply (byte_forall_dec (fun c => tolower (toupper c) = tolower c)). by vm_compute. Qed.

Lemma toLower_idem (s : bytes) : toLower (toLower s) = toLower s.
Proof. induction s as [| c s IH]; [done |]. simpl. by rewrite tolower_idem, IH. Qed.

Lemma toLower_toCanonicalLoop (up : bool) (s : bytes) :
  toLower (toCanonicalLoop up s) = toLower s.
Proof.
  revert up. induction s as [| c s IH]; intros up; [done |]. simpl.
  destruct (up && isalpha c); simpl; [by rewrite tolower_toupper, IH |].
  destruct (Byte.eqb c x2d); simpl; [by rewrite IH | by rewrite tolower_idem, IH].
Qed.

Lemma toLower_toCanonical (s : bytes) : toLower (toCanonical s) = toLower s.
Proof. apply toLower_toCanonicalLoop. Qed.

(** The table as a whole: every code is found from its lower-case name, and
    lowering its canonical name gives that name. *)
Lemma name_table_ok :
  Forall (fun row => fst row = NC_Unknown
    \/ (nameToCode (codeToName (fst row)) = fst row
        /\ toLower (codeToCanonicalName (fst row)) = codeToName (fst row)
        /\ codeToName (fst row) <> [])) namePairs.
Proof.
  unfold namePairs.
  repeat (constructor; [right; split; [by vm_compute |]; split; [by vm_compute | by vm_compute] |]).
  constructor; [by left |]. constructor.
Qed.

Lemma name_codes_complete (code : NameCode) : exists p, In (code, p) namePairs.
Proof.
  assert (H : existsb (fun row => bool_decide (fst row = code)) namePairs = true)
    by (by destruct code; vm_compute).
  apply existsb_exists in H as ([c p] & Hin & Hc). apply bool_decide_eq_true in Hc.
  exists p. simpl in Hc. by subst.
Qed.

Lemma nameToCode_codeToName (code : NameCode) :
  code <> NC_Unknown ->
  nameToCode (codeToName code) = code
  /\ toLower (codeToCanonicalName code) = codeToName code /\ codeToName code <> [].
Proof.
  intros Hne. destruct (name_codes_complete code) as [p Hin].
  pose proof name_table_ok as Hall. rewrite List.Forall_forall in Hall.
  by destruct (Hall _ Hin).
Qed.

Lemma lookupName_codeToName (lower : bytes) (rows : list (NameCode * (bytes * bytes))) :
  lookupName lower rows <> NC_Unknown ->
  exists p, In (lookupName lower rows, p) rows /\ fst p = lower.
Proof.
  induction rows as [| [c [l k]] rows IH]; simpl; [done |].
  destruct (decide (l = lower)) as [<- |]; intros H.
  - exists (l, k). by split; [left |].
  - destruct (IH H) as (p & Hin & Hp). exists p. by split; [right |].
Qed.

(** A code the table gives for a name is the code of that name. *)
Lemma codeToName_nameToCode (lower : bytes) :
  nameToCode lower <> NC_Unknown -> codeToName (nameToCode lower) = lower.
Proof.
  unfold nameToCode. intros H. apply lookupName_codeToName in H as (p & Hin & <-).
  apply list_elem_of_In, list_elem_of_filter in Hin as [_ Hin].
  apply list_elem_of_In in Hin. revert Hin.
  generalize (lookupName (fst p) (filter (fun row => fst row <> NC_Unknown) namePairs)).
  intros c Hin.
  assert (Hall : Forall (fun row => codeToName (fst row) = fst (snd row)) namePairs).
  { unfold namePairs. repeat (constructor; [by vm_compute |]). constructor. }
  rewrite List.Forall_forall in Hall. by apply (Hall _ Hin).
Qed.

Lemma newHeader_toLower (name value : bytes) :
  newHeader (toLower name) value = newHeader name value.
Proof. unfold newHeader. by rewrite toLower_idem. Qed.

(** The canonical spelling of a header's name names the same header. *)
Lemma newHeader_canonical (name value : bytes) :
  newHeader (canonicalName (newHeader name value)) value = newHeader name value.
Proof.
  unfold canonicalName; cbn [nameCode_ newHeader name_].
  destruct (decide (nameToCode (toLower name) = NC_Unknown)) as [_ | Hne].
  - unfold newHeader. by rewrite toLower_toCanonical, toLower_idem.
  - destruct (nameToCode_codeToName _ Hne) as (_ & Hl & _).
    unfold newHeader. rewrite Hl. rewrite codeToName_nameToCode by done. done.
Qed.

(** ** Lemmas: the method registry *)

(** A name and its id determine each other, and the ids fit in 16 bits. *)
Definition registry_wf (reg : MethodRegistry) : Prop :=
  size (names reg) <= 2 ^ 16
  /\ forall name i, ids reg !! name = Some i <-> 0 <= i /\ names reg !! Z.to_nat i = Some name.

Lemma addMethod_wf (name : bytes) (reg : MethodRegistry) :
  registry_wf reg -> size (names reg) < 2 ^ 16 -> registry_wf (snd (addMethod name reg)).
Proof.
  intros [_ Hids] Hlt. unfold addMethod. destruct (ids reg !! name) as [i |] eqn:Hn; simpl.
  - split; [lia | done].
  - unfold u16. pose proof (size_nonneg (names reg)). rewrite Z.mod_small by lia.
    split; [simpl; rewrite size_app; change (size [name]) with 1; lia |].
    intros name' i. cbn [ids names]. unfold size in *.
    rewrite lookup_insert. destruct (decide (name = name')) as [<- | Hne].
    + split.
      * intros [= <-]. rewrite Nat2Z.id. split; [lia |].
        rewrite lookup_app_r, Nat.sub_diag by lia. done.
      * intros [Hi Hl]. destruct (decide (Z.to_nat i < length (names reg))%nat) as [Hs | Hs].
        -- rewrite lookup_app_l in Hl by done.
           rewrite (proj2 (Hids name i) (conj Hi Hl)) in Hn. done.
        -- apply lookup_lt_Some in Hl. rewrite length_app in Hl. simpl in Hl. f_equal. lia.
    + rewrite Hids. split; intros [Hi Hl]; split; try done.
      * rewrite lookup_app_l; [done |]. by apply lookup_lt_Some in Hl.
      * destruct (decide (Z.to_nat i < length (names reg))%nat) as [Hs | Hs].
        -- by rewrite lookup_app_l in Hl.
        -- rewrite lookup_app_r in Hl by lia.
           destruct (Z.to_nat i - length (names reg))%nat; [by simplify_eq/= | done].
Qed.

Lemma initRegistry_wf : registry_wf initRegistry.
Proof.
  assert (H0 : registry_wf (mkRegistry [] ∅)).
  { split; [done |]. intros name i. simpl. rewrite lookup_empty, lookup_nil. split; [done | by intros []]. }
  unfold initRegistry. change (Z.to_nat _Invalid) with 9%nat. cbn [addStandard].
  repeat (apply addMethod_wf; [| by vm_compute]). exact H0.
Qed.

Lemma methodFromString_toString (reg : MethodRegistry) (i : HttpMethod) :
  registry_wf reg -> 0 <= i < size (names reg) ->
  methodFromString reg (methodToString reg i) = i.
Proof.
  intros [_ Hids] Hi. unfold methodFromString, methodToString.
  destruct (Z.leb_spec 0 i), (Z.ltb_spec i (size (names reg))); try lia. cbn [andb].
  unfold size in *. destruct (lookup_lt_is_Some_2 (names reg) (Z.to_nat i) ltac:(lia)) as [n Hn].
  rewrite (nth_lookup_Some _ _ _ _ Hn). by rewrite (proj2 (Hids n i) (conj (proj1 Hi) Hn)).
Qed.

Lemma registerMethod_names (name : bytes) (reg : MethodRegistry) :
  exists k, names (snd (registerMethod name reg)) = names reg ++ k /\ size k <= 1.
Proof.
  unfold registerMethod, addMethod. destruct (ids reg !! name); cbn [snd names].
  - exists []. rewrite app_nil_r. split; [done |]. by rewrite size_nil.
  - exists [name]. split; [done |]. done.
Qed.

Lemma registerMethod_mono (n name : bytes) (i : Z) (reg : MethodRegistry) :
  ids reg !! name = Some i -> ids (snd (registerMethod n reg)) !! name = Some i.
Proof.
  intros Hi. unfold registerMethod, addMethod. destruct (ids reg !! n) eqn:Hn; [done |].
  cbn [snd ids]. rewrite lookup_insert_ne; [done |]. congruence.
Qed.

Lemma registerMethod_found (n : bytes) (reg : MethodRegistry) :
  is_Some (ids (snd (registerMethod n reg)) !! n).
Proof.
  unfold registerMethod, addMethod. destruct (ids reg !! n) eqn:Hn; cbn [snd ids]; [by eauto |].
  rewrite lookup_insert_eq. by eauto.
Qed.

Lemma registerAll_ok (l : list bytes) (reg : MethodRegistry) :
  registry_wf reg -> size (names reg) + size l < 2 ^ 16 ->
  let r := foldl (fun reg name => snd (registerMethod name reg)) reg l in
  registry_wf r /\ (exists k, names r = names reg ++ k)
  /\ (forall name i, ids reg !! name = Some i -> ids r !! name = Some i)
  /\ (forall name, In name l -> is_Some (ids r !! name)).
Proof.
  revert reg. induction l as [| n l IH]; intros reg Hwf Hs; cbn [foldl].
  - split; [done |]. split; [exists []; by rewrite app_nil_r |]. by split.
  - rewrite size_cons in Hs. pose proof (size_nonneg l).
    destruct (registerMethod_names n reg) as (k & Hk & Hk1).
    destruct (IH (snd (registerMethod n reg))) as (H1 & (k' & H2) & H3 & H4).
    + apply addMethod_wf; [done | lia].
    + rewrite Hk, size_app. lia.
    + split; [done |]. split; [exists (k ++ k'); by rewrite H2, Hk, <- app_assoc |].
      split; [by eauto using registerMethod_mono |].
      intros name [<- | Hname]; [| by eauto].
      destruct (registerMethod_found n reg) as [i Hi]. by eauto.
Qed.

Lemma registry_consistent_from (reg0 : MethodRegistry) (customs : list bytes) :
  registry_wf reg0 -> size (names reg0) = 10 -> size customs <= 60000 ->
  let reg := foldl (fun reg name => snd (registerMethod name reg)) reg0 customs in
  registry_wf reg
  /\ (forall i, 0 <= i < size (names reg) -> methodFromString reg (methodToString reg i) = i)
  /\ (forall i, 0 <= i < 10 -> methodToString reg i = methodToString reg0 i)
  /\ (forall name, In name customs -> methodToString reg (methodFromString reg name) = name).
Proof.
  intros Hwf0 H10 Hsz reg.
  destruct (registerAll_ok customs reg0 Hwf0 ltac:(lia)) as (Hwf & [k Hk] & _ & Hin).
  fold reg in Hwf, Hk, Hin. split; [done |]. split.
  { intros i Hi. by apply methodFromString_toString. }
  split.
  - intros i Hi. unfold methodToString. rewrite Hk.
    rewrite size_app, H10. pose proof (size_nonneg k).
    destruct (Z.leb_spec 0 i), (Z.ltb_spec i (10 + size k)), (Z.ltb_spec i 10); try lia.
    cbn [andb]. apply app_nth1. unfold size in H10. lia.
  - intros name Hname. destruct (Hin name Hname) as [i Hi].
    unfold methodFromString. rewrite Hi. apply Hwf in Hi as [Hi Hn].
    unfold methodToString. pose proof (lookup_lt_Some _ _ _ Hn). unfold size.
    destruct (Z.leb_spec 0 i), (Z.ltb_spec i (Z.of_nat (length (names reg)))); try lia.
    cbn [andb]. by apply nth_lookup_Some.
Qed.

(** ** Properties *)

(** Header names are case-insensitive and survive the wire.  Whatever
    name a message sets a header with, the canonical spelling the sinks write
    for it is read back by the parser's constructor as the same header: same
    lower-case key, same code, same value. *)
Theorem header_canonical_roundtrip (name value : bytes) :
  newHeader (canonicalName (newHeader name value)) value = newHeader name value.
Proof. apply newHeader_canonical. Qed.

(** The method registry stays consistent.  Starting from the built-in
    methods, after any registrations that keep it within 16-bit ids, a method
    and its name determine each other: converting either way and back is the
    identity, the built-in ids are unchanged, and the registered method is
    found under its name. *)
Theorem method_registry_consistent (customs : list bytes) :
  size customs <= 60000 ->
  let reg := foldl (fun reg name => snd (registerMethod name reg)) initRegistry customs in
  registry_wf reg
  /\ (forall i, 0 <= i < size (names reg) -> methodFromString reg (methodToString reg i) = i)
  /\ (forall i, 0 <= i < 10 -> methodToString reg i = methodToString initRegistry i)
  /\ (forall name, In name customs -> methodToString reg (methodFromString reg name) = name).
Proof. apply registry_consistent_from; [apply initRegistry_wf | by vm_compute]. Qed.

Lemma method_registry_consistent_witness :
  let reg := foldl (fun reg name => snd (registerMethod name reg)) initRegistry
               [str "PURGE"; str "GET"; str "PROPFIND"] in
  registry_wf reg
  /\ (forall i, 0 <= i < size (names reg) -> methodFromString reg (methodToString reg i) = i)
  /\ (forall i, 0 <= i < 10 -> methodToString reg i = methodToString initRegistry i)
  /\ (forall name, In name [str "PURGE"; str "GET"; str "PROPFIND"] ->
        methodToString reg (methodFromString reg name) = name).
Proof.
  apply (method_registry_consistent [str "PURGE"; str "GET"; str "PROPFIND"]).
  vm_compute. discriminate.
Defined.
