(* ===== verification/CookieCodec.v ===== *)
(** Cookies on the wire: [Cookie::fromString] and [Cookie::toString] of
    src/extensions/http/src/Cookie.cc. *)

From Stdlib Require Import ZArith Lia String Strings.Byte.
From stdpp Require Import base numbers option list.
From S2P Require Import Prelude CxxStd Split OrdMap HttpTypes.
Open Scope Z_scope.

(** The lambda [trim] of the cookie parsers: [s] without the blanks around
    it. *)
Definition trim (s : bytes) : outcome bytes :=
  let l := sv_find_first_not_of s x20 0 in
  let r := sv_find_last_not_of s x20 npos in
  if l =? npos then Ok [] else sv_substr s l (u64 (u64 (r - l) + 1)).

(** ** [Cookie::fromString] *)

Definition set_secure (c : Cookie) : Cookie :=
  mkCookie (c_name c) (c_value c) (c_domain c) (c_path c) (c_expires c) (c_maxAge c)
    (c_sameSite c) true (c_httpOnly c).
Definition set_httpOnly (c : Cookie) : Cookie :=
  mkCookie (c_name c) (c_value c) (c_domain c) (c_path c) (c_expires c) (c_maxAge c)
    (c_sameSite c) (c_secure c) true.
Definition set_path (p : bytes) (c : Cookie) : Cookie :=
  mkCookie (c_name c) (c_value c) (c_domain c) p (c_expires c) (c_maxAge c)
    (c_sameSite c) (c_secure c) (c_httpOnly c).
Definition set_domain (d : bytes) (c : Cookie) : Cookie :=
  mkCookie (c_name c) (c_value c) d (c_path c) (c_expires c) (c_maxAge c)
    (c_sameSite c) (c_secure c) (c_httpOnly c).
Definition set_expires (e : bytes) (c : Cookie) : Cookie :=
  mkCookie (c_name c) (c_value c) (c_domain c) (c_path c) e (c_maxAge c)
    (c_sameSite c) (c_secure c) (c_httpOnly c).
Definition set_maxAge (m : Z) (c : Cookie) : Cookie :=
  mkCookie (c_name c) (c_value c) (c_domain c) (c_path c) (c_expires c) m
    (c_sameSite c) (c_secure c) (c_httpOnly c).
Definition set_sameSite (s : SameSite) (c : Cookie) : Cookie :=
  mkCookie (c_name c) (c_value c) (c_domain c) (c_path c) (c_expires c) (c_maxAge c)
    s (c_secure c) (c_httpOnly c).

(** One attribute of a [Set-Cookie] value: the body of the loop. *)
Definition applyAttribute (rawToken : bytes) (cookie : Cookie) : outcome Cookie :=
  let! token := trim rawToken in
  let tokenLower := toLower token in
  if decide (tokenLower = str "secure") then Ok (set_secure cookie)
  else if decide (tokenLower = str "httponly") then Ok (set_httpOnly cookie)
  else
    let eq := sv_find token x3d 0 in
    if eq =? npos then Ok cookie
    else
      let! rawName := sv_substr token 0 eq in
      let! trimmed := trim rawName in
      let attrName := toLower trimmed in
      let! rawValue := sv_substr token (eq + 1) npos in
      let! attrValue := trim rawValue in
      if decide (attrName = str "path") then Ok (set_path attrValue cookie)
      else if decide (attrName = str "domain") then Ok (set_domain attrValue cookie)
      else if decide (attrName = str "expires") then Ok (set_expires attrValue cookie)
      else if decide (attrName = str "max-age") then
        match stoi attrValue with
        | Ok v => Ok (set_maxAge v cookie)
        | _ => Ok cookie
        end
      else if decide (attrName = str "samesite") then
        let v := toLower attrValue in
        if decide (v = str "strict") then Ok (set_sameSite Strict cookie)
        else if decide (v = str "lax") then Ok (set_sameSite Lax cookie)
        else if decide (v = str "none") then Ok (set_sameSite SameSiteNone cookie)
        else Ok cookie
      else Ok cookie.

Definition fromString (raw : bytes) : outcome Cookie :=
  let semiPos := sv_find raw x3b 0 in
  let! firstRaw := sv_substr raw 0 semiPos in
  let! first := trim firstRaw in
  let eqPos := sv_find first x3d 0 in
  if eqPos =? npos then Ok newCookie
  else
    let! rawName := sv_substr first 0 eqPos in
    let! name := trim rawName in
    let! rawValue := sv_substr first (eqPos + 1) npos in
    let! value := trim rawValue in
    let cookie := mkCookie name value [] [] [] (-1) Unset false false in
    if decide (name = []) then Ok cookie
    else
      let start := if semiPos =? npos then size raw else semiPos + 1 in
      splitLoop x3b applyAttribute (S (length raw)) raw start cookie.

(** ** [Cookie::toString] *)

Definition sameSiteSuffix (s : SameSite) : bytes :=
  match s with
  | Strict => str "; SameSite=Strict"
  | Lax => str "; SameSite=Lax"
  | SameSiteNone => str "; SameSite=None"
  | Unset => []
  end.

Definition toString (c : Cookie) : bytes :=
  c_name c ++ str "=" ++ c_value c
  ++ (if decide (c_expires c = []) then [] else str "; Expires=" ++ c_expires c)
  ++ (if 0 <=? c_maxAge c then str "; Max-Age=" ++ to_string (c_maxAge c) else [])
  ++ (if decide (c_domain c = []) then [] else str "; Domain=" ++ c_domain c)
  ++ (if decide (c_path c = []) then [] else str "; Path=" ++ c_path c)
  ++ (if c_secure c then str "; Secure" else [])
  ++ (if c_httpOnly c then str "; HttpOnly" else [])
  ++ sameSiteSuffix (c_sameSite c).

Example cookie_example :
  fromString (str "id=42; Path=/a; Max-Age=60; Secure; SameSite=Lax")
  = Ok (mkCookie (str "id") (str "42") [] (str "/a") [] 60 Lax true false).
Proof. by vm_compute. Qed.

(** ** Trimming *)

Lemma trim_blanks (a v z : bytes) :
  blanks a -> blanks z -> trimmed v = true -> size (a ++ v ++ z) < npos ->
  trim (a ++ v ++ z) = Ok v.
Proof.
  intros Ha Hz Ht Hs. unfold trim. destruct v as [| b v].
  - assert (Hn : sv_find_first_not_of (a ++ [] ++ z) x20 0 = npos)
      by (apply (sv_find_if_none _ [] (a ++ [] ++ z)); by apply Forall_app).
    by rewrite Hn.
  - destruct (between_blanks [] a (b :: v) z Ha Hz ltac:(done) Ht Hs) as (H1 & H2 & H3).
    change ([] ++ ?x) with x in *. change (size (@nil byte)) with 0 in *. rewrite H1, H2.
    destruct (Z.eqb_spec (0 + size a) npos); [| done].
    rewrite !size_app, size_cons in Hs. pose proof (size_nonneg v). pose proof (size_nonneg z). lia.
Qed.

Lemma trim_trimmed (v : bytes) : trimmed v = true -> size v < npos -> trim v = Ok v.
Proof.
  intros Ht Hs. rewrite <- (app_nil_r v) at 1. apply (trim_blanks [] v []); try done.
  - constructor.
  - constructor.
  - by rewrite app_nil_r.
Qed.

Lemma trim_total (s : bytes) : size s < npos -> exists v, trim s = Ok v /\ size v <= size s.
Proof.
  intros Hs. unfold trim.
  destruct (Z.eqb_spec (sv_find_first_not_of s x20 0) npos).
  - exists []. split; [done |]. apply size_nonneg.
  - destruct (sv_find_if_cases (fun b => negb (Byte.eqb x20 b)) s 0 ltac:(lia) Hs) as [? | Hl];
      [done |].
    unfold sv_substr. fold (sv_find_first_not_of s x20 0) in Hl.
    destruct (Z.ltb_spec (size s) (sv_find_first_not_of s x20 0)); [lia |].
    eexists. split; [done |]. unfold size. rewrite length_take, length_drop. lia.
Qed.

(** ** What [fromString] reads *)

(** No delimiter [d] in the text. *)
Definition without (d : byte) (s : bytes) : Prop := Forall (fun b => Byte.eqb d b = false) s.

(** [key=value] with nothing to trim on either side of the ['=']. *)
Lemma trimmed_pair (key v : bytes) :
  key <> [] -> trimmed key = true -> trimmed v = true -> trimmed (key ++ x3d :: v) = true.
Proof.
  intros Hk Htk Htv. destruct key as [| k key]; [done |].
  apply trimmed_cons in Htk as [Hk0 _]. unfold trimmed. cbn [app]. rewrite Hk0. cbn [andb].
  destruct v as [| b v].
  - rewrite app_comm_cons, last_last. done.
  - apply andb_prop in Htv as [_ Hv].
    replace (List.last (k :: key ++ x3d :: b :: v) x00) with (List.last (b :: v) x00); [done |].
    rewrite app_comm_cons.
    change (x3d :: b :: v) with ([x3d] ++ b :: v). rewrite app_assoc.
    destruct (exists_last (l := b :: v) ltac:(done)) as (q & z & ->).
    by rewrite app_assoc, !last_last.
Qed.

Lemma split_pair (key v : bytes) :
  without x3d key -> size (key ++ x3d :: v) < npos ->
  sv_find (key ++ x3d :: v) x3d 0 = size key
  /\ (size key =? npos) = false
  /\ sv_substr (key ++ x3d :: v) 0 (size key) = Ok key
  /\ sv_substr (key ++ x3d :: v) (size key + 1) npos = Ok v.
Proof.
  intros Hk Hs. rewrite size_app, size_cons in Hs. pose proof (size_nonneg v).
  split; [exact (sv_find_if_app _ [] key x3d v Hk eq_refl) |].
  split; [apply Z.eqb_neq; lia |].
  split; [exact (sv_substr_mid [] key (x3d :: v) _ eq_refl) |].
  replace (key ++ x3d :: v) with ((key ++ [x3d]) ++ v) by (by rewrite <- app_assoc).
  replace (size key + 1) with (size (key ++ [x3d])) by (by rewrite size_app).
  apply sv_substr_rest. pose proof (size_nonneg key). lia.
Qed.

Lemma trim_one_blank (v : bytes) :
  trimmed v = true -> size (x20 :: v) < npos -> trim (x20 :: v) = Ok v.
Proof.
  intros Ht Hs. rewrite <- (app_nil_r v) at 1.
  apply (trim_blanks [x20] v []); [by repeat constructor | constructor | done |].
  by rewrite app_nil_r.
Qed.

Lemma toLower_pair (key v s : bytes) :
  without x3d s -> toLower (key ++ x3d :: v) <> s.
Proof.
  intros Hs Heq. unfold toLower in Heq. rewrite map_app in Heq. subst s.
  apply Forall_app in Hs as [_ Hs]. by apply Forall_cons in Hs as [Hs _].
Qed.

(** What an attribute [key=v] does to the cookie. *)
Definition setAttribute (key v : bytes) (cookie : Cookie) : Cookie :=
  if decide (key = str "path") then set_path v cookie
  else if decide (key = str "domain") then set_domain v cookie
  else if decide (key = str "expires") then set_expires v cookie
  else if decide (key = str "max-age") then
    match stoi v with Ok n => set_maxAge n cookie | _ => cookie end
  else if decide (key = str "samesite") then
    if decide (toLower v = str "strict") then set_sameSite Strict cookie
    else if decide (toLower v = str "lax") then set_sameSite Lax cookie
    else if decide (toLower v = str "none") then set_sameSite SameSiteNone cookie
    else cookie
  else cookie.

Lemma applyAttribute_pair (key v : bytes) (cookie : Cookie) :
  key <> [] -> trimmed key = true -> without x3d key -> trimmed v = true ->
  size (x20 :: key ++ x3d :: v) < npos ->
  applyAttribute (x20 :: key ++ x3d :: v) cookie = Ok (setAttribute (toLower key) v cookie).
Proof.
  intros Hne Htk Hk Htv Hs. unfold applyAttribute.
  rewrite trim_one_blank by (done || by apply trimmed_pair). cbn [obind].
  rewrite size_cons in Hs.
  destruct (split_pair key v Hk ltac:(lia)) as (-> & -> & -> & Hv). cbn [obind].
  rewrite size_app, size_cons in Hs. pose proof (size_nonneg key). pose proof (size_nonneg v).
  rewrite decide_False by (apply toLower_pair; by repeat constructor).
  rewrite decide_False by (apply toLower_pair; by repeat constructor).
  rewrite (trim_trimmed key) by (done || lia). cbn [obind]. rewrite Hv. cbn [obind].
  rewrite (trim_trimmed v) by (done || lia). cbn [obind]. unfold setAttribute.
  repeat case_decide; try done. by destruct (stoi v).
Qed.

(** ** The cookies that survive the wire *)

(** A name without ['='], nothing with [';'] in it, no blanks at the ends of
    the parts, and a [Max-Age] that is absent or fits an [int]. *)
Definition field_ok (s : bytes) : Prop := trimmed s = true /\ without x3b s.

Record cookie_ok (c : Cookie) : Prop := {
  name_ok : field_ok (c_name c) /\ c_name c <> [] /\ without x3d (c_name c);
  value_ok : field_ok (c_value c);
  domain_ok : field_ok (c_domain c);
  path_ok : field_ok (c_path c);
  expires_ok : field_ok (c_expires c);
  maxAge_ok : c_maxAge c = -1 \/ 0 <= c_maxAge c < 2 ^ 31;
  size_ok : size (toString c) < npos
}.

(** The attributes of a cookie in the order [toString] writes them, each as
    the text it prints and the effect it has. *)
Definition pairIf (b : bool) (key v : bytes) : list (bytes * bytes) := if b then [(key, v)] else [].

Definition sameSiteName (s : SameSite) : bytes :=
  match s with
  | Strict => str "Strict" | Lax => str "Lax" | SameSiteNone => str "None" | Unset => []
  end.

Definition printPair (kv : bytes * bytes) : bytes := str "; " ++ fst kv ++ str "=" ++ snd kv.

Definition pairsBefore (c : Cookie) : list (bytes * bytes) :=
  pairIf (bool_decide (c_expires c <> [])) (str "Expires") (c_expires c)
  ++ pairIf (0 <=? c_maxAge c) (str "Max-Age") (to_string (c_maxAge c))
  ++ pairIf (bool_decide (c_domain c <> [])) (str "Domain") (c_domain c)
  ++ pairIf (bool_decide (c_path c <> [])) (str "Path") (c_path c).

Definition attributes (c : Cookie) : list bytes :=
  map (fun kv => fst kv ++ x3d :: snd kv) (pairsBefore c)
  ++ (if c_secure c then [str "Secure"] else [])
  ++ (if c_httpOnly c then [str "HttpOnly"] else [])
  ++ (if decide (c_sameSite c = Unset) then [] else [str "SameSite=" ++ sameSiteName (c_sameSite c)]).

Lemma concat_if {A B : Type} (f : A -> list B) (b : bool) (a : A) :
  concat (map f (if b then [a] else [])) = if b then f a else [].
Proof. destruct b; [apply app_nil_r | done]. Qed.

Lemma toString_attributes (c : Cookie) :
  toString c
  = (c_name c ++ x3d :: c_value c) ++ concat (map (fun a => x3b :: x20 :: a) (attributes c)).
Proof.
  unfold toString, attributes, pairsBefore, pairIf.
  rewrite !map_app, !map_map, !concat_app, !concat_if, <- !app_assoc, <- !app_comm_cons.
  f_equal. change (str "=") with [x3d]. cbn [app]. do 2 f_equal.
  f_equal; [by case_decide; case_bool_decide |]. f_equal; f_equal; [by case_decide; case_bool_decide |].
  f_equal; [by case_decide; case_bool_decide |]. f_equal. f_equal.
  destruct (c_sameSite c); reflexivity.
Qed.

(** ** The loop over the attributes *)

Lemma foldOutcome_app {A B : Type} (f : B -> A -> outcome A) (l k : list B) (acc : A) :
  foldOutcome f (l ++ k) acc = let! acc := foldOutcome f l acc in foldOutcome f k acc.
Proof.
  revert acc. induction l as [| b l IH]; intros acc; [done |]. cbn [app foldOutcome].
  destruct (f b acc); cbn [obind]; auto.
Qed.

Lemma concat_join (a : bytes) (l : list bytes) :
  concat (map (fun a => x3b :: x20 :: a) (a :: l)) = x3b :: join x3b (map (cons x20) (a :: l)).
Proof.
  revert a. induction l as [| b l IH]; intros a; [simpl; by rewrite app_nil_r |].
  change (join x3b (map (cons x20) (a :: b :: l)))
    with ((x20 :: a) ++ x3b :: join x3b (map (cons x20) (b :: l))).
  rewrite <- IH. done.
Qed.

Definition applyAll (l : list bytes) (c : Cookie) : outcome Cookie :=
  foldOutcome applyAttribute (map (cons x20) l) c.

Lemma applyAll_app (l k : list bytes) (c : Cookie) :
  applyAll (l ++ k) c = let! c := applyAll l c in applyAll k c.
Proof. unfold applyAll. by rewrite map_app, foldOutcome_app. Qed.

Lemma applyAll_pairIf (b : bool) (key v : bytes) (k : list bytes) (c : Cookie) :
  (b = true -> key <> [] /\ trimmed key = true /\ without x3d key /\ trimmed v = true
    /\ size (x20 :: key ++ x3d :: v) < npos) ->
  applyAll (map (fun kv => fst kv ++ x3d :: snd kv) (pairIf b key v) ++ k) c
  = applyAll k (if b then setAttribute (toLower key) v c else c).
Proof.
  rewrite applyAll_app. destruct b; [| done]. intros (? & ? & ? & ? & ?); [done |].
  unfold applyAll. cbn [pairIf map foldOutcome fst snd].
  by rewrite applyAttribute_pair by done.
Qed.

Lemma fromString_attributes (first : bytes) (name value : bytes) (l : list bytes) :
  first = name ++ x3d :: value -> field_ok name -> name <> [] -> without x3d name ->
  field_ok value -> Forall (without x3b) l ->
  size (first ++ concat (map (fun a => x3b :: x20 :: a) l)) < npos ->
  fromString (first ++ concat (map (fun a => x3b :: x20 :: a) l))
  = applyAll l (mkCookie name value [] [] [] (-1) Unset false false).
Proof.
  intros Hfirst [Htn Hsn] Hne Heq [Htv Hsv] Hl Hs. set (tail := concat _) in *.
  pose proof (size_nonneg tail). rewrite size_app in Hs.
  assert (Hwf : without x3b first)
    by (subst first; apply Forall_app; split; [done | by constructor]).
  assert (Htf : trimmed first = true) by (subst first; by apply trimmed_pair).
  assert (Hsub : exists n, sv_find (first ++ tail) x3b 0 = n
    /\ sv_substr (first ++ tail) 0 n = Ok first
    /\ splitLoop x3b applyAttribute (S (length (first ++ tail))) (first ++ tail)
         (if n =? npos then size (first ++ tail) else n + 1)
         (mkCookie name value [] [] [] (-1) Unset false false)
       = applyAll l (mkCookie name value [] [] [] (-1) Unset false false)).
  { pose proof (size_nonneg first). destruct l as [| a l].
    - exists npos. unfold tail; cbn [map concat]. rewrite app_nil_r.
      split; [exact (sv_find_if_none _ [] first Hwf) |].
      split; [exact (sv_substr_rest [] first npos ltac:(lia)) |].
      cbn [Z.eqb splitLoop]. change (npos =? npos) with true. cbv iota.
      by rewrite Z.ltb_irrefl.
    - exists (size first). unfold tail in *. rewrite concat_join in *. rewrite size_cons in Hs.
      set (rest := join x3b _) in *. pose proof (size_nonneg rest).
      split; [exact (sv_find_if_app _ [] first x3b rest Hwf eq_refl) |].
      split; [exact (sv_substr_mid [] first (x3b :: rest) _ eq_refl) |].
      destruct (Z.eqb_spec (size first) npos); [lia |].
      replace (first ++ x3b :: rest) with ((first ++ [x3b]) ++ rest) by (by rewrite <- app_assoc).
      replace (size first + 1) with (size (first ++ [x3b])) by (by rewrite size_app).
      rewrite splitLoop_parts; [| rewrite !size_app; change (size [x3b]) with 1; lia
                                | rewrite !length_app; simpl; lia].
      apply foldParts_join; [| fold rest; rewrite !length_app; simpl; lia].
      apply Forall_map. eapply Forall_impl; [exact Hl |]. intros x Hx. split; [done |].
      by constructor. }
  destruct Hsub as (n & Hn & Hfst & Hloop).
  unfold fromString. rewrite Hn, Hfst. cbn [obind]. pose proof (size_nonneg first).
  rewrite trim_trimmed by (done || lia). cbn [obind]. rewrite Hfirst.
  rewrite Hfirst, size_app, size_cons in Hs. pose proof (size_nonneg name).
  pose proof (size_nonneg value).
  destruct (split_pair name value Heq) as (-> & -> & -> & Hv);
    [rewrite size_app, size_cons; lia |].
  cbn [obind]. rewrite (trim_trimmed name) by (done || lia). cbn [obind]. rewrite Hv. cbn [obind].
  rewrite (trim_trimmed value) by (done || lia). cbn [obind]. rewrite <- Hfirst.
  rewrite decide_False by done. exact Hloop.
Qed.

(** ** Round trip *)

Lemma to_string_field (n : Z) :
  0 <= n < 2 ^ 31 -> field_ok (to_string n) /\ stoi (to_string n) = Ok n.
Proof.
  intros Hn. unfold to_string, stoi. destruct (Z.ltb_spec n 0); [lia |].
  rewrite parse_number_digits; [| by left | lia | lia].
  destruct (Z.ltb_spec n (- 2 ^ 31)), (Z.leb_spec (2 ^ 31) n); try lia. cbn [orb].
  split; [| done].
  destruct (digits_of_spec 10 20 n []) as (ds & -> & Hlen & Hds & _); [by left | lia | lia |].
  rewrite app_nil_r.
  assert (Hd : Forall (fun b => Byte.eqb x3b b = false /\ Byte.eqb x20 b = false) ds).
  { eapply Forall_impl; [exact Hds |]. intros b (d & Hd & ->).
    assert (Hall : forallb (fun d => negb (Byte.eqb x3b (digit_char d))
      && negb (Byte.eqb x20 (digit_char d))) (zrange 10) = true) by reflexivity.
    pose proof (zrange_forall 10 _ Hall d ltac:(lia)) as Hb. cbv beta in Hb. to_prop. done. }
  split; [| eapply Forall_impl; [exact Hd |]; by intros b []].
  destruct (exists_last (l := ds)) as (q & z & Hq); [intros ->; simpl in Hlen; lia |].
  destruct ds as [| b ds]; [simpl in Hlen; lia |].
  unfold trimmed. rewrite Hq at 1. rewrite last_last.
  pose proof Hd as Hd'. rewrite Hq in Hd'. apply Forall_app in Hd' as [_ Hz].
  apply Forall_cons in Hz as [[_ ->] _]. by apply Forall_cons in Hd as [[_ ->] _].
Qed.

Lemma attribute_size (a : bytes) (l : list bytes) :
  In a l -> size a + 2 <= size (concat (map (fun a => x3b :: x20 :: a) l)).
Proof.
  induction l as [| b l IH]; [done |]. intros [-> | Hin]; cbn [map concat];
    rewrite !size_app, !size_cons.
  - pose proof (size_nonneg (concat (map (fun a => x3b :: x20 :: a) l))). lia.
  - specialize (IH Hin). pose proof (size_nonneg b). lia.
Qed.

Lemma without_app (d : byte) (a b : bytes) : without d a -> without d b -> without d (a ++ b).
Proof. intros. by apply Forall_app. Qed.

Lemma attributes_without (c : Cookie) : cookie_ok c -> Forall (without x3b) (attributes c).
Proof.
  intros [_ _ [_ Hd] [_ Hp] [_ He] Hm _]. unfold attributes, pairsBefore, pairIf.
  rewrite !map_app. repeat (apply Forall_app; split).
  - case_bool_decide; repeat constructor. done.
  - destruct (Z.leb_spec 0 (c_maxAge c)); repeat constructor.
    apply to_string_field. lia.
  - case_bool_decide; repeat constructor. done.
  - case_bool_decide; repeat constructor. done.
  - destruct (c_secure c); repeat constructor.
  - destruct (c_httpOnly c); repeat constructor.
  - destruct (c_sameSite c); repeat constructor.
Qed.

(** The pairs and the flags, applied to the cookie read so far. *)
Lemma applyAll_attributes (c : Cookie) :
  cookie_ok c ->
  applyAll (attributes c) (mkCookie (c_name c) (c_value c) [] [] [] (-1) Unset false false) = Ok c.
Proof.
  intros Hc. pose proof Hc as [_ _ [Hd _] [Hp _] [He _] Hm Hs].
  assert (Hsz : forall key v, In (key ++ x3d :: v) (attributes c) ->
    size (x20 :: key ++ x3d :: v) < npos).
  { intros key v Hin. apply attribute_size in Hin. rewrite toString_attributes in Hs.
    rewrite size_app in Hs. pose proof (size_nonneg (c_name c ++ x3d :: c_value c)).
    rewrite size_cons. lia. }
  assert (Hmax : 0 <= c_maxAge c -> trimmed (to_string (c_maxAge c)) = true
    /\ stoi (to_string (c_maxAge c)) = Ok (c_maxAge c)).
  { intros H. destruct (to_string_field (c_maxAge c)) as [[? _] ?]; [lia | done]. }
  unfold attributes, pairsBefore in *. rewrite !map_app, <- !app_assoc in *.
  repeat rewrite applyAll_pairIf; [| intros Hb; repeat split; try done; try (by repeat constructor);
    try (by apply Hmax, Z.leb_le); apply Hsz; rewrite ?Hb, ?in_app_iff; simpl; tauto ..].
  change (toLower (str "Expires")) with (str "expires").
  change (toLower (str "Max-Age")) with (str "max-age").
  change (toLower (str "Domain")) with (str "domain").
  change (toLower (str "Path")) with (str "path").
  set (c4 := if bool_decide (c_path c <> []) then _ else _).
  assert (Hc4 : c4 = mkCookie (c_name c) (c_value c) (c_domain c) (c_path c) (c_expires c)
    (c_maxAge c) Unset false false).
  { assert (Hpath : forall v k, setAttribute (str "path") v k = set_path v k) by reflexivity.
    assert (Hdom : forall v k, setAttribute (str "domain") v k = set_domain v k) by reflexivity.
    assert (Hexp : forall v k, setAttribute (str "expires") v k = set_expires v k) by reflexivity.
    assert (Hage : forall v k, setAttribute (str "max-age") v k
      = match stoi v with Ok n => set_maxAge n k | _ => k end) by reflexivity.
    unfold c4. rewrite Hpath, Hdom, Hexp, Hage.
    assert (Hset : forall (s : bytes) (b : bool), b = bool_decide (s <> []) -> b = false -> s = []).
    { intros s b -> Hb. apply bool_decide_eq_false in Hb. by apply dec_stable. }
    destruct (bool_decide (c_path c <> [])) eqn:H1; [| rewrite (Hset _ _ (eq_sym H1) eq_refl)];
    (destruct (bool_decide (c_domain c <> [])) eqn:H2; [| rewrite (Hset _ _ (eq_sym H2) eq_refl)]);
    (destruct (bool_decide (c_expires c <> [])) eqn:H3; [| rewrite (Hset _ _ (eq_sym H3) eq_refl)]);
    (destruct (Z.leb_spec 0 (c_maxAge c)) as [Hge |];
       [destruct (Hmax Hge) as [_ ->] | replace (c_maxAge c) with (-1) by lia]);
    reflexivity. }
  rewrite Hc4. destruct c as [n v d p e m ss s h]. cbn.
  destruct s, h, ss; vm_compute; reflexivity.
Qed.

Lemma fromString_toString (c : Cookie) : cookie_ok c -> fromString (toString c) = Ok c.
Proof.
  intros Hc. pose proof Hc as [(Hn & Hne & Heq) Hv _ _ _ _ Hs].
  rewrite toString_attributes in *.
  rewrite (fromString_attributes _ (c_name c) (c_value c)) by (done || by apply attributes_without).
  by apply applyAll_attributes.
Qed.

(** Cookies survive the wire.  A cookie whose parts can be written (no
    [';'] in any of them, no ['='] in the name, no blanks around them, a
    [Max-Age] that is not set or fits an [int]) is read back by [fromString]
    from what [toString] prints, with every attribute. *)
Theorem cookie_roundtrip (c : Cookie) : cookie_ok c -> fromString (toString c) = Ok c.
Proof. apply fromString_toString. Qed.

Lemma cookie_roundtrip_witness :
  fromString (toString (mkCookie (str "sid") (str "a=b c") (str "example.com") (str "/x")
    (str "Wed, 21 Oct 2026 07:28:00 GMT") 3600 Strict true true))
  = Ok (mkCookie (str "sid") (str "a=b c") (str "example.com") (str "/x")
    (str "Wed, 21 Oct 2026 07:28:00 GMT") 3600 Strict true true).
Proof.
  apply cookie_roundtrip. split; unfold field_ok, without; cbn [c_name c_value c_domain c_path
    c_expires c_maxAge]; [repeat split | split | split | split | split | right | ];
    try (by repeat constructor); try done; by vm_compute.
Defined.
