(* ===== verification/HttpParser.v ===== *)
(** The HTTP/1 message parsers, [HttpParser<HttpRequest>] and
    [HttpParser<HttpResponse>] of src/extensions/http/src/HttpParser.cc: state
    machines fed with one line at a time. *)

From Stdlib Require Import ZArith Lia String Strings.Byte.
From stdpp Require Import base numbers option list gmap.
From S2P Require Import Prelude CxxStd UrlEncode Split OrdMap HttpTypes CookieCodec.
Open Scope Z_scope.

(** ** Errors and states *)

Inductive ErrorCode : Type :=
| MalformedRequestLine
| AmbiguousContentLength
| UnsupportedTransferEncoding.

Record HttpParseError : Type := mkParseError {
  code : ErrorCode;
  message : bytes
}.

Inductive HttpParserState : Type := ExpectStatusLine | ExpectHeader | HeaderComplete | Error.

#[export] Instance HttpParserState_eq_decision : EqDecision HttpParserState.
Proof. solve_decision. Defined.

(** [HttpParseResult]: a message, an error, or nothing ([std::monostate]). *)
Inductive HttpParseResult (T : Type) : Type :=
| Parsed (t : T)
| ParseError (e : HttpParseError)
| Disconnected.
Arguments Parsed {T} t.
Arguments ParseError {T} e.
Arguments Disconnected {T}.

(** ** Lines *)

Definition isSeparator (c : byte) : bool :=
  existsb (Byte.eqb c) (str "()<>@,;:\" ++ [x22] ++ str "/[]?={}").

Definition isTokenChar (c : byte) : bool :=
  negb (b2z c <=? 32) && negb (127 <=? b2z c) && negb (isSeparator c).

Definition isValidToken (s : bytes) : bool :=
  match s with [] => false | _ => forallb isTokenChar s end.

Definition parseHttpVersion (s : bytes) : Version :=
  if decide (s = str "HTTP/1.0") then kHttp10
  else if decide (s = str "HTTP/1.1") then kHttp11
  else kUnknown.

(** The positions wrap: a line that starts with [':'] searches the name's end
    from [colonPos - 1 = npos]. *)
Definition parseHeaderLine (line : bytes) : outcome (bytes * bytes) :=
  let colonPos := sv_find line x3a 0 in
  if colonPos =? npos then Ok ([], [])
  else
    let nameStart := sv_find_first_not_of line x20 0 in
    let nameEnd := sv_find_last_not_of line x20 (u64 (colonPos - 1)) in
    let valueStart := sv_find_first_not_of line x20 (u64 (colonPos + 1)) in
    let valueEnd := sv_find_last_not_of line x20 npos in
    if nameStart =? npos then Ok ([], [])
    else
      let! name := sv_substr line nameStart (u64 (u64 (nameEnd - nameStart) + 1)) in
      let! value :=
        (if valueStart =? npos then Ok []
         else sv_substr line valueStart (u64 (u64 (valueEnd - valueStart) + 1))) in
      Ok (name, value).

(** The decision both parsers make on the message headers (RFC 7230, 3.3.3);
    they differ in what the absence of a length means. *)
Definition contains (s pat : bytes) : bool := negb (sv_find_str s pat 0 =? npos).

Inductive LengthDecision : Type :=
| Decided (mode : TransferMode) (len : option Z)
| BadEncoding (value : bytes)
| BadLength
| NoLength.

Definition contentLengthDecision (headers : HttpHeaderMap) : LengthDecision :=
  match om_find (str "content-length") headers with
  | Some h =>
      let clValue := value_ h in
      if bool_decide (clValue = []) || Byte.eqb (hd x00 clValue) x2d then BadLength
      else
        match stoul clValue 10 with
        | Ok n => Decided ContentLength (Some n)
        | _ => BadLength
        end
  | None => NoLength
  end.

Definition transferDecision (headers : HttpHeaderMap) : LengthDecision :=
  match om_find (str "transfer-encoding") headers with
  | Some h =>
      let value := value_ h in
      if contains value (str "chunked") then Decided Chunked None
      else if bool_decide (value <> str "identity") then BadEncoding value
      else contentLengthDecision headers
  | None => contentLengthDecision headers
  end.

(** ** [HttpParser<HttpRequest>] *)

Module Request.

Record Parser : Type := mkParser {
  data_ : HttpRequest;
  state_ : HttpParserState;
  error_ : HttpParseError
}.

Definition newParser : Parser :=
  mkParser newRequest ExpectStatusLine (mkParseError MalformedRequestLine []).

Definition set_data (d : HttpRequest) (p : Parser) : Parser := mkParser d (state_ p) (error_ p).
Definition set_state (s : HttpParserState) (p : Parser) : Parser :=
  mkParser (data_ p) s (error_ p).

Definition set_line (v : Version) (m : HttpMethod) (d : HttpRequest) : HttpRequest :=
  mkRequest v m (path d) (rawPath d) (query d) (headers d) (cookies d) (queries d)
    (transferMode d) (contentLength d) (keepAlive d).
Definition set_paths (p raw : bytes) (d : HttpRequest) : HttpRequest :=
  mkRequest (version d) (method d) p raw (query d) (headers d) (cookies d) (queries d)
    (transferMode d) (contentLength d) (keepAlive d).
Definition set_query (q : bytes) (qs : ordmap bytes) (d : HttpRequest) : HttpRequest :=
  mkRequest (version d) (method d) (path d) (rawPath d) q (headers d) (cookies d) qs
    (transferMode d) (contentLength d) (keepAlive d).
Definition set_headers (h : HttpHeaderMap) (d : HttpRequest) : HttpRequest :=
  mkRequest (version d) (method d) (path d) (rawPath d) (query d) h (cookies d) (queries d)
    (transferMode d) (contentLength d) (keepAlive d).
Definition set_cookies (c : ordmap bytes) (d : HttpRequest) : HttpRequest :=
  mkRequest (version d) (method d) (path d) (rawPath d) (query d) (headers d) c (queries d)
    (transferMode d) (contentLength d) (keepAlive d).
Definition set_transfer (m : TransferMode) (len : Z) (d : HttpRequest) : HttpRequest :=
  mkRequest (version d) (method d) (path d) (rawPath d) (query d) (headers d) (cookies d)
    (queries d) m len (keepAlive d).
Definition set_keepAlive (k : bool) (d : HttpRequest) : HttpRequest :=
  mkRequest (version d) (method d) (path d) (rawPath d) (query d) (headers d) (cookies d)
    (queries d) (transferMode d) (contentLength d) k.

Definition setError (c : ErrorCode) (msg : bytes) : M Parser unit := fun p =>
  (Ok tt, mkParser (data_ p) Error (mkParseError c msg)).

Definition modify (f : HttpRequest -> HttpRequest) : M Parser unit := fun p =>
  (Ok tt, set_data (f (data_ p)) p).

(** [data_.queries.emplace(key, value)] for each [key=value] part. *)
Definition queryPart (pair : bytes) (qs : ordmap bytes) : outcome (ordmap bytes) :=
  let eqPos := sv_find pair x3d 0 in
  if eqPos =? npos then Ok qs
  else
    let! k := sv_substr pair 0 eqPos in
    let! v := sv_substr pair (eqPos + 1) npos in
    Ok (om_emplace (urlDecodeComponent k) (urlDecodeComponent v) qs).

Definition parseQueryString (queryStr : bytes) (qs : ordmap bytes) : outcome (ordmap bytes) :=
  forEachPart x26 queryPart queryStr qs.

(** [data_.cookies\[name\] = value] for each [name=value] part. *)
Definition cookiePart (pair : bytes) (cs : ordmap bytes) : outcome (ordmap bytes) :=
  let eqPos := sv_find pair x3d 0 in
  if eqPos =? npos then Ok cs
  else
    let! rawName := sv_substr pair 0 eqPos in
    let! name := trim rawName in
    let! rawValue := sv_substr pair (eqPos + 1) npos in
    let! value := trim rawValue in
    if decide (name = []) then Ok cs else Ok (om_insert name value cs).

Definition parseCookies (cookieHeader : bytes) (cs : ordmap bytes) : outcome (ordmap bytes) :=
  forEachPart x3b cookiePart cookieHeader cs.

Section parser.
Context (reg : MethodRegistry).

Definition parseRequestLine (line : bytes) : M Parser bool :=
  let pos1 := sv_find line x20 0 in
  if pos1 =? npos then
    let* _ := setError MalformedRequestLine (str "Missing space in request line") in mret false
  else
    let pos2 := sv_find line x20 (pos1 + 1) in
    if pos2 =? npos then
      let* _ := setError MalformedRequestLine (str "Missing second space in request line") in
      mret false
    else
      let* methodStr := mlift (sv_substr line 0 pos1) in
      let m := methodFromString reg methodStr in
      let* versionStr := mlift (sv_substr line (pos2 + 1) npos) in
      let v := parseHttpVersion versionStr in
      let* _ := modify (set_line v m) in
      if m =? _Invalid then
        let* _ := setError MalformedRequestLine (str "Invalid http method") in mret false
      else if decide (v = kUnknown) then
        let* _ := setError MalformedRequestLine (str "Invalid http version") in mret false
      else
        let* fullPath := mlift (sv_substr line (pos1 + 1) (u64 (u64 (pos2 - pos1) - 1))) in
        let qPos := sv_find fullPath x3f 0 in
        let* rawPath := mlift (sv_substr fullPath 0 qPos) in
        let* _ := modify (set_paths (if decide (rawPath = []) then str "/" else urlDecode rawPath)
                            rawPath) in
        if qPos =? npos then
          let* _ := modify (fun d => set_query [] (queries d) d) in
          mret true
        else
          let* q := mlift (sv_substr fullPath (qPos + 1) npos) in
          let* p := mget in
          let* qs := mlift (parseQueryString q (queries (data_ p))) in
          let* _ := modify (set_query q qs) in
          mret true.

Definition parseHeader (line : bytes) : M Parser unit :=
  let* (name, value) := mlift (parseHeaderLine line) in
  if bool_decide (name = []) || negb (isValidToken name) then mret tt
  else
    let header := newHeader name value in
    let* p := mget in
    if decide (nameCode_ header = NC_Cookie) then
      let* cs := mlift (parseCookies value (cookies (data_ p))) in
      modify (set_cookies cs)
    else
      let old := om_find (name_ header) (headers (data_ p)) in
      let* _ := modify (fun d => set_headers (om_emplace (name_ header) header (headers d)) d) in
      match old with
      | Some h =>
          if decide (nameCode_ header = NC_ContentLength) then
            if decide (value = value_ h) then mret tt
            else setError AmbiguousContentLength (str "Multiple Content-Length headers")
          else mret tt
      | None => mret tt
      end.

Definition processTransferMode : M Parser bool :=
  let* p := mget in
  match transferDecision (headers (data_ p)) with
  | Decided mode (Some n) => let* _ := modify (set_transfer mode n) in mret true
  | Decided mode None =>
      let* _ := modify (fun d => set_transfer mode (contentLength d) d) in mret true
  | BadEncoding value =>
      let* _ := setError UnsupportedTransferEncoding
                  (str "Unsupported Transfer-Encoding: " ++ value) in
      mret false
  | BadLength =>
      let* _ := setError AmbiguousContentLength (str "Invalid content length") in mret false
  | NoLength => let* _ := modify (set_transfer ContentLength 0) in mret true
  end.

Definition processKeepAlive : M Parser bool :=
  let* _ := modify (fun d =>
    set_keepAlive
      (match om_find (str "connection") (headers d) with
       | Some h => bool_decide (toLower (value_ h) = str "keep-alive")
       | None => bool_decide (version d = kHttp11)
       end) d) in
  mret true.

Definition processHeaders : M Parser bool :=
  let* ok := processTransferMode in
  if ok then processKeepAlive else mret false.

Definition feedLine (line : bytes) : M Parser HttpParserState :=
  let* p := mget in
  match state_ p with
  | Error => mret Error
  | ExpectStatusLine =>
      let* ok := parseRequestLine line in
      if ok then
        let* p := mget in
        let* _ := mput (set_state ExpectHeader p) in
        mret ExpectHeader
      else mret Error
  | _ =>
      if decide (line = []) then
        let* ok := processHeaders in
        if ok then
          let* p := mget in
          let* _ := mput (set_state HeaderComplete p) in
          mret HeaderComplete
        else mret Error
      else
        let* _ := parseHeader line in
        let* p := mget in
        mret (state_ p)
  end.

Definition extractResult (p : Parser) : HttpParseResult HttpRequest :=
  match state_ p with
  | Error => ParseError (error_ p)
  | _ => Parsed (data_ p)
  end.

(** Feed lines one after the other. *)
Fixpoint feedLines (lines : list bytes) : M Parser HttpParserState :=
  match lines with
  | [] => let* p := mget in mret (state_ p)
  | l :: lines' => let* _ := feedLine l in feedLines lines'
  end.
End parser.

Definition example_lines : list bytes :=
  [str "GET /a%20b/c?x=1&y=%2B HTTP/1.1"; str "Host: example.com"; str "Cookie: a=1; b = 2 ";
   str "bad header"; str "Content-Length: 5"; []].

Example request_feed_example :
  let '(o, p) := feedLines initRegistry example_lines newParser in
  o = Ok HeaderComplete /\ path (data_ p) = str "/a b/c" /\ contentLength (data_ p) = 5
  /\ queries (data_ p) = [(str "x", str "1"); (str "y", str "+")]
  /\ cookies (data_ p) = [(str "a", str "1"); (str "b", str "2")].
Proof. vm_compute. repeat split. Qed.

End Request.

(** ** [HttpParser<HttpResponse>] *)

Module Response.

Record Parser : Type := mkParser {
  data_ : HttpResponse;
  state_ : HttpParserState;
  error_ : HttpParseError
}.

Definition newParser : Parser :=
  mkParser newResponse ExpectStatusLine (mkParseError MalformedRequestLine []).

Definition set_data (d : HttpResponse) (p : Parser) : Parser := mkParser d (state_ p) (error_ p).
Definition set_state (s : HttpParserState) (p : Parser) : Parser :=
  mkParser (data_ p) s (error_ p).

Definition set_version (v : Version) (d : HttpResponse) : HttpResponse :=
  mkResponse v (r_statusCode d) (r_statusReason d) (r_headers d) (r_cookies d)
    (r_transferMode d) (r_contentLength d) (r_shouldClose d).
Definition set_statusCode (c : Z) (d : HttpResponse) : HttpResponse :=
  mkResponse (r_version d) c (r_statusReason d) (r_headers d) (r_cookies d)
    (r_transferMode d) (r_contentLength d) (r_shouldClose d).
Definition set_statusReason (r : bytes) (d : HttpResponse) : HttpResponse :=
  mkResponse (r_version d) (r_statusCode d) r (r_headers d) (r_cookies d)
    (r_transferMode d) (r_contentLength d) (r_shouldClose d).
Definition set_headers (h : HttpHeaderMap) (d : HttpResponse) : HttpResponse :=
  mkResponse (r_version d) (r_statusCode d) (r_statusReason d) h (r_cookies d)
    (r_transferMode d) (r_contentLength d) (r_shouldClose d).
Definition add_cookie (c : Cookie) (d : HttpResponse) : HttpResponse :=
  mkResponse (r_version d) (r_statusCode d) (r_statusReason d) (r_headers d) (r_cookies d ++ [c])
    (r_transferMode d) (r_contentLength d) (r_shouldClose d).
Definition set_transfer (m : TransferMode) (len : Z) (d : HttpResponse) : HttpResponse :=
  mkResponse (r_version d) (r_statusCode d) (r_statusReason d) (r_headers d) (r_cookies d)
    m len (r_shouldClose d).
Definition set_shouldClose (b : bool) (d : HttpResponse) : HttpResponse :=
  mkResponse (r_version d) (r_statusCode d) (r_statusReason d) (r_headers d) (r_cookies d)
    (r_transferMode d) (r_contentLength d) b.

Definition setError (c : ErrorCode) (msg : bytes) : M Parser unit := fun p =>
  (Ok tt, mkParser (data_ p) Error (mkParseError c msg)).

Definition modify (f : HttpResponse -> HttpResponse) : M Parser unit := fun p =>
  (Ok tt, set_data (f (data_ p)) p).

(** The parsed [int] is narrowed to 16 bits before it is checked. *)
Definition parseStatusLine (line : bytes) : M Parser bool :=
  let sp1 := sv_find line x20 0 in
  if sp1 =? npos then
    let* _ := setError MalformedRequestLine (str "Invalid status line") in mret false
  else
    let* versionStr := mlift (sv_substr line 0 sp1) in
    let v := parseHttpVersion versionStr in
    let* _ := modify (set_version v) in
    if decide (v = kUnknown) then
      let* _ := setError MalformedRequestLine (str "Invalid HTTP version") in mret false
    else
      let sp2 := sv_find line x20 (sp1 + 1) in
      let* (codeStr, reason) :=
        (if sp2 =? npos then
           let* codeStr := mlift (sv_substr line (sp1 + 1) npos) in
           mret (codeStr, [])
         else
           let* codeStr := mlift (sv_substr line (sp1 + 1) (u64 (u64 (sp2 - sp1) - 1))) in
           let* reason := mlift (sv_substr line (sp2 + 1) npos) in
           mret (codeStr, reason)) in
      match stoi codeStr with
      | Ok n =>
          let statusCode := u16 n in
          let* _ := modify (set_statusCode statusCode) in
          if (statusCode <? 100) || (999 <? statusCode) then
            let* _ := setError MalformedRequestLine (str "Invalid status code") in mret false
          else
            let* _ := modify (set_statusReason reason) in
            mret true
      | _ => let* _ := setError MalformedRequestLine (str "Invalid status code") in mret false
      end.

(** [parseCookies] of a [Set-Cookie] value. *)
Definition parseCookies (cookieHeader : bytes) : M Parser unit :=
  let* cookie := mlift (fromString cookieHeader) in
  if decide (c_name cookie = []) then mret tt else modify (add_cookie cookie).

Definition parseHeader (line : bytes) : M Parser unit :=
  let* (name, value) := mlift (parseHeaderLine line) in
  if bool_decide (name = []) || negb (isValidToken name) then mret tt
  else
    let header := newHeader name value in
    if decide (nameCode_ header = NC_SetCookie) then parseCookies value
    else modify (fun d => set_headers (om_emplace (name_ header) header (r_headers d)) d).

Definition processTransferMode : M Parser bool :=
  let* p := mget in
  match transferDecision (r_headers (data_ p)) with
  | Decided mode (Some n) => let* _ := modify (set_transfer mode n) in mret true
  | Decided mode None =>
      let* _ := modify (fun d => set_transfer mode (r_contentLength d) d) in mret true
  | BadEncoding value =>
      let* _ := setError UnsupportedTransferEncoding
                  (str "Unsupported Transfer-Encoding: " ++ value) in
      mret false
  | BadLength =>
      let* _ := setError AmbiguousContentLength (str "Invalid content length") in mret false
  | NoLength => let* _ := modify (fun d => set_transfer UntilClose (r_contentLength d) d) in mret true
  end.

Definition processConnectionClose : M Parser bool :=
  let* _ := modify (fun d =>
    set_shouldClose
      (match om_find (str "connection") (r_headers d) with
       | Some h => bool_decide (toLower (value_ h) = str "close")
       | None => bool_decide (r_version d = kHttp10)
       end) d) in
  mret true.

Definition processHeaders : M Parser bool :=
  let* ok := processTransferMode in
  if ok then processConnectionClose else mret false.

Definition feedLine (line : bytes) : M Parser HttpParserState :=
  let* p := mget in
  match state_ p with
  | Error => mret Error
  | ExpectStatusLine =>
      let* ok := parseStatusLine line in
      if ok then
        let* p := mget in
        let* _ := mput (set_state ExpectHeader p) in
        mret ExpectHeader
      else mret Error
  | _ =>
      if decide (line = []) then
        let* ok := processHeaders in
        if ok then
          let* p := mget in
          let* _ := mput (set_state HeaderComplete p) in
          mret HeaderComplete
        else mret Error
      else
        let* _ := parseHeader line in
        let* p := mget in
        mret (state_ p)
  end.

Definition extractResult (p : Parser) : HttpParseResult HttpResponse :=
  match state_ p with
  | Error => ParseError (error_ p)
  | _ => Parsed (data_ p)
  end.

Fixpoint feedLines (lines : list bytes) : M Parser HttpParserState :=
  match lines with
  | [] => let* p := mget in mret (state_ p)
  | l :: lines' => let* _ := feedLine l in feedLines lines'
  end.

Example response_feed_example :
  let '(o, p) := feedLines [str "HTTP/1.1 404 Not Found"; str "Content-Length: 3";
                            str "Set-Cookie: a=1; Path=/"; []] newParser in
  o = Ok HeaderComplete /\ r_statusCode (data_ p) = 404 /\ r_statusReason (data_ p) = str "Not Found"
  /\ r_contentLength (data_ p) = 3 /\ r_shouldClose (data_ p) = false
  /\ r_cookies (data_ p) = [mkCookie (str "a") (str "1") [] (str "/") [] (-1) Unset false false].
Proof. vm_compute. repeat split. Qed.

(** A status beyond 16 bits is narrowed into the range that is accepted. *)
Example status_wraps :
  r_statusCode (data_ (snd (feedLine (str "HTTP/1.1 65736 OK") newParser))) = 200.
Proof. by vm_compute. Qed.

End Response.

(** ** Lemmas on header lines *)

Lemma u64_range (z : Z) : 0 <= u64 z < 2 ^ 64.
Proof. apply Z.mod_pos_bound. lia. Qed.

Lemma parseHeaderLine_total (line : bytes) :
  size line < npos -> exists r, parseHeaderLine line = Ok r.
Proof.
  intros Hl. unfold parseHeaderLine. destruct (sv_find line x3a 0 =? npos); [eauto |].
  unfold sv_find_first_not_of.
  set (P := fun b => negb (Byte.eqb x20 b)). set (vpos := u64 (sv_find line x3a 0 + 1)).
  destruct (sv_find_if_cases P line 0 ltac:(lia) Hl) as [-> | Hn]; [by eauto |].
  destruct (Z.eqb_spec (sv_find_if P line 0) npos); [by eauto |].
  edestruct (sv_substr_total line (sv_find_if P line 0)) as [name ->]; [lia |]. cbn [obind].
  destruct (sv_find_if_cases P line vpos (proj1 (u64_range _)) Hl) as [-> | Hv];
    [by cbn; eauto |].
  destruct (Z.eqb_spec (sv_find_if P line vpos) npos); [by cbn [obind]; eauto |].
  edestruct (sv_substr_total line (sv_find_if P line vpos)) as [value ->];
    [pose proof (u64_range (sv_find line x3a 0 + 1)); lia |].
  cbn [obind]. eauto.
Qed.

(** A name of a header line: neither a colon nor a blank in it. *)
Definition plain_name (name : bytes) : Prop :=
  name <> [] /\ Forall (fun b => Byte.eqb x3a b = false /\ Byte.eqb x20 b = false) name.

Lemma token_plain (name : bytes) : isValidToken name = true -> plain_name name.
Proof.
  destruct name as [| b name]; [done |]. intros H. split; [done |]. cbn [isValidToken] in H.
  rewrite forallb_forall in H. apply List.Forall_forall. intros c Hc.
  specialize (H c Hc). clear Hc. revert c H.
  apply (byte_forall_dec (fun c => isTokenChar c = true ->
    Byte.eqb x3a c = false /\ Byte.eqb x20 c = false)). by vm_compute.
Qed.

Lemma parseHeaderLine_render (name a value : bytes) :
  plain_name name -> blanks a -> trimmed value = true ->
  size (name ++ x3a :: a ++ value) < npos ->
  parseHeaderLine (name ++ x3a :: a ++ value) = Ok (name, value).
Proof.
  intros [Hne Hname] Ha Hv Hs. set (line := name ++ x3a :: a ++ value) in *.
  assert (Hcolon : sv_find line x3a 0 = size name).
  { apply (sv_find_if_app _ [] name x3a (a ++ value)); [| done].
    eapply Forall_impl; [exact Hname |]. by intros b []. }
  assert (Hsz : size line = size name + 1 + size a + size value)
    by (unfold line; rewrite size_app, size_cons, size_app; lia).
  pose proof (size_nonneg a). pose proof (size_nonneg value). pose proof (size_nonneg name).
  unfold parseHeaderLine. rewrite Hcolon.
  destruct (Z.eqb_spec (size name) npos); [lia |].
  assert (Hfirst : sv_find_first_not_of line x20 0 = 0).
  { destruct name as [| b name']; [done |]. apply Forall_cons in Hname as [[_ Hb] _].
    apply (sv_find_if_app (fun b => negb (Byte.eqb x20 b)) [] [] b (name' ++ x3a :: a ++ value));
      [constructor | by rewrite Hb]. }
  assert (Hlast : sv_find_last_not_of line x20 (u64 (size name - 1)) = size name - 1).
  { destruct (exists_last Hne) as (p & c & Hp). pose proof (f_equal size Hp) as Hsp.
    rewrite size_app in Hsp. change (size [c]) with 1 in Hsp. pose proof (size_nonneg p).
    unfold u64. unfold npos in *. rewrite Z.mod_small by lia. unfold line. rewrite Hp.
    rewrite Hp in Hname. apply Forall_app in Hname as [_ Hc].
    apply Forall_cons in Hc as [[_ Hc] _].
    rewrite <- app_assoc. unfold sv_find_last_not_of.
    rewrite (sv_rfind_if_app _ p c [] (x3a :: a ++ value)); [| by rewrite Hc | constructor |].
    - rewrite size_app. change (size [c]) with 1. lia.
    - left. lia. }
  rewrite Hfirst, Hlast. unfold npos in *. cbn [Z.eqb].
  assert (Hn1 : u64 (u64 (size name - 1 - 0) + 1) = size name).
  { pose proof Hne. destruct name as [| b name']; [done |]. rewrite size_cons in *.
    pose proof (size_nonneg name'). unfold u64. rewrite (Z.mod_small (1 + size name' - 1 - 0)) by lia.
    rewrite Z.mod_small by lia. lia. }
  rewrite Hn1. change (0 =? 2 ^ 64 - 1) with false. cbv iota.
  replace (sv_substr line 0 (size name)) with (Ok name)
    by (symmetry; exact (sv_substr_mid [] name (x3a :: a ++ value) (size name) eq_refl)).
  assert (Hu : u64 (size name + 1) = size name + 1) by (apply Z.mod_small; lia).
  cbn [obind]. rewrite Hu.
  assert (Hline : line = (name ++ [x3a]) ++ a ++ value ++ [])
    by (unfold line; rewrite app_nil_r, <- app_assoc; done).
  assert (Hp : size name + 1 = size (name ++ [x3a])) by (by rewrite size_app).
  rewrite Hp. destruct value as [| b value].
  - assert (Hnone : sv_find_first_not_of line x20 (size (name ++ [x3a])) = 2 ^ 64 - 1).
    { rewrite Hline. apply sv_find_if_none. by rewrite app_nil_r. }
    rewrite Hnone. done.
  - destruct (between_blanks (name ++ [x3a]) a (b :: value) [] Ha (List.Forall_nil _) ltac:(done) Hv)
      as (Hf & Hb & Hsub); [rewrite <- Hline; unfold npos; lia |].
    rewrite Hline, Hf. destruct (Z.eqb_spec (size (name ++ [x3a]) + size a) (2 ^ 64 - 1)).
    { rewrite <- Hp in *. rewrite size_cons in *. pose proof (size_nonneg value). lia. }
    unfold npos in Hb. rewrite Hb, Hsub. done.
Qed.

(** ** The request parser never fails *)

Module RequestLemmas.
Import Request.

Lemma sv_find_bounds (s : bytes) (c : byte) (pos : Z) :
  0 <= pos -> size s < npos ->
  sv_find s c pos = npos \/ (sv_find s c pos <> npos /\ pos <= sv_find s c pos < size s).
Proof.
  intros Hp Hs. destruct (sv_find_if_cases (Byte.eqb c) s pos Hp Hs) as [? | H]; [by left |].
  right. unfold sv_find. split; [lia | done].
Qed.

Lemma sv_substr_ok (s : bytes) (pos n : Z) :
  0 <= pos <= size s -> exists r, sv_substr s pos n = Ok r /\ size r <= size s.
Proof.
  intros H. unfold sv_substr. destruct (Z.ltb_spec (size s) pos); [lia |].
  eexists. split; [done |]. unfold size. rewrite length_take, length_drop. lia.
Qed.

Lemma queryPart_total (part : bytes) (qs : ordmap bytes) :
  size part < npos -> exists qs', queryPart part qs = Ok qs'.
Proof.
  intros Hs. unfold queryPart.
  destruct (sv_find_bounds part x3d 0 ltac:(lia) Hs) as [-> | [Hne Hp]]; [by eauto |].
  destruct (Z.eqb_spec (sv_find part x3d 0) npos); [done |].
  destruct (sv_substr_ok part 0 (sv_find part x3d 0)) as (k & -> & _); [lia |].
  destruct (sv_substr_ok part (sv_find part x3d 0 + 1) npos) as (v & Hv & _); [lia |].
  cbn [obind]. rewrite Hv. cbn [obind]. eauto.
Qed.

Lemma cookiePart_total (part : bytes) (cs : ordmap bytes) :
  size part < npos -> exists cs', cookiePart part cs = Ok cs'.
Proof.
  intros Hs. unfold cookiePart.
  destruct (sv_find_bounds part x3d 0 ltac:(lia) Hs) as [-> | [Hne Hp]]; [by eauto |].
  destruct (Z.eqb_spec (sv_find part x3d 0) npos); [done |].
  destruct (sv_substr_ok part 0 (sv_find part x3d 0)) as (k & -> & Hk); [lia |].
  destruct (sv_substr_ok part (sv_find part x3d 0 + 1) npos) as (v & Hv & Hvs); [lia |].
  cbn [obind]. destruct (trim_total k) as (name & -> & _); [lia |].
  cbn [obind]. rewrite Hv. cbn [obind]. destruct (trim_total v) as (value & -> & _); [lia |].
  cbn [obind]. case_decide; eauto.
Qed.

Lemma forEachPart_total {A : Type} (delim : byte) (body : bytes -> A -> outcome A)
    (s : bytes) (acc : A) :
  (forall part acc, size part < npos -> exists acc', body part acc = Ok acc') ->
  size s < npos -> exists acc', forEachPart delim body s acc = Ok acc'.
Proof.
  intros Hbody Hs. rewrite forEachPart_parts by done. apply foldParts_ok; [| lia].
  intros part a Hp. apply Hbody. lia.
Qed.

Lemma parseQueryString_total (s : bytes) (qs : ordmap bytes) :
  size s < npos -> exists qs', parseQueryString s qs = Ok qs'.
Proof. by apply forEachPart_total, queryPart_total. Qed.

Lemma parseCookies_total (s : bytes) (cs : ordmap bytes) :
  size s < npos -> exists cs', parseCookies s cs = Ok cs'.
Proof. by apply forEachPart_total, cookiePart_total. Qed.

Lemma runs_modify (f : HttpRequest -> HttpRequest) (p : Parser) (Q : unit -> Parser -> Prop) :
  Q tt (set_data (f (data_ p)) p) -> runs (modify f) p Q.
Proof. intros HQ. by eexists _, _. Qed.

Lemma runs_setError (c : ErrorCode) (msg : bytes) (p : Parser) (Q : unit -> Parser -> Prop) :
  Q tt (mkParser (data_ p) Error (mkParseError c msg)) -> runs (setError c msg) p Q.
Proof. intros HQ. by eexists _, _. Qed.

Ltac step := first [run_step | apply runs_modify | apply runs_setError].

Lemma parseRequestLine_total (reg : MethodRegistry) (line : bytes) (p : Parser) :
  size line < npos ->
  runs (parseRequestLine reg line) p (fun ok p' =>
    if ok then state_ p' = state_ p /\ error_ p' = error_ p else state_ p' = Error).
Proof.
  intros Hs. unfold parseRequestLine.
  destruct (sv_find_bounds line x20 0 ltac:(lia) Hs) as [-> | [Hne1 Hp1]];
    [change (npos =? npos) with true; cbv iota; by repeat step |].
  destruct (Z.eqb_spec (sv_find line x20 0) npos) as [| _]; [done |].
  set (pos1 := sv_find line x20 0) in *.
  destruct (sv_find_bounds line x20 (pos1 + 1) ltac:(lia) Hs) as [-> | [Hne2 Hp2]];
    [change (npos =? npos) with true; cbv iota; by repeat step |].
  set (pos2 := sv_find line x20 (pos1 + 1)) in *.
  destruct (Z.eqb_spec pos2 npos) as [| _]; [done |].
  destruct (sv_substr_ok line 0 pos1) as (m & Hm & _); [lia |].
  destruct (sv_substr_ok line (pos2 + 1) npos) as (v & Hv & _); [lia |].
  destruct (sv_substr_ok line (pos1 + 1) (u64 (u64 (pos2 - pos1) - 1))) as (full & Hfull & Hfs);
    [lia |].
  step. eapply runs_lift; [exact Hm |]. step. eapply runs_lift; [exact Hv |].
  repeat step; [done .. |].
  eapply runs_lift; [exact Hfull |].
  assert (Hraw : exists raw, sv_substr full 0 (sv_find full x3f 0) = Ok raw).
  { destruct (sv_substr_ok full 0 (sv_find full x3f 0)) as (raw & ? & _);
      [pose proof (size_nonneg full); lia | by eauto]. }
  destruct Hraw as [raw Hraw]. step. eapply runs_lift; [exact Hraw |]. step. step.
  destruct (sv_find_bounds full x3f 0 ltac:(lia) ltac:(lia)) as [-> | [Hne3 Hp3]];
    [change (npos =? npos) with true; cbv iota; by repeat step |].
  destruct (Z.eqb_spec (sv_find full x3f 0) npos) as [| _]; [done |].
  destruct (sv_substr_ok full (sv_find full x3f 0 + 1) npos) as (q & Hq & Hqs); [lia |].
  step. eapply runs_lift; [exact Hq |]. step. step. step.
  edestruct (parseQueryString_total q) as [qs Hqs']; [lia |].
  eapply runs_lift; [exact Hqs' |]. by repeat step.
Qed.

Lemma parseHeaderLine_size (line name value : bytes) :
  size line < npos -> parseHeaderLine line = Ok (name, value) -> size value <= size line.
Proof.
  intros Hl. pose proof (size_nonneg line). unfold parseHeaderLine.
  set (P := sv_find_first_not_of line x20 (u64 (sv_find line x3a 0 + 1))).
  destruct (_ =? npos); [intros [= _ <-]; rewrite size_nil; lia |].
  destruct (_ =? npos); [intros [= _ <-]; rewrite size_nil; lia |].
  intros H1. apply obind_ok in H1 as (n & _ & H1). apply obind_ok in H1 as (v & Hv & [= _ <-]).
  destruct (P =? npos); [by simplify_eq |].
  unfold sv_substr in Hv. destruct (size line <? P); simplify_eq.
  unfold size. rewrite length_take, length_drop. lia.
Qed.

Lemma parseHeader_total (line : bytes) (p : Parser) :
  size line < npos ->
  runs (parseHeader line) p (fun _ p' =>
    (state_ p' = state_ p /\ error_ p' = error_ p) \/ state_ p' = Error).
Proof.
  intros Hs. unfold parseHeader.
  destruct (parseHeaderLine_total line Hs) as ([name value] & Hl).
  pose proof (parseHeaderLine_size line name value Hs Hl) as Hvs.
  step. eapply runs_lift; [exact Hl |]. cbn beta iota.
  destruct (bool_decide (name = []) || negb (isValidToken name)); [step; by left |].
  step. step. case_decide.
  - step. edestruct (parseCookies_total value) as [cs Hcs]; [lia |].
    eapply runs_lift; [exact Hcs |]. step. by left.
  - step. step. repeat step; try (by left); by right.
Qed.

Lemma processHeaders_total (p : Parser) :
  runs processHeaders p (fun ok p' =>
    if ok then state_ p' = state_ p /\ error_ p' = error_ p else state_ p' = Error).
Proof.
  unfold processHeaders, processTransferMode, processKeepAlive. step. step. step.
  destruct (transferDecision _) as [mode [n |] | | |]; by repeat step.
Qed.

(** What one line does to the state. *)
Definition steps (line : bytes) (before : HttpParserState) (e : HttpParseError)
    (s after : HttpParserState) (e' : HttpParseError) : Prop :=
  s = after
  /\ match before with
     | Error => after = Error /\ e' = e
     | ExpectStatusLine => s = ExpectHeader \/ s = Error
     | _ => s = (if decide (line = []) then HeaderComplete else before) \/ s = Error
     end
  /\ (s <> Error -> e' = e).

Lemma feedLine_runs (reg : MethodRegistry) (line : bytes) (p : Parser) :
  size line < npos ->
  runs (feedLine reg line) p (fun s p' => steps line (state_ p) (error_ p) s (state_ p') (error_ p')
    /\ (state_ p = Error -> p' = p)).
Proof.
  intros Hs. unfold feedLine. run_step. run_step. unfold steps.
  destruct (state_ p) eqn:Hst.
  - run_step. eapply runs_mono; [by apply parseRequestLine_total |].
    intros [|] p' Hp'; [destruct Hp' as [Hs1 He1] |]; repeat run_step;
      cbn [state_ error_ set_state]; naive_solver.
  - case_decide.
    + run_step. eapply runs_mono; [apply processHeaders_total |].
      intros [|] p' Hp'; [destruct Hp' as [Hs1 He1] |]; repeat run_step;
        cbn [state_ error_ set_state]; naive_solver.
    + run_step. eapply runs_mono; [by apply parseHeader_total |].
      intros [] p' [[Hs1 He1] | Hs1]; repeat run_step; rewrite ?Hs1, ?Hst; naive_solver.
  - case_decide.
    + run_step. eapply runs_mono; [apply processHeaders_total |].
      intros [|] p' Hp'; [destruct Hp' as [Hs1 He1] |]; repeat run_step;
        cbn [state_ error_ set_state]; naive_solver.
    + run_step. eapply runs_mono; [by apply parseHeader_total |].
      intros [] p' [[Hs1 He1] | Hs1]; repeat run_step; rewrite ?Hs1, ?Hst; naive_solver.
  - run_step. by rewrite Hst.
Qed.
End RequestLemmas.

(** ** The response parser never fails *)

Module ResponseLemmas.
Import Response.
Import RequestLemmas (sv_find_bounds, sv_substr_ok, parseHeaderLine_size, steps).

Lemma applyAttribute_total (part : bytes) (c : Cookie) :
  size part < npos -> exists c', applyAttribute part c = Ok c'.
Proof.
  intros Hs. unfold applyAttribute. destruct (trim_total part Hs) as (token & -> & Ht).
  cbn [obind]. repeat case_decide; try (by eauto).
  destruct (sv_find_bounds token x3d 0 ltac:(lia) ltac:(lia)) as [-> | [Hne Hp]]; [by eauto |].
  destruct (Z.eqb_spec (sv_find token x3d 0) npos); [done |].
  destruct (sv_substr_ok token 0 (sv_find token x3d 0)) as (k & -> & Hk); [lia |].
  destruct (sv_substr_ok token (sv_find token x3d 0 + 1) npos) as (v & Hv & Hvs); [lia |].
  cbn [obind]. destruct (trim_total k) as (name & -> & _); [lia |]. cbn [obind].
  rewrite Hv. cbn [obind]. destruct (trim_total v) as (value & -> & _); [lia |]. cbn [obind].
  repeat case_decide; try (by eauto). destruct (stoi value); eauto.
Qed.

(** The loop from any position of the text. *)
Lemma splitLoop_total {A : Type} (delim : byte) (body : bytes -> A -> outcome A)
    (fuel : nat) (s : bytes) (start : Z) (acc : A) :
  (forall part acc, size part < npos -> exists acc', body part acc = Ok acc') ->
  size s < npos -> (length s < fuel)%nat -> 0 <= start ->
  exists acc', splitLoop delim body fuel s start acc = Ok acc'.
Proof.
  intros Hb Hs Hf Hst. destruct (Z.lt_ge_cases start (size s)) as [Hlt | Hge].
  - assert (Hp : start = size (take (Z.to_nat start) s))
      by (unfold size in *; rewrite length_take; lia).
    pose proof (splitLoop_parts delim body fuel (take (Z.to_nat start) s)
      (drop (Z.to_nat start) s) acc) as Heq.
    rewrite take_drop, <- Hp in Heq. rewrite Heq by (rewrite ?length_drop; lia).
    apply foldParts_ok; [| rewrite length_drop; lia].
    intros part a Hsz. apply Hb. unfold size in *. rewrite length_drop in Hsz. lia.
  - destruct fuel; [lia |]. cbn [splitLoop]. destruct (Z.ltb_spec start (size s)); [lia |]. eauto.
Qed.

Lemma fromString_total (raw : bytes) : size raw < npos -> exists c, fromString raw = Ok c.
Proof.
  intros Hs. unfold fromString. pose proof (size_nonneg raw).
  destruct (sv_substr_ok raw 0 (sv_find raw x3b 0)) as (f & -> & Hf); [lia |]. cbn [obind].
  destruct (trim_total f) as (first & -> & Hfs); [lia |]. cbn [obind].
  destruct (sv_find_bounds first x3d 0 ltac:(lia) ltac:(lia)) as [-> | [Hne Hp]]; [by eauto |].
  destruct (Z.eqb_spec (sv_find first x3d 0) npos); [done |].
  destruct (sv_substr_ok first 0 (sv_find first x3d 0)) as (k & -> & Hk); [lia |].
  destruct (sv_substr_ok first (sv_find first x3d 0 + 1) npos) as (v & Hv & Hvs); [lia |].
  cbn [obind]. destruct (trim_total k) as (name & -> & _); [lia |]. cbn [obind].
  rewrite Hv. cbn [obind]. destruct (trim_total v) as (value & -> & _); [lia |]. cbn [obind].
  case_decide; [by eauto |]. apply splitLoop_total; [apply applyAttribute_total | done | lia |].
  destruct (Z.eqb_spec (sv_find raw x3b 0) npos) as [| Hn]; [lia |].
  destruct (sv_find_bounds raw x3b 0 ltac:(lia) Hs) as [? | [_ ?]]; [done | lia].
Qed.

Lemma response_runs_modify (f : HttpResponse -> HttpResponse) (p : Parser) (Q : unit -> Parser -> Prop) :
  Q tt (set_data (f (data_ p)) p) -> runs (modify f) p Q.
Proof. intros HQ. by eexists _, _. Qed.

Lemma response_runs_setError (c : ErrorCode) (msg : bytes) (p : Parser) (Q : unit -> Parser -> Prop) :
  Q tt (mkParser (data_ p) Error (mkParseError c msg)) -> runs (setError c msg) p Q.
Proof. intros HQ. by eexists _, _. Qed.

Ltac step := first [run_step | apply response_runs_modify | apply response_runs_setError].

Lemma parseStatusLine_total (line : bytes) (p : Parser) :
  size line < npos ->
  runs (parseStatusLine line) p (fun ok p' =>
    if ok then state_ p' = state_ p /\ error_ p' = error_ p else state_ p' = Error).
Proof.
  intros Hs. unfold parseStatusLine.
  destruct (sv_find_bounds line x20 0 ltac:(lia) Hs) as [-> | [Hne1 Hp1]];
    [change (npos =? npos) with true; cbv iota; by repeat step |].
  destruct (Z.eqb_spec (sv_find line x20 0) npos) as [| _]; [done |].
  set (sp1 := sv_find line x20 0) in *.
  destruct (sv_substr_ok line 0 sp1) as (m & Hm & _); [lia |].
  destruct (sv_substr_ok line (sp1 + 1) npos) as (v & Hv & _); [lia |].
  destruct (sv_substr_ok line (sp1 + 1) (u64 (u64 (sv_find line x20 (sp1 + 1) - sp1) - 1)))
    as (cs & Hcs & _); [lia |].
  step. eapply runs_lift; [exact Hm |]. step. step. case_decide; [by repeat step |].
  step. destruct (sv_find_bounds line x20 (sp1 + 1) ltac:(lia) Hs) as [Hn | [Hne2 Hp2]].
  - rewrite Hn. change (npos =? npos) with true. cbv iota. step.
    eapply runs_lift; [exact Hv |]. step. destruct (stoi v); by repeat step.
  - destruct (Z.eqb_spec (sv_find line x20 (sp1 + 1)) npos) as [| _]; [done |].
    destruct (sv_substr_ok line (sv_find line x20 (sp1 + 1) + 1) npos) as (r & Hr & _); [lia |].
    step. eapply runs_lift; [exact Hcs |]. step. eapply runs_lift; [exact Hr |]. step.
    destruct (stoi cs); by repeat step.
Qed.

Lemma response_parseHeader_total (line : bytes) (p : Parser) :
  size line < npos ->
  runs (parseHeader line) p (fun _ p' => state_ p' = state_ p /\ error_ p' = error_ p).
Proof.
  intros Hs. unfold parseHeader.
  destruct (parseHeaderLine_total line Hs) as ([name value] & Hl).
  pose proof (parseHeaderLine_size line name value Hs Hl) as Hvs.
  step. eapply runs_lift; [exact Hl |]. cbn beta iota.
  destruct (bool_decide (name = []) || negb (isValidToken name)); [by step |].
  case_decide; [| by step]. unfold parseCookies.
  destruct (fromString_total value) as [c Hc]; [lia |].
  step. eapply runs_lift; [exact Hc |]. case_decide; by step.
Qed.

Lemma response_processHeaders_total (p : Parser) :
  runs processHeaders p (fun ok p' =>
    if ok then state_ p' = state_ p /\ error_ p' = error_ p else state_ p' = Error).
Proof.
  unfold processHeaders, processTransferMode, processConnectionClose. step. step. step.
  destruct (transferDecision _) as [mode [n |] | | |]; by repeat step.
Qed.

Lemma response_feedLine_runs (line : bytes) (p : Parser) :
  size line < npos ->
  runs (feedLine line) p (fun s p' => steps line (state_ p) (error_ p) s (state_ p') (error_ p')
    /\ (state_ p = Error -> p' = p)).
Proof.
  intros Hs. unfold feedLine. run_step. run_step. unfold steps.
  destruct (state_ p) eqn:Hst.
  - run_step. eapply runs_mono; [by apply parseStatusLine_total |].
    intros [|] p' Hp'; [destruct Hp' as [Hs1 He1] |]; repeat run_step;
      cbn [state_ error_ set_state]; naive_solver.
  - case_decide.
    + run_step. eapply runs_mono; [apply response_processHeaders_total |].
      intros [|] p' Hp'; [destruct Hp' as [Hs1 He1] |]; repeat run_step;
        cbn [state_ error_ set_state]; naive_solver.
    + run_step. eapply runs_mono; [by apply response_parseHeader_total |].
      intros [] p' [Hs1 He1]; repeat run_step; rewrite ?Hs1, ?Hst; naive_solver.
  - case_decide.
    + run_step. eapply runs_mono; [apply response_processHeaders_total |].
      intros [|] p' Hp'; [destruct Hp' as [Hs1 He1] |]; repeat run_step;
        cbn [state_ error_ set_state]; naive_solver.
    + run_step. eapply runs_mono; [by apply response_parseHeader_total |].
      intros [] p' [Hs1 He1]; repeat run_step; rewrite ?Hs1, ?Hst; naive_solver.
  - run_step. by rewrite Hst.
Qed.
End ResponseLemmas.

(** ** Properties *)

(** C37: the request parser is total and its states are ordered.  Whatever
    line it is fed, in whatever state, [feedLine] returns (it neither throws
    nor leaves the line's bounds) the state it is in afterwards.  An error is
    final and keeps what was recorded; the first line leads to the headers;
    a line that is not empty keeps the state, an empty one completes the
    headers, and any of them may end in an error instead. *)
Theorem request_parser_steps (reg : MethodRegistry) (line : bytes) (p : Request.Parser) :
  size line < npos ->
  exists s p', Request.feedLine reg line p = (Ok s, p') /\ s = Request.state_ p'
    /\ match Request.state_ p with
       | Error => p' = p
       | ExpectStatusLine => s = ExpectHeader \/ s = Error
       | _ => s = (if decide (line = []) then HeaderComplete else Request.state_ p) \/ s = Error
       end
    /\ (s <> Error -> Request.error_ p' = Request.error_ p).
Proof.
  intros Hs. destruct (RequestLemmas.feedLine_runs reg line p Hs)
    as (s & p' & H & (Heq & Hst & Herr) & Hfix).
  exists s, p'. split; [done |]. split; [done |]. split; [| done].
  destruct (Request.state_ p); auto.
Qed.

Lemma request_parser_steps_witness :
  exists s p',
    Request.feedLine initRegistry (str "GET / HTTP/1.1") Request.newParser = (Ok s, p')
    /\ s = Request.state_ p' /\ (s = ExpectHeader \/ s = Error)
    /\ (s <> Error -> Request.error_ p' = Request.error_ Request.newParser).
Proof.
  exact (request_parser_steps initRegistry (str "GET / HTTP/1.1") Request.newParser
           ltac:(by vm_compute)).
Defined.
