(* ===== verification/HttpHead.v ===== *)
(** Reading the head of a message from a connection, line by line:
    [parseNext] of src/extensions/http/src/HttpServer.cc, which limits what a
    client may send, and [parseResponse] of
    src/extensions/http/src/HttpClient.cc, which does not. *)

From Stdlib Require Import ZArith Lia String Strings.Byte.
From stdpp Require Import base numbers option list gmap.
From S2P Require Import Prelude CxxStd ByteStream StringBuffer Conn OrdMap HttpTypes HttpParser.
Open Scope Z_scope.

(** ** The interface of a line parser *)

(** What the loops need of [HttpParser<T>]: feeding a line of a size that
    exists never fails and returns the state the parser is left in. *)
Class LineParser (P T : Type) : Type := {
  lp_feed : bytes -> M P HttpParserState;
  lp_extract : P -> HttpParseResult T;
  lp_state : P -> HttpParserState;
  lp_feed_ok (line : bytes) (p : P) :
    size line < npos -> exists p', lp_feed line p = (Ok (lp_state p'), p')
}.

(** ** The loop *)

Definition kMaxHeaderCount : Z := 128.
Definition kMaxHeaderLineSize : Z := 8192.

Section read_head.
Context {S P T : Type} `{!ByteStream S, !LineParser P T}.

(** [limited] tells the server's loop from the client's. *)
Fixpoint readHeadLoop (limited : bool) (fuel : nat) (lines : Z) (p : P)
  : M (conn S) (HttpParseResult T) :=
  match fuel with
  | O => mlift Diverge
  | Datatypes.S fuel' =>
      let* c := mget in
      let* pos := mlift (find CRLF (buf c)) in
      if pos =? npos then
        if limited && (kMaxHeaderLineSize <? Z.of_nat (remainSize (buf c))) then
          mret (ParseError (mkParseError MalformedRequestLine (str "Header line too long")))
        else
          let* n := fill 4096 in
          if (n =? 0)%nat then mret Disconnected else readHeadLoop limited fuel' lines p
      else if limited && (kMaxHeaderCount <? lines + 1) then
        mret (ParseError (mkParseError MalformedRequestLine (str "Too many headers")))
      else
        let* v := mlift (view (buf c)) in
        let* line := mlift (sv_substr v 0 pos) in
        let '(o, p') := lp_feed line p in
        let* state := mlift o in
        let* _ := consumeM (Z.to_nat (pos + 2)) in
        match state with
        | Error | HeaderComplete => mret (lp_extract p')
        | _ => readHeadLoop limited fuel' (lines + 1) p'
        end
  end.

(** Every round takes a byte from the stream or two from the buffer. *)
Definition readHead (limited : bool) (p : P) : M (conn S) (HttpParseResult T) := fun c =>
  readHeadLoop limited (2 * length (pending (strm c)) + remainSize (buf c) + 1) 0 p c.
End read_head.

#[export, refine] Instance request_parser (reg : MethodRegistry)
  : LineParser Request.Parser HttpRequest := {
  lp_feed := Request.feedLine reg;
  lp_extract := Request.extractResult;
  lp_state := Request.state_
}.
Proof.
  intros line p Hs. destruct (RequestLemmas.feedLine_runs reg line p Hs)
    as (s & p' & -> & (-> & _) & _). by exists p'.
Defined.

#[export, refine] Instance response_parser : LineParser Response.Parser HttpResponse := {
  lp_feed := Response.feedLine;
  lp_extract := Response.extractResult;
  lp_state := Response.state_
}.
Proof.
  intros line p Hs. destruct (ResponseLemmas.response_feedLine_runs line p Hs)
    as (s & p' & -> & (-> & _) & _). by exists p'.
Defined.

(** [parseNext] and [parseResponse]. *)
Definition parseNext {S : Type} `{!ByteStream S} (reg : MethodRegistry)
  : M (conn S) (HttpParseResult HttpRequest) :=
  readHead (LineParser0 := request_parser reg) true Request.newParser.

Definition parseResponse {S : Type} `{!ByteStream S} : M (conn S) (HttpParseResult HttpResponse) :=
  readHead false Response.newParser.

(** ** Every head is read to an end *)

Section lemmas.
Context {S P T : Type} `{!ByteStream S, !LineParser P T}.

(** One round of the loop on a line that is there. *)
Lemma sv_substr_prefix (v : bytes) (pos : Z) :
  0 <= pos <= size v -> sv_substr v 0 pos = Ok (take (Z.to_nat pos) v).
Proof.
  intros Hp. unfold sv_substr. pose proof (size_nonneg v).
  destruct (Z.ltb_spec (size v) 0); [lia |]. f_equal.
  change (Z.to_nat 0) with 0%nat. rewrite drop_0. f_equal. lia.
Qed.

Lemma readHeadLoop_total (limited : bool) (fuel : nat) (lines : Z) (p : P) (c : conn S) (d : bytes) :
  remains c d -> size d < npos ->
  (2 * length (pending (strm c)) + remainSize (buf c) < fuel)%nat ->
  exists r c' pre d', readHeadLoop limited fuel lines p c = (Ok r, c') /\ remains c' d'
    /\ d = pre ++ d'
    /\ (limited = true -> Z.of_nat (remainSize (buf c')) <= Z.max (Z.of_nat (remainSize (buf c))) 12288).
Proof.
  revert lines p c d. induction fuel as [| fuel IH]; intros lines p c d Hrem Hd Hf; [lia |].
  cbn [readHeadLoop]. rewrite (mbind_ok mget _ c c c eq_refl).
  pose proof Hrem as [Hwf Hcd]. pose proof (remains_length c d Hrem) as Hlen.
  destruct (find_crlf_cases (buf c) Hwf) as (pos & Hfind & Hpos).
  rewrite (mbind_lift _ _ _ _ Hfind).
  destruct (Z.eqb_spec pos npos) as [-> | Hne].
  - destruct (limited && (kMaxHeaderLineSize <? Z.of_nat (remainSize (buf c)))) eqn:Hlim.
    { eexists _, c, [], d. split; [done |]. split; [done |]. split; [done | lia]. }
    destruct (fill_spec 4096 c d Hrem ltac:(lia)) as (n & c1 & Hfill & Hrem1 & Hsz & Hend & _).
    pose proof (fill_bound _ _ _ _ Hfill) as Hn.
    pose proof (remains_length c1 d Hrem1) as Hlen1.
    rewrite (mbind_ok _ _ _ _ _ Hfill). unfold kMaxHeaderLineSize in Hlim.
    destruct (Nat.eqb_spec n 0) as [-> | Hn0].
    + eexists _, c1, [], d. split; [done |]. split; [done |]. split; [done | lia].
    + destruct (IH lines p c1 d Hrem1 Hd ltac:(lia)) as (r & c' & pre & d' & ? & ? & ? & Hb).
      exists r, c', pre, d'. repeat (split; [done |]). intros ->. cbn [andb] in Hlim. to_prop.
      specialize (Hb eq_refl). lia.
  - destruct Hpos as [-> | [Hpos0 Hpos]]; [done |].
    destruct (limited && (kMaxHeaderCount <? lines + 1)).
    { eexists _, c, [], d. split; [done |]. split; [done |]. split; [done | lia]. }
    rewrite (mbind_lift _ _ _ _ (holds_view (buf c) _ (conj Hwf eq_refl))).
    pose proof (length_contents _ Hwf) as Hlc.
    rewrite (mbind_lift _ _ _ _
      (sv_substr_prefix (contents (buf c)) pos ltac:(unfold size; lia))).
    destruct (lp_feed_ok (take (Z.to_nat pos) (contents (buf c))) p) as [p' ->].
    { unfold size in *. rewrite length_take. lia. }
    rewrite (mbind_lift _ (lp_state p') _ _ eq_refl).
    rewrite <- (take_drop (Z.to_nat (pos + 2)) d) in Hrem.
    destruct (consumeM_ok (Z.to_nat (pos + 2)) c _ _ Hrem) as (c1 & Hc1 & Hrem1 & Hsz & Hst);
      [rewrite length_take; lia | lia |].
    rewrite (mbind_ok _ _ _ _ _ Hc1).
    assert (Hgo : forall l q, exists r c' pre d',
      readHeadLoop limited fuel l q c1 = (Ok r, c') /\ remains c' d' /\ d = pre ++ d'
      /\ (limited = true -> Z.of_nat (remainSize (buf c')) <= Z.max (Z.of_nat (remainSize (buf c))) 12288)).
    { intros l q. destruct (IH l q c1 _ Hrem1) as (r & c' & pre & d' & ? & ? & Hd' & Hb).
      - unfold size in *. rewrite length_drop. lia.
      - rewrite Hst. lia.
      - exists r, c', (take (Z.to_nat (pos + 2)) d ++ pre), d'. repeat (split; [done |]).
        split; [by rewrite <- app_assoc, <- Hd', take_drop |]. intros Hl. specialize (Hb Hl). lia. }
    destruct (lp_state p'); try apply Hgo;
      (eexists _, c1, _, _; split; [done |]; split; [done |]; split; [by rewrite take_drop | lia]).
Qed.

(** ** Reading the lines that were sent *)

(** Feeding the lines one by one, the last of which completes the head. *)
Fixpoint completes (p : P) (ls : list bytes) (p' : P) : Prop :=
  match ls with
  | [] => False
  | l :: ls' =>
      match ls' with
      | [] => lp_feed l p = (Ok HeaderComplete, p')
      | _ => exists p1, lp_feed l p = (Ok ExpectHeader, p1) /\ completes p1 ls' p'
      end
  end.

Definition head_line (l : bytes) : Prop := no_cr l /\ size l < 8191.

Lemma readHeadLoop_lines (limited : bool) (fuel : nat) (lines : Z) (p p' : P) (c : conn S)
    (ls : list bytes) (rest : bytes) :
  completes p ls p' -> Forall head_line ls -> 0 <= lines ->
  (limited = true -> lines + size ls <= 128) ->
  remains c (concat (map (fun l => l ++ CRLF) ls) ++ rest) ->
  (2 * length (pending (strm c)) + remainSize (buf c) < fuel)%nat ->
  exists c', readHeadLoop limited fuel lines p c = (Ok (lp_extract p'), c') /\ remains c' rest.
Proof.
  revert lines p c ls. induction fuel as [| fuel IH];
    intros lines p c ls Hp Hls Hl0 Hlim Hrem Hf; [lia |].
  cbn [readHeadLoop]. rewrite (mbind_ok mget _ c c c eq_refl).
  destruct ls as [| l ls]; [done |]. pose proof Hls as Hls0.
  apply Forall_cons in Hls as [[Hcr Hlen] Hls].
  set (more := concat (map (fun l => l ++ CRLF) ls) ++ rest) in *.
  assert (Heq : concat (map (fun l => l ++ CRLF) (l :: ls)) ++ rest = l ++ CRLF ++ more)
    by (unfold more; cbn [map concat]; by rewrite <- !app_assoc).
  pose proof Hrem as [Hwf Hcd]. rewrite Heq in Hcd.
  rewrite (mbind_lift _ _ _ _ (find_crlf (buf c) l (pending (strm c)) more Hwf Hcr Hcd)).
  destruct (Nat.leb_spec (length l + 2) (remainSize (buf c))) as [Hge | Hlt].
  - assert (Hpos : (size l =? npos) = false) by (apply Z.eqb_neq; unfold npos; lia).
    rewrite Hpos. rewrite size_cons in Hlim. pose proof (size_nonneg ls).
    assert (Hcount : limited && (kMaxHeaderCount <? lines + 1) = false).
    { destruct limited; [| done]. specialize (Hlim eq_refl). unfold kMaxHeaderCount.
      destruct (Z.ltb_spec 128 (lines + 1)); [lia | done]. }
    rewrite Hcount.
    rewrite (mbind_lift _ _ _ _ (holds_view (buf c) _ (conj Hwf eq_refl))).
    pose proof (length_contents _ Hwf) as Hlc. pose proof (size_nonneg l).
    rewrite (mbind_lift _ _ _ _
      (sv_substr_prefix (contents (buf c)) (size l) ltac:(unfold size; lia))).
    assert (Htake : take (Z.to_nat (size l)) (contents (buf c)) = l).
    { unfold size. rewrite Nat2Z.id. assert (Ht := f_equal (take (length l)) Hcd).
      by rewrite take_app_le, take_app_length in Ht by lia. }
    rewrite Htake. rewrite Heq, app_assoc in Hrem.
    destruct (consumeM_ok (Z.to_nat (size l + 2)) c (l ++ CRLF) more Hrem)
      as (c1 & Hc1 & Hrem1 & Hsz & Hst); [rewrite length_app; unfold size; simpl; lia | unfold size; lia |].
    destruct ls as [| l2 ls].
    + cbn [completes] in Hp. rewrite Hp. rewrite (mbind_lift _ HeaderComplete _ _ eq_refl).
      rewrite (mbind_ok _ _ _ _ _ Hc1). by exists c1.
    + destruct Hp as (p1 & Hfeed & Hp). rewrite Hfeed.
      rewrite (mbind_lift _ ExpectHeader _ _ eq_refl).
      rewrite (mbind_ok _ _ _ _ _ Hc1).
      apply (IH (lines + 1) p1 c1 (l2 :: ls) Hp Hls); [lia | intros Hl; specialize (Hlim Hl); lia | done |].
      rewrite Hst. lia.
  - change (npos =? npos) with true. cbv iota. unfold kMaxHeaderLineSize.
    destruct (Z.ltb_spec 8192 (Z.of_nat (remainSize (buf c)))); [unfold size in Hlen; lia |].
    rewrite andb_false_r.
    destruct (fill_spec 4096 c _ Hrem ltac:(lia)) as (n & c1 & Hfill & Hrem1 & Hsz & Hend & _).
    rewrite (mbind_ok _ _ _ _ _ Hfill).
    pose proof (remains_length _ _ Hrem) as Hl1. pose proof (remains_length _ _ Hrem1) as Hl2.
    rewrite Heq, !length_app in Hl1, Hl2. simpl in Hl1, Hl2.
    destruct (Nat.eqb_spec n 0) as [-> | Hn]; [rewrite (Hend eq_refl) in Hl1; simpl in Hl1; lia |].
    apply (IH lines p c1 (l :: ls) Hp Hls0 Hl0 Hlim Hrem1). lia.
Qed.

Lemma readHead_lines (limited : bool) (p p' : P) (c : conn S) (ls : list bytes) (rest : bytes) :
  completes p ls p' -> Forall head_line ls -> (limited = true -> size ls <= 128) ->
  remains c (concat (map (fun l => l ++ CRLF) ls) ++ rest) ->
  exists c', readHead limited p c = (Ok (lp_extract p'), c') /\ remains c' rest.
Proof.
  intros Hp Hls Hlim Hrem. apply (readHeadLoop_lines limited _ 0 p p' c ls rest); try done.
  lia.
Qed.
End lemmas.

(** ** Properties *)

(** C36: the server always gets to the end of a head.  Whatever a client sends,
    in whatever segments, [parseNext] returns: it neither throws nor loops nor
    leaves a buffer.  It takes a prefix of what the client sent and leaves
    the rest in place, and it never holds more than 12288 unread bytes of a
    connection in memory (unless they were there before). *)
Theorem parse_next_total {S : Type} `{!ByteStream S} (reg : MethodRegistry) (c : conn S) (d : bytes) :
  remains c d -> size d < npos ->
  exists r c' pre d', parseNext reg c = (Ok r, c') /\ remains c' d' /\ d = pre ++ d'
    /\ Z.of_nat (remainSize (buf c')) <= Z.max (Z.of_nat (remainSize (buf c))) 12288.
Proof.
  intros Hrem Hd.
  destruct (readHeadLoop_total (LineParser0 := request_parser reg) true
    (2 * length (pending (strm c)) + remainSize (buf c) + 1) 0 Request.newParser c d Hrem Hd
    ltac:(lia)) as (r & c' & pre & d' & ? & ? & ? & Hb).
  exists r, c', pre, d'. auto.
Qed.

Lemma parse_next_total_witness :
  exists r c' pre d',
    parseNext initRegistry (Conn empty_buffer (Script [str "GET / HT"; str "TP/1.1"; CRLF ++ CRLF] []))
      = (Ok r, c')
    /\ remains c' d' /\ str "GET / HTTP/1.1" ++ CRLF ++ CRLF = pre ++ d'
    /\ Z.of_nat (remainSize (buf c')) <= Z.max 0 12288.
Proof.
  apply (parse_next_total initRegistry
    (Conn empty_buffer (Script [str "GET / HT"; str "TP/1.1"; CRLF ++ CRLF] []))).
  - split; [unfold wf; simpl; lia | reflexivity].
  - vm_compute. reflexivity.
Defined.
