(* ===== verification/Http1Sink.v ===== *)
(** Writing HTTP/1 messages: [Http1RequestSink] and [Http1ResponseSink]
    (src/extensions/http/src), with the body writers they choose. *)

From Stdlib Require Import ZArith Lia String Strings.Byte.
From stdpp Require Import base numbers option list gmap.
From S2P Require Import Prelude CxxStd ByteStream StringBuffer Conn Chunked Split OrdMap HttpTypes.
From S2P Require Import CookieCodec.
Open Scope Z_scope.

(** ** The header block *)

(** The headers the sinks write themselves. *)
Definition ownHeader (h : HttpHeader) : bool :=
  bool_decide (nameCode_ h = NC_ContentLength) || bool_decide (nameCode_ h = NC_TransferEncoding).

Fixpoint headerLoop (hs : HttpHeaderMap) : bytes :=
  match hs with
  | [] => []
  | (_, h) :: hs' =>
      if ownHeader h then headerLoop hs'
      else canonicalName h ++ str ": " ++ value_ h ++ CRLF ++ headerLoop hs'
  end.

Fixpoint cookieLoop (first : bool) (cs : ordmap bytes) : bytes :=
  match cs with
  | [] => []
  | (name, value) :: cs' =>
      (if first then [] else str "; ") ++ name ++ str "=" ++ value ++ cookieLoop false cs'
  end.

Definition lengthHeader (mode : TransferMode) (len : Z) : bytes :=
  if decide (mode = ContentLength) then str "Content-Length" ++ str ": " ++ to_string len ++ CRLF
  else [].

Definition encodingHeader (mode : TransferMode) (hs : HttpHeaderMap) : bytes :=
  if decide (mode = HttpTypes.Chunked) then
    if om_contains (str "transfer-encoding") hs then []
    else str "Transfer-Encoding" ++ str ": chunked" ++ CRLF
  else [].

Definition connectionHeader (needClose needKeepAlive : bool) (hs : HttpHeaderMap) : bytes :=
  if (needClose || needKeepAlive) && negb (om_contains (str "connection") hs) then
    (if needClose then str "Connection: close" else str "Connection: keep-alive") ++ CRLF
  else [].

(** ** [Http1RequestSink] *)

Module RequestSink.
Section sink.
Context {S : Type} `{!ByteStream S} (reg : MethodRegistry).

Definition buildHeaderBuf (req : HttpRequest) (mode : TransferMode) : bytes :=
  methodToString reg (method req) ++ str " " ++ path req ++ str " "
  ++ versionToString (version req) ++ CRLF
  ++ headerLoop (headers req)
  ++ lengthHeader mode (contentLength req)
  ++ encodingHeader mode (headers req)
  ++ (if decide (cookies req = []) then []
      else str "Cookie: " ++ cookieLoop true (cookies req) ++ CRLF)
  ++ connectionHeader (negb (keepAlive req) && bool_decide (version req <> kHttp10))
       (keepAlive req && bool_decide (version req = kHttp10)) (headers req).

(** [write] with the whole body, and with a function that writes pieces. *)
Definition write (req : HttpRequest) (body : bytes) : M S unit := fun s =>
  (Ok tt, stream_write (buildHeaderBuf req ContentLength ++ CRLF ++ body) s).

Definition writePieces (req : HttpRequest) (pieces : list bytes) : M S unit :=
  let mode := if decide (version req = kHttp10) then UntilClose else HttpTypes.Chunked in
  let* _ := (fun s => (Ok tt, stream_write (buildHeaderBuf req mode ++ CRLF) s)) in
  if decide (mode = UntilClose)
  then fun s => (Ok tt, foldl (fun s p => stream_write p s) s pieces)
  else chunkedWriteAll pieces.
End sink.
End RequestSink.

(** ** [Http1ResponseSink] *)

Module ResponseSink.
Section sink.
Context {S : Type} `{!ByteStream S}.

(** [date]: the clock, printed by [strftime]. *)
Record Http1ResponseSink : Type := mkSink {
  isHeadMethod_ : bool;
  sendDateHeader_ : bool;
  date : bytes
}.

Definition setCookieLines (cs : list Cookie) : bytes :=
  concat (map (fun c => str "Set-Cookie: " ++ toString c ++ CRLF) cs).

Definition buildHeaderBuf (sink : Http1ResponseSink) (resp : HttpResponse) (mode : TransferMode)
  : bytes :=
  versionToString (r_version resp) ++ str " " ++ to_string (r_statusCode resp) ++ str " "
  ++ (if decide (r_statusReason resp = []) then statusCodeToString (r_statusCode resp)
      else r_statusReason resp) ++ CRLF
  ++ headerLoop (r_headers resp)
  ++ lengthHeader mode (r_contentLength resp)
  ++ encodingHeader mode (r_headers resp)
  ++ setCookieLines (r_cookies resp)
  ++ (if sendDateHeader_ sink && negb (om_contains (str "date") (r_headers resp))
      then str "Date: " ++ date sink ++ CRLF else [])
  ++ connectionHeader
       ((r_shouldClose resp || bool_decide (mode = UntilClose))
          && bool_decide (r_version resp <> kHttp10))
       (negb (r_shouldClose resp) && bool_decide (mode <> UntilClose)
          && bool_decide (r_version resp = kHttp10))
       (r_headers resp).

Definition write (sink : Http1ResponseSink) (resp : HttpResponse) (body : bytes) : M S unit := fun s =>
  (Ok tt, stream_write (buildHeaderBuf sink resp ContentLength ++ CRLF
                        ++ (if isHeadMethod_ sink then [] else body)) s).

Definition writePieces (sink : Http1ResponseSink) (resp : HttpResponse) (pieces : list bytes)
  : M S unit :=
  let mode := if decide (r_version resp = kHttp10) then UntilClose else HttpTypes.Chunked in
  let* _ := (fun s => (Ok tt, stream_write (buildHeaderBuf sink resp mode ++ CRLF) s)) in
  if isHeadMethod_ sink then mret tt
  else if decide (mode = UntilClose)
  then fun s => (Ok tt, foldl (fun s p => stream_write p s) s pieces)
  else chunkedWriteAll pieces.
End sink.
End ResponseSink.
