(* ===== verification/Http1Reader.v ===== *)
(** [Http1BodyReader::create]: the body reader of a message, chosen by its
    transfer mode (src/extensions/http/src/Http1BodyReader.cc). *)

From Stdlib Require Import ZArith Lia String Strings.Byte.
From stdpp Require Import base numbers option list.
From S2P Require Import Prelude ByteStream StringBuffer Conn BodyReader Chunked HttpTypes.
Open Scope Z_scope.

(** The classes that derive from [Http1BodyReader]. *)
Inductive AnyReader (S : Type) : Type :=
| AnyNoop (c : conn S)
| AnyContentLength (r : ContentLengthReader S)
| AnyChunked (r : ChunkedReader S)
| AnyUntilClose (r : UntilCloseReader S).
Arguments AnyNoop {S} c.
Arguments AnyContentLength {S} r.
Arguments AnyChunked {S} r.
Arguments AnyUntilClose {S} r.

Definition create {S : Type} (c : conn S) (mode : TransferMode) (contentLength : Z) : AnyReader S :=
  match mode with
  | ContentLength =>
      if contentLength =? 0 then AnyNoop c
      else AnyContentLength (mkContentLength c contentLength 0)
  | HttpTypes.Chunked => AnyChunked (mkChunked c ReadSize 0 0)
  | UntilClose => AnyUntilClose (mkUntilClose c false)
  end.

Section any_reader.
Context {S : Type} `{!ByteStream S}.

(** The connection a reader works on. *)
Definition reader_conn (r : AnyReader S) : conn S :=
  match r with
  | AnyNoop c => c
  | AnyContentLength r => cl_conn r
  | AnyChunked r => ck_conn r
  | AnyUntilClose r => uc_conn r
  end.

(** The virtual calls. *)
Definition anyRead (n : nat) : M (AnyReader S) bytes := fun r =>
  match r with
  | AnyNoop c => (Ok [], r)
  | AnyContentLength r => let '(o, r') := readImpl n r in (o, AnyContentLength r')
  | AnyChunked r => let '(o, r') := readImpl n r in (o, AnyChunked r')
  | AnyUntilClose r => let '(o, r') := readImpl n r in (o, AnyUntilClose r')
  end.

Definition anyComplete (r : AnyReader S) : bool :=
  match r with
  | AnyNoop _ => true
  | AnyContentLength r => isComplete r
  | AnyChunked r => isComplete r
  | AnyUntilClose r => isComplete r
  end.

Definition anyDelivers (r : AnyReader S) (d rest : bytes) : Prop :=
  match r with
  | AnyNoop c => d = [] /\ remains c rest
  | AnyContentLength r => delivers r d rest
  | AnyChunked r => delivers r d rest
  | AnyUntilClose r => delivers r d rest
  end.

(** A reader class in the sum keeps its promise. *)
Lemma wrap_ok {R : Type} `{!BodyReader R} (wrap : R -> AnyReader S) (n : nat) (r : R) (d rest : bytes) :
  (forall r d rest, anyDelivers (wrap r) d rest <-> delivers r d rest) ->
  (forall r, anyComplete (wrap r) = isComplete r) ->
  delivers r d rest -> (0 < n)%nat -> isComplete r = false ->
  exists out r', (let '(o, r') := readImpl n r in (o, wrap r')) = (Ok out, r')
    /\ (length out <= n)%nat
    /\ exists d', d = out ++ d' /\ anyDelivers r' d' rest /\ (out = [] -> anyComplete r' = true).
Proof.
  intros Hw Hcw Hd Hn Hc.
  destruct (readImpl_ok n r d rest Hd Hn Hc) as (out & r' & -> & Hlen & d' & -> & Hd' & Hnil).
  eexists _, _. split; [done |]. split; [done |]. exists d'. split; [done |].
  split; [by apply Hw |]. rewrite Hcw. done.
Qed.

#[export, refine] Instance any_reader : BodyReader (AnyReader S) := {
  readImpl := anyRead;
  isComplete := anyComplete;
  delivers := anyDelivers
}.
Proof.
  - intros n [c | r | r | r] d rest Hd Hn Hc; [done | | |];
      (eapply wrap_ok; [done | done | exact Hd | exact Hn | exact Hc]).
  - intros [c | r | r | r] d rest Hd Hc; [by destruct Hd | | |];
      exact (complete_ok r d rest Hd Hc).
Defined.

(** What [create] promises for each mode. *)
Lemma create_content_length (c : conn S) (d rest : bytes) :
  remains c (d ++ rest) -> anyDelivers (create c ContentLength (size d)) d rest.
Proof.
  intros Hrem. unfold create. destruct (Z.eqb_spec (size d) 0) as [H0 | H0].
  - apply size_zero_nil in H0. subst d. by split.
  - cbn. split; cbn [cl_conn bytesRead_ contentLength_]; [done | lia].
Qed.

Lemma create_chunked (c : conn S) (n : Z) (ds : list bytes) (rest : bytes) :
  Forall chunk_ok ds -> remains c (encodeChunks ds ++ lastChunk ++ rest) ->
  anyDelivers (create c HttpTypes.Chunked n) (concat ds) rest.
Proof.
  intros Hds Hrem. cbn. exists []. split; [constructor |]. split; [done |].
  cbn [state_ ck_conn]. exists ds. split; [done |]. split; [done |].
  unfold trailer, lastChunk in *. cbn [map concat app]. by rewrite <- !app_assoc in *.
Qed.

Lemma create_until_close (c : conn S) (n : Z) (d : bytes) :
  remains c d -> anyDelivers (create c UntilClose n) d [].
Proof. intros Hrem. cbn. split; [done |]. by split. Qed.

Lemma create_conn (c : conn S) (mode : TransferMode) (n : Z) : reader_conn (create c mode n) = c.
Proof. unfold create. destruct mode; [by destruct (n =? 0) | done ..]. Qed.

(** A reader that is done leaves the connection at what follows the body. *)
Lemma anyDelivers_end (r : AnyReader S) (rest : bytes) :
  anyDelivers r [] rest -> anyComplete r = true -> remains (reader_conn r) rest.
Proof.
  destruct r as [c | r | r | r]; cbn.
  - by intros [_ ?].
  - by intros [? _].
  - intros (ls & _ & _ & H) Hc. destruct (state_ r); [done .. |]. by destruct H.
  - by intros (? & -> & _).
Qed.

(** Collecting the body of any reader. *)
Lemma readBody_any (fuel : nat) (r : AnyReader S) (d rest : bytes) :
  anyDelivers r d rest -> (length d < fuel)%nat ->
  exists r', readBody fuel (mkReader r false) = (Ok d, r') /\ remains (reader_conn (impl r')) rest.
Proof.
  intros Hd Hf. destruct (readBody_ok (BodyReader0 := any_reader) fuel r d rest Hd Hf)
    as (r' & ? & Hdel & Hc).
  exists r'. split; [done |]. by apply anyDelivers_end.
Qed.
End any_reader.
