(* ===== verification/Http1RoundTrip.v ===== *)
(** What the HTTP/1 sinks write, the parsers read back: header lines, cookies,
    and whole requests over a connection. *)

From Stdlib Require Import ZArith Lia String Strings.Byte.
From stdpp Require Import base numbers option list gmap.
From S2P Require Import Prelude CxxStd UrlEncode ByteStream StringBuffer Conn BodyReader Split OrdMap.
From S2P Require Import HttpTypes CookieCodec HttpParser HttpHead Http1Sink Http1Reader.
Open Scope Z_scope.

(** ** Names and values that can be written *)

Lemma isTokenChar_tolower (c : byte) : isTokenChar (tolower c) = isTokenChar c.
Proof.
  revert c. apply (byte_forall_dec (fun c => isTokenChar (tolower c) = isTokenChar c)).
  by vm_compute.
Qed.

Lemma isValidToken_toLower (s : bytes) : isValidToken (toLower s) = isValidToken s.
Proof.
  destruct s as [| c s]; [done |]. cbn [isValidToken toLower map].
  change (tolower c :: map tolower s) with (map tolower (c :: s)).
  induction (c :: s) as [| b l IH]; [done |]. cbn [map forallb].
  by rewrite IH, isTokenChar_tolower.
Qed.

Lemma token_no_cr (s : bytes) : isValidToken s = true -> no_cr s.
Proof.
  destruct s as [| b s]; [constructor |]. intros H. cbn [isValidToken] in H.
  rewrite forallb_forall in H. apply List.Forall_forall. intros c Hc. specialize (H c Hc).
  clear Hc. revert c H.
  apply (byte_forall_dec (fun c => isTokenChar c = true -> Byte.eqb x0d c = false)). by vm_compute.
Qed.

(** A header as a program makes it: any token for a name, a value without a
    line break and without blanks around it. *)
Definition writable (h : HttpHeader) : Prop :=
  (exists name, h = newHeader name (value_ h) /\ isValidToken name = true)
  /\ trimmed (value_ h) = true /\ no_cr (value_ h)
  /\ size (name_ h) + size (value_ h) < 8000.

Definition headerText (h : HttpHeader) : bytes := canonicalName h ++ str ": " ++ value_ h.

Lemma canonicalName_lower (h : HttpHeader) :
  (exists name, h = newHeader name (value_ h)) -> toLower (canonicalName h) = name_ h.
Proof.
  intros [name Hh]. pose proof (newHeader_canonical name (value_ h)) as Hc. rewrite <- Hh in Hc.
  apply (f_equal name_) in Hc. exact Hc.
Qed.

Lemma writable_canonical (h : HttpHeader) :
  writable h ->
  newHeader (canonicalName h) (value_ h) = h /\ isValidToken (canonicalName h) = true
  /\ size (canonicalName h) = size (name_ h).
Proof.
  intros ((name & Hh & Ht) & _). split; [| split].
  - pose proof (newHeader_canonical name (value_ h)) as Hc. by rewrite <- Hh in Hc.
  - rewrite <- isValidToken_toLower, canonicalName_lower by eauto. rewrite Hh. cbn [name_ newHeader].
    by rewrite isValidToken_toLower.
  - rewrite <- canonicalName_lower by eauto. unfold size, toLower. by rewrite length_map.
Qed.

Lemma headerText_line (h : HttpHeader) : writable h -> head_line (headerText h).
Proof.
  intros Hw. destruct (writable_canonical h Hw) as (_ & Ht & Hs). destruct Hw as (_ & _ & Hcr & Hsz).
  split.
  - unfold headerText. apply Forall_app. split; [by apply token_no_cr |].
    apply Forall_app. by split; [repeat constructor |].
  - unfold headerText. rewrite !size_app, Hs. change (size (str ": ")) with 2. lia.
Qed.

Lemma parse_headerText (h : HttpHeader) :
  writable h -> parseHeaderLine (headerText h) = Ok (canonicalName h, value_ h).
Proof.
  intros Hw. destruct (writable_canonical h Hw) as (_ & Ht & Hs).
  pose proof (headerText_line h Hw) as [_ Hsz]. destruct Hw as (_ & Htr & _ & _).
  apply (parseHeaderLine_render (canonicalName h) [x20] (value_ h)); [by apply token_plain | |done |].
  - by repeat constructor.
  - unfold headerText, npos in *. change (str ": ") with [x3a; x20] in Hsz. cbn [app] in *. lia.
Qed.

(** ** A header line in the request parser *)

Section request.
Context (reg : MethodRegistry).
Import Request.

Definition add_header (h : HttpHeader) (p : Parser) : Parser :=
  set_data (set_headers (om_emplace (name_ h) h (headers (data_ p))) (data_ p)) p.

Lemma headerText_nonempty (h : HttpHeader) : headerText h <> [].
Proof. unfold headerText. destruct (canonicalName h); done. Qed.

Lemma feed_header (h : HttpHeader) (p : Parser) :
  writable h -> nameCode_ h <> NC_Cookie -> state_ p = ExpectHeader ->
  (nameCode_ h = NC_ContentLength -> om_find (name_ h) (headers (data_ p)) = None) ->
  feedLine reg (headerText h) p = (Ok ExpectHeader, add_header h p).
Proof.
  intros Hw Hck Hst Hcl. destruct (writable_canonical h Hw) as (Hnew & Ht & _).
  unfold feedLine. rewrite (mbind_ok mget _ p p p eq_refl), Hst.
  rewrite decide_False by apply headerText_nonempty.
  assert (Hp : parseHeader (headerText h) p = (Ok tt, add_header h p)).
  { unfold parseHeader. rewrite (mbind_lift _ _ _ _ (parse_headerText h Hw)).
    cbn beta iota. rewrite Ht. rewrite bool_decide_eq_false_2 by (intros He; by rewrite He in Ht).
    cbn [orb negb]. rewrite (mbind_ok mget _ p p p eq_refl), Hnew.
    rewrite decide_False by done. unfold modify. cbn [mbind].
    unfold mbind. destruct (om_find (name_ h) (headers (data_ p))) as [old |] eqn:Hold; [| done].
    rewrite decide_False; [done |]. intros Hc. by specialize (Hcl Hc). }
  rewrite (mbind_ok _ _ _ _ _ Hp). unfold mbind, mget, mret. cbn [add_header set_data state_].
  by rewrite Hst.
Qed.

(** A run of header lines: the headers end up in the map, the first of a name
    winning. *)
Definition add_headers (hs : list HttpHeader) (p : Parser) : Parser :=
  foldl (fun p h => add_header h p) p hs.

Lemma add_headers_state (hs : list HttpHeader) (p : Parser) :
  state_ (add_headers hs p) = state_ p.
Proof. revert p. induction hs as [| h hs IH]; intros p; [done |]. exact (IH (add_header h p)). Qed.

Definition lp := request_parser reg.

Lemma completes_cons (p p1 p' : Parser) (l : bytes) (ls : list bytes) :
  feedLine reg l p = (Ok ExpectHeader, p1) -> completes (LineParser0 := lp) p1 ls p' ->
  completes (LineParser0 := lp) p (l :: ls) p'.
Proof. intros Hf Hc. destruct ls as [| l' ls]; [done |]. by exists p1. Qed.

Lemma completes_headers (hs : list HttpHeader) (p p' : Parser) (ls : list bytes) :
  Forall (fun h => writable h /\ nameCode_ h <> NC_Cookie /\ nameCode_ h <> NC_ContentLength) hs ->
  state_ p = ExpectHeader ->
  completes (LineParser0 := lp) (add_headers hs p) ls p' ->
  completes (LineParser0 := lp) p (map headerText hs ++ ls) p'.
Proof.
  revert p. induction hs as [| h hs IH]; intros p Hhs Hst Hc; [done |].
  apply Forall_cons in Hhs as [(Hw & Hck & Hcl) Hhs]. cbn [map app].
  eapply completes_cons; [by apply feed_header |]. by apply IH.
Qed.
End request.

(** ** The headers that arrive *)

(** The first header of a list with a given key. *)
Fixpoint named (k : bytes) (hs : list HttpHeader) : option HttpHeader :=
  match hs with
  | [] => None
  | h :: hs' => if decide (k = name_ h) then Some h else named k hs'
  end.

Lemma add_headers_data (hs : list HttpHeader) (p : Request.Parser) :
  om_wf (headers (Request.data_ p)) ->
  exists m, add_headers hs p = Request.set_data (Request.set_headers m (Request.data_ p)) p
    /\ om_wf m
    /\ forall k, om_find k m
         = match om_find k (headers (Request.data_ p)) with Some h => Some h | None => named k hs end.
Proof.
  revert p. induction hs as [| h hs IH]; intros p Hwf.
  - exists (headers (Request.data_ p)). split; [by destruct p as [[] ? ?] |]. split; [done |].
    intros k. by destruct (om_find k _).
  - cbn [add_headers foldl]. destruct (IH (add_header h p)) as (m & Heq & Hm & Hf).
    + cbn. by apply om_emplace_wf.
    + exists m. split; [exact Heq |]. split; [done |]. intros k. rewrite Hf. cbn [add_header
        Request.set_data Request.set_headers Request.data_ headers named].
      rewrite om_find_emplace by done. destruct (decide (k = name_ h)) as [-> | Hne]; [| done].
      by destruct (om_find (name_ h) (headers (Request.data_ p))).
Qed.

(** The headers of a message that the sinks copy. *)
Definition copied (hs : HttpHeaderMap) : list HttpHeader :=
  filter (fun h => ownHeader h = false) (map snd hs).

(** The keys of the map are the headers' names. *)
Definition keyed (hs : HttpHeaderMap) : Prop := Forall (fun kh => fst kh = name_ (snd kh)) hs.

Lemma headerLoop_copied (hs : HttpHeaderMap) :
  headerLoop hs = concat (map (fun l => l ++ CRLF) (map headerText (copied hs))).
Proof.
  induction hs as [| [k h] hs IH]; [done |]. cbn [headerLoop map copied]. unfold copied.
  cbn [map snd]. rewrite filter_cons. destruct (ownHeader h) eqn:Ho.
  - by rewrite decide_False.
  - rewrite decide_True by done. cbn [map concat]. rewrite IH. unfold headerText.
    by rewrite <- !app_assoc.
Qed.

Definition ownKey (k : bytes) : bool :=
  bool_decide (k = str "content-length") || bool_decide (k = str "transfer-encoding").

Lemma nameToCode_iff (code : NameCode) (lower : bytes) :
  code <> NC_Unknown -> nameToCode lower = code <-> lower = codeToName code.
Proof.
  intros Hne. split.
  - intros <-. symmetry. by apply codeToName_nameToCode.
  - intros ->. by apply nameToCode_codeToName.
Qed.

Lemma writable_code (h : HttpHeader) : writable h -> nameCode_ h = nameToCode (name_ h).
Proof. intros ((name & -> & _) & _). done. Qed.

Lemma ownHeader_key (h : HttpHeader) : writable h -> ownHeader h = ownKey (name_ h).
Proof.
  intros Hw. unfold ownHeader, ownKey. rewrite (writable_code h Hw).
  f_equal; apply bool_decide_ext; by apply nameToCode_iff.
Qed.

Lemma named_copied (hs : HttpHeaderMap) (k : bytes) :
  keyed hs -> Forall writable (map snd hs) ->
  named k (copied hs) = if ownKey k then None else om_find k hs.
Proof.
  intros Hk Hw. induction hs as [| [k0 h] hs IH]; [by destruct (ownKey k) |].
  apply Forall_cons in Hk as [Hkh Hk]. cbn [map] in Hw. apply Forall_cons in Hw as [Hwh Hw].
  cbn [fst snd] in *. subst k0. specialize (IH Hk Hw). unfold copied in *. cbn [map snd om_find].
  rewrite filter_cons, (ownHeader_key h Hwh).
  destruct (ownKey (name_ h)) eqn:Ho; [rewrite decide_False by done | rewrite decide_True by done].
  - rewrite IH. destruct (decide (k = name_ h)) as [-> |]; [| done]. by rewrite Ho.
  - cbn [named]. rewrite IH. destruct (decide (k = name_ h)) as [-> |]; [| done]. by rewrite Ho.
Qed.

(** ** Cookies *)

Definition cookie_pair_ok (nv : bytes * bytes) : Prop :=
  fst nv <> [] /\ trimmed (fst nv) = true /\ without x3d (fst nv) /\ without x3b (fst nv)
  /\ no_cr (fst nv) /\ trimmed (snd nv) = true /\ without x3b (snd nv) /\ no_cr (snd nv).

Definition pairText (nv : bytes * bytes) : bytes := fst nv ++ x3d :: snd nv.

Lemma cookieLoop_cons (nv : bytes * bytes) (cs : ordmap bytes) :
  cookieLoop true (nv :: cs)
  = pairText nv ++ concat (map (fun a => x3b :: x20 :: a) (map pairText cs)).
Proof.
  assert (Hf : forall cs, cookieLoop false cs
    = concat (map (fun a => x3b :: x20 :: a) (map pairText cs))).
  { clear. induction cs as [| [n v] cs IH]; [done |]. cbn [cookieLoop map concat]. rewrite IH.
    unfold pairText. cbn [fst snd str list_byte_of_string app]. by rewrite <- app_assoc. }
  destruct nv as [n v]. cbn [cookieLoop]. rewrite Hf. unfold pairText. cbn [fst snd app].
  by rewrite <- app_assoc.
Qed.

Lemma cookieLoop_join (nv : bytes * bytes) (cs : ordmap bytes) :
  cookieLoop true (nv :: cs) = join x3b (pairText nv :: map (cons x20) (map pairText cs)).
Proof.
  rewrite cookieLoop_cons. destruct cs as [| nv2 cs]; [apply app_nil_r |].
  change (map pairText (nv2 :: cs)) with (pairText nv2 :: map pairText cs).
  by rewrite concat_join.
Qed.

(** Two trimmed texts around anything. *)
Lemma trimmed_glue (x m y : bytes) :
  x <> [] -> y <> [] -> trimmed x = true -> trimmed y = true -> trimmed (x ++ m ++ y) = true.
Proof.
  intros Hx Hy Htx Hty. destruct x as [| b x]; [done |].
  apply trimmed_cons in Htx as [Hb _]. unfold trimmed. cbn [app]. rewrite Hb. cbn [andb].
  destruct y as [| c y]; [done |]. apply trimmed_cons in Hty as (_ & q & z & -> & Hz).
  rewrite !app_assoc, app_comm_cons, last_last. done.
Qed.

Lemma pairText_trimmed (nv : bytes * bytes) : cookie_pair_ok nv -> trimmed (pairText nv) = true.
Proof. intros (? & ? & _ & _ & _ & ? & _). by apply trimmed_pair. Qed.

Lemma pairText_nonempty (nv : bytes * bytes) : pairText nv <> [].
Proof. unfold pairText. by destruct (fst nv). Qed.

Lemma cookieLoop_trimmed (cs : ordmap bytes) :
  Forall cookie_pair_ok cs -> trimmed (cookieLoop true cs) = true.
Proof.
  induction cs as [| nv cs IH]; intros Hcs; [done |]. apply Forall_cons in Hcs as [Hnv Hcs].
  rewrite cookieLoop_cons. destruct cs as [| nv2 cs].
  - cbn [map concat]. rewrite app_nil_r. by apply pairText_trimmed.
  - cbn [map concat]. specialize (IH Hcs). rewrite cookieLoop_cons in IH.
    apply (trimmed_glue (pairText nv) [x3b; x20]); [apply pairText_nonempty | | | done].
    + destruct (pairText nv2) eqn:H; [by apply pairText_nonempty in H | done].
    + by apply pairText_trimmed.
Qed.

Lemma cookieLoop_no_cr (cs : ordmap bytes) :
  Forall cookie_pair_ok cs -> no_cr (cookieLoop true cs).
Proof.
  intros Hcs. destruct cs as [| nv cs]; [constructor |]. rewrite cookieLoop_cons.
  assert (Hp : forall nv, cookie_pair_ok nv -> no_cr (pairText nv)).
  { intros nv' (_ & _ & _ & _ & ? & _ & _ & ?). apply Forall_app. split; [done |]. by constructor. }
  apply Forall_cons in Hcs as [Hnv Hcs]. apply Forall_app. split; [by apply Hp |].
  induction Hcs as [| nv2 cs Hnv2 Hcs IH]; [constructor |]. cbn [map concat].
  apply Forall_app. split; [| done]. repeat constructor. by apply Hp.
Qed.

Lemma cookiePart_pair (a : bytes) (nv : bytes * bytes) (m : ordmap bytes) :
  blanks a -> without x3d a -> cookie_pair_ok nv -> size (a ++ pairText nv) < npos ->
  Request.cookiePart (a ++ pairText nv) m = Ok (om_insert (fst nv) (snd nv) m).
Proof.
  intros Ha Hae (Hne & Htn & Heq & _ & _ & Htv & _) Hs. destruct nv as [n v]. cbn [fst snd] in *.
  unfold pairText in *. cbn [fst snd] in *. rewrite app_assoc in *. unfold Request.cookiePart.
  destruct (split_pair (a ++ n) v (without_app _ _ _ Hae Heq) Hs) as (-> & -> & -> & Hv).
  rewrite size_app, size_cons in Hs. pose proof (size_nonneg v). cbn [obind].
  rewrite <- (app_nil_r n) at 1.
  rewrite trim_blanks by (done || (try constructor; rewrite app_nil_r; lia) || constructor).
  cbn [obind]. rewrite Hv. cbn [obind]. pose proof (size_nonneg (a ++ n)).
  rewrite trim_trimmed by (done || lia). cbn [obind]. by rewrite decide_False.
Qed.

Lemma foldOutcome_cookies (cs m : ordmap bytes) :
  om_wf (m ++ cs) -> Forall cookie_pair_ok cs ->
  Forall (fun nv => size (x20 :: pairText nv) < npos) cs ->
  foldOutcome Request.cookiePart (map (cons x20) (map pairText cs)) m = Ok (m ++ cs).
Proof.
  revert m. induction cs as [| [n v] cs IH]; intros m Hwf Hok Hsz; [by rewrite app_nil_r |].
  apply Forall_cons in Hok as [Hnv Hok]. apply Forall_cons in Hsz as [Hs Hsz].
  cbn [map foldOutcome].
  pose proof (cookiePart_pair [x20] (n, v) m ltac:(by repeat constructor)
    ltac:(by repeat constructor) Hnv Hs) as Hpart. cbn [app fst snd] in Hpart. rewrite Hpart.
  cbn [obind]. replace (m ++ (n, v) :: cs) with ((m ++ [(n, v)]) ++ cs) in * by (by rewrite <- app_assoc).
  rewrite om_insert_snoc; [by apply IH |]. by apply om_wf_app_l in Hwf.
Qed.

Lemma parseCookies_loop (cs : ordmap bytes) :
  om_wf cs -> Forall cookie_pair_ok cs -> cs <> [] -> size (cookieLoop true cs) < npos - 1 ->
  Request.parseCookies (cookieLoop true cs) [] = Ok cs.
Proof.
  intros Hwf Hok Hne Hs. destruct cs as [| nv cs]; [done |].
  assert (Hsz : Forall (fun nv => size (x20 :: pairText nv) < npos) (nv :: cs)).
  { rewrite cookieLoop_cons, size_app in Hs. apply List.Forall_forall. intros nv' Hin.
    rewrite size_cons. pose proof (size_nonneg (pairText nv)).
    pose proof (size_nonneg (concat (map (fun a => x3b :: x20 :: a) (map pairText cs)))).
    destruct Hin as [<- | Hin]; [lia |].
    pose proof (attribute_size (pairText nv') (map pairText cs) (in_map _ _ _ Hin)). lia. }
  unfold Request.parseCookies. rewrite forEachPart_parts by lia.
  rewrite cookieLoop_join. apply Forall_cons in Hok as [Hnv Hok]. apply Forall_cons in Hsz as [Hs1 Hsz].
  assert (Hparts : Forall (fun p => p <> [] /\ Forall (fun b => Byte.eqb x3b b = false) p)
    (pairText nv :: map (cons x20) (map pairText cs))).
  { assert (Hp : forall nv, cookie_pair_ok nv -> Forall (fun b => Byte.eqb x3b b = false) (pairText nv)).
    { intros nv' (_ & _ & _ & ? & _ & _ & ? & _). apply Forall_app. split; [done |]. by constructor. }
    constructor; [split; [apply pairText_nonempty | by apply Hp] |].
    apply Forall_map, Forall_map. eapply Forall_impl; [exact Hok |]. intros nv' Hnv'.
    split; [done |]. constructor; [done |]. by apply Hp. }
  rewrite foldParts_join by (done || lia). cbn [foldOutcome].
  rewrite size_cons in Hs1.
  pose proof (cookiePart_pair [] nv [] ltac:(constructor) ltac:(constructor) Hnv ltac:(cbn [app]; lia))
    as Hpart. cbn [app] in Hpart. rewrite Hpart. cbn [obind om_insert].
  destruct nv as [n v]. by apply (foldOutcome_cookies cs [(n, v)]).
Qed.

(** ** The request line *)

Section request_line.
Context (reg : MethodRegistry).
Import Request.

Definition requestLine (req : HttpRequest) : bytes :=
  methodToString reg (method req) ++ x20 :: path req ++ x20 :: versionToString (version req).

(** What the parser makes of a target: the raw path, its decoding, the query
    and its parameters. *)
Definition targetPath (target : bytes) : bytes := fst (cut x3f target).
Definition targetQuery (target : bytes) : bytes :=
  match snd (cut x3f target) with Some q => q | None => [] end.
Definition decodedPath (target : bytes) : bytes :=
  if decide (targetPath target = []) then str "/" else urlDecode (targetPath target).
Definition targetQueries (target : bytes) : ordmap bytes :=
  match parseQueryString (targetQuery target) [] with Ok qs => qs | _ => [] end.

Definition lineData (req : HttpRequest) : HttpRequest :=
  mkRequest (version req) (method req) (decodedPath (path req)) (targetPath (path req))
    (targetQuery (path req)) [] [] (targetQueries (path req)) ContentLength 0 true.

Definition line_ok (req : HttpRequest) : Prop :=
  isValidToken (methodToString reg (method req)) = true
  /\ methodFromString reg (methodToString reg (method req)) = method req
  /\ method req <> _Invalid /\ version req <> kUnknown
  /\ without x20 (path req) /\ no_cr (path req)
  /\ size (requestLine req) < 8191.

Lemma token_no_blank (s : bytes) : isValidToken s = true -> without x20 s.
Proof.
  intros H. apply token_plain in H as [_ H]. eapply Forall_impl; [exact H |]. by intros b [].
Qed.

Lemma version_text (v : Version) :
  v <> kUnknown -> parseHttpVersion (versionToString v) = v /\ no_cr (versionToString v).
Proof. destruct v; [done | |]; intros _; (split; [by vm_compute | by repeat constructor]). Qed.

(** The three fields of the line. *)
Lemma requestLine_fields (m target v : bytes) (line := m ++ x20 :: target ++ x20 :: v) :
  without x20 m -> without x20 target -> size line < npos ->
  sv_find line x20 0 = size m /\ sv_find line x20 (size m + 1) = size m + 1 + size target
  /\ sv_substr line 0 (size m) = Ok m
  /\ sv_substr line (size m + 1 + size target + 1) npos = Ok v
  /\ sv_substr line (size m + 1) (u64 (u64 (size m + 1 + size target - size m) - 1)) = Ok target.
Proof.
  intros Hm Ht Hs. subst line. set (line := m ++ x20 :: target ++ x20 :: v) in *.
  assert (Hsz : size line = size m + 1 + size target + 1 + size v)
    by (unfold line; rewrite size_app, size_cons, size_app, size_cons; lia).
  pose proof (size_nonneg m). pose proof (size_nonneg target). pose proof (size_nonneg v).
  assert (Hl1 : line = (m ++ [x20]) ++ target ++ x20 :: v) by (unfold line; by rewrite <- app_assoc).
  assert (Hl2 : line = (m ++ x20 :: target ++ [x20]) ++ v)
    by (unfold line; rewrite <- app_assoc; cbn [app]; by rewrite <- app_assoc).
  assert (Hp1 : size m + 1 = size (m ++ [x20])) by (by rewrite size_app).
  split; [exact (sv_find_if_app _ [] m x20 (target ++ x20 :: v) Hm eq_refl) |].
  split. { rewrite Hp1, Hl1. by apply sv_find_if_app. }
  split; [exact (sv_substr_mid [] m (x20 :: target ++ x20 :: v) _ eq_refl) |].
  split.
  - replace (size m + 1 + size target + 1) with (size (m ++ x20 :: target ++ [x20]))
      by (rewrite size_app, size_cons, size_app; change (size [x20]) with 1; lia).
    rewrite Hl2. apply sv_substr_rest. lia.
  - unfold u64, npos in *. replace (size m + 1 + size target - size m) with (1 + size target) by lia.
    rewrite (Z.mod_small (1 + size target)), Z.mod_small by lia.
    rewrite Hp1, Hl1. apply sv_substr_mid. lia.
Qed.

(** The target, split at the first question mark. *)
Lemma target_fields (target : bytes) :
  size target < npos ->
  sv_substr target 0 (sv_find target x3f 0) = Ok (targetPath target)
  /\ (if sv_find target x3f 0 =? npos then targetQuery target = [] /\ targetQueries target = []
      else sv_substr target (sv_find target x3f 0 + 1) npos = Ok (targetQuery target)
           /\ parseQueryString (targetQuery target) [] = Ok (targetQueries target)).
Proof.
  intros Hs. unfold targetPath, targetQueries, targetQuery.
  pose proof (cut_spec x3f target) as Hc. destruct (cut x3f target) as [raw [q |]];
    destruct Hc as [-> Hraw]; cbn [fst snd].
  - rewrite size_app, size_cons in Hs. pose proof (size_nonneg q). pose proof (size_nonneg raw).
    assert (Hf : sv_find (raw ++ x3f :: q) x3f 0 = size raw)
      by exact (sv_find_if_app _ [] raw x3f q Hraw eq_refl).
    rewrite Hf. split; [exact (sv_substr_mid [] raw (x3f :: q) _ eq_refl) |].
    destruct (Z.eqb_spec (size raw) npos); [lia |]. split.
    + replace (raw ++ x3f :: q) with ((raw ++ [x3f]) ++ q) by (by rewrite <- app_assoc).
      replace (size raw + 1) with (size (raw ++ [x3f])) by (by rewrite size_app).
      apply sv_substr_rest. lia.
    + destruct (RequestLemmas.parseQueryString_total q []) as [qs ->]; [lia | done].
  - assert (Hf : sv_find raw x3f 0 = npos) by exact (sv_find_if_none _ [] raw Hraw).
    rewrite Hf. split; [exact (sv_substr_rest [] raw npos ltac:(lia)) | done].
Qed.

Lemma feed_requestLine (req : HttpRequest) :
  line_ok req ->
  feedLine reg (requestLine req) newParser
  = (Ok ExpectHeader, mkParser (lineData req) ExpectHeader (error_ newParser)).
Proof.
  intros (Hm & Hmm & Hinv & Hv & Ht & _ & Hs). unfold requestLine in Hs.
  destruct (requestLine_fields (methodToString reg (method req)) (path req)
    (versionToString (version req)) (token_no_blank _ Hm) Ht ltac:(unfold npos; lia))
    as (Hf1 & Hf2 & Hsub1 & Hsub2 & Hsub3).
  assert (Hsz : size (path req) < npos).
  { rewrite size_app, size_cons, size_app in Hs. unfold npos.
    pose proof (size_nonneg (methodToString reg (method req))).
    pose proof (size_nonneg (x20 :: versionToString (version req))). lia. }
  rewrite size_app, size_cons, size_app, size_cons in Hs.
  pose proof (size_nonneg (methodToString reg (method req))). pose proof (size_nonneg (path req)).
  pose proof (size_nonneg (versionToString (version req))).
  destruct (target_fields (path req) Hsz) as (Hraw & Hq).
  assert (Hline : parseRequestLine reg (requestLine req) newParser
    = (Ok true, mkParser (lineData req) ExpectStatusLine (error_ newParser))).
  { unfold parseRequestLine, requestLine. rewrite Hf1.
    destruct (Z.eqb_spec (size (methodToString reg (method req))) npos); [unfold npos in *; lia |].
    rewrite Hf2.
    destruct (Z.eqb_spec (size (methodToString reg (method req)) + 1 + size (path req)) npos);
      [unfold npos in *; lia |].
    rewrite (mbind_lift _ _ _ _ Hsub1), (mbind_lift _ _ _ _ Hsub2), Hmm.
    rewrite (proj1 (version_text _ Hv)). unfold modify. unfold mbind at 1.
    destruct (Z.eqb_spec (method req) _Invalid); [done |]. rewrite decide_False by done.
    rewrite (mbind_lift _ _ _ _ Hsub3), (mbind_lift _ _ _ _ Hraw). unfold mbind at 1.
    unfold lineData, decodedPath.
    destruct (sv_find (path req) x3f 0 =? npos).
    - destruct Hq as [-> ->]. reflexivity.
    - destruct Hq as [Hq Hqs]. rewrite (mbind_lift _ _ _ _ Hq). unfold mbind at 1, mget.
      rewrite (mbind_lift _ _ _ _ Hqs). reflexivity. }
  unfold feedLine. rewrite (mbind_ok mget _ newParser _ _ eq_refl).
  change (state_ newParser) with ExpectStatusLine. cbv iota. by rewrite (mbind_ok _ _ _ _ _ Hline).
Qed.
End request_line.

(** ** The whole head of a request *)

Definition lengthLine (n : Z) : HttpHeader := newHeader (str "Content-Length") (to_string n).

(** The [Connection] header the sink adds. *)
Definition connectionExtra (req : HttpRequest) : list HttpHeader :=
  if om_contains (str "connection") (headers req) then []
  else if negb (keepAlive req) && bool_decide (version req <> kHttp10)
  then [newHeader (str "Connection") (str "close")]
  else if keepAlive req && bool_decide (version req = kHttp10)
  then [newHeader (str "Connection") (str "keep-alive")]
  else [].

(** A request the sink can write: the parts of the request line, headers and
    cookies that fit the syntax and the parser's limits. *)
Record writable_request (reg : MethodRegistry) (req : HttpRequest) : Prop := {
  w_line : line_ok reg req;
  w_headers : om_wf (headers req) /\ keyed (headers req) /\ Forall writable (map snd (headers req));
  w_no_cookie : om_find (str "cookie") (headers req) = None;
  w_count : size (headers req) <= 120;
  w_cookies : om_wf (cookies req) /\ Forall cookie_pair_ok (cookies req);
  w_cookie_size : size (cookieLoop true (cookies req)) < 8000;
  w_length : 0 <= contentLength req < 2 ^ 64
}.

Definition cookieLine (cs : ordmap bytes) : list bytes :=
  if decide (cs = []) then [] else [str "Cookie: " ++ cookieLoop true cs].

Definition wireLines (reg : MethodRegistry) (req : HttpRequest) : list bytes :=
  requestLine reg req :: map headerText (copied (headers req))
  ++ headerText (lengthLine (contentLength req))
  :: cookieLine (cookies req) ++ map headerText (connectionExtra req) ++ [[]].

Lemma headerText_length (n : Z) :
  headerText (lengthLine n) = str "Content-Length" ++ str ": " ++ to_string n.
Proof. unfold headerText, lengthLine. cbn [value_ newHeader]. f_equal. Qed.

Lemma buildHeaderBuf_lines (reg : MethodRegistry) (req : HttpRequest) :
  RequestSink.buildHeaderBuf reg req ContentLength ++ CRLF
  = concat (map (fun l => l ++ CRLF) (wireLines reg req)).
Proof.
  assert (Hc : connectionHeader (negb (keepAlive req) && bool_decide (version req <> kHttp10))
      (keepAlive req && bool_decide (version req = kHttp10)) (headers req)
    = concat (map (fun l => l ++ CRLF) (map headerText (connectionExtra req)))).
  { unfold connectionHeader, connectionExtra.
    destruct (om_contains _ _); [by rewrite andb_false_r |]. rewrite andb_true_r.
    destruct (negb (keepAlive req) && bool_decide (version req <> kHttp10)); [done |].
    by destruct (keepAlive req && bool_decide (version req = kHttp10)). }
  unfold RequestSink.buildHeaderBuf, wireLines, requestLine, lengthHeader, encodingHeader.
  rewrite Hc, headerLoop_copied. cbn [map concat]. rewrite map_app, concat_app. cbn [map concat].
  rewrite !map_app, !concat_app, headerText_length.
  set (X := concat (map _ (map headerText (copied _)))).
  set (Y := concat (map _ (map headerText (connectionExtra _)))).
  rewrite decide_True by done. rewrite decide_False by done. unfold cookieLine.
  change (str " ") with [x20].
  destruct (decide (cookies req = [])); cbn [map concat app]; rewrite ?app_nil_r;
    by rewrite <- ?app_assoc; cbn [app]; rewrite <- ?app_assoc; cbn [app]; rewrite <- ?app_assoc.
Qed.

(** ** The parser on the lines of a request *)

Section lines.
Context (reg : MethodRegistry).
Import Request.

Lemma feed_cookies (cs : ordmap bytes) (p : Parser) :
  om_wf cs -> Forall cookie_pair_ok cs -> cs <> [] -> size (cookieLoop true cs) < 8000 ->
  state_ p = ExpectHeader -> cookies (data_ p) = [] ->
  feedLine reg (str "Cookie: " ++ cookieLoop true cs) p
  = (Ok ExpectHeader, set_data (set_cookies cs (data_ p)) p).
Proof.
  intros Hwf Hok Hne Hs Hst Hck.
  assert (Hl : parseHeaderLine (str "Cookie: " ++ cookieLoop true cs)
    = Ok (str "Cookie", cookieLoop true cs)).
  { apply (parseHeaderLine_render (str "Cookie") [x20]).
    - by apply token_plain.
    - by repeat constructor.
    - by apply cookieLoop_trimmed.
    - rewrite !size_app, size_cons, size_app. change (size (str "Cookie")) with 6.
      change (size [x20]) with 1. unfold npos. lia. }
  unfold feedLine. rewrite (mbind_ok mget _ p p p eq_refl), Hst.
  rewrite decide_False by done.
  assert (Hp : parseHeader (str "Cookie: " ++ cookieLoop true cs) p
    = (Ok tt, set_data (set_cookies cs (data_ p)) p)).
  { unfold parseHeader. rewrite (mbind_lift _ _ _ _ Hl). cbn beta iota.
    change (bool_decide (str "Cookie" = []) || negb (isValidToken (str "Cookie"))) with false.
    cbv iota. rewrite (mbind_ok mget _ p p p eq_refl).
    change (nameCode_ (newHeader (str "Cookie") (cookieLoop true cs))) with NC_Cookie.
    rewrite decide_True by done. rewrite Hck.
    rewrite (mbind_lift _ _ _ _ (parseCookies_loop cs Hwf Hok Hne ltac:(unfold npos; lia))). done. }
  rewrite (mbind_ok _ _ _ _ _ Hp). unfold mbind, mget, mret. cbn [set_data state_]. by rewrite Hst.
Qed.

Lemma to_string_head (n : Z) :
  0 <= n < 2 ^ 64 -> to_string n <> [] /\ Byte.eqb (hd x00 (to_string n)) x2d = false
    /\ trimmed (to_string n) = true /\ no_cr (to_string n) /\ size (to_string n) <= 20.
Proof.
  intros Hn. unfold to_string. destruct (Z.ltb_spec n 0); [lia |].
  destruct (digits_of_spec 10 20 n []) as (ds & -> & Hlen & Hds & _); [by left | lia | lia |].
  rewrite app_nil_r.
  assert (Hd : Forall (fun b => Byte.eqb x20 b = false /\ Byte.eqb b x2d = false
    /\ Byte.eqb x0d b = false) ds).
  { eapply Forall_impl; [exact Hds |]. intros b (d & Hd & ->).
    assert (Hall : forallb (fun d => negb (Byte.eqb x20 (digit_char d))
      && negb (Byte.eqb (digit_char d) x2d) && negb (Byte.eqb x0d (digit_char d))) (zrange 10) = true)
      by reflexivity.
    pose proof (zrange_forall 10 _ Hall d ltac:(lia)) as Hb. cbv beta in Hb. to_prop. done. }
  destruct (exists_last (l := ds)) as (q & z & Hq); [intros ->; simpl in Hlen; lia |].
  destruct ds as [| b ds]; [simpl in Hlen; lia |].
  split; [done |]. pose proof Hd as Hd'. rewrite Hq in Hd'.
  apply Forall_app in Hd' as [_ Hz]. apply Forall_cons in Hz as [[Hz _] _].
  split; [by apply Forall_cons in Hd as [(_ & ? & _) _] |]. split.
  - unfold trimmed. rewrite Hq at 1. rewrite last_last, Hz. cbn [negb]. rewrite andb_true_r.
    by apply Forall_cons in Hd as [(-> & _) _].
  - split; [eapply Forall_impl; [exact Hd |]; by intros c (_ & _ & ?) |]. unfold size. lia.
Qed.

Lemma lengthLine_writable (n : Z) : 0 <= n < 2 ^ 64 -> writable (lengthLine n).
Proof.
  intros Hn. destruct (to_string_head n Hn) as (_ & _ & Ht & Hcr & Hs). unfold lengthLine.
  split; [by eexists |]. cbn [value_ name_ newHeader]. split; [done |]. split; [done |].
  change (size (toLower (str "Content-Length"))) with 14. lia.
Qed.

Lemma connectionExtra_writable (req : HttpRequest) :
  Forall (fun h => writable h /\ nameCode_ h <> NC_Cookie /\ nameCode_ h <> NC_ContentLength)
    (connectionExtra req).
Proof.
  assert (Hw : forall v, trimmed v = true -> no_cr v -> size v < 100 ->
    writable (newHeader (str "Connection") v)).
  { intros v Ht Hcr Hs. split; [by eexists |]. cbn [value_ name_ newHeader]. split; [done |].
    split; [done |]. change (size (toLower (str "Connection"))) with 10. lia. }
  unfold connectionExtra. repeat case_match; try (by constructor);
    (constructor; [split; [apply Hw; [done | by repeat constructor | done] | done] | constructor]).
Qed.

(** The empty line, once the headers say how long the body is. *)
Lemma feed_end (p : Parser) (n : Z) (h : HttpHeader) :
  state_ p = ExpectHeader -> om_find (str "transfer-encoding") (headers (data_ p)) = None ->
  om_find (str "content-length") (headers (data_ p)) = Some h -> value_ h = to_string n ->
  0 <= n < 2 ^ 64 ->
  feedLine reg [] p
  = (Ok HeaderComplete,
     mkParser (set_keepAlive
       (match om_find (str "connection") (headers (data_ p)) with
        | Some h => bool_decide (toLower (value_ h) = str "keep-alive")
        | None => bool_decide (version (data_ p) = kHttp11)
        end) (set_transfer ContentLength n (data_ p))) HeaderComplete (error_ p)).
Proof.
  intros Hst Hte Hcl Hv Hn. unfold feedLine. rewrite (mbind_ok mget _ p p p eq_refl), Hst.
  rewrite decide_True by done.
  destruct (to_string_head n Hn) as (Hne & Hhd & _).
  assert (Hd : transferDecision (headers (data_ p)) = Decided ContentLength (Some n)).
  { unfold transferDecision. rewrite Hte. unfold contentLengthDecision. rewrite Hcl, Hv, Hhd.
    rewrite bool_decide_eq_false_2 by done. cbn [orb]. by rewrite stoul_to_string. }
  assert (Ht : processTransferMode p
    = (Ok true, set_data (set_transfer ContentLength n (data_ p)) p)).
  { unfold processTransferMode. by rewrite (mbind_ok mget _ p p p eq_refl), Hd. }
  assert (Hh : processHeaders p = processKeepAlive (set_data (set_transfer ContentLength n (data_ p)) p))
    by (unfold processHeaders; by rewrite (mbind_ok _ _ _ _ _ Ht)).
  unfold mbind at 1. rewrite Hh. reflexivity.
Qed.

(** The header a program finds in the request that arrives. *)
Definition receivedHeader (req : HttpRequest) (k : bytes) : option HttpHeader :=
  if decide (k = str "content-length") then Some (lengthLine (contentLength req))
  else if decide (k = str "transfer-encoding") then None
  else match om_find k (headers req) with
       | Some h => Some h
       | None => named k (connectionExtra req)
       end.

Definition receivedKeepAlive (req : HttpRequest) : bool :=
  match om_find (str "connection") (headers req) with
  | Some h => bool_decide (toLower (value_ h) = str "keep-alive")
  | None => keepAlive req
  end.

(** The request [d] is what the request [req] becomes on the way. *)
Definition received (req d : HttpRequest) : Prop :=
  version d = version req /\ method d = method req
  /\ path d = decodedPath (path req) /\ rawPath d = targetPath (path req)
  /\ query d = targetQuery (path req) /\ queries d = targetQueries (path req)
  /\ cookies d = cookies req
  /\ transferMode d = ContentLength /\ contentLength d = contentLength req
  /\ keepAlive d = receivedKeepAlive req
  /\ forall k, om_find k (headers d) = receivedHeader req k.

Lemma copied_ok (req : HttpRequest) :
  writable_request reg req ->
  Forall (fun h => writable h /\ nameCode_ h <> NC_Cookie /\ nameCode_ h <> NC_ContentLength)
    (copied (headers req)).
Proof.
  intros Hw. destruct (w_headers _ _ Hw) as (Hwf & Hk & Hall). unfold copied.
  apply List.Forall_forall. intros h Hin. apply list_elem_of_In, list_elem_of_filter in Hin as [Ho Hin].
  apply list_elem_of_In in Hin. pose proof (proj1 (List.Forall_forall _ _) Hall h Hin) as Hwh.
  split; [done |]. split.
  - intros Hc. rewrite (writable_code h Hwh) in Hc. apply nameToCode_iff in Hc; [| done].
    apply in_map_iff in Hin as ([k h'] & Heq & Hin). cbn [snd] in Heq. subst h'.
    pose proof (proj1 (List.Forall_forall _ _) Hk _ Hin) as Hkey. cbn [fst snd] in Hkey.
    pose proof (om_In_find k h (headers req) Hwf Hin) as Hf.
    rewrite Hkey, Hc in Hf. change (codeToName NC_Cookie) with (str "cookie") in Hf.
    by rewrite (w_no_cookie _ _ Hw) in Hf.
  - intros Hc. unfold ownHeader in Ho. rewrite Hc in Ho. by rewrite bool_decide_eq_true_2 in Ho.
Qed.
End lines.

Section whole.
Context (reg : MethodRegistry) (req : HttpRequest) (Hw : writable_request reg req).
Import Request.

(** The parser after the request line, the copied headers and the length. *)
Definition afterLine : Parser := mkParser (lineData req) ExpectHeader (error_ newParser).

Lemma before_cookies : exists m,
  add_header (lengthLine (contentLength req)) (add_headers (copied (headers req)) afterLine)
  = set_data (set_headers m (lineData req)) afterLine
  /\ om_wf m
  /\ (forall k, om_find k m
       = if decide (k = str "content-length") then Some (lengthLine (contentLength req))
         else if decide (k = str "transfer-encoding") then None else om_find k (headers req))
  /\ om_find (str "content-length") (headers (data_ (add_headers (copied (headers req)) afterLine)))
     = None.
Proof.
  destruct (w_headers _ _ Hw) as (Hwf & Hk & Hall).
  destruct (add_headers_data (copied (headers req)) afterLine) as (m & Heq & Hm & Hf).
  { cbn. constructor. }
  cbn [data_ afterLine lineData headers om_find] in Hf.
  assert (Hnone : om_find (str "content-length") m = None)
    by (rewrite Hf, named_copied by done; done).
  rewrite Heq. eexists. split; [reflexivity |]. cbn [set_data set_headers data_ headers].
  split; [by apply om_emplace_wf |]. split; [| done]. intros k.
  rewrite om_find_emplace by done. change (name_ (lengthLine _)) with (str "content-length").
  destruct (decide (k = str "content-length")) as [-> | Hne]; [by rewrite Hnone |].
  rewrite Hf, named_copied by done. unfold ownKey. rewrite bool_decide_eq_false_2 by done.
  cbn [orb]. by destruct (decide (k = str "transfer-encoding")) as [-> |];
    [rewrite bool_decide_eq_true_2 | rewrite bool_decide_eq_false_2].
Qed.

Lemma connectionExtra_other (k : bytes) :
  k <> str "connection" -> named k (connectionExtra req) = None.
Proof.
  intros Hk. unfold connectionExtra. repeat case_match; try done; cbn [named];
    by rewrite decide_False.
Qed.

Lemma keepAlive_received :
  match receivedHeader req (str "connection") with
  | Some h => bool_decide (toLower (value_ h) = str "keep-alive")
  | None => bool_decide (version req = kHttp11)
  end = receivedKeepAlive req.
Proof.
  destruct (w_line _ _ Hw) as (_ & _ & _ & Hv & _).
  unfold receivedHeader, receivedKeepAlive. rewrite !decide_False by done.
  destruct (om_find (str "connection") (headers req)) as [h |] eqn:Hc; [done |].
  unfold connectionExtra, om_contains. rewrite Hc.
  destruct (keepAlive req), (version req); try done; by vm_compute.
Qed.

Lemma request_completes :
  exists p' d, completes (LineParser0 := request_parser reg) newParser (wireLines reg req) p'
    /\ extractResult p' = Parsed d /\ received req d.
Proof.
  destruct before_cookies as (m & Heq & Hm & Hf & Hnone).
  destruct (w_cookies _ _ Hw) as [Hcwf Hcok].
  pose proof (w_length _ _ Hw) as Hn.
  set (p4 := mkParser (set_cookies (cookies req) (set_headers m (lineData req))) ExpectHeader
               (error_ newParser)).
  destruct (add_headers_data (connectionExtra req) p4) as (m5 & Heq5 & Hm5 & Hf5); [done |].
  cbn [p4 data_ set_cookies set_headers headers] in Hf5.
  assert (Hfind : forall k, om_find k m5 = receivedHeader req k).
  { intros k. rewrite Hf5, Hf. unfold receivedHeader.
    destruct (decide (k = str "content-length")); [done |].
    destruct (decide (k = str "transfer-encoding")) as [-> |]; [| done].
    by apply connectionExtra_other. }
  pose proof (feed_end reg (set_data (set_headers m5 (data_ p4)) p4) (contentLength req)
    (lengthLine (contentLength req)) eq_refl) as Hend.
  cbn [data_ set_data set_headers headers] in Hend. rewrite !Hfind in Hend.
  specialize (Hend eq_refl eq_refl eq_refl Hn).
  exists (snd (feedLine reg [] (set_data (set_headers m5 (data_ p4)) p4))),
    (data_ (snd (feedLine reg [] (set_data (set_headers m5 (data_ p4)) p4)))).
  split; [| split; [by rewrite Hend |]].
  - unfold wireLines. eapply completes_cons; [by apply feed_requestLine, Hw |].
    apply completes_headers; [by apply (copied_ok reg) | done |].
    eapply completes_cons; [apply feed_header; [by apply lengthLine_writable | done | | done] |].
    { by rewrite add_headers_state. }
    change (mkParser (lineData req) ExpectHeader (error_ newParser)) with afterLine. rewrite Heq.
    assert (Htail : completes (LineParser0 := request_parser reg) p4
      (map headerText (connectionExtra req) ++ [[]]) (snd (feedLine reg []
        (set_data (set_headers m5 (data_ p4)) p4)))).
    { apply completes_headers; [apply connectionExtra_writable | done |]. rewrite Heq5.
      cbn [completes]. rewrite Hend. done. }
    unfold cookieLine. destruct (decide (cookies req = [])) as [He | Hne].
    + assert (Hp4 : p4 = set_data (set_headers m (lineData req)) afterLine)
        by (unfold p4; by rewrite He).
      rewrite <- Hp4. exact Htail.
    + cbn [app]. eapply completes_cons; [| exact Htail].
      rewrite (feed_cookies reg (cookies req) (set_data (set_headers m (lineData req)) afterLine)
        Hcwf Hcok Hne (w_cookie_size _ _ Hw) eq_refl eq_refl).
      reflexivity.
  - rewrite Hend. cbn. unfold received. cbn. repeat (split; [done |]).
    split; [by apply keepAlive_received |]. exact Hfind.
Qed.
End whole.

(** ** The lines fit the limits of the server *)

Lemma size_copied (hs : HttpHeaderMap) : size (copied hs) <= size hs.
Proof.
  unfold copied, size. apply inj_le.
  rewrite <- (length_map snd hs). apply length_filter.
Qed.

Lemma wireLines_fit (reg : MethodRegistry) (req : HttpRequest) :
  writable_request reg req ->
  Forall head_line (wireLines reg req) /\ size (wireLines reg req) <= 128.
Proof.
  intros Hw. pose proof (w_line _ _ Hw) as (Hm & _ & _ & Hv & _ & Hcr & Hs).
  pose proof (w_length _ _ Hw) as Hn. destruct (w_cookies _ _ Hw) as [_ Hck].
  assert (Hx : size (connectionExtra req) <= 1)
    by (unfold connectionExtra; repeat case_match; vm_compute; discriminate).
  assert (Hc : size (cookieLine (cookies req)) <= 1)
    by (unfold cookieLine; case_decide; vm_compute; discriminate).
  assert (Hh : forall hs, Forall (fun h => writable h /\ nameCode_ h <> NC_Cookie
    /\ nameCode_ h <> NC_ContentLength) hs -> Forall head_line (map headerText hs)).
  { intros hs Hhs. apply Forall_map. eapply Forall_impl; [exact Hhs |]. intros h (? & _).
    by apply headerText_line. }
  unfold wireLines. split.
  - constructor.
    { split; [| done]. unfold requestLine. apply Forall_app. split; [by apply token_no_cr |].
      constructor; [done |]. apply Forall_app. split; [done |]. constructor; [done |].
      by apply version_text. }
    apply Forall_app. split; [by apply Hh, (copied_ok reg) |].
    constructor; [by apply headerText_line, lengthLine_writable |].
    apply Forall_app. split.
    { unfold cookieLine. case_decide; constructor; [| done]. split.
      - apply Forall_app. split; [by repeat constructor | by apply cookieLoop_no_cr].
      - rewrite size_app. change (size (str "Cookie: ")) with 8. pose proof (w_cookie_size _ _ Hw). lia. }
    apply Forall_app. split; [by apply Hh, connectionExtra_writable |].
    constructor; [| done]. by split; [constructor |].
  - rewrite size_cons, size_app, size_cons, !size_app. unfold size at 1. rewrite length_map.
    fold (size (copied (headers req))). unfold size at 3. rewrite length_map.
    fold (size (connectionExtra req)). change (size [[]]) with 1.
    pose proof (size_copied (headers req)). pose proof (w_count _ _ Hw). lia.
Qed.

(** The server reads the head of a request and leaves its body. *)
Lemma request_head_ok {R : Type} `{!ByteStream R} (reg : MethodRegistry) (req : HttpRequest)
    (rest : bytes) (c : conn R) :
  writable_request reg req ->
  remains c (RequestSink.buildHeaderBuf reg req ContentLength ++ CRLF ++ rest) ->
  exists d c', parseNext reg c = (Ok (Parsed d), c') /\ received req d /\ remains c' rest.
Proof.
  intros Hw Hrem. destruct (request_completes reg req Hw) as (p' & d & Hp & Hd & Hrec).
  destruct (wireLines_fit reg req Hw) as [Hlines Hcount].
  rewrite (app_assoc (RequestSink.buildHeaderBuf _ _ _)), buildHeaderBuf_lines in Hrem.
  destruct (readHead_lines (LineParser0 := request_parser reg) true Request.newParser p' c
    (wireLines reg req) rest Hp Hlines ltac:(done) Hrem) as (c' & Hread & Hrem').
  exists d, c'. split; [| done]. unfold parseNext. rewrite Hread. f_equal. f_equal. exact Hd.
Qed.

(** ** Properties *)

(** C3: a request survives the wire.  Whatever a program asks for (any method
    of the registry, any target, headers, cookies and a whole body that fit
    the syntax and the server's limits), what [Http1RequestSink] writes,
    arriving in whatever segments and followed by anything, is what the
    server parses: the same version, method, raw path, query, cookies and
    headers (with the length and connection headers the sink adds, and
    without the ones it replaces), the decoded path and query parameters, and
    the wish to keep the connection.  The body reader the server creates then
    delivers exactly the body and leaves what follows it, the next request,
    on the connection. *)
Theorem request_roundtrip {W R : Type} `{!ByteStream W, !ByteStream R}
    (reg : MethodRegistry) (req : HttpRequest) (body rest : bytes) (w : W) (c : conn R) (fuel : nat) :
  writable_request reg req -> contentLength req = size body -> sent w = [] ->
  remains c (sent (snd (RequestSink.write reg req body w)) ++ rest) -> (length body < fuel)%nat ->
  exists d c' r', parseNext reg c = (Ok (Parsed d), c') /\ received req d
    /\ readBody fuel (mkReader (create c' (transferMode d) (contentLength d)) false) = (Ok body, r')
    /\ remains (reader_conn (impl r')) rest.
Proof.
  intros Hw Hlen Hsent Hrem Hf. unfold RequestSink.write in Hrem. cbn [snd] in Hrem.
  rewrite (proj1 (stream_write_ok _ _)), Hsent, <- !app_assoc in Hrem.
  destruct (request_head_ok reg req (body ++ rest) c Hw Hrem) as (d & c' & Hread & Hrec & Hrem').
  pose proof Hrec as (_ & _ & _ & _ & _ & _ & _ & Hmode & Hcl & _).
  pose proof (create_content_length c' body rest Hrem') as Hdel.
  destruct (readBody_any fuel _ body rest Hdel Hf) as (r' & Hbody & Hrest).
  exists d, c', r'. split; [done |]. split; [done |]. split; [| done]. by rewrite Hmode, Hcl, Hlen.
Qed.

Definition example_request : HttpRequest :=
  mkRequest kHttp11 Post (str "/a%20b?x=1&y=%2B") [] []
    [(str "accept", newHeader (str "Accept") (str "text/html, */*"));
     (str "x-id", newHeader (str "X-ID") [])]
    [(str "a", str "1"); (str "b", str "2=3")] [] ContentLength 3 false.

Lemma request_roundtrip_witness :
  let w := RequestSink.write initRegistry example_request (str "abc") (Script [] []) in
  let c := Conn empty_buffer (Script [take 9 (sent (snd w)); drop 9 (sent (snd w)) ++ str "GET"] []) in
  exists d c' r', parseNext initRegistry c = (Ok (Parsed d), c') /\ received example_request d
    /\ readBody 10 (mkReader (create c' (transferMode d) (contentLength d)) false) = (Ok (str "abc"), r')
    /\ remains (reader_conn (impl r')) (str "GET").
Proof.
  intros w c.
  apply (request_roundtrip (W := script) initRegistry example_request (str "abc") (str "GET")
    (Script [] []) c 10).
  - assert (Hh : Forall writable (map snd (headers example_request))).
    { repeat constructor; try (by repeat constructor); eexists; split; reflexivity. }
    split; try done.
    + repeat split; try (by vm_compute); try (by repeat constructor); discriminate.
    + split; [by repeat constructor | split; [by repeat constructor | done]].
    + split; [by repeat constructor |].
      repeat constructor; try done; by repeat constructor.
  - reflexivity.
  - reflexivity.
  - split; [unfold wf; simpl; lia | by vm_compute].
  - simpl; lia.
Defined.

