(* ===== verification/Huffman.v ===== *)
(** Huffman-coded strings of HPACK: [huffmanDecode] and the bit packing of
    [HpackEncoder::encodeStr] (src/extensions/http2/src/hpack/Hpack.cc), and
    the proof that the decoding automaton inverts the code. *)

From Stdlib Require Import ZArith Lia String Strings.Byte.
From stdpp Require Import base numbers option list.
From S2P Require Import Prelude CxxStd HuffmanTable.
Open Scope Z_scope.

(** ** Decoding *)

Definition errorState : Z := 0x100.

(** One transition, on the next four bits. *)
Definition huffStep (t : HuffDecode) (nibble : Z) (result : bytes) : outcome (HuffDecode * bytes) :=
  let! row := at_ kHuffDecodeTable (fstate t) in
  let! t' := at_ row nibble in
  if fstate t' =? errorState then Throw (RuntimeError "HPACK: Huffman decode error")
  else Ok (t', if negb (Z.land (flags t') Sym =? 0) then result ++ [z2b (sym t')] else result).

Fixpoint huffLoop (data : bytes) (t : HuffDecode) (result : bytes) : outcome (HuffDecode * bytes) :=
  match data with
  | [] => Ok (t, result)
  | c :: data' =>
      let! (t1, r1) := huffStep t (Z.shiftr (b2z c) 4) result in
      let! (t2, r2) := huffStep t1 (Z.land (b2z c) 0xf) r1 in
      huffLoop data' t2 r2
  end.

Definition huffmanDecode (data : bytes) : outcome bytes :=
  let! (t, result) := huffLoop data (mkDecode 0 Accepted 0) [] in
  if Z.land (flags t) Accepted =? 0 then Throw (RuntimeError "HPACK: Huffman decode error")
  else Ok result.

(** ** Encoding *)

(** [code] holds the [nbits] pending bits at its top. *)
Record packer : Type := mkPacker { p_code : Z; p_nbits : Z; p_out : bytes }.

(** [while (nbits >= 8)]: at most 37 bits are pending. *)
Fixpoint flushLoop (fuel : nat) (p : packer) : packer :=
  match fuel with
  | O => p
  | S fuel' =>
      if 8 <=? p_nbits p then
        flushLoop fuel' (mkPacker (u64 (Z.shiftl (p_code p) 8)) (p_nbits p - 8)
                           (p_out p ++ [z2b (Z.shiftr (p_code p) 56)]))
      else p
  end.

Definition packSym (s : HuffSym) (p : packer) : packer :=
  flushLoop 5
    (mkPacker (Z.lor (p_code p) (u64 (Z.shiftl (code s) (32 - p_nbits p))))
       (p_nbits p + nbits s) (p_out p)).

Fixpoint packLoop (s : bytes) (p : packer) : outcome packer :=
  match s with
  | [] => Ok p
  | c :: s' => let! h := at_ kHuffSymTable (b2z c) in packLoop s' (packSym h p)
  end.

(** The last bits, filled up with ones. *)
Definition packEnd (p : packer) : bytes :=
  if 0 <? p_nbits p
  then p_out p ++ [z2b (Z.lor (Z.shiftr (p_code p) 56) (2 ^ (8 - p_nbits p) - 1))]
  else p_out p.

(** ** Bits *)

(** The [n] low bits of [v], the most significant first. *)
Fixpoint to_bits (n : nat) (v : Z) : list bool :=
  match n with
  | O => []
  | S n' => Z.testbit v (Z.of_nat n') :: to_bits n' v
  end.

Definition bits_of (d : bytes) : list bool := concat (map (fun b => to_bits 8 (b2z b)) d).

(** The code of a symbol as bits. *)
Definition symAt (i : Z) : HuffSym := nth (Z.to_nat i) kHuffSymTable (mkSym 0 0).
Definition codeBits (i : Z) : list bool :=
  let s := symAt i in to_bits (Z.to_nat (nbits s)) (Z.shiftr (code s) (32 - nbits s)).
Definition codeOf (s : bytes) : list bool := concat (map (fun b => codeBits (b2z b)) s).

Definition ones (n : nat) : list bool := replicate n true.

(** The bits a state of the automaton has read since the last symbol, as
    their number and their value. *)
Definition pathTable : list (Z * Z) := [
    (0, 0); (1, 0); (2, 0); (3, 0); (4, 0); (4, 1); (3, 1); (4, 2);
    (4, 3); (2, 1); (3, 2); (4, 4); (4, 5); (5, 10); (5, 11); (3, 3);
    (4, 6); (5, 12); (5, 13); (4, 7); (5, 14); (5, 15); (1, 1); (2, 2);
    (3, 4); (4, 8); (5, 16); (5, 17); (4, 9); (5, 18); (5, 19); (3, 5);
    (4, 10); (5, 20); (5, 21); (4, 11); (5, 22); (5, 23); (6, 46); (6, 47);
    (2, 3); (3, 6); (4, 12); (5, 24); (6, 48); (6, 49); (5, 25); (6, 50);
    (6, 51); (4, 13); (5, 26); (6, 52); (6, 53); (5, 27); (6, 54); (6, 55);
    (3, 7); (4, 14); (5, 28); (6, 56); (6, 57); (5, 29); (6, 58); (6, 59);
    (4, 15); (5, 30); (6, 60); (6, 61); (5, 31); (6, 62); (7, 124); (7, 125);
    (6, 63); (7, 126); (7, 127); (8, 254); (9, 508); (9, 509); (8, 255); (9, 510);
    (10, 1021); (9, 511); (10, 1022); (11, 2045); (10, 1023); (11, 2046); (12, 4092); (12, 4093);
    (11, 2047); (12, 4094); (12, 4095); (13, 8190); (13, 8191); (14, 16382); (14, 16383); (15, 32767);
    (16, 65534); (17, 131068); (18, 262136); (18, 262137); (19, 524275); (17, 131069); (18, 262138); (19, 524276);
    (19, 524277); (18, 262139); (19, 524278); (19, 524279); (20, 1048558); (20, 1048559); (16, 65535); (17, 131070);
    (18, 262140); (19, 524280); (20, 1048560); (20, 1048561); (19, 524281); (20, 1048562); (20, 1048563); (18, 262141);
    (19, 524282); (20, 1048564); (21, 2097129); (20, 1048565); (21, 2097130); (21, 2097131); (19, 524283); (20, 1048566);
    (21, 2097132); (21, 2097133); (20, 1048567); (21, 2097134); (21, 2097135); (17, 131071); (18, 262142); (19, 524284);
    (20, 1048568); (21, 2097136); (21, 2097137); (20, 1048569); (21, 2097138); (21, 2097139); (19, 524285); (20, 1048570);
    (21, 2097140); (21, 2097141); (20, 1048571); (21, 2097142); (22, 4194284); (22, 4194285); (21, 2097143); (22, 4194286);
    (22, 4194287); (18, 262143); (19, 524286); (20, 1048572); (21, 2097144); (22, 4194288); (22, 4194289); (21, 2097145);
    (22, 4194290); (22, 4194291); (20, 1048573); (21, 2097146); (22, 4194292); (22, 4194293); (21, 2097147); (22, 4194294);
    (22, 4194295); (19, 524287); (20, 1048574); (21, 2097148); (22, 4194296); (22, 4194297); (21, 2097149); (22, 4194298);
    (23, 8388597); (22, 4194299); (23, 8388598); (23, 8388599); (20, 1048575); (21, 2097150); (22, 4194300); (23, 8388600);
    (23, 8388601); (22, 4194301); (23, 8388602); (23, 8388603); (24, 16777206); (24, 16777207); (21, 2097151); (22, 4194302);
    (23, 8388604); (24, 16777208); (25, 33554416); (25, 33554417); (24, 16777209); (25, 33554418); (25, 33554419); (23, 8388605);
    (24, 16777210); (25, 33554420); (25, 33554421); (24, 16777211); (25, 33554422); (25, 33554423); (26, 67108847); (22, 4194303);
    (23, 8388606); (24, 16777212); (25, 33554424); (26, 67108848); (26, 67108849); (25, 33554425); (26, 67108850); (26, 67108851);
    (24, 16777213); (25, 33554426); (26, 67108852); (26, 67108853); (25, 33554427); (26, 67108854); (26, 67108855); (23, 8388607);
    (24, 16777214); (25, 33554428); (26, 67108856); (27, 134217713); (26, 67108857); (27, 134217714); (27, 134217715); (25, 33554429);
    (26, 67108858); (27, 134217716); (27, 134217717); (26, 67108859); (27, 134217718); (27, 134217719); (24, 16777215); (25, 33554430);
    (26, 67108860); (27, 134217720); (27, 134217721); (26, 67108861); (27, 134217722); (27, 134217723); (25, 33554431); (26, 67108862);
    (27, 134217724); (27, 134217725); (26, 67108863); (27, 134217726); (27, 134217727); (28, 268435455); (29, 536870910); (29, 536870911)].
Definition path (f : Z) : list bool :=
  let '(n, v) := nth (Z.to_nat f) pathTable (0, 0) in to_bits (Z.to_nat n) v.

(** ** The code tree

    The tree of all codes, built by inserting them: that every code is found
    at a leaf of it is checked by computation, and makes the code prefix-free. *)

Inductive tree : Type :=
| Missing
| Leaf (s : Z)
| Node (l r : tree).

Fixpoint insert (bits : list bool) (s : Z) (t : tree) : tree :=
  match bits with
  | [] => Leaf s
  | b :: bits' =>
      let '(l, r) := match t with Node l r => (l, r) | _ => (Missing, Missing) end in
      if b then Node l (insert bits' s r) else Node (insert bits' s l) r
  end.

(** Following bits down the tree; a leaf is not left. *)
Fixpoint walk (t : tree) (bits : list bool) : tree :=
  match bits, t with
  | [], _ => t
  | b :: bits', Node l r => walk (if b then r else l) bits'
  | _, _ => t
  end.

Definition codeTree : tree :=
  foldr (fun y t => insert (codeBits y) y t) Missing (zrange 256).

(** ** Checking the tables *)

(** Up to seven ones. *)
Definition paddingb (a : list bool) : bool := forallb (fun b => b) a && (length a <=? 7)%nat.

(** A transition reads four bits more, and takes away the code of a symbol
    when it completes one; it is an error only when what was read leaves the
    tree of codes. *)
Definition entryOk (tr : tree) (b : list bool) (e : HuffDecode) : bool :=
  if fstate e =? errorState then match walk tr b with Missing => true | _ => false end
  else
    (0 <=? fstate e) && (fstate e <? 256)
    && eqb (negb (Z.land (flags e) Accepted =? 0)) (paddingb (path (fstate e)))
    && (if negb (Z.land (flags e) Sym =? 0)
        then (0 <=? sym e) && (sym e <? 256)
             && bool_decide (b = codeBits (sym e) ++ path (fstate e))
        else bool_decide (b = path (fstate e))).

Definition rowOk (tr : tree) (p : list bool) (r : list HuffDecode) : bool :=
  (length r =? 16)%nat
  && forallb (fun ne => entryOk tr (p ++ to_bits 4 (fst ne)) (snd ne)) (combine (zrange 16) r).

Definition entriesOk (tr : tree) : bool :=
  forallb (fun pr => rowOk tr (let '(n, v) := fst pr in to_bits (Z.to_nat n) v) (snd pr))
    (combine pathTable kHuffDecodeTable).

Lemma entries_ok : entriesOk codeTree = true.
Proof. by vm_compute. Qed.

Lemma table_shape :
  length kHuffDecodeTable = 257%nat /\ length pathTable = 256%nat /\ length kHuffSymTable = 257%nat.
Proof. by vm_compute. Qed.

(** Every code is a leaf, every state is inside the tree, and the codes have
    between 5 and 30 bits, kept at the top of a 32-bit word. *)
Lemma codes_ok :
  (let tr := codeTree in
   forallb (fun y =>
     (5 <=? nbits (symAt y)) && (nbits (symAt y) <=? 30)
     && (0 <=? code (symAt y)) && (code (symAt y) <? 2 ^ 32)
     && (Z.land (code (symAt y)) (2 ^ (32 - nbits (symAt y)) - 1) =? 0)
     && negb (paddingb (codeBits y))
     && match walk tr (codeBits y) with Leaf s => s =? y | _ => false end) (zrange 256)) = true.
Proof. by vm_compute. Qed.

Lemma paths_ok :
  (let tr := codeTree in
   forallb (fun f => match walk tr (path f) with Node _ _ => true | _ => false end) (zrange 256)) = true.
Proof. by vm_compute. Qed.

(** The longest padding is inside the tree as well. *)
Lemma ones_ok : match walk codeTree (ones 7) with Node _ _ => true | _ => false end = true.
Proof. by vm_compute. Qed.

#[local] Opaque codeTree pathTable kHuffDecodeTable kHuffSymTable.

(** ** The code is prefix-free *)

Lemma walk_app (t : tree) (a b : list bool) : walk t (a ++ b) = walk (walk t a) b.
Proof.
  revert t. induction a as [| x a IH]; intros t; [by destruct t |].
  destruct t as [| s | l r]; cbn [app walk]; [by destruct b | by destruct b | apply IH].
Qed.

Lemma walk_leaf (s : Z) (b : list bool) : walk (Leaf s) b = Leaf s.
Proof. by destruct b. Qed.

Lemma walk_missing (b : list bool) : walk Missing b = Missing.
Proof. by destruct b. Qed.

Lemma code_facts (y : Z) :
  0 <= y < 256 ->
  5 <= nbits (symAt y) <= 30 /\ 0 <= code (symAt y) < 2 ^ 32
  /\ Z.land (code (symAt y)) (2 ^ (32 - nbits (symAt y)) - 1) = 0
  /\ paddingb (codeBits y) = false /\ walk codeTree (codeBits y) = Leaf y.
Proof.
  intros Hy. pose proof (zrange_forall 256 _ codes_ok y Hy) as H. cbv beta zeta in H.
  apply andb_prop in H as [H Hw]. to_prop.
  destruct (walk codeTree (codeBits y)) as [| s |]; try done. to_prop. by subst s.
Qed.

Lemma code_comparable (x y : Z) (u v : list bool) :
  0 <= x < 256 -> 0 <= y < 256 -> codeBits x ++ u = codeBits y ++ v -> x = y.
Proof.
  intros Hx Hy Heq. apply (f_equal (walk codeTree)) in Heq. rewrite !walk_app in Heq.
  destruct (code_facts x Hx) as (_ & _ & _ & _ & Hwx).
  destruct (code_facts y Hy) as (_ & _ & _ & _ & Hwy).
  rewrite Hwx, Hwy, !walk_leaf in Heq. congruence.
Qed.

Lemma path_incomplete (f y : Z) (u : list bool) :
  0 <= f < 256 -> 0 <= y < 256 -> path f <> codeBits y ++ u.
Proof.
  intros Hf Hy Heq. pose proof (zrange_forall 256 _ paths_ok f Hf) as H. cbv beta zeta in H.
  rewrite Heq, walk_app in H. destruct (code_facts y Hy) as (_ & _ & _ & _ & Hw).
  rewrite Hw, walk_leaf in H. discriminate H.
Qed.

Lemma ones_app (k m : nat) : ones (k + m) = ones k ++ ones m.
Proof. apply replicate_add. Qed.

Lemma ones_padding (k : nat) : (k <= 7)%nat -> paddingb (ones k) = true.
Proof. intros Hk. do 8 (destruct k as [| k]; [done |]). lia. Qed.

Lemma prefix_ones (a b : list bool) (k : nat) : a ++ b = ones k -> a = ones (length a).
Proof.
  revert k. induction a as [| x a IH]; intros k H; [done |]. destruct k as [| k]; [done |].
  injection H as -> H. cbn [length]. change (ones (S (length a))) with (true :: ones (length a)).
  by rewrite <- (IH k H).
Qed.

Lemma code_not_padding (y : Z) (u : list bool) (k : nat) :
  0 <= y < 256 -> (k <= 7)%nat -> codeBits y ++ u <> ones k.
Proof.
  intros Hy Hk Heq. destruct (code_facts y Hy) as (_ & _ & _ & Hp & _).
  pose proof (f_equal length Heq) as Hl. rewrite length_app in Hl.
  unfold ones in Hl at 1. rewrite length_replicate in Hl.
  rewrite (prefix_ones _ _ _ Heq), ones_padding in Hp; [done | lia].
Qed.

Lemma codeOf_cons (b : byte) (s : bytes) : codeOf (b :: s) = codeBits (b2z b) ++ codeOf s.
Proof. done. Qed.

Lemma codeOf_app (s1 s2 : bytes) : codeOf (s1 ++ s2) = codeOf s1 ++ codeOf s2.
Proof. unfold codeOf. by rewrite map_app, concat_app. Qed.

(** Decoding is unique: symbols read from the coded text are its symbols. *)
Lemma codeOf_strip (r s : bytes) (u : list bool) (k : nat) :
  (k <= 7)%nat -> codeOf r ++ u = codeOf s ++ ones k ->
  exists s2, s = r ++ s2 /\ u = codeOf s2 ++ ones k.
Proof.
  intros Hk. revert s. induction r as [| x r IH]; intros s Heq; [by exists s |].
  rewrite codeOf_cons, <- app_assoc in Heq. destruct s as [| y s].
  - by apply code_not_padding in Heq; [| apply b2z_range |].
  - rewrite codeOf_cons, <- app_assoc in Heq.
    pose proof (code_comparable _ _ _ _ (b2z_range x) (b2z_range y) Heq) as Hxy.
    apply b2z_inj in Hxy as ->. apply app_inv_head in Heq.
    destruct (IH s Heq) as (s2 & -> & ->). by exists s2.
Qed.

(** ** The automaton follows the code *)

Lemma combine_lookup {A B : Type} (l : list A) (k : list B) (i : nat) (a : A) (b : B) :
  l !! i = Some a -> k !! i = Some b -> In (a, b) (combine l k).
Proof.
  revert k i. induction l as [| x l IH]; intros [| y k] [| i] Ha Hb; simplify_eq/=; [by left |].
  right. by apply (IH k i).
Qed.

Lemma zrange_lookup (n : nat) (z : Z) :
  0 <= z < Z.of_nat n -> zrange n !! Z.to_nat z = Some z.
Proof.
  intros Hz. unfold zrange. rewrite list_lookup_fmap, lookup_seq_lt by lia. simpl. f_equal. lia.
Qed.

Lemma transition (f n : Z) :
  0 <= f < 256 -> 0 <= n < 16 ->
  exists row e, at_ kHuffDecodeTable f = Ok row /\ at_ row n = Ok e
    /\ entryOk codeTree (path f ++ to_bits 4 n) e = true.
Proof.
  intros Hf Hn. destruct table_shape as (Hl1 & Hl2 & _).
  destruct (at_total kHuffDecodeTable f) as (row & Hrow & Hrl); [unfold size; lia |].
  destruct (lookup_lt_is_Some_2 pathTable (Z.to_nat f) ltac:(lia)) as [pv Hpv].
  pose proof entries_ok as H. unfold entriesOk in H. rewrite forallb_forall in H.
  specialize (H _ (combine_lookup _ _ _ _ _ Hpv Hrl)). cbn [fst snd] in H.
  unfold rowOk in H. apply andb_prop in H as [Hlen H]. apply Nat.eqb_eq in Hlen.
  destruct (at_total row n) as (e & He & Hel); [unfold size; lia |].
  rewrite forallb_forall in H.
  specialize (H _ (combine_lookup _ _ _ _ _ (zrange_lookup 16 n ltac:(lia)) Hel)).
  cbn [fst snd] in H. exists row, e. split; [done |]. split; [done |].
  unfold path. by rewrite (nth_lookup_Some _ _ _ _ Hpv).
Qed.

(** The state of the decoder: a state of the table, whose flag tells whether
    the bits since the last symbol may be padding. *)
Definition state_ok (t : HuffDecode) : Prop :=
  0 <= fstate t < 256 /\ (Z.land (flags t) Accepted =? 0) = negb (paddingb (path (fstate t))).

Lemma huffStep_ok (t : HuffDecode) (n : Z) (r s2 : bytes) (u : list bool) (k : nat) :
  state_ok t -> 0 <= n < 16 -> (k <= 7)%nat ->
  (path (fstate t) ++ to_bits 4 n) ++ u = codeOf s2 ++ ones k ->
  exists t' more, huffStep t n r = Ok (t', r ++ more) /\ state_ok t'
    /\ path (fstate t) ++ to_bits 4 n = codeOf more ++ path (fstate t').
Proof.
  intros [Hf _] Hn Hk Hb. destruct (transition (fstate t) n Hf Hn) as (row & e & Hrow & He & Hok).
  set (b := path (fstate t) ++ to_bits 4 n) in *. unfold huffStep. rewrite Hrow. cbn [obind].
  rewrite He. cbn [obind]. unfold entryOk in Hok. destruct (Z.eqb_spec (fstate e) errorState) as [| Hne].
  - exfalso. destruct (walk codeTree b) eqn:Hw; try discriminate Hok.
    apply (f_equal (walk codeTree)) in Hb. rewrite walk_app, Hw, walk_missing in Hb.
    destruct s2 as [| y s2].
    + cbn [codeOf map concat app] in Hb. pose proof ones_ok as Ho.
      replace 7%nat with (k + (7 - k))%nat in Ho by lia.
      rewrite ones_app, walk_app, <- Hb, walk_missing in Ho. discriminate Ho.
    + rewrite codeOf_cons, !walk_app in Hb.
      destruct (code_facts (b2z y) (b2z_range y)) as (_ & _ & _ & _ & Hy).
      rewrite Hy, !walk_leaf in Hb. discriminate Hb.
  - apply andb_prop in Hok as [Hok Hsym]. apply andb_prop in Hok as [Hok Hflag].
    apply andb_prop in Hok as [H0 H1]. apply Z.leb_le in H0. apply Z.ltb_lt in H1.
    apply eqb_prop in Hflag.
    assert (Hst : state_ok e) by (split; [done | by rewrite <- Hflag, negb_involutive]).
    destruct (negb (Z.land (flags e) Sym =? 0)).
    + apply andb_prop in Hsym as [Hsym Heq]. apply andb_prop in Hsym as [Hs0 Hs1].
      apply Z.leb_le in Hs0. apply Z.ltb_lt in Hs1. apply bool_decide_eq_true in Heq.
      exists e, [z2b (sym e)]. split; [done |]. split; [done |].
      unfold codeOf. cbn [map concat]. rewrite app_nil_r, b2z_z2b_small by lia. done.
    + apply bool_decide_eq_true in Hsym. exists e, []. by rewrite app_nil_r.
Qed.

Lemma to_bits_byte (c : byte) :
  to_bits 8 (b2z c) = to_bits 4 (Z.shiftr (b2z c) 4) ++ to_bits 4 (Z.land (b2z c) 0xf).
Proof.
  revert c. apply (byte_forall_dec (fun c =>
    to_bits 8 (b2z c) = to_bits 4 (Z.shiftr (b2z c) 4) ++ to_bits 4 (Z.land (b2z c) 0xf))).
  by vm_compute.
Qed.

Lemma nibbles (c : byte) :
  0 <= Z.shiftr (b2z c) 4 < 16 /\ 0 <= Z.land (b2z c) 0xf < 16.
Proof.
  pose proof (b2z_range c). rewrite (land_mask_mod _ 0xf 4), Z.shiftr_div_pow2 by lia.
  change (2 ^ 4) with 16. split; Z.to_euclidean_division_equations; lia.
Qed.

Lemma huffLoop_ok (data : bytes) (t : HuffDecode) (r s : bytes) (k : nat) :
  state_ok t -> (k <= 7)%nat ->
  codeOf r ++ path (fstate t) ++ bits_of data = codeOf s ++ ones k ->
  exists t', huffLoop data t r = Ok (t', s) /\ state_ok t' /\ path (fstate t') = ones k.
Proof.
  intros Ht Hk. revert t r Ht. induction data as [| c data IH]; intros t r Ht Heq.
  - cbn [bits_of map concat] in Heq. rewrite app_nil_r in Heq.
    destruct (codeOf_strip r s _ k Hk Heq) as (s2 & -> & Hp). destruct s2 as [| y s2].
    + rewrite app_nil_r. exists t. by repeat split; try apply Ht.
    + rewrite codeOf_cons, <- app_assoc in Hp.
      by destruct (path_incomplete (fstate t) (b2z y) _ (proj1 Ht) (b2z_range y) Hp).
  - cbn [huffLoop]. destruct (nibbles c) as [Hn1 Hn2].
    unfold bits_of in Heq. cbn [map concat] in Heq. fold (bits_of data) in Heq.
    rewrite to_bits_byte in Heq.
    set (hi := Z.shiftr (b2z c) 4) in *. set (lo := Z.land (b2z c) 0xf) in *.
    destruct (codeOf_strip r s _ k Hk Heq) as (s2 & -> & H1).
    destruct (huffStep_ok t hi r s2 (to_bits 4 lo ++ bits_of data) k Ht Hn1 Hk)
      as (t1 & m1 & -> & Ht1 & Hb1); [by rewrite <- H1, <- !app_assoc |]. cbn [obind].
    destruct (codeOf_strip m1 s2 (path (fstate t1) ++ to_bits 4 lo ++ bits_of data) k Hk)
      as (s3 & -> & H3); [by rewrite <- H1, app_assoc, <- Hb1, <- !app_assoc |].
    destruct (huffStep_ok t1 lo (r ++ m1) s3 (bits_of data) k Ht1 Hn2 Hk)
      as (t2 & m2 & -> & Ht2 & Hb2); [by rewrite <- H3, <- !app_assoc |]. cbn [obind].
    apply IH; [done |]. rewrite !codeOf_app, <- !app_assoc.
    do 2 f_equal. rewrite <- H3, app_assoc, <- Hb2. by rewrite <- !app_assoc.
Qed.

Lemma huffmanDecode_bits (data s : bytes) (k : nat) :
  (k <= 7)%nat -> bits_of data = codeOf s ++ ones k -> huffmanDecode data = Ok s.
Proof.
  intros Hk Hb. unfold huffmanDecode.
  destruct (huffLoop_ok data (mkDecode 0 Accepted 0) [] s k) as (t' & -> & [_ Hacc] & Hp).
  - split; [done |]. by vm_compute.
  - done.
  - exact Hb.
  - cbn [obind]. by rewrite Hacc, Hp, ones_padding.
Qed.

(** ** The packer appends codes *)

Lemma to_bits_mod (n : nat) (v m : Z) :
  0 <= m -> (Z.of_nat n <= m) -> to_bits n (v mod 2 ^ m) = to_bits n v.
Proof.
  intros Hm. induction n as [| n IH]; intros Hn; [done |]. cbn [to_bits].
  rewrite IH by lia. f_equal. apply Z.mod_pow2_bits_low. lia.
Qed.

Lemma to_bits_app (n m : nat) (p q : Z) :
  0 <= q < 2 ^ Z.of_nat m -> to_bits (n + m) (p * 2 ^ Z.of_nat m + q) = to_bits n p ++ to_bits m q.
Proof.
  intros Hq. set (v := p * 2 ^ Z.of_nat m + q).
  assert (Hhi : v / 2 ^ Z.of_nat m = p).
  { unfold v. rewrite Z.add_comm, Z.div_add, Z.div_small by lia. lia. }
  assert (Hlo : v mod 2 ^ Z.of_nat m = q).
  { unfold v. rewrite Z.add_comm, Z.mod_add, Z.mod_small by lia. lia. }
  rewrite <- Hhi, <- Hlo at 1. clearbody v. clear Hhi Hlo Hq.
  induction n as [| n IH]; cbn [Nat.add to_bits app].
  - symmetry. apply to_bits_mod; lia.
  - rewrite IH. f_equal. rewrite <- Z.shiftr_div_pow2, Z.shiftr_spec by lia.
    by rewrite Nat2Z.inj_add.
Qed.

Lemma to_bits_ones (n : nat) : to_bits n (2 ^ Z.of_nat n - 1) = ones n.
Proof.
  induction n as [| n IH]; [done |]. cbn [to_bits]. unfold ones. cbn [replicate]. f_equal.
  - rewrite Z.sub_1_r.
    rewrite <- Z.ones_equiv. apply Z.ones_spec_low. lia.
  - change (replicate n true) with (ones n). rewrite <- IH.
    rewrite <- (to_bits_mod n (2 ^ Z.of_nat (S n) - 1) (Z.of_nat n)) by lia. f_equal.
    rewrite Nat2Z.inj_succ, Z.pow_succ_r by lia.
    symmetry. apply (Z.mod_unique _ _ 1); lia.
Qed.

(** The packer [p] stands for the bits [b]. *)
Definition packs (p : packer) (b : list bool) : Prop :=
  0 <= p_nbits p /\ exists v, 0 <= v < 2 ^ p_nbits p /\ p_code p = v * 2 ^ (64 - p_nbits p)
  /\ b = bits_of (p_out p) ++ to_bits (Z.to_nat (p_nbits p)) v.

Lemma bits_of_app (a b : bytes) : bits_of (a ++ b) = bits_of a ++ bits_of b.
Proof. unfold bits_of. by rewrite map_app, concat_app. Qed.

Lemma bits_of_byte (z : Z) : 0 <= z < 256 -> bits_of [z2b z] = to_bits 8 z.
Proof. intros Hz. unfold bits_of. cbn [map concat]. by rewrite app_nil_r, b2z_z2b_small. Qed.

Lemma flush_one (p : packer) (b : list bool) :
  packs p b -> 8 <= p_nbits p <= 64 ->
  packs (mkPacker (u64 (Z.shiftl (p_code p) 8)) (p_nbits p - 8)
           (p_out p ++ [z2b (Z.shiftr (p_code p) 56)])) b.
Proof.
  intros (Hn0 & v & Hv & Hc & ->) Hn. split; cbn [p_nbits p_out p_code]; [lia |].
  set (n := p_nbits p) in *. set (k := n - 8) in *.
  assert (Hpow : 2 ^ n = 256 * 2 ^ k) by (change 256 with (2 ^ 8); rewrite <- Z.pow_add_r by lia; f_equal; lia).
  assert (Hk : 0 < 2 ^ k) by (apply Z.pow_pos_nonneg; lia).
  pose proof (Z.mod_pos_bound v (2 ^ k) Hk) as Hmod.
  pose proof (Z.div_mod v (2 ^ k) ltac:(lia)) as Hdm.
  assert (Hdiv : 0 <= v / 2 ^ k < 256)
    by (split; [apply Z.div_pos; lia | apply Z.div_lt_upper_bound; lia]).
  exists (v mod 2 ^ k). split; [done |]. split.
  - rewrite Hc, Z.shiftl_mul_pow2 by lia. unfold u64.
    assert (H64 : 2 ^ 64 = 2 ^ k * 2 ^ (64 - k)) by (rewrite <- Z.pow_add_r by lia; f_equal; lia).
    replace (v * 2 ^ (64 - n) * 2 ^ 8) with (v * 2 ^ (64 - k))
      by (rewrite <- Z.mul_assoc, <- Z.pow_add_r by lia; do 2 f_equal; lia).
    rewrite H64. apply Z.mul_mod_distr_r; [lia |]. apply Z.pow_nonzero; lia.
  - rewrite Hc, Z.shiftr_div_pow2 by lia.
    assert (H56 : 2 ^ 56 = 2 ^ k * 2 ^ (64 - n)) by (rewrite <- Z.pow_add_r by lia; f_equal; lia).
    rewrite H56, Z.div_mul_cancel_r by (try apply Z.pow_nonzero; lia).
    rewrite bits_of_app, bits_of_byte, <- app_assoc by done. f_equal.
    replace (Z.to_nat n) with (8 + Z.to_nat k)%nat by lia.
    rewrite <- to_bits_app by (rewrite Z2Nat.id by lia; done).
    f_equal. rewrite Z2Nat.id by lia. lia.
Qed.

Lemma flushLoop_ok (fuel : nat) (p : packer) (b : list bool) :
  packs p b -> p_nbits p < 8 * (Z.of_nat fuel + 1) -> p_nbits p <= 64 ->
  packs (flushLoop fuel p) b /\ p_nbits (flushLoop fuel p) < 8.
Proof.
  revert p. induction fuel as [| fuel IH]; intros p Hp Hf H64; [by split; [| simpl in *; lia] |].
  cbn [flushLoop]. destruct (Z.leb_spec 8 (p_nbits p)) as [Hge | Hlt]; [| done].
  apply IH; [by apply flush_one | cbn [p_nbits]; lia ..].
Qed.

Lemma packSym_ok (y : Z) (p : packer) (b : list bool) :
  0 <= y < 256 -> packs p b -> p_nbits p < 8 ->
  packs (packSym (symAt y) p) (b ++ codeBits y) /\ p_nbits (packSym (symAt y) p) < 8.
Proof.
  intros Hy (Hn0 & v & Hv & Hc & ->) Hn. destruct (code_facts y Hy) as (Hk & Hcode & Hland & _).
  unfold packSym. set (n := p_nbits p) in *. unfold codeBits.
  set (k := nbits (symAt y)) in *. set (c := code (symAt y)) in *.
  set (w := Z.shiftr c (32 - k)).
  assert (H32 : 2 ^ 32 = 2 ^ k * 2 ^ (32 - k)) by (rewrite <- Z.pow_add_r by lia; f_equal; lia).
  assert (Hp32 : 0 < 2 ^ (32 - k)) by (apply Z.pow_pos_nonneg; lia).
  assert (Hcw : c = w * 2 ^ (32 - k)).
  { unfold w. rewrite Z.shiftr_div_pow2 by lia.
    rewrite (land_mask_mod c _ (32 - k)) in Hland by lia.
    pose proof (Z.div_mod c (2 ^ (32 - k)) ltac:(lia)). lia. }
  assert (Hw : 0 <= w < 2 ^ k) by nia.
  apply flushLoop_ok; [| cbn [p_nbits]; lia ..].
  assert (Hpk : 0 < 2 ^ k) by (apply Z.pow_pos_nonneg; lia).
  assert (Hpn : 0 < 2 ^ n) by (apply Z.pow_pos_nonneg; lia).
  assert (Hshift : Z.shiftl c (32 - n) = w * 2 ^ (64 - n - k)).
  { rewrite Z.shiftl_mul_pow2, Hcw, <- Z.mul_assoc, <- Z.pow_add_r by lia. do 2 f_equal. lia. }
  assert (H64 : 2 ^ (64 - n) = 2 ^ k * 2 ^ (64 - n - k)) by (rewrite <- Z.pow_add_r by lia; f_equal; lia).
  assert (Hpr : 0 < 2 ^ (64 - n - k)) by (apply Z.pow_pos_nonneg; lia).
  assert (Hle : 2 ^ (64 - n) <= 2 ^ 64) by (apply Z.pow_le_mono_r; lia).
  split; cbn [p_nbits p_code p_out]; [lia |]. exists (v * 2 ^ k + w).
  assert (Hsum : 2 ^ (n + k) = 2 ^ n * 2 ^ k) by (apply Z.pow_add_r; lia).
  split; [nia |]. split.
  - rewrite Hc, Hshift. unfold u64. rewrite Z.mod_small by nia.
    rewrite <- (Z.shiftl_mul_pow2 v) by lia. rewrite lor_shiftl_add by (lia || nia).
    replace (64 - (n + k)) with (64 - n - k) by lia. rewrite H64. ring.
  - replace (Z.to_nat (n + k)) with (Z.to_nat n + Z.to_nat k)%nat by lia.
    rewrite <- app_assoc, <- to_bits_app by (rewrite Z2Nat.id; lia).
    by rewrite Z2Nat.id by lia.
Qed.

Lemma packLoop_ok (s : bytes) (p : packer) (b : list bool) :
  packs p b -> p_nbits p < 8 ->
  exists p', packLoop s p = Ok p' /\ packs p' (b ++ codeOf s) /\ p_nbits p' < 8.
Proof.
  revert p b. induction s as [| c s IH]; intros p b Hp Hn.
  - exists p. by rewrite app_nil_r.
  - cbn [packLoop]. destruct table_shape as (_ & _ & Hl). pose proof (b2z_range c) as Hc.
    destruct (at_total kHuffSymTable (b2z c)) as (h & Hh & Hlk); [unfold size; lia |].
    rewrite Hh. cbn [obind].
    assert (h = symAt (b2z c)) as -> by (unfold symAt; by rewrite (nth_lookup_Some _ _ _ _ Hlk)).
    destruct (packSym_ok (b2z c) p b Hc Hp Hn) as [Hp' Hn'].
    destruct (IH _ _ Hp' Hn') as (p' & ? & ? & ?). exists p'. split; [done |].
    by rewrite codeOf_cons, app_assoc.
Qed.

Lemma packEnd_ok (p : packer) (b : list bool) :
  packs p b -> p_nbits p < 8 -> exists k, (k <= 7)%nat /\ bits_of (packEnd p) = b ++ ones k.
Proof.
  intros (Hn0 & v & Hv & Hc & ->) Hn. unfold packEnd. set (n := p_nbits p) in *.
  destruct (Z.ltb_spec 0 n) as [Hpos | Hle].
  - exists (Z.to_nat (8 - n)). split; [lia |].
    assert (Hpow : 2 ^ 8 = 2 ^ n * 2 ^ (8 - n)) by (rewrite <- Z.pow_add_r by lia; f_equal; lia).
    assert (Hp8 : 0 < 2 ^ (8 - n)) by (apply Z.pow_pos_nonneg; lia).
    assert (Hhi : Z.shiftr (p_code p) 56 = Z.shiftl v (8 - n)).
    { rewrite Hc, Z.shiftr_div_pow2, Z.shiftl_mul_pow2 by lia.
      replace (2 ^ (64 - n)) with (2 ^ (8 - n) * 2 ^ 56)
        by (rewrite <- Z.pow_add_r by lia; f_equal; lia).
      rewrite Z.mul_assoc. apply Z.div_mul. lia. }
    rewrite Hhi, lor_shiftl_add by lia.
    change (2 ^ 8) with 256 in Hpow.
    rewrite bits_of_app, bits_of_byte by nia.
    rewrite <- app_assoc. f_equal.
    rewrite <- to_bits_ones, <- to_bits_app by (rewrite Z2Nat.id; lia).
    rewrite Z2Nat.id by lia. f_equal. lia.
  - exists 0%nat. split; [lia |]. replace n with 0 by lia. cbn [Z.to_nat to_bits].
    by rewrite !app_nil_r.
Qed.

(** What is packed does not depend on the bytes already there. *)
Definition framed (pre : bytes) (p : packer) : packer :=
  mkPacker (p_code p) (p_nbits p) (pre ++ p_out p).

Lemma flushLoop_framed (fuel : nat) (pre : bytes) (p : packer) :
  flushLoop fuel (framed pre p) = framed pre (flushLoop fuel p).
Proof.
  revert p. induction fuel as [| fuel IH]; intros p; [done |]. cbn [flushLoop framed p_nbits].
  destruct (8 <=? p_nbits p); [| done]. rewrite <- IH. unfold framed. cbn [p_code p_out].
  by rewrite app_assoc.
Qed.

Lemma packLoop_framed (s pre : bytes) (p : packer) :
  packLoop s (framed pre p) = let! p' := packLoop s p in Ok (framed pre p').
Proof.
  revert p. induction s as [| c s IH]; intros p; [done |]. cbn [packLoop].
  destruct (at_ kHuffSymTable (b2z c)) as [h | | |]; cbn [obind]; [| done ..].
  rewrite <- IH. unfold packSym. by rewrite <- flushLoop_framed.
Qed.

Lemma packEnd_framed (pre : bytes) (p : packer) : packEnd (framed pre p) = pre ++ packEnd p.
Proof. unfold packEnd, framed. cbn [p_nbits p_out p_code]. destruct (0 <? p_nbits p); [by rewrite app_assoc | done]. Qed.

(** The coded form of a string, written after [pre]. *)
Lemma packed_after (pre s : bytes) :
  exists p coded, packLoop s (mkPacker 0 0 pre) = Ok p /\ packEnd p = pre ++ coded
    /\ huffmanDecode coded = Ok s.
Proof.
  destruct (packLoop_ok s (mkPacker 0 0 []) []) as (p & Hp & Hb & Hn); [split; [done |]; by exists 0 | done |].
  destruct (packEnd_ok p (codeOf s) Hb Hn) as (k & Hk & Hbits).
  exists (framed pre p), (packEnd p). split; [| split].
  - replace (mkPacker 0 0 pre) with (framed pre (mkPacker 0 0 []))
      by (unfold framed; cbn [p_code p_nbits p_out]; by rewrite app_nil_r).
    by rewrite packLoop_framed, Hp.
  - apply packEnd_framed.
  - by apply (huffmanDecode_bits (packEnd p) s k).
Qed.

(** ** What the decoder accepts *)

Lemma huffStep_cases (t : HuffDecode) (n : Z) (r : bytes) :
  state_ok t -> 0 <= n < 16 ->
  huffStep t n r = Throw (RuntimeError "HPACK: Huffman decode error")
  \/ exists t' more, huffStep t n r = Ok (t', r ++ more) /\ state_ok t'
       /\ path (fstate t) ++ to_bits 4 n = codeOf more ++ path (fstate t').
Proof.
  intros [Hf _] Hn. destruct (transition (fstate t) n Hf Hn) as (row & e & Hrow & He & Hok).
  unfold huffStep. rewrite Hrow. cbn [obind]. rewrite He. cbn [obind]. unfold entryOk in Hok.
  destruct (Z.eqb_spec (fstate e) errorState); [by left | right].
  apply andb_prop in Hok as [Hok Hsym]. apply andb_prop in Hok as [Hok Hflag].
  apply andb_prop in Hok as [H0 H1]. apply Z.leb_le in H0. apply Z.ltb_lt in H1.
  apply eqb_prop in Hflag.
  assert (Hst : state_ok e) by (split; [done | by rewrite <- Hflag, negb_involutive]).
  destruct (negb (Z.land (flags e) Sym =? 0)).
  - apply andb_prop in Hsym as [Hsym Heq]. apply andb_prop in Hsym as [Hs0 Hs1].
    apply Z.leb_le in Hs0. apply Z.ltb_lt in Hs1. apply bool_decide_eq_true in Heq.
    exists e, [z2b (sym e)]. split; [done |]. split; [done |].
    unfold codeOf. cbn [map concat]. rewrite app_nil_r, b2z_z2b_small by lia. done.
  - apply bool_decide_eq_true in Hsym. exists e, []. by rewrite app_nil_r.
Qed.

Lemma huffLoop_sound (data : bytes) (t : HuffDecode) (r : bytes) :
  state_ok t ->
  huffLoop data t r = Throw (RuntimeError "HPACK: Huffman decode error")
  \/ exists t' more, huffLoop data t r = Ok (t', r ++ more) /\ state_ok t'
       /\ path (fstate t) ++ bits_of data = codeOf more ++ path (fstate t').
Proof.
  revert t r. induction data as [| c data IH]; intros t r Ht.
  - right. exists t, []. rewrite !app_nil_r. done.
  - cbn [huffLoop]. destruct (nibbles c) as [Hn1 Hn2].
    destruct (huffStep_cases t _ r Ht Hn1) as [-> | (t1 & m1 & -> & Ht1 & Hb1)]; [by left |].
    cbn [obind].
    destruct (huffStep_cases t1 _ (r ++ m1) Ht1 Hn2) as [-> | (t2 & m2 & -> & Ht2 & Hb2)];
      [by left |].
    cbn [obind]. destruct (IH t2 ((r ++ m1) ++ m2) Ht2) as [-> | (t' & m & -> & Ht' & Hb)]; [by left |].
    right. exists t', (m1 ++ m2 ++ m). split; [by rewrite <- !app_assoc |]. split; [done |].
    unfold bits_of. cbn [map concat]. fold (bits_of data). rewrite to_bits_byte.
    rewrite <- app_assoc, (app_assoc (path (fstate t))), Hb1, !codeOf_app, <- !app_assoc. f_equal.
    rewrite (app_assoc (path (fstate t1))), Hb2, <- !app_assoc. by f_equal.
Qed.

Lemma padding_ones (a : list bool) :
  paddingb a = true -> (length a <= 7)%nat /\ a = ones (length a).
Proof.
  unfold paddingb. intros H. apply andb_prop in H as [Ha Hl]. apply Nat.leb_le in Hl.
  split; [done |]. clear Hl. induction a as [| b a IH]; [done |].
  cbn [forallb] in Ha. apply andb_prop in Ha as [-> Ha]. cbn [length]. unfold ones in *.
  cbn [replicate]. by rewrite <- (IH Ha).
Qed.

Lemma huffmanDecode_sound (data : bytes) :
  huffmanDecode data = Throw (RuntimeError "HPACK: Huffman decode error")
  \/ exists s, huffmanDecode data = Ok s
       /\ exists k, (k <= 7)%nat /\ bits_of data = codeOf s ++ ones k.
Proof.
  assert (Hinit : state_ok (mkDecode 0 Accepted 0)) by (split; [done | by vm_compute]).
  unfold huffmanDecode.
  destruct (huffLoop_sound data (mkDecode 0 Accepted 0) [] Hinit)
    as [-> | (t' & m & -> & [_ Hacc] & Hb)]; [by left |]. cbn [obind]. rewrite Hacc.
  destruct (paddingb (path (fstate t'))) eqn:Hp; cbn [negb]; [right | by left].
  apply padding_ones in Hp as [Hl Hp]. exists m. split; [done |].
  exists (length (path (fstate t'))). split; [done |]. rewrite <- Hp. exact Hb.
Qed.

(** ** Properties *)

(** The Huffman code is a round trip.  The bits that [encodeStr] packs for
    any string, filled up with ones to a byte, are decoded to that string:
    the automaton of 257 states inverts the code of 256 symbols. *)
Theorem huffman_roundtrip (s : bytes) :
  exists p, packLoop s (mkPacker 0 0 []) = Ok p /\ huffmanDecode (packEnd p) = Ok s.
Proof.
  destruct (packLoop_ok s (mkPacker 0 0 []) []) as (p & Hp & Hb & Hn).
  - split; [done |]. by exists 0.
  - done.
  - exists p. split; [done |]. destruct (packEnd_ok p (codeOf s) Hb Hn) as (k & Hk & Hbits).
    by apply (huffmanDecode_bits (packEnd p) s k).
Qed.

(** The Huffman decoder accepts exactly the coded strings.  On any bytes
    it stays inside its tables: it returns a string or throws its decode
    error.  It returns [s] exactly when the bits are the codes of the
    symbols of [s] followed by at most seven ones; any other padding, a cut
    code and the end-of-string symbol are errors, as RFC 7541, 5.2
    requires. *)
Theorem huffman_decode_exact (data : bytes) :
  (huffmanDecode data = Throw (RuntimeError "HPACK: Huffman decode error")
   \/ exists s, huffmanDecode data = Ok s)
  /\ forall s, huffmanDecode data = Ok s
       <-> exists k, (k <= 7)%nat /\ bits_of data = codeOf s ++ ones k.
Proof.
  pose proof (huffmanDecode_sound data) as Hcases. split.
  - destruct Hcases as [? | (s & ? & _)]; eauto.
  - intros s. split.
    + intros Hs. destruct Hcases as [Ht | (s' & Hs' & Hk)]; [by rewrite Hs in Ht |].
      rewrite Hs in Hs'. by injection Hs' as <-.
    + intros (k & Hk & Hb). by apply (huffmanDecode_bits data s k).
Qed.
