(* ===== verification/HpackTable.v ===== *)
(** The header table of HPACK (RFC 7541): the static table, and the dynamic
    table [HpackTable] of src/extensions/http2/src/hpack/HpackTable.cc. *)

From Stdlib Require Import ZArith Lia String Strings.Byte.
From stdpp Require Import base numbers option list.
From S2P Require Import Prelude CxxStd.
Open Scope Z_scope.

(** [HeaderEntry]: a name and a value. *)
Abbreviation HeaderEntry := (bytes * bytes)%type.

Definition entrySize (e : HeaderEntry) : Z := size (fst e) + size (snd e) + 32.

Definition kDefaultMaxSize : Z := 4096.
Definition kStaticTableSize : Z := 61.

Definition kStaticTable : list HeaderEntry := [
  (str ":authority", str "");
  (str ":method", str "GET");
  (str ":method", str "POST");
  (str ":path", str "/");
  (str ":path", str "/index.html");
  (str ":scheme", str "http");
  (str ":scheme", str "https");
  (str ":status", str "200");
  (str ":status", str "204");
  (str ":status", str "206");
  (str ":status", str "304");
  (str ":status", str "400");
  (str ":status", str "404");
  (str ":status", str "500");
  (str "accept-charset", str "");
  (str "accept-encoding", str "gzip, deflate");
  (str "accept-language", str "");
  (str "accept-ranges", str "");
  (str "accept", str "");
  (str "access-control-allow-origin", str "");
  (str "age", str "");
  (str "allow", str "");
  (str "authorization", str "");
  (str "cache-control", str "");
  (str "content-disposition", str "");
  (str "content-encoding", str "");
  (str "content-language", str "");
  (str "content-length", str "");
  (str "content-location", str "");
  (str "content-range", str "");
  (str "content-type", str "");
  (str "cookie", str "");
  (str "date", str "");
  (str "etag", str "");
  (str "expect", str "");
  (str "expires", str "");
  (str "from", str "");
  (str "host", str "");
  (str "if-match", str "");
  (str "if-modified-since", str "");
  (str "if-none-match", str "");
  (str "if-range", str "");
  (str "if-unmodified-since", str "");
  (str "last-modified", str "");
  (str "link", str "");
  (str "location", str "");
  (str "max-forwards", str "");
  (str "proxy-authenticate", str "");
  (str "proxy-authorization", str "");
  (str "range", str "");
  (str "referer", str "");
  (str "refresh", str "");
  (str "retry-after", str "");
  (str "server", str "");
  (str "set-cookie", str "");
  (str "strict-transport-security", str "");
  (str "transfer-encoding", str "");
  (str "user-agent", str "");
  (str "vary", str "");
  (str "via", str "");
  (str "www-authenticate", str "")].

(** [dynamic_] has the most recent entry in front. *)
Record HpackTable : Type := mkTable {
  maxSize_ : Z;
  currentSize_ : Z;
  dynamic_ : list HeaderEntry
}.

Definition newTable (maxSize : Z) : HpackTable := mkTable maxSize 0 [].

Definition get (index : Z) (t : HpackTable) : outcome HeaderEntry :=
  if (index =? 0) || (kStaticTableSize + size (dynamic_ t) <? index)
  then Throw (OutOfRange "HPACK table index out of range")
  else if index <=? kStaticTableSize then at_ kStaticTable (index - 1)
  else at_ (dynamic_ t) (index - kStaticTableSize - 1).

(** One of the two loops of [find]: the position of the full match, or the
    negated position of the first match of the name. *)
Fixpoint findLoop (name value : bytes) (es : list HeaderEntry) (index nameOnlyIdx : Z) : Z * bool :=
  match es with
  | [] => (nameOnlyIdx, false)
  | e :: es' =>
      if decide (fst e = name) then
        if decide (snd e = value) then (index, true)
        else findLoop name value es' (index + 1)
               (if nameOnlyIdx =? 0 then - index else nameOnlyIdx)
      else findLoop name value es' (index + 1) nameOnlyIdx
  end.

(** Positive: a full match; negative: a match of the name; zero: none. *)
Definition find (name value : bytes) (t : HpackTable) : Z :=
  let '(i, found) := findLoop name value kStaticTable 1 0 in
  if found then i
  else fst (findLoop name value (dynamic_ t) (kStaticTableSize + 1) i).

(** The last entry of a deque and the entries before it. *)
Fixpoint popBack (es : list HeaderEntry) : option (list HeaderEntry * HeaderEntry) :=
  match es with
  | [] => None
  | [e] => Some ([], e)
  | e :: es' =>
      match popBack es' with
      | Some (front, last) => Some (e :: front, last)
      | None => None
      end
  end.

(** One round per entry. *)
Fixpoint evictLoop (fuel : nat) (t : HpackTable) : HpackTable :=
  match fuel with
  | O => t
  | S fuel' =>
      if maxSize_ t <? currentSize_ t then
        match popBack (dynamic_ t) with
        | Some (front, last) =>
            evictLoop fuel' (mkTable (maxSize_ t) (currentSize_ t - entrySize last) front)
        | None => t
        end
      else t
  end.

Definition evict (t : HpackTable) : HpackTable := evictLoop (length (dynamic_ t)) t.

Definition insert (name value : bytes) (t : HpackTable) : HpackTable :=
  let sz := size name + size value + 32 in
  if maxSize_ t <? sz then mkTable (maxSize_ t) 0 []
  else evict (mkTable (maxSize_ t) (currentSize_ t + sz) ((name, value) :: dynamic_ t)).

Definition setMaxSize (maxSize : Z) (t : HpackTable) : HpackTable :=
  evict (mkTable maxSize (currentSize_ t) (dynamic_ t)).

(** ** The table the RFC describes *)

(** The longest run of recent entries that fits in [room]. *)
Fixpoint fitting (room : Z) (es : list HeaderEntry) : list HeaderEntry :=
  match es with
  | [] => []
  | e :: es' => if entrySize e <=? room then e :: fitting (room - entrySize e) es' else []
  end.

Fixpoint totalSize (es : list HeaderEntry) : Z :=
  match es with
  | [] => 0
  | e :: es' => entrySize e + totalSize es'
  end.

(** The accounting is exact and the table is within its limit. *)
Definition table_wf (t : HpackTable) : Prop :=
  currentSize_ t = totalSize (dynamic_ t) /\ totalSize (dynamic_ t) <= maxSize_ t.

(** ** Lemmas *)

Lemma entrySize_pos (e : HeaderEntry) : 32 <= entrySize e.
Proof. unfold entrySize. pose proof (size_nonneg (fst e)). pose proof (size_nonneg (snd e)). lia. Qed.

Lemma totalSize_nonneg (es : list HeaderEntry) : 32 * size es <= totalSize es.
Proof.
  induction es as [| e es IH]; [done |]. rewrite size_cons. cbn [totalSize].
  pose proof (entrySize_pos e). lia.
Qed.

Lemma totalSize_app (a b : list HeaderEntry) : totalSize (a ++ b) = totalSize a + totalSize b.
Proof. induction a as [| e a IH]; [done |]. cbn [app totalSize]. lia. Qed.

Lemma popBack_snoc (es : list HeaderEntry) (e : HeaderEntry) : popBack (es ++ [e]) = Some (es, e).
Proof.
  induction es as [| e' es IH]; [done |]. cbn [app popBack]. rewrite IH.
  by destruct (es ++ [e]) eqn:H; [destruct es |].
Qed.

Lemma fitting_all (room : Z) (es : list HeaderEntry) : totalSize es <= room -> fitting room es = es.
Proof.
  revert room. induction es as [| e es IH]; intros room H; [done |]. cbn [fitting totalSize] in *.
  pose proof (totalSize_nonneg es). pose proof (size_nonneg es).
  destruct (Z.leb_spec (entrySize e) room); [| lia]. rewrite IH; [done | lia].
Qed.

Lemma fitting_snoc (room : Z) (es : list HeaderEntry) (e : HeaderEntry) :
  room < totalSize (es ++ [e]) -> fitting room (es ++ [e]) = fitting room es.
Proof.
  revert room. induction es as [| e' es IH]; intros room H; cbn [app fitting totalSize] in *.
  - destruct (Z.leb_spec (entrySize e) room); [lia | done].
  - destruct (entrySize e' <=? room); [| done]. f_equal. apply IH. lia.
Qed.

Lemma fitting_size (room : Z) (es : list HeaderEntry) : 0 <= room -> totalSize (fitting room es) <= room.
Proof.
  revert room. induction es as [| e es IH]; intros room H; [done |]. cbn [fitting].
  destruct (Z.leb_spec (entrySize e) room); cbn [totalSize]; [| lia].
  specialize (IH (room - entrySize e) ltac:(lia)). lia.
Qed.

(** Dropping the oldest entries until the rest fits leaves the longest run
    that fits. *)
Lemma evictLoop_fitting (fuel : nat) (m : Z) (es : list HeaderEntry) :
  0 <= m -> (length es <= fuel)%nat ->
  evictLoop fuel (mkTable m (totalSize es) es) = mkTable m (totalSize (fitting m es)) (fitting m es).
Proof.
  intros Hm. revert es. induction fuel as [| fuel IH]; intros es Hl.
  - destruct es; [done | simpl in Hl; lia].
  - cbn [evictLoop maxSize_ currentSize_ dynamic_].
    destruct (Z.ltb_spec m (totalSize es)) as [Hgt | Hle]; [| by rewrite fitting_all].
    destruct es as [| e0 es0]; [simpl in Hgt; lia |].
    destruct (exists_last (l := e0 :: es0) ltac:(done)) as (q & e & Hq). rewrite Hq in *.
    rewrite popBack_snoc, fitting_snoc by lia.
    replace (totalSize (q ++ [e]) - entrySize e) with (totalSize q)
      by (rewrite totalSize_app; cbn [totalSize]; lia).
    apply IH. rewrite length_app in Hl. simpl in Hl. lia.
Qed.

Lemma evict_fitting (m : Z) (es : list HeaderEntry) :
  0 <= m -> evict (mkTable m (totalSize es) es) = mkTable m (totalSize (fitting m es)) (fitting m es).
Proof. intros Hm. by apply evictLoop_fitting. Qed.

Lemma insert_fitting (name value : bytes) (t : HpackTable) :
  table_wf t ->
  insert name value t
  = mkTable (maxSize_ t) (totalSize (fitting (maxSize_ t) ((name, value) :: dynamic_ t)))
      (fitting (maxSize_ t) ((name, value) :: dynamic_ t)).
Proof.
  intros [Hc Hm]. pose proof (totalSize_nonneg (dynamic_ t)). pose proof (size_nonneg (dynamic_ t)).
  unfold insert. fold (entrySize (name, value)).
  change (size name + size value + 32) with (entrySize (name, value)).
  destruct (Z.ltb_spec (maxSize_ t) (entrySize (name, value))) as [Hgt | Hle].
  - cbn [fitting]. destruct (Z.leb_spec (entrySize (name, value)) (maxSize_ t)); [lia | done].
  - rewrite <- evict_fitting by lia. cbn [totalSize]. rewrite Hc. do 2 f_equal. lia.
Qed.

Lemma setMaxSize_fitting (m : Z) (t : HpackTable) :
  table_wf t -> 0 <= m ->
  setMaxSize m t = mkTable m (totalSize (fitting m (dynamic_ t))) (fitting m (dynamic_ t)).
Proof. intros [Hc _] Hm. unfold setMaxSize. rewrite Hc. by apply evict_fitting. Qed.

Lemma insert_wf (name value : bytes) (t : HpackTable) : table_wf t -> table_wf (insert name value t).
Proof.
  intros Ht. rewrite insert_fitting by done. split; [done |]. cbn [dynamic_ maxSize_].
  apply fitting_size. destruct Ht. pose proof (totalSize_nonneg (dynamic_ t)).
  pose proof (size_nonneg (dynamic_ t)). lia.
Qed.

Lemma setMaxSize_wf (m : Z) (t : HpackTable) : table_wf t -> 0 <= m -> table_wf (setMaxSize m t).
Proof.
  intros Ht Hm. rewrite setMaxSize_fitting by done. split; [done |]. by apply fitting_size.
Qed.

#[export] Hint Resolve insert_wf setMaxSize_wf : cxx.

(** ** Looking entries up *)

(** The index space: the static entries, then the dynamic ones. *)
Definition entries (t : HpackTable) : list HeaderEntry := kStaticTable ++ dynamic_ t.

Lemma static_size : size kStaticTable = kStaticTableSize.
Proof. by vm_compute. Qed.

Lemma get_entries (i : Z) (t : HpackTable) (e : HeaderEntry) :
  1 <= i -> entries t !! Z.to_nat (i - 1) = Some e -> get i t = Ok e.
Proof.
  intros Hi He. pose proof (lookup_lt_Some _ _ _ He) as Hl. unfold entries in *.
  rewrite length_app in Hl. pose proof static_size as Hs. unfold get.
  assert (Hlen : Z.of_nat (length kStaticTable) = 61) by exact Hs.
  unfold kStaticTableSize, size in *.
  destruct (Z.eqb_spec i 0); [lia |].
  destruct (Z.ltb_spec (61 + Z.of_nat (length (dynamic_ t))) i); [lia |]. cbn [orb].
  destruct (Z.leb_spec i 61).
  - rewrite lookup_app_l in He by lia. rewrite <- (Z2Nat.id (i - 1)) by lia. by apply at_lookup.
  - rewrite lookup_app_r in He by lia. rewrite <- (Z2Nat.id (i - 61 - 1)) by lia.
    apply at_lookup. rewrite <- He. f_equal. lia.
Qed.

Lemma findLoop_spec (name value : bytes) (es : list HeaderEntry) (index ni : Z) :
  0 < index -> ni <= 0 ->
  let '(i, found) := findLoop name value es index ni in
  if found then exists k, es !! k = Some (name, value) /\ i = index + Z.of_nat k
  else ~ In (name, value) es
       /\ (ni <> 0 -> i = ni)
       /\ (ni = 0 -> (i = 0 /\ forall v, ~ In (name, v) es)
                     \/ exists k v, es !! k = Some (name, v) /\ i = - (index + Z.of_nat k)).
Proof.
  revert index ni. induction es as [| [n v] es IH]; intros index ni Hi Hni; cbn [findLoop fst snd].
  - split; [by intros [] |]. split; [done |]. intros ->. left. split; [done |]. by intros v [].
  - destruct (decide (n = name)) as [-> | Hn]; [destruct (decide (v = value)) as [-> | Hv] |].
    + exists 0%nat. split; [done | lia].
    + specialize (IH (index + 1) (if ni =? 0 then - index else ni)).
      destruct (findLoop name value es (index + 1) _) as [i [|]].
      * destruct IH as (k & ? & ->); [lia | destruct (ni =? 0); lia |].
        exists (S k). split; [done | lia].
      * destruct IH as (Hnot & Hne & _); [lia | destruct (ni =? 0); lia |].
        split; [intros [? | ?]; simplify_eq; auto |].
        destruct (Z.eqb_spec ni 0) as [-> | Hni0].
        -- split; [done |]. intros _. right. exists 0%nat, v. split; [done |].
           rewrite Hne by lia. lia.
        -- split; [intros _; by apply Hne | done].
    + specialize (IH (index + 1) ni). destruct (findLoop name value es (index + 1) ni) as [i [|]].
      * destruct IH as (k & ? & ->); [lia | done |]. exists (S k). split; [done | lia].
      * destruct IH as (Hnot & Hne & Heq); [lia | done |].
        split; [intros [? | ?]; simplify_eq; auto |]. split; [done |]. intros Hz.
        destruct (Heq Hz) as [[-> Hno] | (k & v' & Hk & ->)].
        -- left. split; [done |]. intros v' [? | Hin]; simplify_eq. by apply (Hno v').
        -- right. exists (S k), v'. split; [done | lia].
Qed.

(** What [find] means. *)
Lemma find_spec (name value : bytes) (t : HpackTable) :
  let i := find name value t in
  (0 < i -> entries t !! Z.to_nat (i - 1) = Some (name, value))
  /\ (i < 0 -> ~ In (name, value) (entries t)
              /\ exists v, entries t !! Z.to_nat (- i - 1) = Some (name, v))
  /\ (i = 0 -> forall v, ~ In (name, v) (entries t)).
Proof.
  unfold find. pose proof (findLoop_spec name value kStaticTable 1 0 ltac:(lia) ltac:(lia)) as H1.
  pose proof static_size as Hs. unfold kStaticTableSize, size in Hs.
  destruct (findLoop name value kStaticTable 1 0) as [i [|]].
  - destruct H1 as (k & Hk & ->). split; [| lia]. intros _. unfold entries.
    replace (Z.to_nat (1 + Z.of_nat k - 1)) with k by lia.
    rewrite lookup_app_l; [done |]. by apply lookup_lt_Some in Hk.
  - destruct H1 as (Hnot & _ & Heq). specialize (Heq eq_refl).
    assert (Hi : i <= 0) by (destruct Heq as [[-> _] | (k & v & _ & ->)]; lia).
    pose proof (findLoop_spec name value (dynamic_ t) (kStaticTableSize + 1) i
      ltac:(unfold kStaticTableSize; lia) Hi) as H2. unfold kStaticTableSize in H2 at 2.
    destruct (findLoop name value (dynamic_ t) _ i) as [j [|]]; cbn [fst].
    + destruct H2 as (k & Hk & ->). unfold kStaticTableSize. split; [| lia]. intros _. unfold entries.
      rewrite lookup_app_r by lia. rewrite <- Hk. f_equal. lia.
    + destruct H2 as (Hnot2 & Hne & Heq2).
      assert (Hall : ~ In (name, value) (entries t)) by (unfold entries; rewrite in_app_iff; tauto).
      destruct Heq as [[-> Hno] | (k & v & Hk & ->)].
      * destruct (Heq2 eq_refl) as [[-> Hno2] | (k & v & Hk & ->)].
        -- split; [lia |]. split; [lia |]. intros _ v. unfold entries. rewrite in_app_iff.
           intros [? | ?]; [by eapply Hno | by eapply Hno2].
        -- unfold kStaticTableSize. split; [lia |]. split; [| lia]. intros _. split; [done |].
           exists v. unfold entries. rewrite lookup_app_r by lia. rewrite <- Hk. f_equal. lia.
      * rewrite Hne by lia. split; [lia |]. split; [| lia]. intros _. split; [done |].
        exists v. unfold entries. replace (Z.to_nat (- - (1 + Z.of_nat k) - 1)) with k by lia.
        rewrite lookup_app_l; [done |]. by apply lookup_lt_Some in Hk.
Qed.

Lemma get_cases (i : Z) (t : HpackTable) :
  0 <= i ->
  get i t = Throw (OutOfRange "HPACK table index out of range") \/ exists e, get i t = Ok e.
Proof.
  intros Hi. unfold get. pose proof static_size as Hs.
  destruct (Z.eqb_spec i 0); [by left |].
  destruct (Z.ltb_spec (kStaticTableSize + size (dynamic_ t)) i); [by left | right]. cbn [orb].
  destruct (Z.leb_spec i kStaticTableSize).
  - destruct (at_total kStaticTable (i - 1)) as (e & -> & _); [lia | eauto].
  - destruct (at_total (dynamic_ t) (i - kStaticTableSize - 1)) as (e & -> & _); [lia | eauto].
Qed.

(** ** Properties *)

(** The calls of an HPACK context, and what RFC 7541, section 4, says they do
    to the limit and the entries. *)
Inductive table_op : Type :=
| Insert (name value : bytes)
| SetMaxSize (maxSize : Z).

Definition runTableOp (t : HpackTable) (o : table_op) : HpackTable :=
  match o with
  | Insert name value => insert name value t
  | SetMaxSize m => setMaxSize m t
  end.

Definition specTableOp (s : Z * list HeaderEntry) (o : table_op) : Z * list HeaderEntry :=
  match o with
  | Insert name value => (fst s, fitting (fst s) ((name, value) :: snd s))
  | SetMaxSize m => (m, fitting m (snd s))
  end.

Definition table_op_ok (o : table_op) : Prop :=
  match o with Insert _ _ => True | SetMaxSize m => 0 <= m end.

(** The dynamic table is the RFC's.  After any insertions and size changes
    of a new table, it holds exactly the longest run of most recent entries
    that fits its limit at every step: the oldest entries go first, and an
    entry larger than the limit empties the table.  The size it accounts is
    the size of what it holds and stays within the limit, so there are never
    more than [maxSize / 32] entries. *)
Theorem hpack_table_refines (maxSize : Z) (ops : list table_op) :
  0 <= maxSize -> Forall table_op_ok ops ->
  let t := foldl runTableOp (newTable maxSize) ops in
  (maxSize_ t, dynamic_ t) = foldl specTableOp (maxSize, []) ops
  /\ currentSize_ t = totalSize (dynamic_ t) /\ currentSize_ t <= maxSize_ t
  /\ 32 * size (dynamic_ t) <= maxSize_ t.
Proof.
  intros Hm Hops. cbv zeta.
  assert (Hgen : forall t, table_wf t ->
    (maxSize_ (foldl runTableOp t ops), dynamic_ (foldl runTableOp t ops))
      = foldl specTableOp (maxSize_ t, dynamic_ t) ops /\ table_wf (foldl runTableOp t ops)).
  { induction Hops as [| o ops Ho Hops IH]; intros t Ht; [done |]. cbn [foldl].
    destruct o as [n v | m]; cbn [runTableOp specTableOp fst snd].
    - destruct (IH (insert n v t)) as [-> ?]; [by apply insert_wf |].
      split; [| done]. by rewrite insert_fitting by done.
    - destruct (IH (setMaxSize m t)) as [-> ?]; [by apply setMaxSize_wf |].
      split; [| done]. by rewrite setMaxSize_fitting by done. }
  destruct (Hgen (newTable maxSize)) as [Heq [Hc Hle]]; [by split; [| cbn; lia] |].
  split; [exact Heq |]. split; [done |]. rewrite Hc. split; [done |].
  pose proof (totalSize_nonneg (dynamic_ (foldl runTableOp (newTable maxSize) ops))). lia.
Qed.

Lemma hpack_table_refines_witness :
  let ops := [Insert (str "a") (str "1"); Insert (str "b") (str "2"); SetMaxSize 40;
              Insert (str "c") (str "3"); Insert (str "long") (replicate 40 x61)] in
  let t := foldl runTableOp (newTable 80) ops in
  (maxSize_ t, dynamic_ t) = foldl specTableOp (80, []) ops
  /\ currentSize_ t = totalSize (dynamic_ t) /\ currentSize_ t <= maxSize_ t
  /\ 32 * size (dynamic_ t) <= maxSize_ t.
Proof.
  intros ops. apply (hpack_table_refines 80 ops); [lia |]. by repeat constructor.
Defined.

(** Looking up and resolving agree.  An index that [find] returns as a full
    match resolves to exactly that header, one it returns for the name alone
    resolves to a header of that name while no entry is the full match, and
    zero means that no entry has the name. *)
Theorem hpack_find_get (name value : bytes) (t : HpackTable) :
  let i := find name value t in
  (0 < i -> get i t = Ok (name, value))
  /\ (i < 0 -> (exists v, get (- i) t = Ok (name, v)) /\ ~ In (name, value) (entries t))
  /\ (i = 0 -> forall v, ~ In (name, v) (entries t)).
Proof.
  destruct (find_spec name value t) as (Hp & Hn & Hz). cbv zeta in *. split; [| split; [| done]].
  - intros Hi. by apply get_entries; [lia | apply Hp].
  - intros Hi. destruct (Hn Hi) as (Hnot & v & Hv). split; [| done]. exists v.
    by apply get_entries; [lia |].
Qed.
