(* ===== verification/Hpack.v ===== *)
(** HPACK header blocks (RFC 7541): [HpackDecoder] and [HpackEncoder] of
    src/extensions/http2/src/hpack/Hpack.cc. *)

From Stdlib Require Import ZArith Lia String Strings.Byte.
From stdpp Require Import base numbers option list gmap.
From S2P Require Import Prelude CxxStd OrdMap HttpTypes CookieCodec HuffmanTable Huffman HpackTable.
Open Scope Z_scope.

(** ** Integers (RFC 7541, 5.1) *)

(** Shifting a 64-bit integer by 64 or more is undefined. *)
Fixpoint decodeIntLoop (fuel : nat) (data : bytes) (pos value m : Z) : outcome (Z * Z) :=
  if pos <? size data then
    match fuel with
    | O => Diverge
    | S fuel' =>
        let! b := at_ data pos in
        if 64 <=? m then Undefined
        else
          let value := u64 (value + u64 (Z.shiftl (Z.land (b2z b) 0x7f) m)) in
          if Z.land (b2z b) 0x80 =? 0 then Ok (value, pos + 1)
          else decodeIntLoop fuel' data (pos + 1) value (m + 7)
    end
  else Ok (value, pos).

(** The value and the position after it. *)
Definition decodeInt (data : bytes) (pos prefixBits : Z) : outcome (Z * Z) :=
  let mask := 2 ^ prefixBits - 1 in
  let! b := at_ data pos in
  let value := Z.land (b2z b) mask in
  if value <? mask then Ok (value, pos + 1)
  else decodeIntLoop (length data) data (pos + 1) value 0.

(** Ten groups of seven bits hold a 64-bit value. *)
Fixpoint encodeIntLoop (fuel : nat) (value : Z) : bytes :=
  match fuel with
  | O => []
  | S fuel' =>
      if 0x80 <=? value
      then z2b (Z.lor (Z.land value 0x7f) 0x80) :: encodeIntLoop fuel' (Z.shiftr value 7)
      else [z2b value]
  end.

Definition encodeInt (out : bytes) (value prefixBits firstByte : Z) : bytes :=
  let maxVal := 2 ^ prefixBits - 1 in
  if value <? maxVal then out ++ [z2b (Z.lor firstByte value)]
  else out ++ z2b (Z.lor firstByte maxVal) :: encodeIntLoop 11 (value - maxVal).

(** ** Strings (RFC 7541, 5.2) *)

(** Making room for [n] bytes fails beyond any address space. *)
Definition reserve (n : Z) : outcome unit :=
  if 2 ^ 48 <=? n then Throw LengthError else Ok tt.

(** [n] bytes of the block from [pos] on: undefined past its end. *)
Definition readBytes (data : bytes) (pos n : Z) : outcome bytes :=
  if (0 <=? pos) && (0 <=? n) && (pos + n <=? size data)
  then Ok (take (Z.to_nat n) (drop (Z.to_nat pos) data)) else Undefined.

Definition decodeStr (data : bytes) (pos : Z) : outcome (bytes * Z) :=
  if size data <=? pos then Throw (RuntimeError "HPACK: unexpected end of data")
  else
    let! b := at_ data pos in
    let huffman := negb (Z.land (b2z b) 0x80 =? 0) in
    let! (strLen, pos) := decodeInt data pos 7 in
    if size data <? u64 (pos + strLen)
    then Throw (RuntimeError "HPACK: string length exceeds buffer")
    else
      let! result :=
        (if huffman then
           let! _ := reserve (u64 (strLen * 8) / 5) in
           let! coded := readBytes data pos strLen in
           huffmanDecode coded
         else
           let! _ := reserve strLen in
           readBytes data pos strLen) in
      Ok (result, u64 (pos + strLen)).

(** The Huffman form replaces its placeholder by the length when it is
    shorter, and is dropped otherwise. *)
Definition encodeStr (out s : bytes) : outcome bytes :=
  let startSize := length out in
  let! p := packLoop s (mkPacker 0 0 (out ++ [x00])) in
  let packed := packEnd p in
  let huffLen := size packed - size out - 1 in
  if huffLen <? size s then
    Ok (take startSize packed ++ encodeInt [] huffLen 7 0x80 ++ drop (S startSize) packed)
  else Ok (encodeInt (take startSize packed) (size s) 7 0 ++ s).

(** ** [HpackDecoder] *)

Record DecodedHeaders : Type := mkDecoded {
  d_method : bytes;
  d_path : bytes;
  d_scheme : bytes;
  d_authority : bytes;
  d_status : bytes;
  d_headers : HttpHeaderMap
}.

Definition noHeaders : DecodedHeaders := mkDecoded [] [] [] [] [] [].

Definition isPseudo (name : bytes) : bool :=
  match name with b :: _ => Byte.eqb b x3a | [] => false end.

Definition applyHeader (name value : bytes) (st : DecodedHeaders * bool)
  : outcome (DecodedHeaders * bool) :=
  let '(out, seenRegularHeader) := st in
  let '(mkDecoded method path scheme authority status headers) := out in
  if isPseudo name then
    if seenRegularHeader then Throw (RuntimeError "HPACK: pseudo-header after regular header")
    else if decide (name = str ":method") then
      if decide (method <> []) then Throw (RuntimeError "HPACK: duplicate :method")
      else Ok (mkDecoded value path scheme authority status headers, seenRegularHeader)
    else if decide (name = str ":path") then
      if decide (path <> []) then Throw (RuntimeError "HPACK: duplicate :path")
      else Ok (mkDecoded method value scheme authority status headers, seenRegularHeader)
    else if decide (name = str ":scheme") then
      if decide (scheme <> []) then Throw (RuntimeError "HPACK: duplicate :scheme")
      else Ok (mkDecoded method path value authority status headers, seenRegularHeader)
    else if decide (name = str ":authority") then
      Ok (mkDecoded method path scheme value status headers, seenRegularHeader)
    else if decide (name = str ":status") then
      Throw (RuntimeError "HPACK: response pseudo-header in request")
    else Throw (RuntimeError "HPACK: unknown pseudo-header")
  else
    let hdr := newHeader name value in
    Ok (mkDecoded method path scheme authority status (om_insert (name_ hdr) hdr headers), true).

(** A literal field: its name is an entry's or a string, its value a string. *)
Definition decodeLiteral (data : bytes) (pos prefixBits : Z) (t : HpackTable)
  : outcome (bytes * bytes * Z) :=
  let! (idx, pos) := decodeInt data pos prefixBits in
  let! (name, pos) :=
    (if idx =? 0 then decodeStr data pos
     else let! e := get idx t in Ok (fst e, pos)) in
  let! (value, pos) := decodeStr data pos in
  Ok (name, value, pos).

(** One round of the loop: one field representation (RFC 7541, section 6). *)
Definition decodeField (data : bytes) (pos : Z) (st : DecodedHeaders * bool)
  : M HpackTable (DecodedHeaders * bool * Z) :=
  let* b := mlift (at_ data pos) in
  let first := b2z b in
  let* t := mget in
  if negb (Z.land first 0x80 =? 0) then
    let* (idx, pos) := mlift (decodeInt data pos 7) in
    if idx =? 0 then mthrow (RuntimeError "HPACK: index 0 is invalid")
    else
      let* entry := mlift (get idx t) in
      let* st := mlift (applyHeader (fst entry) (snd entry) st) in
      mret (st, pos)
  else if Z.land first 0xc0 =? 0x40 then
    let* (name, value, pos) := mlift (decodeLiteral data pos 6 t) in
    let* _ := mput (insert name value t) in
    let* st := mlift (applyHeader name value st) in
    mret (st, pos)
  else if Z.land first 0xe0 =? 0x20 then
    if snd st || bool_decide (d_method (fst st) <> []) then
      mthrow (RuntimeError "HPACK: dynamic table size update not at beginning")
    else
      let* (newSize, pos) := mlift (decodeInt data pos 5) in
      if maxSize_ t <? newSize then
        mthrow (RuntimeError "HPACK: dynamic table size update exceeds limit")
      else
        let* _ := mput (setMaxSize newSize t) in
        mret (st, pos)
  else
    let* (name, value, pos) := mlift (decodeLiteral data pos 4 t) in
    let* st := mlift (applyHeader name value st) in
    mret (st, pos).

(** Every round moves [pos] forward. *)
Fixpoint decodeLoop (fuel : nat) (data : bytes) (pos : Z) (st : DecodedHeaders * bool)
  : M HpackTable DecodedHeaders :=
  if pos <? size data then
    match fuel with
    | O => mlift Diverge
    | S fuel' =>
        let* (st, pos) := decodeField data pos st in
        decodeLoop fuel' data pos st
    end
  else mret (fst st).

Definition decode (data : bytes) : M HpackTable DecodedHeaders :=
  decodeLoop (length data) data 0 (noHeaders, false).

(** ** [HpackEncoder] *)

(** A header field: indexed when the table has it, otherwise a literal that
    both tables take up. *)
Definition encodeField (name value : bytes) (out : bytes) : M HpackTable bytes :=
  let* t := mget in
  let idx := find name value t in
  if 0 <? idx then mret (encodeInt out idx 7 0x80)
  else
    let nameIdx := if idx <? 0 then - idx else 0 in
    let out := encodeInt out nameIdx 6 0x40 in
    let* out := (if nameIdx =? 0 then mlift (encodeStr out name) else mret out) in
    let* out := mlift (encodeStr out value) in
    let* _ := mput (insert name value t) in
    mret out.

Definition skippedHeader (h : HttpHeader) : bool :=
  bool_decide (nameCode_ h = NC_ContentLength) || bool_decide (nameCode_ h = NC_TransferEncoding)
  || bool_decide (nameCode_ h = NC_Connection).

Fixpoint encodeHeaders (hs : HttpHeaderMap) (out : bytes) : M HpackTable bytes :=
  match hs with
  | [] => mret out
  | (_, hdr) :: hs' =>
      if skippedHeader hdr then encodeHeaders hs' out
      else
        let* out := encodeField (name_ hdr) (value_ hdr) out in
        encodeHeaders hs' out
  end.

(** A literal with incremental indexing that the encoder's own table does not
    take up. *)
Definition encodeUntracked (name value out : bytes) : outcome bytes :=
  let out := encodeInt out 0 6 0x40 in
  let! out := encodeStr out name in
  encodeStr out value.

Fixpoint encodeCookies (cs : list Cookie) (out : bytes) : outcome bytes :=
  match cs with
  | [] => Ok out
  | c :: cs' =>
      let! out := encodeUntracked (str "set-cookie") (toString c) out in
      encodeCookies cs' out
  end.

Definition encodeResponse (resp : HttpResponse) : M HpackTable bytes :=
  let* out := encodeField (str ":status") (to_string (r_statusCode resp)) [] in
  let* out := encodeHeaders (r_headers resp) out in
  let* out := mlift (if 0 <? r_contentLength resp
    then encodeUntracked (str "content-length") (to_string (r_contentLength resp)) out
    else Ok out) in
  mlift (encodeCookies (r_cookies resp) out).

(** ** Reading in a longer block *)

Lemma at_middle (pre : bytes) (b : byte) (post : bytes) : at_ (pre ++ b :: post) (size pre) = Ok b.
Proof. apply at_lookup. by rewrite lookup_app_r, Nat.sub_diag. Qed.

Lemma at_middle_app (pre l post : bytes) (b : byte) :
  at_ (pre ++ (b :: l) ++ post) (size pre) = Ok b.
Proof. apply at_middle. Qed.

Lemma size_middle (pre l post : bytes) : size (pre ++ l ++ post) = size pre + size l + size post.
Proof. rewrite !size_app. lia. Qed.

(** The octets of an integer after those already in the block. *)
Lemma encodeInt_app (out : bytes) (value prefixBits firstByte : Z) :
  encodeInt out value prefixBits firstByte = out ++ encodeInt [] value prefixBits firstByte.
Proof. unfold encodeInt. by destruct (value <? _). Qed.

Lemma low_group (v : Z) : 0 <= v -> Z.land (Z.lor (Z.land v 0x7f) 0x80) 0x7f = v mod 128.
Proof.
  intros Hv. rewrite Z.land_lor_distr_l, <- Z.land_assoc. change (Z.land 0x7f 0x7f) with 0x7f.
  change (Z.land 0x80 0x7f) with 0. rewrite Z.lor_0_r. by rewrite (land_mask_mod v 0x7f 7) by lia.
Qed.

Lemma group_byte (v : Z) :
  0 <= v ->
  Z.land (b2z (z2b (Z.lor (Z.land v 0x7f) 0x80))) 0x7f = v mod 128
  /\ Z.land (b2z (z2b (Z.lor (Z.land v 0x7f) 0x80))) 0x80 <> 0.
Proof.
  intros Hv. replace (v mod 128) with (Z.land v 0x7f) by (by rewrite (land_mask_mod v 0x7f 7) by lia).
  set (w := Z.land v 0x7f).
  assert (Hw : 0 <= w < 128).
  { unfold w. rewrite (land_mask_mod v 0x7f 7) by lia. apply Z.mod_pos_bound. lia. }
  clearbody w.
  pose proof (zrange_forall 128 (fun w =>
    (Z.land (b2z (z2b (Z.lor w 0x80))) 0x7f =? w) && negb (Z.land (b2z (z2b (Z.lor w 0x80))) 0x80 =? 0))
    eq_refl w Hw) as H.
  cbv beta in H. apply andb_prop in H as [H1 H2]. to_prop. done.
Qed.

Lemma last_byte (v : Z) :
  0 <= v < 128 -> Z.land (b2z (z2b v)) 0x7f = v /\ Z.land (b2z (z2b v)) 0x80 = 0.
Proof.
  intros Hv.
  pose proof (zrange_forall 128 (fun w =>
    (Z.land (b2z (z2b w)) 0x7f =? w) && (Z.land (b2z (z2b w)) 0x80 =? 0)) eq_refl v Hv) as H.
  cbv beta in H. apply andb_prop in H as [H1 H2]. to_prop. done.
Qed.

Lemma encodeIntLoop_length (fuel : nat) (v : Z) : (length (encodeIntLoop fuel v) <= fuel)%nat.
Proof.
  revert v. induction fuel as [| fuel IH]; intros v; [done |]. cbn [encodeIntLoop].
  destruct (0x80 <=? v); simpl; [specialize (IH (Z.shiftr v 7)) |]; lia.
Qed.

(** Reading the groups of [v] adds [v], shifted to where the first one
    belongs. *)
Lemma decodeIntLoop_ok (fe fd : nat) (pre post : bytes) (v acc m : Z) :
  0 <= v < 2 ^ (7 * Z.of_nat fe) -> 0 <= acc -> 0 <= m < 64 -> acc + v * 2 ^ m < 2 ^ 64 ->
  (length (encodeIntLoop fe v) <= fd)%nat -> (0 < fe)%nat ->
  decodeIntLoop fd (pre ++ encodeIntLoop fe v ++ post) (size pre) acc m
  = Ok (acc + v * 2 ^ m, size pre + size (encodeIntLoop fe v)).
Proof.
  revert fd pre v acc m. induction fe as [| fe IH]; intros fd pre v acc m Hv Ha Hm Hb Hfd Hfe; [lia |].
  cbn [encodeIntLoop] in Hfd |- *.
  destruct fd as [| fd]; [destruct (0x80 <=? v); simpl in Hfd; lia |]. cbn [decodeIntLoop].
  pose proof (size_nonneg post) as Hpost. revert Hfd.
  destruct (Z.leb_spec 0x80 v) as [Hbig | Hsmall]; intros Hfd; cbn [length] in Hfd.
  - rewrite size_middle, size_cons. pose proof (size_nonneg (encodeIntLoop fe (Z.shiftr v 7))).
    destruct (Z.ltb_spec (size pre) (size pre + (1 + size (encodeIntLoop fe (Z.shiftr v 7))) + size post));
      [| lia].
    rewrite at_middle_app. cbn [obind].
    destruct (Z.leb_spec 64 m); [lia |].
    destruct (group_byte v) as [Hlow Hhigh]; [lia |]. rewrite Hlow.
    apply Z.eqb_neq in Hhigh. rewrite Hhigh.
    assert (Hdiv : v = 128 * (v / 128) + v mod 128) by (apply Z.div_mod; lia).
    pose proof (Z.mod_pos_bound v 128 ltac:(lia)) as Hmod.
    assert (Hq1 : 1 <= v / 128) by (apply Z.div_le_lower_bound; lia).
    assert (Hp : 0 < 2 ^ m) by (apply Z.pow_pos_nonneg; lia).
    assert (Hp7 : 2 ^ (m + 7) = 128 * 2 ^ m) by (rewrite Z.pow_add_r by lia; lia).
    assert (Hm7 : m + 7 < 64).
    { destruct (Z.lt_ge_cases (m + 7) 64); [done |].
      assert (2 ^ 64 <= 2 ^ (m + 7)) by (apply Z.pow_le_mono_r; lia). nia. }
    rewrite Z.shiftl_mul_pow2 by lia.
    assert (Hu1 : u64 (v mod 128 * 2 ^ m) = v mod 128 * 2 ^ m) by (apply Z.mod_small; nia).
    rewrite Hu1.
    assert (Hu2 : u64 (acc + v mod 128 * 2 ^ m) = acc + v mod 128 * 2 ^ m) by (apply Z.mod_small; nia).
    rewrite Hu2.
    rewrite Z.shiftr_div_pow2 by lia. change (2 ^ 7) with 128.
    replace (pre ++ (z2b (Z.lor (Z.land v 127) 128) :: encodeIntLoop fe (v / 128)) ++ post)
      with ((pre ++ [z2b (Z.lor (Z.land v 127) 128)]) ++ encodeIntLoop fe (v / 128) ++ post)
      by (by rewrite <- !app_assoc).
    replace (size pre + 1) with (size (pre ++ [z2b (Z.lor (Z.land v 127) 128)])) by (by rewrite size_app).
    destruct fe as [| fe]; [change (2 ^ (7 * Z.of_nat 1)) with 128 in Hv; lia |].
    rewrite IH; [| | | lia | | | lia].
    + f_equal. f_equal; [rewrite Hp7; nia |]. rewrite size_app, size_cons, size_nil. lia.
    + split; [lia |]. apply Z.div_lt_upper_bound; [lia |].
      replace (128 * 2 ^ (7 * Z.of_nat (S fe))) with (2 ^ (7 * Z.of_nat (S (S fe)))); [lia |].
      replace (7 * Z.of_nat (S (S fe))) with (7 * Z.of_nat (S fe) + 7) by lia.
      rewrite Z.pow_add_r by lia. lia.
    + nia.
    + rewrite Hp7. nia.
    + rewrite Z.shiftr_div_pow2 in Hfd by lia. change (2 ^ 7) with 128 in Hfd. lia.
  - rewrite size_middle, size_cons, size_nil.
    destruct (Z.ltb_spec (size pre) (size pre + (1 + 0) + size post)); [| lia].
    rewrite at_middle_app. cbn [obind]. destruct (Z.leb_spec 64 m); [lia |].
    destruct (last_byte v) as [-> ->]; [lia |]. cbn [Z.eqb].
    assert (Hp : 0 < 2 ^ m) by (apply Z.pow_pos_nonneg; lia).
    rewrite Z.shiftl_mul_pow2 by lia. unfold u64. rewrite !Z.mod_small by (rewrite ?Z.mod_small by nia; nia).
    done.
Qed.

(** What a prefix size and the flags above it have to be. *)
Definition prefix_ok (prefixBits firstByte : Z) : Prop :=
  1 <= prefixBits <= 8 /\ Z.land firstByte (2 ^ prefixBits - 1) = 0.

Lemma prefix_byte (p fb x : Z) :
  prefix_ok p fb -> 0 <= x < 2 ^ p -> Z.land (b2z (z2b (Z.lor fb x))) (2 ^ p - 1) = x.
Proof.
  intros [Hp Hfb] Hx. rewrite b2z_z2b.
  change 256 with (2 ^ 8). rewrite <- (Z.land_ones (Z.lor fb x) 8), <- Z.land_assoc by lia.
  assert (Hmask : Z.land (Z.ones 8) (2 ^ p - 1) = 2 ^ p - 1).
  { rewrite (land_mask_mod _ _ p), Z.ones_equiv by lia.
    replace 8 with (p + (8 - p)) by lia. rewrite Z.pow_add_r by lia.
    symmetry. apply (Z.mod_unique_pos _ _ (2 ^ (8 - p) - 1)); [lia |].
    assert (0 < 2 ^ (8 - p)) by (apply Z.pow_pos_nonneg; lia). nia. }
  rewrite Hmask, Z.land_lor_distr_l, Hfb, Z.lor_0_l, (land_mask_mod _ _ p) by lia.
  by apply Z.mod_small.
Qed.

Lemma decodeInt_ok (pre post : bytes) (v p fb : Z) :
  prefix_ok p fb -> 0 <= v < 2 ^ 64 ->
  decodeInt (pre ++ encodeInt [] v p fb ++ post) (size pre) p
  = Ok (v, size pre + size (encodeInt [] v p fb)).
Proof.
  intros Hok Hv. pose proof Hok as [Hp _].
  assert (Hpow : 0 < 2 ^ p) by (apply Z.pow_pos_nonneg; lia).
  unfold decodeInt, encodeInt. destruct (Z.ltb_spec v (2 ^ p - 1)) as [Hlt | Hge]; rewrite app_nil_l.
  - rewrite at_middle_app. cbn [obind]. rewrite prefix_byte by (done || lia).
    destruct (Z.ltb_spec v (2 ^ p - 1)); [done | lia].
  - set (b := z2b (Z.lor fb (2 ^ p - 1))). set (more := encodeIntLoop 11 (v - (2 ^ p - 1))).
    rewrite at_middle_app. cbn [obind]. unfold b. rewrite prefix_byte by (done || lia). fold b.
    destruct (Z.ltb_spec (2 ^ p - 1) (2 ^ p - 1)); [lia |].
    replace (pre ++ (b :: more) ++ post) with ((pre ++ [b]) ++ more ++ post) by (by rewrite <- !app_assoc).
    replace (size pre + 1) with (size (pre ++ [b])) by (by rewrite size_app).
    unfold more. rewrite decodeIntLoop_ok; fold more; rewrite ?Z.pow_0_r; try lia.
    + f_equal. f_equal; [lia |]. rewrite size_app, !size_cons, size_nil. lia.
    + rewrite !length_app. lia.
Qed.

(** The first octet of a string's length keeps the Huffman flag. *)
Lemma encodeInt_flag (v fb : Z) :
  fb = 0 \/ fb = 0x80 -> 0 <= v ->
  exists b rest, encodeInt [] v 7 fb = b :: rest /\ Z.land (b2z b) 0x80 = fb.
Proof.
  intros Hfb Hv. unfold encodeInt. change (2 ^ 7 - 1) with 127. rewrite !app_nil_l.
  assert (Hall : forall x, 0 <= x < 128 -> Z.land (b2z (z2b (Z.lor fb x))) 0x80 = fb).
  { intros x Hx.
    pose proof (zrange_forall 128 (fun x => (Z.land (b2z (z2b (Z.lor 0 x))) 0x80 =? 0)
      && (Z.land (b2z (z2b (Z.lor 0x80 x))) 0x80 =? 0x80)) eq_refl x Hx) as H.
    cbv beta in H. apply andb_prop in H as [Hz H8]. to_prop. by destruct Hfb as [-> | ->]. }
  destruct (Z.ltb_spec v 127); eexists _, _; (split; [reflexivity | apply Hall; lia]).
Qed.

(** Reading a string: its length with the flag [fb], then its octets. *)
Lemma decodeStr_step (pre post payload : bytes) (fb : Z) :
  fb = 0 \/ fb = 0x80 -> size payload < 2 ^ 40 ->
  size (pre ++ (encodeInt [] (size payload) 7 fb ++ payload) ++ post) < 2 ^ 64 ->
  decodeStr (pre ++ (encodeInt [] (size payload) 7 fb ++ payload) ++ post) (size pre)
  = let! r := (if fb =? 0 then Ok payload else huffmanDecode payload) in
    Ok (r, size pre + size (encodeInt [] (size payload) 7 fb ++ payload)).
Proof.
  intros Hfb Hsmall Hsize. set (n := encodeInt [] (size payload) 7 fb) in *.
  pose proof (size_nonneg payload) as Hp0. pose proof (size_nonneg pre). pose proof (size_nonneg post).
  destruct (encodeInt_flag (size payload) fb Hfb Hp0) as (b & rest & Hn & Hb). fold n in Hn.
  assert (Hint : decodeInt (pre ++ (n ++ payload) ++ post) (size pre) 7 = Ok (size payload, size pre + size n)).
  { rewrite <- (app_assoc n). apply decodeInt_ok; [| lia]. split; [lia |].
    by destruct Hfb as [-> | ->]. }
  assert (Hn1 : 1 <= size n) by (rewrite Hn, size_cons; pose proof (size_nonneg rest); lia).
  rewrite size_middle, size_app in Hsize.
  unfold decodeStr. rewrite size_middle, size_app.
  destruct (Z.leb_spec (size pre + (size n + size payload) + size post) (size pre)); [lia |].
  replace (at_ (pre ++ (n ++ payload) ++ post) (size pre)) with (Ok b)
    by (rewrite Hn; cbn [app]; by rewrite at_middle).
  cbn [obind]. rewrite Hint. cbn [obind]. rewrite Hb.
  unfold u64 at 1. rewrite (Z.mod_small (size pre + size n + size payload)) by lia.
  destruct (Z.ltb_spec (size pre + (size n + size payload) + size post)
    (size pre + size n + size payload)); [lia |].
  assert (Hread : readBytes (pre ++ (n ++ payload) ++ post) (size pre + size n) (size payload) = Ok payload).
  { unfold readBytes. rewrite size_middle, size_app.
    destruct (Z.leb_spec 0 (size pre + size n)); [| lia]. destruct (Z.leb_spec 0 (size payload)); [| lia].
    destruct (Z.leb_spec (size pre + size n + size payload) (size pre + (size n + size payload) + size post));
      [| lia]. cbn [andb]. f_equal.
    replace (pre ++ (n ++ payload) ++ post) with ((pre ++ n) ++ payload ++ post) by (by rewrite <- !app_assoc).
    replace (Z.to_nat (size pre + size n)) with (length (pre ++ n)) by (rewrite length_app; unfold size; lia).
    replace (Z.to_nat (size payload)) with (length payload) by (unfold size; lia).
    by rewrite drop_app_length, take_app_length. }
  unfold reserve. assert (H8 : u64 (size payload * 8) = size payload * 8) by (apply Z.mod_small; lia).
  rewrite H8.
  assert (Hpos : u64 (size pre + size n + size payload) = size pre + (size n + size payload))
    by (unfold u64; rewrite Z.mod_small; lia).
  rewrite Hpos.
  destruct (Z.leb_spec (2 ^ 48) (size payload * 8 / 5)).
  { assert (size payload * 8 / 5 <= size payload * 8) by (apply Z.div_le_upper_bound; lia). lia. }
  destruct (Z.leb_spec (2 ^ 48) (size payload)); [lia |]. cbn [obind]. rewrite Hread.
  by destruct Hfb as [-> | ->].
Qed.

(** [w] is read back as the string [s], wherever it stands. *)
Definition reads_as (w s : bytes) : Prop :=
  forall pre post, size (pre ++ w ++ post) < 2 ^ 64 ->
    decodeStr (pre ++ w ++ post) (size pre) = Ok (s, size pre + size w).

Lemma encodeStr_ok (out s : bytes) :
  size s < 2 ^ 40 -> exists w, encodeStr out s = Ok (out ++ w) /\ reads_as w s.
Proof.
  intros Hs. unfold encodeStr.
  destruct (packed_after (out ++ [x00]) s) as (p & coded & -> & Hend & Hd). cbn [obind]. rewrite Hend.
  rewrite !size_app, size_cons, size_nil.
  replace (size out + (1 + 0) + size coded - size out - 1) with (size coded) by lia.
  rewrite <- app_assoc, take_app_length. cbn [app].
  destruct (Z.ltb_spec (size coded) (size s)) as [Hlt | Hge].
  - exists (encodeInt [] (size coded) 7 0x80 ++ coded). split.
    + do 2 f_equal. rewrite drop_app_ge by lia. by replace (S (length out) - length out)%nat with 1%nat by lia.
    + intros pre post Hsize. rewrite decodeStr_step by (auto; lia). cbn [Z.eqb]. by rewrite Hd.
  - exists (encodeInt [] (size s) 7 0 ++ s). split.
    + by rewrite encodeInt_app, <- app_assoc.
    + intros pre post Hsize. rewrite decodeStr_step by (auto; lia). done.
Qed.

(** ** One field, written and read *)

(** Tables small enough for every index and every size to be exact. *)
Definition table_ok (t : HpackTable) : Prop := table_wf t /\ maxSize_ t < 2 ^ 40.

Lemma table_ok_insert (name value : bytes) (t : HpackTable) :
  table_ok t -> table_ok (insert name value t).
Proof.
  intros [Hwf Hm]. split; [by apply insert_wf |]. by rewrite insert_fitting.
Qed.

Lemma find_bound (name value : bytes) (t : HpackTable) :
  table_ok t -> - 2 ^ 41 < find name value t < 2 ^ 41.
Proof.
  intros [[Hc Hle] Hm]. destruct (find_spec name value t) as (Hp & Hn & _).
  pose proof (totalSize_nonneg (dynamic_ t)). pose proof static_size as Hs.
  assert (Hlen : Z.of_nat (length (entries t)) = 61 + size (dynamic_ t)).
  { unfold entries. rewrite length_app, Nat2Z.inj_add. unfold size in *. by rewrite Hs. }
  pose proof (size_nonneg (dynamic_ t)).
  destruct (Z.lt_total (find name value t) 0) as [Hz | [-> | Hz]]; [| lia |].
  - destruct (Hn Hz) as (_ & v & Hv). apply lookup_lt_Some in Hv. lia.
  - specialize (Hp Hz). apply lookup_lt_Some in Hp. lia.
Qed.

(** The first octet of a representation tells which one it is. *)
Lemma encodeInt_tag (v p fb mask : Z) :
  1 <= p <= 8 -> 0 <= v ->
  forallb (fun x => Z.land (b2z (z2b (Z.lor fb x))) mask =? Z.land fb mask) (zrange (Z.to_nat (2 ^ p))) = true ->
  exists b rest, encodeInt [] v p fb = b :: rest /\ Z.land (b2z b) mask = Z.land fb mask.
Proof.
  intros Hp Hv Hall. assert (Hpow : 0 < 2 ^ p) by (apply Z.pow_pos_nonneg; lia).
  assert (H : forall x, 0 <= x < 2 ^ p -> Z.land (b2z (z2b (Z.lor fb x))) mask = Z.land fb mask).
  { intros x Hx. apply Z.eqb_eq.
    apply (zrange_forall _ (fun x => Z.land (b2z (z2b (Z.lor fb x))) mask =? Z.land fb mask) Hall).
    rewrite Z2Nat.id by lia. done. }
  unfold encodeInt. rewrite !app_nil_l.
  destruct (Z.ltb_spec v (2 ^ p - 1)); eexists _, _; (split; [reflexivity | apply H; lia]).
Qed.

(** [w] is read as the field [name], [value] by a decoder whose table is [t],
    which has the table [t'] then. *)
Definition field_reads (w name value : bytes) (t t' : HpackTable) : Prop :=
  1 <= size w /\ forall pre post st, size (pre ++ w ++ post) < 2 ^ 63 ->
    decodeField (pre ++ w ++ post) (size pre) st t
    = (let! st' := applyHeader name value st in Ok (st', size pre + size w), t').

Lemma indexed_reads (i : Z) (name value : bytes) (t : HpackTable) :
  0 < i < 2 ^ 41 -> get i t = Ok (name, value) ->
  field_reads (encodeInt [] i 7 0x80) name value t t.
Proof.
  intros Hi Hget. set (w := encodeInt [] i 7 0x80).
  destruct (encodeInt_tag i 7 0x80 0x80) as (b & rest & Hw & Hb); [lia | lia | by vm_compute |].
  fold w in Hw. split; [rewrite Hw, size_cons; pose proof (size_nonneg rest); lia |].
  intros pre post st Hsize. unfold decodeField.
  rewrite (mbind_lift _ b) by (rewrite Hw; cbn [app]; apply at_middle).
  rewrite mbind_get, Hb. change (Z.land 0x80 0x80 =? 0) with false. cbn [negb].
  rewrite (mbind_lift _ (i, size pre + size w)) by (apply decodeInt_ok; [split; [lia | done] | lia]).
  destruct (Z.eqb_spec i 0); [lia |]. rewrite (mbind_lift _ (name, value)) by done. cbn [fst snd].
  unfold mbind, mlift. by destruct (applyHeader name value st).
Qed.

(** A literal with incremental indexing: its name is an entry's, or written
    out. *)
Lemma literal_reads (w ws name value : bytes) (i : Z) (t : HpackTable) :
  0 <= i < 2 ^ 41 ->
  (i = 0 -> exists wn, w = encodeInt [] 0 6 0x40 ++ wn ++ ws /\ reads_as wn name) ->
  (i <> 0 -> w = encodeInt [] i 6 0x40 ++ ws /\ exists v, get i t = Ok (name, v)) ->
  reads_as ws value ->
  field_reads w name value t (insert name value t).
Proof.
  intros Hi H0 H1 Hws. set (wi := encodeInt [] i 6 0x40).
  destruct (encodeInt_tag i 6 0x40 0x80) as (b & rest & Hwi & Hb8); [lia | lia | by vm_compute |].
  destruct (encodeInt_tag i 6 0x40 0xc0) as (b' & rest' & Hwi' & Hbc); [lia | lia | by vm_compute |].
  fold wi in Hwi, Hwi'. assert (b' = b) as -> by congruence. clear Hwi' rest'.
  assert (Hw : exists wn, w = wi ++ wn ++ ws
    /\ ((i = 0 /\ reads_as wn name) \/ (i <> 0 /\ wn = [] /\ exists v, get i t = Ok (name, v)))).
  { destruct (Z.eq_dec i 0) as [Hi0 | Hi0].
    - destruct (H0 Hi0) as (wn & -> & Hn). exists wn. subst wi. rewrite Hi0. auto.
    - destruct (H1 Hi0) as [-> ?]. exists []. auto. }
  destruct Hw as (wn & -> & Hname). clear H0 H1.
  split; [rewrite size_app, Hwi, size_cons; pose proof (size_nonneg rest); pose proof (size_nonneg (wn ++ ws)); lia |].
  intros pre post st Hsize. unfold decodeField.
  rewrite (mbind_lift _ b) by (rewrite Hwi; cbn [app]; apply at_middle).
  rewrite mbind_get, Hb8, Hbc. change (Z.land 0x40 0x80 =? 0) with true.
  change (Z.land 0x40 0xc0 =? 0x40) with true. cbn [negb].
  assert (Hlit : decodeLiteral (pre ++ (wi ++ wn ++ ws) ++ post) (size pre) 6 t
    = Ok (name, value, size pre + size (wi ++ wn ++ ws))).
  { unfold decodeLiteral. rewrite <- (app_assoc wi). unfold wi at 1.
    rewrite decodeInt_ok by first [lia | by split]. cbn [obind]. fold wi.
    replace (pre ++ wi ++ (wn ++ ws) ++ post) with ((pre ++ wi) ++ wn ++ ws ++ post)
      by (by rewrite <- !app_assoc).
    replace (size pre + size wi) with (size (pre ++ wi)) by (by rewrite size_app).
    assert (Hlen : size ((pre ++ wi) ++ wn ++ ws ++ post) < 2 ^ 64)
      by (rewrite <- !app_assoc in *; lia).
    assert (Hn : (if i =? 0 then decodeStr ((pre ++ wi) ++ wn ++ ws ++ post) (size (pre ++ wi))
                  else let! e := get i t in Ok (e.1, size (pre ++ wi)))
                 = Ok (name, size (pre ++ wi) + size wn)).
    { destruct Hname as [[-> Hn] | (Hi0 & -> & v & Hg)].
      - cbn [Z.eqb]. by apply Hn.
      - destruct (Z.eqb_spec i 0); [lia |]. rewrite Hg. cbn [obind fst]. rewrite size_nil. do 2 f_equal. lia. }
    rewrite Hn. cbn [obind].
    replace ((pre ++ wi) ++ wn ++ ws ++ post) with (((pre ++ wi) ++ wn) ++ ws ++ post) in *
      by (by rewrite <- !app_assoc).
    replace (size (pre ++ wi) + size wn) with (size ((pre ++ wi) ++ wn)) by (by rewrite size_app).
    rewrite Hws by done. cbn [obind]. rewrite !size_app. do 2 f_equal. lia. }
  rewrite (mbind_lift _ _ _ _ Hlit). rewrite mbind_put. unfold mbind, mlift.
  by destruct (applyHeader name value st).
Qed.

(** The encoder and a decoder with the same table stay together. *)
Lemma encodeField_ok (name value out : bytes) (t : HpackTable) :
  table_ok t -> size name < 2 ^ 40 -> size value < 2 ^ 40 ->
  exists w t', encodeField name value out t = (Ok (out ++ w), t') /\ table_ok t'
    /\ field_reads w name value t t'.
Proof.
  intros Ht Hn Hv. pose proof (find_bound name value t Ht) as Hb.
  destruct (find_spec name value t) as (Hp & Hneg & _). cbv zeta in *.
  unfold encodeField. rewrite mbind_get. set (i := find name value t) in *.
  destruct (Z.ltb_spec 0 i) as [Hpos | Hnpos].
  - exists (encodeInt [] i 7 0x80), t. split; [by rewrite encodeInt_app |]. split; [done |].
    apply indexed_reads; [lia |]. apply get_entries; [lia | by apply Hp].
  - destruct (encodeStr_ok (encodeInt out 0 6 0x40) name Hn) as (wn & Hwn & Hrn).
    destruct (Z.ltb_spec i 0) as [Hlt | Hge].
    + destruct (Z.eqb_spec (- i) 0); [lia |].
      destruct (encodeStr_ok (encodeInt out (- i) 6 0x40) value Hv) as (wv & Hwv & Hrv).
      exists (encodeInt [] (- i) 6 0x40 ++ wv), (insert name value t). split.
      { unfold mret. rewrite (mbind_ok (fun s => (Ok _, s)) _ t t (encodeInt out (- i) 6 64)) by done.
        rewrite (mbind_lift _ _ _ _ Hwv), mbind_put. unfold mret.
        by rewrite encodeInt_app, <- app_assoc. }
      split; [by apply table_ok_insert |].
      apply (literal_reads _ wv name value (- i)); [lia | lia | | done].
      intros _. split; [done |]. destruct (Hneg Hlt) as (_ & v & Hlk). exists v.
      by apply get_entries; [lia |].
    + cbn [Z.eqb]. destruct (encodeStr_ok ((encodeInt out 0 6 0x40) ++ wn) value Hv) as (wv & Hwv & Hrv).
      exists (encodeInt [] 0 6 0x40 ++ wn ++ wv), (insert name value t). split.
      { rewrite (mbind_lift _ _ _ _ Hwn), (mbind_lift _ _ _ _ Hwv), mbind_put. unfold mret.
        by rewrite encodeInt_app, <- !app_assoc. }
      split; [by apply table_ok_insert |].
      apply (literal_reads _ wv name value 0); [lia | | lia | done]. intros _. by exists wn.
Qed.

(** ** A block of fields *)

(** [w] is read as the fields [fs], one after the other. *)
Inductive block_reads : bytes -> list (bytes * bytes) -> HpackTable -> HpackTable -> Prop :=
| block_nil (t : HpackTable) : block_reads [] [] t t
| block_cons (w ws name value : bytes) (fs : list (bytes * bytes)) (t t1 t2 : HpackTable) :
    field_reads w name value t t1 -> block_reads ws fs t1 t2 ->
    block_reads (w ++ ws) ((name, value) :: fs) t t2.

Lemma block_app (w1 w2 : bytes) (fs1 fs2 : list (bytes * bytes)) (t t1 t2 : HpackTable) :
  block_reads w1 fs1 t t1 -> block_reads w2 fs2 t1 t2 -> block_reads (w1 ++ w2) (fs1 ++ fs2) t t2.
Proof.
  induction 1 as [| w ws name value fs t t1 t3 Hf Hb IH]; intros H2; [done |].
  rewrite <- app_assoc. cbn [app]. econstructor; eauto.
Qed.

Lemma block_size (w : bytes) (fs : list (bytes * bytes)) (t t' : HpackTable) :
  block_reads w fs t t' -> size fs <= size w.
Proof.
  induction 1 as [| w ws name value fs t t1 t3 [Hw _] Hb IH]; [done |].
  rewrite size_app, size_cons. lia.
Qed.

(** The fields of a block, applied in order. *)
Fixpoint applyAll (fs : list (bytes * bytes)) (st : DecodedHeaders * bool)
  : outcome (DecodedHeaders * bool) :=
  match fs with
  | [] => Ok st
  | (name, value) :: fs' => let! st' := applyHeader name value st in applyAll fs' st'
  end.

Lemma decodeLoop_block (w : bytes) (fs : list (bytes * bytes)) (t t' : HpackTable)
    (st st' : DecodedHeaders * bool) (pre : bytes) (fuel : nat) :
  block_reads w fs t t' -> applyAll fs st = Ok st' ->
  (length fs <= fuel)%nat -> size (pre ++ w) < 2 ^ 63 ->
  decodeLoop fuel (pre ++ w) (size pre) st t = (Ok (fst st'), t').
Proof.
  intros Hb. revert st pre fuel.
  induction Hb as [t | w ws name value fs t t1 t2 Hf Hb IH]; intros st pre fuel Hst Hl Hs.
  - injection Hst as <-. rewrite app_nil_r. destruct fuel; cbn [decodeLoop];
      (destruct (Z.ltb_spec (size pre) (size pre)); [lia | done]).
  - cbn [length] in Hl. destruct fuel as [| fuel]; [lia |]. cbn [decodeLoop].
    destruct Hf as [Hw Hread]. pose proof (size_nonneg ws).
    pose proof Hs as Hs'. rewrite size_middle in Hs'. rewrite size_middle.
    destruct (Z.ltb_spec (size pre) (size pre + size w + size ws)); [| lia].
    cbn [applyAll] in Hst. apply obind_ok in Hst as (st1 & Hst1 & Hst).
    rewrite (mbind_ok _ _ t t1 (st1, size pre + size w)) by (rewrite Hread by done; by rewrite Hst1).
    replace (pre ++ w ++ ws) with ((pre ++ w) ++ ws) in * by (by rewrite <- app_assoc).
    rewrite <- size_app. apply IH; [done | lia | done].
Qed.

Lemma decode_block (w : bytes) (fs : list (bytes * bytes)) (t t' : HpackTable)
    (st' : DecodedHeaders * bool) :
  block_reads w fs t t' -> applyAll fs (noHeaders, false) = Ok st' -> size w < 2 ^ 63 ->
  decode w t = (Ok (fst st'), t').
Proof.
  intros Hb Hst Hs. unfold decode. pose proof (block_size _ _ _ _ Hb) as Hl. unfold size in Hl.
  apply (decodeLoop_block w fs t t' (noHeaders, false) st' [] (length w)); [done | done | lia | done].
Qed.

(** The fields [encodeHeaders] writes. *)
Definition sentHeaders (hs : HttpHeaderMap) : HttpHeaderMap :=
  List.filter (fun kh => negb (skippedHeader (snd kh))) hs.

Definition fieldsOf (hs : HttpHeaderMap) : list (bytes * bytes) :=
  map (fun kh => (name_ (snd kh), value_ (snd kh))) hs.

Definition small (s : bytes) : Prop := size s < 2 ^ 40.

Lemma encodeHeaders_ok (hs : HttpHeaderMap) (out : bytes) (t : HpackTable) :
  Forall (fun kh => small (name_ (snd kh)) /\ small (value_ (snd kh))) hs -> table_ok t ->
  exists w t', encodeHeaders hs out t = (Ok (out ++ w), t') /\ table_ok t'
    /\ block_reads w (fieldsOf (sentHeaders hs)) t t'.
Proof.
  intros Hsmall. revert out t. induction Hsmall as [| [k h] hs [Hn Hv] Hsmall IH]; intros out t Ht.
  - exists [], t. cbn [encodeHeaders]. rewrite app_nil_r. repeat split; [apply Ht .. | constructor].
  - cbn [encodeHeaders sentHeaders List.filter snd] in *.
    destruct (skippedHeader h); cbn [negb]; [by apply IH |].
    destruct (encodeField_ok (name_ h) (value_ h) out t Ht Hn Hv) as (w & t1 & Hw & Ht1 & Hf).
    destruct (IH (out ++ w) t1 Ht1) as (ws & t2 & Hws & Ht2 & Hb).
    exists (w ++ ws), t2. rewrite (mbind_ok _ _ _ _ _ Hw), Hws, <- app_assoc.
    split; [done |]. split; [done |]. cbn [fieldsOf map snd]. by econstructor.
Qed.

(** The headers of a message as the code keeps them: under their own names, in
    order, none of them a pseudo-header. *)
Definition headers_ok (hs : HttpHeaderMap) : Prop :=
  om_wf hs /\ Forall (fun kh => fst kh = name_ (snd kh)
    /\ snd kh = newHeader (name_ (snd kh)) (value_ (snd kh))
    /\ isPseudo (name_ (snd kh)) = false) hs.

Lemma om_wf_filter {V : Type} (P : bytes * V -> bool) (m : ordmap V) :
  om_wf m -> om_wf (List.filter P m).
Proof.
  unfold om_wf. induction 1 as [| kv m Hs IH Hall]; [constructor |]. cbn [List.filter].
  destruct (P kv); [| done]. constructor; [done |]. rewrite Forall_forall in *.
  intros x Hx. apply Hall. apply list_elem_of_In, filter_In in Hx as [Hx _]. by apply list_elem_of_In.
Qed.

Lemma headers_ok_sent (hs : HttpHeaderMap) : headers_ok hs -> headers_ok (sentHeaders hs).
Proof.
  intros [Hwf Hall]. split; [by apply om_wf_filter |]. rewrite Forall_forall in *.
  intros x Hx. apply Hall. apply list_elem_of_In, filter_In in Hx as [Hx _]. by apply list_elem_of_In.
Qed.

Lemma applyAll_headers (done hs : HttpHeaderMap) (m p s a st : bytes) (seen : bool) :
  headers_ok (done ++ hs) ->
  applyAll (fieldsOf hs) (mkDecoded m p s a st done, seen)
  = Ok (mkDecoded m p s a st (done ++ hs), seen || negb (bool_decide (hs = []))).
Proof.
  revert done seen. induction hs as [| [k h] hs IH]; intros dn seen Hok.
  - cbn [fieldsOf map applyAll]. rewrite app_nil_r. by destruct seen.
  - pose proof Hok as [Hwf Hall].
    apply Forall_app in Hall as [_ Hall]. apply Forall_cons_1 in Hall as [(Hk & Hh & Hp) _].
    cbn [fst snd] in *. cbn [fieldsOf map applyAll snd]. unfold applyHeader at 1. rewrite Hp, <- Hh.
    cbn [obind]. replace (dn ++ (k, h) :: hs) with ((dn ++ [(k, h)]) ++ hs) in * by (by rewrite <- app_assoc).
    rewrite <- Hk, om_insert_snoc by (by apply om_wf_app_l in Hwf).
    change (map _ hs) with (fieldsOf hs). rewrite IH by done.
    by destruct seen.
Qed.

(** ** Responses *)

Lemma encodeUntracked_ok (name value out : bytes) :
  small name -> small value ->
  exists w, encodeUntracked name value out = Ok (out ++ w)
    /\ forall t, field_reads w name value t (insert name value t).
Proof.
  intros Hn Hv. unfold encodeUntracked.
  destruct (encodeStr_ok (encodeInt out 0 6 0x40) name Hn) as (wn & -> & Hrn). cbn [obind].
  destruct (encodeStr_ok (encodeInt out 0 6 0x40 ++ wn) value Hv) as (wv & -> & Hrv).
  exists (encodeInt [] 0 6 0x40 ++ wn ++ wv). split.
  - by rewrite encodeInt_app, <- !app_assoc.
  - intros t. apply (literal_reads _ wv name value 0); [lia | | lia | done]. intros _. by exists wn.
Qed.

(** What a decoder's table becomes when it takes fields up. *)
Definition insertAll (fs : list (bytes * bytes)) (t : HpackTable) : HpackTable :=
  foldl (fun t f => insert (fst f) (snd f) t) t fs.

Definition cookieFields (cs : list Cookie) : list (bytes * bytes) :=
  map (fun c => (str "set-cookie", toString c)) cs.

Lemma encodeCookies_ok (cs : list Cookie) (out : bytes) :
  Forall (fun c => small (toString c)) cs ->
  exists w, encodeCookies cs out = Ok (out ++ w)
    /\ forall t, block_reads w (cookieFields cs) t (insertAll (cookieFields cs) t).
Proof.
  intros Hcs. revert out. induction Hcs as [| c cs Hc Hcs IH]; intros out.
  - exists []. rewrite app_nil_r. split; [done |]. constructor.
  - cbn [encodeCookies].
    destruct (encodeUntracked_ok (str "set-cookie") (toString c) out) as (w & -> & Hw); [done | done |].
    cbn [obind]. destruct (IH (out ++ w)) as (ws & -> & Hws). exists (w ++ ws).
    split; [by rewrite <- app_assoc |]. intros t. cbn [cookieFields map]. by econstructor.
Qed.

Definition lengthFields (n : Z) : list (bytes * bytes) :=
  if 0 <? n then [(str "content-length", to_string n)] else [].

(** The fields of a response that the encoder's own table takes up, and the
    others. *)
Definition trackedFields (resp : HttpResponse) : list (bytes * bytes) :=
  (str ":status", to_string (r_statusCode resp)) :: fieldsOf (sentHeaders (r_headers resp)).
Definition untrackedFields (resp : HttpResponse) : list (bytes * bytes) :=
  lengthFields (r_contentLength resp) ++ cookieFields (r_cookies resp).

Definition response_small (resp : HttpResponse) : Prop :=
  0 <= r_statusCode resp < 2 ^ 16 /\ 0 <= r_contentLength resp < 2 ^ 64
  /\ Forall (fun kh => small (name_ (snd kh)) /\ small (value_ (snd kh))) (r_headers resp)
  /\ Forall (fun c => small (toString c)) (r_cookies resp).

Lemma to_string_small (n : Z) : 0 <= n < 2 ^ 64 -> small (to_string n).
Proof.
  intros Hn. unfold small, to_string, size. destruct (Z.ltb_spec n 0); [lia |].
  destruct (digits_of_spec 10 20 n []) as (ds & -> & Hl & _); [by left | lia | lia |].
  rewrite app_nil_r. lia.
Qed.

Lemma encodeResponse_ok (resp : HttpResponse) (t : HpackTable) :
  table_ok t -> response_small resp ->
  exists w ws wu t1 t',
    encodeResponse resp t = (Ok (w ++ ws ++ wu), t') /\ table_ok t'
    /\ field_reads w (str ":status") (to_string (r_statusCode resp)) t t1
    /\ block_reads ws (fieldsOf (sentHeaders (r_headers resp))) t1 t'
    /\ forall u, block_reads wu (untrackedFields resp) u (insertAll (untrackedFields resp) u).
Proof.
  intros Ht (Hcode & Hlen & Hhs & Hcs). unfold encodeResponse.
  destruct (encodeField_ok (str ":status") (to_string (r_statusCode resp)) [] t Ht)
    as (w & t1 & Hw & Ht1 & Hf); [by vm_compute | apply to_string_small; lia |].
  destruct (encodeHeaders_ok (r_headers resp) w t1 Hhs Ht1) as (ws & t2 & Hws & Ht2 & Hb).
  assert (Hlf : exists wl, (if 0 <? r_contentLength resp
      then encodeUntracked (str "content-length") (to_string (r_contentLength resp)) (w ++ ws)
      else Ok (w ++ ws)) = Ok ((w ++ ws) ++ wl)
    /\ forall u, block_reads wl (lengthFields (r_contentLength resp)) u
                   (insertAll (lengthFields (r_contentLength resp)) u)).
  { unfold lengthFields. destruct (0 <? r_contentLength resp).
    - destruct (encodeUntracked_ok (str "content-length") (to_string (r_contentLength resp)) (w ++ ws))
        as (wl & Hwl & Hfl); [by vm_compute | by apply to_string_small |].
      exists wl. split; [done |]. intros u. rewrite <- (app_nil_r wl). econstructor; [apply Hfl | constructor].
    - exists []. rewrite app_nil_r. split; [done |]. constructor. }
  destruct Hlf as (wl & Hwl & Hrl).
  destruct (encodeCookies_ok (r_cookies resp) ((w ++ ws) ++ wl) Hcs) as (wc & Hwc & Hrc).
  exists w, ws, (wl ++ wc), t1, t2. split.
  - rewrite (mbind_ok _ _ _ _ _ Hw), (mbind_ok _ _ _ _ _ Hws), (mbind_lift _ _ _ _ Hwl).
    unfold mlift. by rewrite Hwc, <- !app_assoc.
  - split; [done |]. split; [done |]. split; [done |]. intros u. unfold untrackedFields, insertAll.
    rewrite foldl_app. eapply block_app; [apply Hrl | apply Hrc].
Qed.

(** ** Any block *)

(** No integer of the block needs more than ten octets after its prefix: no
    ten octets in a row announce another one. *)
Definition short_runs (data : bytes) : Prop :=
  forall i, 0 <= i -> exists j b, i <= j < i + 10 /\
    (size data <= j \/ (at_ data j = Ok b /\ Z.land (b2z b) 0x80 = 0)).

Lemma decodeIntLoop_safe (fuel : nat) (data : bytes) (pos value m j : Z) :
  0 <= pos <= size data -> 0 <= m -> pos <= j -> m + 7 * (j - pos) < 64 ->
  (size data <= j \/ exists b, at_ data j = Ok b /\ Z.land (b2z b) 0x80 = 0) ->
  size data - pos <= Z.of_nat fuel ->
  exists v pos', decodeIntLoop fuel data pos value m = Ok (v, pos')
    /\ (0 <= value < 2 ^ 64 -> 0 <= v < 2 ^ 64) /\ pos <= pos' <= size data.
Proof.
  revert pos value m. induction fuel as [| fuel IH]; intros pos value m Hpos Hm Hj Hmj Hend Hfuel;
    cbn [decodeIntLoop].
  - destruct (Z.ltb_spec pos (size data)); [lia |]. exists value, pos. split; [done | lia].
  - destruct (Z.ltb_spec pos (size data)) as [Hlt |]; [| exists value, pos; split; [done | lia]].
    destruct (at_total data pos) as (b & Hb & _); [lia |]. rewrite Hb. cbn [obind].
    destruct (Z.leb_spec 64 m); [lia |].
    set (value' := u64 _).
    assert (Hv' : 0 <= value' < 2 ^ 64) by (apply Z.mod_pos_bound; lia).
    destruct (Z.eqb_spec (Z.land (b2z b) 0x80) 0) as [| Hcont].
    + exists value', (pos + 1). split; [done | lia].
    + destruct (Z.eq_dec j pos) as [-> | Hne].
      { destruct Hend as [| (b' & Hb' & Hz)]; [lia |]. rewrite Hb in Hb'. by injection Hb' as <-. }
      destruct (IH (pos + 1) value' (m + 7)) as (v & pos' & -> & Hv & Hp'); try lia; [done |].
      exists v, pos'. split; [done |]. lia.
Qed.

Lemma decodeInt_safe (data : bytes) (pos p : Z) :
  short_runs data -> 0 <= pos < size data -> 0 <= p ->
  exists v pos', decodeInt data pos p = Ok (v, pos') /\ 0 <= v < 2 ^ 64 /\ pos < pos' <= size data.
Proof.
  intros Hruns Hpos Hp. unfold decodeInt.
  destruct (at_total data pos Hpos) as (b & -> & _). cbn [obind].
  rewrite (land_mask_mod _ _ p) by done.
  pose proof (Z.mod_pos_bound (b2z b) (2 ^ p) ltac:(apply Z.pow_pos_nonneg; lia)) as Hmod.
  pose proof (Z.mod_le (b2z b) (2 ^ p) (proj1 (b2z_range b)) ltac:(apply Z.pow_pos_nonneg; lia)) as Hle.
  pose proof (b2z_range b).
  destruct (b2z b mod 2 ^ p <? 2 ^ p - 1); [eexists _, _; split; [reflexivity | lia] |].
  destruct (Hruns (pos + 1)) as (j & b' & Hj & Hend); [lia |].
  destruct (decodeIntLoop_safe (length data) data (pos + 1) (b2z b mod 2 ^ p) 0 j)
    as (v & pos' & -> & Hv & Hp'); try lia.
  - destruct Hend as [| []]; [by left | right; by exists b'].
  - unfold size. lia.
  - exists v, pos'. split; [done |]. lia.
Qed.

Lemma decodeStr_safe (data : bytes) (pos : Z) :
  short_runs data -> size data < 2 ^ 60 -> 0 <= pos ->
  safe (decodeStr data pos) (fun r => pos < snd r <= size data).
Proof.
  intros Hruns Hsize Hpos. unfold decodeStr.
  destruct (Z.leb_spec (size data) pos); [done |].
  destruct (at_total data pos) as (b & -> & _); [lia |]. cbn [obind].
  destruct (decodeInt_safe data pos 7) as (v & pos' & -> & Hv & Hpos'); [done | lia | lia |]. cbn [obind].
  destruct (Z.ltb_spec (size data) (u64 (pos' + v))) as [| Hfit]; [done |].
  pose proof (size_nonneg data).
  assert (Hfits : pos' + v <= size data \/ 2 ^ 64 - 2 ^ 60 < v).
  { unfold u64 in Hfit. destruct (Z.lt_ge_cases (pos' + v) (2 ^ 64)); [| lia].
    rewrite Z.mod_small in Hfit by lia. lia. }
  assert (Hread : pos' + v <= size data ->
    exists r, readBytes data pos' v = Ok r /\ u64 (pos' + v) = pos' + v).
  { intros Hr. unfold readBytes, u64. rewrite Z.mod_small by lia.
    destruct (Z.leb_spec 0 pos'); [| lia]. destruct (Z.leb_spec 0 v); [| lia].
    destruct (Z.leb_spec (pos' + v) (size data)); [| lia]. eexists. split; reflexivity. }
  apply (safe_bind _ _ (fun _ => pos' + v <= size data)).
  - destruct (negb (Z.land (b2z b) 0x80 =? 0)).
    + apply (safe_bind _ _ (fun _ => pos' + v <= size data)).
      * unfold reserve, u64. destruct Hfits as [Hr | Hwrap]; [by destruct (2 ^ 48 <=? _) |].
        replace ((v * 8) mod 2 ^ 64) with (v * 8 - 7 * 2 ^ 64)
          by (apply (Z.mod_unique_pos _ _ 7); lia).
        destruct (Z.leb_spec (2 ^ 48) ((v * 8 - 7 * 2 ^ 64) / 5)) as [| Hl]; [done |].
        assert (2 ^ 48 <= (v * 8 - 7 * 2 ^ 64) / 5) by (apply Z.div_le_lower_bound; lia). lia.
      * intros _ Hr. destruct (Hread Hr) as (r & -> & _). cbn [obind].
        destruct (huffmanDecode_sound r) as [-> | (x & -> & _)]; done.
    + apply (safe_bind _ _ (fun _ => pos' + v <= size data)).
      * unfold reserve. destruct (Z.leb_spec (2 ^ 48) v); [done |]. cbn. lia.
      * intros _ Hr. by destruct (Hread Hr) as (r & -> & _).
  - intros x Hr. destruct (Hread Hr) as (_ & _ & Hu). cbn [safe snd]. rewrite Hu. lia.
Qed.

Lemma decodeLiteral_safe (data : bytes) (pos p : Z) (t : HpackTable) :
  short_runs data -> size data < 2 ^ 60 -> 0 <= pos < size data -> 0 <= p ->
  safe (decodeLiteral data pos p t) (fun r => pos < snd r <= size data).
Proof.
  intros Hruns Hsize Hpos Hp. unfold decodeLiteral.
  destruct (decodeInt_safe data pos p) as (i & pos1 & -> & Hi & Hpos1); [done .. |]. cbn [obind].
  apply (safe_bind _ _ (fun r => pos < snd r <= size data)).
  - destruct (i =? 0).
    + eapply safe_mono; [apply decodeStr_safe; [done | done | lia] |]. intros r. simpl. lia.
    + destruct (get_cases i t) as [-> | (e & ->)]; [lia | done | done].
  - intros [name pos2] H2. cbn [snd] in H2.
    apply (safe_bind _ _ (fun r => pos2 < snd r <= size data)).
    + apply decodeStr_safe; [done | done | lia].
    + intros [v pos3] H3. simpl in *. lia.
Qed.

Lemma applyHeader_safe (name value : bytes) (st : DecodedHeaders * bool) :
  safe (applyHeader name value st) (fun _ => True).
Proof. destruct st as [[] seen]. unfold applyHeader. repeat case_match; done. Qed.

(** Every representation keeps the table's invariant, never raises its limit,
    and moves on in the block. *)
Lemma decodeField_safe (data : bytes) (pos : Z) (st : DecodedHeaders * bool) (t : HpackTable) (m : Z) :
  short_runs data -> size data < 2 ^ 60 -> 0 <= pos < size data -> table_wf t -> maxSize_ t <= m ->
  msafe (decodeField data pos st) t (fun t' => table_wf t' /\ maxSize_ t' <= m)
    (fun r => pos < snd r <= size data).
Proof.
  intros Hruns Hsize Hpos Ht Hm. unfold decodeField.
  assert (Happly : forall t' name value p, table_wf t' /\ maxSize_ t' <= m -> pos < p <= size data ->
    msafe (mbind (mlift (applyHeader name value st)) (fun st => mret (st, p))) t'
      (fun t' => table_wf t' /\ maxSize_ t' <= m) (fun r => pos < snd r <= size data)).
  { intros t' name value p Ht' Hp. apply (msafe_lift _ _ _ _ (fun _ => True)); [done | apply applyHeader_safe |].
    intros st' _. by apply msafe_ret. }
  apply (msafe_lift _ _ _ _ (fun _ => True)); [done | |].
  { by destruct (at_total data pos Hpos) as (b & -> & _). }
  intros b _. apply msafe_get.
  destruct (negb (Z.land (b2z b) 0x80 =? 0)); [| destruct (Z.land (b2z b) 0xc0 =? 0x40);
    [| destruct (Z.land (b2z b) 0xe0 =? 0x20)]].
  - destruct (decodeInt_safe data pos 7) as (i & p & -> & Hi & Hp); [done .. |].
    apply (msafe_lift _ _ _ _ (fun r => r = (i, p))); [done | done |]. intros _ ->.
    destruct (Z.eqb_spec i 0); [done |].
    apply (msafe_lift _ _ _ _ (fun _ => True)); [done | |].
    + by destruct (get_cases i t) as [-> | (e & ->)]; [lia | |].
    + intros e _. by apply Happly.
  - apply (msafe_lift _ _ _ _ (fun r => pos < snd r <= size data)); [done | by apply decodeLiteral_safe |].
    intros [[name value] p] Hp. apply msafe_put, Happly; [| done].
    split; [by apply insert_wf |]. by rewrite insert_fitting.
  - destruct (_ || _); [done |].
    destruct (decodeInt_safe data pos 5) as (n & p & -> & Hn & Hp); [done .. |].
    apply (msafe_lift _ _ _ _ (fun r => r = (n, p))); [done | done |]. intros _ ->.
    destruct (Z.ltb_spec (maxSize_ t) n); [done |].
    apply msafe_put, msafe_ret; [| done].
    split; [apply setMaxSize_wf; [done | lia] |]. rewrite setMaxSize_fitting by (done || lia). cbn. lia.
  - apply (msafe_lift _ _ _ _ (fun r => pos < snd r <= size data)); [done | by apply decodeLiteral_safe |].
    intros [[name value] p] Hp. by apply Happly.
Qed.

Lemma decodeLoop_keeps (fuel : nat) (data : bytes) (pos : Z) (st : DecodedHeaders * bool)
    (t : HpackTable) (m : Z) :
  short_runs data -> size data < 2 ^ 60 -> 0 <= pos -> size data - pos <= Z.of_nat fuel ->
  table_wf t -> maxSize_ t <= m ->
  msafe (decodeLoop fuel data pos st) t (fun t' => table_wf t' /\ maxSize_ t' <= m) (fun _ => True).
Proof.
  intros Hruns Hsize. revert pos st t. induction fuel as [| fuel IH]; intros pos st t Hpos Hf Ht Hm;
    cbn [decodeLoop]; (destruct (Z.ltb_spec pos (size data)) as [Hlt |]; [| by apply msafe_ret]); [lia |].
  eapply msafe_bind; [by apply decodeField_safe |]. intros [st' p] t' [Ht' Hm'] Hp. cbn [snd] in Hp.
  apply IH; [lia | lia | done | done].
Qed.

(** ** Properties *)

(** HPACK integers are a round trip.  Every 64-bit integer, written after
    any octets with any prefix of 1 to 8 bits whose flags leave the prefix
    free, is read back exactly, whatever follows, and reading ends right
    after it. *)
Theorem hpack_int_roundtrip (out post : bytes) (value prefixBits firstByte : Z) :
  prefix_ok prefixBits firstByte -> 0 <= value < 2 ^ 64 ->
  decodeInt (encodeInt out value prefixBits firstByte ++ post) (size out) prefixBits
  = Ok (value, size (encodeInt out value prefixBits firstByte)).
Proof.
  intros Hok Hv. rewrite encodeInt_app, <- app_assoc, decodeInt_ok by done.
  by rewrite size_app.
Qed.

Lemma hpack_int_roundtrip_witness :
  decodeInt (encodeInt (str "ab") 1337 5 0x20 ++ str "z") 2 5
  = Ok (1337, size (encodeInt (str "ab") 1337 5 0x20)).
Proof. apply (hpack_int_roundtrip (str "ab") (str "z") 1337 5 0x20); [by split | lia]. Defined.

(** Headers are a round trip.  The part of a block [encodeHeaders] writes for
    the headers of a message, decoded with the table the encoder had, gives
    exactly these headers (less the three that HTTP/2 does not carry), and
    the decoder's table is then the encoder's: the two sides can go on with
    the next message. *)
Theorem hpack_headers_roundtrip (hs : HttpHeaderMap) (t : HpackTable) :
  headers_ok hs -> Forall (fun kh => small (name_ (snd kh)) /\ small (value_ (snd kh))) hs ->
  table_ok t ->
  exists w t', encodeHeaders hs [] t = (Ok w, t') /\ table_ok t'
    /\ (size w < 2 ^ 63 -> decode w t = (Ok (mkDecoded [] [] [] [] [] (sentHeaders hs)), t')).
Proof.
  intros Hok Hsmall Ht. destruct (encodeHeaders_ok hs [] t Hsmall Ht) as (w & t' & Hw & Ht' & Hb).
  exists w, t'. split; [done |]. split; [done |]. intros Hsize.
  pose proof (applyAll_headers [] (sentHeaders hs) [] [] [] [] [] false (headers_ok_sent hs Hok)) as Happ.
  by rewrite (decode_block w _ t t' _ Hb Happ Hsize).
Qed.

Definition sample_headers : HttpHeaderMap :=
  [(str "accept", newHeader (str "Accept") (str "*/*"));
   (str "content-length", newHeader (str "Content-Length") (str "5"));
   (str "x-trace", newHeader (str "X-Trace") (str "0123456789abcdef"))].

Lemma hpack_headers_roundtrip_witness :
  exists w t', encodeHeaders sample_headers [] (newTable 4096) = (Ok w, t') /\ table_ok t'
    /\ (size w < 2 ^ 63 ->
        decode w (newTable 4096) = (Ok (mkDecoded [] [] [] [] [] (sentHeaders sample_headers)), t')).
Proof.
  apply hpack_headers_roundtrip.
  - split; [by repeat constructor |]. by repeat constructor.
  - by repeat constructor.
  - by repeat constructor.
Defined.

(** C12: decoding is safe on any block.  Whatever the octets, as long as no ten
    of them in a row announce a further octet of an integer, [decode] ends,
    reads inside the block only, and returns headers or throws; also when it
    throws it leaves a table whose accounting is exact and within the limit,
    and the limit is never raised. *)
Theorem hpack_decode_safe (data : bytes) (t : HpackTable) :
  short_runs data -> size data < 2 ^ 60 -> table_wf t ->
  msafe (decode data) t (fun t' => table_wf t' /\ maxSize_ t' <= maxSize_ t) (fun _ => True).
Proof.
  intros Hruns Hsize Ht. unfold decode. apply decodeLoop_keeps; [done | done | lia | unfold size; lia | done | done].
Qed.

Lemma short_runs_short (data : bytes) : size data < 10 -> short_runs data.
Proof.
  intros Hs i Hi. exists (i + 9), x00. pose proof (size_nonneg data). split; [lia |]. left. lia.
Qed.

Lemma hpack_decode_safe_witness :
  let data := [x82; x40; x01; x61; x7f; xff; x80] in
  msafe (decode data) (newTable 4096) (fun t' => table_wf t' /\ maxSize_ t' <= 4096) (fun _ => True).
Proof.
  intros data. apply (hpack_decode_safe data (newTable 4096)); [by apply short_runs_short | done | by split].
Defined.

(** Eleven octets: the shift is 70. *)
Example decodeInt_undefined :
  decodeInt (xff :: replicate 10 x80 ++ [x00]) 0 7 = Undefined.
Proof. by vm_compute. Qed.

(** The fields of a response block.  A decoder whose table is the encoder's
    reads from [encodeResponse]'s block the status, the headers, the content
    length and the cookies, in this order.  Its table is then the encoder's
    with the content length and the cookies added, which the encoder does not
    record: the two stay in step exactly as long as a response has neither. *)
Theorem hpack_response_fields (resp : HttpResponse) (t : HpackTable) :
  table_ok t -> response_small resp ->
  exists block t', encodeResponse resp t = (Ok block, t') /\ table_ok t'
    /\ block_reads block (trackedFields resp ++ untrackedFields resp) t
         (insertAll (untrackedFields resp) t')
    /\ (r_contentLength resp = 0 -> r_cookies resp = [] ->
        block_reads block (trackedFields resp) t t').
Proof.
  intros Ht Hr.
  destruct (encodeResponse_ok resp t Ht Hr) as (w & ws & wu & t1 & t' & Henc & Ht' & Hf & Hb & Hu).
  exists (w ++ ws ++ wu), t'. split; [done |]. split; [done |].
  assert (Hall : block_reads (w ++ ws ++ wu) (trackedFields resp ++ untrackedFields resp) t
    (insertAll (untrackedFields resp) t')).
  { rewrite app_assoc. eapply block_app; [| apply Hu]. by econstructor. }
  split; [done |]. intros Hl Hc.
  unfold untrackedFields, lengthFields in Hall. rewrite Hl, Hc in Hall. cbn in Hall.
  by rewrite app_nil_r in Hall.
Qed.

Definition sample_response : HttpResponse :=
  mkResponse kHttp11 404 (str "Not Found") sample_headers [mkCookie (str "id") (str "7") [] [] [] (-1) Unset false false] ContentLength 9 false.

Lemma hpack_response_fields_witness :
  exists block t', encodeResponse sample_response (newTable 4096) = (Ok block, t') /\ table_ok t'
    /\ block_reads block (trackedFields sample_response ++ untrackedFields sample_response) (newTable 4096)
         (insertAll (untrackedFields sample_response) t')
    /\ (r_contentLength sample_response = 0 -> r_cookies sample_response = [] ->
        block_reads block (trackedFields sample_response) (newTable 4096) t').
Proof.
  apply hpack_response_fields; [by repeat constructor |].
  split; [by split |]. split; [by split |]. split; by repeat constructor.
Defined.

(** [HpackDecoder] reads no response.  The block of any response starts
    with its status, which the decoder, with the encoder's table, takes for
    an error: a client that decodes responses with it gets none. *)
Theorem hpack_rejects_responses (resp : HttpResponse) (t : HpackTable) :
  table_ok t -> response_small resp ->
  exists block t', encodeResponse resp t = (Ok block, t')
    /\ (size block < 2 ^ 63 ->
        fst (decode block t) = Throw (RuntimeError "HPACK: response pseudo-header in request")).
Proof.
  intros Ht Hr.
  destruct (encodeResponse_ok resp t Ht Hr) as (w & ws & wu & t1 & t' & Henc & _ & [Hw Hf] & _).
  exists (w ++ ws ++ wu), t'. split; [done |]. intros Hsize. unfold decode.
  pose proof (size_nonneg (ws ++ wu)) as Hrest. pose proof Hsize as Hsize'. rewrite size_app in Hsize'.
  destruct (length (w ++ ws ++ wu)) as [| fuel] eqn:Hfuel; [rewrite length_app in Hfuel; unfold size in Hw; lia |].
  cbn [decodeLoop]. rewrite size_app. destruct (Z.ltb_spec 0 (size w + size (ws ++ wu))); [| lia].
  pose proof (Hf [] (ws ++ wu) (noHeaders, false) Hsize) as Hfirst. cbn [app] in Hfirst.
  rewrite size_nil in Hfirst. unfold mbind. by rewrite Hfirst.
Qed.

Lemma hpack_rejects_responses_witness :
  exists block t', encodeResponse sample_response (newTable 4096) = (Ok block, t')
    /\ (size block < 2 ^ 63 ->
        fst (decode block (newTable 4096)) = Throw (RuntimeError "HPACK: response pseudo-header in request")).
Proof.
  apply hpack_rejects_responses; [by repeat constructor |].
  split; [by split |]. split; [by split |]. split; by repeat constructor.
Defined.

Definition traced (n : Z) : HttpResponse :=
  mkResponse kHttp11 200 (str "OK") [(str "x-a", newHeader (str "X-A") (str "1"))] [] ContentLength n false.

(** The tables part ways.  A server answers two requests of one connection
    with the header [x-a: 1], the first time with a body of five octets.  A
    peer that starts with the same table and reads both blocks after their
    first octet, the status, gets [content-length: 5] where the second
    response has [x-a: 1]. *)
Theorem hpack_desync :
  exists block1 block2 t1 t2 u1 u2,
    encodeResponse (traced 5) (newTable 4096) = (Ok block1, t1)
    /\ encodeResponse (traced 0) t1 = (Ok block2, t2)
    /\ decode (drop 1 block1) (newTable 4096)
       = (Ok (mkDecoded [] [] [] [] []
            [(str "content-length", newHeader (str "content-length") (str "5"));
             (str "x-a", newHeader (str "x-a") (str "1"))]), u1)
    /\ decode (drop 1 block2) u1
       = (Ok (mkDecoded [] [] [] [] []
            [(str "content-length", newHeader (str "content-length") (str "5"))]), u2).
Proof.
  exists [x88; x40; x03; x78; x2d; x61; x01; x31;
          x40; x8a; x21; xea; x49; x6a; x4a; xd4; x16; xa9; x93; x3f; x01; x35], [x88; xbe].
  exists (mkTable 4096 36 [(str "x-a", str "1")]), (mkTable 4096 36 [(str "x-a", str "1")]).
  exists (mkTable 4096 83 [(str "content-length", str "5"); (str "x-a", str "1")]).
  exists (mkTable 4096 83 [(str "content-length", str "5"); (str "x-a", str "1")]).
  split; [vm_compute; reflexivity |]. split; [vm_compute; reflexivity |].
  split; vm_compute; reflexivity.
Qed.
