(* ===== verification/Endian.v ===== *)
(** Integers as big-endian octets: what the frame headers of WebSocket and
    HTTP/2 and the digests share. *)

From Stdlib Require Import ZArith Lia String Strings.Byte.
From stdpp Require Import base numbers option list.
From S2P Require Import Prelude CxxStd.
Open Scope Z_scope.

(** [out.push_back(v >> (8 * i))] for [i] from [n - 1] down to 0. *)
Fixpoint be_bytes (n : nat) (v : Z) : bytes :=
  match n with
  | O => []
  | S n' => z2b (Z.shiftr v (8 * Z.of_nat n')) :: be_bytes n' v
  end.

(** [v = (v << 8) | b] for every octet [b], from [acc] on. *)
Definition be_value (acc : Z) (bs : bytes) : Z :=
  foldl (fun v b => Z.lor (Z.shiftl v 8) (b2z b)) acc bs.

Lemma length_be_bytes (n : nat) (v : Z) : length (be_bytes n v) = n.
Proof. induction n as [| n IH]; [done |]. cbn [be_bytes length]. by rewrite IH. Qed.

Lemma size_be_bytes (n : nat) (v : Z) : size (be_bytes n v) = Z.of_nat n.
Proof. unfold size. by rewrite length_be_bytes. Qed.

Lemma be_value_step (v : Z) (b : byte) : Z.lor (Z.shiftl v 8) (b2z b) = v * 256 + b2z b.
Proof. rewrite lor_shiftl_add by (pose proof (b2z_range b); lia). done. Qed.

Lemma be_value_bytes (n : nat) (acc v : Z) :
  be_value acc (be_bytes n v) = acc * 2 ^ (8 * Z.of_nat n) + v mod 2 ^ (8 * Z.of_nat n).
Proof.
  revert acc. induction n as [| n IH]; intros acc.
  - cbn [be_bytes]. unfold be_value. cbn [foldl]. rewrite Z.mul_1_r, Z.mod_1_r. lia.
  - cbn [be_bytes]. unfold be_value in *. cbn [foldl]. rewrite IH, be_value_step, b2z_z2b.
    rewrite Z.shiftr_div_pow2 by lia.
    replace (8 * Z.of_nat (S n)) with (8 * Z.of_nat n + 8) by lia.
    assert (Hp : 0 < 2 ^ (8 * Z.of_nat n)) by (apply Z.pow_pos_nonneg; lia).
    rewrite Z.pow_add_r by lia. change (2 ^ 8) with 256.
    rewrite (Z.rem_mul_r v (2 ^ (8 * Z.of_nat n)) 256) by lia. lia.
Qed.

(** Reading back an integer that fits. *)
Lemma be_value_exact (n : nat) (v : Z) :
  0 <= v < 2 ^ (8 * Z.of_nat n) -> be_value 0 (be_bytes n v) = v.
Proof. intros Hv. rewrite be_value_bytes, Z.mod_small by done. lia. Qed.

Lemma be_value_range (bs : bytes) (acc : Z) :
  0 <= acc -> 0 <= be_value acc bs < (acc + 1) * 2 ^ (8 * size bs).
Proof.
  revert acc. induction bs as [| b bs IH]; intros acc Ha.
  - unfold be_value. cbn [foldl]. change (8 * size []) with 0. rewrite Z.pow_0_r. lia.
  - unfold be_value in *. cbn [foldl]. rewrite be_value_step, size_cons.
    pose proof (b2z_range b). pose proof (size_nonneg bs).
    specialize (IH (acc * 256 + b2z b) ltac:(lia)).
    replace (8 * (1 + size bs)) with (8 + 8 * size bs) by lia.
    rewrite Z.pow_add_r by lia. change (2 ^ 8) with 256.
    assert (0 < 2 ^ (8 * size bs)) by (apply Z.pow_pos_nonneg; lia). nia.
Qed.
