(* ===== verification/WebSocket.v ===== *)
(** WebSocket framing (RFC 6455): [WsConnection] of
    src/extensions/websocket/src/WsConnection.cc. *)

From Stdlib Require Import ZArith Lia String Strings.Byte.
From stdpp Require Import base numbers option list.
From S2P Require Import Prelude CxxStd Endian ByteStream.
Open Scope Z_scope.

(** ** Data *)

Definition kContinuation : Z := 0x0.
Definition kText : Z := 0x1.
Definition kBinary : Z := 0x2.
Definition kClose : Z := 0x8.
Definition kPing : Z := 0x9.
Definition kPong : Z := 0xA.

Inductive WsMessageType : Type := Text | Binary.

Inductive Role : Type := Server | Client.

#[export] Instance Role_eq_decision : EqDecision Role.
Proof. solve_decision. Defined.

Record WsMessage : Type := mkMessage { type : WsMessageType; payload : bytes }.

(** [generator_] is the state of [std::rand]; [shutdown_] records a call of
    [stream_->shutdown()]. *)
Record WsConnection (S G : Type) : Type := mkWs {
  stream_ : S;
  role_ : Role;
  generator_ : G;
  shutdown_ : bool
}.
Arguments mkWs {S G} stream_ role_ generator_ shutdown_.
Arguments stream_ {S G} w.
Arguments role_ {S G} w.
Arguments generator_ {S G} w.
Arguments shutdown_ {S G} w.

(** [bytes\[i\] ^ maskKey\[i % 4\]] for every [i]. *)
Fixpoint applyMask (key : bytes) (i : Z) (data : bytes) : bytes :=
  match data with
  | [] => []
  | b :: data' =>
      z2b (Z.lxor (b2z b) (b2z (nth (Z.to_nat (i mod 4)) key x00))) :: applyMask key (i + 1) data'
  end.

(** The second octet of a header and the extended length. *)
Definition lengthOctets (maskBit len : Z) : bytes :=
  if len <? 126 then [z2b (Z.lor maskBit len)]
  else if len <? 65536 then z2b (Z.lor maskBit 126) :: be_bytes 2 len
  else z2b (Z.lor maskBit 127) :: be_bytes 8 len.

(** [payload.resize(n)] *)
Definition resizePayload (n : Z) (s : bytes) : outcome bytes :=
  if 2 ^ 48 <=? n then Throw LengthError
  else Ok (take (Z.to_nat n) s ++ replicate (Z.to_nat n - length s) x00).

Section connection.
Context {S G : Type} `{!ByteStream S} (rand : G -> Z * G).
Abbreviation W := (WsConnection S G).

Definition with_stream (s : S) (c : W) : W := mkWs s (role_ c) (generator_ c) (shutdown_ c).

(** [readExact] *)
Definition readN (n : nat) : M W bytes := fun c =>
  match readExact n (stream_ c) with
  | (Ok (Some d), s) => (Ok d, with_stream s c)
  | (Ok None, s) => (Throw (RuntimeError "WsConnection: connection closed"), with_stream s c)
  | (Throw e, s) => (Throw e, with_stream s c)
  | (Undefined, s) => (Undefined, with_stream s c)
  | (Diverge, s) => (Diverge, with_stream s c)
  end.

Definition writeM (d : bytes) : M W unit := fun c => (Ok tt, with_stream (stream_write d (stream_ c)) c).

Definition shutdownStream : M W unit := fun c =>
  (Ok tt, mkWs (stream_ c) (role_ c) (generator_ c) true).

(** The four octets of a [uint32_t] drawn from [std::rand]. *)
Definition newMaskKey : M W bytes := fun c =>
  let '(v, g) := rand (generator_ c) in
  let r := u32 v in
  (Ok [z2b (Z.land r 0xff); z2b (Z.land (Z.shiftr r 8) 0xff); z2b (Z.land (Z.shiftr r 16) 0xff);
       z2b (Z.land (Z.shiftr r 24) 0xff)],
   mkWs (stream_ c) (role_ c) g (shutdown_ c)).

(** ** Sending *)

Definition sendFrame (opcode : Z) (data : bytes) : M W unit :=
  let* c := mget in
  let mask := bool_decide (role_ c = Client) in
  let maskBit := if mask then 0x80 else 0 in
  let head := z2b (Z.lor 0x80 opcode) :: lengthOctets maskBit (size data) in
  if mask then
    let* key := newMaskKey in
    writeM (head ++ key ++ applyMask key 0 data)
  else writeM (head ++ data).

Definition send (data : bytes) (t : WsMessageType) : M W unit :=
  sendFrame (match t with Binary => kBinary | Text => kText end) data.

(** [shutdown(code, reason)] *)
Definition sendClose (code : Z) (reason : bytes) : M W unit :=
  sendFrame kClose (z2b (Z.shiftr code 8) :: z2b code :: reason).

(** ** Receiving *)

Definition readLength (len7 : Z) : M W Z :=
  if len7 =? 126 then let* ext := readN 2 in mret (be_value 0 ext)
  else if len7 =? 127 then let* ext := readN 8 in mret (be_value 0 ext)
  else mret len7.

(** The payload of a frame, read to the end of the message and unmasked: the
    room made for it wraps around at 64 bits, and then the stream writes
    outside the string. *)
Definition readPayload (msg : bytes) (payloadLen : Z) (masked : bool) (key : bytes) : M W bytes :=
  let offset := size msg in
  let* room := mlift (resizePayload (u64 (offset + payloadLen)) msg) in
  if size room <? offset + payloadLen then
    let* _ := readN 1 in mlift Undefined
  else
    let* data := readN (Z.to_nat payloadLen) in
    mret (take (length msg) room ++ (if masked then applyMask key 0 data else data)).

Fixpoint receiveLoop (fuel : nat) (msg : bytes) (finalOpcode : Z) : M W (option WsMessage) :=
  match fuel with
  | O => mlift Diverge
  | Datatypes.S fuel' =>
      let* header := readN 2 in
      let* h0 := mlift (at_ header 0) in
      let* h1 := mlift (at_ header 1) in
      let fin := negb (Z.land (b2z h0) 0x80 =? 0) in
      let opcode := Z.land (b2z h0) 0x0f in
      let masked := negb (Z.land (b2z h1) 0x80 =? 0) in
      let* payloadLen := readLength (Z.land (b2z h1) 0x7f) in
      let* c := mget in
      if negb (Bool.eqb masked (bool_decide (role_ c = Server))) then
        let* _ := sendFrame kClose [x03; xea] in
        let* _ := shutdownStream in
        mthrow (RuntimeError "WsConnection: masking violation")
      else
        let* maskKey := (if masked then readN 4 else mret [x00; x00; x00; x00]) in
        let* msg' := readPayload msg payloadLen masked maskKey in
        if opcode =? kPing then
          let* _ := sendFrame kPong (drop (length msg) msg') in
          receiveLoop fuel' (take (length msg) msg') finalOpcode
        else if opcode =? kClose then mret None
        else
          let finalOpcode := if opcode =? kContinuation then finalOpcode else opcode in
          if fin then
            mret (Some (mkMessage (if finalOpcode =? kBinary then Binary else Text) msg'))
          else receiveLoop fuel' msg' finalOpcode
  end.

(** Every frame takes two octets from the stream. *)
Definition receive : M W (option WsMessage) := fun c =>
  receiveLoop (Datatypes.S (length (pending (stream_ c)))) [] kContinuation c.
End connection.

(** ** Masks *)

Lemma lxor_byte (a b : Z) : 0 <= a < 256 -> 0 <= b < 256 -> 0 <= Z.lxor a b < 256.
Proof.
  intros Ha Hb.
  assert (H : Z.lxor a b = Z.lxor a b mod 2 ^ 8).
  { apply Z.bits_inj'. intros n Hn. rewrite Z.lxor_spec.
    destruct (Z.lt_ge_cases n 8) as [Hlt | Hge].
    - by rewrite Z.mod_pow2_bits_low, Z.lxor_spec by lia.
    - rewrite Z.mod_pow2_bits_high by lia.
      rewrite <- (Z.mod_small a (2 ^ 8)), <- (Z.mod_small b (2 ^ 8)) by lia.
      by rewrite !Z.mod_pow2_bits_high by lia. }
  rewrite H. apply Z.mod_pos_bound. lia.
Qed.

Lemma applyMask_involutive (key data : bytes) (i : Z) :
  applyMask key i (applyMask key i data) = data.
Proof.
  revert i. induction data as [| b data IH]; intros i; [done |]. cbn [applyMask].
  rewrite IH. f_equal. set (k := nth _ key x00).
  rewrite b2z_z2b_small by (apply lxor_byte; apply b2z_range).
  rewrite Z.lxor_assoc, Z.lxor_nilpotent, Z.lxor_0_r. apply z2b_b2z.
Qed.

Lemma length_applyMask (key data : bytes) (i : Z) : length (applyMask key i data) = length data.
Proof. revert i. induction data as [| b data IH]; intros i; [done |]. cbn [applyMask length]. by rewrite IH. Qed.

(** ** Frames on the wire *)

Record frame : Type := mkFrame {
  f_fin : bool;
  f_opcode : Z;
  f_key : option bytes;
  f_payload : bytes
}.

Definition wire (f : frame) : bytes :=
  z2b (Z.lor (if f_fin f then 0x80 else 0) (f_opcode f))
  :: lengthOctets (match f_key f with Some _ => 0x80 | None => 0 end) (size (f_payload f))
  ++ match f_key f with
     | Some key => key ++ applyMask key 0 (f_payload f)
     | None => f_payload f
     end.

(** A frame a peer of an endpoint with role [r] may send: masked exactly when
    the endpoint is the server. *)
Definition frame_ok (r : Role) (f : frame) : Prop :=
  0 <= f_opcode f < 16 /\ size (f_payload f) < 2 ^ 47
  /\ match f_key f with Some key => length key = 4%nat /\ r = Server | None => r = Client end.

Section lemmas.
Context {S G : Type} `{!ByteStream S} (rand : G -> Z * G).
Abbreviation W := (WsConnection S G).

(** The connection is at a point where the peer's octets [p] are to come and
    [w] has been sent. *)
Definition is_at (c : W) (r : Role) (p w : bytes) : Prop :=
  pending (stream_ c) = p /\ sent (stream_ c) = w /\ role_ c = r.

Lemma readN_ok (n : nat) (c : W) (r : Role) (d p w : bytes) :
  is_at c r (d ++ p) w -> length d = n -> exists c', readN n c = (Ok d, c') /\ is_at c' r p w.
Proof.
  intros (Hp & Hw & Hr) Hn. unfold readN.
  destruct (readExact_spec n (stream_ c)) as (s & Hs & H).
  rewrite Hp, length_app in H. destruct (Nat.ltb_spec (length d + length p) n); [lia |].
  destruct H as [-> Hpend]. rewrite <- Hn, take_app_length in *. rewrite drop_app_length in Hpend.
  eexists. split; [done |]. unfold is_at, with_stream. cbn [stream_ role_]. by rewrite Hs.
Qed.

Lemma writeM_ok (d : bytes) (c : W) (r : Role) (p w : bytes) :
  is_at c r p w -> exists c', writeM d c = (Ok tt, c') /\ is_at c' r p (w ++ d).
Proof.
  intros (Hp & Hw & Hr). eexists. split; [done |]. unfold is_at, with_stream. cbn [stream_ role_].
  destruct (stream_write_ok d (stream_ c)) as [-> ->]. by rewrite Hw.
Qed.

Lemma newMaskKey_ok (c : W) (r : Role) (p w : bytes) :
  is_at c r p w ->
  exists key c', newMaskKey rand c = (Ok key, c') /\ length key = 4%nat /\ is_at c' r p w.
Proof.
  intros (Hp & Hw & Hr). unfold newMaskKey. destruct (rand (generator_ c)) as [v g].
  eexists _, _. split; [done |]. done.
Qed.

(** What an endpoint sends is one final frame its peer may receive. *)
Lemma sendFrame_ok (opcode : Z) (data : bytes) (c : W) (r : Role) (p w : bytes) :
  is_at c r p w -> 0 <= opcode < 16 ->
  exists key c', sendFrame rand opcode data c = (Ok tt, c')
    /\ is_at c' r p (w ++ wire (mkFrame true opcode key data))
    /\ (size data < 2 ^ 47 ->
        frame_ok (match r with Server => Client | Client => Server end) (mkFrame true opcode key data)).
Proof.
  intros Hat Hop. pose proof Hat as (_ & _ & Hr). unfold sendFrame. rewrite mbind_get, Hr.
  destruct r; [rewrite bool_decide_eq_false_2 by done | rewrite bool_decide_eq_true_2 by done].
  - destruct (writeM_ok ((z2b (Z.lor 128 opcode) :: lengthOctets 0 (size data)) ++ data) c _ p w Hat)
      as (c' & -> & Hc'). exists None, c'. split; [done |]. split; [done |]. done.
  - destruct (newMaskKey_ok c Client p w Hat) as (key & c1 & Hk & Hlen & Hat1).
    rewrite (mbind_ok _ _ _ _ _ Hk).
    destruct (writeM_ok ((z2b (Z.lor 128 opcode) :: lengthOctets 128 (size data)) ++ key
      ++ applyMask key 0 data) c1 _ p w Hat1) as (c' & -> & Hc').
    exists (Some key), c'. split; [done |]. split; [done |]. done.
Qed.

(** The first two octets of a frame. *)
Lemma first_octet (fin : bool) (op : Z) :
  0 <= op < 16 ->
  Z.land (b2z (z2b (Z.lor (if fin then 0x80 else 0) op))) 0x80 = (if fin then 0x80 else 0)
  /\ Z.land (b2z (z2b (Z.lor (if fin then 0x80 else 0) op))) 0x0f = op.
Proof.
  intros Hop.
  pose proof (zrange_forall 16 (fun op => forallb (fun f : bool =>
    (Z.land (b2z (z2b (Z.lor (if f then 0x80 else 0) op))) 0x80 =? (if f then 0x80 else 0))
    && (Z.land (b2z (z2b (Z.lor (if f then 0x80 else 0) op))) 0x0f =? op)) [true; false])
    eq_refl op Hop) as H.
  cbv beta in H. cbn [forallb] in H. apply andb_prop in H as [H1 H2]. apply andb_prop in H2 as [H2 _].
  apply andb_prop in H1 as [? ?]. apply andb_prop in H2 as [? ?]. to_prop. by destruct fin.
Qed.

Lemma second_octet (m : bool) (v : Z) :
  0 <= v < 128 ->
  Z.land (b2z (z2b (Z.lor (if m then 0x80 else 0) v))) 0x80 = (if m then 0x80 else 0)
  /\ Z.land (b2z (z2b (Z.lor (if m then 0x80 else 0) v))) 0x7f = v.
Proof.
  intros Hv.
  pose proof (zrange_forall 128 (fun v => forallb (fun f : bool =>
    (Z.land (b2z (z2b (Z.lor (if f then 0x80 else 0) v))) 0x80 =? (if f then 0x80 else 0))
    && (Z.land (b2z (z2b (Z.lor (if f then 0x80 else 0) v))) 0x7f =? v)) [true; false])
    eq_refl v Hv) as H.
  cbv beta in H. cbn [forallb] in H. apply andb_prop in H as [H1 H2]. apply andb_prop in H2 as [H2 _].
  apply andb_prop in H1 as [? ?]. apply andb_prop in H2 as [? ?]. to_prop. by destruct m.
Qed.

Lemma lengthOctets_ok (m : bool) (n : Z) :
  0 <= n < 2 ^ 64 ->
  exists b ext, lengthOctets (if m then 0x80 else 0) n = b :: ext
    /\ Z.land (b2z b) 0x80 = (if m then 0x80 else 0)
    /\ forall (c : W) r p w, is_at c r (ext ++ p) w ->
         exists c', readLength (Z.land (b2z b) 0x7f) c = (Ok n, c') /\ is_at c' r p w.
Proof.
  intros Hn. unfold lengthOctets.
  destruct (Z.ltb_spec n 126) as [Hs | Hs]; [| destruct (Z.ltb_spec n 65536) as [Hm | Hm]].
  - destruct (second_octet m n) as [H8 H7]; [lia |]. eexists _, _. split; [done |]. split; [done |].
    intros c r p w Hat. rewrite H7. unfold readLength.
    destruct (Z.eqb_spec n 126); [lia |]. destruct (Z.eqb_spec n 127); [lia |]. by exists c.
  - destruct (second_octet m 126) as [H8 H7]; [lia |]. eexists _, _. split; [done |]. split; [done |].
    intros c r p w Hat. rewrite H7. unfold readLength. cbn [Z.eqb Pos.eqb].
    destruct (readN_ok 2 c r _ p w Hat) as (c' & Hr & Hat'); [apply length_be_bytes |].
    exists c'. rewrite (mbind_ok _ _ _ _ _ Hr). unfold mret.
    by rewrite be_value_exact by (change (2 ^ (8 * Z.of_nat 2)) with 65536; lia).
  - destruct (second_octet m 127) as [H8 H7]; [lia |]. eexists _, _. split; [done |]. split; [done |].
    intros c r p w Hat. rewrite H7. unfold readLength. cbn [Z.eqb Pos.eqb].
    destruct (readN_ok 8 c r _ p w Hat) as (c' & Hr & Hat'); [apply length_be_bytes |].
    exists c'. rewrite (mbind_ok _ _ _ _ _ Hr). unfold mret.
    by rewrite be_value_exact by (change (8 * Z.of_nat 8) with 64; lia).
Qed.

Lemma readPayload_ok (msg data : bytes) (masked : bool) (key p w : bytes) (c : W) (r : Role) :
  is_at c r (data ++ p) w -> size msg + size data < 2 ^ 48 ->
  exists c', readPayload msg (size data) masked key c
      = (Ok (msg ++ if masked then applyMask key 0 data else data), c')
    /\ is_at c' r p w.
Proof.
  intros Hat Hsize. pose proof (size_nonneg msg). pose proof (size_nonneg data).
  unfold readPayload, resizePayload. unfold u64. rewrite Z.mod_small by lia.
  destruct (Z.leb_spec (2 ^ 48) (size msg + size data)); [lia |].
  rewrite (mbind_lift _ _ _ _ eq_refl).
  assert (Hroom : size (take (Z.to_nat (size msg + size data)) msg
    ++ replicate (Z.to_nat (size msg + size data) - length msg) x00) = size msg + size data).
  { unfold size in *. rewrite length_app, length_take, length_replicate. lia. }
  rewrite Hroom. destruct (Z.ltb_spec (size msg + size data) (size msg + size data)); [lia |].
  destruct (readN_ok (Z.to_nat (size data)) c r data p w Hat) as (c' & Hr & Hat'); [unfold size; lia |].
  exists c'. rewrite (mbind_ok _ _ _ _ _ Hr). unfold mret. split; [| done].
  rewrite (take_ge msg) by (unfold size in *; lia). by rewrite take_app_length.
Qed.

(** What a round does with a frame. *)
Definition afterFrame (fuel : nat) (msg : bytes) (finalOpcode : Z) (f : frame) : M W (option WsMessage) :=
  if f_opcode f =? kPing then
    let* _ := sendFrame rand kPong (f_payload f) in receiveLoop rand fuel msg finalOpcode
  else if f_opcode f =? kClose then mret None
  else
    let finalOpcode := if f_opcode f =? kContinuation then finalOpcode else f_opcode f in
    if f_fin f then
      mret (Some (mkMessage (if finalOpcode =? kBinary then Binary else Text) (msg ++ f_payload f)))
    else receiveLoop rand fuel (msg ++ f_payload f) finalOpcode.

Lemma receive_frame (fuel : nat) (msg p w : bytes) (finalOpcode : Z) (f : frame) (c : W) (r : Role) :
  frame_ok r f -> size msg + size (f_payload f) < 2 ^ 48 -> is_at c r (wire f ++ p) w ->
  exists c', is_at c' r p w
    /\ receiveLoop rand (Datatypes.S fuel) msg finalOpcode c = afterFrame fuel msg finalOpcode f c'.
Proof.
  intros (Hop & Hlen & Hkey) Hsize Hat. destruct f as [fin op key data].
  cbn [f_fin f_opcode f_key f_payload] in *.
  set (m := match key with Some _ => true | None => false end).
  pose proof (size_nonneg data) as Hd0.
  destruct (lengthOctets_ok m (size data)) as (b & ext & Hoct & Hb8 & Hread); [lia |].
  assert (Hw : wire (mkFrame fin op key data) ++ p
    = [z2b (Z.lor (if fin then 0x80 else 0) op); b] ++ ext
      ++ match key with Some k => k ++ applyMask k 0 data | None => data end ++ p).
  { unfold wire. cbn [f_fin f_opcode f_key f_payload].
    replace (match key with Some _ => 128 | None => 0 end) with (if m then 128 else 0) by (by destruct key).
    rewrite Hoct. cbn [app]. by rewrite <- !app_assoc. }
  rewrite Hw in Hat. cbn [receiveLoop].
  destruct (readN_ok 2 c r _ _ w Hat) as (c1 & H1 & Hat1); [done |]. rewrite (mbind_ok _ _ _ _ _ H1).
  rewrite (mbind_lift _ (z2b (Z.lor (if fin then 128 else 0) op))), (mbind_lift _ b) by done.
  destruct (first_octet fin op Hop) as [-> ->]. rewrite Hb8.
  destruct (Hread c1 r _ w Hat1) as (c2 & H2 & Hat2). rewrite (mbind_ok _ _ _ _ _ H2).
  rewrite mbind_get. pose proof Hat2 as (_ & _ & ->).
  replace (negb ((if m then 128 else 0) =? 0)) with m by (by destruct m).
  replace (negb ((if fin then 128 else 0) =? 0)) with fin by (by destruct fin).
  assert (Hmask : Bool.eqb m (bool_decide (r = Server)) = true).
  { unfold m. by destruct key as [k |]; [destruct Hkey as [_ ->] | subst r]. }
  rewrite Hmask. cbn [negb].
  assert (Hk : exists k c3, (if m then readN 4 else mret [x00; x00; x00; x00]) c2 = (Ok k, c3)
    /\ exists coded, is_at c3 r (coded ++ p) w /\ size coded = size data
    /\ (if m then applyMask k 0 coded else coded) = data).
  { destruct key as [k |]; cbn [m].
    - rewrite <- app_assoc in Hat2. destruct (readN_ok 4 c2 r k _ w Hat2) as (c3 & H3 & Hat3); [apply Hkey |].
      exists k, c3. split; [done |]. exists (applyMask k 0 data). split; [done |].
      unfold size. by rewrite length_applyMask, applyMask_involutive.
    - eexists _, c2. split; [done |]. by exists data. }
  destruct Hk as (k & c3 & H3 & coded & Hat3 & Hsz & Hunmask). rewrite (mbind_ok _ _ _ _ _ H3).
  rewrite <- Hsz.
  destruct (readPayload_ok msg coded m k p w c3 r Hat3) as (c4 & H4 & Hat4); [lia |].
  rewrite (mbind_ok _ _ _ _ _ H4), Hunmask. exists c4. split; [done |].
  unfold afterFrame. cbn [f_fin f_opcode f_payload]. by rewrite take_app_length, drop_app_length.
Qed.

(** A frame that is masked the wrong way. *)
Lemma wrong_mask (fuel : nat) (msg p w : bytes) (finalOpcode : Z) (f : frame) (c : W) (r : Role) :
  0 <= f_opcode f < 16 -> size (f_payload f) < 2 ^ 64 ->
  match f_key f with Some _ => r = Client | None => r = Server end ->
  is_at c r (wire f ++ p) w ->
  exists c' key, receiveLoop rand (Datatypes.S fuel) msg finalOpcode c
      = (Throw (RuntimeError "WsConnection: masking violation"), c')
    /\ shutdown_ c' = true
    /\ sent (stream_ c') = w ++ wire (mkFrame true kClose key [x03; xea]).
Proof.
  intros Hop Hlen Hkey Hat. destruct f as [fin op key data]. cbn [f_fin f_opcode f_key f_payload] in *.
  set (m := match key with Some _ => true | None => false end).
  pose proof (size_nonneg data) as Hd0.
  destruct (lengthOctets_ok m (size data)) as (b & ext & Hoct & Hb8 & Hread); [lia |].
  set (rest := match key with Some k => k ++ applyMask k 0 data | None => data end ++ p).
  assert (Hw : wire (mkFrame fin op key data) ++ p
    = [z2b (Z.lor (if fin then 0x80 else 0) op); b] ++ ext ++ rest).
  { unfold wire. cbn [f_fin f_opcode f_key f_payload].
    replace (match key with Some _ => 128 | None => 0 end) with (if m then 128 else 0) by (by destruct key).
    rewrite Hoct. cbn [app]. unfold rest. by rewrite <- !app_assoc. }
  rewrite Hw in Hat. cbn [receiveLoop].
  destruct (readN_ok 2 c r _ _ w Hat) as (c1 & H1 & Hat1); [done |]. rewrite (mbind_ok _ _ _ _ _ H1).
  rewrite (mbind_lift _ (z2b (Z.lor (if fin then 128 else 0) op))), (mbind_lift _ b) by done.
  rewrite Hb8. destruct (Hread c1 r _ w Hat1) as (c2 & H2 & Hat2). rewrite (mbind_ok _ _ _ _ _ H2).
  rewrite mbind_get. pose proof Hat2 as (_ & _ & ->).
  replace (negb ((if m then 128 else 0) =? 0)) with m by (by destruct m).
  assert (Hmask : Bool.eqb m (bool_decide (r = Server)) = false).
  { unfold m. destruct key as [k |]; by subst r. }
  rewrite Hmask. cbn [negb].
  destruct (sendFrame_ok kClose [x03; xea] c2 r rest w Hat2) as (k & c3 & Hs & (_ & Hsent & _) & _); [done |].
  rewrite (mbind_ok _ _ _ _ _ Hs). eexists _, k. split; [reflexivity |]. done.
Qed.

(** ** Messages as sequences of frames *)

Definition isData (f : frame) : bool := negb (f_opcode f =? kPing) && negb (f_opcode f =? kClose).

(** The part of a message before its last frame: fragments that are not final,
    with pings between them. *)
Definition interleaved (r : Role) (fs : list frame) : Prop :=
  Forall (fun f => frame_ok r f /\ (f_opcode f = kPing \/ (isData f = true /\ f_fin f = false))) fs.

Definition dataOf (fs : list frame) : bytes := concat (map f_payload (List.filter isData fs)).
Definition pingsOf (fs : list frame) : list bytes :=
  map f_payload (List.filter (fun f => f_opcode f =? kPing) fs).
(** The opcode of the last frame that starts a message. *)
Definition opcodeOf (op : Z) (fs : list frame) : Z :=
  foldl (fun op f => if isData f && negb (f_opcode f =? kContinuation) then f_opcode f else op) op fs.

Definition wires (fs : list frame) : bytes := concat (map wire fs).

(** [o] is the answer to a ping with payload [d]. *)
Definition pong (r : Role) (d o : bytes) : Prop :=
  exists key, o = wire (mkFrame true kPong key d)
    /\ frame_ok (match r with Server => Client | Client => Server end) (mkFrame true kPong key d).

Lemma receive_interleaved (fs : list frame) (fuel : nat) (msg p w : bytes) (op : Z) (c : W) (r : Role) :
  interleaved r fs -> size msg + size (concat (map f_payload fs)) < 2 ^ 47 ->
  is_at c r (wires fs ++ p) w ->
  exists c' outs, is_at c' r p (w ++ concat outs) /\ Forall2 (pong r) (pingsOf fs) outs
    /\ receiveLoop rand (length fs + fuel) msg op c
       = receiveLoop rand fuel (msg ++ dataOf fs) (opcodeOf op fs) c'.
Proof.
  intros Hfs. revert msg w op c. induction Hfs as [| f fs [Hf Hkind] Hfs IH]; intros msg w op c Hsize Hat.
  - exists c, []. cbn. rewrite !app_nil_r. done.
  - cbn [map concat] in Hsize. rewrite size_app in Hsize.
    pose proof (size_nonneg (concat (map f_payload fs))). pose proof (size_nonneg (f_payload f)).
    pose proof (size_nonneg msg). unfold wires in Hat. cbn [map concat] in Hat. rewrite <- app_assoc in Hat.
    destruct (receive_frame (length fs + fuel) msg (wires fs ++ p) w op f c r Hf) as (c1 & Hat1 & Hloop); [lia | done |].
    cbn [length Nat.add]. rewrite Hloop. unfold afterFrame, dataOf, opcodeOf, pingsOf, isData.
    cbn [List.filter foldl].
    destruct Hkind as [Hping | [Hdata Hnofin]].
    + rewrite Hping. cbn [Z.eqb Pos.eqb kPing kClose negb andb map concat].
      destruct (sendFrame_ok kPong (f_payload f) c1 r (wires fs ++ p) w Hat1) as (key & c2 & Hs & Hat2 & Hok); [done |].
      rewrite (mbind_ok _ _ _ _ _ Hs).
      destruct (IH msg (w ++ wire (mkFrame true kPong key (f_payload f))) op c2) as (c3 & outs & Hat3 & Hp & Hl);
        [lia | done |].
      exists c3, (wire (mkFrame true kPong key (f_payload f)) :: outs). cbn [concat].
      rewrite app_assoc. split; [done |]. split; [| done].
      constructor; [| done]. exists key. split; [done |]. apply Hok. lia.
    + unfold isData in Hdata. pose proof Hdata as Hd. apply andb_prop in Hd as [Hnp Hnc].
      apply negb_true_iff in Hnp, Hnc. rewrite Hnp, Hnc, Hnofin. cbn [negb andb map concat].
      destruct (IH (msg ++ f_payload f) w (if f_opcode f =? kContinuation then op else f_opcode f) c1)
        as (c3 & outs & Hat3 & Hp & Hl); [rewrite size_app; lia | done |].
      exists c3, outs. split; [done |]. split; [done |]. rewrite Hl, <- app_assoc.
      by destruct (f_opcode f =? kContinuation).
Qed.

Lemma receive_fuel (fs : list frame) (f : frame) (c : W) (r : Role) (p w : bytes) :
  is_at c r (wires (fs ++ [f]) ++ p) w ->
  exists k, Datatypes.S (length (pending (stream_ c))) = (length fs + Datatypes.S k)%nat.
Proof.
  intros (-> & _). exists (length (wires (fs ++ [f]) ++ p) - length fs)%nat.
  assert (H : (length fs <= length (wires (fs ++ [f])))%nat).
  { unfold wires. rewrite map_app, concat_app, length_app. clear.
    induction fs as [| g fs IH]; [simpl; lia |]. cbn [map concat].
    rewrite length_app. unfold wire at 1. cbn [length]. simpl in *. lia. }
  rewrite length_app. lia.
Qed.
End lemmas.

(** ** Properties *)

(** C32: messages are reassembled.  Whatever fragments a peer cuts a message
    into, with pings between them, masked as it must, arriving in whatever
    segments and followed by anything: [receive] returns the concatenated
    payloads under the type its opcode announces, answers each ping with a
    pong of the same payload in order, and leaves what follows unread. *)
Theorem ws_receive_message {S G : Type} `{!ByteStream S} (rand : G -> Z * G) (fs : list frame)
    (f : frame) (c : WsConnection S G) (r : Role) (p w : bytes) :
  interleaved r fs -> frame_ok r f -> isData f = true -> f_fin f = true ->
  size (concat (map f_payload (fs ++ [f]))) < 2 ^ 47 ->
  is_at c r (wires (fs ++ [f]) ++ p) w ->
  exists c' outs,
    receive rand c
      = (Ok (Some (mkMessage (if opcodeOf kContinuation (fs ++ [f]) =? kBinary then Binary else Text)
                     (dataOf (fs ++ [f])))), c')
    /\ is_at c' r p (w ++ concat outs) /\ Forall2 (pong r) (pingsOf fs) outs.
Proof.
  intros Hfs Hf Hdata Hfin Hsize Hat. unfold receive.
  destruct (receive_fuel fs f c r p w Hat) as (k & ->).
  rewrite map_app, concat_app, size_app in Hsize. cbn [map concat] in Hsize. rewrite app_nil_r in Hsize.
  pose proof (size_nonneg (f_payload f)).
  unfold wires in Hat. rewrite map_app, concat_app, <- app_assoc in Hat. cbn [map concat] in Hat.
  rewrite app_nil_r in Hat.
  destruct (receive_interleaved rand fs (Datatypes.S k) [] (wire f ++ p) w kContinuation c r Hfs)
    as (c1 & outs & Hat1 & Hp & ->); [rewrite size_nil; lia | done |].
  assert (Hd : size (dataOf fs) <= size (concat (map f_payload fs))).
  { unfold dataOf. clear. induction fs as [| g fs IH]; [simpl; lia |]. cbn [List.filter map concat].
    destruct (isData g); cbn [map concat]; rewrite !size_app; pose proof (size_nonneg (f_payload g)); lia. }
  destruct (receive_frame rand k ([] ++ dataOf fs) p (w ++ concat outs) (opcodeOf kContinuation fs) f c1 r Hf)
    as (c2 & Hat2 & ->); [cbn [app]; lia | done |].
  exists c2, outs. split; [| done]. unfold afterFrame.
  pose proof Hdata as Hd2. unfold isData in Hd2. apply andb_prop in Hd2 as [Hnp Hnc].
  apply negb_true_iff in Hnp, Hnc. rewrite Hnp, Hnc, Hfin. unfold mret, dataOf, opcodeOf.
  rewrite List.filter_app, map_app, concat_app, foldl_app. cbn [List.filter foldl]. rewrite Hdata.
  cbn [map concat andb app]. rewrite app_nil_r. by destruct (f_opcode f =? kContinuation).
Qed.

(** A server gets a binary message in two masked fragments with a ping between
    them, cut inside the second frame. *)
Definition sample_fragments : list frame :=
  [mkFrame false kBinary (Some [x01; x02; x03; x04]) (str "hel");
   mkFrame true kPing (Some [x00; x00; x00; x00]) (str "?")].
Definition sample_last : frame := mkFrame true kContinuation (Some [xff; x00; xff; x00]) (str "lo").

Definition sample_server : WsConnection script unit :=
  let d := wires (sample_fragments ++ [sample_last]) in
  mkWs (Script [take 11 d; drop 11 d ++ str "more"] []) Server tt false.

Lemma ws_receive_message_witness :
  exists c' outs,
    receive (fun g => (0, g)) sample_server
      = (Ok (Some (mkMessage (if opcodeOf kContinuation (sample_fragments ++ [sample_last]) =? kBinary
                              then Binary else Text)
                     (dataOf (sample_fragments ++ [sample_last])))), c')
    /\ is_at c' Server (str "more") ([] ++ concat outs)
    /\ Forall2 (pong Server) (pingsOf sample_fragments) outs.
Proof.
  apply (ws_receive_message (fun g : unit => (0, g)) sample_fragments sample_last sample_server Server (str "more") []).
  - constructor; [split; [by repeat split | by right] |].
    constructor; [split; [by repeat split | by left] | constructor].
  - by repeat constructor.
  - done.
  - done.
  - done.
  - by repeat constructor.
Defined.

(** What one endpoint sends, the other receives.  Whatever the data, the
    type and the roles, whatever mask is drawn and however the octets are cut
    on the way: [receive] returns exactly the message [send] was given, sends
    nothing, and leaves what follows unread. *)
Theorem ws_send_receive {S1 S2 G1 G2 : Type} `{!ByteStream S1, !ByteStream S2}
    (rand1 : G1 -> Z * G1) (rand2 : G2 -> Z * G2) (data rest : bytes) (t : WsMessageType)
    (a : WsConnection S1 G1) (b : WsConnection S2 G2) :
  size data < 2 ^ 47 -> sent (stream_ a) = [] -> role_ a <> role_ b ->
  pending (stream_ b) = sent (stream_ (snd (send rand1 data t a))) ++ rest ->
  exists b', fst (send rand1 data t a) = Ok tt
    /\ receive rand2 b = (Ok (Some (mkMessage t data)), b')
    /\ is_at b' (role_ b) rest (sent (stream_ b)).
Proof.
  intros Hsize Ha Hroles Hpend. unfold send in *.
  set (op := match t with Text => kText | Binary => kBinary end) in *.
  assert (Hop : 0 <= op < 16) by (subst op; destruct t; split; done).
  destruct (sendFrame_ok rand1 op data a (role_ a) (pending (stream_ a)) []) as (key & a' & Hs & Hat & Hok);
    [by repeat split | done |].
  rewrite Hs in Hpend |- *. cbn [fst snd] in *. destruct Hat as (_ & Hsent & _).
  rewrite Hsent in Hpend. cbn [app] in Hpend. specialize (Hok Hsize).
  assert (Hr : frame_ok (role_ b) (mkFrame true op key data)).
  { destruct (role_ a), (role_ b); done. }
  unfold receive.
  destruct (receive_frame rand2 (length (pending (stream_ b))) [] rest (sent (stream_ b)) kContinuation
    (mkFrame true op key data) b (role_ b) Hr) as (b' & Hat' & ->); [cbn [f_payload]; rewrite size_nil; lia | by repeat split |].
  exists b'. split; [done |]. split; [| done]. unfold afterFrame. subst op. by destruct t.
Qed.

Lemma ws_send_receive_witness :
  let a := mkWs (Script [] []) Client tt false in
  let d := sent (stream_ (snd (send (fun g => (12345678, g)) (str "hi") Text a))) in
  let b := mkWs (Script [take 3 d; drop 3 d ++ str "next"] []) Server tt false in
  exists b', fst (send (fun g => (12345678, g)) (str "hi") Text a) = Ok tt
    /\ receive (fun g => (0, g)) b = (Ok (Some (mkMessage Text (str "hi"))), b')
    /\ is_at b' (role_ b) (str "next") (sent (stream_ b)).
Proof.
  intros a d b.
  apply (ws_send_receive (fun g => (12345678, g)) (fun g : unit => (0, g)) (str "hi") (str "next") Text a b);
    done.
Defined.

(** A frame masked the wrong way ends the connection.  After any part of a
    message, a server that gets an unmasked frame and a client that gets a
    masked one send a close frame with status 1002, shut the stream down and
    throw; no payload is delivered. *)
Theorem ws_masking_violation {S G : Type} `{!ByteStream S} (rand : G -> Z * G) (fs : list frame)
    (f : frame) (c : WsConnection S G) (r : Role) (p w : bytes) :
  interleaved r fs -> size (concat (map f_payload fs)) < 2 ^ 47 ->
  0 <= f_opcode f < 16 -> size (f_payload f) < 2 ^ 64 ->
  match f_key f with Some _ => r = Client | None => r = Server end ->
  is_at c r (wires (fs ++ [f]) ++ p) w ->
  exists c' outs key, receive rand c = (Throw (RuntimeError "WsConnection: masking violation"), c')
    /\ shutdown_ c' = true
    /\ sent (stream_ c') = w ++ concat outs ++ wire (mkFrame true kClose key [x03; xea])
    /\ Forall2 (pong r) (pingsOf fs) outs.
Proof.
  intros Hfs Hsize Hop Hlen Hmask Hat. unfold receive.
  destruct (receive_fuel fs f c r p w Hat) as (k & ->).
  unfold wires in Hat. rewrite map_app, concat_app, <- app_assoc in Hat. cbn [map concat] in Hat.
  rewrite app_nil_r in Hat.
  destruct (receive_interleaved rand fs (Datatypes.S k) [] (wire f ++ p) w kContinuation c r Hfs)
    as (c1 & outs & Hat1 & Hp & ->); [done | done |].
  destruct (wrong_mask rand k ([] ++ dataOf fs) p (w ++ concat outs) (opcodeOf kContinuation fs) f c1 r)
    as (c2 & key & -> & ? & ?); try done.
  exists c2, outs, key. by rewrite <- app_assoc in *.
Qed.

Lemma ws_masking_violation_witness :
  let c := mkWs (Script [wires (sample_fragments ++ [mkFrame true kText None (str "x")])] []) Server tt false in
  exists c' outs key,
    receive (fun g => (0, g)) c = (Throw (RuntimeError "WsConnection: masking violation"), c')
    /\ shutdown_ c' = true
    /\ sent (stream_ c') = [] ++ concat outs ++ wire (mkFrame true kClose key [x03; xea])
    /\ Forall2 (pong Server) (pingsOf sample_fragments) outs.
Proof.
  intros c.
  apply (ws_masking_violation (fun g : unit => (0, g)) sample_fragments (mkFrame true kText None (str "x"))
    c Server [] []); try done.
  - constructor; [split; [by repeat split | by right] |].
    constructor; [split; [by repeat split | by left] | constructor].
Defined.

(** A length that wraps around.  A client sends a first fragment of one
    octet and a second that announces 2^64 - 1: the string is resized to zero
    octets and the stream is told to store what arrives behind its end. *)
Theorem ws_length_wraps :
  let c := mkWs (Script [wire (mkFrame false kText (Some [x00; x00; x00; x00]) (str "a"));
                         [x80; xff; xff; xff; xff; xff; xff; xff; xff; xff; x00; x00; x00; x00]; str "xyz"] [])
             Server tt false in
  fst (receive (fun g : unit => (0, g)) c) = Undefined.
Proof. vm_compute. reflexivity. Qed.
