(* ===== verification/Http2Frame.v ===== *)
(** HTTP/2 frames (RFC 7540, sections 4 and 6): the definitions of
    src/extensions/http2/src/frame/Frame.h, and [readFrame] and [writeFrame] of
    src/extensions/http2/src/frame/FrameReader.cc. *)

From Stdlib Require Import ZArith Lia String Strings.Byte.
From stdpp Require Import base numbers option list.
From S2P Require Import Prelude CxxStd Endian ByteStream.
Open Scope Z_scope.

(** ** [FrameType], [FrameFlags], [ErrorCode] *)

Module FrameType.
Definition Data : Z := 0x0.
Definition Headers : Z := 0x1.
Definition Priority : Z := 0x2.
Definition RstStream : Z := 0x3.
Definition Settings : Z := 0x4.
Definition PushPromise : Z := 0x5.
Definition Ping : Z := 0x6.
Definition GoAway : Z := 0x7.
Definition WindowUpdate : Z := 0x8.
Definition Continuation : Z := 0x9.
End FrameType.

Module FrameFlags.
Definition EndStream : Z := 0x1.
Definition EndHeaders : Z := 0x4.
Definition Padded : Z := 0x8.
Definition Priority : Z := 0x20.
Definition Ack : Z := 0x1.
End FrameFlags.

Module ErrorCode.
Definition ProtocolError : Z := 0x1.
Definition InternalError : Z := 0x2.
Definition FlowControlError : Z := 0x3.
Definition StreamClosed : Z := 0x5.
Definition FrameSizeError : Z := 0x6.
Definition CompressionError : Z := 0x9.
End ErrorCode.

Definition kClientPreface : bytes :=
  str "PRI * HTTP/2.0" ++ [x0d; x0a; x0d; x0a] ++ str "SM" ++ [x0d; x0a; x0d; x0a].

(** [FrameHeader] and the payload. *)
Record Frame : Type := mkFrame {
  f_length : Z;
  f_type : Z;
  f_flags : Z;
  f_streamId : Z;
  f_payload : bytes
}.

(** [header.flags & flag] *)
Definition has (flag : Z) (flags : Z) : bool := negb (Z.land flags flag =? 0).

(** ** Reading and writing *)

Section reader.
Context {S : Type} `{!ByteStream S}.

(** [hdr\[i\]] of the nine octets. *)
Definition octet (hdr : bytes) (i : Z) : outcome Z := let! b := at_ hdr i in Ok (b2z b).

Definition readFrame (maxFrameSize : Z) : M S (option Frame) :=
  let* hdr := readExact 9 in
  match hdr with
  | None => mret None
  | Some hdr =>
      let* h0 := mlift (octet hdr 0) in
      let* h1 := mlift (octet hdr 1) in
      let* h2 := mlift (octet hdr 2) in
      let length := Z.lor (Z.lor (Z.shiftl h0 16) (Z.shiftl h1 8)) h2 in
      let* type := mlift (octet hdr 3) in
      let* flags := mlift (octet hdr 4) in
      let* h5 := mlift (octet hdr 5) in
      let* h6 := mlift (octet hdr 6) in
      let* h7 := mlift (octet hdr 7) in
      let* h8 := mlift (octet hdr 8) in
      let streamId := Z.lor (Z.lor (Z.lor (Z.shiftl (Z.land h5 0x7f) 24) (Z.shiftl h6 16))
                               (Z.shiftl h7 8)) h8 in
      if maxFrameSize <? length then mret (Some (mkFrame length type flags streamId []))
      else if 0 <? length then
        let* payload := readExact (Z.to_nat length) in
        match payload with
        | None => mret None
        | Some payload => mret (Some (mkFrame length type flags streamId payload))
        end
      else mret (Some (mkFrame length type flags streamId []))
  end.

Definition streamWriteM (d : bytes) : M S unit := fun s => (Ok tt, stream_write d s).

Definition writeFrame (type flags streamId : Z) (payload : bytes) : M S unit :=
  let payloadLen := size payload in
  let hdr := [z2b (Z.land (Z.shiftr payloadLen 16) 0xff); z2b (Z.land (Z.shiftr payloadLen 8) 0xff);
              z2b (Z.land payloadLen 0xff); z2b type; z2b flags;
              z2b (Z.land (Z.shiftr streamId 24) 0x7f); z2b (Z.land (Z.shiftr streamId 16) 0xff);
              z2b (Z.land (Z.shiftr streamId 8) 0xff); z2b (Z.land streamId 0xff)] in
  let* _ := streamWriteM hdr in
  if 0 <? payloadLen then streamWriteM payload else mret tt.

(** The octets a frame has on the wire. *)
Definition frameOctets (type flags streamId : Z) (payload : bytes) : bytes :=
  be_bytes 3 (size payload) ++ [z2b type; z2b flags] ++ be_bytes 4 (streamId mod 2 ^ 31) ++ payload.

Lemma low_octet (x : Z) : z2b (Z.land x 0xff) = z2b x.
Proof.
  apply b2z_inj. rewrite !b2z_z2b, (land_mask_mod x 0xff 8) by lia. by rewrite Z.mod_mod by lia.
Qed.

Lemma z2b_mod (x : Z) : z2b (x mod 256) = z2b x.
Proof. apply b2z_inj. rewrite !b2z_z2b. by rewrite Z.mod_mod by lia. Qed.

Lemma low_31 (x k : Z) : 0 <= k -> k + 8 <= 31 -> z2b (Z.shiftr (x mod 2 ^ 31) k) = z2b (Z.shiftr x k).
Proof.
  intros Hk Hk8. rewrite <- (low_octet (Z.shiftr (x mod 2 ^ 31) k)), <- (low_octet (Z.shiftr x k)).
  f_equal. apply Z.bits_inj'. intros n Hn. rewrite !Z.land_spec, !Z.shiftr_spec by done.
  destruct (Z.lt_ge_cases n 8).
  - by rewrite Z.mod_pow2_bits_low by lia.
  - change 255 with (Z.ones 8). by rewrite Z.ones_spec_high, !andb_false_r by lia.
Qed.

Lemma top_7 (x : Z) : z2b (Z.shiftr (x mod 2 ^ 31) 24) = z2b (Z.land (Z.shiftr x 24) 0x7f).
Proof.
  f_equal. rewrite (land_mask_mod _ 0x7f 7), !Z.shiftr_div_pow2 by lia.
  change (2 ^ 31) with (2 ^ 24 * 2 ^ 7). rewrite Z.rem_mul_r by lia.
  rewrite (Z.mul_comm (2 ^ 24)), Z.div_add by lia.
  rewrite (Z.div_small (x mod 2 ^ 24)); [lia |]. apply Z.mod_pos_bound. lia.
Qed.

Lemma writeFrame_ok (type flags streamId : Z) (payload : bytes) (s : S) :
  exists s', writeFrame type flags streamId payload s = (Ok tt, s')
    /\ sent s' = sent s ++ frameOctets type flags streamId payload /\ pending s' = pending s.
Proof.
  unfold writeFrame, frameOctets. cbn [be_bytes Z.of_nat Pos.of_succ_nat Pos.succ].
  change (8 * 0) with 0. change (8 * 1) with 8. change (8 * 2) with 16. change (8 * 3) with 24.
  rewrite !low_octet, top_7, !low_31, !Z.shiftr_0_r by lia.
  unfold mbind, streamWriteM.
  set (hdr := [z2b (Z.shiftr (size payload) 16); _; _; _; _; _; _; _; _]).
  destruct (stream_write_ok hdr s) as [Hs Hp].
  destruct (Z.ltb_spec 0 (size payload)) as [Hpos | Hnil].
  - destruct (stream_write_ok payload (stream_write hdr s)) as [Hs2 Hp2].
    eexists. split; [done |]. rewrite Hs2, Hs, Hp2, Hp, <- app_assoc. done.
  - pose proof (size_nonneg payload). assert (payload = []) as -> by (apply size_zero_nil; lia).
    eexists. split; [done |]. by rewrite Hs, Hp.
Qed.

(** The shifts of the header are the octets read in order. *)
Lemma octets_3 (b0 b1 b2 : byte) :
  Z.lor (Z.lor (Z.shiftl (b2z b0) 16) (Z.shiftl (b2z b1) 8)) (b2z b2) = be_value 0 [b0; b1; b2].
Proof.
  unfold be_value. cbn [foldl]. rewrite !be_value_step.
  pose proof (b2z_range b0). pose proof (b2z_range b1). pose proof (b2z_range b2).
  rewrite (Z.shiftl_mul_pow2 (b2z b1)), lor_shiftl_add by lia.
  replace (b2z b0 * 2 ^ 16 + b2z b1 * 2 ^ 8) with (Z.shiftl (b2z b0 * 256 + b2z b1) 8)
    by (rewrite Z.shiftl_mul_pow2; lia).
  rewrite lor_shiftl_add by lia. lia.
Qed.

Lemma octets_4 (x : Z) (b1 b2 b3 : byte) :
  0 <= x ->
  Z.lor (Z.lor (Z.lor (Z.shiftl x 24) (Z.shiftl (b2z b1) 16)) (Z.shiftl (b2z b2) 8)) (b2z b3)
  = be_value x [b1; b2; b3].
Proof.
  intros Hx. unfold be_value. cbn [foldl]. rewrite !be_value_step.
  pose proof (b2z_range b1). pose proof (b2z_range b2). pose proof (b2z_range b3).
  rewrite (Z.shiftl_mul_pow2 (b2z b1)), lor_shiftl_add by lia.
  replace (x * 2 ^ 24 + b2z b1 * 2 ^ 16) with (Z.shiftl (x * 256 + b2z b1) 16)
    by (rewrite Z.shiftl_mul_pow2; lia).
  rewrite (Z.shiftl_mul_pow2 (b2z b2)), lor_shiftl_add by lia.
  replace ((x * 256 + b2z b1) * 2 ^ 16 + b2z b2 * 2 ^ 8) with (Z.shiftl ((x * 256 + b2z b1) * 256 + b2z b2) 8)
    by (rewrite Z.shiftl_mul_pow2; lia).
  rewrite lor_shiftl_add by lia. lia.
Qed.

Lemma readExact_here (d rest : bytes) (s : S) :
  pending s = d ++ rest ->
  exists s', readExact (length d) s = (Ok (Some d), s') /\ pending s' = rest /\ sent s' = sent s.
Proof.
  intros Hp. destruct (readExact_spec (length d) s) as (s' & Hs & H).
  rewrite Hp, length_app in H. destruct (Nat.ltb_spec (length d + length rest) (length d)); [lia |].
  destruct H as [H Hp']. rewrite take_app_length in H. rewrite drop_app_length in Hp'. eauto.
Qed.

Lemma readFrame_ok (maxFrameSize type flags streamId : Z) (payload rest : bytes) (s : S) :
  0 <= type < 256 -> 0 <= flags < 256 -> 0 <= streamId < 2 ^ 31 -> size payload < 2 ^ 24 ->
  pending s = frameOctets type flags streamId payload ++ rest ->
  exists s', sent s' = sent s /\
    if maxFrameSize <? size payload
    then readFrame maxFrameSize s = (Ok (Some (mkFrame (size payload) type flags streamId [])), s')
         /\ pending s' = payload ++ rest
    else readFrame maxFrameSize s = (Ok (Some (mkFrame (size payload) type flags streamId payload)), s')
         /\ pending s' = rest.
Proof.
  intros Ht Hf Hid Hsize Hp. pose proof (size_nonneg payload) as Hnn.
  unfold frameOctets in Hp. rewrite Z.mod_small in Hp by done.
  set (hdr := be_bytes 3 (size payload) ++ [z2b type; z2b flags] ++ be_bytes 4 streamId).
  assert (Hp' : pending s = hdr ++ payload ++ rest) by (unfold hdr; rewrite Hp; by rewrite <- !app_assoc).
  destruct (readExact_here hdr (payload ++ rest) s Hp') as (s1 & H1 & Hp1 & Hs1).
  unfold readFrame. rewrite (mbind_ok _ _ _ _ _ H1).
  assert (Hlen : be_value 0 (be_bytes 3 (size payload)) = size payload)
    by (apply be_value_exact; change (2 ^ (8 * Z.of_nat 3)) with (2 ^ 24); lia).
  assert (Hsid : be_value 0 (be_bytes 4 streamId) = streamId)
    by (apply be_value_exact; change (2 ^ (8 * Z.of_nat 4)) with (2 ^ 32); lia).
  unfold hdr. cbn [be_bytes app] in *.
  repeat (erewrite mbind_lift by reflexivity).
  rewrite octets_3, Hlen, octets_4
    by (rewrite (land_mask_mod _ 0x7f 7) by lia; apply Z.mod_pos_bound; lia).
  rewrite !b2z_z2b_small by done.
  assert (Hid' : be_value (Z.land (b2z (z2b (Z.shiftr streamId (8 * Z.of_nat 3)))) 127)
      [z2b (Z.shiftr streamId (8 * Z.of_nat 2)); z2b (Z.shiftr streamId (8 * Z.of_nat 1));
       z2b (Z.shiftr streamId (8 * Z.of_nat 0))] = streamId).
  { rewrite <- Hsid at 5. unfold be_value. cbn [foldl]. do 3 f_equal. rewrite Z.shiftl_0_l, Z.lor_0_l.
    change (8 * Z.of_nat 3) with 24.
    assert (0 <= Z.shiftr streamId 24 < 2 ^ 7).
    { rewrite Z.shiftr_div_pow2 by lia. split; [apply Z.div_pos; lia | apply Z.div_lt_upper_bound; lia]. }
    rewrite (land_mask_mod _ 127 7), b2z_z2b by lia. rewrite (Z.mod_small _ 256), Z.mod_small by lia. done. }
  rewrite Hid'.
  destruct (Z.ltb_spec maxFrameSize (size payload)).
  - exists s1. done.
  - destruct (Z.ltb_spec 0 (size payload)) as [Hpos | Hz].
    + destruct (readExact_here payload rest s1 Hp1) as (s2 & H2 & Hp2 & Hs2).
      exists s2. split; [congruence |]. split; [| done].
      replace (Z.to_nat (size payload)) with (length payload) by (unfold size; lia).
      by rewrite (mbind_ok _ _ _ _ _ H2).
    + assert (payload = []) as -> by (apply size_zero_nil; lia). exists s1. done.
Qed.
End reader.

(** ** Properties *)

(** Frames survive the wire.  A frame written by [writeFrame] and read by
    [readFrame], in whatever segments it arrives, is the same frame when its
    payload is within the reader's limit, and leaves what follows unread; over
    the limit the header is reported with its length and nothing of the
    payload is taken. *)
Theorem h2_frame_roundtrip {W R : Type} `{!ByteStream W, !ByteStream R}
    (maxFrameSize type flags streamId : Z) (payload rest : bytes) (w : W) (s : R) :
  0 <= type < 256 -> 0 <= flags < 256 -> 0 <= streamId < 2 ^ 31 -> size payload < 2 ^ 24 ->
  sent w = [] -> pending s = sent (snd (writeFrame type flags streamId payload w)) ++ rest ->
  exists s', sent s' = sent s /\
    if maxFrameSize <? size payload
    then readFrame maxFrameSize s = (Ok (Some (mkFrame (size payload) type flags streamId [])), s')
         /\ pending s' = payload ++ rest
    else readFrame maxFrameSize s = (Ok (Some (mkFrame (size payload) type flags streamId payload)), s')
         /\ pending s' = rest.
Proof.
  intros Ht Hf Hid Hsize Hw Hp.
  destruct (writeFrame_ok type flags streamId payload w) as (w' & H & Hsent & _).
  rewrite H in Hp. cbn [snd] in Hp. rewrite Hsent, Hw in Hp. by apply readFrame_ok.
Qed.

Lemma h2_frame_roundtrip_witness :
  let w := snd (writeFrame FrameType.Headers 5 7 (str "block") (Script [] [])) in
  let s := Script [take 4 (sent w); drop 4 (sent w) ++ str "rest"] [] in
  exists s', sent s' = sent s /\
    if 16384 <? size (str "block")
    then readFrame 16384 s = (Ok (Some (mkFrame (size (str "block")) FrameType.Headers 5 7 [])), s')
         /\ pending s' = str "block" ++ str "rest"
    else readFrame 16384 s = (Ok (Some (mkFrame (size (str "block")) FrameType.Headers 5 7 (str "block"))), s')
         /\ pending s' = str "rest".
Proof.
  intros w s.
  apply (h2_frame_roundtrip 16384 FrameType.Headers 5 7 (str "block") (str "rest") (Script [] []) s); done.
Defined.
