(* ===== verification/Http2Request.v ===== *)
(** Requests as HTTP/2 header blocks: the block [Http2ClientSession::sendHeaders]
    writes (src/extensions/http2/src/Http2ClientSession.cc) and the request
    [Http2Session::buildRequest] makes of it
    (src/extensions/http2/src/Http2Session.cc). *)

From Stdlib Require Import ZArith Lia String Strings.Byte Sorting.Sorted.
From stdpp Require Import base numbers option list gmap sorting.
From S2P Require Import Prelude CxxStd UrlEncode Split OrdMap HttpTypes CookieCodec HttpParser Http1Sink.
From S2P Require Import ByteStream StringBuffer Conn Http1RoundTrip HpackTable Hpack.
Open Scope Z_scope.

(** ** The client *)

(** A literal field without indexing. *)
Definition encodeLiteral (name value block : bytes) : outcome bytes :=
  let block := encodeInt block 0 4 0x00 in
  let! block := encodeStr block name in
  encodeStr block value.

Definition connectionHeader (h : HttpHeader) : bool :=
  bool_decide (nameCode_ h = NC_Connection) || bool_decide (nameCode_ h = NC_TransferEncoding).

Fixpoint encodeRequestHeaders (hs : HttpHeaderMap) (block : bytes) : outcome bytes :=
  match hs with
  | [] => Ok block
  | (_, hdr) :: hs' =>
      if decide (nameCode_ hdr = NC_Host) then
        let! block := encodeLiteral (str ":authority") (value_ hdr) block in
        encodeRequestHeaders hs' block
      else if connectionHeader hdr then encodeRequestHeaders hs' block
      else
        let! block := encodeLiteral (name_ hdr) (value_ hdr) block in
        encodeRequestHeaders hs' block
  end.

Fixpoint joinCookies (cs : ordmap bytes) (cookieHeader : bytes) : bytes :=
  match cs with
  | [] => cookieHeader
  | (name, value) :: cs' =>
      joinCookies cs'
        ((if decide (cookieHeader = []) then [] else cookieHeader ++ str "; ") ++ name ++ str "=" ++ value)
  end.

(** The block [sendHeaders] sends. *)
Definition requestBlock (reg : MethodRegistry) (scheme : bytes) (req : HttpRequest) : outcome bytes :=
  let! block := encodeLiteral (str ":method") (methodToString reg (method req)) [] in
  let! block := encodeLiteral (str ":path") (if decide (path req = []) then str "/" else path req) block in
  let! block := encodeLiteral (str ":scheme") scheme block in
  let! block := encodeRequestHeaders (headers req) block in
  if decide (cookies req = []) then Ok block
  else encodeLiteral (str "cookie") (joinCookies (cookies req) []) block.

(** ** The server *)

Fixpoint buildHeaders (hs : HttpHeaderMap) (req : HttpRequest) : outcome HttpRequest :=
  match hs with
  | [] => Ok req
  | (key, hdr) :: hs' =>
      let! req :=
        (if decide (nameCode_ hdr = NC_Cookie) then
           let! cs := Request.parseCookies (value_ hdr) (cookies req) in
           Ok (Request.set_cookies cs req)
         else Ok (Request.set_headers (om_insert key hdr (headers req)) req)) in
      buildHeaders hs' req
  end.

Definition addAuthority (authority : bytes) (req : HttpRequest) : HttpRequest :=
  if decide (authority = []) then req
  else
    let h := newHeaderCode NC_Host authority in
    Request.set_headers (om_insert (name_ h) h (headers req)) req.

Definition buildRequest (reg : MethodRegistry) (dh : DecodedHeaders) : outcome HttpRequest :=
  let qPos := sv_find (d_path dh) x3f 0 in
  let! raw := sv_substr (d_path dh) 0 qPos in
  let req := mkRequest kHttp11 (methodFromString reg (d_method dh)) (urlDecode raw) raw [] [] [] []
               ContentLength 0 true in
  let! req :=
    (if qPos =? npos then Ok req
     else
       let! q := sv_substr (d_path dh) (qPos + 1) npos in
       let! qs := Request.parseQueryString q (queries req) in
       Ok (Request.set_query q qs req)) in
  buildHeaders (d_headers dh) (addAuthority (d_authority dh) req).

(** ** The block is read as its fields *)

(** A literal without indexing leaves the table alone. *)
Lemma plain_literal_reads (wn ws name value : bytes) (t : HpackTable) :
  reads_as wn name -> reads_as ws value ->
  field_reads (encodeInt [] 0 4 0x00 ++ wn ++ ws) name value t t.
Proof.
  intros Hn Hws. change (encodeInt [] 0 4 0x00) with [x00].
  split; [rewrite !size_app; change (size [x00]) with 1; pose proof (size_nonneg wn);
    pose proof (size_nonneg ws); lia |].
  intros pre post st Hsize. unfold decodeField.
  rewrite (mbind_lift _ x00) by (cbn [app]; apply at_middle).
  rewrite mbind_get. change (Z.land (b2z x00) 0x80 =? 0) with true.
  change (Z.land (b2z x00) 0xc0 =? 0x40) with false. change (Z.land (b2z x00) 0xe0 =? 0x20) with false.
  cbn [negb].
  assert (Hlit : decodeLiteral (pre ++ ([x00] ++ wn ++ ws) ++ post) (size pre) 4 t
    = Ok (name, value, size pre + size ([x00] ++ wn ++ ws))).
  { unfold decodeLiteral. rewrite <- (app_assoc [x00]). change [x00] with (encodeInt [] 0 4 0x00) at 1.
    rewrite decodeInt_ok by first [lia | by split]. cbn [obind Z.eqb].
    change (encodeInt [] 0 4 0x00) with [x00].
    replace (pre ++ [x00] ++ (wn ++ ws) ++ post) with ((pre ++ [x00]) ++ wn ++ ws ++ post)
      by (by rewrite <- !app_assoc).
    replace (size pre + size [x00]) with (size (pre ++ [x00])) by (by rewrite size_app).
    assert (Hlen : size ((pre ++ [x00]) ++ wn ++ ws ++ post) < 2 ^ 64)
      by (rewrite <- !app_assoc in *; lia).
    rewrite Hn by done. cbn [obind].
    replace ((pre ++ [x00]) ++ wn ++ ws ++ post) with (((pre ++ [x00]) ++ wn) ++ ws ++ post) in *
      by (by rewrite <- !app_assoc).
    replace (size (pre ++ [x00]) + size wn) with (size ((pre ++ [x00]) ++ wn)) by (by rewrite size_app).
    rewrite Hws by done. cbn [obind]. rewrite !size_app. do 2 f_equal. lia. }
  rewrite (mbind_lift _ _ _ _ Hlit). unfold mbind, mlift. by destruct (applyHeader name value st).
Qed.

Lemma encodeLiteral_ok (name value out : bytes) :
  small name -> small value ->
  exists w, encodeLiteral name value out = Ok (out ++ w) /\ forall t, field_reads w name value t t.
Proof.
  intros Hn Hv. unfold encodeLiteral.
  destruct (encodeStr_ok (encodeInt out 0 4 0x00) name Hn) as (wn & -> & Hrn). cbn [obind].
  destruct (encodeStr_ok (encodeInt out 0 4 0x00 ++ wn) value Hv) as (wv & -> & Hrv).
  exists (encodeInt [] 0 4 0x00 ++ wn ++ wv). split.
  - by rewrite encodeInt_app, <- !app_assoc.
  - intros t. by apply plain_literal_reads.
Qed.

(** The fields of a request. *)
Definition kept (hs : HttpHeaderMap) : HttpHeaderMap :=
  List.filter (fun kh => negb (connectionHeader (snd kh))) hs.

Definition fieldOf (kh : bytes * HttpHeader) : bytes * bytes :=
  (if decide (nameCode_ (snd kh) = NC_Host) then str ":authority" else name_ (snd kh), value_ (snd kh)).

Definition cookieField (cs : ordmap bytes) : list (bytes * bytes) :=
  if decide (cs = []) then [] else [(str "cookie", joinCookies cs [])].

Definition requestFields (reg : MethodRegistry) (scheme : bytes) (req : HttpRequest) : list (bytes * bytes) :=
  [(str ":method", methodToString reg (method req));
   (str ":path", if decide (path req = []) then str "/" else path req); (str ":scheme", scheme)]
  ++ map fieldOf (kept (headers req)) ++ cookieField (cookies req).

Definition small_header (kh : bytes * HttpHeader) : Prop :=
  small (name_ (snd kh)) /\ small (value_ (snd kh)).

Lemma encodeRequestHeaders_ok (hs : HttpHeaderMap) (out : bytes) :
  Forall small_header hs ->
  exists w, encodeRequestHeaders hs out = Ok (out ++ w)
    /\ forall t, block_reads w (map fieldOf (kept hs)) t t.
Proof.
  intros Hs. revert out. induction Hs as [| [k h] hs [Hn Hv] Hs IH]; intros out.
  - exists []. rewrite app_nil_r. split; [done |]. constructor.
  - cbn [encodeRequestHeaders kept List.filter snd] in *. unfold connectionHeader at 2.
    destruct (decide (nameCode_ h = NC_Host)) as [Hhost | Hhost].
    + rewrite Hhost. cbn [orb negb map]. rewrite !bool_decide_eq_false_2 by done. cbn [orb negb map].
      destruct (encodeLiteral_ok (str ":authority") (value_ h) out) as (w & -> & Hw); [by vm_compute | done |].
      cbn [obind]. destruct (IH (out ++ w)) as (ws & -> & Hws). exists (w ++ ws).
      split; [by rewrite <- app_assoc |]. intros t. unfold fieldOf at 1. cbn [snd].
      rewrite decide_True by done. by econstructor.
    + fold (connectionHeader h). destruct (connectionHeader h); cbn [negb]; [by apply IH |].
      destruct (encodeLiteral_ok (name_ h) (value_ h) out) as (w & -> & Hw); [done | done |].
      cbn [obind]. destruct (IH (out ++ w)) as (ws & -> & Hws). exists (w ++ ws).
      split; [by rewrite <- app_assoc |]. intros t. cbn [map]. unfold fieldOf at 1. cbn [snd].
      rewrite decide_False by done. by econstructor.
Qed.

(** A request the client may send this way: see [authority_first] below. *)
Record h2_sizes (reg : MethodRegistry) (scheme : bytes) (req : HttpRequest) : Prop := {
  hs_method : small (methodToString reg (method req));
  hs_path : small (path req);
  hs_scheme : small scheme;
  hs_headers : Forall small_header (headers req);
  hs_cookies : small (joinCookies (cookies req) [])
}.

Lemma requestBlock_ok (reg : MethodRegistry) (scheme : bytes) (req : HttpRequest) :
  h2_sizes reg scheme req ->
  exists w, requestBlock reg scheme req = Ok w
    /\ forall t, block_reads w (requestFields reg scheme req) t t.
Proof.
  intros [Hm Hp Hs Hh Hc]. unfold requestBlock, requestFields.
  destruct (encodeLiteral_ok (str ":method") (methodToString reg (method req)) []) as (w1 & -> & H1);
    [by vm_compute | done |]. cbn [obind app].
  destruct (encodeLiteral_ok (str ":path") (if decide (path req = []) then str "/" else path req) w1)
    as (w2 & -> & H2); [by vm_compute | by destruct (decide (path req = [])) |]. cbn [obind].
  destruct (encodeLiteral_ok (str ":scheme") scheme (w1 ++ w2)) as (w3 & -> & H3);
    [by vm_compute | done |]. cbn [obind].
  destruct (encodeRequestHeaders_ok (headers req) ((w1 ++ w2) ++ w3) Hh) as (w4 & -> & H4). cbn [obind].
  assert (Hcook : exists w5, (if decide (cookies req = []) then Ok (((w1 ++ w2) ++ w3) ++ w4)
      else encodeLiteral (str "cookie") (joinCookies (cookies req) []) (((w1 ++ w2) ++ w3) ++ w4))
      = Ok ((((w1 ++ w2) ++ w3) ++ w4) ++ w5)
    /\ forall t, block_reads w5 (cookieField (cookies req)) t t).
  { unfold cookieField. destruct (decide (cookies req = [])).
    - exists []. rewrite app_nil_r. split; [done |]. constructor.
    - destruct (encodeLiteral_ok (str "cookie") (joinCookies (cookies req) []) (((w1 ++ w2) ++ w3) ++ w4))
        as (w5 & -> & H5); [by vm_compute | done |].
      exists w5. split; [done |]. intros t. rewrite <- (app_nil_r w5). econstructor; [apply H5 | constructor]. }
  destruct Hcook as (w5 & -> & H5). eexists. split; [done |]. intros t.
  rewrite <- !app_assoc. cbn [app].
  econstructor; [apply H1 |]. econstructor; [apply H2 |]. econstructor; [apply H3 |].
  eapply block_app; [apply H4 | apply H5].
Qed.

(** ** What the decoder makes of the fields *)

(** The [Host] header becomes [:authority], which the decoder takes only before
    the other headers: it has to be the first one sent. *)
Definition isHost (kh : bytes * HttpHeader) : bool := bool_decide (nameCode_ (snd kh) = NC_Host).

Definition authority_first (hs : HttpHeaderMap) : Prop :=
  match kept hs with [] => True | _ :: rest => Forall (fun kh => isHost kh = false) rest end.

Definition authorityOf (hs : HttpHeaderMap) : bytes :=
  match kept hs with kh :: _ => if isHost kh then value_ (snd kh) else [] | [] => [] end.
Definition regularOf (hs : HttpHeaderMap) : HttpHeaderMap :=
  List.filter (fun kh => negb (isHost kh)) (kept hs).

Lemma fieldOf_regular (hs : HttpHeaderMap) :
  Forall (fun kh => isHost kh = false) hs ->
  map fieldOf hs = fieldsOf hs /\ List.filter (fun kh => negb (isHost kh)) hs = hs.
Proof.
  induction 1 as [| kh hs Hk Hs [IH1 IH2]]; [done |]. cbn [map List.filter fieldsOf]. rewrite Hk. cbn [negb].
  rewrite IH1, IH2. split; [| done]. unfold fieldOf, isHost in *. f_equal.
  by rewrite decide_False by (apply bool_decide_eq_false in Hk; done).
Qed.

Lemma kept_ok (hs : HttpHeaderMap) : headers_ok hs -> headers_ok (kept hs).
Proof.
  intros [Hwf Hall]. split; [by apply om_wf_filter |]. rewrite Forall_forall in *.
  intros x Hx. apply Hall. apply list_elem_of_In, filter_In in Hx as [Hx _]. by apply list_elem_of_In.
Qed.

(** The headers after the pseudo-headers. *)
Lemma applyAll_request_headers (hs : HttpHeaderMap) (m p s : bytes) :
  headers_ok hs -> authority_first hs ->
  exists seen, applyAll (map fieldOf (kept hs)) (mkDecoded m p s [] [] [], false)
    = Ok (mkDecoded m p s (authorityOf hs) [] (regularOf hs), seen).
Proof.
  intros Hok Hfirst. apply kept_ok in Hok. unfold authority_first, authorityOf, regularOf in *.
  destruct (kept hs) as [| kh rest]; [by exists false |].
  destruct (fieldOf_regular rest Hfirst) as [Hmap Hfilter]. cbn [map List.filter].
  rewrite Hmap, Hfilter. unfold fieldOf, isHost in *. case_bool_decide as Hh.
  - rewrite decide_True by done. cbn [negb applyAll]. unfold applyHeader at 1.
    change (isPseudo (str ":authority")) with true. cbn iota.
    rewrite !decide_False by done. rewrite decide_True by done. cbn [obind].
    assert (Hok' : headers_ok rest).
    { destruct Hok as [Hwf Hall]. split; [by inversion Hwf | by inversion Hall]. }
    eexists. rewrite (applyAll_headers [] rest) by done. done.
  - rewrite decide_False by done. cbn [negb].
    change ((name_ kh.2, value_ kh.2) :: fieldsOf rest) with (fieldsOf (kh :: rest)).
    eexists. rewrite (applyAll_headers [] (kh :: rest)) by done. done.
Qed.

Lemma applyFields_app (fs gs : list (bytes * bytes)) (st : DecodedHeaders * bool) :
  applyAll (fs ++ gs) st = let! st' := applyAll fs st in applyAll gs st'.
Proof.
  revert st. induction fs as [| [n v] fs IH]; intros st; [done |]. cbn [app applyAll].
  destruct (applyHeader n v st); cbn [obind]; [apply IH | done ..].
Qed.

(** The headers with the cookies. *)
Definition withCookie (cs : ordmap bytes) (hs : HttpHeaderMap) : HttpHeaderMap :=
  if decide (cs = []) then hs
  else om_insert (str "cookie") (newHeader (str "cookie") (joinCookies cs [])) hs.

Lemma decoded_request (reg : MethodRegistry) (scheme : bytes) (req : HttpRequest) :
  methodToString reg (method req) <> [] -> scheme <> [] ->
  headers_ok (headers req) -> authority_first (headers req) ->
  exists seen, applyAll (requestFields reg scheme req) (noHeaders, false)
    = Ok (mkDecoded (methodToString reg (method req)) (if decide (path req = []) then str "/" else path req)
            scheme (authorityOf (headers req)) [] (withCookie (cookies req) (regularOf (headers req))), seen).
Proof.
  intros Hm Hs Hok Hfirst. unfold requestFields. rewrite applyFields_app.
  set (target := if decide (path req = []) then str "/" else path req).
  assert (Hpseudo : applyAll [(str ":method", methodToString reg (method req)); (str ":path", target);
      (str ":scheme", scheme)] (noHeaders, false)
    = Ok (mkDecoded (methodToString reg (method req)) target scheme [] [] [], false)) by done.
  rewrite Hpseudo. cbn [obind]. rewrite applyFields_app.
  destruct (applyAll_request_headers (headers req) (methodToString reg (method req)) target scheme Hok Hfirst)
    as (seen & ->). cbn [obind]. unfold cookieField, withCookie.
  destruct (decide (cookies req = [])); [by exists seen |]. exists true. done.
Qed.

(** ** What the server makes of the decoded headers *)

Lemma joinCookies_loop (cs : ordmap bytes) : joinCookies cs [] = cookieLoop true cs.
Proof.
  assert (H : forall cs acc, acc <> [] -> joinCookies cs acc = acc ++ cookieLoop false cs).
  { clear. induction cs as [| [n v] cs IH]; intros acc Ha; cbn [joinCookies cookieLoop]; [by rewrite app_nil_r |].
    rewrite decide_False by done. rewrite IH by (by destruct acc). by rewrite <- !app_assoc. }
  destruct cs as [| [n v] cs]; [done |]. cbn [joinCookies cookieLoop]. rewrite decide_True by done.
  rewrite H by (by destruct n). cbn [app]. by rewrite <- !app_assoc.
Qed.

Definition putAll (hs m : HttpHeaderMap) : HttpHeaderMap :=
  foldl (fun m kh => om_insert (fst kh) (snd kh) m) m hs.

Lemma putAll_find (hs m : HttpHeaderMap) :
  om_wf hs -> om_wf m ->
  om_wf (putAll hs m)
  /\ forall k, om_find k (putAll hs m) = match om_find k hs with Some h => Some h | None => om_find k m end.
Proof.
  unfold putAll. revert m. induction hs as [| [k0 h0] hs IH]; intros m Hhs Hm; [done |]. cbn [foldl fst snd].
  pose proof Hhs as Hcons. unfold om_wf in Hcons. apply StronglySorted_inv in Hcons as [Hhs' Hall].
  destruct (IH (om_insert k0 h0 m) Hhs' (om_insert_wf _ _ _ Hm)) as [Hwf Hf]. split; [done |]. intros k.
  rewrite Hf, om_find_insert by done. cbn [om_find]. destruct (decide (k = k0)) as [-> |]; [| done].
  destruct (om_find k0 hs) as [h |] eqn:Hk; [| done]. apply om_find_In in Hk.
  rewrite Forall_forall in Hall. specialize (Hall (k0, h) (proj2 (list_elem_of_In _ _) Hk)).
  by apply blt_irrefl in Hall.
Qed.

Lemma buildHeaders_regular (hs : HttpHeaderMap) (req : HttpRequest) :
  Forall (fun kh => nameCode_ (snd kh) <> NC_Cookie) hs ->
  buildHeaders hs req = Ok (Request.set_headers (putAll hs (headers req)) req).
Proof.
  intros Hhs. revert req. induction Hhs as [| [k h] hs Hh Hhs IH]; intros req; [by destruct req |].
  cbn [buildHeaders snd] in *. rewrite decide_False by done. cbn [obind]. by rewrite IH.
Qed.

Lemma buildHeaders_cookie (hs : HttpHeaderMap) (ch : HttpHeader) (req : HttpRequest) (cs : ordmap bytes) :
  Forall (fun kh => nameCode_ (snd kh) <> NC_Cookie /\ fst kh <> str "cookie") hs ->
  nameCode_ ch = NC_Cookie -> Request.parseCookies (value_ ch) (cookies req) = Ok cs ->
  buildHeaders (om_insert (str "cookie") ch hs) req
  = Ok (Request.set_cookies cs (Request.set_headers (putAll hs (headers req)) req)).
Proof.
  intros Hhs Hch. revert req. induction Hhs as [| [k h] hs [Hh Hk] Hhs IH]; intros req Hp.
  - cbn [om_insert buildHeaders]. rewrite decide_True, Hp by done. by destruct req.
  - cbn [om_insert fst snd] in *. destruct (bcompare (str "cookie") k) eqn:Hc.
    + by apply bcompare_eq in Hc.
    + cbn [buildHeaders]. rewrite decide_True, Hp by done. cbn [obind].
      rewrite decide_False by done. cbn [obind]. rewrite buildHeaders_regular; [done |].
      eapply Forall_impl; [exact Hhs |]. by intros kh [].
    + cbn [buildHeaders]. rewrite decide_False by done. cbn [obind]. by rewrite IH.
Qed.

(** The headers a request keeps, and the [Host] header again. *)
Lemma headers_rebuilt (hs : HttpHeaderMap) :
  headers_ok hs -> authority_first hs -> (Forall (fun kh => isHost kh = true -> value_ (snd kh) <> []) hs) ->
  putAll (regularOf hs)
    (headers (addAuthority (authorityOf hs) newRequest)) = kept hs.
Proof.
  intros Hok Hfirst Hval. pose proof (kept_ok hs Hok) as Hkept.
  assert (Hv : Forall (fun kh => isHost kh = true -> value_ (snd kh) <> []) (kept hs)).
  { rewrite Forall_forall in *. intros x Hx. apply Hval.
    apply list_elem_of_In, filter_In in Hx as [Hx _]. by apply list_elem_of_In. }
  unfold authority_first, authorityOf, regularOf in *. destruct (kept hs) as [| [k0 h0] rest] eqn:Hk; [done |].
  destruct (fieldOf_regular rest Hfirst) as [_ Hfilter]. cbn [List.filter]. rewrite Hfilter.
  destruct Hkept as [Hwf Hall]. pose proof Hwf as Hsorted. unfold om_wf in Hsorted.
  apply StronglySorted_inv in Hsorted as [Hrest Hlt].
  destruct (isHost (k0, h0)) eqn:Hh; cbn [negb snd].
  - apply Forall_cons in Hv as [Hv0 _]. specialize (Hv0 Hh). cbn [snd] in Hv0.
    apply Forall_cons in Hall as [(Hkey & Hnew & _) _]. cbn [fst snd] in Hkey, Hnew.
    assert (Hname : name_ h0 = str "host" /\ newHeaderCode NC_Host (value_ h0) = h0).
    { unfold isHost in Hh. apply bool_decide_eq_true in Hh. cbn [snd] in Hh.
      assert (Hn : nameToCode (name_ h0) = NC_Host).
      { rewrite Hnew in Hh. cbn [nameCode_ newHeader] in Hh. rewrite <- Hh. f_equal.
        rewrite Hnew at 1. by cbn [name_ newHeader]. }
      apply nameToCode_iff in Hn; [| done]. change (codeToName NC_Host) with (str "host") in Hn.
      split; [done |]. destruct h0 as [n v c]. cbn [name_ value_ nameCode_] in *. by subst. }
    destruct Hname as [Hname Hcode]. unfold addAuthority. rewrite decide_False by done. rewrite Hcode.
    cbn [headers Request.set_headers newRequest om_insert].
    assert (Hone : om_wf [(name_ h0, h0)]) by (repeat constructor).
    destruct (putAll_find rest [(name_ h0, h0)] Hrest Hone) as [Hwf' Hf].
    apply om_ext; [done | done |]. intros k. rewrite Hf. cbn [om_find]. rewrite <- Hkey.
    destruct (decide (k = k0)) as [-> | Hne]; [| by destruct (om_find k rest)].
    destruct (om_find k0 rest) as [h |] eqn:Hin; [| done]. apply om_find_In in Hin.
    rewrite Forall_forall in Hlt. specialize (Hlt (k0, h) (proj2 (list_elem_of_In _ _) Hin)).
    by apply blt_irrefl in Hlt.
  - cbn [addAuthority]. unfold addAuthority. rewrite decide_True by done.
    destruct (putAll_find ((k0, h0) :: rest) [] Hwf (om_wf_nil)) as [Hwf' Hf].
    apply om_ext; [done | done |]. intros k. rewrite Hf. by destruct (om_find k _).
Qed.

(** ** Properties *)

Record h2_writable (reg : MethodRegistry) (scheme : bytes) (req : HttpRequest) : Prop := {
  hw_sizes : h2_sizes reg scheme req;
  hw_method : methodFromString reg (methodToString reg (method req)) = method req
              /\ methodToString reg (method req) <> [];
  hw_scheme : scheme <> [];
  hw_headers : headers_ok (headers req);
  hw_authority : authority_first (headers req);
  hw_host : Forall (fun kh => isHost kh = true -> value_ (snd kh) <> []) (headers req);
  hw_no_cookie : Forall (fun kh => nameCode_ (snd kh) <> NC_Cookie) (headers req);
  hw_cookies : om_wf (cookies req) /\ Forall cookie_pair_ok (cookies req)
}.

Definition targetOf (req : HttpRequest) : bytes := if decide (path req = []) then str "/" else path req.

(** The request the server hands to its router. *)
Definition h2_received (req : HttpRequest) : HttpRequest :=
  mkRequest kHttp11 (method req) (urlDecode (targetPath (targetOf req))) (targetPath (targetOf req))
    (targetQuery (targetOf req)) (kept (headers req)) (cookies req) (targetQueries (targetOf req))
    ContentLength 0 true.

Lemma regular_no_cookie (hs : HttpHeaderMap) :
  headers_ok hs -> Forall (fun kh => nameCode_ (snd kh) <> NC_Cookie) hs ->
  Forall (fun kh => nameCode_ (snd kh) <> NC_Cookie /\ fst kh <> str "cookie") (regularOf hs).
Proof.
  intros [_ Hall] Hc. rewrite Forall_forall in *. intros [k h] Hx. unfold regularOf, kept in Hx.
  apply list_elem_of_In, filter_In in Hx as [Hx _]. apply filter_In in Hx as [Hx _].
  apply list_elem_of_In in Hx. specialize (Hc _ Hx). destruct (Hall _ Hx) as (Hk & Hnew & _).
  cbn [fst snd] in *. split; [done |]. intros ->. apply Hc. rewrite Hnew, <- Hk. by vm_compute.
Qed.

Lemma buildRequest_ok (reg : MethodRegistry) (scheme : bytes) (req : HttpRequest) :
  h2_writable reg scheme req ->
  buildRequest reg (mkDecoded (methodToString reg (method req)) (targetOf req) scheme
    (authorityOf (headers req)) [] (withCookie (cookies req) (regularOf (headers req))))
  = Ok (h2_received req).
Proof.
  intros [Hsizes [Hm _] _ Hok Hfirst Hhost Hcook [Hwf Hpairs]].
  assert (Hts : size (targetOf req) < npos).
  { unfold targetOf. pose proof (hs_path _ _ _ Hsizes) as Hp. unfold small, npos in *.
    destruct (decide (path req = [])); [by vm_compute | lia]. }
  unfold buildRequest. cbn [d_path d_method d_authority d_headers]. rewrite Hm.
  destruct (target_fields (targetOf req) Hts) as [-> Hq]. cbn [obind queries].
  set (req0 := mkRequest kHttp11 (method req) (urlDecode (targetPath (targetOf req)))
    (targetPath (targetOf req)) [] [] [] [] ContentLength 0 true).
  set (q := targetQuery (targetOf req)) in *. set (qs := targetQueries (targetOf req)) in *.
  assert (Hquery : (if sv_find (targetOf req) x3f 0 =? npos then Ok req0
      else let! q := sv_substr (targetOf req) (sv_find (targetOf req) x3f 0 + 1) npos in
           let! qs := Request.parseQueryString q [] in Ok (Request.set_query q qs req0))
    = Ok (Request.set_query q qs req0)).
  { destruct (sv_find (targetOf req) x3f 0 =? npos).
    - by destruct Hq as [-> ->].
    - destruct Hq as [-> Hqs]. cbn [obind]. by rewrite Hqs. }
  rewrite Hquery. cbn [obind].
  pose proof (headers_rebuilt (headers req) Hok Hfirst Hhost) as Hrebuilt.
  assert (Hadd : addAuthority (authorityOf (headers req)) (Request.set_query q qs req0)
    = Request.set_headers (headers (addAuthority (authorityOf (headers req)) newRequest))
        (Request.set_query q qs req0)).
  { unfold addAuthority. by destruct (decide (authorityOf (headers req) = [])). }
  rewrite Hadd. pose proof (regular_no_cookie (headers req) Hok Hcook) as Hreg.
  unfold withCookie. destruct (decide (cookies req = [])) as [Hnil | Hne].
  - rewrite buildHeaders_regular by (eapply Forall_impl; [exact Hreg | by intros kh []]).
    cbn [headers Request.set_headers]. rewrite Hrebuilt. unfold h2_received. by rewrite Hnil.
  - erewrite buildHeaders_cookie; [| exact Hreg | done |].
    + cbn [headers Request.set_headers]. rewrite Hrebuilt. done.
    + cbn [value_ newHeader cookies Request.set_headers Request.set_query req0].
      rewrite joinCookies_loop. apply parseCookies_loop; [done | done | done |].
      pose proof (hs_cookies _ _ _ Hsizes) as Hs. rewrite joinCookies_loop in Hs. unfold small, npos in *. lia.
Qed.

(** What the decoder makes of a request's block. *)
Definition sentHeaders (reg : MethodRegistry) (scheme : bytes) (req : HttpRequest) : DecodedHeaders :=
  mkDecoded (methodToString reg (method req)) (targetOf req) scheme (authorityOf (headers req)) []
    (withCookie (cookies req) (regularOf (headers req))).

Lemma request_decodes (reg : MethodRegistry) (scheme : bytes) (req : HttpRequest) :
  h2_writable reg scheme req ->
  exists block, requestBlock reg scheme req = Ok block
    /\ forall t, size block < 2 ^ 63 -> decode block t = (Ok (sentHeaders reg scheme req), t).
Proof.
  intros [Hsizes [_ Hm] Hs Hok Hfirst _ _ _].
  destruct (requestBlock_ok reg scheme req Hsizes) as (block & Hb & Hreads).
  exists block. split; [done |]. intros t Hsize.
  destruct (decoded_request reg scheme req Hm Hs Hok Hfirst) as (seen & Happ).
  by rewrite (decode_block block _ t t _ (Hreads t) Happ Hsize).
Qed.

(** C11: A request survives HTTP/2's header compression.  The block a client sends
    for a request, whose [Host] header is not preceded by another one, is decoded,
    with any table, without changing it, and the server makes of it the same
    method, path, query, parameters, cookies and headers (less Connection and
    Transfer-Encoding, which HTTP/2 does not carry). *)
Theorem h2_request_roundtrip (reg : MethodRegistry) (scheme : bytes) (req : HttpRequest) (t : HpackTable) :
  h2_writable reg scheme req ->
  exists block, requestBlock reg scheme req = Ok block
    /\ (size block < 2 ^ 63 ->
        exists dh, decode block t = (Ok dh, t) /\ d_scheme dh = scheme
          /\ buildRequest reg dh = Ok (h2_received req)).
Proof.
  intros Hw. destruct (request_decodes reg scheme req Hw) as (block & Hb & Hd).
  exists block. split; [done |]. intros Hsize. eexists. split; [by apply Hd |].
  split; [done |]. by apply (buildRequest_ok reg scheme).
Qed.

Definition h2_sample : HttpRequest :=
  mkRequest kHttp11 1 (str "/a%20b?x=1&y") [] []
    [(str "host", newHeader (str "Host") (str "example.com"));
     (str "user-agent", newHeader (str "User-Agent") (str "test"))]
    [(str "a", str "1"); (str "b", str "2")] [] ContentLength 0 true.

Lemma h2_sample_writable : h2_writable initRegistry (str "https") h2_sample.
Proof.
  split.
  - split; [done .. | | done]. by repeat constructor.
  - by vm_compute.
  - done.
  - split; [by repeat constructor |]. by repeat constructor.
  - by repeat constructor.
  - by repeat constructor.
  - by repeat constructor.
  - split; [by repeat constructor |]. unfold cookie_pair_ok, without, no_cr.
    by repeat (constructor; try done).
Qed.

Lemma h2_request_roundtrip_witness :
  exists block, requestBlock initRegistry (str "https") h2_sample = Ok block
    /\ (size block < 2 ^ 63 ->
        exists dh, decode block (newTable 4096) = (Ok dh, newTable 4096) /\ d_scheme dh = str "https"
          /\ buildRequest initRegistry dh = Ok (h2_received h2_sample)).
Proof. apply h2_request_roundtrip, h2_sample_writable. Defined.

(** A client's request with an [Accept] header. *)
Definition h2_accept : HttpRequest :=
  mkRequest kHttp11 1 (str "/") [] []
    [(str "accept", newHeader (str "Accept") (str "*/*"));
     (str "host", newHeader (str "Host") (str "example.com"))] [] [] ContentLength 0 true.

(** A request with a header that sorts before [host], such as [Accept], is
    refused: [sendHeaders] writes [:authority] when it comes to [host], after
    regular headers, and the decoder throws. *)
Theorem h2_authority_late :
  exists block, requestBlock initRegistry (str "https") h2_accept = Ok block
    /\ fst (decode block (newTable 4096))
       = Throw (RuntimeError "HPACK: pseudo-header after regular header").
Proof.
  exists (match requestBlock initRegistry (str "https") h2_accept with Ok b => b | _ => [] end).
  split; vm_compute; reflexivity.
Qed.
