(* ===== verification/Http2Session.v ===== *)
(** The server side of an HTTP/2 connection: [Http2Session] of
    src/extensions/http2/src/Http2Session.cc. *)

From Stdlib Require Import ZArith Lia String Strings.Byte.
From stdpp Require Import base numbers option list gmap.
From S2P Require Import Prelude CxxStd Endian UrlEncode ByteStream Split OrdMap HttpTypes HttpParser.
From S2P Require Import HpackTable Hpack Http2Frame Http2Request.
Open Scope Z_scope.

(** ** State *)

(** [Http2Stream]: [received] is what was sent into the pipe of the request's
    body, [open_] tells whether [bodySender] still holds its end. *)
Record Http2Stream : Type := mkStream {
  decodedHeaders : DecodedHeaders;
  received : list bytes;
  open_ : bool
}.

(** What the coroutines of the requests do while the session waits: they write
    responses, and when one ends its stream is erased. *)
Inductive event : Type :=
| SendHeaders (streamId : Z) (resp : HttpResponse) (endStream : bool)
| SendData (streamId : Z) (data : bytes) (endStream : bool)
| SendRstStream (streamId errorCode : Z)
| Finished (streamId : Z).

(** [spawned_]: the streams whose requests were handed to a handler, the first
    one first.  [schedule_]: what happens at each wait to come. *)
Record Http2Session (S : Type) : Type := mkSession {
  reader_ : S;
  decoder_ : HpackTable;
  encoder_ : HpackTable;
  streams_ : gmap Z Http2Stream;
  continuationStreamId_ : Z;
  headersOnly_ : bool;
  headerBlockBuf_ : bytes;
  lastStreamId_ : Z;
  peerMaxFrameSize_ : Z;
  goAwaySent_ : bool;
  spawned_ : list Z;
  schedule_ : list (list event)
}.
Arguments mkSession {S} _ _ _ _ _ _ _ _ _ _ _ _.
Arguments reader_ {S} h.
Arguments decoder_ {S} h.
Arguments encoder_ {S} h.
Arguments streams_ {S} h.
Arguments continuationStreamId_ {S} h.
Arguments headersOnly_ {S} h.
Arguments headerBlockBuf_ {S} h.
Arguments lastStreamId_ {S} h.
Arguments peerMaxFrameSize_ {S} h.
Arguments goAwaySent_ {S} h.
Arguments spawned_ {S} h.
Arguments schedule_ {S} h.

Definition maxFrameSize_ : Z := 16384.

Definition newSession {S : Type} (stream : S) (schedule : list (list event)) : Http2Session S :=
  mkSession stream (newTable kDefaultMaxSize) (newTable kDefaultMaxSize) ∅ 0 false [] 0 16384 false [] schedule.

(** ** Access to the members *)

Section session.
Context {S : Type} `{!ByteStream S}.
Abbreviation Session := (Http2Session S).

Definition set_reader (r : S) (h : Session) : Session :=
  mkSession r (decoder_ h) (encoder_ h) (streams_ h) (continuationStreamId_ h) (headersOnly_ h)
    (headerBlockBuf_ h) (lastStreamId_ h) (peerMaxFrameSize_ h) (goAwaySent_ h) (spawned_ h) (schedule_ h).
Definition set_decoder (t : HpackTable) (h : Session) : Session :=
  mkSession (reader_ h) t (encoder_ h) (streams_ h) (continuationStreamId_ h) (headersOnly_ h)
    (headerBlockBuf_ h) (lastStreamId_ h) (peerMaxFrameSize_ h) (goAwaySent_ h) (spawned_ h) (schedule_ h).
Definition set_encoder (t : HpackTable) (h : Session) : Session :=
  mkSession (reader_ h) (decoder_ h) t (streams_ h) (continuationStreamId_ h) (headersOnly_ h)
    (headerBlockBuf_ h) (lastStreamId_ h) (peerMaxFrameSize_ h) (goAwaySent_ h) (spawned_ h) (schedule_ h).
Definition set_streams (m : gmap Z Http2Stream) (h : Session) : Session :=
  mkSession (reader_ h) (decoder_ h) (encoder_ h) m (continuationStreamId_ h) (headersOnly_ h)
    (headerBlockBuf_ h) (lastStreamId_ h) (peerMaxFrameSize_ h) (goAwaySent_ h) (spawned_ h) (schedule_ h).
Definition set_block (sid : Z) (only : bool) (block : bytes) (h : Session) : Session :=
  mkSession (reader_ h) (decoder_ h) (encoder_ h) (streams_ h) sid only block (lastStreamId_ h)
    (peerMaxFrameSize_ h) (goAwaySent_ h) (spawned_ h) (schedule_ h).
Definition set_last (sid : Z) (h : Session) : Session :=
  mkSession (reader_ h) (decoder_ h) (encoder_ h) (streams_ h) (continuationStreamId_ h) (headersOnly_ h)
    (headerBlockBuf_ h) sid (peerMaxFrameSize_ h) (goAwaySent_ h) (spawned_ h) (schedule_ h).
Definition set_peerMax (n : Z) (h : Session) : Session :=
  mkSession (reader_ h) (decoder_ h) (encoder_ h) (streams_ h) (continuationStreamId_ h) (headersOnly_ h)
    (headerBlockBuf_ h) (lastStreamId_ h) n (goAwaySent_ h) (spawned_ h) (schedule_ h).
Definition set_goAway (h : Session) : Session :=
  mkSession (reader_ h) (decoder_ h) (encoder_ h) (streams_ h) (continuationStreamId_ h) (headersOnly_ h)
    (headerBlockBuf_ h) (lastStreamId_ h) (peerMaxFrameSize_ h) true (spawned_ h) (schedule_ h).
Definition add_spawned (sid : Z) (h : Session) : Session :=
  mkSession (reader_ h) (decoder_ h) (encoder_ h) (streams_ h) (continuationStreamId_ h) (headersOnly_ h)
    (headerBlockBuf_ h) (lastStreamId_ h) (peerMaxFrameSize_ h) (goAwaySent_ h) (spawned_ h ++ [sid])
    (schedule_ h).
Definition set_schedule (es : list (list event)) (h : Session) : Session :=
  mkSession (reader_ h) (decoder_ h) (encoder_ h) (streams_ h) (continuationStreamId_ h) (headersOnly_ h)
    (headerBlockBuf_ h) (lastStreamId_ h) (peerMaxFrameSize_ h) (goAwaySent_ h) (spawned_ h) es.

Definition modify (f : Session -> Session) : M Session unit := fun h => (Ok tt, f h).

(** A call on a member. *)
Definition on_reader {A : Type} (m : M S A) : M Session A := fun h =>
  let '(o, r) := m (reader_ h) in (o, set_reader r h).
Definition on_decoder {A : Type} (m : M HpackTable A) : M Session A := fun h =>
  let '(o, t) := m (decoder_ h) in (o, set_decoder t h).
Definition on_encoder {A : Type} (m : M HpackTable A) : M Session A := fun h =>
  let '(o, t) := m (encoder_ h) in (o, set_encoder t h).

(** ** What the other coroutines do *)

(** [uint32_t] as four octets. *)
Definition octets4 (v : Z) : bytes :=
  [z2b (Z.land (Z.shiftr v 24) 0xff); z2b (Z.land (Z.shiftr v 16) 0xff); z2b (Z.land (Z.shiftr v 8) 0xff);
   z2b (Z.land v 0xff)].

(** The same with the top bit cleared, as stream ids and increments have it. *)
Definition octets31 (v : Z) : bytes :=
  [z2b (Z.land (Z.shiftr v 24) 0x7f); z2b (Z.land (Z.shiftr v 16) 0xff); z2b (Z.land (Z.shiftr v 8) 0xff);
   z2b (Z.land v 0xff)].

Definition flagsOf (endStream : bool) : Z := if endStream then FrameFlags.EndStream else 0.

(** [sendHeaders] encodes first and writes when it has the lock; the session's
    other writers do not use the encoder. *)
Definition sendHeaders (streamId : Z) (resp : HttpResponse) (endStream : bool) : M Session unit :=
  let* block := on_encoder (encodeResponse resp) in
  on_reader (writeFrame FrameType.Headers (Z.lor FrameFlags.EndHeaders (flagsOf endStream)) streamId block).

Definition sendData (streamId : Z) (data : bytes) (endStream : bool) : M Session unit :=
  on_reader (writeFrame FrameType.Data (flagsOf endStream) streamId data).

Definition writeRstStream (streamId errorCode : Z) : M Session unit :=
  on_reader (writeFrame FrameType.RstStream 0 streamId (octets4 errorCode)).

Definition happen (e : event) : M Session unit :=
  match e with
  | SendHeaders sid resp fin => sendHeaders sid resp fin
  | SendData sid data fin => sendData sid data fin
  | SendRstStream sid code => writeRstStream sid code
  | Finished sid => modify (fun h => set_streams (delete sid (streams_ h)) h)
  end.

Fixpoint happenAll (es : list event) : M Session unit :=
  match es with
  | [] => mret tt
  | e :: es' => let* _ := happen e in happenAll es'
  end.

(** [co_await writeMutex_.scoped_lock()], and the other waits: a wait that is
    not in the schedule is over at once. *)
Definition wait : M Session unit :=
  let* h := mget in
  match schedule_ h with
  | [] => mret tt
  | es :: rest =>
      let* _ := modify (set_schedule rest) in
      happenAll es
  end.

(** ** Sending *)

Definition sendGoAway (lastStreamId errorCode : Z) : M Session unit :=
  let* _ := modify set_goAway in
  let* _ := wait in
  on_reader (writeFrame FrameType.GoAway 0 0 (octets31 lastStreamId ++ octets4 errorCode)).

Definition sendSettingsAck : M Session unit :=
  let* _ := wait in
  on_reader (writeFrame FrameType.Settings FrameFlags.Ack 0 []).

Definition sendRstStream (streamId errorCode : Z) : M Session unit :=
  let* _ := wait in
  writeRstStream streamId errorCode.

Definition goAwayWith (errorCode : Z) : M Session unit :=
  let* h := mget in
  sendGoAway (lastStreamId_ h) errorCode.

(** ** [finaliseHeaders] *)

(** A header HTTP/2 does not allow. *)
Definition badHeader (h : HttpHeader) : bool :=
  bool_decide (nameCode_ h = NC_Connection) || bool_decide (nameCode_ h = NC_TransferEncoding)
  || bool_decide (name_ h = str "keep-alive") || bool_decide (name_ h = str "proxy-connection")
  || bool_decide (name_ h = str "upgrade")
  || (bool_decide (name_ h = str "te") && bool_decide (value_ h <> str "trailers"))
  || existsb isupper (name_ h).

Definition finaliseHeaders : M Session unit :=
  let* h := mget in
  let sid := continuationStreamId_ h in
  let block := headerBlockBuf_ h in
  let* _ := modify (set_block 0 (headersOnly_ h) block) in
  let* decoded := mtry (let* dh := on_decoder (decode block) in mret (Some dh)) (fun _ => mret None) in
  match decoded with
  | None => goAwayWith ErrorCode.CompressionError
  | Some dh =>
      let* _ := modify (fun h => set_block (continuationStreamId_ h) (headersOnly_ h) [] h) in
      if existsb (fun kh => badHeader (snd kh)) (d_headers dh) then
        sendRstStream sid ErrorCode.ProtocolError
      else if bool_decide (d_method dh = []) || bool_decide (d_path dh = []) || bool_decide (d_scheme dh = [])
      then sendRstStream sid ErrorCode.ProtocolError
      else
        let stream := mkStream dh [] (negb (headersOnly_ h)) in
        let* _ := modify (fun h => set_streams (<[sid := stream]> (streams_ h)) h) in
        modify (add_spawned sid)
  end.

(** ** The handlers *)

(** [payload\[i\]] *)
Definition at_payload (f : Frame) (i : Z) : outcome Z := octet (f_payload f) i.

Definition handleHeaders (f : Frame) : M Session unit :=
  let sid := f_streamId f in
  let* h := mget in
  if sid =? 0 then goAwayWith ErrorCode.ProtocolError
  else if sid mod 2 =? 0 then goAwayWith ErrorCode.ProtocolError
  else if (sid <=? lastStreamId_ h) && bool_decide (streams_ h !! sid = None) then
    goAwayWith ErrorCode.StreamClosed
  else if bool_decide (is_Some (streams_ h !! sid)) then sendRstStream sid ErrorCode.StreamClosed
  else
    let* _ := modify (set_last (Z.max (lastStreamId_ h) sid)) in
    let payLen := size (f_payload f) in
    let* (padLen, offset) :=
      (if has FrameFlags.Padded (f_flags f) then let* p := mlift (at_payload f 0) in mret (p, 1)
       else mret (0, 0)) in
    let* ok :=
      (if has FrameFlags.Priority (f_flags f) then
         let* b0 := mlift (at_payload f offset) in
         let* b1 := mlift (at_payload f (offset + 1)) in
         let* b2 := mlift (at_payload f (offset + 2)) in
         let* b3 := mlift (at_payload f (offset + 3)) in
         let dep := Z.lor (Z.lor (Z.lor (Z.shiftl (Z.land b0 0x7f) 24) (Z.shiftl b1 16)) (Z.shiftl b2 8)) b3 in
         if dep =? sid then let* _ := sendRstStream sid ErrorCode.ProtocolError in mret None
         else mret (Some (offset + 5))
       else mret (Some offset)) in
    match ok with
    | None => mret tt
    | Some offset =>
        if payLen <? offset + padLen then goAwayWith ErrorCode.ProtocolError
        else
          let blockLen := payLen - offset - padLen in
          let block := take (Z.to_nat blockLen) (drop (Z.to_nat offset) (f_payload f)) in
          let* _ := modify (set_block sid (has FrameFlags.EndStream (f_flags f)) block) in
          if has FrameFlags.EndHeaders (f_flags f) then finaliseHeaders else mret tt
    end.

Definition handleContinuation (f : Frame) : M Session unit :=
  let* h := mget in
  if bool_decide (f_streamId f <> continuationStreamId_ h) then goAwayWith ErrorCode.ProtocolError
  else
    let* _ := modify (set_block (continuationStreamId_ h) (headersOnly_ h) (headerBlockBuf_ h ++ f_payload f)) in
    if has FrameFlags.EndHeaders (f_flags f) then finaliseHeaders else mret tt.

(** [stream] is a reference into [streams_], kept while the session waits for
    the lock: using it afterwards is undefined when the entry is gone. *)
Definition handleData (f : Frame) : M Session unit :=
  let sid := f_streamId f in
  let* h := mget in
  if sid =? 0 then goAwayWith ErrorCode.ProtocolError
  else
    match streams_ h !! sid with
    | None =>
        if sid <=? lastStreamId_ h then sendRstStream sid ErrorCode.StreamClosed
        else goAwayWith ErrorCode.ProtocolError
    | Some stream =>
        let payLen := size (f_payload f) in
        let* (padLen, offset) :=
          (if has FrameFlags.Padded (f_flags f) then let* p := mlift (at_payload f 0) in mret (p, 1)
           else mret (0, 0)) in
        if payLen <? offset + padLen then goAwayWith ErrorCode.ProtocolError
        else
          let dataLen := payLen - offset - padLen in
          let* go :=
            (if 0 <? dataLen then
               if negb (open_ stream) then
                 let* _ := sendRstStream sid ErrorCode.StreamClosed in mret false
               else
                 let data := take (Z.to_nat dataLen) (drop (Z.to_nat offset) (f_payload f)) in
                 let stream' := mkStream (decodedHeaders stream) (received stream ++ [data]) (open_ stream) in
                 let* _ := modify (fun h => set_streams (<[sid := stream']> (streams_ h)) h) in
                 let wu := octets31 (u32 dataLen) in
                 let* _ := wait in
                 let* _ := on_reader (writeFrame FrameType.WindowUpdate 0 0 wu) in
                 let* _ := on_reader (writeFrame FrameType.WindowUpdate 0 sid wu) in
                 mret true
             else mret true) in
          if go && has FrameFlags.EndStream (f_flags f) then
            let* h := mget in
            match streams_ h !! sid with
            | None => mlift Undefined
            | Some stream =>
                modify (fun h => set_streams
                  (<[sid := mkStream (decodedHeaders stream) (received stream) false]> (streams_ h)) h)
            end
          else mret tt
    end.

(** One setting: the error it is, or nothing. *)
Definition settingError (id val : Z) : option Z :=
  if (id =? 0x2) && (1 <? val) then Some ErrorCode.ProtocolError
  else if (id =? 0x4) && (0x7fffffff <? val) then Some ErrorCode.FlowControlError
  else if (id =? 0x5) && ((val <? 16384) || (16777215 <? val)) then Some ErrorCode.ProtocolError
  else None.

Fixpoint settingsLoop (fuel : nat) (f : Frame) (i : Z) : M Session bool :=
  if i <? size (f_payload f) then
    match fuel with
    | O => mlift Diverge
    | Datatypes.S fuel' =>
        let* b0 := mlift (at_payload f i) in
        let* b1 := mlift (at_payload f (i + 1)) in
        let* b2 := mlift (at_payload f (i + 2)) in
        let* b3 := mlift (at_payload f (i + 3)) in
        let* b4 := mlift (at_payload f (i + 4)) in
        let* b5 := mlift (at_payload f (i + 5)) in
        let id := u16 (Z.lor (Z.shiftl b0 8) b1) in
        let val := u32 (Z.lor (Z.lor (Z.lor (Z.shiftl b2 24) (Z.shiftl b3 16)) (Z.shiftl b4 8)) b5) in
        match settingError id val with
        | Some code => let* _ := goAwayWith code in mret false
        | None =>
            let* _ := (if id =? 0x5 then modify (set_peerMax val) else mret tt) in
            settingsLoop fuel' f (i + 6)
        end
    end
  else mret true.

Definition handleSettings (f : Frame) : M Session unit :=
  if negb (f_streamId f =? 0) then goAwayWith ErrorCode.ProtocolError
  else if has FrameFlags.Ack (f_flags f) then
    if negb (size (f_payload f) =? 0) then goAwayWith ErrorCode.FrameSizeError else mret tt
  else if negb (size (f_payload f) mod 6 =? 0) then goAwayWith ErrorCode.FrameSizeError
  else
    let* ok := settingsLoop (length (f_payload f)) f 0 in
    if ok then sendSettingsAck else mret tt.

Definition handlePing (f : Frame) : M Session unit :=
  if negb (f_streamId f =? 0) then goAwayWith ErrorCode.ProtocolError
  else if negb (size (f_payload f) =? 8) then goAwayWith ErrorCode.FrameSizeError
  else if has FrameFlags.Ack (f_flags f) then mret tt
  else
    let* _ := wait in
    on_reader (writeFrame FrameType.Ping FrameFlags.Ack 0 (f_payload f)).

(** ** [run] *)

(** Four octets as the [uint32_t] whose top bit is cleared. *)
Definition payload31 (f : Frame) : M Session Z :=
  let* b0 := mlift (at_payload f 0) in
  let* b1 := mlift (at_payload f 1) in
  let* b2 := mlift (at_payload f 2) in
  let* b3 := mlift (at_payload f 3) in
  mret (Z.lor (Z.lor (Z.lor (Z.shiftl (Z.land b0 0x7f) 24) (Z.shiftl b1 16)) (Z.shiftl b2 8)) b3).

Definition failWith (errorCode : Z) : M Session bool :=
  let* _ := goAwayWith errorCode in mret true.

Definition onWindowUpdate (f : Frame) : M Session bool :=
  let* h := mget in
  if negb (size (f_payload f) =? 4) then failWith ErrorCode.FrameSizeError
  else if negb (f_streamId f =? 0) && bool_decide (streams_ h !! f_streamId f = None) then
    failWith ErrorCode.ProtocolError
  else
    let* inc := payload31 f in
    if inc =? 0 then failWith ErrorCode.ProtocolError else mret false.

Definition onRstStream (f : Frame) : M Session bool :=
  let* h := mget in
  if f_streamId f =? 0 then failWith ErrorCode.ProtocolError
  else if negb (size (f_payload f) =? 4) then failWith ErrorCode.FrameSizeError
  else if bool_decide (streams_ h !! f_streamId f = None) then failWith ErrorCode.ProtocolError
  else
    let* _ := modify (fun h => set_streams (delete (f_streamId f) (streams_ h)) h) in mret false.

Definition onPriority (f : Frame) : M Session bool :=
  if f_streamId f =? 0 then failWith ErrorCode.ProtocolError
  else if negb (size (f_payload f) =? 5) then
    let* _ := sendRstStream (f_streamId f) ErrorCode.FrameSizeError in mret false
  else
    let* dep := payload31 f in
    if dep =? f_streamId f then
      let* _ := sendRstStream (f_streamId f) ErrorCode.ProtocolError in mret false
    else mret false.

(** The switch; [true] stands for [frameError]. *)
Definition handleFrame (f : Frame) : M Session bool :=
  let handled (m : M Session unit) := let* _ := m in mret false in
  if f_type f =? FrameType.Headers then handled (handleHeaders f)
  else if f_type f =? FrameType.Continuation then handled (handleContinuation f)
  else if f_type f =? FrameType.Data then handled (handleData f)
  else if f_type f =? FrameType.Settings then handled (handleSettings f)
  else if f_type f =? FrameType.WindowUpdate then onWindowUpdate f
  else if f_type f =? FrameType.Ping then handled (handlePing f)
  else if f_type f =? FrameType.RstStream then onRstStream f
  else if f_type f =? FrameType.GoAway then handled (modify set_goAway)
  else if f_type f =? FrameType.Priority then onPriority f
  else if f_type f =? FrameType.PushPromise then failWith ErrorCode.ProtocolError
  else mret false.

(** One round on a frame; [false] leaves the loop. *)
Definition onFrame (f : Frame) : M Session bool :=
  let* h := mget in
  if maxFrameSize_ <? f_length f then
    let* _ := goAwayWith ErrorCode.FrameSizeError in mret false
  else if negb (continuationStreamId_ h =? 0) && negb (f_type f =? FrameType.Continuation) then
    let* _ := goAwayWith ErrorCode.ProtocolError in mret false
  else
    let* frameError := mtry (handleFrame f) (fun _ => mret true) in
    if frameError then let* _ := goAwayWith ErrorCode.InternalError in mret false
    else mret true.

Fixpoint runLoop (fuel : nat) : M Session unit := fun h =>
  if goAwaySent_ h then (Ok tt, h)
  else
    match fuel with
    | O => (Diverge, h)
    | Datatypes.S fuel' =>
        (let* _ := wait in
         let* maybeFrame := on_reader (readFrame maxFrameSize_) in
         match maybeFrame with
         | None => mret tt
         | Some f =>
             let* go := onFrame f in
             if go then runLoop fuel' else mret tt
         end) h
    end.

(** Every frame has nine octets. *)
Definition run : M Session unit :=
  let* preface := on_reader (readExact 24) in
  match preface with
  | None => mret tt
  | Some p =>
      if bool_decide (p <> kClientPreface) then mret tt
      else
        let* _ := on_reader (writeFrame FrameType.Settings 0 0 []) in
        fun h => runLoop (Datatypes.S (length (pending (reader_ h)))) h
  end.
End session.
