(* ===== verification/Http2SessionInv.v ===== *)
(** Invariants of the HTTP/2 server session: what holds after any input of any
    peer, whatever the request handlers do meanwhile. *)

From Stdlib Require Import ZArith Lia String Strings.Byte.
From stdpp Require Import base numbers option list gmap sorting.
From S2P Require Import Prelude CxxStd ByteStream OrdMap HttpTypes HttpParser HuffmanTable Huffman.
From S2P Require Import HpackTable Hpack Http2Frame Http2Session.
Open Scope Z_scope.

Create HintDb http2.

(** ** HPACK always ends *)

Lemma encodeStr_total (out s : bytes) : exists w, encodeStr out s = Ok w.
Proof.
  unfold encodeStr. destruct (packed_after (out ++ [x00]) s) as (p & coded & -> & _ & _). cbn [obind].
  destruct (_ <? _); eauto.
Qed.

Lemma encodeUntracked_total (name value out : bytes) : exists w, encodeUntracked name value out = Ok w.
Proof.
  unfold encodeUntracked. destruct (encodeStr_total (encodeInt out 0 6 64) name) as (w & ->). cbn [obind].
  apply encodeStr_total.
Qed.

Lemma encodeField_total (name value out : bytes) (t : HpackTable) :
  exists w t', encodeField name value out t = (Ok w, t').
Proof.
  unfold encodeField. rewrite mbind_get. destruct (0 <? find name value t); [by eexists _, _ |].
  set (i := if find name value t <? 0 then _ else 0).
  assert (Hname : exists o1, (if i =? 0 then mlift (encodeStr (encodeInt out i 6 64) name)
    else mret (encodeInt out i 6 64)) t = (Ok o1, t)).
  { destruct (i =? 0); [| by eexists]. destruct (encodeStr_total (encodeInt out i 6 64) name) as (w & H).
    exists w. unfold mlift. by rewrite H. }
  destruct Hname as (o1 & H1). rewrite (mbind_ok _ _ _ _ _ H1).
  destruct (encodeStr_total o1 value) as (o2 & H2). rewrite (mbind_lift _ _ _ _ H2), mbind_put.
  by eexists _, _.
Qed.

Lemma encodeResponse_total (resp : HttpResponse) (t : HpackTable) :
  exists w t', encodeResponse resp t = (Ok w, t').
Proof.
  unfold encodeResponse.
  destruct (encodeField_total (str ":status") (to_string (r_statusCode resp)) [] t) as (w1 & t1 & H1).
  rewrite (mbind_ok _ _ _ _ _ H1).
  assert (Hh : forall hs out u, exists w u', encodeHeaders hs out u = (Ok w, u')).
  { clear. induction hs as [| [k h] hs IH]; intros out u; [by eexists _, _ |]. cbn [encodeHeaders].
    destruct (skippedHeader h); [apply IH |].
    destruct (encodeField_total (name_ h) (value_ h) out u) as (w & u' & H).
    rewrite (mbind_ok _ _ _ _ _ H). apply IH. }
  destruct (Hh (r_headers resp) w1 t1) as (w2 & t2 & H2). rewrite (mbind_ok _ _ _ _ _ H2).
  assert (Hl : exists w3, (if 0 <? r_contentLength resp
    then encodeUntracked (str "content-length") (to_string (r_contentLength resp)) w2 else Ok w2) = Ok w3).
  { destruct (0 <? r_contentLength resp); [apply encodeUntracked_total | by eexists]. }
  destruct Hl as (w3 & H3). rewrite (mbind_lift _ _ _ _ H3).
  assert (Hc : forall cs out, exists w, encodeCookies cs out = Ok w).
  { clear. induction cs as [| c cs IH]; intros out; [by eexists |]. cbn [encodeCookies].
    destruct (encodeUntracked_total (str "set-cookie") (CookieCodec.toString c) out) as (w & ->). apply IH. }
  destruct (Hc (r_cookies resp) w3) as (w4 & H4). exists w4, t2. unfold mlift. by rewrite H4.
Qed.

Lemma decodeIntLoop_ends (fuel : nat) (data : bytes) (pos value m : Z) :
  size data - pos <= Z.of_nat fuel ->
  decodeIntLoop fuel data pos value m = Undefined
  \/ exists v p, decodeIntLoop fuel data pos value m = Ok (v, p) /\ pos <= p.
Proof.
  revert pos value m. induction fuel as [| fuel IH]; intros pos value m Hf; cbn [decodeIntLoop];
    (destruct (Z.ltb_spec pos (size data)); [| right; exists value, pos; split; [done | lia]]); [lia |].
  destruct (Z.lt_ge_cases pos 0) as [Hneg | Hpos]; [left; by rewrite at_outside by lia |].
  destruct (at_total data pos) as (b & -> & _); [lia |]. cbn [obind].
  destruct (64 <=? m); [by left |]. destruct (Z.land (b2z b) 128 =? 0).
  - right. eexists _, _. split; [done | lia].
  - destruct (IH (pos + 1) (u64 (value + u64 (Z.shiftl (Z.land (b2z b) 127) m))) (m + 7))
      as [-> | (v & p & -> & ?)]; [lia | by left |]. right. eexists _, _. split; [done | lia].
Qed.

Lemma decodeInt_ends (data : bytes) (pos p : Z) :
  decodeInt data pos p = Undefined \/ exists v q, decodeInt data pos p = Ok (v, q) /\ pos < q.
Proof.
  unfold decodeInt. destruct (Z.lt_ge_cases pos 0); [left; by rewrite at_outside by lia |].
  destruct (Z.lt_ge_cases pos (size data)); [| left; by rewrite at_outside by lia].
  destruct (at_total data pos) as (b & -> & _); [lia |]. cbn [obind].
  destruct (_ <? _); [right; eexists _, _; split; [done | lia] |].
  destruct (decodeIntLoop_ends (length data) data (pos + 1) (Z.land (b2z b) (2 ^ p - 1)) 0)
    as [-> | (v & q & -> & ?)]; [unfold size; lia | by left | right; eexists _, _; split; [done | lia]].
Qed.

(** The three ways a step of the decoder may end: not at all well, or past
    [pos]. *)
Definition advances {A : Type} (pos : Z) (o : outcome (A * Z)) : Prop :=
  match o with Ok (_, q) => pos < q | Diverge => False | _ => True end.

Lemma decodeStr_ends (data : bytes) (pos : Z) :
  size data < 2 ^ 64 -> advances pos (decodeStr data pos).
Proof.
  intros Hs. unfold decodeStr. destruct (size data <=? pos); [done |].
  destruct (at_ data pos) as [b | | |] eqn:Hat; cbn [obind]; [| done | done |].
  2: { unfold at_ in Hat. destruct (_ && _); [| done]. by destruct (data !! _). }
  destruct (decodeInt_ends data pos 7) as [-> | (v & q & -> & Hq)]; [done |]. cbn [obind].
  destruct (size data <? u64 (q + v)); [done |].
  assert (Hread : forall k : bytes -> outcome bytes,
    (forall d, match k d with Diverge => False | _ => True end) -> forall o, o <> Diverge ->
    match obind o (fun _ : unit => obind (readBytes data q v) k) with
    | Ok _ => pos < u64 (q + v) | Diverge => False | _ => True end).
  { intros k Hk o Ho. destruct o; cbn [obind]; try done. unfold readBytes.
    destruct (Z.leb_spec 0 q); [| done]. destruct (Z.leb_spec 0 v); [| done].
    destruct (Z.leb_spec (q + v) (size data)); [| done]. cbn [andb obind].
    specialize (Hk (take (Z.to_nat v) (drop (Z.to_nat q) data))).
    destruct (k _); try done. unfold u64. rewrite Z.mod_small; lia. }
  assert (Hres : forall n, reserve n <> Diverge) by (intros n; unfold reserve; by destruct (2 ^ 48 <=? n)).
  destruct (negb _).
  - pose proof (Hread huffmanDecode) as H.
    specialize (H ltac:(intros d; by destruct (huffmanDecode_sound d) as [-> | (x & -> & _)]) _ (Hres (u64 (v * 8) / 5))).
    destruct (obind (reserve _) _); done.
  - pose proof (Hread Ok ltac:(done) _ (Hres v)) as H.
    assert (Heq : (let! _ := reserve v in readBytes data q v)
      = (let! _ := reserve v in let! d := readBytes data q v in Ok d))
      by (destruct (reserve v); [| done ..]; cbn [obind]; by destruct (readBytes data q v)).
    rewrite Heq. destruct (obind (reserve v) _); done.
Qed.

Lemma advances_bind {A B : Type} (pos : Z) (o : outcome (A * Z)) (k : A * Z -> outcome (B * Z)) :
  advances pos o -> (forall a q, pos < q -> advances pos (k (a, q))) -> advances pos (obind o k).
Proof. destruct o as [[a q] | | |]; simpl; auto. Qed.

Lemma advances_mono {A : Type} (pos q : Z) (o : outcome (A * Z)) : pos <= q -> advances q o -> advances pos o.
Proof. destruct o as [[a r] | | |]; simpl; intros; (done || lia). Qed.

Lemma advances_int (data : bytes) (pos p : Z) : advances pos (decodeInt data pos p).
Proof. by destruct (decodeInt_ends data pos p) as [-> | (v & q & -> & ?)]. Qed.

Lemma get_ends (i : Z) (t : HpackTable) : get i t <> Diverge.
Proof.
  assert (Hat : forall es n, @at_ HeaderEntry es n <> Diverge) by (intros es n; unfold at_; by cases).
  unfold get. by cases.
Qed.

Lemma decodeLiteral_ends (data : bytes) (pos p : Z) (t : HpackTable) :
  size data < 2 ^ 64 -> advances pos (decodeLiteral data pos p t).
Proof.
  intros Hs. unfold decodeLiteral. apply advances_bind; [apply advances_int |]. intros i q Hq.
  apply advances_bind.
  - destruct (i =? 0); [eapply advances_mono, decodeStr_ends; [lia | done] |].
    pose proof (get_ends i t). by destruct (get i t).
  - intros name q2 Hq2. apply advances_bind; [eapply advances_mono, decodeStr_ends; [lia | done] | done].
Qed.

(** [keeps] of a step of the decoder: it ends, past [pos] if it returns. *)
Lemma keeps_advances {S A B : Type} (pos : Z) (o : outcome (A * Z)) (k : A * Z -> M S B) (s : S)
    (I : S -> Prop) (Q : B -> S -> Prop) :
  I s -> advances pos o -> (forall a q, pos < q -> keeps (k (a, q)) s I Q) -> keeps (mbind (mlift o) k) s I Q.
Proof.
  intros HI Ho Hk. apply keeps_lift; [done | by destruct o |]. intros [a q] ->. by apply Hk.
Qed.

Lemma keeps_throw {S A : Type} (e : exn) (s : S) (I : S -> Prop) (Q : A -> S -> Prop) :
  I s -> keeps (mthrow e) s I Q.
Proof. by repeat split. Qed.

Lemma applyHeader_ends (name value : bytes) (st : DecodedHeaders * bool) :
  applyHeader name value st <> Diverge.
Proof. unfold applyHeader. by cases. Qed.

Lemma decodeField_ends (data : bytes) (pos : Z) (st : DecodedHeaders * bool) (t : HpackTable) :
  size data < 2 ^ 64 ->
  keeps (decodeField data pos st) t (fun _ => True) (fun r _ => pos < snd r).
Proof.
  intros Hs. unfold decodeField.
  assert (Happly : forall t' name value p, pos < p ->
    keeps (S := HpackTable) (mbind (mlift (applyHeader name value st)) (fun st => mret (st, p))) t'
      (fun _ => True) (fun r _ => pos < snd r)).
  { intros t' name value p Hp. apply keeps_lift; [done | apply applyHeader_ends |]. intros st' _.
    by apply keeps_ret. }
  apply keeps_lift; [done | unfold at_; by cases |]. intros b _. apply keeps_get.
  destruct (negb _); [| destruct (_ =? 0x40); [| destruct (_ =? 0x20)]].
  - apply (keeps_advances pos); [done | apply advances_int |]. intros i q Hq.
    destruct (i =? 0); [by apply keeps_throw |].
    apply keeps_lift; [done | apply get_ends |]. intros e _. by apply Happly.
  - apply (keeps_advances pos); [done | by apply decodeLiteral_ends |]. intros [name value] q Hq.
    eapply keeps_bind; [by apply (keeps_ret tt _ (fun _ => True) (fun _ _ => True)) |].
    intros _ t' _ _. by apply Happly.
  - destruct (_ || _); [by apply keeps_throw |].
    apply (keeps_advances pos); [done | apply advances_int |]. intros n q Hq.
    destruct (_ <? _); [by apply keeps_throw |]. exact (keeps_ret (st, q) (setMaxSize n t) (fun _ => True) (fun r _ => pos < snd r) I Hq).
  - apply (keeps_advances pos); [done | by apply decodeLiteral_ends |]. intros [name value] q Hq.
    by apply Happly.
Qed.

Lemma decodeLoop_ends (fuel : nat) (data : bytes) (pos : Z) (st : DecodedHeaders * bool) (t : HpackTable) :
  size data < 2 ^ 64 -> size data - pos <= Z.of_nat fuel ->
  keeps (decodeLoop fuel data pos st) t (fun _ => True) (fun _ _ => True).
Proof.
  intros Hs. revert pos st t. induction fuel as [| fuel IH]; intros pos st t Hf; cbn [decodeLoop];
    (destruct (Z.ltb_spec pos (size data)); [| by apply keeps_ret]); [lia |].
  eapply keeps_bind; [by apply decodeField_ends |]. intros [st' q] t' _ Hq. cbn [snd] in Hq.
  apply IH. lia.
Qed.

Lemma decode_ends (data : bytes) (t : HpackTable) : size data < 2 ^ 64 -> fst (decode data t) <> Diverge.
Proof. intros Hs. apply decodeLoop_ends; [done | unfold size; lia]. Qed.

(** ** The frames of a client's octets *)

(** A CONTINUATION frame on stream 0. *)
Definition zeroContinuation (f : Frame) : bool := (f_type f =? FrameType.Continuation) && (f_streamId f =? 0).

(** The frames that [readFrame] finds in [p], one after the other. *)
Fixpoint framesIn (fuel : nat) (p : bytes) : list Frame :=
  match fuel with
  | O => []
  | Datatypes.S fuel' =>
      match readFrame maxFrameSize_ (Script [p] []) with
      | (Ok (Some f), s) => f :: framesIn fuel' (pending s)
      | _ => []
      end
  end.

Definition framesOf (p : bytes) : list Frame := framesIn (Datatypes.S (length p)) p.

Lemma readExact_same {S W : Type} `{!ByteStream S, !ByteStream W} (n : nat) (d : bytes) (s s' : S) (w : W) :
  pending w = pending s -> readExact n s = (Ok (Some d), s') ->
  exists w', readExact n w = (Ok (Some d), w') /\ pending w' = pending s'.
Proof.
  intros Hp Hs. destruct (readExact_spec n s) as (s1 & _ & H1). destruct (readExact_spec n w) as (w1 & _ & H2).
  rewrite Hp in H2. destruct (_ <? _)%nat; [by rewrite Hs in H1 |]. destruct H1 as [H1 Hp1], H2 as [H2 Hp2].
  rewrite Hs in H1. injection H1 as -> ->. exists w1. by rewrite Hp1, Hp2.
Qed.

(** What is read does not depend on the segments. *)
Lemma readFrame_same {S W : Type} `{!ByteStream S, !ByteStream W} (limit : Z) (f : Frame) (s s' : S) (w : W) :
  pending w = pending s -> readFrame limit s = (Ok (Some f), s') ->
  exists w', readFrame limit w = (Ok (Some f), w') /\ pending w' = pending s'.
Proof.
  intros Hp. unfold readFrame. unfold mbind at 1.
  destruct (readExact 9 s) as [[[hdr |] | | |] s1] eqn:H1; try done.
  destruct (readExact_same 9 hdr s s1 w Hp H1) as (w1 & Hw1 & Hp1). rewrite (mbind_ok _ _ _ _ _ Hw1).
  assert (Hat : forall (k : Z -> M S (option Frame)) (k' : Z -> M W (option Frame)) i,
    (forall v, k v s1 = (Ok (Some f), s') -> exists w', k' v w1 = (Ok (Some f), w') /\ pending w' = pending s') ->
    mbind (mlift (octet hdr i)) k s1 = (Ok (Some f), s') ->
    exists w', mbind (mlift (octet hdr i)) k' w1 = (Ok (Some f), w') /\ pending w' = pending s').
  { intros k k' i Hk. unfold mbind, mlift. destruct (octet hdr i); [by apply Hk | done ..]. }
  do 9 (apply Hat; intros ?). destruct (_ <? _); [intros [= <- <-]; by exists w1 |].
  destruct (_ <? _); [| intros [= <- <-]; by exists w1].
  unfold mbind at 1. destruct (readExact _ s1) as [[[d |] | | |] s2] eqn:H2; try done. intros [= <- <-].
  destruct (readExact_same _ d s1 s2 w1 Hp1 H2) as (w2 & Hw2 & Hp2). rewrite (mbind_ok _ _ _ _ _ Hw2). by exists w2.
Qed.

Lemma framesIn_cons {S : Type} `{!ByteStream S} (fuel : nat) (f : Frame) (s s' : S) :
  readFrame maxFrameSize_ s = (Ok (Some f), s') ->
  framesIn (Datatypes.S fuel) (pending s) = f :: framesIn fuel (pending s').
Proof.
  intros Hr. cbn [framesIn]. assert (Hp : pending (Script [pending s] []) = pending s) by apply app_nil_r.
  destruct (readFrame_same maxFrameSize_ f s s' (Script [pending s] []) Hp Hr) as (w & -> & ->). done.
Qed.

(** ** The invariant *)

(** [zero]: a CONTINUATION frame on stream 0 may have arrived. *)
Section invariant.
Context {S : Type} `{!ByteStream S} (zero : Prop).
Abbreviation Session := (Http2Session S).

(** The streams a handler was started for, without stream 0. *)
Definition dispatched (h : Session) : list Z := List.filter (fun sid => negb (sid =? 0)) (spawned_ h).

Record session_ok (h : Session) : Prop := {
  ok_sorted : StronglySorted Z.lt (dispatched h);
  ok_odd : Forall (fun sid => sid mod 2 = 1 /\ sid <= lastStreamId_ h) (dispatched h);
  ok_block : continuationStreamId_ h = 0
    \/ (continuationStreamId_ h mod 2 = 1 /\ continuationStreamId_ h <= lastStreamId_ h
        /\ Forall (fun sid => sid < continuationStreamId_ h) (dispatched h));
  ok_zero : 0 ∈ spawned_ h -> zero;
  ok_streams : forall sid, is_Some (streams_ h !! sid) -> sid ∈ spawned_ h;
  ok_chunks : forall sid st, streams_ h !! sid = Some st -> Forall (fun c => c <> []) (received st)
}.

(** The invariant with what is left to read and how much of a header block may
    have been collected. *)
Definition inv (p : bytes) (n : Z) (h : Session) : Prop :=
  session_ok h /\ pending (reader_ h) = p /\ size (headerBlockBuf_ h) <= n.

(** Two sessions that differ in what the handlers change. *)
Definition untouched (h h' : Session) : Prop :=
  pending (reader_ h') = pending (reader_ h) /\ continuationStreamId_ h' = continuationStreamId_ h
  /\ headerBlockBuf_ h' = headerBlockBuf_ h /\ lastStreamId_ h' = lastStreamId_ h
  /\ spawned_ h' = spawned_ h
  /\ forall sid st, streams_ h' !! sid = Some st -> streams_ h !! sid = Some st.

#[export] Instance untouched_preorder : PreOrder untouched.
Proof.
  split; [by intros h; repeat split |].
  intros h1 h2 h3 (A1 & A2 & A3 & A4 & A5 & A6) (B1 & B2 & B3 & B4 & B5 & B6).
  repeat split; [congruence .. |]. auto.
Qed.

Lemma session_ok_untouched (h h' : Session) : untouched h h' -> session_ok h -> session_ok h'.
Proof.
  intros (_ & Hc & _ & Hl & Hs & Hm) [H1 H2 H3 Hz H4 H5]. unfold dispatched in *.
  split; unfold dispatched; rewrite ?Hc, ?Hl, ?Hs; eauto. intros sid [st Hst]. eauto.
Qed.

Lemma inv_untouched (p : bytes) (n : Z) (h h' : Session) : untouched h h' -> inv p n h -> inv p n h'.
Proof.
  intros Hu (Hok & Hp & Hn). split; [by eapply session_ok_untouched |].
  destruct Hu as (-> & _ & -> & _). done.
Qed.

Lemma inv_more (p : bytes) (n m : Z) (h : Session) : n <= m -> inv p n h -> inv p m h.
Proof. intros ? (? & ? & ?). split; [done | split; [done | lia]]. Qed.

(** [m] never fails and only changes what the handlers change. *)
Definition quiet {A : Type} (m : M Session A) : Prop :=
  forall h, exists a h', m h = (Ok a, h') /\ untouched h h'.

Lemma quiet_ret {A : Type} (a : A) : quiet (mret a).
Proof. intros h. by eexists _, _. Qed.

Lemma quiet_bind {A B : Type} (m : M Session A) (k : A -> M Session B) :
  quiet m -> (forall a, quiet (k a)) -> quiet (mbind m k).
Proof.
  intros Hm Hk h. destruct (Hm h) as (a & h1 & H1 & Hu1). destruct (Hk a h1) as (b & h2 & H2 & Hu2).
  exists b, h2. split; [by rewrite (mbind_ok _ _ _ _ _ H1) | by trans h1].
Qed.

Lemma quiet_write (type flags sid : Z) (payload : bytes) : quiet (on_reader (writeFrame type flags sid payload)).
Proof.
  intros h. destruct (writeFrame_ok type flags sid payload (reader_ h)) as (r & Hr & _ & Hp).
  exists tt, (set_reader r h). unfold on_reader. rewrite Hr. by repeat split.
Qed.

Lemma quiet_modify (f : Session -> Session) : (forall h, untouched h (f h)) -> quiet (modify f).
Proof. intros Hf h. by exists tt, (f h). Qed.

Lemma quiet_happen (e : event) : quiet (happen e).
Proof.
  destruct e as [sid resp fin | sid data fin | sid code | sid]; cbn [happen]; [| apply quiet_write .. |].
  - unfold sendHeaders. apply quiet_bind; [| intros; apply quiet_write].
    intros h. destruct (encodeResponse_total resp (encoder_ h)) as (w & t & H).
    exists w, (set_encoder t h). unfold on_encoder. by rewrite H.
  - apply quiet_modify. intros h. repeat split. intros sid' v Hv. cbn in Hv.
    by apply lookup_delete_Some in Hv as [_ Hv].
Qed.

Lemma quiet_wait : quiet wait.
Proof.
  intros h. unfold wait. rewrite mbind_get. destruct (schedule_ h) as [| es rest]; [by eexists _, _ |].
  assert (Hq : quiet (let* _ := modify (set_schedule rest) in happenAll es)); [| apply Hq].
  apply quiet_bind; [by apply quiet_modify |]. intros _. clear.
  induction es as [| e es IH]; cbn [happenAll]; [apply quiet_ret |].
  by apply quiet_bind; [apply quiet_happen |].
Qed.

Lemma quiet_goAway (code : Z) : quiet (goAwayWith code).
Proof.
  intros h. unfold goAwayWith. rewrite mbind_get. revert h.
  assert (Hq : forall last, quiet (sendGoAway last code)); [| intros h; apply Hq].
  intros last. apply quiet_bind; [by apply quiet_modify |]. intros _.
  apply quiet_bind; [apply quiet_wait |]. intros _. apply quiet_write.
Qed.

Lemma quiet_rst (sid code : Z) : quiet (sendRstStream sid code).
Proof. apply quiet_bind; [apply quiet_wait |]. intros _. apply quiet_write. Qed.

Lemma quiet_ack : quiet sendSettingsAck.
Proof. apply quiet_bind; [apply quiet_wait |]. intros _. apply quiet_write. Qed.

Lemma quiet_keeps {A : Type} (m : M Session A) (p : bytes) (n : Z) (h : Session) :
  quiet m -> inv p n h -> keeps m h (inv p n) (fun _ _ => True).
Proof.
  intros Hm Hi. destruct (Hm h) as (a & h' & H & Hu). unfold keeps. rewrite H. cbn.
  by split; [eapply inv_untouched |].
Qed.

(** *** The handlers keep it *)

Lemma keeps_modify {B : Type} (f : Session -> Session) (k : unit -> M Session B) (h : Session)
    (I : Session -> Prop) (Q : B -> Session -> Prop) :
  keeps (k tt) (f h) I Q -> keeps (mbind (modify f) k) h I Q.
Proof. done. Qed.

Lemma octet_ends (f : Frame) (i : Z) : at_payload f i <> Diverge.
Proof. unfold at_payload, octet, at_. by cases. Qed.

(** Reading the payload changes nothing. *)
Lemma keeps_octet_bound {B : Type} (f : Frame) (i : Z) (k : Z -> M Session B) (h : Session)
    (I : Session -> Prop) (Q : B -> Session -> Prop) :
  I h -> (forall b, 0 <= b -> keeps (k b) h I Q) -> keeps (mbind (mlift (at_payload f i)) k) h I Q.
Proof.
  intros Hi Hk. apply keeps_lift; [done | apply octet_ends |]. intros b Hb. apply Hk.
  unfold at_payload, octet in Hb. destruct (at_ _ _); [| done ..]. injection Hb as <-. apply b2z_range.
Qed.

Lemma keeps_octet {B : Type} (f : Frame) (i : Z) (k : Z -> M Session B) (h : Session)
    (I : Session -> Prop) (Q : B -> Session -> Prop) :
  I h -> (forall b, keeps (k b) h I Q) -> keeps (mbind (mlift (at_payload f i)) k) h I Q.
Proof. intros HI Hk. apply keeps_octet_bound; auto. Qed.

Lemma quiet_bind_keeps {A B : Type} (m : M Session A) (k : A -> M Session B) (p : bytes) (n : Z) (h : Session)
    (Q : B -> Session -> Prop) :
  quiet m -> inv p n h -> (forall a h', inv p n h' -> keeps (k a) h' (inv p n) Q) ->
  keeps (mbind m k) h (inv p n) Q.
Proof. intros Hm Hi Hk. eapply keeps_bind; [by apply quiet_keeps |]. auto. Qed.

(** A stream that may be opened next. *)
Definition fresh (sid : Z) (h : Session) : Prop :=
  sid = 0 \/ (sid mod 2 = 1 /\ sid <= lastStreamId_ h /\ Forall (fun s => s < sid) (dispatched h)).

Lemma session_ok_block (sid : Z) (only : bool) (block : bytes) (h : Session) :
  session_ok h -> fresh sid h -> session_ok (set_block sid only block h).
Proof. intros [H1 H2 H3 Hz H4 H5] Hf. by split. Qed.

Lemma dispatched_add (sid : Z) (h : Session) :
  dispatched (add_spawned sid h) = dispatched h ++ (if sid =? 0 then [] else [sid]).
Proof.
  unfold dispatched. cbn [spawned_ add_spawned]. rewrite List.filter_app. cbn. by destruct (sid =? 0).
Qed.

Lemma session_ok_dispatch (sid : Z) (st : Http2Stream) (h : Session) :
  session_ok h -> fresh sid h -> (sid = 0 -> zero) -> continuationStreamId_ h = 0 -> received st = [] ->
  session_ok (add_spawned sid (set_streams (<[sid := st]> (streams_ h)) h)).
Proof.
  intros [H1 H2 _ Hz H4 H5] Hf Hsz Hc Hst. split; [| | by left | | |].
  - rewrite dispatched_add. apply StronglySorted_app. split; [| split; [done |]].
    + intros x y Hx Hy. destruct Hf as [-> | (_ & _ & Hlt)]; [by apply elem_of_nil in Hy |].
      rewrite Forall_forall in Hlt. destruct (sid =? 0); [by apply elem_of_nil in Hy |].
      apply list_elem_of_singleton in Hy as ->. by apply Hlt.
    + destruct (sid =? 0); repeat constructor.
  - rewrite dispatched_add. apply Forall_app. split; [done |].
    destruct (Z.eqb_spec sid 0); [done |]. destruct Hf as [? | (? & ? & _)]; [done |]. by repeat constructor.
  - cbn [spawned_ add_spawned set_streams]. intros [? | H0%list_elem_of_singleton]%elem_of_app; auto.
  - intros sid' Hs. cbn [streams_ add_spawned set_streams spawned_] in Hs |- *. apply elem_of_app.
    destruct (decide (sid' = sid)) as [-> | Hne]; [right; by apply list_elem_of_singleton |].
    left. rewrite lookup_insert_ne in Hs by done. by apply H4.
  - intros sid' st'. cbn [streams_ add_spawned set_streams].
    destruct (decide (sid' = sid)) as [-> | Hne]; [rewrite lookup_insert_eq | rewrite lookup_insert_ne by done; apply H5].
    intros [= <-]. by rewrite Hst.
Qed.

Lemma finaliseHeaders_keeps (p : bytes) (n : Z) (h : Session) :
  n < 2 ^ 64 -> inv p n h -> (continuationStreamId_ h = 0 -> zero) ->
  keeps finaliseHeaders h (inv p n) (fun _ _ => True).
Proof.
  intros Hn (Hok & Hp & Hs) Hzero. unfold finaliseHeaders. apply keeps_get, keeps_modify.
  pose proof (ok_block _ Hok) as Hfresh. pose proof (size_nonneg (headerBlockBuf_ h)).
  set (h1 := set_block 0 _ _ h).
  assert (H1 : session_ok h1) by (apply session_ok_block; [done | by left]).
  apply (keeps_bind _ _ _ _ (fun dh h' => session_ok h' /\ pending (reader_ h') = p /\
    (dh <> None -> fresh (continuationStreamId_ h) h' /\ continuationStreamId_ h' = 0))).
  - apply keeps_try.
    + unfold keeps, mbind, on_decoder.
      pose proof (decode_ends (headerBlockBuf_ h) (decoder_ h1) ltac:(lia)) as Hd.
      assert (Hi1 : forall t, inv p n (set_decoder t h1)).
      { intros t. eapply (inv_untouched _ _ h1); [by repeat split | by split]. }
      destruct (decode _ _) as [[dh | | |] t]; cbn [fst snd] in *; split; try apply Hi1; split; try done.
      intros a [= <-]. destruct (Hi1 t) as (? & ? & _). split; [done |]. split; [done |]. by intros _.
    + intros e h2 Hi2. pose proof Hi2 as (? & ? & _). apply keeps_ret; [done |]. by split; [| split].
  - intros [dh |] h2 Hi2 (H2 & Hp2 & Hf2); [| by apply quiet_keeps; [apply quiet_goAway |]].
    destruct (Hf2 ltac:(done)) as (Hf & Hc2). apply keeps_modify.
    assert (Hi3 : inv p n (set_block (continuationStreamId_ h2) (headersOnly_ h2) [] h2)).
    { split; [apply session_ok_block; [done | by left] | split; [done |]].
      cbn [headerBlockBuf_ set_block]. rewrite size_nil. lia. }
    destruct (existsb _ _); [by apply quiet_keeps; [apply quiet_rst |] |].
    destruct (_ || _); [by apply quiet_keeps; [apply quiet_rst |] |].
    apply keeps_modify. unfold modify, keeps. cbn [fst snd]. split; [| done].
    split; [| by destruct Hi3 as (_ & ? & ?)]. by apply session_ok_dispatch; [destruct Hi3 | | | |].
Qed.

Lemma take_drop_size {A : Type} (a b : nat) (l : list A) : size (take a (drop b l)) <= size l.
Proof. unfold size. rewrite length_take, length_drop. lia. Qed.

Lemma handleHeaders_keeps (f : Frame) (p : bytes) (n : Z) (h : Session) :
  n + size (f_payload f) < 2 ^ 64 -> 0 <= n -> inv p n h ->
  keeps (handleHeaders f) h (inv p (n + size (f_payload f))) (fun _ _ => True).
Proof.
  intros Hn Hn0 Hi. pose proof (size_nonneg (f_payload f)).
  apply (inv_more p n (n + size (f_payload f))) in Hi; [| lia].
  set (m := n + size (f_payload f)) in *. unfold handleHeaders. apply keeps_get.
  destruct (Z.eqb_spec (f_streamId f) 0); [by apply quiet_keeps; [apply quiet_goAway |] |].
  destruct (Z.eqb_spec (f_streamId f mod 2) 0); [by apply quiet_keeps; [apply quiet_goAway |] |].
  destruct (_ && _) eqn:Hclosed; [by apply quiet_keeps; [apply quiet_goAway |] |].
  destruct (bool_decide (is_Some _)) eqn:Hopen; [by apply quiet_keeps; [apply quiet_rst |] |].
  apply bool_decide_eq_false, eq_None_not_Some in Hopen.
  rewrite bool_decide_eq_true_2, andb_true_r in Hclosed by done. apply Z.leb_gt in Hclosed.
  apply keeps_modify. rewrite Z.max_r by lia. destruct Hi as (Hok & Hp & Hs).
  set (h1 := set_last (f_streamId f) h).
  assert (Hfresh : fresh (f_streamId f) h1).
  { right. split; [pose proof (Z.mod_pos_bound (f_streamId f) 2); lia |]. split; [by cbn |].
    eapply Forall_impl; [apply (ok_odd _ Hok) |]. cbn. intros; lia. }
  assert (Hi1 : inv p m h1).
  { split; [| by split]. destruct Hok as [A1 A2 A3 Az A4 A5]. split; [done | | | done | done | done].
    - eapply Forall_impl; [exact A2 |]. cbn. intros; lia.
    - destruct A3 as [A3 | (A3 & A3' & A3'')]; [by left | right]. split; [done |]. split; [cbn; lia | done]. }
  clearbody h1. clear dependent h. rename h1 into h.
  apply (keeps_bind _ _ _ _ (fun _ h' => h' = h)).
  { destruct (has _ _); [| by apply keeps_ret]. apply keeps_octet; [done |]. intros b. by apply keeps_ret. }
  intros [padLen offset] h' _ ->.
  apply (keeps_bind _ _ _ _ (fun r h' => r <> None -> h' = h)).
  { destruct (has _ _); [| by apply keeps_ret]. do 4 (apply keeps_octet; [done |]; intros ?).
    destruct (_ =? f_streamId f); [| by apply keeps_ret].
    apply quiet_bind_keeps; [apply quiet_rst | done |]. intros _ h' Hi'. by apply keeps_ret. }
  intros [off |] h' Hi' Hh'; [| by apply keeps_ret]. rewrite (Hh' ltac:(done)). clear h' Hi' Hh'.
  destruct (_ <? _); [by apply quiet_keeps; [apply quiet_goAway |] |].
  apply keeps_modify.
  assert (Hi2 : forall only a b,
    inv p m (set_block (f_streamId f) only (take a (drop b (f_payload f))) h)).
  { intros only a b. destruct Hi1 as (A & B & _). split; [by apply session_ok_block |]. split; [done |].
    cbn [headerBlockBuf_ set_block]. pose proof (take_drop_size a b (f_payload f)). lia. }
  destruct (has _ _); [| by apply keeps_ret]. apply finaliseHeaders_keeps; [done | done |]. by intros ?.
Qed.

Lemma handleContinuation_keeps (f : Frame) (p : bytes) (n : Z) (h : Session) :
  n + size (f_payload f) < 2 ^ 64 -> inv p n h -> (f_streamId f = 0 -> zero) ->
  keeps (handleContinuation f) h (inv p (n + size (f_payload f))) (fun _ _ => True).
Proof.
  intros Hn Hi Hzero. pose proof (size_nonneg (f_payload f)). unfold handleContinuation. apply keeps_get.
  destruct (bool_decide _) eqn:Hsame; [apply quiet_keeps; [apply quiet_goAway | eapply inv_more; [| done]; lia] |].
  apply keeps_modify. destruct Hi as (Hok & Hp & Hs).
  assert (Hi2 : inv p (n + size (f_payload f))
    (set_block (continuationStreamId_ h) (headersOnly_ h) (headerBlockBuf_ h ++ f_payload f) h)).
  { split; [by destruct Hok; split |]. split; [done |]. cbn [headerBlockBuf_ set_block]. rewrite size_app. lia. }
  apply bool_decide_eq_false, dec_stable in Hsame.
  destruct (has _ _); [| by apply keeps_ret]. apply finaliseHeaders_keeps; [done | done |]. cbn. intros H0. apply Hzero. congruence.
Qed.

Lemma inv_update (sid : Z) (st st' : Http2Stream) (p : bytes) (n : Z) (h : Session) :
  streams_ h !! sid = Some st -> (Forall (fun c => c <> []) (received st) -> Forall (fun c => c <> []) (received st')) ->
  inv p n h -> inv p n (set_streams (<[sid := st']> (streams_ h)) h).
Proof.
  intros Hst Hch ([A1 A2 A3 Az A4 A5] & Hrest). split; [| exact Hrest]. split; [done .. | |].
  - intros sid' Hs. cbn in Hs. destruct (decide (sid' = sid)) as [-> | Hne]; [by apply A4; eexists |].
    rewrite lookup_insert_ne in Hs by done. by apply A4.
  - intros sid' st0. cbn. destruct (decide (sid' = sid)) as [-> | Hne].
    + rewrite lookup_insert_eq. intros [= <-]. by eapply Hch, A5.
    + rewrite lookup_insert_ne by done. apply A5.
Qed.

Lemma handleData_keeps (f : Frame) (p : bytes) (n : Z) (h : Session) :
  inv p n h -> keeps (handleData f) h (inv p n) (fun _ _ => True).
Proof.
  intros Hi. unfold handleData. apply keeps_get.
  destruct (_ =? 0); [by apply quiet_keeps; [apply quiet_goAway |] |].
  destruct (streams_ h !! f_streamId f) as [st |] eqn:Hst.
  2: { destruct (_ <=? _); apply quiet_keeps; [apply quiet_rst | done | apply quiet_goAway | done]. }
  apply (keeps_bind _ _ _ _ (fun r h' => h' = h /\ 0 <= fst r /\ 0 <= snd r)).
  { destruct (has _ _); [| by apply keeps_ret]. apply keeps_octet_bound; [done |]. intros b Hb. by apply keeps_ret. }
  intros [padLen offset] h' _ (-> & Hpad & Hoff). cbn [fst snd] in *.
  destruct (_ <? _); [by apply quiet_keeps; [apply quiet_goAway |] |].
  apply (keeps_bind _ _ _ _ (fun _ _ => True)).
  - destruct (Z.ltb_spec 0 (size (f_payload f) - offset - padLen)) as [Hlen |]; [| by apply keeps_ret]. destruct (negb (open_ st)).
    + apply quiet_bind_keeps; [apply quiet_rst | done |]. intros _ h' Hi'. by apply keeps_ret.
    + apply keeps_modify. apply quiet_bind_keeps; [apply quiet_wait | eapply inv_update; [done | | done] |].
      { cbn [received]. intros Hch. apply Forall_app. split; [done |]. repeat constructor. intros Hnil.
        apply (f_equal length) in Hnil. unfold size in *. rewrite length_take, length_drop in Hnil. simpl in Hnil. lia. }
      intros _ h1 Hi1. do 2 (apply quiet_bind_keeps; [apply quiet_write | done |]; intros _ ? ?).
      by apply keeps_ret.
  - intros go h1 Hi1 _. destruct (go && _); [| by apply keeps_ret]. apply keeps_get.
    destruct (streams_ h1 !! f_streamId f) as [st1 |] eqn:Hst1; [| by split].
    split; [by eapply inv_update; [done | |] | done].
Qed.

Lemma settingsLoop_keeps (fuel : nat) (f : Frame) (i : Z) (p : bytes) (n : Z) (h : Session) :
  size (f_payload f) - i <= Z.of_nat fuel -> inv p n h ->
  keeps (settingsLoop fuel f i) h (inv p n) (fun _ _ => True).
Proof.
  revert i h. induction fuel as [| fuel IH]; intros i h Hf Hi; cbn [settingsLoop];
    (destruct (Z.ltb_spec i (size (f_payload f))); [| by apply keeps_ret]); [lia |].
  do 6 (apply keeps_octet; [done |]; intros ?).
  destruct (settingError _ _).
  - apply quiet_bind_keeps; [apply quiet_goAway | done |]. intros _ h1 Hi1. by apply keeps_ret.
  - apply (keeps_bind _ _ _ _ (fun _ _ => True)).
    + destruct (_ =? 5); [| by apply keeps_ret]. split; [| done]. eapply inv_untouched; [| exact Hi]. by repeat split.
    + intros _ h1 Hi1 _. apply IH; [lia | done].
Qed.

Lemma handleSettings_keeps (f : Frame) (p : bytes) (n : Z) (h : Session) :
  inv p n h -> keeps (handleSettings f) h (inv p n) (fun _ _ => True).
Proof.
  intros Hi. unfold handleSettings.
  destruct (negb _); [by apply quiet_keeps; [apply quiet_goAway |] |].
  destruct (has _ _); [destruct (negb _); [by apply quiet_keeps; [apply quiet_goAway |] | by apply keeps_ret] |].
  destruct (negb _); [by apply quiet_keeps; [apply quiet_goAway |] |].
  eapply keeps_bind; [apply settingsLoop_keeps; [unfold size; lia | done] |].
  intros ok h1 Hi1 _. destruct ok; [by apply quiet_keeps; [apply quiet_ack |] | by apply keeps_ret].
Qed.

Lemma handlePing_keeps (f : Frame) (p : bytes) (n : Z) (h : Session) :
  inv p n h -> keeps (handlePing f) h (inv p n) (fun _ _ => True).
Proof.
  intros Hi. apply quiet_keeps; [| done]. unfold handlePing.
  destruct (negb _); [apply quiet_goAway |]. destruct (negb _); [apply quiet_goAway |].
  destruct (has _ _); [apply quiet_ret |]. apply quiet_bind; [apply quiet_wait |]. intros _. apply quiet_write.
Qed.

Lemma quiet_fail (code : Z) : quiet (failWith code).
Proof. apply quiet_bind; [apply quiet_goAway |]. intros _. apply quiet_ret. Qed.

Lemma payload31_keeps (f : Frame) (k : Z -> M Session bool) (p : bytes) (n : Z) (h : Session) :
  inv p n h -> (forall v, keeps (k v) h (inv p n) (fun _ _ => True)) ->
  keeps (mbind (payload31 f) k) h (inv p n) (fun _ _ => True).
Proof.
  intros Hi Hk. apply (keeps_bind _ _ _ _ (fun _ h' => h' = h)); [| by intros v h' _ ->].
  unfold payload31. do 4 (apply keeps_octet; [done |]; intros ?). by apply keeps_ret.
Qed.

Lemma onWindowUpdate_keeps (f : Frame) (p : bytes) (n : Z) (h : Session) :
  inv p n h -> keeps (onWindowUpdate f) h (inv p n) (fun _ _ => True).
Proof.
  intros Hi. unfold onWindowUpdate. apply keeps_get.
  destruct (negb _); [by apply quiet_keeps; [apply quiet_fail |] |].
  destruct (_ && _); [by apply quiet_keeps; [apply quiet_fail |] |].
  apply payload31_keeps; [done |]. intros v.
  destruct (v =? 0); [by apply quiet_keeps; [apply quiet_fail |] | by apply keeps_ret].
Qed.

Lemma onRstStream_keeps (f : Frame) (p : bytes) (n : Z) (h : Session) :
  inv p n h -> keeps (onRstStream f) h (inv p n) (fun _ _ => True).
Proof.
  intros Hi. unfold onRstStream. apply keeps_get.
  destruct (_ =? 0); [by apply quiet_keeps; [apply quiet_fail |] |].
  destruct (negb _); [by apply quiet_keeps; [apply quiet_fail |] |].
  destruct (bool_decide _); [by apply quiet_keeps; [apply quiet_fail |] |].
  apply keeps_modify, keeps_ret; [| done]. eapply inv_untouched; [| done].
  repeat split. intros sid v Hv. cbn in Hv. by apply lookup_delete_Some in Hv as [_ Hv].
Qed.

Lemma onPriority_keeps (f : Frame) (p : bytes) (n : Z) (h : Session) :
  inv p n h -> keeps (onPriority f) h (inv p n) (fun _ _ => True).
Proof.
  intros Hi. unfold onPriority.
  assert (Hrst : forall code, keeps (S := Session)
    (let* _ := sendRstStream (f_streamId f) code in mret false) h (inv p n) (fun _ _ => True)).
  { intros code. apply quiet_keeps; [| done]. apply quiet_bind; [apply quiet_rst | intros; apply quiet_ret]. }
  destruct (_ =? 0); [by apply quiet_keeps; [apply quiet_fail |] |].
  destruct (negb _); [apply Hrst |]. apply payload31_keeps; [done |]. intros v.
  destruct (_ =? _); [apply Hrst | by apply keeps_ret].
Qed.

Lemma handleFrame_keeps (f : Frame) (p : bytes) (n : Z) (h : Session) :
  n + size (f_payload f) < 2 ^ 64 -> 0 <= n -> inv p n h -> (zeroContinuation f = true -> zero) ->
  keeps (handleFrame f) h (inv p (n + size (f_payload f))) (fun _ _ => True).
Proof.
  intros Hn Hn0 Hi Hzero. pose proof (size_nonneg (f_payload f)). unfold zeroContinuation in Hzero.
  assert (Hi' : inv p (n + size (f_payload f)) h) by (eapply inv_more; [| done]; lia).
  assert (Hm : forall m : M Session unit,
    keeps m h (inv p (n + size (f_payload f))) (fun _ _ => True) ->
    keeps (let* _ := m in mret false) h (inv p (n + size (f_payload f))) (fun _ _ => True)).
  { intros m Hm. eapply keeps_bind; [exact Hm |]. intros _ h1 Hi1 _. by apply keeps_ret. }
  unfold handleFrame.
  destruct (_ =? FrameType.Headers); [by apply Hm, handleHeaders_keeps |].
  destruct (_ =? FrameType.Continuation); [apply Hm, handleContinuation_keeps; [done | done |]; intros H0; apply Hzero; by rewrite H0 |].
  destruct (_ =? FrameType.Data); [by apply Hm, handleData_keeps |].
  destruct (_ =? FrameType.Settings); [by apply Hm, handleSettings_keeps |].
  destruct (_ =? FrameType.WindowUpdate); [by apply onWindowUpdate_keeps |].
  destruct (_ =? FrameType.Ping); [by apply Hm, handlePing_keeps |].
  destruct (_ =? FrameType.RstStream); [by apply onRstStream_keeps |].
  destruct (_ =? FrameType.GoAway); [by apply Hm, quiet_keeps; [apply quiet_modify |] |].
  destruct (_ =? FrameType.Priority); [by apply onPriority_keeps |].
  destruct (_ =? FrameType.PushPromise); [by apply quiet_keeps; [apply quiet_fail |] | by apply keeps_ret].
Qed.

Lemma onFrame_keeps (f : Frame) (p : bytes) (n : Z) (h : Session) :
  n + size (f_payload f) < 2 ^ 64 -> 0 <= n -> inv p n h -> (zeroContinuation f = true -> zero) ->
  keeps (onFrame f) h (inv p (n + size (f_payload f))) (fun _ _ => True).
Proof.
  intros Hn Hn0 Hi Hzero. pose proof (size_nonneg (f_payload f)). unfold onFrame. apply keeps_get.
  assert (Hfail : forall code h1, inv p (n + size (f_payload f)) h1 -> keeps (S := Session)
    (let* _ := goAwayWith code in mret false) h1 (inv p (n + size (f_payload f))) (fun _ _ => True)).
  { intros code h1 Hi1. apply quiet_keeps; [| done]. apply quiet_bind; [apply quiet_goAway | intros; apply quiet_ret]. }
  assert (Hi' : inv p (n + size (f_payload f)) h) by (eapply inv_more; [| done]; lia).
  destruct (_ <? _); [by apply Hfail |]. destruct (_ && _); [by apply Hfail |].
  eapply keeps_bind.
  - apply keeps_try; [by apply handleFrame_keeps |]. intros e h1 Hi1. by apply keeps_ret.
  - intros err h1 Hi1 _. destruct err; [by apply Hfail | by apply keeps_ret].
Qed.

(** *** The loop *)

(** Reading a frame never fails and takes at least nine octets. *)
Lemma readFrame_ends (limit : Z) (s : S) :
  exists r s', readFrame limit s = (Ok r, s')
    /\ forall f, r = Some f -> 9 + size (f_payload f) + size (pending s') <= size (pending s).
Proof.
  unfold readFrame. destruct (readExact_spec 9 s) as (s1 & _ & H1).
  destruct (Nat.ltb_spec (length (pending s)) 9); [by exists None, s1; rewrite (mbind_ok _ _ _ _ _ H1) |].
  destruct H1 as [H1 Hp1]. rewrite (mbind_ok _ _ _ _ _ H1).
  assert (Hlen : length (take 9 (pending s)) = 9%nat) by (rewrite length_take; lia).
  assert (Hleft : size (pending s1) + 9 = size (pending s)) by (rewrite Hp1; unfold size; rewrite length_drop; lia).
  clear H1. destruct (take 9 (pending s)) as [| b0 [| b1 [| b2 [| b3 [| b4 [| b5 [| b6 [| b7 [| b8 [|]]]]]]]]]];
    try done. clear Hlen. repeat (erewrite mbind_lift by reflexivity).
  match goal with |- context [limit <? ?x] => set (len := x) end.
  destruct (limit <? len); [by eexists _, s1; split; [done |]; intros ? [= <-]; cbn [f_payload]; rewrite size_nil; lia |].
  destruct (Z.ltb_spec 0 len); [| by eexists _, s1; split; [done |]; intros ? [= <-]; cbn [f_payload]; rewrite size_nil; lia].
  destruct (readExact_spec (Z.to_nat len) s1) as (s2 & _ & H2).
  destruct (Nat.ltb_spec (length (pending s1)) (Z.to_nat len)); [by exists None, s2; rewrite (mbind_ok _ _ _ _ _ H2) |].
  destruct H2 as [H2 Hp2]. rewrite (mbind_ok _ _ _ _ _ H2). eexists _, s2. split; [done |].
  intros ? [= <-]. cbn [f_payload]. rewrite Hp2. unfold size in *. rewrite length_take, length_drop. lia.
Qed.

Lemma keeps_step {A B : Type} (m : M Session A) (k : A -> M Session B) (a : A) (h h' : Session)
    (I : Session -> Prop) (Q : B -> Session -> Prop) :
  m h = (Ok a, h') -> keeps (k a) h' I Q -> keeps (mbind m k) h I Q.
Proof. intros Hm Hk. unfold keeps. by rewrite (mbind_ok _ _ _ _ _ Hm). Qed.

Lemma keeps_ok {A : Type} (m : M Session A) (p : bytes) (n : Z) (h : Session) :
  keeps m h (inv p n) (fun _ _ => True) -> keeps m h session_ok (fun _ => inv p n).
Proof. intros (Hi & Hd & _). split; [by destruct Hi | by split]. Qed.

Lemma runLoop_keeps (fuel : nat) (p : bytes) (n : Z) (h : Session) :
  inv p n h -> 0 <= n -> n + size p < 2 ^ 64 -> size p < Z.of_nat fuel ->
  Forall (fun f => zeroContinuation f = true -> zero) (framesIn fuel p) ->
  keeps (runLoop fuel) h session_ok (fun _ _ => True).
Proof.
  revert p n h. induction fuel as [| fuel IH]; intros p n h Hi Hn0 Hn Hf Hz; cbn [runLoop];
    pose proof (size_nonneg p); [lia |].
  assert (Hstep : keeps (let* _ := wait in let* maybeFrame := on_reader (readFrame maxFrameSize_) in
    match maybeFrame with
    | None => mret tt
    | Some f => let* go := onFrame f in if go then runLoop fuel else mret tt
    end) h session_ok (fun _ _ => True)).
  { eapply keeps_bind; [by apply keeps_ok, quiet_keeps; [apply quiet_wait |] |]. intros [] h1 _ Hi1.
    destruct (readFrame_ends maxFrameSize_ (reader_ h1)) as (r & s & Hr & Hsize).
    assert (Hi2 : inv (pending s) n (set_reader s h1)).
    { destruct Hi1 as (Hok & Hp & Hb). split; [by destruct Hok; split |]. by split. }
    assert (Hon : on_reader (readFrame maxFrameSize_) h1 = (Ok r, set_reader s h1))
      by (unfold on_reader; by rewrite Hr).
    assert (Hp1 : pending (reader_ h1) = p) by (by destruct Hi1 as (_ & ? & _)).
    rewrite <- Hp1 in Hz. rewrite Hp1 in Hsize.
    apply (keeps_step _ _ _ _ _ _ _ Hon).
    destruct r as [f |]; [| by apply keeps_ret; [destruct Hi2 |]].
    rewrite (framesIn_cons fuel f _ _ Hr) in Hz. apply Forall_cons in Hz as [Hzf Hz].
    specialize (Hsize f eq_refl). pose proof (size_nonneg (f_payload f)). pose proof (size_nonneg (pending s)).
    eapply (keeps_bind (onFrame f) (fun go => if go then runLoop fuel else mret tt) _ _ _ (fun _ _ => True));
      [apply keeps_ok, onFrame_keeps; [| | exact Hi2 | exact Hzf]; lia |].
    intros go h3 Hok3 Hi3. destruct go; [| by apply keeps_ret].
    eapply IH; [done | lia | lia | lia | exact Hz]. }
  destruct (goAwaySent_ h) eqn:Hgo; unfold keeps; cbn [runLoop]; rewrite Hgo;
    [by split; [destruct Hi |] | exact Hstep].
Qed.

Lemma run_keeps (stream : S) (schedule : list (list event)) :
  size (pending stream) < 2 ^ 64 ->
  Forall (fun f => zeroContinuation f = true -> zero) (framesOf (drop 24 (pending stream))) ->
  keeps run (newSession stream schedule) session_ok (fun _ _ => True).
Proof.
  intros Hsize Hz. set (h := newSession stream schedule).
  assert (Hok : forall s, session_ok (set_reader s h)).
  { intros s. split; [constructor | constructor | by left | by intros ?%elem_of_nil | |]; intros sid.
    - intros [st Hs]. cbn in Hs. by rewrite lookup_empty in Hs.
    - intros st Hs. cbn in Hs. by rewrite lookup_empty in Hs. }
  unfold run. destruct (readExact_spec 24 stream) as (s1 & _ & H1).
  destruct (Nat.ltb_spec (length (pending stream)) 24).
  - assert (Hon : on_reader (readExact 24) h = (Ok None, set_reader s1 h)) by (unfold on_reader; change (reader_ h) with stream; by rewrite H1).
    apply (keeps_step _ _ _ _ _ _ _ Hon). by apply keeps_ret.
  - destruct H1 as [H1 Hp1].
    assert (Hon : on_reader (readExact 24) h = (Ok (Some (take 24 (pending stream))), set_reader s1 h))
      by (unfold on_reader; change (reader_ h) with stream; by rewrite H1).
    apply (keeps_step _ _ _ _ _ _ _ Hon).
    destruct (bool_decide _); [by apply keeps_ret |].
    assert (Hi1 : inv (pending s1) 0 (set_reader s1 h)) by (by split).
    eapply (keeps_bind (on_reader _) (fun _ h => runLoop _ h) _ _ _ (fun _ _ => True));
      [apply keeps_ok, quiet_keeps; [apply quiet_write | exact Hi1] |].
    intros [] h2 _ Hi2. eapply runLoop_keeps; [exact Hi2 | lia | | |].
    + rewrite Hp1. unfold size in *. rewrite length_drop. lia.
    + destruct Hi2 as (_ & -> & _). unfold size. lia.
    + destruct Hi2 as (_ & -> & _). rewrite Hp1. exact Hz.
Qed.
End invariant.

#[export] Hint Resolve quiet_ret quiet_write quiet_wait quiet_goAway quiet_rst quiet_ack quiet_keeps : http2.

(** ** Properties *)

(** C14: the session serves every request once.  Whatever a client sends,
    however it arrives, and whatever the handlers of the requests do while the
    session waits, [run] ends; a stream is in the session's map only when it was
    handed to a handler; and no empty chunk is in the pipe a request reads its body
    from, where it would look like the body's end.  When no CONTINUATION frame on
    stream 0 is among the frames of what the client sends, the streams handed to
    handlers have odd, strictly increasing identifiers, so that none of them is
    served twice. *)
Theorem h2_session_dispatch {S : Type} `{!ByteStream S} (stream : S) (schedule : list (list event)) :
  size (pending stream) < 2 ^ 64 ->
  let '(o, h) := run (newSession stream schedule) in
  o <> Diverge
  /\ (forall sid, is_Some (streams_ h !! sid) -> sid ∈ spawned_ h)
  /\ (forall sid st, streams_ h !! sid = Some st -> Forall (fun c => c <> []) (received st))
  /\ (Forall (fun f => zeroContinuation f = false) (framesOf (drop 24 (pending stream))) ->
      StronglySorted Z.lt (spawned_ h) /\ Forall (fun sid => sid mod 2 = 1) (spawned_ h)).
Proof.
  intros Hsize.
  destruct (run_keeps (Exists (fun f => zeroContinuation f = true) (framesOf (drop 24 (pending stream)))) stream schedule Hsize)
    as (Hok & Hd & _).
  { apply Forall_forall. intros f Hin Hf. apply Exists_exists. eauto. }
  destruct (run _) as [o h]. cbn in *. destruct Hok as [H1 H2 _ Hz H4 H5].
  split; [done |]. split; [done |]. split; [done |]. intros Hno.
  assert (Hn0 : 0 ∉ spawned_ h).
  { intros (f & Hin & Hf)%Hz%Exists_exists. rewrite Forall_forall in Hno. rewrite (Hno f Hin) in Hf. done. }
  assert (Heq : dispatched h = spawned_ h).
  { unfold dispatched. clear -Hn0. induction (spawned_ h) as [| x l IH]; [done |]. cbn.
    apply not_elem_of_cons in Hn0 as [Hx Hl]. destruct (Z.eqb_spec x 0); [by subst | cbn; by rewrite (IH Hl)]. }
  rewrite Heq in *. split; [done |]. eapply Forall_impl; [exact H2 |]. by intros ? [? _].
Qed.

(** Two requests, one without and one with a body, the first of which ends while
    the session waits. *)
Definition two_requests : script :=
  Script [kClientPreface; frameOctets FrameType.Headers (Z.lor FrameFlags.EndHeaders FrameFlags.EndStream) 1 [x82; x84; x86];
          frameOctets FrameType.Headers FrameFlags.EndHeaders 3 [x83; x84; x86];
          frameOctets FrameType.Data 0 3 (str "ab")] [].

Lemma h2_session_dispatch_witness :
  let '(o, h) := run (newSession two_requests [[]; [Finished 1]]) in
  o <> Diverge /\ spawned_ h = [1; 3] /\ StronglySorted Z.lt (spawned_ h)
  /\ Forall (fun sid => sid mod 2 = 1) (spawned_ h) /\ received <$> streams_ h !! 3 = Some [str "ab"].
Proof.
  assert (Hsize : size (pending two_requests) < 2 ^ 64) by (vm_compute; reflexivity).
  pose proof (h2_session_dispatch two_requests [[]; [Finished 1]] Hsize) as H.
  assert (Hs : spawned_ (snd (run (newSession two_requests [[]; [Finished 1]]))) = [1; 3]) by (vm_compute; reflexivity).
  assert (Hr : received <$> streams_ (snd (run (newSession two_requests [[]; [Finished 1]]))) !! 3 = Some [str "ab"])
    by (vm_compute; reflexivity).
  destruct (run _) as [o h]. cbn [snd] in Hs, Hr. destruct H as (Hd & _ & _ & H).
  destruct H as [H1 H2]; [| exact (conj Hd (conj Hs (conj H1 (conj H2 Hr))))].
  vm_compute. by repeat constructor.
Defined.
