(* ===== verification/Http2SessionSpec.v ===== *)
(** What the frames of a request do to an HTTP/2 server session: header blocks
    in several frames, and the octets of the body. *)

From Stdlib Require Import ZArith Lia String Strings.Byte.
From stdpp Require Import base numbers option list gmap.
From S2P Require Import Prelude CxxStd ByteStream OrdMap HttpTypes HttpParser Endian.
From S2P Require Import HpackTable Hpack Http2Frame Http2Session Http2SessionInv.
Open Scope Z_scope.

(** ** Header blocks in several frames *)

Section blocks.
Context {S : Type} `{!ByteStream S}.
Abbreviation Session := (Http2Session S).

(** The rounds of the loop on frames already read. *)
Fixpoint feed (fs : list Frame) : M Session bool :=
  match fs with
  | [] => mret true
  | f :: fs' => let* go := onFrame f in if go then feed fs' else mret false
  end.

Definition headersFlags (last fin : bool) : Z :=
  Z.lor (if last then FrameFlags.EndHeaders else 0) (flagsOf fin).

Definition headersFrame (sid : Z) (last fin : bool) (block : bytes) : Frame :=
  mkFrame (size block) FrameType.Headers (headersFlags last fin) sid block.

(** CONTINUATION frames, the last one marked. *)
Fixpoint continuations (sid : Z) (bs : list bytes) : list Frame :=
  match bs with
  | [] => []
  | b :: bs' =>
      mkFrame (size b) FrameType.Continuation (match bs' with [] => FrameFlags.EndHeaders | _ => 0 end) sid b
        :: continuations sid bs'
  end.

(** A header block cut into pieces. *)
Definition blockFrames (sid : Z) (fin : bool) (b : bytes) (bs : list bytes) : list Frame :=
  headersFrame sid (bool_decide (bs = [])) fin b :: continuations sid bs.

(** A stream the client may open. *)
Definition openable (sid : Z) (h : Session) : Prop :=
  sid mod 2 = 1 /\ lastStreamId_ h < sid /\ streams_ h !! sid = None.

(** The end of a round: [frameError] after [m]. *)
Definition guarded (m : M Session unit) : M Session bool :=
  let* frameError := mtry (let* _ := m in mret false) (fun _ => mret true) in
  if frameError then let* _ := goAwayWith ErrorCode.InternalError in mret false
  else mret true.

Lemma onFrame_headers (sid : Z) (last fin : bool) (b : bytes) (h : Session) :
  openable sid h -> continuationStreamId_ h = 0 -> size b <= 16384 ->
  onFrame (headersFrame sid last fin b) h
  = guarded (if last then finaliseHeaders else mret tt) (set_block sid fin b (set_last sid h)).
Proof.
  intros (Hodd & Hlast & Hnone) Hc Hb. unfold onFrame, guarded. rewrite mbind_get.
  cbn [f_length headersFrame]. unfold maxFrameSize_.
  destruct (Z.ltb_spec 16384 (size b)); [lia |]. rewrite Hc. cbn [Z.eqb negb andb].
  unfold mbind at 1. unfold mbind at 3. unfold mtry at 1. unfold mtry at 1.
  replace (handleFrame (headersFrame sid last fin b) h)
    with ((let* _ := (if last then finaliseHeaders else mret tt) in mret false)
            (set_block sid fin b (set_last sid h))); [done |].
  unfold handleFrame. cbn [f_type headersFrame]. rewrite Z.eqb_refl.
  unfold mbind at 1 2. cut (handleHeaders (headersFrame sid last fin b) h
    = (if last then finaliseHeaders else mret tt) (set_block sid fin b (set_last sid h))); [by intros -> |].
  unfold handleHeaders. rewrite mbind_get. cbn [f_streamId f_payload f_flags headersFrame].
  destruct (Z.eqb_spec sid 0) as [-> | _]; [done |].
  destruct (Z.eqb_spec (sid mod 2) 0); [lia |]. destruct (Z.leb_spec sid (lastStreamId_ h)); [lia |].
  rewrite Hnone, (bool_decide_eq_false_2 (is_Some None)) by (by intros [? ?]). cbn [andb].
  unfold mbind at 1, modify at 1. rewrite Z.max_r by lia.
  assert (Hpad : forall g, g = FrameFlags.Padded \/ g = FrameFlags.Priority ->
    has g (headersFlags last fin) = false) by (by intros g [-> | ->]; destruct last, fin).
  rewrite !Hpad by auto. rewrite !(mbind_ok _ _ _ _ _ (eq_refl : mret _ _ = (Ok _, _))).
  destruct (Z.ltb_spec (size b) (0 + 0)); [pose proof (size_nonneg b); lia |].
  rewrite drop_0, (take_ge b) by (unfold size; lia).
  unfold mbind at 1, modify at 1.
  by destruct last, fin.
Qed.

Lemma onFrame_continuation (sid : Z) (flags : Z) (b : bytes) (h : Session) :
  continuationStreamId_ h = sid -> sid <> 0 -> size b <= 16384 ->
  onFrame (mkFrame (size b) FrameType.Continuation flags sid b) h
  = guarded (if has FrameFlags.EndHeaders flags then finaliseHeaders else mret tt)
      (set_block sid (headersOnly_ h) (headerBlockBuf_ h ++ b) h).
Proof.
  intros Hc Hsid Hb. unfold onFrame, guarded. rewrite mbind_get. cbn [f_length f_type].
  unfold maxFrameSize_. destruct (Z.ltb_spec 16384 (size b)); [lia |].
  change (negb (FrameType.Continuation =? FrameType.Continuation)) with false. rewrite andb_false_r.
  unfold mbind at 1. unfold mbind at 3. unfold mtry at 1. unfold mtry at 1.
  replace (handleFrame _ h)
    with ((let* _ := (if has FrameFlags.EndHeaders flags then finaliseHeaders else mret tt) in mret false)
            (set_block sid (headersOnly_ h) (headerBlockBuf_ h ++ b) h)); [done |].
  unfold handleFrame. cbn [f_type].
  change (FrameType.Continuation =? FrameType.Headers) with false.
  change (FrameType.Continuation =? FrameType.Continuation) with true.
  cbv iota. unfold mbind at 1 2. set (f := mkFrame _ _ _ _ _).
  cut (handleContinuation f h = (if has FrameFlags.EndHeaders flags then finaliseHeaders else mret tt)
    (set_block sid (headersOnly_ h) (headerBlockBuf_ h ++ b) h)); [by intros -> |].
  unfold handleContinuation. rewrite mbind_get. cbn [f_streamId f_payload f_flags f].
  rewrite Hc, bool_decide_eq_false_2 by (by intros []). done.
Qed.

Lemma mret_bind {A B : Type} (a : A) (k : A -> M Session B) (h : Session) : mbind (mret a) k h = k a h.
Proof. done. Qed.

Lemma feed_continuations (sid : Z) (bs : list bytes) (acc : bytes) (fin : bool) (h : Session) :
  sid <> 0 -> bs <> [] -> Forall (fun b => size b <= 16384) bs ->
  feed (continuations sid bs) (set_block sid fin acc h)
  = guarded finaliseHeaders (set_block sid fin (acc ++ concat bs) h).
Proof.
  intros Hsid. revert acc. induction bs as [| b bs IH]; intros acc Hne Hall; [done |].
  inversion_clear Hall as [| ? ? Hb Hbs]. cbn [continuations feed]. unfold mbind at 1.
  rewrite onFrame_continuation by done. cbn [set_block headersOnly_ headerBlockBuf_ concat].
  destruct bs as [| b' bs].
  - change (has FrameFlags.EndHeaders FrameFlags.EndHeaders) with true. cbn [continuations feed concat].
    rewrite app_nil_r. by destruct (guarded _ _) as [[[|] | | |] h'].
  - change (has FrameFlags.EndHeaders 0) with false.
    change (guarded (mret tt) ?h') with (Ok true, h'). cbv iota beta.
    specialize (IH (acc ++ b) ltac:(done) Hbs). rewrite <- app_assoc in IH. exact IH.
Qed.

Lemma feed_block (sid : Z) (fin : bool) (b : bytes) (bs : list bytes) (h : Session) :
  openable sid h -> continuationStreamId_ h = 0 -> Forall (fun c => size c <= 16384) (b :: bs) ->
  feed (blockFrames sid fin b bs) h
  = guarded finaliseHeaders (set_block sid fin (b ++ concat bs) (set_last sid h)).
Proof.
  intros Ho Hc Hall. inversion_clear Hall as [| ? ? Hb Hbs].
  assert (sid <> 0) by (intros ->; by destruct Ho). unfold blockFrames. cbn [feed]. unfold mbind at 1.
  rewrite onFrame_headers by done. destruct bs as [| b' bs].
  - cbn [continuations feed concat]. rewrite bool_decide_eq_true_2, app_nil_r by done.
    by destruct (guarded _ _) as [[[|] | | |] h'].
  - rewrite bool_decide_eq_false_2 by done. change (guarded (mret tt) ?h') with (Ok true, h').
    cbv iota beta. by apply feed_continuations.
Qed.
End blocks.

(** ** The octets of a body *)

Section data.
Context {S : Type} `{!ByteStream S}.
Abbreviation Session := (Http2Session S).

(** The payload of a DATA frame, with its padding if there is any. *)
Definition dataPayload (pad : option Z) (data : bytes) : bytes :=
  match pad with
  | None => data
  | Some n => z2b n :: data ++ replicate (Z.to_nat n) x00
  end.

Definition dataFlags (pad : option Z) (fin : bool) : Z :=
  Z.lor (match pad with None => 0 | Some _ => FrameFlags.Padded end) (flagsOf fin).

Definition dataFrame (sid : Z) (fin : bool) (pad : option Z) (data : bytes) : Frame :=
  mkFrame (size (dataPayload pad data)) FrameType.Data (dataFlags pad fin) sid (dataPayload pad data).

Definition pad_ok (pad : option Z) : Prop :=
  match pad with None => True | Some n => 0 <= n < 256 end.

(** What is going on while the session waits next. *)
Definition meanwhile (h : Session) : list event :=
  match schedule_ h with [] => [] | es :: _ => es end.

(** The request of a stream is over. *)
Definition finishes (sid : Z) (es : list event) : bool :=
  existsb (fun e => match e with Finished s => s =? sid | _ => false end) es.

(** What the other coroutines leave alone. *)
Definition idle (h h' : Session) : Prop :=
  untouched h h' /\ decoder_ h' = decoder_ h /\ headersOnly_ h' = headersOnly_ h
  /\ goAwaySent_ h' = goAwaySent_ h /\ schedule_ h' = schedule_ h.

#[export] Instance idle_preorder : PreOrder idle.
Proof.
  split; [by intros h; repeat split |]. intros h1 h2 h3 (A1 & A2 & A3 & A4 & A5) (B1 & B2 & B3 & B4 & B5).
  split; [by trans h2 | repeat split; congruence].
Qed.

(** What happens in a wait, on one stream: it stays as it is until its request is
    over. *)
Definition waits (sid : Z) (es : list event) (h h' : Session) : Prop :=
  idle h h' /\ (exists w, sent (reader_ h') = sent (reader_ h) ++ w /\ (es = [] -> w = []))
  /\ streams_ h' !! sid = (if finishes sid es then None else streams_ h !! sid).

Lemma waits_write (sid t fl s : Z) (d : bytes) (e : event) (h h1 : Session) :
  finishes sid [e] = false -> idle h h1 -> sent (reader_ h1) = sent (reader_ h) ->
  streams_ h1 = streams_ h ->
  exists h', on_reader (writeFrame t fl s d) h1 = (Ok tt, h') /\ waits sid [e] h h'.
Proof.
  intros He Hu Hs Hm. destruct (writeFrame_ok t fl s d (reader_ h1)) as (r & Hr & Hw & Hp).
  exists (set_reader r h1). unfold on_reader. rewrite Hr. split; [done |].
  split; [etrans; [exact Hu |]; by repeat split |].
  split; [exists (frameOctets t fl s d); split; [| done]; rewrite <- Hs; exact Hw |]. rewrite He. cbn. by rewrite Hm.
Qed.

Lemma happen_waits (sid : Z) (e : event) (h : Session) :
  exists h', happen e h = (Ok tt, h') /\ waits sid [e] h h'.
Proof.
  destruct e as [s resp fin | s data fin | s code | s]; cbn [happen]; [| by apply waits_write .. |].
  - unfold sendHeaders. destruct (encodeResponse_total resp (encoder_ h)) as (w & t & H).
    assert (Hon : on_encoder (encodeResponse resp) h = (Ok w, set_encoder t h)) by (unfold on_encoder; by rewrite H).
    rewrite (mbind_ok _ _ _ _ _ Hon). by apply waits_write.
  - unfold modify. eexists. split; [done |]. split.
    { repeat split. intros s' v Hv. cbn in Hv. by apply lookup_delete_Some in Hv as [_ Hv]. }
    split; [exists []; by rewrite app_nil_r |]. cbn [streams_ set_streams finishes existsb].
    rewrite orb_false_r. destruct (Z.eqb_spec s sid) as [-> | Hne]; [by rewrite lookup_delete_eq |].
    by rewrite lookup_delete_ne.
Qed.

Lemma happenAll_waits (sid : Z) (es : list event) (h : Session) :
  exists h', happenAll es h = (Ok tt, h') /\ waits sid es h h'.
Proof.
  revert h. induction es as [| e es IH]; intros h; cbn [happenAll].
  - exists h. split; [done |]. split; [done |]. split; [exists []; by rewrite app_nil_r | done].
  - destruct (happen_waits sid e h) as (h1 & H1 & Hu1 & (w1 & Hw1 & _) & Hs1).
    destruct (IH h1) as (h2 & H2 & Hu2 & (w2 & Hw2 & _) & Hs2).
    exists h2. rewrite (mbind_ok _ _ _ _ _ H1). split; [done |]. split; [by trans h1 |].
    split; [exists (w1 ++ w2); split; [by rewrite Hw2, Hw1, app_assoc | done] |].
    rewrite Hs2, Hs1. cbn [finishes existsb]. rewrite orb_false_r. fold (finishes sid es).
    by destruct (finishes sid es), (match e with Finished s => s =? sid | _ => false end).
Qed.

(** The session when the wait is over: its schedule has gone on. *)
Definition later (h : Session) : Session := set_schedule (tail (schedule_ h)) h.

Lemma wait_waits (sid : Z) (h : Session) :
  exists h', wait h = (Ok tt, h') /\ waits sid (meanwhile h) (later h) h'.
Proof.
  unfold wait, meanwhile, later. rewrite mbind_get. destruct (schedule_ h) as [| es rest] eqn:Hs.
  - exists h. split; [done |]. split; [by repeat split |]. split; [exists []; by rewrite app_nil_r | done].
  - destruct (happenAll_waits sid es (set_schedule rest h)) as (h' & H & Hw). by exists h'.
Qed.

(** *** [handleData] *)

Lemma octets31_be (n : Z) : 0 <= n < 2 ^ 31 -> octets31 (u32 n) = be_bytes 4 n.
Proof.
  intros Hn. unfold octets31, u32. rewrite Z.mod_small by lia. cbn [be_bytes].
  change (8 * Z.of_nat 3) with 24. change (8 * Z.of_nat 2) with 16. change (8 * Z.of_nat 1) with 8.
  change (8 * Z.of_nat 0) with 0. rewrite !low_octet, Z.shiftr_0_r.
  assert (0 <= Z.shiftr n 24 < 2 ^ 7).
  { rewrite Z.shiftr_div_pow2 by lia. split; [apply Z.div_pos; lia | apply Z.div_lt_upper_bound; lia]. }
  by rewrite (land_mask_mod _ 0x7f 7), Z.mod_small by lia.
Qed.

(** What padding takes, and the octets of the body that are left. *)
Definition padOf (pad : option Z) : Z * Z := match pad with None => (0, 0) | Some n => (n, 1) end.

Lemma dataFrame_pad (sid : Z) (fin : bool) (pad : option Z) (data : bytes) (h : Session) :
  pad_ok pad ->
  (if has FrameFlags.Padded (dataFlags pad fin)
   then let* p := mlift (at_payload (dataFrame sid fin pad data) 0) in mret (p, 1)
   else mret (0, 0)) h = (Ok (padOf pad), h).
Proof.
  intros Hpad. destruct pad as [n |]; [| by destruct fin].
  replace (has _ _) with true by (by destruct fin).
  assert (Hat : at_payload (dataFrame sid fin (Some n) data) 0 = Ok n).
  { change (Ok (b2z (z2b n)) = Ok n). by rewrite b2z_z2b_small. }
  by rewrite (mbind_lift _ _ _ _ Hat).
Qed.

Lemma dataPayload_part (pad : option Z) (data : bytes) :
  pad_ok pad ->
  size (dataPayload pad data) - snd (padOf pad) - fst (padOf pad) = size data
  /\ take (length data) (drop (Z.to_nat (snd (padOf pad))) (dataPayload pad data)) = data.
Proof.
  intros Hpad. destruct pad as [n |]; cbn [padOf fst snd dataPayload].
  - change (drop (Z.to_nat 1) (?a :: ?l)) with l. rewrite take_app_length, size_cons, size_app.
    split; [| done]. unfold size at 2. rewrite length_replicate. cbn in Hpad. lia.
  - rewrite drop_0, take_ge by lia. split; [lia | done].
Qed.

(** The session after a DATA frame up to the end of the wait for the lock. *)
Lemma handleData_runs (sid : Z) (fin : bool) (pad : option Z) (data : bytes) (st : Http2Stream) (h : Session) :
  streams_ h !! sid = Some st -> sid <> 0 -> open_ st = true -> pad_ok pad -> data <> [] ->
  size data < 2 ^ 31 ->
  let st' := mkStream (decodedHeaders st) (received st ++ [data]) true in
  exists h' w,
    handleData (dataFrame sid fin pad data) h
    = (if fin then
         let* h := mget in
         match streams_ h !! sid with
         | None => mlift Undefined
         | Some stream =>
             modify (fun h => set_streams
               (<[sid := mkStream (decodedHeaders stream) (received stream) false]> (streams_ h)) h)
         end
       else mret tt) h'
    /\ sent (reader_ h') = sent (reader_ h) ++ w
         ++ frameOctets FrameType.WindowUpdate 0 0 (be_bytes 4 (size data))
         ++ frameOctets FrameType.WindowUpdate 0 sid (be_bytes 4 (size data))
    /\ (meanwhile h = [] -> w = [])
    /\ streams_ h' !! sid = (if finishes sid (meanwhile h) then None else Some st')
    /\ idle (later (set_streams (<[sid := st']> (streams_ h)) h)) h'.
Proof.
  intros Hst Hsid Hopen Hpad Hdata Hsize. pose proof (size_nonneg data).
  assert (0 < size data) by (destruct (Z.eq_dec (size data) 0); [by apply size_zero_nil in e | lia]).
  destruct (dataPayload_part pad data Hpad) as [Hlen Hpart].
  unfold handleData. rewrite mbind_get. cbn [f_streamId f_flags f_payload dataFrame].
  destruct (Z.eqb_spec sid 0); [done |]. rewrite Hst.
  rewrite (mbind_ok _ _ _ _ _ (dataFrame_pad sid fin pad data h Hpad)).
  destruct (padOf pad) as [padLen offset]. cbn [fst snd] in *.
  destruct (Z.ltb_spec (size (dataPayload pad data)) (offset + padLen)); [lia |]. rewrite Hlen.
  destruct (Z.ltb_spec 0 (size data)); [| lia]. rewrite Hopen. cbn [negb].
  replace (Z.to_nat (size data)) with (length data) by (unfold size; lia). rewrite Hpart, octets31_be by lia.
  set (h1 := set_streams (<[sid := mkStream (decodedHeaders st) (received st ++ [data]) true]> (streams_ h)) h).
  destruct (wait_waits sid h1) as (h2 & Hw2 & Hu2 & (w & Hsent2 & Hnil) & Hs2).
  destruct (writeFrame_ok FrameType.WindowUpdate 0 0 (be_bytes 4 (size data)) (reader_ h2)) as (r3 & Hr3 & Hsent3 & Hp3).
  destruct (writeFrame_ok FrameType.WindowUpdate 0 sid (be_bytes 4 (size data)) r3) as (r4 & Hr4 & Hsent4 & Hp4).
  exists (set_reader r4 h2), w.
  assert (Hgo : (let* _ := modify (fun h => set_streams
       (<[sid := mkStream (decodedHeaders st) (received st ++ [data]) true]> (streams_ h)) h) in
     let* _ := wait in
     let* _ := on_reader (writeFrame FrameType.WindowUpdate 0 0 (be_bytes 4 (size data))) in
     let* _ := on_reader (writeFrame FrameType.WindowUpdate 0 sid (be_bytes 4 (size data))) in
     mret true) h = (Ok true, set_reader r4 h2)).
  { unfold mbind at 1, modify. fold h1. rewrite (mbind_ok _ _ _ _ _ Hw2).
    unfold mbind, on_reader. cbv beta. rewrite Hr3. cbn [reader_ set_reader]. by rewrite Hr4. }
  rewrite (mbind_ok _ _ _ _ _ Hgo). split; [by destruct pad, fin |].
  split; [cbn; rewrite Hsent4, Hsent3, Hsent2; by rewrite <- !app_assoc |].
  split; [exact Hnil |]. split.
  - cbn [streams_ set_reader]. rewrite Hs2. cbn [streams_ later set_schedule h1 set_streams]. by rewrite lookup_insert_eq.
  - trans h2; [exact Hu2 |]. repeat split; try done. cbn. by rewrite Hp4, Hp3.
Qed.
End data.

(** ** A whole request, from its octets *)

(** DATA frames with the pieces of a body, each with its padding if it has any;
    the last one ends the stream. *)
Fixpoint dataFrames (sid : Z) (body : list (option Z * bytes)) : list Frame :=
  match body with
  | [] => []
  | (pad, d) :: rest => dataFrame sid (bool_decide (rest = [])) pad d :: dataFrames sid rest
  end.

(** A request: its header block cut into [b] and [bs], and its body. *)
Definition requestFrames (sid : Z) (b : bytes) (bs : list bytes) (body : list (option Z * bytes)) : list Frame :=
  blockFrames sid (bool_decide (body = [])) b bs ++ dataFrames sid body.

Definition piece_ok (p : option Z * bytes) : Prop :=
  pad_ok (fst p) /\ snd p <> [] /\ size (dataPayload (fst p) (snd p)) <= 16384.

(** Headers the server takes for a request. *)
Definition acceptable (dh : DecodedHeaders) : Prop :=
  Forall (fun kh => badHeader (snd kh) = false) (d_headers dh)
  /\ d_method dh <> [] /\ d_path dh <> [] /\ d_scheme dh <> [].

Definition octetsOf (f : Frame) : bytes := frameOctets (f_type f) (f_flags f) (f_streamId f) (f_payload f).

Definition octetsAll (fs : list Frame) : bytes := concat (map octetsOf fs).

(** A frame within the server's limit. *)
Definition fits (f : Frame) : Prop :=
  0 <= f_type f < 256 /\ 0 <= f_flags f < 256 /\ 0 <= f_streamId f < 2 ^ 31
  /\ f_length f = size (f_payload f) /\ size (f_payload f) <= maxFrameSize_.

Section request.
Context {S : Type} `{!ByteStream S}.
Abbreviation Session := (Http2Session S).
Context (sid : Z).
Hypothesis Hsid : 0 < sid < 2 ^ 31.

(** The request of the stream does not end in a wait to come. *)
Definition lasting (h : Session) : Prop := Forall (fun es => finishes sid es = false) (schedule_ h).

(** The loop goes on. *)
Definition running (rest : bytes) (h : Session) : Prop :=
  goAwaySent_ h = false /\ lasting h /\ pending (reader_ h) = rest.

Lemma lasting_tail (h h' : Session) : schedule_ h' = tail (schedule_ h) -> lasting h -> lasting h'.
Proof. intros Hs Hl. unfold lasting in *. rewrite Hs. destruct Hl; [constructor | done]. Qed.

Lemma lasting_now (h : Session) : lasting h -> finishes sid (meanwhile h) = false.
Proof. unfold lasting, meanwhile. by intros [| es l]. Qed.

(** A round: what the session is when it has waited and read [f]. *)
Lemma round_reads (n : nat) (f : Frame) (rest : bytes) (h : Session) :
  running (octetsOf f ++ rest) h -> fits f ->
  exists h', runLoop (Datatypes.S n) h = (let* go := onFrame f in if go : bool then runLoop n else mret tt) h'
    /\ running rest h' /\ streams_ h' !! sid = streams_ h !! sid /\ decoder_ h' = decoder_ h
    /\ continuationStreamId_ h' = continuationStreamId_ h /\ headersOnly_ h' = headersOnly_ h
    /\ headerBlockBuf_ h' = headerBlockBuf_ h /\ spawned_ h' = spawned_ h /\ lastStreamId_ h' = lastStreamId_ h.
Proof using Hsid.
  intros (Hgo & Hl & Hp) (Ht & Hf & Hi & Hlen & Hmax).
  destruct (wait_waits sid h) as (h1 & Hw & ((Q1 & Q2 & Q3 & Q4 & Q5 & _) & Hd & Ho & Hg & Hs) & _ & Hst).
  cbn in Q1, Q2, Q3, Q4, Q5, Hd, Ho, Hg, Hs, Hst. rewrite (lasting_now h Hl) in Hst. rewrite Hp in Q1.
  destruct (readFrame_ok maxFrameSize_ _ _ _ (f_payload f) rest (reader_ h1) Ht Hf Hi ltac:(unfold maxFrameSize_ in *; lia) Q1)
    as (r & _ & Hr). destruct (Z.ltb_spec maxFrameSize_ (size (f_payload f))); [lia |]. destruct Hr as [Hr Hrest].
  rewrite <- Hlen in Hr. exists (set_reader r h1). cbn [runLoop]. rewrite Hgo, (mbind_ok _ _ _ _ _ Hw).
  assert (Hon : on_reader (readFrame maxFrameSize_) h1 = (Ok (Some f), set_reader r h1))
    by (unfold on_reader; rewrite Hr; by destruct f).
  rewrite (mbind_ok _ _ _ _ _ Hon). split; [done |]. split; [| by repeat split].
  split; [by cbn; rewrite Hg | split; [| done]]. apply (lasting_tail h); [exact Hs | done].
Qed.

Lemma round_goes (n : nat) (f : Frame) (h h' : Session) :
  onFrame f h = (Ok true, h') -> (let* go := onFrame f in if go : bool then runLoop n else mret tt) h = runLoop n h'.
Proof. intros H. by rewrite (mbind_ok _ _ _ _ _ H). Qed.

(** *** The header block *)

Context (fin : bool) (block : bytes) (dh : DecodedHeaders) (t t' : HpackTable) (sp : list Z).
Hypothesis Hdec : decode block t = (Ok dh, t').
Hypothesis Hacc : acceptable dh.

(** [acc] of the block has arrived. *)
Definition collecting (acc rest : bytes) (h : Session) : Prop :=
  running rest h /\ continuationStreamId_ h = sid /\ headersOnly_ h = fin /\ headerBlockBuf_ h = acc
  /\ decoder_ h = t /\ spawned_ h = sp.

(** The stream is there, and its request was handed to a coroutine. *)
Definition opened (st : Http2Stream) (rest : bytes) (h : Session) : Prop :=
  running rest h /\ continuationStreamId_ h = 0 /\ streams_ h !! sid = Some st /\ spawned_ h = sp ++ [sid].

Lemma finalise_opens (rest : bytes) (h : Session) :
  collecting block rest h ->
  exists h', guarded finaliseHeaders h = (Ok true, h') /\ opened (mkStream dh [] (negb fin)) rest h'.
Proof using Hdec Hacc.
  intros ((Hgo & Hl & Hp) & Hc & Ho & Hb & Hd & Hs). destruct Hacc as (Hbad & Hm & Hpa & Hsc).
  set (h1 := set_block 0 fin block h). set (h2 := set_block 0 fin [] (set_decoder t' h1)).
  set (h3 := add_spawned sid (set_streams (<[sid := mkStream dh [] (negb fin)]> (streams_ h)) h2)).
  assert (Hfin : finaliseHeaders h = (Ok tt, h3)).
  { unfold finaliseHeaders. rewrite mbind_get, Hc, Ho, Hb. unfold mbind at 1, modify at 1. fold h1.
    assert (Htry : mtry (let* dh := on_decoder (decode block) in mret (Some dh)) (fun _ => mret None) h1
      = (Ok (Some dh), set_decoder t' h1)).
    { unfold mtry, mbind, on_decoder. change (decoder_ h1) with (decoder_ h). by rewrite Hd, Hdec. }
    rewrite (mbind_ok _ _ _ _ _ Htry). unfold mbind at 1, modify at 1.
    replace (existsb _ (d_headers dh)) with false.
    2: { symmetry. induction Hbad as [| kh l Hk _ IH]; [done |]. cbn [existsb]. by rewrite Hk, IH. }
    rewrite !bool_decide_eq_false_2 by done. reflexivity. }
  exists h3. unfold guarded. split.
  { assert (Htry : mtry (let* _ := finaliseHeaders in mret false) (fun _ => mret true) h = (Ok false, h3))
      by (unfold mtry; by rewrite (mbind_ok _ _ _ _ _ Hfin)). by rewrite (mbind_ok _ _ _ _ _ Htry). }
  split; [by repeat split |]. split; [done |]. cbn. rewrite lookup_insert_eq. by rewrite Hs.
Qed.

Lemma loop_continuations (bs : list bytes) (acc rest : bytes) (n : nat) (h : Session) :
  bs <> [] -> acc ++ concat bs = block -> Forall (fun b => size b <= 16384) bs ->
  collecting acc (octetsAll (continuations sid bs) ++ rest) h ->
  exists h', runLoop (length bs + n) h = runLoop n h' /\ opened (mkStream dh [] (negb fin)) rest h'.
Proof using Hsid Hdec Hacc.
  revert acc h. induction bs as [| b bs IH]; intros acc h Hne Hblk Hall Hcol; [done |].
  inversion_clear Hall as [| ? ? Hb Hbs]. destruct Hcol as (Hrun & Hc & Ho & Hbuf & Hd & Hs).
  cbn [continuations] in Hrun. unfold octetsAll in Hrun. cbn [map concat] in Hrun. rewrite <- app_assoc in Hrun.
  cbn [length Nat.add].
  match type of Hrun with running (octetsOf ?f ++ ?r) _ =>
    destruct (round_reads (length bs + n) f r h Hrun) as (h1 & -> & Hrun1 & _ & Hd1 & Hc1 & Ho1 & Hb1 & Hs1 & _) end.
  { repeat split; try done; try (cbn; lia); destruct bs; done. }
  assert (Hon := onFrame_continuation sid (match bs with [] => FrameFlags.EndHeaders | _ => 0 end) b h1
    ltac:(congruence) ltac:(lia) Hb). rewrite Ho1, Hb1, Ho, Hbuf in Hon.
  assert (Hcol : collecting (acc ++ b) (octetsAll (continuations sid bs) ++ rest) (set_block sid fin (acc ++ b) h1)).
  { destruct Hrun1 as (? & ? & ?). split; [by repeat split |]. repeat split; cbn; congruence. }
  destruct bs as [| b' bs].
  - cbn [concat] in Hblk. rewrite app_nil_r in Hblk. rewrite Hblk in Hcol.
    destruct (finalise_opens _ _ Hcol) as (h2 & Hf & Hop). exists h2. split; [| exact Hop].
    apply round_goes. rewrite Hon, Hblk. exact Hf.
  - destruct (IH (acc ++ b) _ ltac:(done) ltac:(by rewrite <- app_assoc) Hbs Hcol) as (h2 & Hl2 & Hop).
    exists h2. split; [| exact Hop]. rewrite <- Hl2. apply round_goes. rewrite Hon. reflexivity.
Qed.

Lemma loop_block (b : bytes) (bs : list bytes) (rest : bytes) (n : nat) (h : Session) :
  b ++ concat bs = block -> Forall (fun c => size c <= 16384) (b :: bs) ->
  openable sid h -> continuationStreamId_ h = 0 -> decoder_ h = t -> spawned_ h = sp ->
  running (octetsAll (blockFrames sid fin b bs) ++ rest) h ->
  exists h', runLoop (length (blockFrames sid fin b bs) + n) h = runLoop n h'
    /\ opened (mkStream dh [] (negb fin)) rest h'.
Proof using Hsid Hdec Hacc.
  intros Hblk Hall (Hodd & Hlast & Hnone) Hc Hd Hs Hrun. inversion_clear Hall as [| ? ? Hb Hbs].
  unfold blockFrames, octetsAll in *. cbn [map concat length Nat.add] in *. rewrite <- app_assoc in Hrun.
  destruct (round_reads (length (continuations sid bs) + n) _ _ h Hrun)
    as (h1 & -> & Hrun1 & Hst1 & Hd1 & Hc1 & _ & _ & Hs1 & Hl1).
  { repeat split; try done; try (cbn; lia); by destruct (bool_decide _), fin. }
  assert (Hop : openable sid h1) by (split; [done | split; [by rewrite Hl1 | by rewrite Hst1]]).
  assert (Hon := onFrame_headers sid (bool_decide (bs = [])) fin b h1 Hop ltac:(congruence) Hb).
  assert (Hcol : collecting b (octetsAll (continuations sid bs) ++ rest) (set_block sid fin b (set_last sid h1))).
  { destruct Hrun1 as (? & ? & ?). split; [by repeat split |]. repeat split; cbn; congruence. }
  assert (Hlen : length (continuations sid bs) = length bs) by (clear; induction bs; cbn; congruence).
  destruct bs as [| b' bs].
  - cbn [concat] in Hblk. rewrite app_nil_r in Hblk. rewrite Hblk in Hcol.
    destruct (finalise_opens _ _ Hcol) as (h2 & Hf & Ho2). exists h2. split; [| exact Ho2].
    apply round_goes. rewrite Hon, Hblk, bool_decide_eq_true_2 by done. exact Hf.
  - destruct (loop_continuations (b' :: bs) b rest n _ ltac:(done) Hblk Hbs Hcol) as (h2 & Hl2 & Ho2).
    exists h2. split; [| exact Ho2]. rewrite Hlen, <- Hl2. apply round_goes.
    rewrite Hon, bool_decide_eq_false_2 by done. reflexivity.
Qed.

(** *** The body *)

Lemma size_dataPayload (pad : option Z) (d : bytes) : size d <= size (dataPayload pad d).
Proof. destruct pad; cbn [dataPayload]; rewrite ?size_cons, ?size_app; unfold size; lia. Qed.

Lemma data_round (fin' : bool) (pad : option Z) (d : bytes) (cs : list bytes) (rest : bytes) (h : Session) :
  piece_ok (pad, d) -> opened (mkStream dh cs true) rest h ->
  exists h', onFrame (dataFrame sid fin' pad d) h = (Ok true, h')
    /\ opened (mkStream dh (cs ++ [d]) (negb fin')) rest h'.
Proof using Hsid.
  intros (Hpad & Hne & Hsize) ((Hgo & Hl & Hp) & Hc & Hst & Hs). cbn [fst snd] in *.
  pose proof (size_dataPayload pad d). assert (Hd31 : size d < 2 ^ 31) by lia.
  destruct (handleData_runs sid fin' pad d (mkStream dh cs true) h Hst ltac:(lia) eq_refl Hpad Hne Hd31)
    as (h1 & w & Hrun & _ & _ & Hst1 & ((Q1 & Q2 & _ & _ & Q5 & _) & _ & _ & Hg & Hsch)).
  rewrite (lasting_now h Hl) in Hst1. cbn in Q1, Q2, Q5, Hg, Hsch, Hst1.
  assert (Hl1 : lasting h1) by (by apply (lasting_tail h)).
  assert (Hdata : exists h', handleData (dataFrame sid fin' pad d) h = (Ok tt, h')
    /\ opened (mkStream dh (cs ++ [d]) (negb fin')) rest h').
  { rewrite Hrun. destruct fin'.
    - rewrite mbind_get, Hst1. unfold modify. eexists. split; [done |].
      split; [split; [by cbn; rewrite Hg | split; [exact Hl1 | by cbn; rewrite Q1]] |].
      cbn. rewrite lookup_insert_eq. split; [congruence | split; [done | congruence]].
    - exists h1. split; [done |]. split; [split; [by rewrite Hg | split; [exact Hl1 | by rewrite Q1]] |].
      split; [congruence | split; [done | congruence]]. }
  destruct Hdata as (h2 & Hd2 & Ho2). exists h2. split; [| exact Ho2].
  unfold onFrame. rewrite mbind_get. cbn [f_length dataFrame f_type]. unfold maxFrameSize_.
  destruct (Z.ltb_spec 16384 (size (dataPayload pad d))); [lia |]. rewrite Hc. cbn [Z.eqb negb andb].
  assert (Hh : handleFrame (dataFrame sid fin' pad d) h = (Ok false, h2)).
  { unfold handleFrame. cbn [f_type dataFrame]. change (FrameType.Data =? FrameType.Headers) with false.
    change (FrameType.Data =? FrameType.Continuation) with false. change (FrameType.Data =? FrameType.Data) with true.
    cbv iota. by rewrite (mbind_ok _ _ _ _ _ Hd2). }
  assert (Htry : mtry (handleFrame (dataFrame sid fin' pad d)) (fun _ => mret true) h = (Ok false, h2))
    by (unfold mtry; by rewrite Hh).
  by rewrite (mbind_ok _ _ _ _ _ Htry).
Qed.

Lemma loop_data (body : list (option Z * bytes)) (cs : list bytes) (rest : bytes) (n : nat) (h : Session) :
  Forall piece_ok body -> opened (mkStream dh cs (bool_decide (body <> []))) (octetsAll (dataFrames sid body) ++ rest) h ->
  exists h', runLoop (length (dataFrames sid body) + n) h = runLoop n h'
    /\ opened (mkStream dh (cs ++ map snd body) false) rest h'.
Proof using Hsid.
  intros Hall. revert cs h. induction Hall as [| [pad d] body Hp Hall IH]; intros cs h Hop.
  { exists h. cbn in *. by rewrite app_nil_r. }
  rewrite bool_decide_eq_true_2 in Hop by done. destruct Hop as (Hrun & Hc & Hst & Hs).
  unfold octetsAll in *. cbn [dataFrames map concat length Nat.add] in *. rewrite <- app_assoc in Hrun.
  destruct (round_reads (length (dataFrames sid body) + n) _ _ h Hrun)
    as (h1 & -> & Hrun1 & Hst1 & _ & Hc1 & _ & _ & Hs1 & _).
  { destruct Hp as (_ & _ & Hsize). split; [done |]. split; [cbn; by destruct pad, (bool_decide (body = [])) |].
    split; [cbn; lia | split; [done | exact Hsize]]. }
  destruct (data_round (bool_decide (body = [])) pad d cs (concat (map octetsOf (dataFrames sid body)) ++ rest) h1 Hp)
    as (h2 & Hon & Ho2).
  { split; [exact Hrun1 |]. split; [congruence | split; congruence]. }
  rewrite (round_goes _ _ _ _ Hon).
  replace (negb (bool_decide (body = []))) with (bool_decide (body <> [])) in Ho2
    by (rewrite <- bool_decide_not; by apply bool_decide_ext).
  destruct (IH (cs ++ [d]) h2 Ho2) as (h3 & Hl3 & Ho3). exists h3. split; [exact Hl3 |].
  by rewrite <- app_assoc in Ho3.
Qed.
End request.

(** A request that arrives whole: its stream has the headers and the pieces of the
    body, and is closed. *)
Lemma loop_request {S : Type} `{!ByteStream S} (h : Http2Session S) (sid : Z) (b : bytes) (bs : list bytes)
    (body : list (option Z * bytes)) (dh : DecodedHeaders) (t' : HpackTable) (more : bytes) (n : nat) :
  0 < sid < 2 ^ 31 -> openable sid h -> continuationStreamId_ h = 0 ->
  Forall (fun c => size c <= 16384) (b :: bs) -> Forall piece_ok body ->
  decode (b ++ concat bs) (decoder_ h) = (Ok dh, t') -> acceptable dh ->
  running sid (octetsAll (requestFrames sid b bs body) ++ more) h ->
  exists h', runLoop (length (requestFrames sid b bs body) + n) h = runLoop n h'
    /\ opened sid (spawned_ h) (mkStream dh (map snd body) false) more h'.
Proof.
  intros Hsid Hop Hc Hb Hbody Hdec Hacc Hrun. unfold requestFrames, octetsAll in Hrun |- *.
  rewrite map_app, concat_app, <- app_assoc in Hrun. rewrite length_app, <- Nat.add_assoc.
  destruct (loop_block sid Hsid (bool_decide (body = [])) _ dh (decoder_ h) t' (spawned_ h) Hdec Hacc b bs
    (octetsAll (dataFrames sid body) ++ more) (length (dataFrames sid body) + n) h eq_refl Hb Hop Hc eq_refl eq_refl Hrun)
    as (h1 & -> & Ho1).
  replace (negb (bool_decide (body = []))) with (bool_decide (body <> [])) in Ho1
    by (rewrite <- bool_decide_not; by apply bool_decide_ext).
  destruct (loop_data sid Hsid dh (spawned_ h) body [] more n h1 Hbody Ho1) as (h2 & -> & Ho2). by exists h2.
Qed.

(** ** Properties *)

(** C30: header blocks may be cut anywhere.  However a client cuts the header
    block of a request into a HEADERS frame and CONTINUATION frames, the
    session ends up in the same state, and answers the same octets: any two
    ways to cut one block are equivalent. *)
Theorem h2_continuation_equivalence {S : Type} `{!ByteStream S} (h : Http2Session S) (sid : Z) (fin : bool)
    (b b' : bytes) (bs bs' : list bytes) :
  openable sid h -> continuationStreamId_ h = 0 ->
  Forall (fun c => size c <= 16384) (b :: bs) -> Forall (fun c => size c <= 16384) (b' :: bs') ->
  b ++ concat bs = b' ++ concat bs' ->
  feed (blockFrames sid fin b bs) h = feed (blockFrames sid fin b' bs') h.
Proof. intros Ho Hc Hb Hb' Heq. by rewrite !feed_block, Heq. Qed.

Lemma h2_continuation_equivalence_witness :
  let h := newSession (Script [] []) [] in
  openable 1 h /\
  feed (blockFrames 1 true [x82] [[]; [x86; x84]]) h = feed (blockFrames 1 true [x82; x86; x84] []) h.
Proof.
  intros h. assert (Ho : openable 1 h) by (split; [reflexivity | split; reflexivity]). split; [exact Ho |].
  apply (h2_continuation_equivalence h 1 true [x82] [x82; x86; x84] [[]; [x86; x84]] []);
    [exact Ho | reflexivity | repeat constructor; vm_compute; discriminate ..| reflexivity].
Defined.

(** The octets of a body arrive.  A DATA frame for an open stream, padded or
    not, puts exactly its data into the pipe the request reads from, gives
    the client the same number of octets back as window for the connection and
    for the stream, after whatever the handlers wrote meanwhile, and closes
    the pipe exactly with END_STREAM. *)
Theorem h2_data_delivered {S : Type} `{!ByteStream S} (h : Http2Session S) (sid : Z) (fin : bool)
    (pad : option Z) (data : bytes) (st : Http2Stream) :
  streams_ h !! sid = Some st -> sid <> 0 -> open_ st = true -> pad_ok pad -> data <> [] ->
  size data < 2 ^ 31 -> finishes sid (meanwhile h) = false ->
  exists h' w,
    handleData (dataFrame sid fin pad data) h = (Ok tt, h')
    /\ streams_ h' !! sid = Some (mkStream (decodedHeaders st) (received st ++ [data]) (negb fin))
    /\ sent (reader_ h') = sent (reader_ h) ++ w
         ++ frameOctets FrameType.WindowUpdate 0 0 (be_bytes 4 (size data))
         ++ frameOctets FrameType.WindowUpdate 0 sid (be_bytes 4 (size data))
    /\ (meanwhile h = [] -> w = []).
Proof.
  intros Hst Hsid Hopen Hpad Hdata Hsize Hnf.
  destruct (handleData_runs sid fin pad data st h Hst Hsid Hopen Hpad Hdata Hsize)
    as (h1 & w & Hrun & Hsent & Hw & Hs & _). rewrite Hnf in Hs. rewrite Hrun.
  destruct fin; [| by exists h1, w]. rewrite mbind_get, Hs. unfold modify. eexists _, w. split; [done |].
  split; [| done]. cbn [streams_ set_streams]. by rewrite lookup_insert_eq.
Qed.

Definition sample_session : Http2Session script :=
  set_last 1 (set_streams {[ 1 := mkStream noHeaders [] true ]} (newSession (Script [] []) [])).

Lemma h2_data_delivered_witness :
  exists h' w,
    handleData (dataFrame 1 true (Some 2) (str "abc")) sample_session = (Ok tt, h')
    /\ streams_ h' !! 1 = Some (mkStream noHeaders [str "abc"] false)
    /\ sent (reader_ h') = sent (reader_ sample_session) ++ w
         ++ frameOctets FrameType.WindowUpdate 0 0 (be_bytes 4 3)
         ++ frameOctets FrameType.WindowUpdate 0 1 (be_bytes 4 3)
    /\ (meanwhile sample_session = [] -> w = []).
Proof.
  apply (h2_data_delivered sample_session 1 true (Some 2) (str "abc") (mkStream noHeaders [] true));
    [reflexivity | discriminate | reflexivity | split; reflexivity || discriminate | discriminate
    | reflexivity | reflexivity].
Defined.

(** A request that ends while its last DATA frame is acknowledged.  When the
    handler of a stream ends while the session waits for the lock its WINDOW_UPDATE
    frames need, the session goes on with a reference into the map the stream
    was erased from: the behaviour is undefined. *)
Theorem h2_data_dangling {S : Type} `{!ByteStream S} (h : Http2Session S) (sid : Z)
    (pad : option Z) (data : bytes) (st : Http2Stream) :
  streams_ h !! sid = Some st -> sid <> 0 -> open_ st = true -> pad_ok pad -> data <> [] ->
  size data < 2 ^ 31 -> finishes sid (meanwhile h) = true ->
  fst (handleData (dataFrame sid true pad data) h) = Undefined.
Proof.
  intros Hst Hsid Hopen Hpad Hdata Hsize Hf.
  destruct (handleData_runs sid true pad data st h Hst Hsid Hopen Hpad Hdata Hsize)
    as (h1 & w & Hrun & _ & _ & Hs & _). rewrite Hf in Hs. by rewrite Hrun, mbind_get, Hs.
Qed.

Lemma h2_data_dangling_witness :
  let h := set_schedule [[SendHeaders 1 newResponse true; Finished 1]]
             sample_session in
  fst (handleData (dataFrame 1 true None (str "abc")) h) = Undefined.
Proof.
  intros h. apply (h2_data_dangling h 1 None (str "abc") (mkStream noHeaders [] true));
    [reflexivity | discriminate | reflexivity | exact I | discriminate | reflexivity | reflexivity].
Defined.

(** A CONTINUATION frame that continues nothing: on stream 0 it passes the
    check of [handleContinuation], and a request is served on stream 0. *)
Lemma continuation_on_stream_0 :
  let block := [x82; x84; x86] in
  let f := mkFrame 3 FrameType.Continuation FrameFlags.EndHeaders 0 block in
  let h := snd (onFrame f (newSession (Script [] []) [])) in
  spawned_ h = [0] /\ goAwaySent_ h = false.
Proof. split; vm_compute; reflexivity. Qed.

(** A HEADERS frame that says it is padded and is empty: its pad length is read
    from beyond its payload. *)
Lemma padded_and_empty :
  fst (onFrame (mkFrame 0 FrameType.Headers FrameFlags.Padded 1 []) (newSession (Script [] []) [])) = Undefined.
Proof. vm_compute. reflexivity. Qed.
