(* ===== verification/Router.v ===== *)
(** Routing: [RouterCore] (RouterCore.cc, RouterCore.h) with its exact routes,
    its radix tree and its regular expressions, and [HttpRouter]
    (HttpRouter.cc, HttpRouter.h) on top of it. *)

From Stdlib Require Import ZArith Lia String Strings.Byte.
From stdpp Require Import base numbers option list gmap.
From S2P Require Import Prelude CxxStd OrdMap HttpTypes.
Open Scope Z_scope.

(** ** Data *)

(** [RouterCore::Entry]. *)
Record Entry : Type := mkEntry {
  routeId : Z;
  methods : gmap HttpMethod bool;
  allowedMethods : bytes
}.

Definition newEntry : Entry := mkEntry 0 ∅ [].

Abbreviation PathParams := (gmap bytes bytes).

(** [RouterCore::RadixNode]. *)
Inductive RadixNode : Type := mkNode {
  entry : Entry;
  children : list (bytes * RadixNode);
  paramChildren : list (bytes * RadixNode);
  wildcardChildren : list (bytes * RadixNode)
}.

Definition newNode : RadixNode := mkNode newEntry [] [] [].

Record MatchResult : Type := mkResult {
  matched : bool;
  m_routeId : Z;
  params : PathParams;
  m_allowedMethods : bytes
}.

Definition noMatch : MatchResult := mkResult false 0 ∅ [].

(** ** Segments *)

Definition slash : byte := chr "/".

(** [while (pos < path.size() && path\[pos\] != '/') ++pos;] *)
Fixpoint scanSegment (s : bytes) : bytes :=
  match s with
  | [] => []
  | b :: s' => if decide (b = slash) then [] else b :: scanSegment s'
  end.

Definition nextSegment (path : bytes) (pos : nat) : bytes * nat :=
  match path !! pos with
  | None => ([], pos)
  | Some b =>
      let pos := if decide (b = slash) then S pos else pos in
      let seg := scanSegment (drop pos path) in
      (seg, (pos + length seg)%nat)
  end.

Section router.
(** The registry of [HttpMethod::toString], and the order in which an
    [unordered_map] is iterated. *)
Context (reg : MethodRegistry) (iteration : gmap HttpMethod bool -> list HttpMethod).

(** ** Registering *)

Fixpoint joinMethods (ms : list HttpMethod) (acc : bytes) : bytes :=
  match ms with
  | [] => acc
  | m :: ms' =>
      joinMethods ms' ((if decide (acc = []) then acc else acc ++ str ", ") ++ methodToString reg m)
  end.

Definition addMethodToEntry (e : Entry) (method : HttpMethod) : Entry :=
  let ms := <[method := true]> (methods e) in
  let ms := if (method =? Get) && bool_decide (ms !! Head = None) then <[Head := true]> ms else ms in
  mkEntry (routeId e) ms (joinMethods (iteration ms) []).

(** [entry.routeId = routeId], then every method. *)
Definition fillEntry (e : Entry) (ms : list HttpMethod) (id : Z) : Entry :=
  foldl addMethodToEntry (mkEntry id (methods e) (allowedMethods e)) ms.

(** [auto & child = m\[name\]; if (!child) child = std::make_unique<RadixNode>();] *)
Definition childOf (name : bytes) (m : list (bytes * RadixNode)) : RadixNode := default newNode (om_find name m).

(** The loop of [insertRadix]; the nodes on the way are rebuilt around the one
    [cur] points to. *)
Fixpoint insertRadix (fuel : nat) (cur : RadixNode) (path : bytes) (pos : nat) (ms : list HttpMethod)
    (id : Z) : outcome RadixNode :=
  match fuel with
  | O => Diverge
  | S fuel' =>
      let '(seg, pos) := nextSegment path pos in
      let '(mkNode e st pa wi) := cur in
      match seg with
      | [] => Ok (mkNode (fillEntry e ms id) st pa wi)
      | c :: name =>
          if decide (c = chr ":") then
            let! child := insertRadix fuel' (childOf name pa) path pos ms id in
            Ok (mkNode e st (om_insert name child pa) wi)
          else if decide (c = chr "*") then
            let '(mkNode e' st' pa' wi') := childOf name wi in
            Ok (mkNode e st pa (om_insert name (mkNode (fillEntry e' ms id) st' pa' wi') wi))
          else
            let! child := insertRadix fuel' (childOf seg st) path pos ms id in
            Ok (mkNode e (om_insert seg child st) pa wi)
      end
  end.

(** ** Matching *)

Definition kMaxPathLength : Z := 2048.
Definition kMaxPathSegments : nat := 32.

(** The first wildcard that has methods. *)
Fixpoint matchWildcard (ws : list (bytes * RadixNode)) : option (bytes * Entry) :=
  match ws with
  | [] => None
  | (wname, wnode) :: ws' =>
      if decide (methods (entry wnode) = ∅) then matchWildcard ws' else Some (wname, entry wnode)
  end.

(** The loop over the parameter branches, with what it calls on each. *)
Fixpoint tryParams (try : RadixNode -> PathParams -> option Entry * PathParams) (seg : bytes)
    (ps : list (bytes * RadixNode)) (params : PathParams) : option Entry * PathParams :=
  match ps with
  | [] => (None, params)
  | (pname, pnode) :: ps' =>
      match try pnode (<[pname := seg]> params) with
      | (Some e, params) => (Some e, params)
      | (None, params) => tryParams try seg ps' (delete pname params)
      end
  end.

(** [matchRadix(node, path, params, depth)], with [left] for
    [kMaxPathSegments + 1 - depth]: none are left when [depth] is over the
    limit.  [params] is handed back, as the code changes it in place. *)
Fixpoint matchRadix (left : nat) (node : RadixNode) (path : bytes) (params : PathParams)
    : option Entry * PathParams :=
  match left with
  | O => (None, params)
  | S left' =>
      let '(seg, pos) := nextSegment path 0 in
      let '(mkNode e st pa wi) := node in
      match seg with
      | [] =>
          match matchWildcard wi with
          | Some (wname, we) => (Some we, <[wname := []]> params)
          | None => (if decide (methods e = ∅) then None else Some e, params)
          end
      | _ =>
          let rest := drop pos path in
          let '(found, params) :=
            match om_find seg st with
            | Some child => matchRadix left' child rest params
            | None => (None, params)
            end in
          match found with
          | Some e => (Some e, params)
          | None =>
              let '(found, params) :=
                tryParams (fun pnode params => matchRadix left' pnode rest params) seg pa params in
              match found with
              | Some e => (Some e, params)
              | None =>
                  match matchWildcard wi with
                  | Some (wname, we) => (Some we, <[wname := drop (pos - length seg) path]> params)
                  | None => (None, params)
                  end
              end
          end
      end
  end.

(** ** [RouterCore] *)

(** [std::regex]: what a pattern compiles to, and the captures of a match. *)
Context {Regex : Type} (compile : bytes -> outcome Regex) (regex_match : bytes -> Regex -> option (list bytes)).

Record RegexEntry : Type := mkRegex {
  pattern : bytes;
  regex : Regex;
  r_entry : Entry
}.

Record RouterCore : Type := mkRouter {
  exactRoutes_ : gmap bytes Entry;
  radixRoot_ : RadixNode;
  regexRoutes_ : list RegexEntry;
  nextRouteId_ : Z
}.

Definition newRouterCore : RouterCore := mkRouter ∅ newNode [] 1.

(** [isParamOrWild]: [c] at the beginning of a segment. *)
Fixpoint afterSlash (c : byte) (prev : byte) (p : bytes) : bool :=
  match p with
  | [] => false
  | b :: p' => (bool_decide (b = c) && bool_decide (prev = slash)) || afterSlash c b p'
  end.

Definition isParamOrWild (p : bytes) (c : byte) : bool :=
  match p with
  | [] => false
  | b :: p' => bool_decide (b = c) || afterSlash c b p'
  end.

Definition addRoute (path : bytes) (ms : list HttpMethod) : M RouterCore Z :=
  if existsb (fun m => m =? _Invalid) ms then mthrow (InvalidArgument "RouterCore: invalid HTTP method")
  else
    let* r := mget in
    let id := nextRouteId_ r in
    let* _ := mput (mkRouter (exactRoutes_ r) (radixRoot_ r) (regexRoutes_ r) (u64 (id + 1))) in
    let* r := mget in
    let hasParam := isParamOrWild path (chr ":") in
    let hasWild := isParamOrWild path (chr "*") in
    if negb hasParam && negb hasWild then
      let e := fillEntry (default newEntry (exactRoutes_ r !! path)) ms id in
      let* _ := mput (mkRouter (<[path := e]> (exactRoutes_ r)) (radixRoot_ r) (regexRoutes_ r) (nextRouteId_ r)) in
      mret id
    else
      let* root := mlift (insertRadix (S (length path)) (radixRoot_ r) path 0 ms id) in
      let* _ := mput (mkRouter (exactRoutes_ r) root (regexRoutes_ r) (nextRouteId_ r)) in
      mret id.

(** The entry of a pattern that is registered again. *)
Fixpoint mergeRegex (pat : bytes) (ms : list HttpMethod) (id : Z) (rs : list RegexEntry)
    : option (list RegexEntry) :=
  match rs with
  | [] => None
  | r :: rs' =>
      if decide (pattern r = pat) then Some (mkRegex (pattern r) (regex r) (fillEntry (r_entry r) ms id) :: rs')
      else rs'' ← mergeRegex pat ms id rs'; Some (r :: rs'')
  end.

Definition addRouteRegex (pat : bytes) (ms : list HttpMethod) : M RouterCore Z :=
  if existsb (fun m => m =? _Invalid) ms then mthrow (InvalidArgument "RouterCore: invalid HTTP method")
  else
    let* r := mget in
    let id := nextRouteId_ r in
    let* _ := mput (mkRouter (exactRoutes_ r) (radixRoot_ r) (regexRoutes_ r) (u64 (id + 1))) in
    let* r := mget in
    match mergeRegex pat ms id (regexRoutes_ r) with
    | Some rs =>
        let* _ := mput (mkRouter (exactRoutes_ r) (radixRoot_ r) rs (nextRouteId_ r)) in
        mret id
    | None =>
        let* re := mlift (compile pat) in
        let e := mkRegex pat re (fillEntry newEntry ms id) in
        let* _ := mput (mkRouter (exactRoutes_ r) (radixRoot_ r) (regexRoutes_ r ++ [e]) (nextRouteId_ r)) in
        mret id
    end.

Definition lookupMethod (method : HttpMethod) (e : Entry) : MatchResult :=
  match methods e !! method with
  | Some _ => mkResult true (routeId e) ∅ []
  | None => mkResult false 0 ∅ (allowedMethods e)
  end.

Definition with_params (ps : PathParams) (r : MatchResult) : MatchResult :=
  mkResult (matched r) (m_routeId r) ps (m_allowedMethods r).

(** [regexParams\["$" + std::to_string(i)\] = m\[i\].str()] *)
Fixpoint regexParams (i : Z) (captures : list bytes) (ps : PathParams) : PathParams :=
  match captures with
  | [] => ps
  | c :: cs => regexParams (i + 1) cs (<[str "$" ++ to_string i := c]> ps)
  end.

Fixpoint matchRegex (method : HttpMethod) (path : bytes) (rs : list RegexEntry) : MatchResult :=
  match rs with
  | [] => noMatch
  | r :: rs' =>
      match regex_match path (regex r) with
      | Some captures => with_params (regexParams 1 captures ∅) (lookupMethod method (r_entry r))
      | None => matchRegex method path rs'
      end
  end.

(** [match] *)
Definition match_ (method : HttpMethod) (path : bytes) (r : RouterCore) : MatchResult :=
  if kMaxPathLength <? size path then noMatch
  else
    match exactRoutes_ r !! path with
    | Some e => lookupMethod method e
    | None =>
        match matchRadix (S kMaxPathSegments) (radixRoot_ r) path ∅ with
        | (Some e, ps) => with_params ps (lookupMethod method e)
        | (None, _) => matchRegex method path (regexRoutes_ r)
        end
    end.

(** ** [HttpRouter] *)

Context {Handler : Type}.

(** [HttpHandlerPtr]: [None] is the null pointer. *)
Record HttpRouter : Type := mkHttpRouter {
  core_ : RouterCore;
  handlers_ : list (option Handler)
}.

Inductive Reason : Type := ReasonOk | NotFound | MethodNotAllowed.

Record RouteResult : Type := mkRoute {
  handler : option Handler;
  rr_params : PathParams;
  reason : Reason;
  rr_allowedMethods : bytes
}.

(** [handlers_.resize(routeId + 1)] if it is too short, then the assignment. *)
Definition setHandler (id : Z) (h : Handler) (hs : list (option Handler)) : list (option Handler) :=
  let hs := if size hs <=? id then hs ++ replicate (Z.to_nat (id + 1) - length hs) None else hs in
  <[Z.to_nat id := Some h]> hs.

Definition on_core {A : Type} (m : M RouterCore A) : M HttpRouter A := fun r =>
  let '(o, c) := m (core_ r) in (o, mkHttpRouter c (handlers_ r)).

Definition addHandler (path : bytes) (ms : list HttpMethod) (h : Handler) : M HttpRouter unit :=
  let* id := on_core (addRoute path ms) in
  let* r := mget in
  mput (mkHttpRouter (core_ r) (setHandler id h (handlers_ r))).

Definition addHandlerRegex (pat : bytes) (ms : list HttpMethod) (h : Handler) : M HttpRouter unit :=
  let* id := on_core (addRouteRegex pat ms) in
  let* r := mget in
  mput (mkHttpRouter (core_ r) (setHandler id h (handlers_ r))).

Definition handlerOf (id : Z) (hs : list (option Handler)) : option Handler :=
  if id <? size hs then default None (hs !! Z.to_nat id) else None.

Definition route (method : HttpMethod) (path : bytes) (r : HttpRouter) : RouteResult :=
  let result := match_ method path (core_ r) in
  match (if matched result then handlerOf (m_routeId result) (handlers_ r) else None) with
  | Some h => mkRoute (Some h) (params result) ReasonOk []
  | None =>
      if decide (m_allowedMethods result = []) then mkRoute None ∅ NotFound []
      else mkRoute None ∅ MethodNotAllowed (m_allowedMethods result)
  end.

(** [WsRouter::route]: the handler and its parameters. *)
Definition wsRoute (path : bytes) (r : HttpRouter) : option Handler * PathParams :=
  let result := match_ Get path (core_ r) in
  match (if matched result then handlerOf (m_routeId result) (handlers_ r) else None) with
  | Some h => (Some h, params result)
  | None => (None, ∅)
  end.
End router.
