(* ===== verification/RouterSpec.v ===== *)
(** What the router promises: patterns as sequences of segments, when a path
    matches one, and that the radix tree finds exactly these matches. *)

From Stdlib Require Import ZArith Lia String Strings.Byte.
From stdpp Require Import base numbers option list gmap.
From S2P Require Import Prelude CxxStd OrdMap HttpTypes Router.
Open Scope Z_scope.

(** ** Patterns *)

Inductive Seg : Type :=
| Static (s : bytes)
| Param (name : bytes)
| Wild (name : bytes).

#[export] Instance Seg_eq_dec : EqDecision Seg.
Proof. solve_decision. Defined.

(** The next segment of a path, and what follows it. *)
Definition cutSegment (s : bytes) : bytes * bytes :=
  let '(seg, pos) := nextSegment s 0 in (seg, drop pos s).

Fixpoint parsePattern (fuel : nat) (s : bytes) : list Seg :=
  match fuel with
  | O => []
  | S fuel' =>
      let '(seg, rest) := cutSegment s in
      match seg with
      | [] => []
      | c :: name =>
          if decide (c = chr ":") then Param name :: parsePattern fuel' rest
          else if decide (c = chr "*") then [Wild name]
          else Static seg :: parsePattern fuel' rest
      end
  end.

Definition patternOf (path : bytes) : list Seg := parsePattern (S (length path)) path.

(** [pmatch pat path captures]: a static segment matches itself, a parameter
    any segment, a wildcard at the end all that is left; a path ends at its
    first empty segment. *)
Inductive pmatch : list Seg -> bytes -> list (bytes * bytes) -> Prop :=
| pm_end (s : bytes) : fst (cutSegment s) = [] -> pmatch [] s []
| pm_static (s seg rest : bytes) (pat : list Seg) (caps : list (bytes * bytes)) :
    cutSegment s = (seg, rest) -> seg <> [] -> pmatch pat rest caps -> pmatch (Static seg :: pat) s caps
| pm_param (s seg rest name : bytes) (pat : list Seg) (caps : list (bytes * bytes)) :
    cutSegment s = (seg, rest) -> seg <> [] -> pmatch pat rest caps ->
    pmatch (Param name :: pat) s ((name, seg) :: caps)
| pm_wild_end (s name : bytes) : fst (cutSegment s) = [] -> pmatch [Wild name] s [(name, [])]
| pm_wild (s seg rest name : bytes) :
    cutSegment s = (seg, rest) -> seg <> [] -> pmatch [Wild name] s [(name, seg ++ rest)].

Definition putCaptures (caps : list (bytes * bytes)) (ps : PathParams) : PathParams :=
  foldl (fun m kv => <[fst kv := snd kv]> m) ps caps.

Fixpoint paramNames (pat : list Seg) : list bytes :=
  match pat with
  | [] => []
  | Param name :: pat' => name :: paramNames pat'
  | _ :: pat' => paramNames pat'
  end.

(** ** Segments *)

Lemma scanSegment_prefix (s : bytes) : take (length (scanSegment s)) s = scanSegment s.
Proof.
  induction s as [| b s IH]; [done |]. cbn [scanSegment]. destruct (decide _); [done |]. cbn. by rewrite IH.
Qed.

Lemma scanSegment_length (s : bytes) : (length (scanSegment s) <= length s)%nat.
Proof. induction s as [| b s IH]; [done |]. cbn [scanSegment]. destruct (decide _); cbn; lia. Qed.

(** [nextSegment] at a position is [cutSegment] of the rest. *)
Lemma nextSegment_cut (path : bytes) (pos : nat) :
  (pos <= length path)%nat ->
  exists pos', nextSegment path pos = (fst (cutSegment (drop pos path)), pos')
    /\ (pos' <= length path)%nat
    /\ drop pos' path = snd (cutSegment (drop pos path))
    /\ (fst (cutSegment (drop pos path)) <> [] ->
        (pos < pos')%nat
        /\ drop (pos' - length (fst (cutSegment (drop pos path)))) path
           = fst (cutSegment (drop pos path)) ++ snd (cutSegment (drop pos path))).
Proof.
  intros Hpos. unfold cutSegment, nextSegment. rewrite lookup_drop, Nat.add_0_r.
  destruct (path !! pos) as [b |] eqn:Hb.
  - apply lookup_lt_Some in Hb. set (k := if decide (b = slash) then 1%nat else 0%nat).
    replace (if decide (b = slash) then S pos else pos) with (pos + k)%nat by (unfold k; case_decide; lia).
    replace (if decide (b = slash) then 1%nat else 0%nat) with k by done. rewrite drop_drop.
    set (seg := scanSegment (drop (pos + k) path)). cbn [fst snd].
    pose proof (scanSegment_length (drop (pos + k) path)) as Hl. fold seg in Hl. rewrite length_drop in Hl.
    assert (k <= 1)%nat by (unfold k; case_decide; lia).
    exists (pos + k + length seg)%nat. split; [done |]. split; [lia |].
    split; [rewrite drop_drop; f_equal; lia |]. intros Hne.
    assert (0 < length seg)%nat by (destruct (length seg) eqn:Hz; [by apply nil_length_inv in Hz | lia]).
    split; [lia |]. rewrite drop_drop.
    replace (pos + k + length seg - length seg)%nat with (pos + k)%nat by lia.
    rewrite <- (take_drop (length seg) (drop (pos + k) path)) at 1. rewrite drop_drop. f_equal; [apply scanSegment_prefix | f_equal; lia].
  - exists pos. cbn [fst snd drop]. done.
Qed.

(** The cut takes at least an octet when there is a segment. *)
Lemma cutSegment_shorter (s seg rest : bytes) :
  cutSegment s = (seg, rest) -> seg <> [] -> (length rest < length s)%nat.
Proof.
  intros Hc Hne. destruct (nextSegment_cut s 0) as (pos & _ & Hle & Hd & Hpos); [lia |].
  rewrite drop_0, Hc in Hd, Hpos. cbn [fst snd] in *. destruct (Hpos Hne) as [Hlt _].
  rewrite <- Hd, length_drop. lia.
Qed.

Lemma parsePattern_fuel (f1 f2 : nat) (s : bytes) :
  (length s < f1)%nat -> (length s < f2)%nat -> parsePattern f1 s = parsePattern f2 s.
Proof.
  revert f2 s. induction f1 as [| f1 IH]; intros [| f2] s H1 H2; [lia .. |]. cbn [parsePattern].
  destruct (cutSegment s) as [[| c name] rest] eqn:Hc; [done |].
  pose proof (cutSegment_shorter s (c :: name) rest Hc ltac:(done)).
  assert (Hr : parsePattern f1 rest = parsePattern f2 rest) by (apply IH; lia). by rewrite Hr.
Qed.

(** ** The tree as a map from patterns to nodes *)

Definition childAt (seg : Seg) (node : RadixNode) : option RadixNode :=
  match seg with
  | Static s => om_find s (children node)
  | Param name => om_find name (paramChildren node)
  | Wild name => om_find name (wildcardChildren node)
  end.

Fixpoint nodeAt (node : RadixNode) (pat : list Seg) : option RadixNode :=
  match pat with
  | [] => Some node
  | seg :: pat' => child ← childAt seg node; nodeAt child pat'
  end.

Definition entryAt (node : RadixNode) (pat : list Seg) : Entry :=
  match nodeAt node pat with Some n => entry n | None => newEntry end.

(** Every map of the tree is in order. *)
Definition tree_wf (node : RadixNode) : Prop :=
  forall pat n, nodeAt node pat = Some n ->
    om_wf (children n) /\ om_wf (paramChildren n) /\ om_wf (wildcardChildren n).

Lemma tree_wf_child (seg : Seg) (node child : RadixNode) :
  tree_wf node -> childAt seg node = Some child -> tree_wf child.
Proof. intros Hw Hc pat n Hn. apply (Hw (seg :: pat)). cbn [nodeAt]. by rewrite Hc. Qed.

Lemma entryAt_cons (seg : Seg) (node : RadixNode) (pat : list Seg) :
  entryAt node (seg :: pat) = entryAt (default newNode (childAt seg node)) pat.
Proof.
  unfold entryAt. cbn [nodeAt]. destruct (childAt seg node) as [child |]; cbn; [done |].
  destruct pat as [| seg' pat]; [done |]. cbn [nodeAt]. by destruct seg'.
Qed.

(** The tree with another child. *)
Definition withChild (seg : Seg) (child node : RadixNode) : RadixNode :=
  let '(mkNode e st pa wi) := node in
  match seg with
  | Static s => mkNode e (om_insert s child st) pa wi
  | Param name => mkNode e st (om_insert name child pa) wi
  | Wild name => mkNode e st pa (om_insert name child wi)
  end.

Lemma childAt_withChild (seg seg' : Seg) (child node : RadixNode) :
  tree_wf node ->
  childAt seg' (withChild seg child node) = if decide (seg' = seg) then Some child else childAt seg' node.
Proof.
  intros Hw. destruct (Hw [] node eq_refl) as (H1 & H2 & H3). destruct node as [e st pa wi]. cbn in *.
  destruct seg, seg'; cbn; rewrite ?om_find_insert by done; repeat case_decide; congruence.
Qed.

Lemma tree_wf_withChild (seg : Seg) (child node : RadixNode) :
  tree_wf node -> tree_wf child -> tree_wf (withChild seg child node).
Proof.
  intros Hw Hc pat n Hn. destruct pat as [| seg' pat].
  - cbn in Hn. injection Hn as <-. destruct (Hw [] node eq_refl) as (H1 & H2 & H3).
    destruct node, seg; cbn in *; auto using om_insert_wf.
  - cbn [nodeAt] in Hn. rewrite childAt_withChild in Hn by done. destruct (decide _).
    + by apply (Hc pat).
    + by apply (Hw (seg' :: pat)).
Qed.

Lemma entry_withChild (seg : Seg) (child node : RadixNode) : entry (withChild seg child node) = entry node.
Proof. by destruct node, seg. Qed.

(** ** Registering in the tree *)

Section tree.
Context (reg : MethodRegistry) (iteration : gmap HttpMethod bool -> list HttpMethod).
Abbreviation fillEntry := (fillEntry reg iteration).
Abbreviation insertRadix := (insertRadix reg iteration).

Fixpoint insertSegs (node : RadixNode) (pat : list Seg) (ms : list HttpMethod) (id : Z) : RadixNode :=
  match pat with
  | [] => let '(mkNode e st pa wi) := node in mkNode (fillEntry e ms id) st pa wi
  | seg :: pat' => withChild seg (insertSegs (default newNode (childAt seg node)) pat' ms id) node
  end.

Lemma insertRadix_segs (fuel : nat) (node : RadixNode) (path : bytes) (pos : nat) (ms : list HttpMethod) (id : Z) :
  (pos <= length path)%nat -> (length path - pos < fuel)%nat ->
  insertRadix fuel node path pos ms id = Ok (insertSegs node (parsePattern fuel (drop pos path)) ms id).
Proof.
  revert node pos. induction fuel as [| fuel IH]; intros node pos Hpos Hf; [lia |].
  cbn [Router.insertRadix parsePattern].
  destruct (nextSegment_cut path pos Hpos) as (pos' & -> & Hle & Hd & Hlt).
  destruct (cutSegment (drop pos path)) as [seg rest]. cbn [fst snd] in *.
  destruct node as [e st pa wi]. destruct seg as [| c name]; [done |].
  destruct (Hlt ltac:(done)) as [Hlt' _]. rewrite <- Hd.
  destruct (decide (c = chr ":")); [by rewrite IH by lia |].
  destruct (decide (c = chr "*")); [| by rewrite IH by lia].
  unfold childOf. cbn [insertSegs childAt wildcardChildren withChild].
  by destruct (default newNode (om_find name wi)).
Qed.

Lemma tree_wf_new : tree_wf newNode.
Proof. intros [| [] ?] n Hn; [| done ..]. injection Hn as <-. repeat constructor. Qed.

Lemma tree_wf_default (seg : Seg) (node : RadixNode) :
  tree_wf node -> tree_wf (default newNode (childAt seg node)).
Proof.
  intros Hw. destruct (childAt seg node) eqn:Hc; [by eapply tree_wf_child | apply tree_wf_new].
Qed.

Lemma insertSegs_wf (node : RadixNode) (pat : list Seg) (ms : list HttpMethod) (id : Z) :
  tree_wf node -> tree_wf (insertSegs node pat ms id).
Proof.
  revert node. induction pat as [| seg pat IH]; intros node Hw; cbn [insertSegs].
  - destruct node as [e st pa wi]. intros [| seg pat] n Hn.
    + injection Hn as <-. apply (Hw [] _ eq_refl).
    + apply (Hw (seg :: pat)). cbn [nodeAt] in *. by destruct seg.
  - by apply tree_wf_withChild, IH, tree_wf_default.
Qed.

Lemma entryAt_insert (node : RadixNode) (pat pat' : list Seg) (ms : list HttpMethod) (id : Z) :
  tree_wf node ->
  entryAt (insertSegs node pat ms id) pat'
  = if decide (pat' = pat) then fillEntry (entryAt node pat) ms id else entryAt node pat'.
Proof.
  revert node pat'. induction pat as [| seg pat IH]; intros node pat' Hw; cbn [insertSegs].
  - destruct node as [e st pa wi]. destruct pat' as [| seg' pat']; [done |]. by rewrite !entryAt_cons; destruct seg'.
  - destruct pat' as [| seg' pat'].
    + unfold entryAt. cbn [nodeAt]. by rewrite entry_withChild.
    + rewrite !entryAt_cons, childAt_withChild by done. destruct (decide (seg' = seg)) as [-> | Hne].
      * change (default newNode (Some ?x)) with x. rewrite IH by (by apply tree_wf_default).
        repeat case_decide; congruence.
      * destruct (decide _) as [[= -> ->] |]; [done |]. done.
Qed.

(** A pattern that leads somewhere was inserted, up to there. *)
Lemma nodeAt_insert (node n : RadixNode) (pat pat' : list Seg) (ms : list HttpMethod) (id : Z) :
  tree_wf node -> nodeAt (insertSegs node pat ms id) pat' = Some n ->
  is_Some (nodeAt node pat') \/ exists suffix, pat = pat' ++ suffix.
Proof.
  revert node pat'. induction pat as [| seg pat IH]; intros node pat' Hw Hn; cbn [insertSegs] in Hn.
  - left. destruct node as [e st pa wi]. destruct pat' as [| seg' pat']; [by eexists |]. eexists.
    cbn [nodeAt] in *. by destruct seg'.
  - destruct pat' as [| seg' pat']; [left; by eexists |]. cbn [nodeAt] in *.
    rewrite childAt_withChild in Hn by done. destruct (decide (seg' = seg)) as [-> | Hne]; [| left; by eexists].
    cbn in Hn. apply IH in Hn as [Hn | (suffix & ->)]; [| right; by exists suffix | by apply tree_wf_default].
    destruct (childAt seg node) as [child |]; [by left |]. cbn in Hn.
    destruct pat' as [| seg'' pat']; [right; by exists pat |]. destruct Hn as [? Hn]. by destruct seg''.
Qed.
End tree.

(** ** Searching the tree *)

(** The parameter names below a node are new, and none is used twice on a way
    down. *)
Definition names_fresh (node : RadixNode) (ps : PathParams) : Prop :=
  forall pat n, nodeAt node pat = Some n ->
    NoDup (paramNames pat) /\ Forall (fun x => ps !! x = None) (paramNames pat).

Lemma names_fresh_static (node child : RadixNode) (s : bytes) (ps : PathParams) :
  names_fresh node ps -> childAt (Static s) node = Some child -> names_fresh child ps.
Proof. intros Hf Hc pat n Hn. apply (Hf (Static s :: pat) n). cbn [nodeAt]. by rewrite Hc. Qed.

Lemma names_fresh_param (node child : RadixNode) (name v : bytes) (ps : PathParams) :
  names_fresh node ps -> childAt (Param name) node = Some child ->
  ps !! name = None /\ names_fresh child (<[name := v]> ps).
Proof.
  intros Hf Hc. assert (Hcons : forall pat n, nodeAt child pat = Some n ->
    NoDup (name :: paramNames pat) /\ Forall (fun x => ps !! x = None) (name :: paramNames pat)).
  { intros pat n Hn. apply (Hf (Param name :: pat) n). cbn [nodeAt]. by rewrite Hc. }
  split; [by destruct (Hcons [] child eq_refl) as [_ ?%Forall_inv] |]. intros pat n Hn.
  destruct (Hcons pat n Hn) as [Hnd Hall]. apply NoDup_cons in Hnd as [Hni Hnd]. split; [done |].
  apply Forall_inv_tail in Hall. apply Forall_forall. intros x Hx. rewrite Forall_forall in Hall.
  rewrite lookup_insert_ne by (intros <-; done). by apply Hall.
Qed.

(** A match of the tree below [node]: the entry, and the captures. *)
Definition found_at (node : RadixNode) (path : bytes) (e : Entry) (caps : list (bytes * bytes)) : Prop :=
  exists pat, entryAt node pat = e /\ methods e <> ∅ /\ pmatch pat path caps.

Lemma found_child (seg : Seg) (node child : RadixNode) (path s rest : bytes) (e : Entry)
    (caps : list (bytes * bytes)) :
  childAt seg node = Some child -> cutSegment path = (s, rest) -> s <> [] -> found_at child rest e caps ->
  match seg with
  | Static s' => s' = s -> found_at node path e caps
  | Param name => found_at node path e ((name, s) :: caps)
  | Wild _ => True
  end.
Proof.
  intros Hc Hcut Hne (pat & He & Hm & Hp).
  assert (He' : entryAt node (seg :: pat) = e) by (rewrite entryAt_cons, Hc; exact He).
  destruct seg as [s' | name | name]; [intros -> | | done]; eexists; (split; [exact He' | split; [done |]]).
  - by eapply pm_static.
  - by eapply pm_param.
Qed.

Lemma matchWildcard_In (ws : list (bytes * RadixNode)) :
  match matchWildcard ws with
  | Some (name, e) => exists n, In (name, n) ws /\ entry n = e /\ methods e <> ∅
  | None => forall name n, In (name, n) ws -> methods (entry n) = ∅
  end.
Proof.
  induction ws as [| [name n] ws IH]; cbn [matchWildcard]; [by intros ? ? [] |].
  destruct (decide (methods (entry n) = ∅)) as [He | He].
  - destruct (matchWildcard ws) as [[name' e] |].
    + destruct IH as (n' & Hin & ? & ?). exists n'. split; [by right | done].
    + intros name' n' [[= <- <-] | Hin]; [done | by apply (IH name')].
  - exists n. split; [by left | done].
Qed.

(** What a search below a node returns, and what it does to the parameters. *)
Definition search_ok (node : RadixNode) (path : bytes) (ps : PathParams) (r : option Entry * PathParams) : Prop :=
  match r with
  | (Some e, ps') => exists caps, found_at node path e caps /\ ps' = putCaptures caps ps
  | (None, ps') => ps' = ps
  end.

Lemma tryParams_ok (try : RadixNode -> PathParams -> option Entry * PathParams) (node : RadixNode)
    (path s rest : bytes) (ps : PathParams) (l : list (bytes * RadixNode)) :
  cutSegment path = (s, rest) -> s <> [] -> names_fresh node ps ->
  (forall name child, In (name, child) l -> childAt (Param name) node = Some child) ->
  (forall child ps, names_fresh child ps -> tree_wf child -> search_ok child rest ps (try child ps)) ->
  tree_wf node -> search_ok node path ps (tryParams try s l ps).
Proof.
  intros Hcut Hne Hf Hin Htry Hw. induction l as [| [name child] l IH]; cbn [tryParams]; [done |].
  pose proof (Hin name child (or_introl eq_refl)) as Hc.
  destruct (names_fresh_param node child name s ps Hf Hc) as [Hnone Hf'].
  specialize (Htry child (<[name := s]> ps) Hf' (tree_wf_child _ _ _ Hw Hc)).
  destruct (try child (<[name := s]> ps)) as [[e |] ps']; cbn in Htry.
  - destruct Htry as (caps & Hfound & ->). exists ((name, s) :: caps). split; [| done].
    exact (found_child (Param name) node child path s rest e caps Hc Hcut Hne Hfound).
  - subst ps'. rewrite delete_insert_id by done. apply IH. intros name' child' Hi. apply Hin. by right.
Qed.

Lemma matchRadix_sound (left : nat) (node : RadixNode) (path : bytes) (ps : PathParams) :
  tree_wf node -> names_fresh node ps -> search_ok node path ps (matchRadix left node path ps).
Proof.
  revert node path ps. induction left as [| left IH]; intros node path ps Hw Hf; [done |].
  cbn [matchRadix]. destruct (nextSegment_cut path 0) as (pos & -> & _ & Hd & Hpos); [lia |].
  rewrite drop_0 in *. destruct (cutSegment path) as [s rest] eqn:Hcut. cbn [fst snd] in *. rewrite Hd.
  destruct (Hw [] node eq_refl) as (Hst & Hpa & Hwi). destruct node as [e st pa wi] eqn:Hnode. cbn in Hst, Hpa, Hwi.
  assert (Hwild : forall name we, matchWildcard wi = Some (name, we) ->
    entryAt node [Wild name] = we /\ methods we <> ∅).
  { intros name we Hm. pose proof (matchWildcard_In wi) as H. rewrite Hm in H. destruct H as (n & Hin & <- & Hne).
    split; [| done]. rewrite entryAt_cons, Hnode. cbn [childAt wildcardChildren].
    by rewrite (om_In_find name n wi Hwi Hin). }
  destruct s as [| c s'] eqn:Hs.
  - destruct (matchWildcard wi) as [[name we] |] eqn:Hm.
    + destruct (Hwild name we eq_refl) as [He Hne]. exists [(name, [])]. split; [| done].
      exists [Wild name]. rewrite <- Hnode. split; [done | split; [done |]]. apply pm_wild_end. by rewrite Hcut.
    + destruct (decide (methods e = ∅)); [done |]. exists []. split; [| done]. exists []. split; [done | split; [done |]].
      apply pm_end. by rewrite Hcut.
  - rewrite <- Hs in *. assert (Hne : s <> []) by (by rewrite Hs). destruct (Hpos Hne) as [_ Hdrop].
    assert (Hstatic : search_ok node path ps
      match om_find s st with Some child => matchRadix left child rest ps | None => (None, ps) end).
    { destruct (om_find s st) as [child |] eqn:Hc; [| done].
      assert (Hc' : childAt (Static s) node = Some child) by (by rewrite Hnode).
      rewrite <- Hnode in *. specialize (IH child rest ps (tree_wf_child _ _ _ Hw Hc') (names_fresh_static _ _ _ _ Hf Hc')).
      destruct (matchRadix left child rest ps) as [[e' |] ps']; [| done]. destruct IH as (caps & Hfound & ->).
      exists caps. split; [| done]. by eapply (found_child (Static s)). }
    rewrite <- Hnode in *.
    destruct (match om_find s st with Some child => _ | None => _ end) as [[e' |] ps']; [done |]. cbn in Hstatic. subst ps'.
    assert (Hpar : search_ok node path ps (tryParams (fun pnode => matchRadix left pnode rest) s pa ps)).
    { apply (tryParams_ok _ node path s rest); [done .. | | | done].
      - intros name child Hin. rewrite Hnode. cbn [childAt paramChildren]. by apply om_In_find.
      - intros child ps' Hf' Hw'. by apply IH. }
    destruct (tryParams _ s pa ps) as [[e' |] ps']; [done |]. cbn in Hpar. subst ps'.
    destruct (matchWildcard wi) as [[name we] |] eqn:Hm; [| done].
    destruct (Hwild name we eq_refl) as [He Hwne]. exists [(name, s ++ rest)]. rewrite Hdrop. split; [| done].
    exists [Wild name]. split; [done | split; [done |]]. by apply pm_wild.
Qed.

Lemma tryParams_complete (try : RadixNode -> PathParams -> option Entry * PathParams) (s name : bytes)
    (child : RadixNode) (l : list (bytes * RadixNode)) (ps : PathParams) :
  In (name, child) l -> (forall ps, fst (try child ps) <> None) -> fst (tryParams try s l ps) <> None.
Proof.
  intros Hin Htry. revert ps. induction l as [| [name' child'] l IH]; intros ps; [by destruct Hin |].
  cbn [tryParams]. destruct (try child' (<[name' := s]> ps)) as [[e |] ps'] eqn:Hr; [done |].
  destruct Hin as [[= -> ->] | Hin]; [| by apply IH].
  specialize (Htry (<[name := s]> ps)). by rewrite Hr in Htry.
Qed.

Lemma matchWildcard_complete (name : bytes) (n : RadixNode) (ws : list (bytes * RadixNode)) :
  In (name, n) ws -> methods (entry n) <> ∅ -> matchWildcard ws <> None.
Proof.
  intros Hin Hne Hnone. pose proof (matchWildcard_In ws) as H. rewrite Hnone in H. by apply Hne, (H name).
Qed.

Lemma nodeAt_nonempty (node : RadixNode) (seg : Seg) (pat : list Seg) :
  methods (entryAt node (seg :: pat)) <> ∅ ->
  exists child, childAt seg node = Some child /\ entryAt node (seg :: pat) = entryAt child pat.
Proof.
  rewrite entryAt_cons. destruct (childAt seg node) as [child |]; [by exists child |]. cbn [default].
  intros H. destruct H. unfold entryAt. destruct pat as [| seg' pat]; [done |]. cbn [nodeAt]. by destruct seg'.
Qed.

(** A path that matches a pattern of the tree is found, by that pattern or by
    another. *)
Lemma matchRadix_complete (left : nat) (node : RadixNode) (path : bytes) (pat : list Seg)
    (caps : list (bytes * bytes)) (ps : PathParams) :
  (length pat < left)%nat -> methods (entryAt node pat) <> ∅ -> pmatch pat path caps ->
  fst (matchRadix left node path ps) <> None.
Proof.
  revert node path pat caps ps. induction left as [| left IH]; intros node path pat caps ps Hlen Hne Hm; [lia |].
  cbn [matchRadix]. destruct (nextSegment_cut path 0) as (pos & -> & _ & Hd & _); [lia |].
  rewrite drop_0 in *. destruct (cutSegment path) as [s rest] eqn:Hcut. cbn [fst snd] in *. rewrite Hd.
  destruct node as [e st pa wi] eqn:Hnode.
  assert (Hwild : forall name, methods (entryAt node [Wild name]) <> ∅ -> matchWildcard wi <> None).
  { intros name Hn. destruct (nodeAt_nonempty _ _ _ Hn) as (child & Hc & He). rewrite He in Hn.
    rewrite Hnode in Hc. apply om_find_In in Hc. by eapply matchWildcard_complete. }
  destruct s as [| c s'] eqn:Hs.
  - destruct (matchWildcard wi) as [[name we] |] eqn:Hw; [done |].
    inversion Hm; subst; try congruence.
    + cbn. by destruct (decide (methods e = ∅)).
    + by destruct (Hwild name).
  - rewrite <- Hs in *. rewrite <- Hnode in *.
    destruct (match om_find s st with Some child => _ | None => _ end) as [[e' |] ps1] eqn:Hst; [done |].
    destruct (tryParams _ s pa ps1) as [[e' |] ps2] eqn:Hpa; [done |].
    destruct (matchWildcard wi) as [[name we] |] eqn:Hw; [done |].
    assert (Hs0 : s <> []) by (by rewrite Hs).
    inversion Hm as [s0 H0 | s0 seg rest0 pat0 caps0 H0 _ H1 | s0 seg rest0 name pat0 caps0 H0 _ H1 | s0 name H0
                    | s0 seg rest0 name H0 _]; subst pat; try (rewrite Hcut in H0; simplify_eq/=).
    + destruct (nodeAt_nonempty _ _ _ Hne) as (child & Hc & He). rewrite He in Hne.
      cbn [childAt children] in Hc. rewrite Hc in Hst.
      destruct (IH child _ pat0 caps ps ltac:(cbn in Hlen; lia) Hne H1). by rewrite Hst.
    + destruct (nodeAt_nonempty _ _ _ Hne) as (child & Hc & He). rewrite He in Hne.
      apply om_find_In in Hc.
      destruct (tryParams_complete (fun pnode ps => matchRadix left pnode (drop pos path) ps) (c :: s') name child pa ps1 Hc);
        [| by rewrite Hpa].
      intros ps'. apply (IH child (drop pos path) pat0 caps0 ps'); [cbn in Hlen; lia | done | done].
    + by destruct (Hwild name).
Qed.

(** ** A router and the routes it was given *)

Section routes.
Context (reg : MethodRegistry) (iteration : gmap HttpMethod bool -> list HttpMethod).
Context {Regex : Type} (regex_match : bytes -> Regex -> option (list bytes)).
Abbreviation Router := (@RouterCore Regex).
Abbreviation fillEntry := (fillEntry reg iteration).

Fixpoint addAll (rs : list (bytes * list HttpMethod)) : M Router unit :=
  match rs with
  | [] => mret tt
  | (path, ms) :: rs' => let* _ := addRoute reg iteration path ms in addAll rs'
  end.

Definition isExact (path : bytes) : bool :=
  negb (isParamOrWild path (chr ":")) && negb (isParamOrWild path (chr "*")).

(** The routes of one kind, merged in order: their methods together, and the
    identifier of the last one. *)
Fixpoint merged (sel : bytes -> bool) (rs : list (bytes * list HttpMethod)) (id : Z) (e : Entry) : Entry :=
  match rs with
  | [] => e
  | (path, ms) :: rs' => merged sel rs' (id + 1) (if sel path then fillEntry e ms id else e)
  end.

Definition exactSel (path q : bytes) : bool := isExact q && bool_decide (q = path).
Definition radixSel (pat : list Seg) (q : bytes) : bool := negb (isExact q) && bool_decide (patternOf q = pat).

Definition exactEntry (rs : list (bytes * list HttpMethod)) (path : bytes) : Entry :=
  merged (exactSel path) rs 1 newEntry.
Definition radixEntry (rs : list (bytes * list HttpMethod)) (pat : list Seg) : Entry :=
  merged (radixSel pat) rs 1 newEntry.

Definition registered (sel : bytes -> bool) (rs : list (bytes * list HttpMethod)) : bool :=
  existsb (fun r => sel (fst r)) rs.

(** What a program may register: some methods, none invalid, and no parameter
    twice in one pattern. *)
Definition route_ok (r : bytes * list HttpMethod) : Prop :=
  snd r <> [] /\ Forall (fun m => m <> _Invalid) (snd r) /\ NoDup (paramNames (patternOf (fst r))).

Lemma fillEntry_methods (e : Entry) (ms : list HttpMethod) (id : Z) (m : HttpMethod) :
  methods e !! m = Some true \/ m ∈ ms -> methods (fillEntry e ms id) !! m = Some true.
Proof.
  unfold Router.fillEntry. change (methods e) with (methods (mkEntry id (methods e) (allowedMethods e))) at 1.
  generalize (mkEntry id (methods e) (allowedMethods e)). clear e. induction ms as [| m' ms IH]; intros e.
  - intros [? | ?%elem_of_nil]; done.
  - rewrite elem_of_cons. cbn [foldl]. intros H. apply IH. cbn [addMethodToEntry methods].
    destruct (decide (m = m')) as [-> | Hne].
    + left. destruct (_ && _) eqn:Hg; [| by rewrite lookup_insert_eq].
      destruct (decide (m' = Head)) as [-> |]; [by rewrite lookup_insert_eq |].
      by rewrite lookup_insert_ne, lookup_insert_eq by done.
    + destruct H as [H | [? | H]]; [| done | by right]. left.
      assert (H1 : <[m' := true]> (methods e) !! m = Some true) by (by rewrite lookup_insert_ne).
      destruct (_ && _); [| done].
      destruct (decide (m = Head)) as [-> |]; [by rewrite lookup_insert_eq |]. by rewrite lookup_insert_ne.
Qed.

Lemma fillEntry_nonempty (e : Entry) (ms : list HttpMethod) (id : Z) :
  ms <> [] -> methods (fillEntry e ms id) <> ∅.
Proof.
  destruct ms as [| m ms]; [done |]. intros _ H.
  pose proof (fillEntry_methods e (m :: ms) id m ltac:(right; left)) as Hm. by rewrite H in Hm.
Qed.

(** The merged entry has methods exactly when a route of the kind is there. *)
Lemma merged_nonempty (sel : bytes -> bool) (rs : list (bytes * list HttpMethod)) (id : Z) (e : Entry) :
  Forall route_ok rs ->
  (methods e <> ∅ \/ registered sel rs = true) <-> methods (merged sel rs id e) <> ∅.
Proof.
  revert id e. induction rs as [| [q ms] rs IH]; intros id e Hok; cbn [merged registered existsb fst]; [intuition done |].
  inversion_clear Hok as [| ? ? [Hms _] Hrs]. rewrite <- IH by done. destruct (sel q); cbn [orb]; [| done].
  pose proof (fillEntry_nonempty e ms id Hms). intuition done.
Qed.

Lemma registered_spec (sel : bytes -> bool) (rs : list (bytes * list HttpMethod)) :
  registered sel rs = true <-> exists q ms, In (q, ms) rs /\ sel q = true.
Proof.
  unfold registered. rewrite existsb_exists. split.
  - intros ([q ms] & Hin & Hs). by exists q, ms.
  - intros (q & ms & Hin & Hs). by exists (q, ms).
Qed.

(** What the routes [rs] make of a router [r]. *)
Record built (rs : list (bytes * list HttpMethod)) (r r' : Router) : Prop := {
  built_exact : forall path, exactRoutes_ r' !! path
    = if registered (exactSel path) rs
      then Some (merged (exactSel path) rs (nextRouteId_ r) (default newEntry (exactRoutes_ r !! path)))
      else exactRoutes_ r !! path;
  built_wf : tree_wf (radixRoot_ r');
  built_radix : forall pat, entryAt (radixRoot_ r') pat
    = merged (radixSel pat) rs (nextRouteId_ r) (entryAt (radixRoot_ r) pat);
  built_names : forall pat n, nodeAt (radixRoot_ r') pat = Some n ->
    is_Some (nodeAt (radixRoot_ r) pat) \/ exists q ms suffix, In (q, ms) rs /\ patternOf q = pat ++ suffix;
  built_regex : regexRoutes_ r' = regexRoutes_ r
}.

Lemma addRoute_ok (path : bytes) (ms : list HttpMethod) (r : Router) :
  route_ok (path, ms) -> tree_wf (radixRoot_ r) -> 0 <= nextRouteId_ r < 2 ^ 64 - 1 ->
  exists r', addRoute reg iteration path ms r = (Ok (nextRouteId_ r), r')
    /\ nextRouteId_ r' = nextRouteId_ r + 1 /\ built [(path, ms)] r r'.
Proof.
  intros (_ & Hms & _) Hw Hid. unfold addRoute. cbn [snd] in Hms.
  replace (existsb (fun m => m =? _Invalid) ms) with false; cycle 1.
  { symmetry. apply not_true_iff_false. rewrite existsb_exists. intros (m & Hin & Hm%Z.eqb_eq).
    rewrite List.Forall_forall in Hms. by apply (Hms m). }
  rewrite mbind_get, mbind_put, mbind_get. cbn [exactRoutes_ radixRoot_ regexRoutes_ nextRouteId_].
  assert (Hu : u64 (nextRouteId_ r + 1) = nextRouteId_ r + 1) by (unfold u64; rewrite Z.mod_small; lia).
  fold (isExact path). destruct (isExact path) eqn:Hexact.
  - rewrite mbind_put. eexists. split; [done |]. split; [exact Hu |].
    split; cbn [exactRoutes_ radixRoot_ regexRoutes_ registered existsb fst merged];
      unfold exactSel, radixSel; try (rewrite Hexact); cbn [andb negb]; [| done | done | by left; eexists | done].
    intros q. rewrite orb_false_r. destruct (decide (path = q)) as [-> | Hne].
    + by rewrite bool_decide_eq_true_2, lookup_insert_eq.
    + by rewrite bool_decide_eq_false_2, lookup_insert_ne.
  - rewrite (mbind_lift _ _ _ _ (insertRadix_segs reg iteration (S (length path)) (radixRoot_ r) path 0 ms _
      ltac:(lia) ltac:(lia))).
    rewrite drop_0. fold (patternOf path). rewrite mbind_put. eexists. split; [done |]. split; [exact Hu |].
    split; cbn [exactRoutes_ radixRoot_ regexRoutes_ registered existsb fst merged];
      unfold exactSel, radixSel; rewrite ?Hexact; cbn [andb negb orb].
    + done.
    + by apply insertSegs_wf.
    + intros pat. rewrite entryAt_insert by done.
      destruct (decide (pat = patternOf path)) as [-> |]; [by rewrite bool_decide_eq_true_2 |].
      by rewrite bool_decide_eq_false_2.
    + intros pat n Hn. apply nodeAt_insert in Hn as [? | (suffix & Hs)]; [by left | | done].
      right. exists path, ms, suffix. split; [by left | done].
    + done.
Qed.

Lemma built_cons (path : bytes) (ms : list HttpMethod) (rs : list (bytes * list HttpMethod)) (r r1 r2 : Router) :
  nextRouteId_ r1 = nextRouteId_ r + 1 -> built [(path, ms)] r r1 -> built rs r1 r2 ->
  built ((path, ms) :: rs) r r2.
Proof.
  intros Hid [A1 A2 A3 A4 A5] [B1 B2 B3 B4 B5]. split; [| done | | | congruence].
  - intros q. rewrite B1, A1, Hid. cbn [registered existsb fst merged]. rewrite orb_false_r.
    fold (registered (exactSel q) rs). destruct (exactSel q path); cbn [orb]; [| done].
    destruct (registered (exactSel q) rs) eqn:Hr; [done |]. f_equal. symmetry. revert Hr. clear.
    generalize (nextRouteId_ r + 1) (fillEntry (default newEntry (exactRoutes_ r !! q)) ms (nextRouteId_ r)).
    induction rs as [| [q' ms'] rs IH]; intros id e Hr; [done |]. cbn [registered existsb fst merged] in *.
    apply orb_false_iff in Hr as [-> Hr]. by apply IH.
  - intros pat. by rewrite B3, A3, Hid.
  - intros pat n Hn. apply B4 in Hn as [[n1 Hn] | (q & ms' & suffix & Hin & Hs)].
    + apply A4 in Hn as [Hn | (q & ms' & suffix & [[= -> ->] | []] & Hs)]; [by left |].
      right. exists q, ms', suffix. split; [by left | done].
    + right. exists q, ms', suffix. split; [by right | done].
Qed.

Lemma addAll_built (rs : list (bytes * list HttpMethod)) (r : Router) :
  Forall route_ok rs -> tree_wf (radixRoot_ r) -> 0 <= nextRouteId_ r -> nextRouteId_ r + size rs < 2 ^ 64 ->
  exists r', addAll rs r = (Ok tt, r') /\ built rs r r'.
Proof.
  revert r. induction rs as [| [path ms] rs IH]; intros r Hok Hw H0 Hsize.
  - exists r. split; [done |]. split; [done | done | done | intros pat n Hn; left; by eexists | done].
  - inversion_clear Hok as [| ? ? Hr Hrs]. rewrite size_cons in Hsize. pose proof (size_nonneg rs).
    destruct (addRoute_ok path ms r Hr Hw ltac:(lia)) as (r1 & H1 & Hid & Hb).
    destruct (IH r1 Hrs (built_wf _ _ _ Hb) ltac:(lia) ltac:(lia)) as (r2 & H2 & Hb2).
    exists r2. cbn [addAll]. rewrite (mbind_ok _ _ _ _ _ H1). split; [done |]. by eapply built_cons.
Qed.

Lemma paramNames_app (p q : list Seg) : paramNames (p ++ q) = paramNames p ++ paramNames q.
Proof. induction p as [| [s | x | x] p IH]; cbn; [done | done | by rewrite IH | done]. Qed.

Lemma built_fresh (rs : list (bytes * list HttpMethod)) (r : Router) :
  Forall route_ok rs -> built rs newRouterCore r -> names_fresh (radixRoot_ r) ∅.
Proof.
  intros Hok Hb pat n Hn. split; [| by apply Forall_forall; intros; apply lookup_empty].
  apply (built_names _ _ _ Hb) in Hn as [[n0 Hn] | (q & ms & suffix & Hin & Hs)].
  - destruct pat as [| [] pat]; [constructor | done ..].
  - rewrite List.Forall_forall in Hok. destruct (Hok _ Hin) as (_ & _ & Hnd). cbn [fst] in Hnd.
    rewrite Hs, paramNames_app in Hnd. by apply NoDup_app in Hnd as [? _].
Qed.
End routes.

(** ** Properties *)

(** C13: the router finds the routes.  A router given a list of routes answers a
    request for a path by the route registered for exactly this path, if there
    is one; otherwise by a pattern that matches the path, with the captured
    parameters, whenever some pattern of at most 32 segments matches it, and by
    nothing when none does.  The methods it compares with are those of all the
    routes with the same pattern, and the identifier is that of the last of
    them. *)
Theorem router_match_refines (reg : MethodRegistry) (iteration : gmap HttpMethod bool -> list HttpMethod)
    {Regex : Type} (regex_match : bytes -> Regex -> option (list bytes))
    (rs : list (bytes * list HttpMethod)) (m : HttpMethod) (path : bytes) :
  Forall route_ok rs -> size rs < 2 ^ 64 - 1 -> size path <= kMaxPathLength ->
  exists r, addAll reg iteration rs newRouterCore = (Ok tt, r)
    /\ if registered (exactSel path) rs
       then match_ regex_match m path r = lookupMethod m (exactEntry reg iteration rs path)
       else
         (exists q ms caps, In (q, ms) rs /\ isExact q = false /\ pmatch (patternOf q) path caps
            /\ match_ regex_match m path r
              = with_params (putCaptures caps ∅) (lookupMethod m (radixEntry reg iteration rs (patternOf q))))
         \/ (match_ regex_match m path r = noMatch
             /\ forall q ms caps, In (q, ms) rs -> isExact q = false ->
                  (length (patternOf q) <= kMaxPathSegments)%nat -> ~ pmatch (patternOf q) path caps).
Proof.
  intros Hok Hsize Hpath.
  destruct (addAll_built reg iteration rs (newRouterCore : @RouterCore Regex) Hok tree_wf_new)
    as (r & Hr & Hb); [done | cbn; lia |].
  exists r. split; [done |]. pose proof (built_fresh _ _ _ _ Hok Hb) as Hfresh. destruct Hb as [B1 B2 B3 _ B5].
  assert (Hrad : forall pat, entryAt (radixRoot_ r) pat = radixEntry reg iteration rs pat).
  { intros pat. rewrite B3. cbn [radixRoot_ newRouterCore]. unfold radixEntry. f_equal. by destruct pat as [| []]. }
  assert (Hne : forall pat, methods (entryAt (radixRoot_ r) pat) <> ∅ <->
    exists q ms, In (q, ms) rs /\ isExact q = false /\ patternOf q = pat).
  { intros pat. rewrite Hrad. unfold radixEntry. rewrite <- merged_nonempty, registered_spec by done.
    unfold radixSel. setoid_rewrite andb_true_iff. setoid_rewrite negb_true_iff. setoid_rewrite bool_decide_eq_true.
    split; [intros [[] | H]; done | intros H; by right]. }
  unfold match_. destruct (Z.ltb_spec kMaxPathLength (size path)); [lia |]. rewrite B1.
  destruct (registered (exactSel path) rs); [done |]. change (exactRoutes_ newRouterCore !! path) with (@None Entry).
  pose proof (matchRadix_sound (S kMaxPathSegments) (radixRoot_ r) path ∅ B2 Hfresh) as Hs.
  destruct (matchRadix _ (radixRoot_ r) path ∅) as [[e |] ps] eqn:Hm; cbn in Hs.
  - left. destruct Hs as (caps & (pat & He & Hme & Hp) & ->). rewrite <- He in Hme.
    apply Hne in Hme as (q & ms & Hin & Hx & <-). exists q, ms, caps. rewrite <- Hrad, He. done.
  - right. rewrite B5. split; [done |]. intros q ms caps Hin Hx Hlen Hp.
    destruct (matchRadix_complete (S kMaxPathSegments) (radixRoot_ r) path (patternOf q) caps ∅); [lia | | done | by rewrite Hm].
    apply Hne. by exists q, ms.
Qed.

Definition sample_routes : list (bytes * list HttpMethod) :=
  [(str "/users/:id", [Get]); (str "/users/me", [Get]); (str "/users/:id/*rest", [Post; Get])].

Lemma sample_routes_ok : Forall route_ok sample_routes.
Proof.
  apply List.Forall_forall. intros r [<- | [<- | [<- | []]]]; (split; [discriminate |]);
    split; by apply (bool_decide_unpack _).
Qed.

Lemma router_match_refines_witness :
  let iteration (m : gmap HttpMethod bool) := (map_to_list m).*1 in
  let path := str "/users/42" in
  exists r, addAll initRegistry iteration sample_routes (newRouterCore : @RouterCore unit) = (Ok tt, r)
    /\ if registered (exactSel path) sample_routes
       then match_ (fun _ _ => None) Get path r = lookupMethod Get (exactEntry initRegistry iteration sample_routes path)
       else
         (exists q ms caps, In (q, ms) sample_routes /\ isExact q = false /\ pmatch (patternOf q) path caps
            /\ match_ (fun _ _ => None) Get path r = with_params (putCaptures caps ∅)
                 (lookupMethod Get (radixEntry initRegistry iteration sample_routes (patternOf q))))
         \/ (match_ (fun _ _ => None) Get path r = noMatch
             /\ forall q ms caps, In (q, ms) sample_routes -> isExact q = false ->
                  (length (patternOf q) <= kMaxPathSegments)%nat -> ~ pmatch (patternOf q) path caps).
Proof.
  intros iteration path.
  apply (router_match_refines initRegistry iteration (fun _ _ => None) sample_routes Get path);
    [exact sample_routes_ok | reflexivity | discriminate].
Defined.

(** ** Handlers *)

Lemma handlerOf_set {Handler : Type} (id : Z) (h : Handler) (hs : list (option Handler)) :
  0 <= id -> handlerOf id (setHandler id h hs) = Some h.
Proof.
  intros Hid. unfold handlerOf, setHandler.
  set (hs' := if size hs <=? id then _ else hs).
  assert (Hlen : (Z.to_nat id < length hs')%nat).
  { unfold hs'. unfold size. destruct (Z.leb_spec (Z.of_nat (length hs)) id); [| lia].
    rewrite length_app, length_replicate. lia. }
  assert ((id <? size (<[Z.to_nat id := Some h]> hs')) = true) as ->.
  { apply Z.ltb_lt. unfold size. rewrite length_insert. lia. }
  by rewrite list_lookup_insert_eq.
Qed.

Lemma addRoute_exact (reg : MethodRegistry) (iteration : gmap HttpMethod bool -> list HttpMethod)
    {Regex : Type} (path : bytes) (ms : list HttpMethod) (r : @RouterCore Regex) :
  isExact path = true -> Forall (fun m => m <> _Invalid) ms -> 0 <= nextRouteId_ r < 2 ^ 64 - 1 ->
  addRoute reg iteration path ms r
  = (Ok (nextRouteId_ r),
     mkRouter (<[path := fillEntry reg iteration (default newEntry (exactRoutes_ r !! path)) ms (nextRouteId_ r)]>
                 (exactRoutes_ r)) (radixRoot_ r) (regexRoutes_ r) (nextRouteId_ r + 1)).
Proof.
  intros Hx Hms Hid. unfold addRoute.
  replace (existsb (fun m => m =? _Invalid) ms) with false; cycle 1.
  { symmetry. apply not_true_iff_false. rewrite existsb_exists. intros (m & Hin & Hm%Z.eqb_eq).
    rewrite List.Forall_forall in Hms. by apply (Hms m). }
  rewrite mbind_get, mbind_put, mbind_get. cbn [exactRoutes_ radixRoot_ regexRoutes_ nextRouteId_].
  fold (isExact path). rewrite Hx, mbind_put. unfold u64. by rewrite Z.mod_small by lia.
Qed.

Lemma fillEntry_id (reg : MethodRegistry) (iteration : gmap HttpMethod bool -> list HttpMethod)
    (e : Entry) (ms : list HttpMethod) (id : Z) : routeId (fillEntry reg iteration e ms id) = id.
Proof.
  unfold fillEntry. change id with (routeId (mkEntry id (methods e) (allowedMethods e))) at 2.
  generalize (mkEntry id (methods e) (allowedMethods e)). induction ms as [| m ms IH]; intros e'; [done |].
  cbn [foldl]. by rewrite IH.
Qed.

(** The last handler gets every method.  When two handlers are registered
    for one path with different methods, requests with a method of the first
    registration reach the second handler. *)
Theorem router_last_handler_wins (reg : MethodRegistry) (iteration : gmap HttpMethod bool -> list HttpMethod)
    {Regex Handler : Type} (regex_match : bytes -> Regex -> option (list bytes))
    (r : @HttpRouter Regex Handler) (path : bytes) (ms1 ms2 : list HttpMethod) (h1 h2 : Handler) (m : HttpMethod) :
  isExact path = true -> Forall (fun m => m <> _Invalid) ms1 -> Forall (fun m => m <> _Invalid) ms2 ->
  0 <= nextRouteId_ (core_ r) < 2 ^ 64 - 2 -> size path <= kMaxPathLength -> m ∈ ms1 ->
  exists r', (let* _ := addHandler reg iteration path ms1 h1 in addHandler reg iteration path ms2 h2) r = (Ok tt, r')
    /\ handler (route regex_match m path r') = Some h2 /\ reason (route regex_match m path r') = ReasonOk.
Proof.
  intros Hx H1 H2 Hid Hlen Hm.
  pose proof (addRoute_exact reg iteration path ms1 (core_ r) Hx H1 ltac:(lia)) as Hr1.
  set (e1 := fillEntry _ _ (default newEntry _) ms1 _) in Hr1. set (c1 := mkRouter _ _ _ _) in Hr1.
  pose proof (addRoute_exact reg iteration path ms2 c1 Hx H2 ltac:(cbn; lia)) as Hr2.
  cbn [exactRoutes_ c1] in Hr2. rewrite lookup_insert_eq in Hr2. change (default newEntry (Some e1)) with e1 in Hr2.
  set (e2 := fillEntry _ _ e1 ms2 _) in Hr2. set (c2 := mkRouter _ _ _ _) in Hr2.
  assert (Hrun : (let* _ := addHandler reg iteration path ms1 h1 in addHandler reg iteration path ms2 h2) r
    = (Ok tt, mkHttpRouter c2 (setHandler (nextRouteId_ (core_ r) + 1) h2
        (setHandler (nextRouteId_ (core_ r)) h1 (handlers_ r))))).
  { unfold addHandler, mbind, on_core. rewrite Hr1. cbn [mget mput core_ handlers_]. by rewrite Hr2. }
  eexists. split; [exact Hrun |]. unfold route, match_. destruct (Z.ltb_spec kMaxPathLength (size path)); [lia |].
  cbn [core_ handlers_ exactRoutes_ c2]. rewrite lookup_insert_eq. unfold lookupMethod, e2.
  rewrite (fillEntry_methods reg iteration e1 ms2 _ m) by (left; apply fillEntry_methods; by right).
  cbn [matched m_routeId]. by rewrite fillEntry_id, handlerOf_set by (cbn; lia).
Qed.

Lemma router_last_handler_wins_witness :
  let iteration (m : gmap HttpMethod bool) := (map_to_list m).*1 in
  let r := mkHttpRouter (newRouterCore : @RouterCore unit) ([] : list (option nat)) in
  exists r', (let* _ := addHandler initRegistry iteration (str "/data") [Get] 1%nat in
              addHandler initRegistry iteration (str "/data") [Post] 2%nat) r = (Ok tt, r')
    /\ handler (route (fun _ _ => None) Get (str "/data") r') = Some 2%nat
    /\ reason (route (fun _ _ => None) Get (str "/data") r') = ReasonOk.
Proof.
  intros iteration r.
  apply (router_last_handler_wins initRegistry iteration (fun _ _ => None) r (str "/data") [Get] [Post] 1%nat 2%nat Get);
    [reflexivity | by repeat constructor .. | done | done | by left].
Defined.

(** A double slash ends the path: what follows it is not looked at. *)
Lemma double_slash (caps : list (bytes * bytes)) :
  pmatch (patternOf (str "/users/:id")) (str "/users/42//delete") [(str "id", str "42")].
Proof.
  change (patternOf (str "/users/:id")) with [Static (str "users"); Param (str "id")].
  eapply pm_static; [reflexivity | done |]. eapply pm_param; [reflexivity | done |]. by apply pm_end.
Qed.
