(* ===== verification/Mutex.v ===== *)
(** [Mutex] of src/include/nitrocoro/core/Mutex.h: the lock coroutines wait
    for, with the atomic accesses of every thread as separate steps, and the
    first-come-first-served lock it implements. *)

From Stdlib Require Import ZArith Lia.
From stdpp Require Import base numbers option list functions.
From S2P Require Import Prelude.

(** ** State *)

(** [state_]: [this] when the mutex is unlocked; otherwise the awaiters pushed
    since the holder last took them, the newest first, linked by [next_]. *)
Inductive StateWord : Type :=
| Unlocked
| Locked (awaiters : list nat).

(** What a load of [state_] gives: one pointer. *)
Inductive Ptr : Type := PUnlocked | PNull | PNode (i : nat).

#[export] Instance Ptr_eq_dec : EqDecision Ptr.
Proof. solve_decision. Defined.

Definition head_ptr (s : StateWord) : Ptr :=
  match s with
  | Unlocked => PUnlocked
  | Locked [] => PNull
  | Locked (i :: _) => PNode i
  end.

(** Where a coroutine is: before [await_ready]; in [asynclockImpl] before the
    load and before the compare-exchange with what it loaded; suspended;
    holding the lock; and in [unlock] before the compare-exchange, before the
    exchange, and before the hand-over. *)
Inductive Pc : Type :=
| Idle
| Loading
| Casing (oldValue : Ptr)
| Waiting
| Holding
| Releasing
| Taking
| HandingOver.

Record Mutex : Type := mkMutex {
  state_ : StateWord;
  waiters_ : list nat;
  pc : nat -> Pc
}.

Definition newMutex : Mutex := mkMutex Unlocked [] (fun _ => Idle).

(** What a step does to the lock, as its users see it. *)
Inductive Event : Type :=
| Acquired (i : nat)
| Enqueued (i : nat)
| Released (i : nat).

(** ** Steps *)

Definition goto (i : nat) (p : Pc) (m : Mutex) : Mutex := mkMutex (state_ m) (waiters_ m) (<[i := p]> (pc m)).

(** [try_lock]: a strong compare-exchange. *)
Definition try_lock (i : nat) (m : Mutex) : Mutex * list Event :=
  match state_ m with
  | Unlocked => (goto i Holding (mkMutex (Locked []) (waiters_ m) (pc m)), [Acquired i])
  | Locked _ => (goto i Loading m, [])
  end.

(** The compare-exchange of [asynclockImpl], which may also [fail] for no
    reason; a failure reloads [oldValue]. *)
Definition asynclockImpl (i : nat) (oldValue : Ptr) (fail : bool) (m : Mutex) : Mutex * list Event :=
  if fail || bool_decide (head_ptr (state_ m) <> oldValue) then (goto i (Casing (head_ptr (state_ m))) m, [])
  else
    match state_ m with
    | Unlocked => (goto i Holding (mkMutex (Locked []) (waiters_ m) (pc m)), [Acquired i])
    | Locked l => (goto i Waiting (mkMutex (Locked (i :: l)) (waiters_ m) (pc m)), [Enqueued i])
    end.

(** [unlock] up to its load of [state_]. *)
Definition unlock (i : nat) (m : Mutex) : Mutex :=
  match waiters_ m with
  | [] => if decide (head_ptr (state_ m) = PNull) then goto i Releasing m else goto i Taking m
  | _ => goto i HandingOver m
  end.

(** The compare-exchange that gives the lock back. *)
Definition release (i : nat) (m : Mutex) : Mutex * list Event :=
  if decide (head_ptr (state_ m) = PNull)
  then (goto i Idle (mkMutex Unlocked (waiters_ m) (pc m)), [Released i])
  else (goto i Taking m, []).

(** The exchange, and the loop that reverses the awaiters in front of
    [waitersHead]. *)
Fixpoint reverseOnto (waiter waitersHead : list nat) : list nat :=
  match waiter with
  | [] => waitersHead
  | w :: temp => reverseOnto temp (w :: waitersHead)
  end.

Definition takeWaiters (i : nat) (m : Mutex) : option Mutex :=
  match state_ m with
  | Unlocked => None
  | Locked l => Some (goto i HandingOver (mkMutex (Locked []) (reverseOnto l (waiters_ m)) (pc m)))
  end.

(** [waiters_ = waitersHead->next_], and the awaiter is resumed: it holds the
    lock.  Without an awaiter the null pointer is used. *)
Definition handOver (i : nat) (m : Mutex) : option (Mutex * list Event) :=
  match waiters_ m with
  | [] => None
  | j :: rest => Some (goto j Holding (goto i Idle (mkMutex (state_ m) rest (pc m))), [Released i])
  end.

(** One atomic step of coroutine [i]; [None] is undefined behaviour. *)
Definition step (i : nat) (fail : bool) (m : Mutex) : option (Mutex * list Event) :=
  match pc m i with
  | Idle => Some (try_lock i m)
  | Loading => Some (goto i (Casing (head_ptr (state_ m))) m, [])
  | Casing oldValue => Some (asynclockImpl i oldValue fail m)
  | Waiting => Some (m, [])
  | Holding => Some (unlock i m, [])
  | Releasing => Some (release i m)
  | Taking => m' ← takeWaiters i m; Some (m', [])
  | HandingOver => handOver i m
  end.

(** An interleaving: whose turn it is, and whether its weak compare-exchange
    fails for no reason. *)
Fixpoint run (turns : list (nat * bool)) (m : Mutex) : option (Mutex * list Event) :=
  match turns with
  | [] => Some (m, [])
  | (i, fail) :: turns' =>
      '(m1, es1) ← step i fail m;
      '(m2, es2) ← run turns' m1;
      Some (m2, es1 ++ es2)
  end.

(** ** The lock it implements *)

(** A lock with a queue: who arrives when it is free gets it, who arrives later
    waits at the end, and a release serves the first in the queue. *)
Record FifoLock : Type := mkLock {
  holder : option nat;
  queue : list nat
}.

Definition fifo_event (e : Event) (a : FifoLock) : option FifoLock :=
  match e, holder a with
  | Acquired i, None => Some (mkLock (Some i) (queue a))
  | Enqueued i, Some _ => Some (mkLock (holder a) (queue a ++ [i]))
  | Released i, Some j =>
      if decide (i = j) then
        match queue a with
        | [] => Some (mkLock None [])
        | k :: q => Some (mkLock (Some k) q)
        end
      else None
  | _, _ => None
  end.

Fixpoint fifo_run (es : list Event) (a : FifoLock) : option FifoLock :=
  match es with
  | [] => Some a
  | e :: es' => a' ← fifo_event e a; fifo_run es' a'
  end.

Definition holds (p : Pc) : bool :=
  match p with Holding | Releasing | Taking | HandingOver => true | _ => false end.

Definition awaitersOf (s : StateWord) : list nat := match s with Unlocked => [] | Locked l => l end.

(** [refines m a]: the mutex is in a state of the lock [a]. *)
Record refines (m : Mutex) (a : FifoLock) : Prop := {
  ref_holder : forall i, holds (pc m i) = true <-> holder a = Some i;
  ref_unlocked : state_ m = Unlocked <-> holder a = None;
  ref_queue : queue a = waiters_ m ++ rev (awaitersOf (state_ m));
  ref_waiting : forall i, pc m i = Waiting <-> i ∈ queue a;
  ref_nodup : NoDup (queue a);
  ref_free : holder a = None -> queue a = [];
  ref_releasing : forall i, pc m i = Releasing -> waiters_ m = [];
  ref_taking : forall i, pc m i = Taking -> waiters_ m = [] /\ awaitersOf (state_ m) <> [];
  ref_handing : forall i, pc m i = HandingOver -> waiters_ m <> []
}.

Lemma refines_new : refines newMutex (mkLock None []).
Proof. split; cbn; try done. by intros i; split; [| intros ?%elem_of_nil]. constructor. Qed.

(** ** The refinement *)

Lemma goto_here (i : nat) (p : Pc) (m : Mutex) : pc (goto i p m) i = p.
Proof. cbn. by rewrite fn_lookup_insert. Qed.

Lemma goto_there (i j : nat) (p : Pc) (m : Mutex) : i <> j -> pc (goto i p m) j = pc m j.
Proof. intros Hne. cbn. by rewrite fn_lookup_insert_ne. Qed.

(** Case analysis on whose program counter is asked for. *)
Ltac whose i j :=
  destruct (decide (i = j)) as [<- | ?];
  [rewrite ?goto_here in * | rewrite ?goto_there in * by done].

(** A move that neither takes nor gives the lock nor waits. *)
Lemma refines_goto (i : nat) (p : Pc) (m : Mutex) (a : FifoLock) :
  refines m a -> holds p = holds (pc m i) -> p <> Waiting -> pc m i <> Waiting ->
  (p = Releasing -> waiters_ m = []) ->
  (p = Taking -> waiters_ m = [] /\ awaitersOf (state_ m) <> []) ->
  (p = HandingOver -> waiters_ m <> []) -> refines (goto i p m) a.
Proof.
  intros [H1 H2 H3 H4 H5 H6 H7 H8 H9] Hh Hw Hw' Hr Ht Hho. split; try done.
  - intros j. whose i j; [rewrite Hh |]; apply H1.
  - intros j. rewrite <- H4. whose i j; [split; intros; congruence | done].
  - intros j Hj. whose i j; [by apply Hr | by apply (H7 j)].
  - intros j Hj. whose i j; [by apply Ht | by apply (H8 j)].
  - intros j Hj. whose i j; [by apply Hho | by apply (H9 j)].
Qed.

(** Only the holder is in [unlock]. *)
Lemma refines_holder (m : Mutex) (a : FifoLock) (i j : nat) :
  refines m a -> holds (pc m i) = true -> holds (pc m j) = true -> i = j.
Proof. intros Hr Hi Hj. apply (ref_holder _ _ Hr) in Hi, Hj. congruence. Qed.

Lemma refines_acquire (i : nat) (m : Mutex) (a : FifoLock) :
  refines m a -> state_ m = Unlocked -> pc m i <> Waiting ->
  exists a', fifo_run [Acquired i] a = Some a'
    /\ refines (goto i Holding (mkMutex (Locked []) (waiters_ m) (pc m))) a'.
Proof.
  intros [H1 H2 H3 H4 H5 H6 H7 H8 H9] Hs Hw. pose proof (proj1 H2 Hs) as Hf. pose proof (H6 Hf) as Hq.
  rewrite Hq, Hs in H3. symmetry in H3. apply app_nil in H3 as [Hwn _].
  destruct a as [ho qu]. cbn in *. subst. exists (mkLock (Some i) []). split; [done |].
  split; cbn [holder queue state_ waiters_ goto]; try done.
  - intros j. whose i j; [done |]. cbn. rewrite H1. split; intros; congruence.
  - by rewrite Hwn.
  - intros j. rewrite <- H4. whose i j; [split; intros; congruence | done].
  - intros j Hj. whose i j; [done |]. cbn in Hj. exfalso. assert (Hh : holds (pc m j) = true) by (by rewrite Hj).
    by apply H1 in Hh.
  - intros j Hj. whose i j; [done |]. cbn in Hj. by apply (H9 j).
Qed.

Lemma refines_enqueue (i : nat) (l : list nat) (m : Mutex) (a : FifoLock) :
  refines m a -> state_ m = Locked l -> holds (pc m i) = false -> pc m i <> Waiting ->
  exists a', fifo_run [Enqueued i] a = Some a'
    /\ refines (goto i Waiting (mkMutex (Locked (i :: l)) (waiters_ m) (pc m))) a'.
Proof.
  intros [H1 H2 H3 H4 H5 H6 H7 H8 H9] Hs Hh Hw. destruct a as [ho qu]. cbn in *.
  destruct ho as [h |]; [| by rewrite Hs in H2; destruct H2 as [_ H2]; specialize (H2 eq_refl)].
  exists (mkLock (Some h) (qu ++ [i])). split; [done |].
  assert (Hni : i ∉ qu) by (intros Hin; by apply Hw, H4).
  split; cbn [holder queue state_ waiters_ goto awaitersOf]; try done.
  - intros j. whose i j; [| apply H1]. split; [done |]. intros Hj. apply H1 in Hj. congruence.
  - rewrite H3, Hs. cbn [awaitersOf rev]. by rewrite app_assoc.
  - intros j. rewrite elem_of_app, list_elem_of_singleton, <- H4. whose i j; [split; [by right | done] |].
    cbn. split; [by left | intros [? | ->]; done].
  - apply list.NoDup_app. split; [done |]. split; [by intros x Hx ->%list_elem_of_singleton | apply NoDup_singleton].
  - intros j Hj. whose i j; [done |]. cbn in Hj. by apply (H7 j).
  - intros j Hj. whose i j; [done |]. cbn in Hj. by destruct (H8 j Hj).
  - intros j Hj. whose i j; [done |]. cbn in Hj. by apply (H9 j).
Qed.

Lemma refines_release (i : nat) (m : Mutex) (a : FifoLock) :
  refines m a -> pc m i = Releasing -> state_ m = Locked [] ->
  exists a', fifo_run [Released i] a = Some a'
    /\ refines (goto i Idle (mkMutex Unlocked (waiters_ m) (pc m))) a'.
Proof.
  intros Hr Hp Hs. pose proof (refines_holder m a i) as Hone. destruct Hr as [H1 H2 H3 H4 H5 H6 H7 H8 H9].
  assert (Hh : holds (pc m i) = true) by (by rewrite Hp). pose proof (proj1 (H1 i) Hh) as Ha.
  pose proof (H7 i Hp) as Hw. rewrite Hw, Hs in H3. cbn in H3. destruct a as [ho qu]. cbn in *. subst.
  exists (mkLock None []). split; [by rewrite decide_True |].
  split; cbn [holder queue state_ waiters_ goto awaitersOf]; try done.
  - intros j. whose i j; [done |]. cbn. rewrite H1. split; intros; congruence.
  - by rewrite Hw.
  - intros j. rewrite <- H4. whose i j; [split; intros; congruence | done].
  - intros j Hj. whose i j; [done |]. cbn in Hj. assert (Hj' : holds (pc m j) = true) by (by rewrite Hj).
    apply H1 in Hj'. congruence.
  - intros j Hj. whose i j; [done |]. cbn in Hj. by apply (H9 j).
Qed.

Lemma reverseOnto_rev (l acc : list nat) : reverseOnto l acc = rev l ++ acc.
Proof.
  revert acc. induction l as [| x l IH]; intros acc; [done |]. cbn [reverseOnto rev]. rewrite IH.
  by rewrite <- app_assoc.
Qed.

Lemma refines_take (i : nat) (m : Mutex) (a : FifoLock) :
  refines m a -> pc m i = Taking -> exists m', takeWaiters i m = Some m' /\ refines m' a.
Proof.
  intros Hr Hp. destruct Hr as [H1 H2 H3 H4 H5 H6 H7 H8 H9]. destruct (H8 i Hp) as [Hw Hl].
  unfold takeWaiters. destruct (state_ m) as [| l] eqn:Hs; [done |]. cbn in Hl. eexists. split; [done |].
  assert (Hrev : rev l <> []) by (intros Hn; apply Hl; by rewrite <- (rev_involutive l), Hn).
  rewrite reverseOnto_rev, Hw, app_nil_r.
  assert (Hh : holds (pc m i) = true) by (by rewrite Hp). pose proof (proj1 (H1 i) Hh) as Ha.
  assert (Hone : forall j, holds (pc m j) = true -> i = j) by (intros j Hj; apply H1 in Hj; congruence).
  split; cbn [holder queue state_ waiters_ goto awaitersOf]; try done.
  - intros j. whose i j; [by rewrite Ha | apply H1].
  - by rewrite Ha.
  - rewrite H3, Hw. cbn. by rewrite app_nil_r.
  - intros j. rewrite <- H4. whose i j; [split; intros; congruence | done].
  - intros j Hj. whose i j; [done |]. cbn in Hj. assert (i = j) by (apply Hone; by rewrite Hj). done.
  - intros j Hj. whose i j; [done |]. cbn in Hj. assert (i = j) by (apply Hone; by rewrite Hj). done.
Qed.

Lemma refines_handOver (i : nat) (m : Mutex) (a : FifoLock) :
  refines m a -> pc m i = HandingOver ->
  exists m' es a', handOver i m = Some (m', es) /\ fifo_run es a = Some a' /\ refines m' a'.
Proof.
  intros Hr Hp. destruct Hr as [H1 H2 H3 H4 H5 H6 H7 H8 H9]. pose proof (H9 i Hp) as Hw.
  unfold handOver. destruct (waiters_ m) as [| j rest] eqn:Hws; [done |].
  assert (Hh : holds (pc m i) = true) by (by rewrite Hp). pose proof (proj1 (H1 i) Hh) as Ha.
  assert (Hone : forall k, holds (pc m k) = true -> i = k) by (intros k Hk; apply H1 in Hk; congruence).
  destruct a as [ho qu]. cbn in *. subst ho qu.
  assert (Hj : pc m j = Waiting) by (apply H4; by left).
  assert (Hij : i <> j) by (intros <-; congruence). apply list.NoDup_cons in H5 as [Hnj Hnd].
  eexists _, _, (mkLock (Some j) (rest ++ rev (awaitersOf (state_ m)))). split; [done |].
  split; [by cbn; rewrite decide_True |].
  split; cbn [holder queue state_ waiters_ goto awaitersOf]; try done.
  - intros k. whose j k; [done |]. whose i k; [cbn; split; intros; congruence |]. cbn. rewrite H1. split; intros; congruence.
  - rewrite H2. done.
  - intros k. whose j k; [split; [done | by intros ?] |]. whose i k.
    + split; [done |]. intros Hin. assert (pc m i = Waiting) by (apply H4; by right). congruence.
    + cbn. rewrite H4, elem_of_cons. split; [intros [? | ?]; done | by right].
  - intros k Hk. whose j k; [done |]. whose i k; [done |]. cbn in Hk. destruct (n0 (Hone k ltac:(by rewrite Hk))).
  - intros k Hk. whose j k; [done |]. whose i k; [done |]. cbn in Hk. destruct (n0 (Hone k ltac:(by rewrite Hk))).
  - intros k Hk. whose j k; [done |]. whose i k; [done |]. cbn in Hk. destruct (n0 (Hone k ltac:(by rewrite Hk))).
Qed.

Lemma head_ptr_null (m : Mutex) : head_ptr (state_ m) = PNull -> state_ m = Locked [].
Proof. by destruct (state_ m) as [| [|]]. Qed.

Lemma head_ptr_taken (m : Mutex) (a : FifoLock) (i : nat) :
  refines m a -> holds (pc m i) = true -> head_ptr (state_ m) <> PNull -> awaitersOf (state_ m) <> [].
Proof.
  intros Hr Hh Hn. apply (ref_holder _ _ Hr) in Hh. destruct (state_ m) as [| [|]] eqn:Hs; try done.
  apply (ref_unlocked _ _ Hr) in Hs. congruence.
Qed.

(** Every step is a step of the lock, or none. *)
Lemma step_refines (i : nat) (fail : bool) (m : Mutex) (a : FifoLock) :
  refines m a ->
  exists m' es a', step i fail m = Some (m', es) /\ fifo_run es a = Some a' /\ refines m' a'.
Proof.
  intros Hr. unfold step. destruct (pc m i) eqn:Hp.
  - unfold try_lock. destruct (state_ m) eqn:Hs.
    + destruct (refines_acquire i m a Hr Hs) as (a' & He & Hr'); [congruence |]. by eexists _, _, a'.
    + exists (goto i Loading m), [], a. split; [done |]. split; [done |]. by apply refines_goto; rewrite ?Hp.
  - exists (goto i (Casing (head_ptr (state_ m))) m), [], a. split; [done |]. split; [done |]. by apply refines_goto; rewrite ?Hp.
  - unfold asynclockImpl. destruct (fail || _) eqn:Hf.
    + exists (goto i (Casing (head_ptr (state_ m))) m), [], a. split; [done |]. split; [done |]. by apply refines_goto; rewrite ?Hp.
    + destruct (state_ m) as [| l] eqn:Hs.
      * destruct (refines_acquire i m a Hr Hs) as (a' & He & Hr'); [congruence |]. by eexists _, _, a'.
      * destruct (refines_enqueue i l m a Hr Hs) as (a' & He & Hr'); [by rewrite Hp | congruence |]. by eexists _, _, a'.
  - by exists m, [], a.
  - exists (unlock i m), [], a. split; [done |]. split; [done |]. unfold unlock. destruct (waiters_ m) as [| w ws] eqn:Hw.
    + destruct (decide _) as [Hn | Hn]; apply refines_goto; rewrite ?Hp; try done.
      intros _. split; [done |]. apply (head_ptr_taken m a i Hr); [by rewrite Hp | done].
    + apply refines_goto; rewrite ?Hp; try done. by rewrite Hw.
  - unfold release. destruct (decide _) as [Hn | Hn].
    + destruct (refines_release i m a Hr Hp (head_ptr_null m Hn)) as (a' & He & Hr'). by eexists _, _, a'.
    + exists (goto i Taking m), [], a. split; [done |]. split; [done |]. apply refines_goto; rewrite ?Hp; try done.
      intros _. split; [by apply (ref_releasing _ _ Hr i) |]. apply (head_ptr_taken m a i Hr); [by rewrite Hp | done].
  - destruct (refines_take i m a Hr Hp) as (m' & Ht & Hr'). exists m', [], a. by rewrite Ht.
  - by apply refines_handOver.
Qed.

Lemma fifo_run_app (es1 es2 : list Event) (a : FifoLock) :
  fifo_run (es1 ++ es2) a = (a' ← fifo_run es1 a; fifo_run es2 a').
Proof.
  revert a. induction es1 as [| e es1 IH]; intros a; [done |]. cbn [app fifo_run].
  destruct (fifo_event e a); [apply IH | done].
Qed.

Lemma run_refines (turns : list (nat * bool)) (m : Mutex) (a : FifoLock) :
  refines m a ->
  exists m' es a', run turns m = Some (m', es) /\ fifo_run es a = Some a' /\ refines m' a'.
Proof.
  revert m a. induction turns as [| [i fail] turns IH]; intros m a Hr; [by exists m, [], a |].
  destruct (step_refines i fail m a Hr) as (m1 & es1 & a1 & Hs & He1 & Hr1).
  destruct (IH m1 a1 Hr1) as (m2 & es2 & a2 & Hrun & He2 & Hr2).
  exists m2, (es1 ++ es2), a2. cbn [run]. rewrite Hs. cbn. rewrite Hrun. split; [done |].
  split; [| done]. by rewrite fifo_run_app, He1.
Qed.

(** Others do not move the holder. *)
Lemma step_others (i j : nat) (fail : bool) (m m' : Mutex) (a : FifoLock) (es : list Event) :
  refines m a -> i <> j -> holds (pc m i) = true -> step j fail m = Some (m', es) -> pc m' i = pc m i.
Proof.
  intros Hr Hne Hh. assert (Hnj : holds (pc m j) = false).
  { destruct (holds (pc m j)) eqn:Hj; [| done]. destruct Hne. by eapply refines_holder. }
  unfold step, try_lock, asynclockImpl. destruct (pc m j) eqn:Hp; try done.
  - by destruct (state_ m); intros [= <- <-]; rewrite goto_there.
  - intros [= <- <-]. by rewrite goto_there.
  - by destruct (fail || _), (state_ m); intros [= <- <-]; rewrite goto_there.
  - by intros [= <- <-].
Qed.

(** How many turns [unlock] still needs. *)
Definition turnsLeft (p : Pc) : nat :=
  match p with Holding => 4 | Releasing => 3 | Taking => 2 | HandingOver => 1 | _ => 0 end.

Definition turnsOf (i : nat) (turns : list (nat * bool)) : nat :=
  length (List.filter (fun t => fst t =? i)%nat turns).

Lemma unlock_turns (i : nat) (turns : list (nat * bool)) (m : Mutex) (a : FifoLock) :
  refines m a -> holds (pc m i) = true -> (turnsLeft (pc m i) <= turnsOf i turns)%nat ->
  exists m' es, run turns m = Some (m', es) /\ Released i ∈ es.
Proof.
  revert m a. induction turns as [| [j fail] turns IH]; intros m a Hr Hh Ht.
  { destruct (pc m i); cbn in *; (done || lia). }
  destruct (step_refines j fail m a Hr) as (m1 & es1 & a1 & Hs & _ & Hr1).
  destruct (run_refines turns m1 a1 Hr1) as (m2 & es2 & _ & Hrun & _).
  exists m2, (es1 ++ es2). cbn [run]. rewrite Hs. cbn. rewrite Hrun. split; [done |].
  apply elem_of_app. unfold turnsOf in *. cbn [List.filter fst] in Ht.
  assert (Hlater : holds (pc m1 i) = true -> (turnsLeft (pc m1 i) <= turnsOf i turns)%nat -> Released i ∈ es2).
  { intros Hh1 Ht1. destruct (IH m1 a1 Hr1 Hh1 Ht1) as (m3 & es3 & Hrun3 & Hin). congruence. }
  destruct (Nat.eqb_spec j i) as [-> | Hne].
  - cbn [length] in Ht. unfold step in Hs. destruct (pc m i) eqn:Hp; try done.
    + injection Hs as <- <-. right. cbn in Ht.
      apply Hlater; unfold unlock; destruct (waiters_ m); [destruct (decide (head_ptr (state_ m) = PNull)) | |
        destruct (decide (head_ptr (state_ m) = PNull)) |]; rewrite goto_here; cbn; (done || unfold turnsOf; lia).
    + unfold release in Hs. destruct (decide _); injection Hs as <- <-; [left; by left |].
      right. apply Hlater; rewrite goto_here; cbn; [done | unfold turnsOf; cbn in Ht; lia].
    + unfold takeWaiters in Hs. destruct (state_ m); [done |]. injection Hs as <- <-.
      right. apply Hlater; rewrite goto_here; cbn; [done | unfold turnsOf; cbn in Ht; lia].
    + unfold handOver in Hs. destruct (waiters_ m); [done |]. injection Hs as <- <-. left. by left.
  - right. assert (Hsame : pc m1 i = pc m i) by (eapply step_others; [exact Hr | done | done | exact Hs]).
    apply Hlater; rewrite Hsame; [done | exact Ht].
Qed.

(** ** Properties *)

(** C19: the mutex is a first-come-first-served lock.  However the atomic steps
    of any coroutines on any threads interleave, and whichever weak
    compare-exchanges fail, no assertion of [Mutex] fails and no null awaiter
    is used, at most one coroutine holds the lock, and the lock goes to
    waiting coroutines in the order in which they were pushed: the events are
    those of a lock with a queue. *)
Theorem mutex_refines_fifo (turns : list (nat * bool)) :
  exists m es a,
    run turns newMutex = Some (m, es) /\ fifo_run es (mkLock None []) = Some a
    /\ (forall i, holds (pc m i) = true <-> holder a = Some i)
    /\ (forall i, pc m i = Waiting <-> i ∈ queue a)
    /\ queue a = waiters_ m ++ rev (awaitersOf (state_ m)) /\ NoDup (queue a).
Proof.
  destruct (run_refines turns newMutex (mkLock None []) refines_new) as (m & es & a & Hrun & He & Hr).
  exists m, es, a. split; [done |]. split; [done |]. destruct Hr. done.
Qed.

(** Unlocking is wait-free.  Whatever the others do, a coroutine that holds
    the lock and unlocks it has released it after four turns of its own. *)
Theorem mutex_unlock_live (before turns : list (nat * bool)) (i : nat) (m : Mutex) (es0 : list Event) :
  run before newMutex = Some (m, es0) -> pc m i = Holding -> (4 <= turnsOf i turns)%nat ->
  exists m' es, run turns m = Some (m', es) /\ Released i ∈ es.
Proof.
  intros Hrun Hp Ht.
  destruct (run_refines before newMutex (mkLock None []) refines_new) as (m0 & es & a & Hrun0 & _ & Hr).
  assert (m0 = m) as -> by congruence. apply (unlock_turns i turns m a Hr); rewrite Hp; done.
Qed.

Lemma mutex_unlock_live_witness :
  let before := [(1, false); (2, false); (2, false); (2, false)]%nat in
  let turns := [(1, false); (3, false); (1, false); (3, false); (1, false); (3, true); (1, false)]%nat in
  exists m es0, run before newMutex = Some (m, es0) /\ pc m 1%nat = Holding
    /\ exists m' es, run turns m = Some (m', es) /\ Released 1 ∈ es.
Proof.
  intros before turns. eexists _, _. split; [reflexivity |]. split; [reflexivity |].
  eapply (mutex_unlock_live before turns 1); [reflexivity | reflexivity | cbn; lia].
Defined.
