(* ===== verification/Pipe.v ===== *)
(** [PipeState] of src/include/nitrocoro/core/Pipe.h with the [MpscQueue] it is
    made of (src/include/nitrocoro/core/MpscQueue.h): several senders and one
    receiver, every atomic access a step of its own. *)

From Stdlib Require Import ZArith Lia.
From stdpp Require Import base numbers option list.
From S2P Require Import Prelude.

Section pipe.
Context {T : Type}.

(** ** State *)

(** A node of the queue behind [head_]: its value, and whether the [next] of
    the node before it has been set. *)
Record Node : Type := mkNode {
  value : T;
  linked : bool
}.

(** A sender in [send]: before the load of [closed_], before the exchange of
    [tail_], before the store of [next] (of the node at an offset counted over
    all pushes), and before the exchange of [waiter_]. *)
Inductive SenderPc : Type :=
| SIdle
| SPush (v : T)
| SLink (v : T) (node : nat)
| SWake.

Record Sender : Type := mkSender {
  s_pc : SenderPc;
  toSend : list T
}.

(** [close], which the destructor of the last sender calls. *)
Inductive CloserPc : Type := COpen | CWake | CDone.

(** The receiver: outside of [recv]; in [await_ready] at its two loads; in
    [await_suspend] before the store of [waiter_], at its two loads and before
    the compare-exchange; suspended; and in [await_resume]. *)
Inductive ReceiverPc : Type :=
| RIdle
| RReadyQueue
| RReadyClosed
| RStore
| RCheckQueue
| RCheckClosed
| RCas
| RSuspended
| RResume.

(** [waiter_] is the receiver's handle or null; [storeBuffer] holds the store of
    it while other threads do not see it; [scheduled]: the scheduler has the
    handle.  [popped] counts the nodes that left the queue, [pushes] the values
    in the order of the exchanges of [tail_]. *)
Record PipeState : Type := mkPipe {
  queue_ : list Node;
  closed_ : bool;
  waiter_ : bool;
  storeBuffer : bool;
  scheduled : bool;
  senders : list Sender;
  closer : CloserPc;
  receiver : ReceiverPc;
  received : list (option T);
  popped : nat;
  pushes : list T
}.

Definition newPipe (scripts : list (list T)) : PipeState :=
  mkPipe [] false false false false (map (mkSender SIdle) scripts) COpen RIdle [] 0 [].

(** ** [MpscQueue] *)

(** [head->next] is null. *)
Definition empty (p : PipeState) : bool :=
  match queue_ p with
  | [] => true
  | n :: _ => negb (linked n)
  end.

Definition set_queue (q : list Node) (p : PipeState) : PipeState :=
  mkPipe q (closed_ p) (waiter_ p) (storeBuffer p) (scheduled p) (senders p) (closer p) (receiver p)
    (received p) (popped p) (pushes p).

(** [tail_.exchange(node)]: the node is the last one, but not linked yet. *)
Definition exchangeTail (v : T) (p : PipeState) : PipeState :=
  mkPipe (queue_ p ++ [mkNode v false]) (closed_ p) (waiter_ p) (storeBuffer p) (scheduled p) (senders p)
    (closer p) (receiver p) (received p) (popped p) (pushes p ++ [v]).

(** [prev->next.store(node)] *)
Definition link (node : nat) (p : PipeState) : PipeState :=
  set_queue (alter (fun n => mkNode (value n) true) (node - popped p)%nat (queue_ p)) p.

(** [pop], as the result of [await_resume]. *)
Definition pop (p : PipeState) : PipeState :=
  match queue_ p with
  | n :: q =>
      if linked n then
        mkPipe q (closed_ p) (waiter_ p) (storeBuffer p) (scheduled p) (senders p) (closer p) RIdle
          (received p ++ [Some (value n)]) (S (popped p)) (pushes p)
      else
        mkPipe (queue_ p) (closed_ p) (waiter_ p) (storeBuffer p) (scheduled p) (senders p) (closer p) RIdle
          (received p ++ [None]) (popped p) (pushes p)
  | [] =>
      mkPipe [] (closed_ p) (waiter_ p) (storeBuffer p) (scheduled p) (senders p) (closer p) RIdle
        (received p ++ [None]) (popped p) (pushes p)
  end.

(** ** Steps *)

Definition set_receiver (r : ReceiverPc) (p : PipeState) : PipeState :=
  mkPipe (queue_ p) (closed_ p) (waiter_ p) (storeBuffer p) (scheduled p) (senders p) (closer p) r
    (received p) (popped p) (pushes p).
Definition set_waiter (w b : bool) (p : PipeState) : PipeState :=
  mkPipe (queue_ p) (closed_ p) w b (scheduled p) (senders p) (closer p) (receiver p)
    (received p) (popped p) (pushes p).
Definition set_scheduled (s : bool) (p : PipeState) : PipeState :=
  mkPipe (queue_ p) (closed_ p) (waiter_ p) (storeBuffer p) s (senders p) (closer p) (receiver p)
    (received p) (popped p) (pushes p).
Definition set_sender (i : nat) (s : Sender) (p : PipeState) : PipeState :=
  mkPipe (queue_ p) (closed_ p) (waiter_ p) (storeBuffer p) (scheduled p) (<[i := s]> (senders p)) (closer p)
    (receiver p) (received p) (popped p) (pushes p).
Definition set_closer (c : CloserPc) (closed : bool) (p : PipeState) : PipeState :=
  mkPipe (queue_ p) closed (waiter_ p) (storeBuffer p) (scheduled p) (senders p) c
    (receiver p) (received p) (popped p) (pushes p).

(** [waiter_.exchange(nullptr)], and [schedule] when there was a handle. *)
Definition wakeReceiver (p : PipeState) : PipeState :=
  let p' := set_waiter false (storeBuffer p) p in
  if waiter_ p then set_scheduled true p' else p'.

Definition senderStep (i : nat) (p : PipeState) : PipeState :=
  match senders p !! i with
  | None => p
  | Some s =>
      match s_pc s, toSend s with
      | SIdle, [] => p
      | SIdle, v :: vs =>
          if closed_ p then set_sender i (mkSender SIdle vs) p else set_sender i (mkSender (SPush v) vs) p
      | SPush v, vs => set_sender i (mkSender (SLink v (popped p + length (queue_ p))%nat) vs) (exchangeTail v p)
      | SLink v node, vs => set_sender i (mkSender SWake vs) (link node p)
      | SWake, vs => set_sender i (mkSender SIdle vs) (wakeReceiver p)
      end
  end.

Definition finished (s : Sender) : bool :=
  match s_pc s, toSend s with SIdle, [] => true | _, _ => false end.

(** The last sender is gone when all have sent what they had. *)
Definition closerStep (p : PipeState) : PipeState :=
  match closer p with
  | COpen => if forallb finished (senders p) then set_closer CWake true p else p
  | CWake => set_closer CDone (closed_ p) (wakeReceiver p)
  | CDone => p
  end.

(** With [tso] the store of [waiter_], which is a release store, may wait in a
    store buffer while the loads after it are done, as it may on x86; without,
    it is seen at once.  The compare-exchange drains the buffer. *)
Context (tso : bool).

Definition receiverStep (p : PipeState) : PipeState :=
  match receiver p with
  | RIdle => set_receiver RReadyQueue p
  | RReadyQueue => set_receiver (if empty p then RReadyClosed else RResume) p
  | RReadyClosed => set_receiver (if closed_ p then RResume else RStore) p
  | RStore => set_receiver RCheckQueue (if tso then set_waiter (waiter_ p) true p else set_waiter true false p)
  | RCheckQueue => set_receiver (if empty p then RCheckClosed else RCas) p
  | RCheckClosed => set_receiver (if closed_ p then RCas else RSuspended) p
  | RCas =>
      if waiter_ p || storeBuffer p then set_receiver RResume (set_waiter false false p)
      else set_receiver RSuspended p
  | RSuspended => if scheduled p then set_receiver RResume (set_scheduled false p) else p
  | RResume => pop p
  end.

Definition flush (p : PipeState) : PipeState := if storeBuffer p then set_waiter true false p else p.

Inductive Turn : Type := Send (i : nat) | Close | Receive | Flush.

Definition turn (t : Turn) (p : PipeState) : PipeState :=
  match t with
  | Send i => senderStep i p
  | Close => closerStep p
  | Receive => receiverStep p
  | Flush => flush p
  end.

Definition run (ts : list Turn) (p : PipeState) : PipeState := foldl (fun p t => turn t p) p ts.
End pipe.

(** ** Order *)

Section order.
Context {T : Type}.
Implicit Types p : @PipeState T.

(** The values [recv] gave the receiver. *)
Definition delivered (p : PipeState) : list T := omap (fun r : option T => r) (received p).

(** What the receiver got, and what is still in the queue, is what was pushed. *)
Definition in_order (p : PipeState) : Prop :=
  delivered p ++ map value (queue_ p) = pushes p.

Lemma map_value_alter (i : nat) (q : list (@Node T)) :
  map value (alter (fun n => mkNode (value n) true) i q) = map value q.
Proof. revert i. induction q as [| n q IH]; intros [| i]; cbn; [done .. |]. by rewrite IH. Qed.

Lemma wakeReceiver_in_order (p : PipeState) : in_order p -> in_order (wakeReceiver p).
Proof. unfold wakeReceiver. by destruct (waiter_ p). Qed.

Lemma turn_in_order (tso : bool) (t : Turn) (p : PipeState) : in_order p -> in_order (turn tso t p).
Proof.
  intros H. unfold in_order, delivered in *. destruct t as [i | | |]; cbn [turn].
  - unfold senderStep. destruct (senders p !! i) as [[[| v | v n |] [| w vs]] |]; try done.
    + by destruct (closed_ p).
    + cbn. by rewrite map_app, app_assoc, H.
    + cbn. by rewrite map_app, app_assoc, H.
    + cbn. by rewrite map_value_alter.
    + cbn. by rewrite map_value_alter.
    + by apply (wakeReceiver_in_order p).
    + by apply (wakeReceiver_in_order p).
  - unfold closerStep. destruct (closer p); [by destruct (forallb _ _) | by apply (wakeReceiver_in_order p) | done].
  - unfold receiverStep. destruct (receiver p); try done.
    + by destruct tso.
    + by destruct (waiter_ p || storeBuffer p).
    + by destruct (scheduled p).
    + unfold pop. destruct (queue_ p) as [| n q] eqn:Hq; [| destruct (linked n)]; cbn [received queue_];
        rewrite omap_app, <- app_assoc; rewrite <- H; cbn; done.
  - unfold flush. by destruct (storeBuffer p).
Qed.

(** ** Wake-ups *)

Definition someoneWakes (p : PipeState) : Prop :=
  closer p = CWake \/ exists i (s : @Sender T), senders p !! i = Some s /\ s_pc s = SWake.

(** The receiver's handle has been given away: from the store of [waiter_] until
    it is resumed. *)
Definition handedOut (r : ReceiverPc) : bool :=
  match r with RCheckQueue | RCheckClosed | RCas | RSuspended => true | _ => false end.

(** Without store buffers: the handle is in one place; a receiver that found
    the queue empty is woken if something is linked afterwards, and one that is
    suspended also if the pipe is closed. *)
Record awake (p : PipeState) : Prop := {
  awake_buffer : storeBuffer p = false;
  awake_handle : xorb (waiter_ p) (scheduled p) = handedOut (receiver p);
  awake_once : waiter_ p && scheduled p = false;
  awake_closed : closed_ p = true <-> closer p <> COpen;
  awake_queue : receiver p = RCheckClosed \/ receiver p = RSuspended ->
    waiter_ p = true -> empty p = false -> someoneWakes p;
  awake_suspended : receiver p = RSuspended -> waiter_ p = true -> closed_ p = true -> someoneWakes p
}.

Lemma awake_new (scripts : list (list T)) : awake (newPipe scripts).
Proof. by split. Qed.

Lemma wakeReceiver_awake (p : PipeState) :
  awake p ->
  let p' := wakeReceiver p in
  waiter_ p' = false /\ storeBuffer p' = false /\ xorb (waiter_ p') (scheduled p') = handedOut (receiver p').
Proof.
  intros [H1 H2 H3 _ _ _]. unfold wakeReceiver.
  destruct (waiter_ p) eqn:Hw, (scheduled p) eqn:Hs; cbn in *; rewrite ?Hs; done.
Qed.

(** A sender that moves on without having to wake anybody. *)
Lemma someoneWakes_other (i : nat) (s s' : @Sender T) (p : PipeState) :
  senders p !! i = Some s -> s_pc s <> SWake -> someoneWakes p -> someoneWakes (set_sender i s' p).
Proof.
  intros Hs Hpc [Hc | (j & sj & Hj & Hw)]; [by left |]. right. exists j, sj.
  cbn [set_sender senders]. rewrite list_lookup_insert_ne; [done |]. intros ->. congruence.
Qed.

Lemma senderStep_awake (i : nat) (p : PipeState) : awake p -> awake (senderStep i p).
Proof.
  intros H. unfold senderStep. destruct (senders p !! i) as [[pc vs] |] eqn:Hs; [| done].
  assert (Hmove : forall s', pc <> SWake -> awake (set_sender i s' p)).
  { intros s' Hpc. destruct H as [H1 H2 H3 H4 H5 H6]. split; cbn [set_sender storeBuffer waiter_ scheduled receiver
      closed_ closer]; try done; intros; eapply someoneWakes_other; eauto. }
  cbn [s_pc toSend]. destruct pc as [| v | v n |].
  - destruct vs; [done |]. by destruct (closed_ p); apply Hmove.
  - specialize (Hmove (mkSender (SLink v (popped p + length (queue_ p))%nat) vs) ltac:(done)).
    destruct Hmove as [H1 H2 H3 H4 H5 H6]. split; try done. intros Hr Hw He. apply H5; [done | done |].
    revert He. unfold empty. cbn. by destruct (queue_ p).
  - specialize (Hmove (mkSender SWake vs) ltac:(done)).
    assert (Hwake : someoneWakes (set_sender i (mkSender SWake vs) (link n p))).
    { right. exists i, (mkSender SWake vs). split; [| done]. cbn. apply list_lookup_insert_eq.
      by eapply lookup_lt_Some. }
    destruct Hmove as [H1 H2 H3 H4 _ _]. by split.
  - destruct (wakeReceiver_awake p H) as (Hw & Hb & Hx). destruct H as [_ _ _ H4 _ _].
    split; cbn [set_sender storeBuffer waiter_ scheduled receiver closed_ closer]; try done; try congruence;
      first [by rewrite Hw | by unfold wakeReceiver; destruct (waiter_ p) | intros _ Hw'; congruence].
Qed.

Lemma closerStep_awake (p : PipeState) : awake p -> awake (closerStep p).
Proof.
  intros H. unfold closerStep. destruct (closer p) eqn:Hc; [| | done].
  - destruct (forallb finished (senders p)); [| done]. destruct H as [H1 H2 H3 H4 H5 H6].
    split; cbn [set_closer storeBuffer waiter_ scheduled receiver closed_ closer]; try done; by left.
  - destruct (wakeReceiver_awake p H) as (Hw & Hb & Hx). destruct H as [_ _ _ H4 _ _].
    split; cbn [set_closer storeBuffer waiter_ scheduled receiver closed_ closer]; try done; try congruence;
      first [by rewrite Hw | by rewrite H4, Hc | intros _ Hw'; congruence].
Qed.

Lemma receiverStep_awake (p : PipeState) : awake p -> awake (receiverStep false p).
Proof.
  intros [H1 H2 H3 H4 H5 H6]. unfold receiverStep. destruct (receiver p) eqn:Hr; cbn [handedOut] in H2.
  - by split; cbn; try done; intros [|].
  - by destruct (empty p); split; cbn; try done; intros [|].
  - by destruct (closed_ p) eqn:Hc; split; cbn; rewrite ?Hc; try done; intros [|].
  - apply xorb_eq in H2. rewrite H2, andb_diag in H3.
    split; cbn; rewrite ?H3; try done. by intros [|].
  - destruct (empty p) eqn:He; split; cbn [set_receiver storeBuffer waiter_ scheduled receiver closed_ closer];
      try done; [| by intros [|]]. intros _ _ He'. change (empty p = false) in He'. congruence.
  - destruct (closed_ p) eqn:Hc; split; cbn [set_receiver storeBuffer waiter_ scheduled receiver closed_ closer];
      rewrite ?Hc; try done; try (by intros [|]).
    intros _ Hw He. specialize (H5 (or_introl eq_refl) Hw He). done.
  - rewrite H1, orb_false_r. destruct (waiter_ p) eqn:Hw; cbn in H2.
    + split; cbn; try done; try (by intros [|]); by destruct (scheduled p).
    + split; cbn; rewrite ?Hw; try done.
  - destruct (scheduled p) eqn:Hs; [| by split; cbn; rewrite ?Hr, ?Hs].
    split; cbn; try done; try (by intros [|]); destruct (waiter_ p); done.
  - unfold pop. destruct (queue_ p) as [| n q] eqn:Hq; [| destruct (linked n)];
      split; cbn; try done; intros [|]; done.
Qed.

Lemma turn_awake (t : Turn) (p : PipeState) : awake p -> awake (turn false t p).
Proof.
  intros H. destruct t as [i | | |]; cbn [turn].
  - by apply senderStep_awake.
  - by apply closerStep_awake.
  - by apply receiverStep_awake.
  - unfold flush. by rewrite (awake_buffer _ H).
Qed.

End order.

(** ** Properties *)

(** C29: a pipe delivers in order, and its receiver is woken.  However the steps
    of the senders, of the last one's destructor and of the receiver
    interleave, the values received are the first of the values pushed, each
    once and in the order of the pushes; the receiver's handle is scheduled at
    most once for each time it is given away; and if the accesses are seen in
    one order by all threads, a suspended receiver is not forgotten: when it
    is not scheduled and a value can be popped or the pipe is closed, a sender
    or the destructor is about to wake it, and once they are done it is not
    suspended. *)
Theorem pipe_no_lost_wakeup {T : Type} (scripts : list (list T)) (ts : list Turn) :
  let p := run false ts (newPipe scripts) in
  delivered p ++ map value (queue_ p) = pushes p
  /\ waiter_ p && scheduled p = false
  /\ (receiver p = RSuspended -> scheduled p = false -> empty p = false \/ closed_ p = true -> someoneWakes p)
  /\ (closer p = CDone -> Forall (fun s => finished s = true) (senders p) ->
      receiver p = RSuspended -> scheduled p = true).
Proof.
  intros p.
  assert (Ho : in_order p) by (apply (foldl_invariant _ in_order); [intros; by apply turn_in_order | done]).
  assert (Ha : awake p) by (apply (foldl_invariant _ awake); [intros; by apply turn_awake | apply awake_new]).
  split; [exact Ho |]. split; [apply (awake_once _ Ha) |].
  assert (Hwoken : receiver p = RSuspended -> scheduled p = false -> empty p = false \/ closed_ p = true -> someoneWakes p).
  { intros Hr Hs He. pose proof (awake_handle _ Ha) as Hx. rewrite Hr, Hs, xorb_false_r in Hx.
    destruct He; [apply (awake_queue _ Ha); auto | by apply (awake_suspended _ Ha)]. }
  split; [exact Hwoken |]. intros Hc Hf Hr. destruct (scheduled p) eqn:Hs; [done |].
  destruct (Hwoken Hr eq_refl) as [? | (i & s & Hi & Hpc)].
  - right. apply (awake_closed _ Ha). by rewrite Hc.
  - congruence.
  - rewrite Forall_lookup in Hf. specialize (Hf i s Hi). unfold finished in Hf. by rewrite Hpc in Hf.
Qed.

(** An end that is none.  A sender on another thread that has linked its
    value and not yet woken the receiver may find it suspended again: the
    receiver took the value without waiting and came back.  The late wake-up
    makes [recv] return [nullopt], the end of the pipe, while the pipe is open
    and the sender goes on sending. *)
Theorem pipe_spurious_eof {T : Type} (v w : T) :
  exists ts, let p := run false ts (newPipe [[v; w]]) in
    received p = [Some v; None] /\ closed_ p = false /\ pushes (run false [Send 0; Send 0] p) = [v; w].
Proof.
  exists (replicate 3 (Send 0) ++ replicate 9 Receive ++ [Send 0] ++ replicate 2 Receive).
  by vm_compute.
Qed.

(** A wake-up lost in a store buffer.  The receiver's store of [waiter_] is
    a release store and its second look at the queue an acquire load, so the
    look may come first; a send in between finds no receiver to wake, and the
    receiver is suspended with a value in the queue and nobody about to wake
    it. *)
Theorem pipe_store_buffer {T : Type} (v : T) :
  exists ts, let p := run true ts (newPipe [[v]]) in
    receiver p = RSuspended /\ scheduled p = false /\ empty p = false /\ storeBuffer p = false
    /\ forallb finished (senders p) = true /\ closer p = COpen.
Proof.
  exists (replicate 6 Receive ++ replicate 4 (Send 0) ++ [Flush]). by vm_compute.
Qed.
