(* ===== verification/Pool.v ===== *)
(** The connection pool of src/extensions/pg/src/PoolState.cc, PgPool.cc and
    PooledConnection.cc: who waits, what is idle, and how many connections
    there are.  Everything runs on the pool's scheduler, so that each function
    here is one step. *)

From Stdlib Require Import ZArith Lia.
From stdpp Require Import base numbers option list gmap.
From S2P Require Import Prelude.
Open Scope Z_scope.

(** ** State *)

(** What a promise of a connection was given; connections
    ([PgConnectionImpl]) and waiters are named by numbers. *)
Inductive Result : Type := Got (c : nat) | Failed.

(** [PoolState::Waiter]: its promise and whether it was cancelled. *)
Record Waiter : Type := mkWaiter {
  promise : option Result;
  cancelled : bool
}.

(** What was given to [scheduler->dispatch]: [returnConnection] with the
    connection, [detachConnection]. *)
Inductive Posted : Type := Return (c : nat) | Detach.

(** [objects]: every [Waiter] made; [acquiring]: those whose [acquire] has not
    returned; [connecting]: those for whom a spawned coroutine opens a
    connection; [out]: the connections of the [PooledConnection]s whose
    [detached_] flag is not set. *)
Record PoolState : Type := mkPool {
  maxSize : Z;
  totalCount : Z;
  idle : list nat;
  waiters : list nat;
  objects : gmap nat Waiter;
  acquiring : list nat;
  connecting : list nat;
  out : list nat;
  posted : list Posted
}.

Definition newPool (size : Z) : PoolState := mkPool size 0 [] [] ∅ [] [] [] [].

Abbreviation P := (M PoolState).

Definition set_total (n : Z) (s : PoolState) : PoolState :=
  mkPool (maxSize s) n (idle s) (waiters s) (objects s) (acquiring s) (connecting s) (out s) (posted s).
Definition set_idle (l : list nat) (s : PoolState) : PoolState :=
  mkPool (maxSize s) (totalCount s) l (waiters s) (objects s) (acquiring s) (connecting s) (out s) (posted s).
Definition set_waiters (l : list nat) (s : PoolState) : PoolState :=
  mkPool (maxSize s) (totalCount s) (idle s) l (objects s) (acquiring s) (connecting s) (out s) (posted s).
Definition set_objects (m : gmap nat Waiter) (s : PoolState) : PoolState :=
  mkPool (maxSize s) (totalCount s) (idle s) (waiters s) m (acquiring s) (connecting s) (out s) (posted s).
Definition set_acquiring (l : list nat) (s : PoolState) : PoolState :=
  mkPool (maxSize s) (totalCount s) (idle s) (waiters s) (objects s) l (connecting s) (out s) (posted s).
Definition set_connecting (l : list nat) (s : PoolState) : PoolState :=
  mkPool (maxSize s) (totalCount s) (idle s) (waiters s) (objects s) (acquiring s) l (out s) (posted s).
Definition set_out (l : list nat) (s : PoolState) : PoolState :=
  mkPool (maxSize s) (totalCount s) (idle s) (waiters s) (objects s) (acquiring s) (connecting s) l (posted s).
Definition set_posted (l : list Posted) (s : PoolState) : PoolState :=
  mkPool (maxSize s) (totalCount s) (idle s) (waiters s) (objects s) (acquiring s) (connecting s) (out s) l.

(** One occurrence of an element leaves a list. *)
Fixpoint remove1 (c : nat) (l : list nat) : list nat :=
  match l with
  | [] => []
  | x :: l' => if Nat.eqb c x then l' else x :: remove1 c l'
  end.

Definition modify (f : PoolState -> PoolState) : P unit := fun s => (Ok tt, f s).

(** ** Operations *)

Definition isCancelled (s : PoolState) (w : nat) : bool :=
  match objects s !! w with Some i => cancelled i | None => false end.

(** [weak_ptr::lock]: [acquire], the queue or the connecting coroutine holds
    the waiter. *)
Definition lock (w : nat) (s : PoolState) : bool :=
  bool_decide (w ∈ acquiring s ++ waiters s ++ connecting s).

(** [promise.set_value], [promise.set_exception]: a promise is satisfied once. *)
Definition setPromise (w : nat) (r : Result) : P unit :=
  let* s := mget in
  match objects s !! w with
  | Some i =>
      match promise i with
      | Some _ => mthrow FutureError
      | None => modify (set_objects (<[w := mkWaiter (Some r) (cancelled i)]> (objects s)))
      end
  | None => mlift Undefined
  end.

(** [while (!waiters.empty() && waiters.front()->cancelled) waiters.pop();] *)
Fixpoint skipCancelled (s : PoolState) (ws : list nat) : list nat :=
  match ws with
  | [] => []
  | w :: ws' => if isCancelled s w then skipCancelled s ws' else ws
  end.

Definition dispatch : P unit :=
  let* _ := modify (fun s => set_waiters (skipCancelled s (waiters s)) s) in
  let* s := mget in
  match waiters s with
  | [] => mret tt
  | w :: ws =>
      match idle s with
      | c :: cs =>
          let* _ := setPromise w (Got c) in
          let* _ := modify (set_idle cs) in
          modify (set_waiters ws)
      | [] =>
          if totalCount s <? maxSize s then
            let* _ := modify (set_total (totalCount s + 1)) in
            let* _ := modify (set_waiters ws) in
            modify (fun s => set_connecting (connecting s ++ [w]) s)
          else mret tt
      end
  end.

(** The coroutine [dispatch] spawned, when the connection is open or failed. *)
Definition connected (w : nat) (conn : option nat) : P unit :=
  let* s := mget in
  let* _ := modify (set_connecting (remove1 w (connecting s))) in
  match conn with
  | None =>
      let* _ := modify (fun s => set_total (totalCount s - 1) s) in
      let* s := mget in
      let* _ := (if negb (isCancelled s w) then setPromise w Failed else mret tt) in
      dispatch
  | Some c =>
      let* s := mget in
      if negb (isCancelled s w) then setPromise w (Got c)
      else
        let* _ := modify (fun s => set_idle (idle s ++ [c]) s) in
        dispatch
  end.

(** The callback [acquire] gives to its cancel token. *)
Definition cancel (w : nat) : P unit :=
  let* s := mget in
  if lock w s && negb (isCancelled s w) then
    let* _ := modify (fun s => set_objects
                (alter (fun i => mkWaiter (promise i) true) w (objects s)) s) in
    setPromise w Failed
  else mret tt.

(** [PgPool::acquire] up to the wait for its future; a token that is cancelled
    already calls the callback when it is given it. *)
Definition acquire (w : nat) (tokenCancelled : bool) : P unit :=
  let* _ := modify (fun s => set_objects (<[w := mkWaiter None false]> (objects s)) s) in
  let* _ := modify (fun s => set_acquiring (w :: acquiring s) s) in
  let* _ := (if tokenCancelled then cancel w else mret tt) in
  let* _ := modify (fun s => set_waiters (waiters s ++ [w]) s) in
  dispatch.

(** The end of [acquire]: it throws, or gives the connection to a
    [PooledConnection]. *)
Definition resume (w : nat) (r : Result) : P unit :=
  let* _ := modify (fun s => set_acquiring (remove1 w (acquiring s)) s) in
  match r with
  | Got c => modify (fun s => set_out (c :: out s) s)
  | Failed => mret tt
  end.

(** [~PooledConnection], and the handler of a broken connection: whichever comes
    first sets [detached_]. *)
Definition destroy (c : nat) : P unit :=
  modify (fun s => set_posted (posted s ++ [Return c]) (set_out (remove1 c (out s)) s)).

Definition broken (c : nat) : P unit :=
  modify (fun s => set_posted (posted s ++ [Detach]) (set_out (remove1 c (out s)) s)).

(** What [returnConnection] and [detachConnection] dispatched. *)
Definition returnConnection (c : nat) (isAlive : bool) : P unit :=
  let* _ := (if isAlive then modify (fun s => set_idle (idle s ++ [c]) s)
             else modify (fun s => set_total (totalCount s - 1) s)) in
  dispatch.

Definition detachConnection : P unit :=
  let* _ := modify (fun s => set_total (totalCount s - 1) s) in
  dispatch.

(** One of the functions that were posted; those dispatched on the scheduler's
    own thread run at once, ahead of the others. *)
Definition runPosted (k : nat) (isAlive : bool) : P unit :=
  let* s := mget in
  match posted s !! k with
  | None => mret tt
  | Some p =>
      let* _ := modify (set_posted (delete k (posted s))) in
      match p with
      | Return c => returnConnection c isAlive
      | Detach => detachConnection
      end
  end.

(** ** Steps *)

(** What may happen next.  An [acquire] makes a waiter of its own; a waiter is
    resumed when its promise is satisfied; a [PooledConnection] is destroyed, or
    breaks, while it is there. *)
Inductive step : PoolState -> P unit -> Prop :=
| step_acquire w b s : objects s !! w = None -> step s (acquire w b)
| step_cancel w s : step s (cancel w)
| step_connected w c s : w ∈ connecting s -> step s (connected w c)
| step_resume w i r s :
    w ∈ acquiring s -> objects s !! w = Some i -> promise i = Some r -> step s (resume w r)
| step_destroy c s : c ∈ out s -> step s (destroy c)
| step_broken c s : c ∈ out s -> step s (broken c)
| step_posted k b s : step s (runPosted k b).

Inductive reachable (size : Z) : PoolState -> Prop :=
| reach_new : reachable size (newPool size)
| reach_step s m s' : reachable size s -> step s m -> m s = (Ok tt, s') -> reachable size s'.
