(* ===== verification/PoolInv.v ===== *)
(** What the connection pool of Pool.v keeps true in every reachable state: the
    count of its connections, and that nobody waits for something that is
    there. *)

From Stdlib Require Import ZArith Lia.
From stdpp Require Import base numbers option list gmap.
From S2P Require Import Prelude.
From S2P Require Import Pool.
Open Scope Z_scope.

(** ** Lists *)

Lemma remove1_perm (c : nat) (l : list nat) : c ∈ l -> l ≡ₚ c :: remove1 c l.
Proof.
  induction l as [| x l IH]; [by intros ?%elem_of_nil | intros Hc].
  simpl. destruct (Nat.eqb_spec c x) as [-> | Hne]; [done |].
  apply elem_of_cons in Hc as [? | Hc]; [done |]. rewrite (IH Hc) at 1. constructor.
Qed.

Lemma size_perm {A : Type} (l k : list A) : l ≡ₚ k -> size l = size k.
Proof. intros H. unfold size. by rewrite H. Qed.

Lemma size_delete {A : Type} (l : list A) (k : nat) (x : A) :
  l !! k = Some x -> size l = 1 + size (delete k l).
Proof. intros Hk. by rewrite (size_perm l (x :: delete k l)), size_cons by by apply delete_Permutation. Qed.

(** ** The state of a waiter *)

Definition gotten (i : Waiter) : bool := match promise i with Some (Got _) => true | _ => false end.

Definition hasConn (m : gmap nat Waiter) (w : nat) : bool :=
  match m !! w with Some i => gotten i | None => false end.

(** The [acquire]s that were given a connection and did not take it yet. *)
Fixpoint countServed (m : gmap nat Waiter) (ws : list nat) : Z :=
  match ws with
  | [] => 0
  | w :: ws' => (if hasConn m w then 1 else 0) + countServed m ws'
  end.

Definition served (s : PoolState) : Z := countServed (objects s) (acquiring s).

Lemma countServed_perm (m : gmap nat Waiter) (ws us : list nat) :
  ws ≡ₚ us -> countServed m ws = countServed m us.
Proof. induction 1; simpl; lia. Qed.

Lemma countServed_other (m : gmap nat Waiter) (w : nat) (i : Waiter) (ws : list nat) :
  w ∉ ws -> countServed (<[w := i]> m) ws = countServed m ws.
Proof.
  induction ws as [| u ws IH]; [done |]. rewrite not_elem_of_cons. intros [Hu Hws].
  simpl. rewrite IH by done. unfold hasConn. by rewrite lookup_insert_ne.
Qed.

Lemma countServed_set (m : gmap nat Waiter) (w : nat) (i : Waiter) (ws : list nat) :
  NoDup ws -> w ∈ ws -> hasConn m w = false ->
  countServed (<[w := i]> m) ws = countServed m ws + (if gotten i then 1 else 0).
Proof.
  intros Hnd Hw Hn. apply remove1_perm in Hw as Hp.
  rewrite !(countServed_perm _ _ _ Hp). rewrite Hp in Hnd. apply list.NoDup_cons in Hnd as [Hnw _].
  cbn [countServed]. rewrite countServed_other, Hn by done. unfold hasConn.
  rewrite lookup_insert_eq. lia.
Qed.

Lemma countServed_nonneg (m : gmap nat Waiter) (ws : list nat) : 0 <= countServed m ws.
Proof. induction ws; simpl; [lia | case_match; lia]. Qed.

(** ** The invariant *)

Definition queue (s : PoolState) : list nat := waiters s ++ connecting s.

(** Every connection the pool counts: idle, being opened, given to an [acquire]
    that has not returned, in use, and on its way back. *)
Definition held (s : PoolState) : Z :=
  size (idle s) + size (connecting s) + served s + size (out s) + size (posted s).

Record inv (s : PoolState) : Prop := mkInv {
  inv_acquiring : NoDup (acquiring s);
  inv_queue : NoDup (queue s);
  inv_objects w : w ∈ acquiring s ++ queue s -> is_Some (objects s !! w);
  inv_live w i : w ∈ queue s -> objects s !! w = Some i -> cancelled i = false ->
    promise i = None /\ w ∈ acquiring s;
  inv_open w i : w ∈ acquiring s -> objects s !! w = Some i -> promise i = None -> w ∈ queue s;
  inv_cancelled w i : objects s !! w = Some i -> cancelled i = true -> promise i <> None;
  inv_count : totalCount s = held s;
  inv_bound : totalCount s <= maxSize s
}.

(** The waiters that are not cancelled, and what the pool could give them. *)
Definition live (s : PoolState) (ws : list nat) : list nat :=
  filter (fun w => isCancelled s w = false) ws.

Definition spare (s : PoolState) : Z := size (idle s) + (maxSize s - totalCount s).

Definition busy (s : PoolState) : Prop := size (live s (waiters s)) = 0 \/ spare s = 0.

(** Between an event and the call of [dispatch] one waiter, or one connection,
    may be too many. *)
Definition almost_busy (s : PoolState) : Prop := size (live s (waiters s)) <= 1 \/ spare s <= 1.

Lemma spare_nonneg (s : PoolState) : inv s -> 0 <= spare s.
Proof. intros Hi. unfold spare. pose proof (inv_bound _ Hi). pose proof (size_nonneg (idle s)). lia. Qed.

(** ** Changes that keep the invariant *)

(** Cancelled waiters leave the queue, others begin to connect, connections
    move. *)
Lemma inv_shrink (s : PoolState) (n : Z) (il : list nat) (gone ws cn : list nat) (ot : list nat)
    (ps : list Posted) :
  inv s -> queue s ≡ₚ gone ++ ws ++ cn -> Forall (fun w => isCancelled s w = true) gone ->
  n <= maxSize s -> n = size il + size cn + served s + size ot + size ps ->
  inv (mkPool (maxSize s) n il ws (objects s) (acquiring s) cn ot ps).
Proof.
  intros [Ha Hq Ho Hl Hp Hc Hn Hb] HP Hg Hn' Hh.
  assert (Hsub : forall w, w ∈ ws ++ cn -> w ∈ queue s) by (intros w; rewrite HP; set_solver).
  constructor; cbn [acquiring queue waiters connecting objects totalCount maxSize held idle out posted served];
    try done.
  - rewrite HP in Hq. by apply list.NoDup_app in Hq as (_ & _ & ?).
  - intros w Hw. apply Ho. set_solver.
  - intros w i Hw. by apply Hl, Hsub.
  - intros w i Hw Hi Hnone. specialize (Hp w i Hw Hi Hnone). rewrite HP in Hp.
    apply elem_of_app in Hp as [Hw' | ?]; [| done]. exfalso.
    rewrite Forall_forall in Hg. specialize (Hg w Hw'). unfold isCancelled in Hg. rewrite Hi in Hg.
    by apply (Hc w i Hi Hg).
Qed.

(** A waiter that is not cancelled gets what it waits for. *)
Lemma inv_settle (s : PoolState) (w : nat) (i : Waiter) (r : Result) (n : Z) (il : list nat)
    (ws cn : list nat) :
  inv s -> objects s !! w = Some i -> cancelled i = false -> queue s ≡ₚ w :: ws ++ cn ->
  n <= maxSize s ->
  n = size il + size cn + (served s + match r with Got _ => 1 | Failed => 0 end) + size (out s) + size (posted s) ->
  inv (mkPool (maxSize s) n il ws (<[w := mkWaiter (Some r) (cancelled i)]> (objects s)) (acquiring s) cn
         (out s) (posted s)).
Proof.
  intros [Ha Hq Ho Hl Hp Hc Hn Hb] Hw Hi HP Hn' Hh. rewrite HP in Hq.
  apply list.NoDup_cons in Hq as [Hnw Hq].
  destruct (Hl w i) as [Hnone Hacq]; [rewrite HP; set_solver | done | done |].
  constructor; cbn [acquiring queue waiters connecting objects totalCount maxSize held idle out posted]; try done.
  - intros u Hu. destruct (decide (u = w)) as [-> | Hne]; [by rewrite lookup_insert_eq |].
    rewrite lookup_insert_ne by done. apply Ho. rewrite HP. set_solver.
  - intros u j Hu. rewrite lookup_insert_ne by (intros ->; done). apply Hl. rewrite HP. set_solver.
  - intros u j Hu. destruct (decide (u = w)) as [-> | Hne].
    + rewrite lookup_insert_eq. intros [= <-]. done.
    + rewrite lookup_insert_ne by done. intros Hj Hj'. specialize (Hp u j Hu Hj Hj').
      rewrite HP in Hp. set_solver.
  - intros u j. destruct (decide (u = w)) as [-> | Hne].
    + rewrite lookup_insert_eq. intros [= <-]. done.
    + rewrite lookup_insert_ne by done. apply Hc.
  - rewrite Hh. unfold held, served. cbn [acquiring queue waiters connecting objects totalCount maxSize idle out posted].
    rewrite countServed_set; [destruct r; unfold gotten; cbn; lia | done | done |].
    unfold hasConn. rewrite Hw. unfold gotten. by rewrite Hnone.
Qed.

(** A new [acquire]; [i] is its waiter, cancelled at once or not. *)
Lemma inv_enter (s : PoolState) (w : nat) (i : Waiter) :
  inv s -> objects s !! w = None -> gotten i = false ->
  (if cancelled i then promise i <> None else promise i = None) ->
  inv (mkPool (maxSize s) (totalCount s) (idle s) (waiters s ++ [w]) (<[w := i]> (objects s))
         (w :: acquiring s) (connecting s) (out s) (posted s)).
Proof.
  intros [Ha Hq Ho Hl Hp Hc Hn Hb] Hw Hg Hi.
  assert (Hnew : w ∉ acquiring s ++ queue s) by (intros Hin; destruct (Ho w Hin); congruence).
  assert (HP : (waiters s ++ [w]) ++ connecting s ≡ₚ w :: queue s)
    by (unfold queue; rewrite <- app_assoc, Permutation_middle; done).
  constructor; cbn [acquiring queue waiters connecting objects totalCount maxSize held idle out posted]; try done.
  - apply list.NoDup_cons. set_solver.
  - unfold queue. cbn [waiters connecting]. rewrite HP. apply list.NoDup_cons. set_solver.
  - intros u. unfold queue at 1. cbn [waiters connecting]. rewrite HP. intros Hu.
    destruct (decide (u = w)) as [-> | Hne]; [by rewrite lookup_insert_eq |].
    rewrite lookup_insert_ne by done. apply Ho. set_solver.
  - intros u j. unfold queue at 1. cbn [waiters connecting]. rewrite HP. intros Hu.
    destruct (decide (u = w)) as [-> | Hne].
    + rewrite lookup_insert_eq. intros [= <-] Hj. rewrite Hj in Hi. split; [done | left].
    + rewrite lookup_insert_ne by done. intros Hj Hj'. destruct (Hl u j) as [? ?]; [set_solver | done | done |].
      split; [done | by right].
  - intros u j Hu. unfold queue at 1. cbn [waiters connecting]. rewrite HP.
    destruct (decide (u = w)) as [-> | Hne]; [by left |].
    rewrite lookup_insert_ne by done. intros Hj Hj'. right. apply (Hp u j); [set_solver | done | done].
  - intros u j. destruct (decide (u = w)) as [-> | Hne].
    + rewrite lookup_insert_eq. intros [= <-] Hj. by rewrite Hj in Hi.
    + rewrite lookup_insert_ne by done. apply Hc.
  - rewrite Hn. unfold held, served. cbn [acquiring connecting objects idle out posted countServed].
    rewrite countServed_other by set_solver. unfold hasConn at 1. rewrite lookup_insert_eq, Hg. lia.
Qed.

(** An [acquire] whose promise is satisfied returns. *)
Lemma inv_leave (s : PoolState) (w : nat) (i : Waiter) (ot : list nat) :
  inv s -> w ∈ acquiring s -> objects s !! w = Some i -> promise i <> None ->
  size ot = size (out s) + (if gotten i then 1 else 0) ->
  inv (mkPool (maxSize s) (totalCount s) (idle s) (waiters s) (objects s) (remove1 w (acquiring s))
         (connecting s) ot (posted s)).
Proof.
  intros [Ha Hq Ho Hl Hp Hc Hn Hb] Hw Hi Hsome Hot. apply remove1_perm in Hw as HP.
  assert (Ha' := Ha). rewrite HP in Ha'. apply list.NoDup_cons in Ha' as [Hnw Ha'].
  constructor; cbn [acquiring waiters connecting objects totalCount maxSize idle out posted]; try done.
  - intros u Hu. apply Ho. apply elem_of_app in Hu as [Hu | Hu]; apply elem_of_app; [left | by right].
    rewrite HP. by right.
  - intros u j Hu Hj Hj'. destruct (Hl u j Hu Hj Hj') as [Hnone Hacq]. split; [done |].
    rewrite HP in Hacq. apply elem_of_cons in Hacq as [-> | ?]; [| done]. simplify_eq.
  - intros u j Hu. apply Hp. rewrite HP. by right.
  - rewrite Hn. unfold held, served. cbn [acquiring connecting objects idle out posted].
    rewrite (countServed_perm _ _ _ HP). cbn [countServed]. unfold hasConn at 1. rewrite Hi, Hot. lia.
Qed.

(** A waiter that waits is cancelled. *)
Lemma inv_cancel (s : PoolState) (w : nat) (i : Waiter) :
  inv s -> w ∈ acquiring s -> objects s !! w = Some i -> promise i = None ->
  inv (set_objects (<[w := mkWaiter (Some Failed) true]> (objects s)) s).
Proof.
  intros [Ha Hq Ho Hl Hp Hc Hn Hb] Hw Hi Hnone. unfold set_objects.
  constructor; cbn [acquiring queue waiters connecting objects totalCount maxSize held idle out posted]; try done.
  - intros u Hu. destruct (decide (u = w)) as [-> | Hne]; [by rewrite lookup_insert_eq |].
    rewrite lookup_insert_ne by done. by apply Ho.
  - intros u j Hu. destruct (decide (u = w)) as [-> | Hne]; [by rewrite lookup_insert_eq; intros [= <-] |].
    rewrite lookup_insert_ne by done. by apply Hl.
  - intros u j Hu. destruct (decide (u = w)) as [-> | Hne]; [by rewrite lookup_insert_eq; intros [= <-] |].
    rewrite lookup_insert_ne by done. by apply Hp.
  - intros u j. destruct (decide (u = w)) as [-> | Hne]; [by rewrite lookup_insert_eq; intros [= <-] |].
    rewrite lookup_insert_ne by done. apply Hc.
  - rewrite Hn. unfold held, served. cbn [acquiring connecting objects idle out posted].
    rewrite countServed_set; [unfold gotten; cbn; lia | done | done |].
    unfold hasConn. rewrite Hi. unfold gotten. by rewrite Hnone.
Qed.

(** ** [dispatch] *)

Lemma skipCancelled_split (s : PoolState) (ws : list nat) :
  exists gone, ws = gone ++ skipCancelled s ws /\ Forall (fun w => isCancelled s w = true) gone.
Proof.
  induction ws as [| w ws (gone & Hws & Hg)]; [by exists [] |]. simpl.
  destruct (isCancelled s w) eqn:Hw; [| by exists []].
  exists (w :: gone). simpl. rewrite <- Hws. auto.
Qed.

Lemma skipCancelled_head (s : PoolState) (ws us : list nat) (w : nat) :
  skipCancelled s ws = w :: us -> isCancelled s w = false.
Proof.
  induction ws as [| x ws IH]; [done |]. simpl. destruct (isCancelled s x) eqn:Hx; [done |].
  by intros [= -> ->].
Qed.

Lemma live_skip (s : PoolState) (ws : list nat) : live s (skipCancelled s ws) = live s ws.
Proof.
  induction ws as [| w ws IH]; [done |]. unfold live in *. simpl skipCancelled. rewrite filter_cons.
  destruct (isCancelled s w) eqn:Hw; [by rewrite IH |]. by rewrite filter_cons, Hw.
Qed.

Lemma live_ext (s t : PoolState) (ws : list nat) :
  (forall w, w ∈ ws -> isCancelled s w = isCancelled t w) -> live s ws = live t ws.
Proof.
  induction ws as [| w ws IH]; [done |]. intros H. unfold live in *. rewrite !filter_cons.
  rewrite IH by (intros; apply H; by right). rewrite (H w) by left. done.
Qed.

(** What a waiter in the queue is. *)
Lemma queue_waiter (s : PoolState) (w : nat) :
  inv s -> w ∈ queue s -> isCancelled s w = false ->
  exists i, objects s !! w = Some i /\ cancelled i = false /\ promise i = None /\ w ∈ acquiring s.
Proof.
  intros Hi Hw Hc. destruct (inv_objects _ Hi w) as [i Hiw]; [set_solver |].
  unfold isCancelled in Hc. rewrite Hiw in Hc. exists i.
  destruct (inv_live _ Hi w i Hw Hiw Hc). done.
Qed.

Lemma setPromise_ok (s : PoolState) (w : nat) (r : Result) (i : Waiter) :
  objects s !! w = Some i -> promise i = None ->
  setPromise w r s = (Ok tt, set_objects (<[w := mkWaiter (Some r) (cancelled i)]> (objects s)) s).
Proof. intros Hw Hi. unfold setPromise. rewrite mbind_get, Hw, Hi. done. Qed.

(** What [dispatch] does is one of four things. *)
Lemma dispatch_cases (s : PoolState) (w : nat) (ws : list nat) (i : Waiter) :
  let s1 := set_waiters (skipCancelled s (waiters s)) s in
  waiters s1 = w :: ws -> objects s !! w = Some i -> promise i = None ->
  dispatch s = (Ok tt,
    match idle s with
    | c :: cs => set_waiters ws (set_idle cs (set_objects (<[w := mkWaiter (Some (Got c)) (cancelled i)]> (objects s)) s1))
    | [] => if totalCount s <? maxSize s
            then set_connecting (connecting s ++ [w]) (set_waiters ws (set_total (totalCount s + 1) s1)) else s1
    end).
Proof.
  intros s1 Hws Hw Hi. unfold dispatch, modify. rewrite (mbind_ok _ _ _ s1 tt) by done.
  rewrite mbind_get, Hws. change (idle s1) with (idle s). destruct (idle s) as [| c cs].
  - change (totalCount s1 <? maxSize s1) with (totalCount s <? maxSize s). by destruct (totalCount s <? maxSize s).
  - by rewrite (mbind_ok _ _ _ _ _ (setPromise_ok s1 w (Got c) i Hw Hi)).
Qed.

Lemma dispatch_idle (s : PoolState) :
  skipCancelled s (waiters s) = [] -> dispatch s = (Ok tt, set_waiters [] s).
Proof. intros H. unfold dispatch, modify, mbind, mget. rewrite H. done. Qed.

Lemma dispatch_ok (s : PoolState) :
  inv s -> almost_busy s ->
  exists s', dispatch s = (Ok tt, s') /\ inv s' /\ busy s' /\ maxSize s' = maxSize s.
Proof.
  intros Hi Hab. destruct (skipCancelled_split s (waiters s)) as (gone & Hsplit & Hgone).
  pose proof (live_skip s (waiters s)) as Hlive.
  assert (Hi1 : inv (set_waiters (skipCancelled s (waiters s)) s)).
  { eapply (inv_shrink s _ _ gone); [done | | done | by apply inv_bound | apply (inv_count _ Hi)].
    unfold queue. rewrite Hsplit at 1. by rewrite <- app_assoc. }
  destruct (skipCancelled s (waiters s)) as [| w ws] eqn:Hws.
  { rewrite dispatch_idle by done. eexists. split; [done |]. split; [done |]. split; [by left | done]. }
  apply skipCancelled_head in Hws as Hhead.
  destruct (queue_waiter _ w Hi1) as (i & Hiw & Hic & Hip & Hacq); [by left | done |].
  erewrite (dispatch_cases s w ws i); [| by rewrite Hws | done | done].
  eexists. split; [done |]. rewrite Hws. unfold almost_busy in Hab. rewrite <- Hlive in Hab.
  unfold live in Hab. rewrite filter_cons, decide_True, size_cons in Hab by done. fold (live s ws) in Hab.
  pose proof (spare_nonneg _ Hi) as Hsp. pose proof (size_nonneg (live s ws)).
  destruct (idle s) as [| c cs] eqn:Hidle.
  - destruct (Z.ltb_spec (totalCount s) (maxSize s)) as [Hlt | Hge].
    + split; [| split; [| done]].
      * apply (inv_shrink (set_waiters (w :: ws) s) _ _ []); [done | | by constructor | cbn; lia |].
        -- unfold queue. cbn. by rewrite app_assoc, <- Permutation_cons_append.
        -- pose proof (inv_count _ Hi1) as Hn. unfold held in Hn. cbn -[Z.add size] in Hn |- *.
           rewrite size_app, size_cons, size_nil. unfold served in *. cbn -[Z.add size] in *. lia.
      * unfold busy, spare in *. cbn -[Z.add size live] in *.
        rewrite (live_ext _ s) by done. assert (size (idle s) = 0) by (by rewrite Hidle). lia.
    + split; [done |]. split; [| done]. right. unfold spare in *. cbn -[Z.add size] in *.
      pose proof (inv_bound _ Hi). assert (size (idle s) = 0) by (by rewrite Hidle). lia.
  - split; [| split; [| done]].
    + apply (inv_settle (set_waiters (w :: ws) s) w i (Got c)); [done | done | done | done | |].
      * apply (inv_bound _ Hi1).
      * pose proof (inv_count _ Hi1) as Hn. unfold held in Hn. cbn -[Z.add size] in Hn |- *.
        rewrite Hidle, size_cons in Hn. lia.
    + unfold busy, spare in *. cbn -[Z.add size live] in *. assert (size (idle s) = 1 + size cs) by (by rewrite Hidle, size_cons).
      assert (Hw : w ∉ ws).
      { pose proof (inv_queue _ Hi1) as Hq. unfold queue in Hq. cbn in Hq. apply list.NoDup_cons in Hq. set_solver. }
      pose proof (inv_bound _ Hi). pose proof (size_nonneg cs).
      rewrite (live_ext _ s); [lia |]. intros u Hu. unfold isCancelled. cbn.
      rewrite lookup_insert_ne by (intros ->; done). done.
Qed.

(** ** The other operations *)

(** [m] returns and leaves the pool as it should be. *)
Definition fine (m : P unit) (s : PoolState) : Prop :=
  exists s', m s = (Ok tt, s') /\ inv s' /\ busy s' /\ maxSize s' = maxSize s.

Lemma fine_dispatch (m : P unit) (s t : PoolState) :
  m s = dispatch t -> inv t -> almost_busy t -> maxSize t = maxSize s -> fine m s.
Proof.
  intros Hm Hi Hab Hmax. destruct (dispatch_ok t Hi Hab) as (s' & Hd & ? & ? & ?).
  exists s'. rewrite Hm, Hd. split; [done |]. split; [done |]. split; [done | congruence].
Qed.

Definition newWaiter (tokenCancelled : bool) : Waiter :=
  if tokenCancelled then mkWaiter (Some Failed) true else mkWaiter None false.

Definition entered (w : nat) (b : bool) (s : PoolState) : PoolState :=
  mkPool (maxSize s) (totalCount s) (idle s) (waiters s ++ [w]) (<[w := newWaiter b]> (objects s))
    (w :: acquiring s) (connecting s) (out s) (posted s).

Lemma cancel_ok (s : PoolState) (w : nat) (i : Waiter) :
  w ∈ acquiring s -> objects s !! w = Some i -> cancelled i = false -> promise i = None ->
  cancel w s = (Ok tt, set_objects (<[w := mkWaiter (Some Failed) true]> (objects s)) s).
Proof.
  intros Hw Hi Hc Hp. unfold cancel, modify. rewrite mbind_get. unfold lock, isCancelled.
  rewrite bool_decide_eq_true_2, Hi, Hc by set_solver. cbn [negb andb].
  erewrite mbind_ok by reflexivity.
  rewrite (setPromise_ok _ _ _ (mkWaiter None true)); [| cbn; by rewrite lookup_alter_eq, Hi; cbn; rewrite Hp | done].
  unfold set_objects. cbn. by rewrite insert_alter_eq.
Qed.

Lemma acquire_eq (w : nat) (b : bool) (s : PoolState) : acquire w b s = dispatch (entered w b s).
Proof.
  set (t := set_acquiring (w :: acquiring s) (set_objects (<[w := mkWaiter None false]> (objects s)) s)).
  transitivity ((let* _ := (if b then cancel w else mret tt) in
                 let* _ := modify (fun s => set_waiters (waiters s ++ [w]) s) in dispatch) t); [done |].
  destruct b; [| done].
  rewrite (mbind_ok _ _ _ _ _ (cancel_ok t w (mkWaiter None false) ltac:(left) (lookup_insert_eq _ _ _) eq_refl eq_refl)).
  rewrite (mbind_ok (modify _) _ _ _ tt eq_refl). unfold set_objects, t, set_acquiring. cbn. by rewrite insert_insert_eq.
Qed.

Lemma live_entered (w : nat) (b : bool) (s : PoolState) :
  w ∉ waiters s -> size (live (entered w b s) (waiters (entered w b s))) <= size (live s (waiters s)) + 1.
Proof.
  intros Hw. unfold live at 1. cbn [waiters entered]. rewrite filter_app, size_app.
  fold (live (entered w b s) (waiters s)). rewrite (live_ext _ s).
  - rewrite filter_cons. case_decide; [rewrite size_cons |]; rewrite filter_nil, size_nil; lia.
  - intros u Hu. unfold isCancelled. cbn. rewrite lookup_insert_ne by (intros ->; done). done.
Qed.

Lemma acquire_fine (w : nat) (b : bool) (s : PoolState) :
  inv s -> busy s -> objects s !! w = None -> fine (acquire w b) s.
Proof.
  intros Hi Hb Hw. apply (fine_dispatch _ _ _ (acquire_eq w b s)); [| | done].
  - apply inv_enter; [done | done | by destruct b ..].
  - unfold almost_busy. pose proof (live_entered w b s) as Hl.
    unfold busy in Hb. change (spare (entered w b s)) with (spare s).
    destruct Hb; [left | right; lia]. ospecialize (Hl _); [| lia].
    intros Hin. destruct (inv_objects _ Hi w) as [? ?]; [set_solver | congruence].
Qed.

Lemma live_le (s t : PoolState) (ws : list nat) :
  (forall w, isCancelled s w = true -> isCancelled t w = true) -> size (live t ws) <= size (live s ws).
Proof.
  intros H. unfold live. induction ws as [| w ws IH]; [rewrite !filter_nil; lia |].
  rewrite !filter_cons. specialize (H w). repeat case_decide; rewrite ?size_cons; [lia | | lia | lia].
  destruct (isCancelled s w); [rewrite H in *; congruence | congruence].
Qed.

(** The waiter a callback finds that was not cancelled. *)
Lemma lock_waiter (s : PoolState) (w : nat) :
  inv s -> lock w s = true -> isCancelled s w = false ->
  exists i, objects s !! w = Some i /\ cancelled i = false /\ w ∈ acquiring s.
Proof.
  intros Hi Hl Hc. unfold lock in Hl. rewrite bool_decide_eq_true in Hl.
  destruct (inv_objects _ Hi w Hl) as [i Hw]. unfold isCancelled in Hc. rewrite Hw in Hc.
  exists i. split; [done |]. split; [done |]. apply elem_of_app in Hl as [? | Hq]; [done |].
  by destruct (inv_live _ Hi w i Hq Hw Hc).
Qed.

(** A callback that comes after the promise was satisfied, and before [acquire]
    is resumed, satisfies it again. *)
Definition too_late (s : PoolState) (w : nat) : Prop :=
  exists i r, w ∈ acquiring s /\ objects s !! w = Some i /\ cancelled i = false /\ promise i = Some r.

Lemma cancel_too_late (s : PoolState) (w : nat) : too_late s w -> fst (cancel w s) = Throw FutureError.
Proof.
  intros (i & r & Hw & Hi & Hc & Hp). unfold cancel, modify. rewrite mbind_get. unfold lock, isCancelled.
  rewrite bool_decide_eq_true_2, Hi, Hc by set_solver. cbn [negb andb].
  erewrite mbind_ok by reflexivity. unfold setPromise. rewrite mbind_get.
  cbn [objects set_objects]. rewrite lookup_alter_eq, Hi. cbn. by rewrite Hp.
Qed.

Lemma cancel_fine (s : PoolState) (w : nat) :
  inv s -> busy s -> ~ too_late s w -> fine (cancel w) s.
Proof.
  intros Hi Hb Ht. destruct (lock w s && negb (isCancelled s w)) eqn:Hl.
  - apply andb_prop in Hl as [Hl Hc%negb_true_iff].
    destruct (lock_waiter _ _ Hi Hl Hc) as (i & Hw & Hic & Hacq).
    destruct (promise i) as [r |] eqn:Hp; [exfalso; apply Ht; by exists i, r |].
    eexists. rewrite (cancel_ok s w i) by done. split; [done |].
    split; [by eapply inv_cancel |]. split; [| done].
    unfold busy. cbn [waiters set_objects]. change (spare (set_objects ?m s)) with (spare s).
    destruct Hb as [Hb | ?]; [left | by right].
    pose proof (size_nonneg (live (set_objects (<[w:=mkWaiter (Some Failed) true]> (objects s)) s) (waiters s))).
    enough (size (live (set_objects (<[w:=mkWaiter (Some Failed) true]> (objects s)) s) (waiters s))
              <= size (live s (waiters s))) by lia.
    apply live_le. intros u. unfold isCancelled. cbn [objects set_objects].
    destruct (decide (u = w)) as [-> | Hne]; [by rewrite lookup_insert_eq | by rewrite lookup_insert_ne].
  - exists s. unfold cancel. by rewrite mbind_get, Hl.
Qed.

(** The end of the coroutine that opens a connection. *)
Definition settled (s : PoolState) (w : nat) (r : Result) : gmap nat Waiter :=
  match objects s !! w with
  | Some i => if cancelled i then objects s else <[w := mkWaiter (Some r) (cancelled i)]> (objects s)
  | None => objects s
  end.

Lemma settled_cancelled (s t : PoolState) (w : nat) (r : Result) :
  objects t = settled s w r -> forall u, isCancelled t u = isCancelled s u.
Proof.
  intros Ht u. unfold isCancelled. rewrite Ht. unfold settled.
  destruct (objects s !! w) as [i |] eqn:Hw; [| done]. destruct (cancelled i) eqn:Hc; [done |].
  destruct (decide (u = w)) as [-> | Hne]; [by rewrite lookup_insert_eq, Hw | by rewrite lookup_insert_ne].
Qed.

Lemma connecting_split (s : PoolState) (w : nat) :
  w ∈ connecting s -> queue s ≡ₚ w :: waiters s ++ remove1 w (connecting s).
Proof. intros Hw. unfold queue. rewrite (remove1_perm _ _ Hw) at 1. by rewrite <- Permutation_middle. Qed.

Definition after_connect (s : PoolState) (w : nat) (n : Z) (il : list nat) (m : gmap nat Waiter) : PoolState :=
  mkPool (maxSize s) n il (waiters s) m (acquiring s) (remove1 w (connecting s)) (out s) (posted s).

Lemma connected_eq (s : PoolState) (w : nat) (conn : option nat) :
  inv s -> w ∈ connecting s ->
  connected w conn s =
    match conn with
    | None => dispatch (after_connect s w (totalCount s - 1) (idle s) (settled s w Failed))
    | Some c =>
        if isCancelled s w then dispatch (after_connect s w (totalCount s) (idle s ++ [c]) (objects s))
        else (Ok tt, after_connect s w (totalCount s) (idle s) (settled s w (Got c)))
    end.
Proof.
  intros Hi Hw.
  assert (Hq : w ∈ queue s) by (unfold queue; set_solver).
  destruct (inv_objects _ Hi w) as [i Hiw]; [set_solver |].
  assert (Hp : cancelled i = false -> promise i = None) by (intros Hc; by destruct (inv_live _ Hi w i Hq Hiw Hc)).
  unfold settled, isCancelled. rewrite Hiw.
  unfold connected, modify, setPromise, mbind, mget, isCancelled, mret. destruct conn as [c |];
    cbn -[dispatch remove1 Z.sub]; rewrite Hiw; destruct (cancelled i) eqn:Hc; cbn -[dispatch remove1 Z.sub]; try done;
    rewrite Hiw, Hp by done; cbn -[dispatch remove1 Z.sub]; rewrite Hc; done.
Qed.

Lemma connected_fine (s : PoolState) (w : nat) (conn : option nat) :
  inv s -> busy s -> w ∈ connecting s -> fine (connected w conn) s.
Proof.
  intros Hi Hb Hw. pose proof (connected_eq s w conn Hi Hw) as Heq.
  pose proof (connecting_split s w Hw) as HP. pose proof (remove1_perm _ _ Hw) as Hsz.
  apply size_perm in Hsz. rewrite size_cons in Hsz.
  pose proof (inv_count _ Hi) as Hn. unfold held in Hn. pose proof (inv_bound _ Hi) as Hmax.
  assert (Hgone : isCancelled s w = true -> forall n il, n <= maxSize s ->
            n = size il + (size (connecting s) - 1) + served s + size (out s) + size (posted s) ->
            inv (after_connect s w n il (objects s))).
  { intros Hc n il Hle Hn'. apply (inv_shrink s n il [w]); [done | done | by constructor | done | lia]. }
  assert (Hgot : forall r n il, isCancelled s w = false -> n <= maxSize s ->
            n = size il + (size (connecting s) - 1) + (served s + match r with Got _ => 1 | Failed => 0 end)
                + size (out s) + size (posted s) ->
            inv (after_connect s w n il (settled s w r))).
  { intros r n il Hc Hle Hn'. destruct (queue_waiter s w Hi) as (i & Hiw & Hic & _); [rewrite HP; left | done |].
    unfold settled. rewrite Hiw, Hic. rewrite <- Hic at 1.
    apply (inv_settle s w i r n il); [done | done | done | done | done | lia]. }
  assert (Hlive : forall n il m r, m = objects s \/ m = settled s w r ->
            live (after_connect s w n il m) (waiters s) = live s (waiters s)).
  { intros n il m r Hm. apply live_ext. intros u _. destruct Hm as [-> | ->]; [done |].
    by apply (settled_cancelled s _ w r). }
  destruct conn as [c |]; [destruct (isCancelled s w) eqn:Hc |].
  - apply (fine_dispatch _ _ _ Heq); [| | done].
    + apply Hgone; [done | done | rewrite size_app, size_cons, size_nil; lia].
    + unfold almost_busy, spare. cbn [waiters after_connect idle totalCount maxSize].
      rewrite (Hlive _ _ _ Failed), size_app, size_cons, size_nil by auto. destruct Hb as [? | Hs]; [lia |].
      unfold spare in Hs. lia.
  - eexists. split; [exact Heq |]. split; [apply Hgot; [done | done | lia] |]. split; [| done].
    unfold busy. cbn [waiters after_connect]. rewrite (Hlive _ _ _ (Got c)) by auto. exact Hb.
  - apply (fine_dispatch _ _ _ Heq); [| | done].
    + destruct (isCancelled s w) eqn:Hc; [| apply Hgot; [done | lia | lia]].
      replace (settled s w Failed) with (objects s); [apply Hgone; [done | lia | lia] |].
      unfold settled. unfold isCancelled in Hc. destruct (objects s !! w) as [i |]; [by rewrite Hc | done].
    + unfold almost_busy, spare. cbn [waiters after_connect idle totalCount maxSize].
      rewrite (Hlive _ _ _ Failed) by auto. destruct Hb as [? | Hs]; [lia |]. unfold spare in Hs. lia.
Qed.

Lemma resume_fine (s : PoolState) (w : nat) (i : Waiter) (r : Result) :
  inv s -> busy s -> w ∈ acquiring s -> objects s !! w = Some i -> promise i = Some r -> fine (resume w r) s.
Proof.
  intros Hi Hb Hw Hiw Hr. destruct r as [c |]; eexists; (split; [reflexivity |]).
  - split; [| done]. apply (inv_leave s w i); [done | done | done | congruence |].
    rewrite size_cons. unfold gotten. rewrite Hr. cbn [out set_acquiring]. lia.
  - split; [| done]. apply (inv_leave s w i); [done | done | done | congruence |].
    unfold gotten. rewrite Hr. lia.
Qed.

(** Connections move between the places the pool counts. *)
Lemma inv_move (s : PoolState) (n : Z) (il ot : list nat) (ps : list Posted) :
  inv s -> n <= maxSize s -> n - (size il + size ot + size ps) = totalCount s - (size (idle s) + size (out s) + size (posted s)) ->
  inv (mkPool (maxSize s) n il (waiters s) (objects s) (acquiring s) (connecting s) ot ps).
Proof.
  intros Hi Hle Hn. pose proof (inv_count _ Hi) as Hc. unfold held in Hc.
  apply (inv_shrink s n il []); [done | done | by constructor | done | lia].
Qed.

Lemma release_fine (s : PoolState) (c : nat) (p : Posted) :
  inv s -> busy s -> c ∈ out s ->
  fine (modify (fun s => set_posted (posted s ++ [p]) (set_out (remove1 c (out s)) s))) s.
Proof.
  intros Hi Hb Hc. eexists. split; [reflexivity |]. split; [| done].
  apply remove1_perm, size_perm in Hc. rewrite size_cons in Hc.
  unfold set_posted. cbn [set_out maxSize totalCount idle waiters objects acquiring connecting out posted].
  apply (inv_move s); [done | by apply inv_bound |]. rewrite size_app, size_cons, size_nil. lia.
Qed.

Lemma runPosted_fine (s : PoolState) (k : nat) (b : bool) : inv s -> busy s -> fine (runPosted k b) s.
Proof.
  intros Hi Hb. unfold fine, runPosted. setoid_rewrite mbind_get.
  destruct (posted s !! k) as [p |] eqn:Hk; [| by exists s].
  apply size_delete in Hk. pose proof (inv_bound _ Hi) as Hmax.
  destruct p as [c |]; [destruct b |]; (eapply fine_dispatch; [reflexivity | | | done]);
    first [apply (inv_move s); [done | cbn -[Z.sub]; lia | cbn -[size Z.add Z.sub]; rewrite ?size_app, ?size_cons, ?size_nil; lia]
          | unfold almost_busy, busy, spare in *; cbn -[size live Z.add Z.sub] in *; rewrite ?size_app, ?size_cons, ?size_nil;
            destruct Hb; [left | right; lia]; rewrite (live_ext _ s) by done; lia].
Qed.

Lemma step_fine (s : PoolState) (m : P unit) :
  inv s -> busy s -> step s m -> fine m s \/ exists w, m = cancel w /\ too_late s w.
Proof.
  intros Hi Hb Hs. inversion Hs; subst; try (left; eauto using acquire_fine, connected_fine, resume_fine,
    release_fine, runPosted_fine; fail).
  assert (Hd : too_late s w \/ ~ too_late s w).
  { unfold too_late. destruct (objects s !! w) as [[r c] |]; [| right; naive_solver].
    destruct (decide (w ∈ acquiring s)), c, r; naive_solver. }
  destruct Hd; [right; by exists w | left; by apply cancel_fine].
Qed.

Lemma reachable_inv (n : Z) (s : PoolState) :
  0 <= n -> reachable n s -> inv s /\ busy s /\ maxSize s = n.
Proof.
  intros Hn. induction 1 as [| s m s' Hr (Hi & Hb & Hmax) Hs Hm].
  - split; [| by split; [left |]].
    constructor; unfold queue; cbn; try (by intros ?); try set_solver; try constructor; try done.
  - destruct (step_fine s m Hi Hb Hs) as [(s1 & H1 & ? & ? & ?) | (w & -> & Ht)].
    + rewrite Hm in H1. simplify_eq. split; [done |]. split; [done | congruence].
    + apply cancel_too_late in Ht. rewrite Hm in Ht. done.
Qed.

(** ** Properties *)

(** In every reachable state of a pool of at most [n] connections
    [totalCount] is the number of connections that are idle, being opened,
    given to an [acquire] that has not returned, in use, or on their way back;
    it is never negative and never exceeds [n]. *)
Theorem pool_accounting (n : Z) (s : PoolState) :
  0 <= n -> reachable n s ->
  totalCount s = size (idle s) + size (connecting s) + countServed (objects s) (acquiring s)
                 + size (out s) + size (posted s)
  /\ 0 <= totalCount s <= n.
Proof.
  intros Hn Hr. destruct (reachable_inv n s Hn Hr) as (Hi & _ & Hmax).
  pose proof (inv_count _ Hi) as Hc. pose proof (inv_bound _ Hi). unfold held, served in Hc.
  pose proof (size_nonneg (idle s)). pose proof (size_nonneg (connecting s)). pose proof (size_nonneg (out s)).
  pose proof (size_nonneg (posted s)). pose proof (countServed_nonneg (objects s) (acquiring s)). lia.
Qed.

(** C24: an [acquire] that waits is having a connection opened for it, or it is
    in the queue and there is nothing to give it: no connection is idle and
    the pool has as many as it may have. *)
Theorem pool_serves (n : Z) (s : PoolState) (w : nat) (i : Waiter) :
  0 <= n -> reachable n s -> w ∈ acquiring s -> objects s !! w = Some i -> promise i = None ->
  w ∈ connecting s \/ (w ∈ waiters s /\ idle s = [] /\ totalCount s = n).
Proof.
  intros Hn Hr Hw Hiw Hp. destruct (reachable_inv n s Hn Hr) as (Hi & Hb & Hmax).
  pose proof (inv_open _ Hi w i Hw Hiw Hp) as Hq. apply elem_of_app in Hq as [Hq | Hq]; [right | by left].
  destruct Hb as [Hl | Hs].
  - exfalso. assert (Hin : w ∈ live s (waiters s)).
    { apply list_elem_of_filter. split; [| done]. unfold isCancelled. rewrite Hiw.
      destruct (cancelled i) eqn:Hc; [by destruct (inv_cancelled _ Hi w i Hiw Hc) | done]. }
    apply size_zero_nil in Hl. rewrite Hl in Hin. by apply elem_of_nil in Hin.
  - split; [done |]. pose proof (inv_bound _ Hi). pose proof (size_nonneg (idle s)). unfold spare in Hs.
    split; [apply size_zero_nil |]; lia.
Qed.

(** Whatever happens in a reachable state returns, except for one thing:
    the cancellation of an [acquire] whose promise is satisfied and which was
    not resumed yet throws, in the scheduler's loop. *)
Theorem pool_steps_succeed (n : Z) (s : PoolState) (m : P unit) :
  0 <= n -> reachable n s -> step s m ->
  (exists s', m s = (Ok tt, s'))
  \/ exists w i r, m = cancel w /\ w ∈ acquiring s /\ objects s !! w = Some i /\ cancelled i = false
       /\ promise i = Some r /\ fst (m s) = Throw FutureError.
Proof.
  intros Hn Hr Hs. destruct (reachable_inv n s Hn Hr) as (Hi & Hb & _).
  destruct (step_fine s m Hi Hb Hs) as [(s' & Hm & _) | (w & -> & Ht)]; [left; by exists s' | right].
  pose proof (cancel_too_late s w Ht). destruct Ht as (i & r & ? & ? & ? & ?). by exists w, i, r.
Qed.

(** Three acquires of a pool of one connection: the first is served, the second
    waits and the third came with a cancelled token. *)
Fixpoint after (ms : list (P unit)) (s : PoolState) : PoolState :=
  match ms with
  | [] => s
  | m :: ms' => after ms' (snd (m s))
  end.

Definition served_and_waiting : PoolState :=
  after [acquire 0 false; connected 0 (Some 7%nat); acquire 1 false; acquire 2 true] (newPool 1).

Lemma reach_with (n : Z) (s : PoolState) (m : P unit) :
  fst (m s) = Ok tt -> step s m -> reachable n s -> reachable n (snd (m s)).
Proof. intros Hm Hs Hr. apply (reach_step n s m); [done | done |]. destruct (m s). cbn in *. by subst. Qed.

Lemma served_and_waiting_reachable : reachable 1 served_and_waiting.
Proof.
  unfold served_and_waiting, after.
  apply reach_with; [by vm_compute | apply step_acquire; by vm_compute |].
  apply reach_with; [by vm_compute | apply step_acquire; by vm_compute |].
  apply reach_with; [by vm_compute | apply step_connected; vm_compute; left |].
  apply reach_with; [by vm_compute | apply step_acquire; by vm_compute | apply reach_new].
Qed.

Lemma pool_accounting_witness : 0 <= totalCount served_and_waiting <= 1.
Proof. exact (proj2 (pool_accounting 1 served_and_waiting ltac:(lia) served_and_waiting_reachable)). Defined.

Lemma pool_serves_witness :
  (1%nat : nat) ∈ connecting served_and_waiting
  \/ ((1%nat : nat) ∈ waiters served_and_waiting /\ idle served_and_waiting = [] /\ totalCount served_and_waiting = 1).
Proof.
  apply (pool_serves 1 served_and_waiting 1 (mkWaiter None false));
    [lia | exact served_and_waiting_reachable | vm_compute; right; left | by vm_compute | done].
Defined.

Lemma pool_steps_succeed_witness :
  fst (cancel 0 served_and_waiting) = Throw FutureError
  /\ ((exists s', cancel 0 served_and_waiting = (Ok tt, s'))
      \/ exists w i r, cancel 0 = cancel w /\ w ∈ acquiring served_and_waiting
           /\ objects served_and_waiting !! w = Some i /\ cancelled i = false
           /\ promise i = Some r /\ fst (cancel 0 served_and_waiting) = Throw FutureError).
Proof.
  split; [vm_compute; reflexivity |].
  exact (pool_steps_succeed 1 served_and_waiting (cancel 0) ltac:(lia) served_and_waiting_reachable
           (step_cancel 0 served_and_waiting)).
Defined.
