(* ===== verification/ReadOnly.v ===== *)
(** Reading writes nothing: the functions that read heads and bodies leave what
    was sent to the peer as it is, also when they throw. *)

From Stdlib Require Import ZArith Lia String Strings.Byte.
From stdpp Require Import base numbers option list.
From S2P Require Import Prelude CxxStd ByteStream StringBuffer Conn BodyReader Chunked HttpTypes HttpParser HttpHead Http1Reader.
Open Scope Z_scope.

(** ** Heads *)

(** Whatever of a stream its reads leave, a reader of heads leaves. *)
Section heads.
Context {S B : Type} `{!ByteStream S} (f : S -> B) (v : B).
Hypothesis Hf : forall n s r s', stream_read n s = (r, s') -> f s' = f s.

Definition ofStream (c : conn S) : B := f (strm c).

Lemma fill_keeps (n : nat) (c : conn S) : ofStream c = v -> leaves ofStream v (fill n) c.
Proof using Hf.
  intros Hc. unfold leaves, fill. destruct (prepareWrite n (buf c)); [| done ..].
  destruct (stream_read n (strm c)) as [r s] eqn:Hr. apply Hf in Hr.
  destruct (store r a); unfold ofStream in *; cbn [snd strm]; congruence.
Qed.

Lemma consumeM_keeps (n : nat) (c : conn S) : ofStream c = v -> leaves ofStream v (consumeM n) c.
Proof. done. Qed.

Lemma readHeadLoop_keeps {P T : Type} `{!LineParser P T} (limited : bool) (fuel : nat) (lines : Z) (p : P)
    (c : conn S) :
  ofStream c = v -> leaves ofStream v (readHeadLoop limited fuel lines p) c.
Proof using Hf.
  revert lines p c. induction fuel as [| fuel IH]; intros lines p c Hc; cbn [readHeadLoop]; [done |].
  repeat (leaves_step; try done); auto using fill_keeps, consumeM_keeps.
Qed.

Lemma parseNext_keeps (reg : MethodRegistry) (c : conn S) :
  ofStream c = v -> leaves ofStream v (parseNext reg) c.
Proof using Hf. intros Hc. unfold parseNext, readHead. unfold leaves. by apply readHeadLoop_keeps. Qed.
End heads.

Section read_only.
Context {S : Type} `{!ByteStream S} (v : bytes).

(** What was sent on the stream of a connection. *)
Definition sentOn (c : conn S) : bytes := sent (strm c).

Lemma read_sent (n : nat) (s s' : S) (r : bytes) : stream_read n s = (r, s') -> sent s' = sent s.
Proof. by intros (_ & _ & _ & ?)%stream_read_ok. Qed.

Lemma fill_leaves (n : nat) (c : conn S) : sentOn c = v -> leaves sentOn v (fill n) c.
Proof. apply (fill_keeps sent v). intros *. apply read_sent. Qed.

Lemma fillOrThrow_leaves (n : nat) (what : string) (c : conn S) :
  sentOn c = v -> leaves sentOn v (fillOrThrow n what) c.
Proof.
  intros Hc. unfold fillOrThrow. apply leaves_bind; [by apply fill_leaves | intros k s' Hs].
  by repeat leaves_step.
Qed.

Lemma consumeM_leaves (n : nat) (c : conn S) : sentOn c = v -> leaves sentOn v (consumeM n) c.
Proof. done. Qed.

Lemma readHeadLoop_leaves {P T : Type} `{!LineParser P T} (limited : bool) (fuel : nat) (lines : Z) (p : P)
    (c : conn S) :
  sentOn c = v -> leaves sentOn v (readHeadLoop limited fuel lines p) c.
Proof. apply (readHeadLoop_keeps sent v). intros *. apply read_sent. Qed.

Lemma parseNext_leaves (reg : MethodRegistry) (c : conn S) :
  sentOn c = v -> leaves sentOn v (parseNext reg) c.
Proof. apply (parseNext_keeps sent v). intros *. apply read_sent. Qed.

(** ** Bodies *)

Definition sentBy (r : AnyReader S) : bytes := sentOn (reader_conn r).

Definition chunkedSent (r : ChunkedReader S) : bytes := sentOn (ck_conn r).

Lemma on_conn_leaves {A : Type} (m : M (conn S) A) (r : ChunkedReader S) :
  leaves sentOn v m (ck_conn r) -> leaves chunkedSent v (on_conn m) r.
Proof. unfold leaves, on_conn. by destruct (m (ck_conn r)) as [o c]. Qed.

Lemma skipCRLFLoop_leaves (fuel : nat) (c : conn S) : sentOn c = v -> leaves sentOn v (skipCRLFLoop fuel) c.
Proof.
  revert c. induction fuel as [| fuel IH]; intros c Hc; unfold leaves; cbn [skipCRLFLoop];
    destruct (remainSize (buf c) <? 2)%nat; try done.
  apply (leaves_bind sentOn v); [by apply fillOrThrow_leaves | intros [] s' Hs]. by apply IH.
Qed.

Lemma skipTrailer_leaves (c : conn S) : sentOn c = v -> leaves sentOn v skipTrailer c.
Proof.
  intros Hc. unfold skipTrailer, leaves.
  enough (H : forall fuel lines c, sentOn c = v -> leaves sentOn v (skipTrailerLoop fuel lines) c) by by apply H.
  clear. induction fuel as [| fuel IH]; intros lines c Hc; cbn [skipTrailerLoop]; [done |].
  repeat (leaves_step; try done); auto using fillOrThrow_leaves, consumeM_leaves.
Qed.

Lemma parseChunkSize_leaves (fuel : nat) (r : ChunkedReader S) :
  chunkedSent r = v -> leaves chunkedSent v (parseChunkSizeLoop fuel) r.
Proof.
  revert r. induction fuel as [| fuel IH]; intros r Hr; cbn [parseChunkSizeLoop]; [done |].
  repeat (leaves_step; try done); auto using on_conn_leaves, fillOrThrow_leaves, consumeM_leaves, skipTrailer_leaves.
Qed.

Lemma advance_leaves (n : nat) (r : ChunkedReader S) : chunkedSent r = v -> leaves chunkedSent v (advance n) r.
Proof.
  intros Hr. unfold advance. repeat (leaves_step; try done).
  apply on_conn_leaves. by apply skipCRLFLoop_leaves.
Qed.

Lemma readData_leaves (n : nat) (r : ChunkedReader S) : chunkedSent r = v -> leaves chunkedSent v (readData n) r.
Proof.
  intros Hr. unfold readData. apply leaves_bind_get. leaves_step.
  - repeat (leaves_step; try done); auto using on_conn_leaves, consumeM_leaves, advance_leaves.
  - destruct (stream_read _ _) as [out s] eqn:Hs. apply stream_read_ok in Hs as (_ & _ & _ & Hs).
    assert (Hset : chunkedSent (set_conn (Conn (buf (ck_conn r)) s) r) = v)
      by (unfold chunkedSent, sentOn in *; cbn; congruence).
    apply leaves_bind_put. repeat (leaves_step; try done). by apply advance_leaves.
Qed.

Lemma chunkedRead_leaves (n : nat) (r : ChunkedReader S) : chunkedSent r = v -> leaves chunkedSent v (chunkedRead n) r.
Proof.
  intros Hr. unfold chunkedRead. apply leaves_bind_get. destruct (state_ r).
  - apply leaves_bind; [by apply parseChunkSize_leaves | intros ok s' Hs].
    repeat (leaves_step; try done); by apply readData_leaves.
  - by apply readData_leaves.
  - done.
Qed.

Lemma anyRead_leaves (n : nat) (r : AnyReader S) : sentBy r = v -> leaves sentBy v (anyRead n) r.
Proof.
  unfold leaves. destruct r as [c | r | r | r]; intros Hr; cbn [anyRead]; [done | | |].
  - change (readImpl n r) with (contentLengthRead n r). unfold contentLengthRead.
    destruct (_ <=? _); [done |]. destruct (0 <? _)%nat; [by destruct (view _) |].
    destruct (stream_read _ _) as [out s] eqn:Hs. apply stream_read_ok in Hs as (_ & _ & _ & Hs).
    destruct out; unfold sentBy, sentOn in *; cbn in *; congruence.
  - change (readImpl n r) with (chunkedRead n r). pose proof (chunkedRead_leaves n r Hr) as H.
    unfold leaves in H. by destruct (chunkedRead n r).
  - change (readImpl n r) with (untilCloseRead n r). unfold untilCloseRead.
    destruct (complete_ r); [done |]. destruct (0 <? _)%nat; [by destruct (view _) |].
    destruct (stream_read _ _) as [out s] eqn:Hs. apply stream_read_ok in Hs as (_ & _ & _ & Hs).
    destruct out; unfold sentBy, sentOn in *; cbn in *; congruence.
Qed.

Lemma drain_leaves (fuel : nat) (r : @Http1BodyReader (AnyReader S)) :
  sentBy (impl r) = v -> leaves (fun r => sentBy (impl r)) v (drain fuel) r.
Proof.
  unfold leaves, drain. change (sentBy (impl r)) with (sentBy (impl (mkReader (impl r) true))).
  generalize (mkReader (impl r) true). clear r.
  induction fuel as [| fuel IH]; intros r Hr; cbn [drainLoop]; destruct (isComplete (impl r)); try done.
  pose proof (anyRead_leaves 4096 (impl r) Hr) as H. unfold leaves in H.
  change (readImpl 4096 (impl r)) with (anyRead 4096 (impl r)).
  destruct (anyRead 4096 (impl r)) as [[[| b out] | | |] i]; cbn [snd] in *; try done. by apply IH.
Qed.
End read_only.
