(* ===== verification/HttpOutgoing.v ===== *)
(** Outgoing messages, [HttpOutgoingMessage] of
    src/extensions/http/src/HttpOutgoingMessage.cc: what a program sets on a
    response (or a request) before a sink writes it. *)

From Stdlib Require Import ZArith Lia String Strings.Byte.
From stdpp Require Import base numbers option list gmap.
From S2P Require Import Prelude CxxStd ByteStream StringBuffer Conn Chunked OrdMap HttpTypes CookieCodec Http1Sink.
Open Scope Z_scope.

(** ** Data *)

(** [HttpOutgoingMessageBase<T>]; a [BodyWriterFn] is a program that writes a
    sequence of pieces. *)
Record Outgoing (D : Type) : Type := mkOutgoing {
  data_ : D;
  body_ : bytes;
  bodyWriterFn_ : option (list bytes)
}.
Arguments mkOutgoing {D} data_ body_ bodyWriterFn_.
Arguments data_ {D} o.
Arguments body_ {D} o.
Arguments bodyWriterFn_ {D} o.

Abbreviation ServerResponse := (Outgoing HttpResponse).
Abbreviation ClientRequest := (Outgoing HttpRequest).

Definition newServerResponse : ServerResponse := mkOutgoing newResponse [] None.
Definition newClientRequest : ClientRequest := mkOutgoing newRequest [] None.

Definition on_data {D : Type} (f : D -> D) (m : Outgoing D) : Outgoing D :=
  mkOutgoing (f (data_ m)) (body_ m) (bodyWriterFn_ m).

Definition with_response_headers (hs : HttpHeaderMap) (d : HttpResponse) : HttpResponse :=
  mkResponse (r_version d) (r_statusCode d) (r_statusReason d) hs (r_cookies d)
    (r_transferMode d) (r_contentLength d) (r_shouldClose d).

Definition with_response_length (n : Z) (d : HttpResponse) : HttpResponse :=
  mkResponse (r_version d) (r_statusCode d) (r_statusReason d) (r_headers d) (r_cookies d)
    (r_transferMode d) n (r_shouldClose d).

(** ** [HttpOutgoingMessage<HttpResponse>] *)

(** [insert_or_assign] under the header's lower-case name. *)
Definition setHeaderObject (h : HttpHeader) (m : ServerResponse) : ServerResponse :=
  on_data (fun d => with_response_headers (om_insert (name_ h) h (r_headers d)) d) m.

Definition setHeader (name value : bytes) (m : ServerResponse) : ServerResponse :=
  setHeaderObject (newHeader name value) m.

Definition setHeaderCode (code : NameCode) (value : bytes) (m : ServerResponse) : ServerResponse :=
  setHeaderObject (newHeaderCode code value) m.

Definition setBody (body : bytes) (m : ServerResponse) : ServerResponse :=
  mkOutgoing (with_response_length (size body) (data_ m)) body None.

Definition setBodyWriter (pieces : list bytes) (m : ServerResponse) : ServerResponse :=
  mkOutgoing (with_response_length 0 (data_ m)) [] (Some pieces).

Definition setStatus (code : Z) (reason : bytes) (m : ServerResponse) : ServerResponse :=
  on_data (fun d => mkResponse (r_version d) (u16 code)
    (if decide (reason = []) then statusCodeToString code else reason) (r_headers d) (r_cookies d)
    (r_transferMode d) (r_contentLength d) (r_shouldClose d)) m.

Definition setVersion (v : Version) (m : ServerResponse) : ServerResponse :=
  on_data (fun d => mkResponse v (r_statusCode d) (r_statusReason d) (r_headers d) (r_cookies d)
    (r_transferMode d) (r_contentLength d) (r_shouldClose d)) m.

Definition setCloseConnection (shouldClose : bool) (m : ServerResponse) : ServerResponse :=
  on_data (fun d => mkResponse (r_version d) (r_statusCode d) (r_statusReason d) (r_headers d) (r_cookies d)
    (r_transferMode d) (r_contentLength d) shouldClose) m.

Definition addCookie (c : Cookie) (m : ServerResponse) : ServerResponse :=
  on_data (fun d => mkResponse (r_version d) (r_statusCode d) (r_statusReason d) (r_headers d)
    (r_cookies d ++ [c]) (r_transferMode d) (r_contentLength d) (r_shouldClose d)) m.

(** [clear] keeps the version, the transfer mode and the wish to close. *)
Definition clear (m : ServerResponse) : ServerResponse :=
  mkOutgoing (mkResponse (r_version (data_ m)) 200 [] [] [] (r_transferMode (data_ m)) 0 (r_shouldClose (data_ m)))
    [] None.

(** ** [HttpOutgoingMessage<HttpRequest>] *)

Definition with_request_headers (hs : HttpHeaderMap) (d : HttpRequest) : HttpRequest :=
  mkRequest (version d) (method d) (path d) (rawPath d) (query d) hs (cookies d) (queries d)
    (transferMode d) (contentLength d) (keepAlive d).

Definition with_request_length (n : Z) (d : HttpRequest) : HttpRequest :=
  mkRequest (version d) (method d) (path d) (rawPath d) (query d) (headers d) (cookies d) (queries d)
    (transferMode d) n (keepAlive d).

Definition setRequestHeaderCode (code : NameCode) (value : bytes) (m : ClientRequest) : ClientRequest :=
  let h := newHeaderCode code value in
  on_data (fun d => with_request_headers (om_insert (name_ h) h (headers d)) d) m.

Definition setRequestBody (body : bytes) (m : ClientRequest) : ClientRequest :=
  mkOutgoing (with_request_length (size body) (data_ m)) body None.

Definition setMethod (method : HttpMethod) (m : ClientRequest) : ClientRequest :=
  on_data (fun d => mkRequest (version d) method (path d) (rawPath d) (query d) (headers d) (cookies d) (queries d)
    (transferMode d) (contentLength d) (keepAlive d)) m.

Definition setPath (path : bytes) (m : ClientRequest) : ClientRequest :=
  on_data (fun d => mkRequest (version d) (method d) path (rawPath d) (query d) (headers d) (cookies d) (queries d)
    (transferMode d) (contentLength d) (keepAlive d)) m.

Definition setCookie (name value : bytes) (m : ClientRequest) : ClientRequest :=
  on_data (fun d => mkRequest (version d) (method d) (path d) (rawPath d) (query d) (headers d)
    (om_insert name value (cookies d)) (queries d) (transferMode d) (contentLength d) (keepAlive d)) m.

Section flush.
Context {S : Type} `{!ByteStream S}.

Definition flush (sink : ResponseSink.Http1ResponseSink) (m : ServerResponse) : M S unit :=
  match bodyWriterFn_ m with
  | Some pieces => ResponseSink.writePieces sink (data_ m) pieces
  | None => ResponseSink.write sink (data_ m) (body_ m)
  end.

Definition flushRequest (reg : MethodRegistry) (m : ClientRequest) : M S unit :=
  match bodyWriterFn_ m with
  | Some pieces => RequestSink.writePieces reg (data_ m) pieces
  | None => RequestSink.write reg (data_ m) (body_ m)
  end.
End flush.

(** ** What a response is on the wire *)

(** The pieces a program writes fit the writer's buffer for a chunk's size. *)
Definition pieces_ok (m : ServerResponse) : Prop :=
  match bodyWriterFn_ m with
  | Some pieces => Forall (fun d => size d < 2 ^ 52) pieces
  | None => True
  end.

Definition flushed (sink : ResponseSink.Http1ResponseSink) (m : ServerResponse) : bytes :=
  let mode := if decide (r_version (data_ m) = kHttp10) then UntilClose else HttpTypes.Chunked in
  match bodyWriterFn_ m with
  | None =>
      ResponseSink.buildHeaderBuf sink (data_ m) ContentLength ++ CRLF
      ++ (if ResponseSink.isHeadMethod_ sink then [] else body_ m)
  | Some pieces =>
      ResponseSink.buildHeaderBuf sink (data_ m) mode ++ CRLF
      ++ (if ResponseSink.isHeadMethod_ sink then []
          else if decide (mode = UntilClose) then concat pieces
          else encodeChunks (filter (fun d => d <> []) pieces) ++ lastChunk)
  end.

Section flush_lemmas.
Context {S : Type} `{!ByteStream S}.

Lemma foldl_write (pieces : list bytes) (s : S) :
  sent (foldl (fun s p => stream_write p s) s pieces) = sent s ++ concat pieces
  /\ pending (foldl (fun s p => stream_write p s) s pieces) = pending s.
Proof.
  revert s. induction pieces as [| p pieces IH]; intros s; [by rewrite app_nil_r |]. cbn [foldl concat].
  destruct (IH (stream_write p s)) as [-> ->]. destruct (stream_write_ok p s) as [-> ->].
  by rewrite <- app_assoc.
Qed.

Lemma flush_ok (sink : ResponseSink.Http1ResponseSink) (m : ServerResponse) (s : S) :
  pieces_ok m ->
  exists s', flush sink m s = (Ok tt, s') /\ sent s' = sent s ++ flushed sink m /\ pending s' = pending s.
Proof.
  intros Hp. unfold flush, flushed, pieces_ok in *. destruct (bodyWriterFn_ m) as [pieces |].
  - unfold ResponseSink.writePieces, mbind. cbv zeta beta iota.
    set (mode := if decide (r_version (data_ m) = kHttp10) then UntilClose else HttpTypes.Chunked).
    set (head := ResponseSink.buildHeaderBuf _ _ _ ++ CRLF).
    destruct (stream_write_ok head s) as [Hs Hpd].
    destruct (ResponseSink.isHeadMethod_ sink).
    { eexists. split; [reflexivity |]. rewrite Hs, app_nil_r. done. }
    destruct (decide (mode = UntilClose)).
    + eexists. split; [reflexivity |]. destruct (foldl_write pieces (stream_write head s)) as [-> ->].
      rewrite Hs, <- !app_assoc. unfold head. rewrite <- app_assoc. done.
    + destruct (chunkedWriteAll_ok pieces (stream_write head s) Hp) as (s' & Hw & Hp' & Hs').
      exists s'. split; [done |]. rewrite Hs', Hs. unfold head. rewrite <- !app_assoc. split; [done | congruence].
  - eexists. split; [reflexivity |]. apply stream_write_ok.
Qed.
End flush_lemmas.
