(* ===== verification/ResponseRoundTrip.v ===== *)
(** A response that [Http1ResponseSink] writes is the response
    [HttpParser<HttpResponse>] reads, with its body: the server's half of the
    wire (src/extensions/http/src/Http1ResponseSink.cc, HttpParser.cc,
    HttpClient.cc). *)

From Stdlib Require Import ZArith Lia String Strings.Byte.
From stdpp Require Import base numbers option list gmap.
From S2P Require Import Prelude CxxStd ByteStream StringBuffer Conn BodyReader Chunked Split OrdMap HttpTypes CookieCodec HttpParser.
From S2P Require Import HttpHead Http1Sink Http1Reader Http1RoundTrip HttpOutgoing.
Open Scope Z_scope.

(** ** The lines after the status line *)

(** A header, or a cookie. *)
Inductive Item : Type := HeaderItem (h : HttpHeader) | CookieItem (c : Cookie).

Definition itemText (it : Item) : bytes :=
  match it with HeaderItem h => headerText h | CookieItem c => str "Set-Cookie: " ++ toString c end.

Definition cookie_line_ok (c : Cookie) : Prop :=
  cookie_ok c /\ trimmed (toString c) = true /\ no_cr (toString c) /\ size (toString c) < 8000.

Definition item_ok (it : Item) : Prop :=
  match it with
  | HeaderItem h => writable h /\ nameCode_ h <> NC_SetCookie
  | CookieItem c => cookie_line_ok c
  end.

Section items.
Import Response.

Definition add_item (p : Parser) (it : Item) : Parser :=
  match it with
  | HeaderItem h => set_data (set_headers (om_emplace (name_ h) h (r_headers (data_ p))) (data_ p)) p
  | CookieItem c => set_data (add_cookie c (data_ p)) p
  end.

Lemma itemText_line (it : Item) : item_ok it -> head_line (itemText it).
Proof.
  destruct it as [h | c]; cbn [item_ok itemText].
  - intros [Hw _]. by apply headerText_line.
  - intros (_ & _ & Hcr & Hs). split.
    + apply Forall_app. split; [by repeat constructor | done].
    + rewrite size_app. change (size (str "Set-Cookie: ")) with 12. lia.
Qed.

Lemma feed_item (it : Item) (p : Parser) :
  item_ok it -> state_ p = ExpectHeader -> feedLine (itemText it) p = (Ok ExpectHeader, add_item p it).
Proof.
  intros Hok Hst. unfold feedLine. rewrite mbind_get, Hst.
  assert (Hne : itemText it <> []) by (destruct it; [apply headerText_nonempty | done]).
  rewrite decide_False by done.
  assert (Hp : parseHeader (itemText it) p = (Ok tt, add_item p it)).
  { unfold parseHeader. destruct it as [h | c]; cbn [item_ok itemText add_item] in *.
    - destruct Hok as [Hw Hck]. destruct (writable_canonical h Hw) as (Hnew & Ht & _).
      rewrite (mbind_lift _ _ _ _ (parse_headerText h Hw)). cbn beta iota. rewrite Ht.
      rewrite bool_decide_eq_false_2 by (intros He; by rewrite He in Ht). cbn [orb negb].
      rewrite Hnew, decide_False by done. done.
    - destruct Hok as (Hc & Htr & Hcr & Hs).
      assert (Hl : parseHeaderLine (str "Set-Cookie: " ++ toString c) = Ok (str "Set-Cookie", toString c)).
      { apply (parseHeaderLine_render (str "Set-Cookie") [x20]);
          [by apply token_plain | by repeat constructor | done |].
        rewrite !size_app, size_cons, size_app. change (size (str "Set-Cookie")) with 10.
        change (size [x20]) with 1. unfold npos. lia. }
      rewrite (mbind_lift _ _ _ _ Hl). cbn beta iota.
      change (bool_decide (str "Set-Cookie" = []) || negb (isValidToken (str "Set-Cookie"))) with false.
      cbv iota. change (nameCode_ (newHeader (str "Set-Cookie") (toString c))) with NC_SetCookie.
      rewrite decide_True by done. unfold parseCookies.
      rewrite (mbind_lift _ _ _ _ (fromString_toString c Hc)).
      destruct Hc as [(_ & Hn & _) _ _ _ _ _ _]. by rewrite decide_False. }
  rewrite (mbind_ok _ _ _ _ _ Hp), mbind_get. unfold mret. by destruct it; cbn; rewrite Hst.
Qed.

Lemma completes_items (its : list Item) (p p' : Parser) (ls : list bytes) :
  Forall item_ok its -> state_ p = ExpectHeader ->
  completes (LineParser0 := response_parser) (foldl add_item p its) ls p' ->
  completes (LineParser0 := response_parser) p (map itemText its ++ ls) p'.
Proof.
  revert p. induction its as [| it its IH]; intros p Hok Hst Hc; [done |].
  apply Forall_cons in Hok as [Hit Hok]. cbn [map app].
  assert (Hnext : completes (LineParser0 := response_parser) (add_item p it) (map itemText its ++ ls) p').
  { apply IH; [done | by destruct it | done]. }
  pose proof (feed_item it p Hit Hst) as Hf. destruct (map itemText its ++ ls); [done |]. by exists (add_item p it).
Qed.

(** The headers and the cookies of a list of lines. *)
Definition itemHeaders (its : list Item) : list HttpHeader :=
  omap (fun it => match it with HeaderItem h => Some h | CookieItem _ => None end) its.
Definition itemCookies (its : list Item) : list Cookie :=
  omap (fun it => match it with CookieItem c => Some c | HeaderItem _ => None end) its.

Definition with_items (m : HttpHeaderMap) (cs : list Cookie) (p : Parser) : Parser :=
  let d := data_ p in
  set_data (mkResponse (r_version d) (r_statusCode d) (r_statusReason d) m cs (r_transferMode d)
              (r_contentLength d) (r_shouldClose d)) p.

Lemma add_items_data (its : list Item) (p : Parser) :
  om_wf (r_headers (data_ p)) ->
  exists m, foldl add_item p its = with_items m (r_cookies (data_ p) ++ itemCookies its) p
    /\ om_wf m
    /\ forall k, om_find k m
         = match om_find k (r_headers (data_ p)) with Some h => Some h | None => named k (itemHeaders its) end.
Proof.
  revert p. induction its as [| it its IH]; intros p Hwf.
  - exists (r_headers (data_ p)). cbn [foldl itemCookies itemHeaders omap list_omap named]. rewrite app_nil_r.
    split; [by destruct p as [[] ? ?] |]. split; [done |]. intros k. by destruct (om_find k _).
  - cbn [foldl]. destruct (IH (add_item p it)) as (m & Heq & Hm & Hf).
    { destruct it; cbn; [by apply om_emplace_wf | done]. }
    exists m. rewrite Heq. split; [| split; [done |]].
    + destruct it; cbn; [done |]. unfold with_items. cbn. by rewrite <- app_assoc.
    + intros k. rewrite Hf. destruct it as [h | c]; cbn; [| done]. rewrite om_find_emplace by done.
      destruct (decide (k = name_ h)) as [-> | Hne]; [| done]. by destruct (om_find (name_ h) _).
Qed.
End items.

(** ** The whole head *)

Section head.
Import Response ResponseSink.
Context (sink : Http1ResponseSink) (resp : HttpResponse) (mode : TransferMode).

Definition reasonOf : bytes :=
  if decide (r_statusReason resp = []) then statusCodeToString (r_statusCode resp) else r_statusReason resp.

Definition statusLine : bytes :=
  versionToString (r_version resp) ++ x20 :: to_string (r_statusCode resp) ++ x20 :: reasonOf.

Definition chunkedLine : HttpHeader := newHeader (str "Transfer-Encoding") (str "chunked").

Definition framing : list HttpHeader :=
  match mode with
  | ContentLength => [lengthLine (r_contentLength resp)]
  | HttpTypes.Chunked => [chunkedLine]
  | UntilClose => []
  end.

Definition dateExtra : list HttpHeader :=
  if sendDateHeader_ sink && negb (om_contains (str "date") (r_headers resp))
  then [newHeader (str "Date") (date sink)] else [].

(** The connection ends with the response. *)
Definition closes : bool := r_shouldClose resp || bool_decide (mode = UntilClose).

Definition closeExtra : list HttpHeader :=
  if om_contains (str "connection") (r_headers resp) then []
  else if closes && bool_decide (r_version resp <> kHttp10) then [newHeader (str "Connection") (str "close")]
  else if negb closes && bool_decide (r_version resp = kHttp10)
  then [newHeader (str "Connection") (str "keep-alive")] else [].

Definition items : list Item :=
  map HeaderItem (copied (r_headers resp)) ++ map HeaderItem framing ++ map CookieItem (r_cookies resp)
  ++ map HeaderItem (dateExtra ++ closeExtra).

Definition responseLines : list bytes := statusLine :: map itemText items ++ [[]].

(** A response the sink can write, and a clock that prints a date. *)
Record writable_response : Prop := {
  wr_version : r_version resp <> kUnknown;
  wr_status : 100 <= r_statusCode resp <= 999;
  wr_reason : no_cr reasonOf /\ size reasonOf < 8000;
  wr_headers : om_wf (r_headers resp) /\ keyed (r_headers resp) /\ Forall writable (map snd (r_headers resp));
  wr_no_set_cookie : om_find (str "set-cookie") (r_headers resp) = None;
  wr_no_encoding : om_find (str "transfer-encoding") (r_headers resp) = None;
  wr_cookies : Forall cookie_line_ok (r_cookies resp);
  wr_date : trimmed (date sink) = true /\ no_cr (date sink) /\ size (date sink) < 100;
  wr_length : 0 <= r_contentLength resp < 2 ^ 64
}.

Definition linesText (ls : list bytes) : bytes := concat (map (fun l => l ++ CRLF) ls).

Lemma linesText_app (a b : list bytes) : linesText (a ++ b) = linesText a ++ linesText b.
Proof. unfold linesText. by rewrite map_app, concat_app. Qed.

Lemma linesText_headers (hs : list HttpHeader) :
  linesText (map itemText (map HeaderItem hs)) = linesText (map headerText hs).
Proof. unfold linesText. by rewrite !map_map. Qed.

Lemma setCookie_lines (cs : list Cookie) : setCookieLines cs = linesText (map itemText (map CookieItem cs)).
Proof.
  unfold setCookieLines, linesText. by rewrite !map_map.
Qed.

Lemma responseHeader_lines :
  writable_response -> ResponseSink.buildHeaderBuf sink resp mode ++ CRLF = linesText responseLines.
Proof.
  intros Hw. unfold responseLines, items. change (?l :: ?ls) with ([l] ++ ls) at 1.
  rewrite !map_app, !linesText_app, !linesText_headers, <- setCookie_lines.
  unfold ResponseSink.buildHeaderBuf. rewrite headerLoop_copied. fold (linesText (map headerText (copied (r_headers resp)))).
  assert (Hf : linesText (map headerText framing) = lengthHeader mode (r_contentLength resp) ++ encodingHeader mode (r_headers resp)).
  { unfold framing, lengthHeader, encodingHeader, om_contains. rewrite (wr_no_encoding Hw). unfold linesText.
    destruct mode; cbn [map concat]; rewrite ?headerText_length, ?app_nil_r, <- ?app_assoc; done. }
  rewrite Hf. assert (Hd : linesText (map headerText dateExtra)
    = (if sendDateHeader_ sink && negb (om_contains (str "date") (r_headers resp)) then str "Date: " ++ date sink ++ CRLF else [])).
  { unfold dateExtra. destruct (_ && _); [| done]. unfold linesText. cbn [map concat]. rewrite app_nil_r.
    unfold headerText. rewrite <- !app_assoc. done. }
  rewrite Hd.
  assert (Hc : linesText (map headerText closeExtra) = connectionHeader
      (closes && bool_decide (r_version resp <> kHttp10)) (negb closes && bool_decide (r_version resp = kHttp10)) (r_headers resp)).
  { unfold closeExtra, connectionHeader, linesText. destruct (om_contains (str "connection") _); [by rewrite andb_false_r |].
    rewrite andb_true_r. destruct (closes && _); [done |]. by destruct (negb closes && _). }
  rewrite Hc. unfold closes.
  assert (Hb : negb (r_shouldClose resp || bool_decide (mode = UntilClose))
      = negb (r_shouldClose resp) && bool_decide (mode <> UntilClose)).
  { rewrite negb_orb. f_equal. by destruct mode. }
  rewrite Hb. unfold statusLine, reasonOf. change (str " ") with [x20].
  assert (H1 : forall l, linesText [l] = l ++ CRLF) by (intros l; unfold linesText; cbn; by rewrite app_nil_r).
  rewrite !H1. fold (linesText (map headerText (copied (r_headers resp)))).
  repeat (rewrite <- ?app_assoc; cbn [app]). done.
Qed.

(** ** The parser on these lines *)

Context (Hw : writable_response).

Lemma reason_nonempty : 0 <= size reasonOf.
Proof. apply size_nonneg. Qed.

Definition statusData : HttpResponse :=
  mkResponse (r_version resp) (r_statusCode resp) reasonOf [] [] ContentLength 0 false.

Definition afterStatus : Parser := mkParser statusData ExpectHeader (error_ newParser).

Lemma statusLine_line : head_line statusLine.
Proof.
  destruct Hw as [Hv Hc [Hcr Hs] _ _ _ _ _ _].
  destruct (to_string_head (r_statusCode resp)) as (_ & _ & _ & Hn & Hl); [lia |]. split.
  - unfold statusLine. apply Forall_app. split; [by apply version_text |]. constructor; [done |].
    apply Forall_app. split; [done |]. by constructor.
  - unfold statusLine. rewrite size_app, size_cons, size_app, size_cons.
    assert (size (versionToString (r_version resp)) <= 8) by (by destruct (r_version resp)). lia.
Qed.

Lemma feed_status : feedLine statusLine newParser = (Ok ExpectHeader, afterStatus).
Proof.
  pose proof statusLine_line as [_ Hsz]. destruct Hw as [Hv Hc [Hcr Hs] _ _ _ _ _ _].
  destruct (to_string_field (r_statusCode resp)) as [[_ Hcode] Hstoi]; [lia |].
  assert (Hm : without x20 (versionToString (r_version resp))) by (destruct (r_version resp); by repeat constructor).
  assert (Hc20 : without x20 (to_string (r_statusCode resp))).
  { destruct (to_string_field (r_statusCode resp)) as [_ _]; [lia |].
    unfold to_string. destruct (Z.ltb_spec (r_statusCode resp) 0); [lia |].
    destruct (digits_of_spec 10 20 (r_statusCode resp) []) as (ds & -> & _ & Hds & _); [by left | lia | lia |].
    rewrite app_nil_r. eapply Forall_impl; [exact Hds |]. intros b (d & Hd & ->).
    assert (Hall : forallb (fun d => negb (Byte.eqb x20 (digit_char d))) (zrange 10) = true) by reflexivity.
    pose proof (zrange_forall 10 _ Hall d ltac:(lia)) as Hb. cbv beta in Hb. by to_prop. }
  destruct (requestLine_fields (versionToString (r_version resp)) (to_string (r_statusCode resp)) reasonOf Hm Hc20)
    as (Hf1 & Hf2 & Hsub1 & Hsub2 & Hsub3); [fold statusLine; unfold npos; lia |].
  fold statusLine in Hf1, Hf2, Hsub1, Hsub2, Hsub3.
  unfold statusLine in Hsz. rewrite size_app, size_cons, size_app, size_cons in Hsz.
  pose proof (size_nonneg (versionToString (r_version resp))). pose proof (size_nonneg (to_string (r_statusCode resp))).
  pose proof (size_nonneg reasonOf).
  assert (Hline : parseStatusLine statusLine newParser = (Ok true, mkParser statusData ExpectStatusLine (error_ newParser))).
  { unfold parseStatusLine. rewrite Hf1.
    destruct (Z.eqb_spec (size (versionToString (r_version resp))) npos); [unfold npos in *; lia |].
    rewrite (mbind_lift _ _ _ _ Hsub1). rewrite (proj1 (version_text _ Hv)). unfold modify. unfold mbind at 1.
    rewrite decide_False by done. rewrite Hf2.
    destruct (Z.eqb_spec (size (versionToString (r_version resp)) + 1 + size (to_string (r_statusCode resp))) npos);
      [unfold npos in *; lia |].
    unfold mbind at 1. rewrite (mbind_lift _ _ _ _ Hsub3), (mbind_lift _ _ _ _ Hsub2). unfold mret at 1.
    cbv beta iota. rewrite Hstoi. unfold u16. rewrite Z.mod_small by lia. unfold mbind at 1.
    destruct (Z.ltb_spec (r_statusCode resp) 100), (Z.ltb_spec 999 (r_statusCode resp)); try lia. reflexivity. }
  unfold feedLine. rewrite mbind_get. change (state_ newParser) with ExpectStatusLine. cbv iota.
  by rewrite (mbind_ok _ _ _ _ _ Hline).
Qed.

Lemma framing_ok : Forall (fun h => writable h /\ nameCode_ h <> NC_SetCookie) framing.
Proof.
  unfold framing. destruct mode; [constructor; [split; [by apply lengthLine_writable, Hw | done] | done] | | done].
  constructor; [| done]. split; [| done]. split; [by eexists |]. split; [done |]. split; [by repeat constructor | done].
Qed.

Lemma extras_ok : Forall (fun h => writable h /\ nameCode_ h <> NC_SetCookie) (dateExtra ++ closeExtra).
Proof.
  destruct Hw as [_ _ _ _ _ _ _ (Ht & Hcr & Hs) _]. apply Forall_app. split.
  - unfold dateExtra. destruct (_ && _); [| done]. constructor; [| done]. split; [| done].
    split; [by eexists |]. cbn [value_ name_ newHeader]. split; [done |]. split; [done |].
    change (size (toLower (str "Date"))) with 4. lia.
  - unfold closeExtra. destruct (om_contains _ _); [done |].
    assert (Hv : forall v, trimmed v = true -> no_cr v -> size v < 100 ->
      writable (newHeader (str "Connection") v) /\ nameCode_ (newHeader (str "Connection") v) <> NC_SetCookie).
    { intros v Htv Hv Hsv. split; [| done]. split; [by eexists |]. cbn [value_ name_ newHeader]. split; [done |].
      split; [done |]. change (size (toLower (str "Connection"))) with 10. lia. }
    repeat case_match; try done; (constructor; [| done]); apply Hv; try done; by repeat constructor.
Qed.

Lemma copied_items_ok : Forall (fun h => writable h /\ nameCode_ h <> NC_SetCookie) (copied (r_headers resp)).
Proof.
  destruct (wr_headers Hw) as (Hwf & Hk & Hall). unfold copied.
  apply List.Forall_forall. intros h Hin. apply list_elem_of_In, list_elem_of_filter in Hin as [Ho Hin].
  apply list_elem_of_In in Hin. pose proof (proj1 (List.Forall_forall _ _) Hall h Hin) as Hwh.
  split; [done |]. intros Hc. rewrite (writable_code h Hwh) in Hc. apply nameToCode_iff in Hc; [| done].
  apply in_map_iff in Hin as ([k h'] & Heq & Hin). cbn [snd] in Heq. subst h'.
  pose proof (proj1 (List.Forall_forall _ _) Hk _ Hin) as Hkey. cbn [fst snd] in Hkey.
  pose proof (om_In_find k h (r_headers resp) Hwf Hin) as Hf. rewrite Hkey, Hc in Hf.
  change (codeToName NC_SetCookie) with (str "set-cookie") in Hf. by rewrite (wr_no_set_cookie Hw) in Hf.
Qed.

Lemma items_ok : Forall item_ok items.
Proof.
  unfold items. repeat (apply Forall_app; split); apply Forall_map.
  - exact copied_items_ok.
  - exact framing_ok.
  - exact (wr_cookies Hw).
  - exact extras_ok.
Qed.

(** ** The response that arrives *)

Definition arrivedHeader (k : bytes) : option HttpHeader :=
  if decide (k = str "content-length") then
    (if decide (mode = ContentLength) then Some (lengthLine (r_contentLength resp)) else None)
  else if decide (k = str "transfer-encoding") then
    (if decide (mode = HttpTypes.Chunked) then Some chunkedLine else None)
  else match om_find k (r_headers resp) with
       | Some h => Some h
       | None => named k (dateExtra ++ closeExtra)
       end.

Definition arrivedClose : bool :=
  match om_find (str "connection") (r_headers resp) with
  | Some h => bool_decide (toLower (value_ h) = str "close")
  | None => closes
  end.

(** The response [d] is what [resp] becomes on the way. *)
Definition arrived (d : HttpResponse) : Prop :=
  r_version d = r_version resp /\ r_statusCode d = r_statusCode resp /\ r_statusReason d = reasonOf
  /\ r_cookies d = r_cookies resp /\ r_transferMode d = mode
  /\ (mode = ContentLength -> r_contentLength d = r_contentLength resp)
  /\ r_shouldClose d = arrivedClose
  /\ forall k, om_find k (r_headers d) = arrivedHeader k.

Lemma named_app (k : bytes) (a b : list HttpHeader) :
  named k (a ++ b) = match named k a with Some h => Some h | None => named k b end.
Proof. induction a as [| h a IH]; [done |]. cbn [app named]. by destruct (decide _). Qed.

Lemma itemHeaders_app (a b : list Item) : itemHeaders (a ++ b) = itemHeaders a ++ itemHeaders b.
Proof. apply omap_app. Qed.

Lemma itemHeaders_map (hs : list HttpHeader) : itemHeaders (map HeaderItem hs) = hs.
Proof. induction hs as [| h hs IH]; [done |]. cbn. by f_equal. Qed.

Lemma itemHeaders_cookies (cs : list Cookie) : itemHeaders (map CookieItem cs) = [].
Proof. by induction cs. Qed.

Lemma itemCookies_items : itemCookies items = r_cookies resp.
Proof.
  assert (Hh : forall hs, itemCookies (map HeaderItem hs) = []) by (by induction hs).
  assert (Hc : forall cs, itemCookies (map CookieItem cs) = cs)
    by (induction cs as [| c cs IH]; [done |]; cbn; by f_equal).
  unfold items, itemCookies in *. rewrite !omap_app, !Hh, Hc. cbn. by rewrite app_nil_r.
Qed.

Lemma extras_other (k : bytes) :
  k = str "content-length" \/ k = str "transfer-encoding" -> named k (dateExtra ++ closeExtra) = None.
Proof.
  intros Hk. rewrite named_app.
  assert (Hd : named k dateExtra = None).
  { unfold dateExtra. destruct (_ && _); [| done]. cbn [named]. rewrite decide_False; [done |]. by destruct Hk as [-> | ->]. }
  rewrite Hd. unfold closeExtra. repeat case_match; try done; cbn [named];
    (rewrite decide_False; [done |]; by destruct Hk as [-> | ->]).
Qed.

Lemma items_named (k : bytes) : named k (itemHeaders items) = arrivedHeader k.
Proof.
  unfold items. rewrite !itemHeaders_app, !itemHeaders_map, itemHeaders_cookies. cbn [app].
  rewrite !named_app. destruct (wr_headers Hw) as (_ & Hk & Hall). rewrite named_copied by done.
  rewrite <- named_app. unfold arrivedHeader, ownKey, framing.
  destruct (decide (k = str "content-length")) as [-> | Hcl].
  { rewrite bool_decide_eq_true_2 by done. cbn [orb]. rewrite extras_other by auto. by destruct mode. }
  rewrite bool_decide_eq_false_2 by done. cbn [orb].
  destruct (decide (k = str "transfer-encoding")) as [-> | Hte].
  { rewrite bool_decide_eq_true_2 by done. rewrite extras_other by auto. by destruct mode. }
  rewrite bool_decide_eq_false_2 by done. destruct (om_find k (r_headers resp)); [done |].
  destruct mode; cbn [named]; [by rewrite decide_False | by rewrite decide_False | done].
Qed.

Lemma close_arrived :
  (match arrivedHeader (str "connection") with
   | Some h => bool_decide (toLower (value_ h) = str "close")
   | None => bool_decide (r_version resp = kHttp10)
   end) = arrivedClose.
Proof.
  pose proof (wr_version Hw) as Hv. unfold arrivedHeader, arrivedClose. rewrite !decide_False by done.
  destruct (om_find (str "connection") (r_headers resp)) as [h |] eqn:Hc; [done |].
  rewrite named_app. assert (Hd : named (str "connection") dateExtra = None).
  { unfold dateExtra. by destruct (_ && _). }
  rewrite Hd. unfold closeExtra, om_contains. rewrite Hc.
  destruct closes, (r_version resp); try done; by vm_compute.
Qed.

Lemma transfer_arrived (m : HttpHeaderMap) :
  (forall k, om_find k m = arrivedHeader k) ->
  exists n, (mode = ContentLength -> n = r_contentLength resp)
    /\ forall p, r_headers (data_ p) = m ->
         processTransferMode p
         = (Ok true, set_data (set_transfer mode (if decide (mode = ContentLength) then n else r_contentLength (data_ p)) (data_ p)) p).
Proof.
  intros Hm. exists (r_contentLength resp). split; [done |]. intros p Hp.
  pose proof (Hm (str "transfer-encoding")) as Hte. pose proof (Hm (str "content-length")) as Hcl.
  unfold arrivedHeader in Hte, Hcl. rewrite decide_False, decide_True in Hte by done. rewrite decide_True in Hcl by done.
  unfold processTransferMode. rewrite mbind_get, Hp. unfold transferDecision. rewrite Hte.
  destruct mode; repeat first [rewrite decide_True in Hte by done | rewrite decide_False in Hte by done];
    repeat first [rewrite decide_True in Hcl by done | rewrite decide_False in Hcl by done].
  - unfold contentLengthDecision. rewrite Hcl. cbn [lengthLine newHeader value_].
    destruct (to_string_head (r_contentLength resp) (wr_length Hw)) as (Hne & Hhd & _). rewrite Hhd.
    rewrite bool_decide_eq_false_2 by done. cbn [orb]. rewrite stoul_to_string by apply Hw. done.
  - done.
  - unfold contentLengthDecision. by rewrite Hcl.
Qed.

Lemma response_completes :
  exists p' d, completes (LineParser0 := response_parser) newParser responseLines p'
    /\ extractResult p' = Parsed d /\ arrived d.
Proof.
  destruct (add_items_data items afterStatus) as (m & Heq & Hm & Hf); [constructor |].
  assert (Hfind : forall k, om_find k m = arrivedHeader k) by (intros k; rewrite Hf; apply items_named).
  destruct (transfer_arrived m Hfind) as (n & Hn & Ht).
  set (p1 := with_items m (r_cookies (data_ afterStatus) ++ itemCookies items) afterStatus) in *.
  set (d := set_shouldClose arrivedClose (data_ (set_data (set_transfer mode
       (if decide (mode = ContentLength) then n else r_contentLength (data_ p1)) (data_ p1)) p1))).
  assert (Hend : feedLine [] p1 = (Ok HeaderComplete, mkParser d HeaderComplete (error_ newParser))).
  { unfold feedLine. rewrite mbind_get. change (state_ p1) with ExpectHeader. cbv iota. rewrite decide_True by done.
    assert (Hh : processHeaders p1 = (Ok true, mkParser d ExpectHeader (error_ newParser))).
    { unfold processHeaders. rewrite (mbind_ok _ _ _ _ _ (Ht p1 eq_refl)). unfold processConnectionClose, modify, mbind, mret.
      unfold set_data, d. do 3 f_equal. unfold p1, with_items, set_data, set_transfer.
      cbn [data_ r_headers r_version statusData afterStatus]. rewrite Hfind, close_arrived. done. }
    rewrite (mbind_ok _ _ _ _ _ Hh). done. }
  exists (mkParser d HeaderComplete (error_ newParser)), d. split; [| split; [done |]].
  - unfold responseLines. cbn [completes]. destruct (map itemText items ++ [[]]) as [| l ls] eqn:Hls; [by destruct (map itemText items) |].
    exists afterStatus. split; [apply feed_status |]. rewrite <- Hls. apply completes_items; [apply items_ok | done |].
    rewrite Heq. exact Hend.
  - unfold arrived, d. cbn. rewrite itemCookies_items. repeat (split; [done |]). split; [| split; [done | exact Hfind]].
    intros Hmode. rewrite decide_True by done. auto.
Qed.
End head.

(** ** The body *)

(** How the sink delimits the body of a response, and the body itself. *)
Definition modeOf (m : ServerResponse) : TransferMode :=
  match bodyWriterFn_ m with
  | None => ContentLength
  | Some _ => if decide (r_version (data_ m) = kHttp10) then UntilClose else HttpTypes.Chunked
  end.

Definition bodyOf (m : ServerResponse) : bytes :=
  match bodyWriterFn_ m with None => body_ m | Some pieces => concat pieces end.

(** What [setBody] and [setBodyWriter] ensure. *)
Definition length_ok (m : ServerResponse) : Prop :=
  bodyWriterFn_ m = None -> r_contentLength (data_ m) = size (body_ m).

(** The body as the sink frames it. *)
Definition framed (m : ServerResponse) : bytes :=
  match modeOf m with
  | HttpTypes.Chunked =>
      encodeChunks (filter (fun d => d <> []) (default [] (bodyWriterFn_ m))) ++ lastChunk
  | _ => bodyOf m
  end.

Lemma flushed_framed (sink : ResponseSink.Http1ResponseSink) (m : ServerResponse) :
  ResponseSink.isHeadMethod_ sink = false ->
  flushed sink m = ResponseSink.buildHeaderBuf sink (data_ m) (modeOf m) ++ CRLF ++ framed m.
Proof.
  intros Hh. unfold flushed, framed, modeOf, bodyOf. rewrite Hh. destruct (bodyWriterFn_ m) as [pieces |]; [| done].
  destruct (decide (r_version (data_ m) = kHttp10)); [by rewrite decide_True | by rewrite decide_False].
Qed.

Lemma concat_nonempty (pieces : list bytes) : concat (filter (fun d => d <> []) pieces) = concat pieces.
Proof.
  induction pieces as [| p pieces IH]; [done |].
  rewrite filter_cons. destruct (decide (p <> [])) as [Hne | He]; simpl; [by rewrite IH |].
  destruct p; [done |]. exfalso. by apply He.
Qed.

(** The client reads the head of a response, and its reader delivers the body. *)
Lemma response_read {R : Type} `{!ByteStream R} (sink : ResponseSink.Http1ResponseSink) (m : ServerResponse)
    (rest : bytes) (c : conn R) :
  writable_response sink (data_ m) -> ResponseSink.isHeadMethod_ sink = false -> pieces_ok m -> length_ok m ->
  (modeOf m = UntilClose -> rest = []) -> remains c (flushed sink m ++ rest) ->
  exists d c', parseResponse c = (Ok (Parsed d), c') /\ arrived sink (data_ m) (modeOf m) d
    /\ anyDelivers (create c' (r_transferMode d) (r_contentLength d)) (bodyOf m) rest.
Proof.
  intros Hw Hh Hp Hl Hend Hrem. rewrite flushed_framed in Hrem by done.
  rewrite (app_assoc (ResponseSink.buildHeaderBuf _ _ _)), responseHeader_lines in Hrem by done.
  destruct (response_completes sink (data_ m) (modeOf m) Hw) as (p' & d & Hcomp & Hex & Harr).
  assert (Hlines : Forall head_line (responseLines sink (data_ m) (modeOf m))).
  { unfold responseLines. constructor; [by eapply statusLine_line |]. apply Forall_app. split.
    - apply Forall_map. eapply Forall_impl; [by eapply (items_ok sink (data_ m) (modeOf m)) |]. intros it. apply itemText_line.
    - constructor; [| done]. by split; [constructor |]. }
  rewrite <- app_assoc in Hrem.
  destruct (readHead_lines (LineParser0 := response_parser) false Response.newParser p' c _ (framed m ++ rest) Hcomp Hlines
    ltac:(done) Hrem) as (c' & Hread & Hrem').
  exists d, c'. split; [unfold parseResponse; rewrite Hread; do 2 f_equal; exact Hex |]. split; [done |].
  destruct Harr as (_ & _ & _ & _ & -> & Hcl & _). unfold framed, bodyOf, modeOf, length_ok, pieces_ok in *.
  destruct (bodyWriterFn_ m) as [pieces |]; [destruct (decide (r_version (data_ m) = kHttp10)) |].
  - rewrite Hend, app_nil_r in * by done. by apply create_until_close.
  - rewrite <- concat_nonempty. apply create_chunked.
    + apply Forall_forall. intros x Hx. apply list_elem_of_filter in Hx as [Hne Hx].
      split; [done |]. by apply (proj1 (Forall_forall _ _) Hp).
    + cbn [default] in Hrem'. by rewrite <- app_assoc in Hrem'.
  - rewrite Hcl, Hl by done. by apply create_content_length.
Qed.

(** ** Properties *)

(** C4: a response survives the wire.  Whatever a program sets on a response
    (status, headers, cookies, a whole body or a function that writes pieces)
    that fits the syntax, what [Http1ResponseSink] writes, arriving in whatever
    segments, is what the client parses: the same status, cookies and headers
    (with the framing, date and connection headers the sink adds), and its body
    reader delivers exactly the body, whether it is delimited by a length, in
    chunks, or by the end of the connection. *)
Theorem response_roundtrip {W R : Type} `{!ByteStream W, !ByteStream R} (sink : ResponseSink.Http1ResponseSink)
    (m : ServerResponse) (rest : bytes) (w : W) (c : conn R) (fuel : nat) :
  writable_response sink (data_ m) -> ResponseSink.isHeadMethod_ sink = false -> pieces_ok m -> length_ok m ->
  (modeOf m = UntilClose -> rest = []) -> sent w = [] ->
  remains c (sent (snd (flush sink m w)) ++ rest) -> (length (bodyOf m) < fuel)%nat ->
  exists d c' r', parseResponse c = (Ok (Parsed d), c') /\ arrived sink (data_ m) (modeOf m) d
    /\ readBody fuel (mkReader (create c' (r_transferMode d) (r_contentLength d)) false) = (Ok (bodyOf m), r')
    /\ remains (reader_conn (impl r')) rest.
Proof.
  intros Hw Hh Hp Hl Hend Hsent Hrem Hf. destruct (flush_ok sink m w Hp) as (w' & Hflush & Hs & _).
  rewrite Hflush in Hrem. cbn [snd] in Hrem. rewrite Hs, Hsent in Hrem.
  destruct (response_read sink m rest c Hw Hh Hp Hl Hend Hrem) as (d & c' & Hread & Harr & Hdel).
  destruct (readBody_any fuel _ (bodyOf m) rest Hdel Hf) as (r' & Hbody & Hrest).
  exists d, c', r'. auto.
Qed.

Definition exampleSink : ResponseSink.Http1ResponseSink :=
  ResponseSink.mkSink false true (str "Wed, 21 Oct 2026 07:28:00 GMT").

Definition exampleResponse : ServerResponse :=
  setBodyWriter [str "Hel"; []; str "lo"]
    (addCookie (mkCookie (str "sid") (str "a1") [] (str "/") [] 60 Lax true true)
      (setHeader (str "X-Id") (str "7") (setStatus 404 [] newServerResponse))).

Lemma response_roundtrip_witness :
  let wire := sent (snd (flush exampleSink exampleResponse (Script [] []))) in
  let c := Conn empty_buffer (Script [take 11 wire; drop 11 wire ++ str "HTTP"] []) in
  exists d c' r', parseResponse c = (Ok (Parsed d), c') /\ arrived exampleSink (data_ exampleResponse) HttpTypes.Chunked d
    /\ readBody 10 (mkReader (create c' (r_transferMode d) (r_contentLength d)) false) = (Ok (str "Hello"), r')
    /\ remains (reader_conn (impl r')) (str "HTTP").
Proof.
  intros wire c.
  apply (response_roundtrip (W := script) exampleSink exampleResponse (str "HTTP") (Script [] []) c 10).
  - assert (Hh : Forall writable (map snd (r_headers (data_ exampleResponse)))).
    { repeat constructor; try (by repeat constructor); eexists; split; reflexivity. }
    split; try done.
    + split; [by repeat constructor | by vm_compute].
    + split; [by repeat constructor | split; [by repeat constructor | done]].
    + constructor; [| constructor]. split; [| split; [by vm_compute | split; [by repeat constructor | by vm_compute]]].
      split; unfold field_ok, without; cbn [c_name c_value c_domain c_path c_expires c_maxAge];
        [repeat split | split | split | split | split | right | ]; try (by repeat constructor); try done; by vm_compute.
    + split; [by vm_compute | split; [by repeat constructor | by vm_compute]].
  - reflexivity.
  - by repeat constructor.
  - done.
  - done.
  - reflexivity.
  - split; [unfold wf; simpl; lia | by vm_compute].
  - vm_compute; lia.
Defined.
