(* ===== verification/HttpServer.v ===== *)
(** The HTTP server, src/extensions/http/src/HttpServer.cc: what it does with
    one request ([handleNextRequest]) and with a connection
    ([handleConnection]).

    Handlers, middlewares and the request upgrader are programs the server is
    given: functions on what the server shows them, the request, the response
    and the body reader. *)

From Stdlib Require Import ZArith Lia String Strings.Byte.
From stdpp Require Import base numbers option list gmap.
From S2P Require Import Prelude CxxStd ByteStream StringBuffer Conn BodyReader Chunked OrdMap HttpTypes HttpParser.
From S2P Require Import HttpHead CookieCodec Http1Sink Http1Reader HttpOutgoing Router.
Open Scope Z_scope.

Section server.
Context {S : Type} `{!ByteStream S} {Regex : Type}.
Context (reg : MethodRegistry) (regex_match : bytes -> Regex -> option (list bytes)).

(** ** Data *)

(** [HttpServer::StreamHandler] takes over the stream. *)
Definition StreamHandler : Type := M S unit.

(** What a handler is given, and the local variable [handler] in which the
    upgrader leaves a stream handler. *)
Record Exchange : Type := mkExchange {
  x_request : HttpRequest;
  x_pathParams : PathParams;
  x_response : ServerResponse;
  x_reader : @Http1BodyReader (AnyReader S);
  x_handler : option StreamHandler
}.

Definition Handler : Type := M Exchange unit.

(** A middleware is given the rest of the chain. *)
Definition Middleware : Type := Handler -> Handler.

(** The members of [HttpServer]; [dates]: what the clock says, printed, when
    the responses are written. *)
Record HttpServer : Type := mkServer {
  requestUpgrader_ : option (M Exchange (option StreamHandler));
  middlewares_ : list Middleware;
  router_ : @HttpRouter Regex Handler;
  send_date_header : bool;
  dates : nat -> bytes
}.

Inductive Action : Type := ActDisconnected | ActClose | ActShutdown | ActContinue.

Definition set_response (r : ServerResponse) (x : Exchange) : Exchange :=
  mkExchange (x_request x) (x_pathParams x) r (x_reader x) (x_handler x).
Definition set_pathParams (ps : PathParams) (x : Exchange) : Exchange :=
  mkExchange (x_request x) ps (x_response x) (x_reader x) (x_handler x).
Definition set_reader (r : @Http1BodyReader (AnyReader S)) (x : Exchange) : Exchange :=
  mkExchange (x_request x) (x_pathParams x) (x_response x) r (x_handler x).
Definition set_handler (h : option StreamHandler) (x : Exchange) : Exchange :=
  mkExchange (x_request x) (x_pathParams x) (x_response x) (x_reader x) h.

(** ** The stream behind a reader *)

(** The reader, the server and the program share the stream and the buffer. *)
Definition with_conn (c : conn S) (r : AnyReader S) : AnyReader S :=
  match r with
  | AnyNoop _ => AnyNoop c
  | AnyContentLength r => AnyContentLength (mkContentLength c (contentLength_ r) (bytesRead_ r))
  | AnyChunked r => AnyChunked (mkChunked c (Chunked.state_ r) (currentChunkSize_ r) (currentChunkRead_ r))
  | AnyUntilClose r => AnyUntilClose (mkUntilClose c (complete_ r))
  end.

Definition exchange_conn (x : Exchange) : conn S := reader_conn (impl (x_reader x)).

Definition set_conn (c : conn S) (x : Exchange) : Exchange :=
  set_reader (mkReader (with_conn c (impl (x_reader x))) (draining_ (x_reader x))) x.

Definition on_conn_stream {A : Type} (m : M S A) : M (conn S) A := fun c =>
  let '(o, s) := m (strm c) in (o, Conn (buf c) s).

Definition on_stream {A : Type} (m : M S A) : M Exchange A := fun x =>
  let '(o, c) := on_conn_stream m (exchange_conn x) in (o, set_conn c x).

Definition respond (f : ServerResponse -> ServerResponse) : M Exchange unit := fun x =>
  (Ok tt, set_response (f (x_response x)) x).

(** ** One request *)

Definition isUpgradeRequest (request : HttpRequest) : bool :=
  let connection := getHeaderCode NC_Connection (headers request) in
  if bool_decide (connection = []) then false
  else if sv_find_str (toLower connection) (str "upgrade") 0 =? npos then false
  else negb (bool_decide (getHeaderCode NC_Upgrade (headers request) = [])).

Fixpoint invokeChain (ms : list Middleware) (last : Handler) : Handler :=
  match ms with
  | [] => last
  | m :: ms' => m (invokeChain ms' last)
  end.

(** [try { co_await ... } catch (...) { exPtr = ...; }]: whether it threw. *)
Definition catching (m : Handler) : M Exchange bool :=
  mtry (let* _ := m in mret false) (fun _ => mret true).

Definition internalServerError (r : ServerResponse) : ServerResponse :=
  setBody (str "Internal Server Error") (setStatus 500 [] (setCloseConnection true (clear r))).

(** The answer when no handler is called. *)
Definition noRoute {H : Type} (method : HttpMethod) (routeRes : @RouteResult H) (r : ServerResponse) : ServerResponse :=
  match reason routeRes with
  | MethodNotAllowed =>
      if method =? Options
      then setHeaderCode NC_Allow (rr_allowedMethods routeRes) (setStatus 200 [] r)
      else setBody (str "Method Not Allowed")
             (setHeaderCode NC_Allow (rr_allowedMethods routeRes) (setStatus 405 [] r))
  | _ => setBody (str "Not Found") (setStatus 404 [] r)
  end.

Context (server : HttpServer).

Definition sinkAt (i : nat) (isHeadMethod : bool) : ResponseSink.Http1ResponseSink :=
  ResponseSink.mkSink isHeadMethod (send_date_header server) (dates server i).

(** The upgrade branch; [None]: the stream handler took over. *)
Definition serveUpgrade (i : nat) (upgrader : M Exchange (option StreamHandler)) (go : Action)
    : M Exchange (option Action) :=
  let* x := mget in
  let last := (let* h := upgrader in fun x => (Ok tt, set_handler h x)) in
  let* threw := catching (invokeChain (middlewares_ server) last) in
  if threw : bool then
    let* _ := respond internalServerError in mret (Some ActShutdown)
  else
    let* y := mget in
    match x_handler y with
    | Some handler =>
        let* _ := on_stream (flush (sinkAt i (method (x_request x) =? Head)) (x_response y)) in
        let* _ := on_stream handler in
        mret None
    | None => mret (Some go)
    end.

(** The routing branch. *)
Definition serveRoute (keepAlive : bool) (go : Action) : M Exchange (option Action) :=
  let* x := mget in
  let routeRes := route regex_match (method (x_request x)) (path (x_request x)) (router_ server) in
  let* _ := (fun x => (Ok tt, set_pathParams (rr_params routeRes) x)) in
  match reason routeRes, handler routeRes with
  | ReasonOk, Some h =>
      let expect := getHeaderCode NC_Expect (headers (x_request x)) in
      let* expected :=
        (if bool_decide (expect = []) then mret true
         else if bool_decide (expect <> str "100-continue") then
           let* _ := respond (fun r => setBody (str "Expectation Failed") (setStatus 417 [] r)) in mret false
         else
           let* _ := on_stream (fun s => (Ok tt, stream_write (str "HTTP/1.1 100 Continue" ++ CRLF ++ CRLF) s)) in
           mret true) in
      if expected : bool then
        let* threw := catching (invokeChain (middlewares_ server) h) in
        if threw : bool then
          let* _ := respond internalServerError in mret (Some ActShutdown)
        else mret (Some go)
      else mret (Some go)
  | _, _ =>
      let* _ := respond (noRoute (method (x_request x)) routeRes) in mret (Some go)
  end.

(** [handleNextRequest] from the construction of the request on. *)
Definition serve (i : nat) : M Exchange (option Action) :=
  let* x := mget in
  let go := if keepAlive (x_request x) then ActContinue else ActShutdown in
  if method (x_request x) =? _Invalid then
    let* _ := respond (fun r => setBody (str "Bad Request") (setStatus 400 [] r)) in
    mret (Some go)
  else
    match requestUpgrader_ server with
    | Some upgrader =>
        if isUpgradeRequest (x_request x) then serveUpgrade i upgrader go
        else serveRoute (keepAlive (x_request x)) go
    | None => serveRoute (keepAlive (x_request x)) go
    end.

(** [HandleResult]; the exchange holds the request and the body reader. *)
Record HandleResult : Type := mkResult {
  action : Action;
  hr_exchange : option Exchange;
  hr_resp : option ServerResponse
}.

Definition badRequest : ServerResponse :=
  setBody (str "Bad Request") (setCloseConnection true (setStatus 400 [] newServerResponse)).

Definition newExchange (request : HttpRequest) (c : conn S) : Exchange :=
  mkExchange request ∅
    (setCloseConnection (negb (keepAlive request)) (setVersion (version request) newServerResponse))
    (mkReader (create c (transferMode request) (contentLength request)) false) None.

Definition handleNextRequest (i : nat) : M (conn S) HandleResult :=
  let* parsed := parseNext reg in
  match parsed with
  | Disconnected => mret (mkResult ActDisconnected None None)
  | ParseError _ => mret (mkResult ActClose None (Some badRequest))
  | Parsed request => fun c =>
      let '(o, x) := serve i (newExchange request c) in
      (let! a := o in
       Ok (match a with
           | Some a => mkResult a (Some x) (Some (x_response x))
           | None => mkResult ActClose None None
           end), exchange_conn x)
  end.

(** ** A connection *)

(** [if (result.bodyReader && !result.bodyReader->isComplete())
    co_await result.bodyReader->drain();] *)
Definition drainBody (x : Exchange) : M (conn S) unit := fun c =>
  let r := mkReader (with_conn c (impl (x_reader x))) (draining_ (x_reader x)) in
  if isComplete (impl r) then (Ok tt, c)
  else
    let '(o, r') := drain (length (pending (strm c)) + remainSize (buf c) + 1) r in
    (o, reader_conn (impl r')).

(** The loop; the result tells whether the server shut the stream down.  Every
    round that goes on has read a head. *)
Fixpoint connectionLoop (fuel i : nat) : M (conn S) bool :=
  match fuel with
  | O => mlift Diverge
  | Datatypes.S fuel' =>
      let* result := handleNextRequest i in
      match action result, hr_resp result with
      | ActDisconnected, _ | _, None => mret false
      | a, Some resp =>
          let isHeadMethod :=
            match hr_exchange result with Some x => method (x_request x) =? Head | None => false end in
          let* _ := on_conn_stream (flush (sinkAt i isHeadMethod) resp) in
          match a with
          | ActContinue =>
              let* _ := (match hr_exchange result with Some x => drainBody x | None => mret tt end) in
              connectionLoop fuel' (Datatypes.S i)
          | ActShutdown => mret true
          | _ => mret false
          end
      end
  end.

Definition handleConnection : M (conn S) bool := fun c =>
  connectionLoop (length (pending (strm c)) + remainSize (buf c) + 1) 0 c.
End server.
