(* ===== verification/HttpServerSpec.v ===== *)
(** What a connection to the server of HttpServer.v comes to: every request
    gets its answer, in order, whatever its handler does with its body. *)

From Stdlib Require Import ZArith Lia String Strings.Byte.
From stdpp Require Import base numbers option list gmap.
From S2P Require Import Prelude CxxStd ByteStream StringBuffer Conn BodyReader Chunked OrdMap HttpTypes HttpParser.
From S2P Require Import HttpHead CookieCodec Http1Sink Http1Reader Http1RoundTrip ReadOnly HttpOutgoing Router HttpServer.
Open Scope Z_scope.

(** ** Readers and their connection *)

Section readers.
Context {S : Type} `{!ByteStream S}.

Lemma reader_with_conn (c : conn S) (r : AnyReader S) : reader_conn (with_conn c r) = c.
Proof. by destruct r. Qed.

(** A connection that holds the same bytes serves a reader as well. *)
Lemma delivers_with_conn (c : conn S) (r : AnyReader S) (d rest : bytes) :
  (forall z, remains (reader_conn r) z -> remains c z) ->
  anyDelivers r d rest -> anyDelivers (with_conn c r) d rest.
Proof.
  intros Hc. destruct r as [c0 | r | r | r]; cbn.
  - intros [? ?]. auto.
  - intros [? ?]. split; auto.
  - intros (ls & ? & ? & H). exists ls. split; [done |]. split; [done |]. cbn [Chunked.state_ ck_conn currentChunkSize_ currentChunkRead_].
    destruct (Chunked.state_ r); [| | destruct H; auto].
    + destruct H as (ds & ? & ? & ?). exists ds. auto.
    + destruct H as (cur & ds & ? & ? & ? & ? & ?). exists cur, ds. auto 6.
  - intros (? & ? & ?). split; auto.
Qed.

(** Changing what was sent changes nothing to read. *)
Lemma remains_sent (c : conn S) (s : S) (d : bytes) :
  pending s = pending (strm c) -> remains c d -> remains (Conn (buf c) s) d.
Proof. intros Hp [Hwf Hd]. split; [done |]. cbn [buf strm]. by rewrite Hp. Qed.

Lemma encodeChunks_length (ds : list bytes) : (length (concat ds) <= length (encodeChunks ds))%nat.
Proof.
  unfold encodeChunks. induction ds as [| d ds IH]; [done |]. cbn [map concat]. rewrite !length_app.
  unfold encodeChunk at 1. rewrite !length_app. lia.
Qed.

(** What a reader still has to deliver is on its connection. *)
Lemma delivers_length (r : AnyReader S) (d rest : bytes) :
  anyDelivers r d rest ->
  (length d <= length (pending (strm (reader_conn r))) + remainSize (buf (reader_conn r)))%nat.
Proof.
  assert (Hlen : forall (c : conn S) a b, remains c (a ++ b) ->
    (length a <= length (pending (strm c)) + remainSize (buf c))%nat).
  { intros c a b Hrem. pose proof (remains_length c _ Hrem) as H. rewrite length_app in H. lia. }
  destruct r as [c | r | r | r]; cbn.
  - intros [-> _]. simpl. lia.
  - intros [Hrem _]. by eapply Hlen.
  - intros (ls & _ & _ & H). destruct (Chunked.state_ r).
    + destruct H as (ds & _ & -> & Hrem). apply Hlen in Hrem. pose proof (encodeChunks_length ds). lia.
    + destruct H as (cur & ds & _ & _ & -> & _ & Hrem). pose proof (encodeChunks_length ds).
      rewrite (app_assoc CRLF), (app_assoc cur) in Hrem. apply Hlen in Hrem. rewrite !length_app in *. lia.
    + destruct H as [-> _]. simpl. lia.
  - intros (Hrem & _). rewrite <- (app_nil_r d) in Hrem. by eapply Hlen.
Qed.

(** At the end of the stream there is no next request. *)
Lemma parseNext_end (reg : MethodRegistry) (c : conn S) :
  remains c [] -> exists c', parseNext reg c = (Ok Disconnected, c') /\ sentOn c' = sentOn c.
Proof.
  intros Hrem. pose proof Hrem as [Hwf Hcd]. pose proof (remains_length c [] Hrem) as Hlen. cbn in Hlen.
  pose proof (parseNext_leaves (sentOn c) reg c eq_refl) as Hs. unfold leaves in Hs.
  enough (H : exists c', parseNext reg c = (Ok Disconnected, c')).
  { destruct H as [c' H]. exists c'. split; [done |]. rewrite H in Hs. exact Hs. }
  unfold parseNext, readHead. replace (_ + _ + 1)%nat with 1%nat by lia. cbn [readHeadLoop].
  rewrite (mbind_ok mget _ c c c eq_refl).
  destruct (find_crlf_cases (buf c) Hwf) as (pos & Hfind & Hpos). rewrite (mbind_lift _ _ _ _ Hfind).
  assert (pos = npos) as -> by (destruct Hpos; [done | lia]). rewrite Z.eqb_refl.
  unfold kMaxHeaderLineSize. destruct (Z.ltb_spec 8192 (Z.of_nat (remainSize (buf c)))); [lia |]. cbn [andb].
  destruct (fill_spec 4096 c [] Hrem ltac:(lia)) as (n & c1 & Hfill & Hrem1 & Hsz & _).
  pose proof (remains_length c1 [] Hrem1) as Hlen1. cbn in Hlen1.
  rewrite (mbind_ok _ _ _ _ _ Hfill). assert (n = 0%nat) as -> by lia. by exists c1.
Qed.
End readers.

(** ** What the server answers *)

Section spec.
Context {S : Type} `{!ByteStream S} {Regex : Type}.
Context (reg : MethodRegistry) (regex_match : bytes -> Regex -> option (list bytes)).
Context (server : @HttpServer S Regex).

(** A handler as a function: of the request, its path parameters, the whole
    body and the response it finds, the response it leaves and whether it
    returned. *)
Definition Program : Type := HttpRequest -> PathParams -> bytes -> ServerResponse -> bool * ServerResponse.

(** The handler computes the function.  It may read the body, a part of it or
    nothing, in any way the body reader allows; it leaves the reader in a state
    to go on from, and writes to the stream only through its response. *)
Definition computes (h : @Handler S) (F : Program) : Prop :=
  forall x d rest,
    anyDelivers (impl (x_reader x)) d rest -> pieces_ok (x_response x) ->
    exists o x' d', h x = (o, x') /\ (o = Ok tt \/ exists e, o = Throw e)
      /\ F (x_request x) (x_pathParams x) d (x_response x) = (is_ok o, x_response x')
      /\ x_request x' = x_request x
      /\ anyDelivers (impl (x_reader x')) d' rest
      /\ sentBy (impl (x_reader x')) = sentBy (impl (x_reader x))
      /\ pieces_ok (x_response x').

Context (program : @Handler S -> Program).

(** The answer to a request: what becomes of the connection, the response, and
    what is sent before it. *)
Definition reply (request : HttpRequest) (body : bytes) : Action * ServerResponse * bytes :=
  let fresh := setCloseConnection (negb (keepAlive request)) (setVersion (version request) newServerResponse) in
  let go := if keepAlive request then ActContinue else ActShutdown in
  if method request =? _Invalid then (go, setBody (str "Bad Request") (setStatus 400 [] fresh), [])
  else
    let routeRes := route regex_match (method request) (path request) (router_ server) in
    match reason routeRes, handler routeRes with
    | ReasonOk, Some h =>
        let expect := getHeaderCode NC_Expect (headers request) in
        let interim := if decide (expect = []) then [] else str "HTTP/1.1 100 Continue" ++ CRLF ++ CRLF in
        if decide (expect = [] \/ expect = str "100-continue") then
          match program h request (rr_params routeRes) body fresh with
          | (true, resp) => (go, resp, interim)
          | (false, resp) => (ActShutdown, internalServerError resp, interim)
          end
        else (go, setBody (str "Expectation Failed") (setStatus 417 [] fresh), [])
    | _, _ => (go, noRoute (method request) routeRes fresh, [])
    end.

(** What is sent for the requests from the [i]-th on, and whether the server
    shuts the stream down: it does after the first that ends the connection. *)
Fixpoint answers (i : nat) (requests : list (HttpRequest * bytes)) : bytes * bool :=
  match requests with
  | [] => ([], false)
  | (request, body) :: requests' =>
      let '(a, resp, interim) := reply request body in
      let out := interim ++ flushed (sinkAt server i (method request =? Head)) resp in
      match a with
      | ActContinue => let '(outs, closed) := answers (Datatypes.S i) requests' in (out ++ outs, closed)
      | _ => (out, true)
      end
  end.

(** ** One request *)

(** Every handler of the router, behind the middlewares, computes its
    function. *)
Context (Hhandlers : forall h, Some h ∈ handlers_ (router_ server) ->
                     computes (invokeChain (middlewares_ server) h) (program h)).
Context (Hplain : requestUpgrader_ server = None).

Lemma route_handler (m : HttpMethod) (p : bytes) (h : Handler) :
  handler (route regex_match m p (router_ server)) = Some h -> Some h ∈ handlers_ (router_ server).
Proof.
  unfold route, handlerOf. destruct (matched _); [| by case_decide].
  destruct (_ <? _); [| by case_decide].
  destruct (handlers_ (router_ server) !! _) as [[h' |] |] eqn:Hl; cbn [default]; try by case_decide.
  intros [= <-]. by eapply list_elem_of_lookup_2.
Qed.

Lemma on_stream_write (d : bytes) (x : @Exchange S) (b rest : bytes) :
  anyDelivers (impl (x_reader x)) b rest ->
  exists x', on_stream (fun s => (Ok tt, stream_write d s)) x = (Ok tt, x')
    /\ anyDelivers (impl (x_reader x')) b rest /\ sentBy (impl (x_reader x')) = sentBy (impl (x_reader x)) ++ d
    /\ x_request x' = x_request x /\ x_pathParams x' = x_pathParams x /\ x_response x' = x_response x.
Proof.
  intros Hd. eexists. split; [reflexivity |]. unfold exchange_conn.
  destruct (stream_write_ok d (strm (reader_conn (impl (x_reader x))))) as [Hs Hp].
  cbn [set_conn set_reader x_reader impl x_request x_pathParams x_response]. split; [| split; [| done]].
  - apply delivers_with_conn; [| done]. intros z. by apply remains_sent.
  - unfold sentBy, sentOn. by rewrite reader_with_conn.
Qed.

(** A handler behind [try] and what follows it. *)
Lemma catching_ok (h : Handler) (F : Program) (x : Exchange) (d rest : bytes) :
  computes h F -> anyDelivers (impl (x_reader x)) d rest -> pieces_ok (x_response x) ->
  exists threw x' d', catching h x = (Ok threw, x')
    /\ F (x_request x) (x_pathParams x) d (x_response x) = (negb threw, x_response x')
    /\ x_request x' = x_request x /\ anyDelivers (impl (x_reader x')) d' rest
    /\ sentBy (impl (x_reader x')) = sentBy (impl (x_reader x)) /\ pieces_ok (x_response x').
Proof.
  intros Hh Hd Hpo. destruct (Hh x d rest Hd Hpo) as (o & x' & d' & Heq & Ho & HF & Hreq & Hd' & Hs & Hp).
  exists (negb (is_ok o)), x', d'. unfold catching, mtry, mbind. rewrite Heq.
  destruct Ho as [-> | [e ->]]; cbn in *; auto 8.
Qed.

Lemma serveRoute_ok (x : Exchange) (b rest : bytes) :
  anyDelivers (impl (x_reader x)) b rest ->
  x_response x = setCloseConnection (negb (keepAlive (x_request x)))
                   (setVersion (version (x_request x)) newServerResponse) ->
  method (x_request x) <> _Invalid ->
  exists a x' d' interim,
    serveRoute regex_match server (keepAlive (x_request x))
      (if keepAlive (x_request x) then ActContinue else ActShutdown) x = (Ok (Some a), x')
    /\ reply (x_request x) b = (a, x_response x', interim)
    /\ x_request x' = x_request x /\ anyDelivers (impl (x_reader x')) d' rest
    /\ sentBy (impl (x_reader x')) = sentBy (impl (x_reader x)) ++ interim /\ pieces_ok (x_response x').
Proof.
  intros Hd Hresp Hm. unfold serveRoute, reply. rewrite mbind_get, <- Hresp.
  apply Z.eqb_neq in Hm. rewrite Hm. set (rr := route regex_match _ _ _).
  set (go := if keepAlive _ then ActContinue else ActShutdown).
  set (x1 := set_pathParams (rr_params rr) x). rewrite (mbind_ok _ _ _ x1 tt) by done.
  assert (Hnone : exists a x' d' interim,
    (let* _ := respond (noRoute (method (x_request x)) rr) in mret (Some go)) x1 = (Ok (Some a), x')
    /\ (go, noRoute (method (x_request x)) rr (x_response x), []) = (a, x_response x', interim)
    /\ x_request x' = x_request x /\ anyDelivers (impl (x_reader x')) d' rest
    /\ sentBy (impl (x_reader x')) = sentBy (impl (x_reader x)) ++ interim /\ pieces_ok (x_response x')).
  { eexists _, _, b, []. split; [reflexivity |]. split; [done |]. split; [done |]. split; [done |].
    split; [by rewrite app_nil_r |]. cbn. rewrite Hresp. unfold noRoute.
    destruct (reason rr); [done .. |]. by destruct (_ =? Options). }
  destruct (reason rr); [| exact Hnone ..]. destruct (handler rr) as [h |] eqn:Hh; [| exact Hnone].
  apply route_handler, Hhandlers in Hh. set (expect := getHeaderCode _ _).
  assert (Hcall : forall y interim, x_request y = x_request x -> x_pathParams y = rr_params rr ->
    x_response y = x_response x -> anyDelivers (impl (x_reader y)) b rest ->
    sentBy (impl (x_reader y)) = sentBy (impl (x_reader x)) ++ interim ->
    exists a x' d', (let* threw := catching (invokeChain (middlewares_ server) h) in
      if threw : bool then let* _ := respond internalServerError in mret (Some ActShutdown)
      else mret (Some go)) y = (Ok (Some a), x')
    /\ match program h (x_request x) (rr_params rr) b (x_response x) with
       | (true, resp) => (go, resp, interim)
       | (false, resp) => (ActShutdown, internalServerError resp, interim)
       end = (a, x_response x', interim)
    /\ x_request x' = x_request x /\ anyDelivers (impl (x_reader x')) d' rest
    /\ sentBy (impl (x_reader x')) = sentBy (impl (x_reader x)) ++ interim /\ pieces_ok (x_response x')).
  { intros y interim Hy1 Hy2 Hy3 Hyd Hys.
    destruct (catching_ok _ _ y b rest Hh Hyd ltac:(by rewrite Hy3, Hresp)) as (threw & x' & d' & Hc & HF & Hreq & Hd' & Hs & Hp).
    rewrite (mbind_ok _ _ _ _ _ Hc). rewrite Hy1, Hy2, Hy3 in HF. rewrite HF.
    rewrite <- Hys, <- Hs. destruct threw; cbn [negb]; eexists _, _, d'; (split; [reflexivity |]);
      cbn; rewrite ?Hreq; auto. }
  destruct (decide (expect = [])) as [He | He].
  - rewrite bool_decide_eq_true_2, decide_True by auto. rewrite (mbind_ok _ _ _ x1 true) by done.
    destruct (Hcall x1 []) as (a & x' & d' & ?); [done .. | by rewrite app_nil_r |].
    by exists a, x', d', [].
  - rewrite bool_decide_eq_false_2 by done. destruct (decide (expect = str "100-continue")) as [H1 | H1].
    + rewrite bool_decide_eq_false_2, decide_True by auto.
      destruct (on_stream_write (str "HTTP/1.1 100 Continue" ++ CRLF ++ CRLF) x1 b rest Hd)
        as (y & Hw & Hyd & Hys & Hy1 & Hy2 & Hy3).
      unfold mbind at 1. rewrite (mbind_ok _ _ _ _ _ Hw). cbn [mret].
      destruct (Hcall y (str "HTTP/1.1 100 Continue" ++ CRLF ++ CRLF)) as (a & x' & d' & ?);
        [by rewrite ?Hy1, ?Hy2, ?Hy3 .. | done | done |].
      by exists a, x', d', (str "HTTP/1.1 100 Continue" ++ CRLF ++ CRLF).
    + rewrite bool_decide_eq_true_2, decide_False by tauto. eexists _, _, b, []. split; [reflexivity |].
      cbn. rewrite app_nil_r. auto.
Qed.

Lemma serve_ok (i : nat) (request : HttpRequest) (c : conn S) (b rest : bytes) :
  anyDelivers (create c (transferMode request) (contentLength request)) b rest ->
  exists a x' d' interim,
    serve regex_match server i (newExchange request c) = (Ok (Some a), x')
    /\ reply request b = (a, x_response x', interim)
    /\ x_request x' = request /\ anyDelivers (impl (x_reader x')) d' rest
    /\ sentOn (exchange_conn x') = sentOn c ++ interim /\ pieces_ok (x_response x').
Proof.
  intros Hd. unfold serve. rewrite mbind_get, Hplain. cbn [newExchange x_request].
  pose proof (create_conn c (transferMode request) (contentLength request)) as Hc.
  destruct (Z.eqb_spec (method request) _Invalid) as [Hm | Hm].
  - eexists _, _, b, []. split; [reflexivity |]. unfold reply. apply Z.eqb_eq in Hm as Hm'. rewrite Hm'.
    cbn. unfold exchange_conn. cbn. rewrite Hc, app_nil_r. auto 6.
  - destruct (serveRoute_ok (newExchange request c) b rest Hd eq_refl Hm)
      as (a & x' & d' & interim & Hs & Hr & Hreq & Hd' & Hsent & Hp).
    exists a, x', d', interim. cbn [newExchange x_request] in *. rewrite Hs. repeat (split; [done |]).
    split; [| done]. unfold sentBy in Hsent. cbn in Hsent. rewrite Hc in Hsent. exact Hsent.
Qed.

(** ** The connection *)

(** The rest of a body is dropped. *)
Lemma drainBody_ok (x : @Exchange S) (c : conn S) (d rest : bytes) :
  anyDelivers (impl (x_reader x)) d rest ->
  (forall z, remains (exchange_conn x) z -> remains c z) ->
  exists c', drainBody x c = (Ok tt, c') /\ remains c' rest /\ sentOn c' = sentOn c.
Proof.
  intros Hd Hc. apply (delivers_with_conn c) in Hd; [| done]. unfold drainBody. cbv zeta. cbn [impl].
  set (r := with_conn c (impl (x_reader x))) in *.
  assert (Hr : reader_conn r = c) by apply reader_with_conn.
  destruct (isComplete r) eqn:Hcomp.
  - exists c. split; [done |]. pose proof (complete_ok r d rest Hd Hcomp) as ->.
    split; [| done]. rewrite <- Hr. by apply anyDelivers_end.
  - set (fuel := (length _ + _ + 1)%nat). set (r0 := mkReader r (draining_ (x_reader x))).
    destruct (drainLoop_ok (BodyReader0 := any_reader) fuel (mkReader r true) d rest Hd) as (r' & Hdrain & Hd' & Hc' & _).
    { pose proof (delivers_length r d rest Hd). rewrite Hr in *. unfold fuel. lia. }
    pose proof (drain_leaves (sentOn c) fuel r0) as Hs. unfold leaves in Hs.
    change (drain fuel r0) with (drainLoop fuel (mkReader r true)) in *. rewrite Hdrain in *.
    eexists. split; [reflexivity |]. split; [by apply anyDelivers_end |]. apply Hs.
    unfold sentBy. cbn. by rewrite Hr.
Qed.

Definition onWire (rb : HttpRequest * bytes) : bytes :=
  RequestSink.buildHeaderBuf reg (fst rb) ContentLength ++ CRLF ++ snd rb.

Lemma handleNextRequest_ok (i : nat) (req : HttpRequest) (body rest : bytes) (c : conn S) :
  writable_request reg req -> contentLength req = size body ->
  remains c (onWire (req, body) ++ rest) ->
  exists d a x d' interim c',
    handleNextRequest reg regex_match server i c = (Ok (mkResult a (Some x) (Some (x_response x))), c')
    /\ received req d /\ reply d body = (a, x_response x, interim) /\ x_request x = d
    /\ anyDelivers (impl (x_reader x)) d' rest /\ c' = exchange_conn x
    /\ sentOn c' = sentOn c ++ interim /\ pieces_ok (x_response x).
Proof.
  intros Hw Hlen Hrem. unfold onWire in Hrem. cbn [fst snd] in Hrem. rewrite <- !app_assoc in Hrem.
  destruct (request_head_ok reg req (body ++ rest) c Hw Hrem) as (d & c1 & Hread & Hrec & Hrem').
  pose proof (parseNext_leaves (sentOn c) reg c eq_refl) as Hs. unfold leaves in Hs.
  rewrite Hread in Hs. cbn [snd] in Hs.
  pose proof Hrec as (_ & _ & _ & _ & _ & _ & _ & Hmode & Hcl & _).
  assert (Hdel : anyDelivers (create c1 (transferMode d) (contentLength d)) body rest).
  { rewrite Hmode, Hcl, Hlen. by apply create_content_length. }
  destruct (serve_ok i d c1 body rest Hdel) as (a & x & d' & interim & Hserve & Hr & Hreq & Hd' & Hsent & Hp).
  exists d, a, x, d', interim, (exchange_conn x). unfold handleNextRequest.
  rewrite (mbind_ok _ _ _ _ _ Hread), Hserve. rewrite Hsent, Hs. auto 10.
Qed.

Lemma reply_action (d : HttpRequest) (b : bytes) :
  fst (fst (reply d b)) = ActContinue \/ fst (fst (reply d b)) = ActShutdown.
Proof.
  unfold reply. cbv zeta. destruct (keepAlive d); repeat case_match; cbn in *; simplify_eq; auto.
Qed.

Definition arrives (rb db : HttpRequest * bytes) : Prop := received (fst rb) (fst db) /\ snd db = snd rb.

Lemma arrives_exists (reqs : list (HttpRequest * bytes)) :
  Forall (fun rb => writable_request reg (fst rb) /\ contentLength (fst rb) = size (snd rb)) reqs ->
  exists ds, Forall2 arrives reqs ds.
Proof.
  induction 1 as [| rb reqs [Hw _] _ [ds Hds]]; [by exists [] |].
  destruct (request_completes reg (fst rb) Hw) as (_ & d & _ & _ & Hrec).
  exists ((d, snd rb) :: ds). by constructor.
Qed.

Lemma connectionLoop_ok (reqs : list (HttpRequest * bytes)) (fuel i : nat) (c : conn S) :
  Forall (fun rb => writable_request reg (fst rb) /\ contentLength (fst rb) = size (snd rb)) reqs ->
  remains c (concat (map onWire reqs)) -> (length reqs < fuel)%nat ->
  exists ds c', Forall2 arrives reqs ds
    /\ connectionLoop reg regex_match server fuel i c = (Ok (snd (answers i ds)), c')
    /\ sentOn c' = sentOn c ++ fst (answers i ds).
Proof.
  revert fuel i c. induction reqs as [| [req body] reqs IH]; intros fuel i c Hok Hrem Hf;
    (destruct fuel as [| fuel]; [simpl in Hf; lia |]); cbn [connectionLoop].
  - destruct (parseNext_end reg c Hrem) as (c' & Hp & Hs). exists [], c'. split; [constructor |].
    unfold handleNextRequest, mbind at 1. rewrite (mbind_ok _ _ _ _ _ Hp). cbn. by rewrite app_nil_r.
  - apply Forall_cons in Hok as [[Hw Hlen] Hok]. cbn [fst snd] in Hw, Hlen. cbn [map concat] in Hrem.
    destruct (handleNextRequest_ok i req body _ c Hw Hlen Hrem)
      as (d & a & x & d' & interim & c1 & Hh & Hrec & Hr & Hreq & Hd' & Hc1 & Hs1 & Hp).
    rewrite (mbind_ok _ _ _ _ _ Hh). cbn [action hr_resp hr_exchange]. rewrite Hreq.
    set (sink := sinkAt server i (method d =? Head)).
    destruct (flush_ok sink (x_response x) (strm c1) Hp) as (s' & Hflush & Hsent & Hpend).
    assert (Hfl : on_conn_stream (flush sink (x_response x)) c1 = (Ok tt, Conn (buf c1) s'))
      by (unfold on_conn_stream; by rewrite Hflush).
    set (c2 := Conn (buf c1) s') in *.
    assert (Hs2 : sentOn c2 = sentOn c ++ interim ++ flushed sink (x_response x)).
    { unfold sentOn at 1. cbn [c2 strm]. rewrite Hsent. fold (sentOn c1). by rewrite Hs1, app_assoc. }
    pose proof (reply_action d body) as Ha. rewrite Hr in Ha. cbn [fst] in Ha. destruct Ha as [-> | ->].
    + rewrite (mbind_ok _ _ _ _ _ Hfl).
      destruct (drainBody_ok x c2 d' _ Hd') as (c3 & Hdrain & Hrem3 & Hs3).
      { intros z. rewrite <- Hc1. by apply remains_sent. }
      rewrite (mbind_ok _ _ _ _ _ Hdrain).
      destruct (IH fuel (Datatypes.S i) c3 Hok Hrem3) as (ds & c' & Hds & Hloop & Hs'); [simpl in Hf; lia |].
      exists ((d, body) :: ds), c'. split; [by constructor |]. cbn [answers]. rewrite Hr.
      destruct (answers (Datatypes.S i) ds) as [outs closed]. cbn [fst snd] in *. split; [done |].
      rewrite Hs', Hs3, Hs2. by rewrite <- !app_assoc.
    + rewrite (mbind_ok _ _ _ _ _ Hfl). destruct (arrives_exists reqs Hok) as [ds Hds].
      exists ((d, body) :: ds), c2. split; [by constructor |]. cbn [answers]. rewrite Hr.
      cbn [fst snd mret]. done.
Qed.
End spec.

(** ** Properties *)

(** C2: every request on a connection gets its answer, in order.  Whatever
    requests a client sends back to back, in whatever segments they arrive,
    and whatever the handlers do with the bodies (read them, a part of them,
    or nothing, return or throw), the server writes exactly the answers to the
    requests, one after the other: an unread body is never taken for a
    request.  It stops, and shuts the stream down, after the first answer that
    ends the connection. *)
Theorem server_pipeline {S : Type} `{!ByteStream S} {Regex : Type} (reg : MethodRegistry)
    (regex_match : bytes -> Regex -> option (list bytes)) (server : @HttpServer S Regex)
    (program : @Handler S -> Program) (reqs : list (HttpRequest * bytes)) (c : conn S) :
  (forall h, Some h ∈ handlers_ (router_ server) ->
     computes (invokeChain (middlewares_ server) h) (program h)) ->
  requestUpgrader_ server = None ->
  Forall (fun rb => writable_request reg (fst rb) /\ contentLength (fst rb) = size (snd rb)) reqs ->
  remains c (concat (map (onWire reg) reqs)) ->
  exists ds c', Forall2 arrives reqs ds
    /\ handleConnection reg regex_match server c = (Ok (snd (answers regex_match server program 0 ds)), c')
    /\ sentOn c' = sentOn c ++ fst (answers regex_match server program 0 ds).
Proof.
  intros Hh Hu Hok Hrem. unfold handleConnection. apply (connectionLoop_ok reg _ _ _ Hh Hu); [done | done |].
  rewrite Nat.add_comm, (Nat.add_comm (length _)), <- (remains_length c _ Hrem).
  enough (length reqs <= length (concat (map (onWire reg) reqs)))%nat by lia. clear.
  induction reqs as [| rb reqs IH]; [done |]. cbn [map concat]. rewrite length_app.
  unfold onWire at 1. rewrite !length_app. simpl. lia.
Qed.

(** A server with a handler that ignores the body and one that throws. *)
Definition hello : @Handler script := respond (setBody (str "hi")).
Definition boom : @Handler script := fun x => (Throw (RuntimeError "boom"), x).
Definition stream3 : @Handler script := respond (setBodyWriter [str "ab"; str "c"]).

Definition noRegex : bytes -> unit -> option (list bytes) := fun _ _ => None.

Definition exampleServer : @HttpServer script unit :=
  let add p h := addHandler initRegistry (fun _ => [Get]) p [Get; Post] h in
  let router := snd ((let* _ := add (str "/hello") hello in
                      let* _ := add (str "/boom") boom in
                      add (str "/s") stream3)
                       (mkHttpRouter (newRouterCore (Regex := unit)) [])) in
  mkServer None [] router false (fun _ => []).

(** What a handler does with a body that arrives in one piece. *)
Definition programOf (h : @Handler script) : Program := fun request ps body resp =>
  let c := Conn empty_buffer (Script [body] []) in
  let '(o, x) := h (mkExchange request ps resp (mkReader (AnyContentLength (mkContentLength c (size body) 0)) false) None) in
  (is_ok o, x_response x).

Definition get (v : Version) (path body : bytes) : HttpRequest * bytes :=
  (mkRequest v Post path [] [] [] [] [] ContentLength (size body) true, body).

Lemma get_writable (path body : bytes) (target := path) :
  path = str "/hello" \/ path = str "/boom" -> size body < 2 ^ 64 ->
  writable_request initRegistry (fst (get kHttp11 path body)).
Proof.
  intros Hp Hs. pose proof (size_nonneg body). split; try done; cbn.
  - destruct Hp as [-> | ->]; repeat split; try (by vm_compute); try (by repeat constructor); discriminate.
  - split; [constructor | split; constructor].
  - by split; constructor.
Qed.

Lemma example_computes (h : @Handler script) :
  Some h ∈ handlers_ (router_ exampleServer) -> computes (invokeChain (middlewares_ exampleServer) h) (programOf h).
Proof.
  intros Hh. change (handlers_ (router_ exampleServer)) with [None; Some hello; Some boom; Some stream3] in Hh.
  cbn [invokeChain exampleServer middlewares_]. intros x d rest Hd Hpo.
  apply elem_of_cons in Hh as [? | Hh]; [done |].
  repeat (apply elem_of_cons in Hh as [[= ->] | Hh]); [| | | by apply elem_of_nil in Hh];
    (eexists _, _, d; split; [reflexivity |]; split; [by eauto |]; repeat (split; [done |]); try done).
  by repeat constructor.
Qed.

Lemma server_pipeline_witness :
  let reqs := [get kHttp11 (str "/hello") (str "GET /boom"); get kHttp11 (str "/boom") [];
               get kHttp11 (str "/hello") []] in
  let c := Conn empty_buffer (Script [take 30 (concat (map (onWire initRegistry) reqs));
                                      drop 30 (concat (map (onWire initRegistry) reqs))] []) in
  exists ds c', Forall2 arrives reqs ds
    /\ handleConnection initRegistry noRegex exampleServer c
       = (Ok (snd (answers noRegex exampleServer programOf 0 ds)), c')
    /\ sentOn c' = sentOn c ++ fst (answers noRegex exampleServer programOf 0 ds).
Proof.
  intros reqs c. apply server_pipeline.
  - exact example_computes.
  - done.
  - unfold reqs. repeat constructor; cbn [fst snd]; try done; (apply get_writable; [auto | by vm_compute]).
  - split; [unfold wf; simpl; lia | by vm_compute].
Defined.

(** An answer without end.  A handler that streams its body to an HTTP/1.0
    client that asked to keep the connection sends a body which only the end of
    the connection ends; but the server keeps the connection open, and the next
    answer follows the body as if it belonged to it. *)
Theorem server_http10_stream :
  let request := str "GET /s HTTP/1.0" ++ CRLF ++ str "Connection: keep-alive" ++ CRLF ++ CRLF in
  let c := Conn empty_buffer (Script [request; request] []) in
  let answer := str "HTTP/1.0 200 OK" ++ CRLF ++ CRLF ++ str "abc" in
  exists c', handleConnection initRegistry noRegex exampleServer c = (Ok false, c')
    /\ sentOn c' = answer ++ answer.
Proof. eexists. split; vm_compute; reflexivity. Qed.
