(* ===== verification/CookieStore.v ===== *)
(** The client's cookies, src/extensions/http/src/CookieStore.cc: the interface
    [CookieStore] and its implementation in memory.

    Times are [system_clock::time_point]s, nanoseconds in a signed 64-bit
    integer.  The code reads the clock for every entry it looks at: a call is
    given its readings, [clock i] being the [i]-th.  [httpDate] stands for
    [strptime] with the format of RFC 1123 followed by [timegm]. *)

From Stdlib Require Import ZArith Lia String Strings.Byte.
From stdpp Require Import base numbers option list gmap.
From S2P Require Import Prelude CxxStd Split OrdMap HttpTypes CookieCodec.
Open Scope Z_scope.

(** ** The interface *)

Definition Clock : Type := nat -> Z.

Class CookieStore (T : Type) : Type := {
  cs_store : Clock -> bytes -> list Cookie -> T -> outcome T;
  cs_load : Clock -> bytes -> T -> outcome (list Cookie)
}.

(** ** [MemoryCookieStore] *)

Record Entry : Type := mkEntry {
  cookie : Cookie;
  expiresAt : Z
}.

Definition time_min : Z := - 2 ^ 63.
Definition time_max : Z := 2 ^ 63 - 1.

(** Signed arithmetic on times must not overflow. *)
Definition time_point (ns : Z) : outcome Z :=
  if (time_min <=? ns) && (ns <=? time_max) then Ok ns else Undefined.

Definition nsPerSecond : Z := 1000000000.

Definition isExpired (now : Z) (e : Entry) : bool := expiresAt e <=? now.

(** [std::erase_if(entries_, isExpired)], from the [i]-th reading on. *)
Fixpoint eraseExpired (clock : Clock) (i : nat) (es : list Entry) : list Entry :=
  match es with
  | [] => []
  | e :: es' =>
      if isExpired (clock i) e then eraseExpired clock (S i) es'
      else e :: eraseExpired clock (S i) es'
  end.

Definition sameNamePath (c : Cookie) (e : Entry) : bool :=
  bool_decide (c_name (cookie e) = c_name c) && bool_decide (c_path (cookie e) = c_path c).

Definition c_str (s : bytes) : bytes :=
  match index_of (Byte.eqb x00) s with Some i => take i s | None => s end.

Definition defaultPath (path : bytes) : outcome bytes :=
  let slash := sv_rfind path x2f in
  if slash =? npos then Ok (str "/") else sv_substr path 0 (slash + 1).

Section memory_store.
Context (httpDate : bytes -> option Z).

Definition parseHttpDate (s : bytes) : outcome Z :=
  match httpDate (c_str s) with
  | Some t => time_point (t * nsPerSecond)
  | None => Ok time_min
  end.

Definition expiry (now : Z) (c : Cookie) : outcome Z :=
  if 0 <? c_maxAge c then time_point (now + c_maxAge c * nsPerSecond)
  else if decide (c_expires c = []) then Ok time_max
  else parseHttpDate (c_expires c).

(** One cookie of [store]: the body of the loop. *)
Definition storeCookie (now : Z) (path : bytes) (c : Cookie) (es : list Entry) : outcome (list Entry) :=
  if decide (c_name c = []) then Ok es
  else
    let es := filter (fun e => sameNamePath c e = false) es in
    if c_maxAge c =? 0 then Ok es
    else
      let! p := (if decide (c_path c = []) then defaultPath path else Ok (c_path c)) in
      let! at_ := expiry now c in
      Ok (es ++ [mkEntry (set_path p c) at_]).

Fixpoint storeLoop (now : Z) (path : bytes) (cookies : list Cookie) (es : list Entry) : outcome (list Entry) :=
  match cookies with
  | [] => Ok es
  | c :: cookies' => let! es' := storeCookie now path c es in storeLoop now path cookies' es'
  end.

(** The first reading is [now], the next ones are those of [isExpired]. *)
Definition store (clock : Clock) (path : bytes) (cookies : list Cookie) (es : list Entry) : outcome (list Entry) :=
  storeLoop (clock 0%nat) path cookies (eraseExpired clock 1 es).

(** The two tests of [load] on a cookie's path. *)
Definition pathMatches (path cookiePath : bytes) : outcome bool :=
  if negb (starts_with cookiePath path) then Ok false
  else
    let! back := at_ cookiePath (size cookiePath - 1) in
    if Byte.eqb back x2f then Ok true
    else if size path <=? size cookiePath then Ok true
    else
      let! next := at_ path (size cookiePath) in
      Ok (Byte.eqb next x2f).

Fixpoint loadLoop (clock : Clock) (i : nat) (path : bytes) (es : list Entry) : outcome (list Cookie) :=
  match es with
  | [] => Ok []
  | e :: es' =>
      let! ok := (if isExpired (clock i) e then Ok false else pathMatches path (c_path (cookie e))) in
      let! cs := loadLoop clock (S i) path es' in
      Ok (if ok : bool then cookie e :: cs else cs)
  end.

Definition load (clock : Clock) (path : bytes) (es : list Entry) : outcome (list Cookie) :=
  loadLoop clock 0 path es.

Definition MemoryCookieStore : CookieStore (list Entry) := {| cs_store := store; cs_load := load |}.
End memory_store.

(** ** What a store promises *)

(** A jar: for every name and path the cookie and when it ends. *)
Abbreviation Jar := (gmap (bytes * bytes) Entry).

Definition keyOf (c : Cookie) : bytes * bytes := (c_name c, c_path c).

(** A cookie applies to a request's path: the same path, or one below it. *)
Definition covers (cookiePath path : bytes) : Prop :=
  exists rest, path = cookiePath ++ rest
    /\ (rest = [] \/ (exists r, rest = x2f :: r) \/ exists p, cookiePath = p ++ [x2f]).

Section jar.
Context (httpDate : bytes -> option Z).

Definition jarPut (now : Z) (c : Cookie) (jar : Jar) : outcome Jar :=
  if decide (c_name c = []) then Ok jar
  else if c_maxAge c =? 0 then Ok (delete (keyOf c) jar)
  else let! t := expiry httpDate now c in Ok (<[keyOf c := mkEntry c t]> jar).

Fixpoint jarStore (now : Z) (cookies : list Cookie) (jar : Jar) : outcome Jar :=
  match cookies with
  | [] => Ok jar
  | c :: cookies' => let! jar' := jarPut now c jar in jarStore now cookies' jar'
  end.

(** The responses a client has seen, first to last: for each the clock, the
    request's path and the cookies. *)
Definition History : Type := list (Clock * bytes * list Cookie).

Fixpoint storeAll (h : History) (es : list Entry) : outcome (list Entry) :=
  match h with
  | [] => Ok es
  | (clock, path, cookies) :: h' => let! es' := store httpDate clock path cookies es in storeAll h' es'
  end.

Fixpoint jarAll (h : History) (jar : Jar) : outcome Jar :=
  match h with
  | [] => Ok jar
  | (clock, path, cookies) :: h' => let! jar' := jarStore (clock 0%nat) cookies jar in jarAll h' jar'
  end.

(** The clock does not go back: the readings of a call lie between two times,
    and those of the next call after them. *)
Definition between (lo hi : Z) (clock : Clock) : Prop := forall i, lo <= clock i <= hi.

Inductive ordered : Z -> History -> Z -> Prop :=
  | ordered_nil t : ordered t [] t
  | ordered_cons t t' t'' clock path cookies h :
      between t t' clock -> ordered t' h t'' -> ordered t ((clock, path, cookies) :: h) t''.

Definition explicit_paths (h : History) : Prop :=
  Forall (fun call => Forall (fun c => c_path c <> []) (snd call)) h.
End jar.

(** ** Lemmas: paths *)

Lemma starts_with_app (a b : bytes) : starts_with a (a ++ b) = true.
Proof. induction a as [| x a IH]; [done |]. cbn. by rewrite (proj2 (byte_eqb_eq x x)). Qed.

Lemma starts_with_inv (a s : bytes) : starts_with a s = true -> exists b, s = a ++ b.
Proof.
  revert s. induction a as [| x a IH]; intros [| y s]; cbn; [by eexists .. | done |].
  intros [Hx Hs]%andb_prop. apply byte_eqb_eq in Hx as ->. destruct (IH s Hs) as [b ->]. by exists b.
Qed.

(** The code's test of a path is the relation [covers]. *)
Lemma pathMatches_covers (path p : bytes) :
  p <> [] -> exists b, pathMatches path p = Ok b /\ (b = true <-> covers p path).
Proof.
  intros Hp. unfold pathMatches. destruct (starts_with p path) eqn:Hs; cbn [negb].
  - apply starts_with_inv in Hs as [rest ->].
    destruct (exists_last Hp) as (q & z & ->).
    replace (size (q ++ [z]) - 1) with (size q) by (rewrite size_app, size_cons, size_nil; lia).
    rewrite at_mid. cbn [obind]. destruct (Byte.eqb z x2f) eqn:Hz; [apply byte_eqb_eq in Hz as -> | apply eqb_false in Hz].
    { exists true. split; [done |]. split; [| done]. intros _. exists rest. eauto. }
    rewrite size_app. destruct rest as [| r rest].
    { rewrite app_nil_r, size_nil, Z.add_0_r, Z.leb_refl. exists true. split; [done |]. split; [| done].
      intros _. exists []. rewrite app_nil_r. auto. }
    rewrite size_cons. pose proof (size_nonneg rest). destruct (Z.leb_spec (size (q ++ [z]) + (1 + size rest)) (size (q ++ [z]))); [lia |].
    rewrite at_mid. cbn [obind]. eexists. split; [done |]. rewrite byte_eqb_eq. split.
    + intros ->. eexists. split; [reflexivity |]. right. left. by eexists.
    + intros (rest' & Heq & Hc). simplify_list_eq. destruct Hc as [Hc | [[r' Hc] | [p' Hc]]]; simplify_list_eq; done.
  - exists false. split; [done |]. split; [done |]. intros (rest & -> & _). by rewrite starts_with_app in Hs.
Qed.

(** ** Lemmas: the store and the jar *)

(** The entries of the store are those of the jar, apart from what had expired
    by [t]. *)
Record stands_for (t : Z) (es : list Entry) (jar : Jar) : Prop := {
  sf_distinct : NoDup (map (fun e => keyOf (cookie e)) es);
  sf_sound e : e ∈ es -> jar !! keyOf (cookie e) = Some e;
  sf_complete k e : jar !! k = Some e -> t < expiresAt e -> e ∈ es;
  sf_key k e : jar !! k = Some e -> keyOf (cookie e) = k /\ c_path (cookie e) <> []
}.

Lemma stands_for_empty (t : Z) : stands_for t [] ∅.
Proof. split; [apply base.NoDup_nil_2 | | done | done]. intros e []%elem_of_nil. Qed.

Lemma stands_for_later (t t' : Z) (es : list Entry) (jar : Jar) :
  t <= t' -> stands_for t es jar -> stands_for t' es jar.
Proof. intros Ht [H1 H2 H3 H4]. split; try done. intros k e Hk He. apply (H3 k); [done | lia]. Qed.

Lemma eraseExpired_sublist (clock : Clock) (i : nat) (es : list Entry) :
  eraseExpired clock i es `sublist_of` es.
Proof.
  revert i. induction es as [| e es IH]; intros i; cbn [eraseExpired]; [constructor |].
  destruct (isExpired _ _); constructor; apply IH.
Qed.

Lemma eraseExpired_keeps (clock : Clock) (t t' : Z) (i : nat) (es : list Entry) (e : Entry) :
  between t t' clock -> e ∈ es -> t' < expiresAt e -> e ∈ eraseExpired clock i es.
Proof.
  intros Hc He Ht. revert i. induction es as [| e' es IH]; intros i; [by apply not_elem_of_nil in He |].
  cbn [eraseExpired]. unfold isExpired. pose proof (Hc i). apply elem_of_cons in He as [-> | He].
  - destruct (Z.leb_spec (expiresAt e') (clock i)); [lia | left].
  - destruct (_ <=? _); [| right]; by apply IH.
Qed.

Lemma stands_for_erase (clock : Clock) (t t' : Z) (i : nat) (es : list Entry) (jar : Jar) :
  between t t' clock -> stands_for t es jar -> stands_for t' (eraseExpired clock i es) jar.
Proof.
  intros Hc [H1 H2 H3 H4]. pose proof (Hc 0%nat). pose proof (eraseExpired_sublist clock i es) as Hsub. split.
  - eapply sublist_NoDup; [exact H1 |]. by apply (fmap_sublist (fun e => keyOf (cookie e))).
  - intros e He. apply H2. by eapply elem_of_sublist in He.
  - intros k e Hk He. eapply eraseExpired_keeps; [done | apply (H3 k); [done | lia] | done].
  - done.
Qed.

Lemma sameNamePath_iff (c : Cookie) (e : Entry) : sameNamePath c e = true <-> keyOf (cookie e) = keyOf c.
Proof.
  unfold sameNamePath, keyOf. rewrite andb_true_iff, !bool_decide_eq_true. split; [by intros [-> ->] | by intros [= -> ->]].
Qed.

(** Without the entries of a cookie's name and path. *)
Lemma stands_for_delete (t : Z) (c : Cookie) (es : list Entry) (jar : Jar) :
  stands_for t es jar ->
  stands_for t (filter (fun e => sameNamePath c e = false) es) (delete (keyOf c) jar).
Proof.
  intros [H1 H2 H3 H4]. split.
  - eapply sublist_NoDup; [exact H1 |]. apply (fmap_sublist (fun e => keyOf (cookie e))), sublist_filter.
  - intros e [He Hin]%list_elem_of_filter. rewrite lookup_delete_ne; [by apply H2 |].
    intros Hk. symmetry in Hk. apply sameNamePath_iff in Hk. congruence.
  - intros k e [Hne Hk]%lookup_delete_Some He. apply list_elem_of_filter. split; [| by apply (H3 k)].
    apply not_true_is_false. intros Hs%sameNamePath_iff. apply H4 in Hk as [Hk _]. congruence.
  - intros k e [_ Hk]%lookup_delete_Some. by apply H4.
Qed.

Lemma stands_for_insert (t u : Z) (c : Cookie) (es : list Entry) (jar : Jar) :
  c_path c <> [] -> stands_for t es (delete (keyOf c) jar) ->
  stands_for t (es ++ [mkEntry c u]) (<[keyOf c := mkEntry c u]> jar).
Proof.
  intros Hp [H1 H2 H3 H4]. rewrite <- insert_delete_eq. split.
  - rewrite map_app. apply list.NoDup_app. split; [done |]. split; [| apply list.NoDup_singleton].
    intros k (e & -> & He)%list_elem_of_fmap Hk. apply list_elem_of_singleton in Hk. apply H2 in He.
    cbn in Hk. by rewrite Hk, lookup_delete_eq in He.
  - intros e [He | ->%list_elem_of_singleton]%elem_of_app; [| by rewrite lookup_insert_eq].
    apply H2 in He. rewrite lookup_insert_ne; [done |]. intros Hk. by rewrite <- Hk, lookup_delete_eq in He.
  - intros k e [[<- <-] | [Hk He]]%lookup_insert_Some Ht; apply elem_of_app; [right; by left | left].
    by apply (H3 k).
  - intros k e [[<- <-] | [Hk He]]%lookup_insert_Some; [done | by apply H4].
Qed.

(** Both run the same way: to entries that stand for the jar, or into the
    overflow of a time. *)
Definition agree (t : Z) (o : outcome (list Entry)) (o' : outcome Jar) : Prop :=
  match o' with
  | Ok jar => exists es, o = Ok es /\ stands_for t es jar
  | Undefined => o = Undefined
  | _ => False
  end.

Lemma time_point_cases (ns : Z) : time_point ns = Ok ns \/ time_point ns = Undefined.
Proof. unfold time_point. destruct (_ && _); auto. Qed.

Lemma expiry_cases (httpDate : bytes -> option Z) (now : Z) (c : Cookie) :
  (exists t, expiry httpDate now c = Ok t) \/ expiry httpDate now c = Undefined.
Proof.
  unfold expiry, parseHttpDate. repeat case_match; eauto;
    match goal with |- context [time_point ?ns] => destruct (time_point_cases ns) end; eauto.
Qed.

Lemma set_path_same (c : Cookie) : set_path (c_path c) c = c.
Proof. by destruct c. Qed.

Section refinement.
Context (httpDate : bytes -> option Z).

Lemma storeCookie_agrees (t now : Z) (path : bytes) (c : Cookie) (es : list Entry) (jar : Jar) :
  c_path c <> [] -> stands_for t es jar ->
  agree t (storeCookie httpDate now path c es) (jarPut httpDate now c jar).
Proof.
  intros Hp Hsf. unfold storeCookie, jarPut. case_decide as Hn; [by eexists |]. cbv zeta.
  pose proof (stands_for_delete t c es jar Hsf) as Hdel.
  destruct (c_maxAge c =? 0); [by eexists |]. rewrite decide_False by done. cbn [obind].
  destruct (expiry_cases httpDate now c) as [[u ->] | ->]; cbn [obind]; [| done].
  rewrite set_path_same. eexists. split; [done |]. by apply stands_for_insert.
Qed.

Lemma storeLoop_agrees (t now : Z) (path : bytes) (cs : list Cookie) (es : list Entry) (jar : Jar) :
  Forall (fun c => c_path c <> []) cs -> stands_for t es jar ->
  agree t (storeLoop httpDate now path cs es) (jarStore httpDate now cs jar).
Proof.
  revert es jar. induction cs as [| c cs IH]; intros es jar Hp Hsf; [by eexists |].
  apply Forall_cons in Hp as [Hc Hp]. cbn [storeLoop jarStore].
  pose proof (storeCookie_agrees t now path c es jar Hc Hsf) as Ha. unfold agree in Ha.
  destruct (jarPut httpDate now c jar); [| done | | done].
  - destruct Ha as (es' & -> & Hsf'). by apply IH.
  - by rewrite Ha.
Qed.

Lemma storeAll_agrees (h : History) (t t' : Z) (es : list Entry) (jar : Jar) :
  ordered t h t' -> explicit_paths h -> stands_for t es jar ->
  agree t' (storeAll httpDate h es) (jarAll httpDate h jar).
Proof.
  revert t es jar. induction h as [| [[clock path] cs] h IH]; intros t es jar Ho Hp Hsf;
    inversion Ho as [| ? t1 ? ? ? ? ? Hc Ho']; subst; [by eexists |].
  apply Forall_cons in Hp as [Hcs Hp]. cbn [storeAll jarAll]. unfold store.
  pose proof (storeLoop_agrees t1 (clock 0%nat) path cs _ jar Hcs (stands_for_erase clock t t1 1 es jar Hc Hsf)) as Ha.
  unfold agree in Ha at 1. destruct (jarStore httpDate (clock 0%nat) cs jar); [| done | | done].
  - destruct Ha as (es' & -> & Hsf'). by apply (IH t1).
  - by rewrite Ha.
Qed.
End refinement.

(** What [load] gives: the cookies that cover the path and had not expired when
    the clock was read. *)
Lemma loadLoop_ok (clock : Clock) (i : nat) (path : bytes) (es : list Entry) :
  Forall (fun e => c_path (cookie e) <> []) es ->
  exists es', loadLoop clock i path es = Ok (map cookie es') /\ es' `sublist_of` es
    /\ (forall t t' e, between t t' clock -> e ∈ es' -> t < expiresAt e)
    /\ (forall e, e ∈ es' -> covers (c_path (cookie e)) path)
    /\ (forall t t' e, between t t' clock -> e ∈ es -> t' < expiresAt e -> covers (c_path (cookie e)) path -> e ∈ es').
Proof.
  intros Hp. revert i. induction Hp as [| e es He Hp IH]; intros i.
  { exists []. split; [done |]. split; [done |]. split; [| split]; intros *; rewrite ?elem_of_nil; tauto. }
  destruct (IH (S i)) as (es' & Heq & Hsub & Hs1 & Hs2 & Hcomp). cbn [loadLoop].
  destruct (pathMatches_covers path (c_path (cookie e)) He) as (b & Hb & Hcov). unfold isExpired.
  destruct (Z.leb_spec (expiresAt e) (clock i)) as [Hexp | Hexp]; [| rewrite Hb; destruct b];
    cbn [obind]; rewrite Heq; cbn [obind].
  - exists es'. split; [done |]. split; [by constructor |]. split; [done |]. split; [done |].
    intros t t' e' Hc [-> | Hin]%elem_of_cons Ht Hco; [| by eapply Hcomp]. pose proof (Hc i). lia.
  - exists (e :: es'). split; [done |]. split; [by constructor |]. split; [| split].
    + intros t t' e' Hc [-> | Hin]%elem_of_cons; [| by eapply Hs1]. pose proof (Hc i). lia.
    + intros e' [-> | Hin]%elem_of_cons; [by apply Hcov | by apply Hs2].
    + intros t t' e' Hc [-> | Hin]%elem_of_cons Ht Hco; [by left | right; by eapply Hcomp].
  - exists es'. split; [done |]. split; [by constructor |]. split; [done |]. split; [done |].
    intros t t' e' Hc [-> | Hin]%elem_of_cons Ht Hco; [| by eapply Hcomp]. apply Hcov in Hco. done.
Qed.

(** ** Lemmas: every entry has a path *)

Lemma rindex_of_lt (P : byte -> bool) (s : bytes) (i : nat) : rindex_of P s = Some i -> (i < length s)%nat.
Proof.
  revert i. induction s as [| b s IH]; intros i H; cbn in *; [done |].
  destruct (rindex_of P s) as [k |]; simplify_eq/=; [specialize (IH k eq_refl); lia |].
  destruct (P b); simplify_eq. lia.
Qed.

Lemma defaultPath_nonempty (path p : bytes) : defaultPath path = Ok p -> p <> [].
Proof.
  unfold defaultPath, sv_rfind, sv_rfind_if. destruct (rindex_of _ _) as [i |] eqn:Ho; cbn [to_pos].
  - apply rindex_of_lt in Ho. rewrite length_take in Ho. destruct (_ =? npos); [by intros [= <-] |].
    unfold sv_substr. destruct (Z.ltb_spec (size path) 0) as [| _]; [done |]. intros [= <-].
    change (Z.to_nat 0) with 0%nat. rewrite drop_0. destruct path as [| b path]; [cbn in Ho; lia |].
    rewrite size_cons. pose proof (size_nonneg path).
    destruct (Z.to_nat ((0 + Z.of_nat i + 1) `min` (1 + size path - 0))) eqn:Hn; [lia |]. cbn. discriminate.
  - rewrite Z.eqb_refl. by intros [= <-].
Qed.

Definition paths_ok (es : list Entry) : Prop := Forall (fun e => c_path (cookie e) <> []) es.

Lemma erase_paths (clock : Clock) (i : nat) (es : list Entry) : paths_ok es -> paths_ok (eraseExpired clock i es).
Proof.
  unfold paths_ok. rewrite !Forall_forall. intros Hes e He. apply Hes.
  eapply elem_of_sublist; [exact He |]. apply eraseExpired_sublist.
Qed.

Lemma storeCookie_paths (httpDate : bytes -> option Z) (now : Z) (path : bytes) (c : Cookie) (es es' : list Entry) :
  paths_ok es -> storeCookie httpDate now path c es = Ok es' -> paths_ok es'.
Proof.
  intros Hes. unfold storeCookie. case_decide; [by intros [= <-] |]. cbv zeta.
  assert (Hf : paths_ok (filter (fun e => sameNamePath c e = false) es)).
  { unfold paths_ok in *. rewrite Forall_forall in Hes |- *. intros e [_ He]%list_elem_of_filter. by apply Hes. }
  destruct (_ =? 0); [by intros [= <-] |]. intros (p & Hp & (t & _ & [= <-])%obind_ok)%obind_ok.
  apply Forall_app. split; [done |]. apply Forall_singleton. cbn.
  case_decide; [by eapply defaultPath_nonempty | by simplify_eq].
Qed.

Lemma storeLoop_paths (httpDate : bytes -> option Z) (now : Z) (path : bytes) (cs : list Cookie) (es es' : list Entry) :
  paths_ok es -> storeLoop httpDate now path cs es = Ok es' -> paths_ok es'.
Proof.
  revert es. induction cs as [| c cs IH]; intros es Hes; cbn [storeLoop]; [by intros [= <-] |].
  intros (es1 & Hc & Hcs)%obind_ok. apply (IH es1); [by eapply storeCookie_paths | done].
Qed.

Lemma storeAll_paths (httpDate : bytes -> option Z) (h : History) (es es' : list Entry) :
  paths_ok es -> storeAll httpDate h es = Ok es' -> paths_ok es'.
Proof.
  revert es. induction h as [| [[clock path] cs] h IH]; intros es Hes; cbn [storeAll]; [by intros [= <-] |].
  intros (es1 & Hs & Hh)%obind_ok. apply (IH es1); [| done].
  eapply storeLoop_paths; [| exact Hs]. by apply erase_paths.
Qed.

(** ** Properties *)

(** C34: the cookies a client sends.  After any responses whose cookies name
    their paths, with a clock that does not go back, [load] gives for a request
    exactly the cookies of the jar, a finite map from name and path to the
    cookie set last (a [Max-Age] of zero deletes), that cover the request's
    path and have not expired; no name and path comes twice.  The store fails
    only where a time overflows. *)
Theorem cookie_store_refines (httpDate : bytes -> option Z) (h : History) (t0 t t' : Z) (clock : Clock) (path : bytes) :
  ordered t0 h t -> explicit_paths h -> between t t' clock ->
  match jarAll httpDate h ∅ with
  | Ok jar =>
      exists es cs, storeAll httpDate h [] = Ok es /\ load clock path es = Ok cs
        /\ NoDup (map keyOf cs)
        /\ (forall c, c ∈ cs -> exists e, jar !! keyOf c = Some e /\ cookie e = c /\ t < expiresAt e
                                 /\ covers (c_path c) path)
        /\ (forall k e, jar !! k = Some e -> t' < expiresAt e -> covers (c_path (cookie e)) path -> cookie e ∈ cs)
  | _ => storeAll httpDate h [] = Undefined
  end.
Proof.
  intros Ho Hp Hc. pose proof (storeAll_agrees httpDate h t0 t [] ∅ Ho Hp (stands_for_empty t0)) as Ha. unfold agree in Ha.
  destruct (jarAll httpDate h ∅) as [jar | | |]; try done. destruct Ha as (es & Hes & [H1 H2 H3 H4]).
  destruct (loadLoop_ok clock 0 path es) as (es' & Hl & Hsub & Hs1 & Hs2 & Hcomp).
  { apply Forall_forall. intros e He. by eapply H4, H2. }
  exists es, (map cookie es'). split; [done |]. split; [done |]. split; [| split].
  - rewrite map_map. eapply sublist_NoDup; [exact H1 |]. by apply (fmap_sublist (fun e => keyOf (cookie e))).
  - intros c (e & -> & He)%list_elem_of_fmap. exists e. split; [| by eauto].
    apply H2. by eapply elem_of_sublist.
  - intros k e Hk Ht Hco. apply list_elem_of_fmap. exists e. split; [done |]. pose proof (Hc 0%nat).
    eapply Hcomp; [done | | done | done]. apply (H3 k); [done | lia].
Qed.

Definition exampleCookie (name value path : string) (age : Z) : Cookie :=
  mkCookie (str name) (str value) [] (str path) [] age Unset false false.

Definition exampleHistory : History :=
  [((fun _ => 10), str "/app/login", [exampleCookie "a" "1" "/app" (-1); exampleCookie "b" "2" "/" 5]);
   ((fun _ => 20), str "/", [exampleCookie "a" "3" "/app" (-1); exampleCookie "c" "4" "/" 7; exampleCookie "b" "" "/" 0])].

Lemma cookie_store_refines_witness :
  exists es cs, storeAll (fun _ => None) exampleHistory [] = Ok es
    /\ load (fun _ => 30) (str "/app/x") es = Ok cs
    /\ NoDup (map keyOf cs) /\ exampleCookie "a" "3" "/app" (-1) ∈ cs.
Proof.
  pose proof (cookie_store_refines (fun _ => None) exampleHistory 0 20 40 (fun _ => 30) (str "/app/x")) as H.
  assert (Hk : match jarAll (fun _ => None) exampleHistory ∅ with
               | Ok jar => jar !! (str "a", str "/app") = Some (mkEntry (exampleCookie "a" "3" "/app" (-1)) time_max)
               | _ => False
               end) by (vm_compute; reflexivity).
  destruct (jarAll (fun _ => None) exampleHistory ∅) as [jar | | |]; [| by destruct Hk ..].
  - destruct H as (es & cs & Hes & Hl & Hnd & _ & Hcomp).
    + apply (ordered_cons 0 10); [intros i; lia |]. apply (ordered_cons 10 20); [intros i; lia | apply ordered_nil].
    + by repeat constructor.
    + intros i; lia.
    + exists es, cs. split; [done |]. split; [done |]. split; [done |].
      apply (Hcomp (str "a", str "/app") (mkEntry (exampleCookie "a" "3" "/app" (-1)) time_max)).
      * exact Hk.
      * by vm_compute.
      * exists (str "/x"). split; [done |]. right. left. by exists (str "x").
Defined.

(** A cookie without a [Path] is never replaced or deleted: the store
    compares the empty path of the new cookie with the paths its entries have
    been given, so a [Max-Age] of zero deletes nothing, and a new value is kept
    beside the old one. *)
Theorem cookie_without_path_stays (httpDate : bytes -> option Z) (h : History) (es : list Entry) (c : Cookie)
    (clock : Clock) (path : bytes) :
  storeAll httpDate h [] = Ok es -> c_path c = [] -> c_name c <> [] ->
  (c_maxAge c = 0 -> store httpDate clock path [c] es = Ok (eraseExpired clock 1 es))
  /\ forall es', store httpDate clock path [c] es = Ok es' -> eraseExpired clock 1 es `prefix_of` es'.
Proof.
  intros Hs Hp Hn. pose proof (storeAll_paths httpDate h [] es ltac:(constructor) Hs) as Hes.
  apply (erase_paths clock 1) in Hes. unfold store. cbn [storeLoop]. revert Hes. generalize (eraseExpired clock 1 es).
  clear es Hs. intros es Hes. unfold storeCookie. rewrite decide_False by done. cbv zeta.
  replace (filter (fun e => sameNamePath c e = false) es) with es.
  - split; [by intros -> |]. intros es'. destruct (_ =? 0); [by intros [= <-] |]. cbn [obind].
    intros (es2 & (p & _ & (t & _ & [= <-])%obind_ok)%obind_ok & [= <-])%obind_ok. by apply prefix_app_r.
  - induction Hes as [| e es He Hes IH]; [done |]. rewrite filter_cons_True; [by f_equal |].
    apply not_true_is_false. intros [= _ Hk]%sameNamePath_iff. congruence.
Qed.

Lemma cookie_without_path_stays_witness :
  let login := exampleCookie "sid" "1" "" (-1) in
  let logout := exampleCookie "sid" "" "" 0 in
  exists es, storeAll (fun _ => None) [((fun _ => 10), str "/app/login", [login])] [] = Ok es
    /\ store (fun _ => None) (fun _ => 20) (str "/app/login") [logout] es = Ok es
    /\ load (fun _ => 30) (str "/app/login") es = Ok [exampleCookie "sid" "1" "/app/" (-1)].
Proof.
  intros login logout. eexists. split; [reflexivity |]. split; [| by vm_compute].
  refine (proj1 (cookie_without_path_stays (fun _ => None) [((fun _ => 10), str "/app/login", [login])] _ logout
    (fun _ => 20) (str "/app/login") eq_refl eq_refl ltac:(done)) eq_refl).
Defined.
