(* ===== verification/Url.v ===== *)
(** URLs, src/src/Url.cc: the parser a client is made with. *)

From Stdlib Require Import ZArith Lia String Strings.Byte.
From stdpp Require Import base numbers option list.
From S2P Require Import Prelude CxxStd Split.
Open Scope Z_scope.

Record Url : Type := mkUrl {
  baseUrl_ : bytes;
  scheme_ : bytes;
  host_ : bytes;
  port_ : Z;
  path_ : bytes;
  query_ : bytes;
  fullPath_ : bytes;
  valid_ : bool
}.

Definition newUrl : Url := mkUrl [] [] [] 0 [] [] [] false.

Definition getDefaultPort (scheme : bytes) : Z :=
  if decide (scheme = str "http" \/ scheme = str "ws") then 80
  else if decide (scheme = str "https" \/ scheme = str "wss") then 443
  else 0.

(** The loop over the digits of a port, a [uint16_t]: the port it leaves, and
    whether it came to the end. *)
Fixpoint portLoop (s : bytes) (port : Z) : Z * bool :=
  match s with
  | [] => (port, true)
  | c :: s' => if isdigit c then portLoop s' (u16 (port * 10 + (b2z c - 48))) else (port, false)
  end.

(** From the port on. *)
Definition parseRest (url base full scheme hostPart : bytes) (hostEnd : Z) : outcome Url :=
  let portPos := sv_find hostPart x3a 0 in
  let! host := (if portPos =? npos then Ok hostPart else sv_substr hostPart 0 portPos) in
  let! portRead :=
    (if portPos =? npos then Ok (getDefaultPort scheme, true)
     else let! portStr := sv_substr hostPart (portPos + 1) npos in Ok (portLoop portStr 0)) in
  let '(port, digits) := portRead in
  if negb digits then Ok (mkUrl base scheme host port [] [] full false)
  else
    let! slash := (if hostEnd <? size url then let! c := at_ url hostEnd in Ok (Byte.eqb c x2f) else Ok false) in
    let pathEnd := sv_find url x3f hostEnd in
    let! path :=
      (if slash : bool then
         if pathEnd =? npos then sv_substr url hostEnd npos else sv_substr url hostEnd (pathEnd - hostEnd)
       else Ok (str "/")) in
    let pos := if slash && negb (pathEnd =? npos) then pathEnd else hostEnd in
    let! mark := (if pos <? size url then let! c := at_ url pos in Ok (Byte.eqb c x3f) else Ok false) in
    let! query := (if mark : bool then sv_substr url (pos + 1) npos else Ok []) in
    Ok (mkUrl base scheme host port path query full
          (negb (bool_decide (scheme = [])) && negb (bool_decide (host = [])) && (0 <? port))).

Definition parse (url : bytes) : outcome Url :=
  if decide (url = []) then Ok newUrl
  else
    let schemeEnd := sv_find_str url (str "://") 0 in
    if schemeEnd =? npos then Ok newUrl
    else
      let! rawScheme := sv_substr url 0 schemeEnd in
      let scheme := map tolower rawScheme in
      let pos := schemeEnd + 3 in
      let hostEnd := Z.min (sv_find url x2f pos) (sv_find url x3f pos) in
      let hostEnd := if hostEnd =? npos then size url else hostEnd in
      let! base := sv_substr url 0 hostEnd in
      let! tail := sv_substr url hostEnd npos in
      let! full :=
        (if hostEnd <? size url
         then let! c := at_ url hostEnd in Ok (if negb (Byte.eqb c x3f) then tail else x2f :: tail)
         else Ok (x2f :: tail)) in
      let! hostPart := sv_substr url pos (hostEnd - pos) in
      parseRest url base full scheme hostPart hostEnd.

Example url_example :
  parse (str "HTTP://example.com:8080?a=/b")
  = Ok (mkUrl (str "HTTP://example.com:8080") (str "http") (str "example.com") 8080 (str "/")
          (str "a=/b") (str "/?a=/b") true).
Proof. by vm_compute. Qed.

(** ** What a URL says *)

Record UrlParts : Type := mkParts {
  u_scheme : bytes;
  u_host : bytes;
  u_port : option Z;
  u_path : bytes;
  u_query : option bytes
}.

Definition lacks (c : byte) (s : bytes) : Prop := Forall (fun b => Byte.eqb c b = false) s.

Record parts_ok (u : UrlParts) : Prop := {
  po_scheme : lacks x3a (u_scheme u);
  po_host : lacks x2f (u_host u) /\ lacks x3f (u_host u) /\ lacks x3a (u_host u);
  po_port n : u_port u = Some n -> 0 <= n < 2 ^ 64;
  po_path : u_path u = [] \/ exists p, u_path u = x2f :: p;
  po_path_query : lacks x3f (u_path u)
}.

Definition portText (o : option Z) : bytes := match o with Some n => x3a :: to_string n | None => [] end.
Definition queryText (o : option bytes) : bytes := match o with Some q => x3f :: q | None => [] end.

Definition authority (u : UrlParts) : bytes := u_host u ++ portText (u_port u).
Definition urlBase (u : UrlParts) : bytes := u_scheme u ++ str "://" ++ authority u.
Definition urlText (u : UrlParts) : bytes := urlBase u ++ u_path u ++ queryText (u_query u).

(** What the parser makes of it; the port is kept in sixteen bits. *)
Definition urlOf (u : UrlParts) : Url :=
  let scheme := map tolower (u_scheme u) in
  let port := match u_port u with Some n => u16 n | None => getDefaultPort scheme end in
  let path := if decide (u_path u = []) then str "/" else u_path u in
  mkUrl (urlBase u) scheme (u_host u) port path (default [] (u_query u)) (path ++ queryText (u_query u))
    (negb (bool_decide (scheme = [])) && negb (bool_decide (u_host u = [])) && (0 <? port)).

(** ** Lemmas: searching *)

Lemma find_scheme (s r : bytes) : lacks x3a s -> index_of_sub (str "://") (s ++ str "://" ++ r) = Some (length s).
Proof.
  change (str "://") with [x3a; x2f; x2f]. induction 1 as [| b s Hb Hs IH]; [by destruct r |].
  cbn [app index_of_sub starts_with length] in *. rewrite Hb. cbn [andb]. by rewrite IH.
Qed.

Lemma index_of_skip (P : byte -> bool) (a t : bytes) :
  Forall (fun b => P b = false) a -> index_of P (a ++ t) = (fun i => (length a + i)%nat) <$> index_of P t.
Proof.
  induction 1 as [| b a Hb Ha IH]; cbn; [by destruct (index_of P t) |]. rewrite Hb, IH. by destruct (index_of P t).
Qed.

(** A search may start behind what does not hold the character. *)
Lemma sv_find_past (c : byte) (p a t : bytes) :
  lacks c a -> sv_find (p ++ a ++ t) c (size p) = sv_find (p ++ a ++ t) c (size (p ++ a)).
Proof.
  intros Ha. unfold sv_find, sv_find_if. rewrite !size_app.
  pose proof (size_nonneg a). pose proof (size_nonneg t).
  replace (Z.to_nat (size p + size a)) with (length (p ++ a)) by (unfold size; rewrite length_app; lia).
  replace (Z.to_nat (size p)) with (length p) by (unfold size; lia).
  rewrite drop_app_length, (app_assoc p a t), drop_app_length, index_of_skip by done.
  destruct (Z.leb_spec (size p + (size a + size t)) (size p)), (Z.leb_spec (size p + (size a + size t)) (size p + size a));
    try lia.
  - assert (t = []) as -> by (apply size_zero_nil; lia). done.
  - destruct (index_of _ t); cbn; [| done]. unfold size. lia.
Qed.

(** What follows the host: nothing, a path or a query. *)
Definition tail_ok (t : bytes) : Prop := t = [] \/ (exists t', t = x2f :: t') \/ exists t', t = x3f :: t'.

Lemma host_end (p a t : bytes) :
  lacks x2f a -> lacks x3f a -> tail_ok t -> size (p ++ a ++ t) < npos ->
  (let e := Z.min (sv_find (p ++ a ++ t) x2f (size p)) (sv_find (p ++ a ++ t) x3f (size p)) in
   if e =? npos then size (p ++ a ++ t) else e) = size (p ++ a).
Proof.
  intros Hs Hq Ht Hsz. rewrite !sv_find_past by done. cbv zeta.
  assert (Hlt : size (p ++ a) < npos) by (rewrite !size_app in *; pose proof (size_nonneg t); lia).
  assert (Hge : forall c, sv_find (p ++ a ++ t) c (size (p ++ a)) = npos
    \/ size (p ++ a) <= sv_find (p ++ a ++ t) c (size (p ++ a)) < size (p ++ a ++ t)).
  { intros c. apply sv_find_if_cases; [apply size_nonneg | done]. }
  pose proof (Hge x2f) as H1. pose proof (Hge x3f) as H2. rewrite (app_assoc p a t) in *.
  destruct Ht as [-> | [[t' ->] | [t' ->]]].
  - assert (Hn : forall c, sv_find ((p ++ a) ++ []) c (size (p ++ a)) = npos) by (intros c; by apply sv_find_if_none).
    rewrite !Hn, Z.min_id, Z.eqb_refl. by rewrite app_nil_r.
  - assert (Hh : sv_find ((p ++ a) ++ x2f :: t') x2f (size (p ++ a)) = size (p ++ a)).
    { rewrite <- (Z.add_0_r (size (p ++ a))) at 2. exact (sv_find_if_app _ (p ++ a) [] x2f t' (Forall_nil_2 _) eq_refl). }
    rewrite Hh. rewrite Z.min_l by lia. destruct (Z.eqb_spec (size (p ++ a)) npos); [lia | done].
  - assert (Hh : sv_find ((p ++ a) ++ x3f :: t') x3f (size (p ++ a)) = size (p ++ a)).
    { rewrite <- (Z.add_0_r (size (p ++ a))) at 2. exact (sv_find_if_app _ (p ++ a) [] x3f t' (Forall_nil_2 _) eq_refl). }
    rewrite Hh. rewrite Z.min_r by lia. destruct (Z.eqb_spec (size (p ++ a)) npos); [lia | done].
Qed.

(** ** Lemmas: the port *)

Lemma digit_char_port (d : Z) : 0 <= d < 10 -> isdigit (digit_char d) = true /\ b2z (digit_char d) - 48 = d.
Proof.
  intros Hd.
  assert (H : forallb (fun d => isdigit (digit_char d) && (b2z (digit_char d) - 48 =? d)) (zrange 10) = true) by reflexivity.
  pose proof (zrange_forall 10 _ H d ltac:(lia)) as Hall. cbv beta in Hall. by apply andb_prop in Hall as [? ?%Z.eqb_eq].
Qed.

Lemma portLoop_digits (ds : bytes) (a : Z) :
  Forall (fun b => exists d, 0 <= d < 10 /\ b = digit_char d) ds ->
  portLoop ds (u16 a) = (u16 (parse_digits 10 a ds), true).
Proof.
  intros Hds. revert a. induction Hds as [| b ds (d & Hd & ->) Hds IH]; intros a; [done |].
  destruct (digit_char_port d Hd) as [H1 H2]. cbn [portLoop parse_digits].
  rewrite H1, H2, digit_val_char by auto. rewrite <- IH. f_equal. unfold u16.
  by rewrite Z.add_mod, Z.mul_mod_idemp_l, <- Z.add_mod by lia.
Qed.

Lemma to_string_digits (n : Z) :
  0 <= n < 2 ^ 64 ->
  exists ds, to_string n = ds /\ Forall (fun b => exists d, 0 <= d < 10 /\ b = digit_char d) ds
    /\ parse_digits 10 0 ds = n.
Proof.
  intros Hn. unfold to_string. destruct (Z.ltb_spec n 0); [lia |].
  destruct (digits_of_spec 10 20 n [] ltac:(auto)) as (ds & Heq & _ & Hds & Hp); [lia | lia |].
  rewrite app_nil_r in Heq. exists ds. split; [done |]. split; [done |].
  specialize (Hp 0 []). by rewrite app_nil_r in Hp.
Qed.

Lemma port_lacks (n : Z) (c : byte) :
  0 <= n < 2 ^ 64 -> isdigit c = false -> lacks c (to_string n).
Proof.
  intros Hn Hc. destruct (to_string_digits n Hn) as (ds & -> & Hds & _).
  eapply Forall_impl; [exact Hds |]. intros b (d & Hd & ->). destruct (digit_char_port d Hd) as [Hd' _].
  destruct (Byte.eqb c (digit_char d)) eqn:E; [| done]. apply byte_dec_bl in E. congruence.
Qed.

(** ** Lemmas: the parts *)

Lemma after_host (u : UrlParts) : parts_ok u -> tail_ok (u_path u ++ queryText (u_query u)).
Proof.
  intros [_ _ _ Hp _]. unfold tail_ok. destruct Hp as [-> | [p ->]]; [| cbn; eauto].
  destruct (u_query u); cbn; eauto.
Qed.

Lemma authority_lacks (u : UrlParts) (c : byte) :
  parts_ok u -> c = x2f \/ c = x3f -> lacks c (authority u).
Proof.
  intros [_ (H1 & H2 & _) Hport _ _] Hc. apply Forall_app. split; [by destruct Hc as [-> | ->] |].
  destruct (u_port u) as [n |]; [| constructor]. constructor; [by destruct Hc as [-> | ->] |].
  apply port_lacks; [by apply Hport | by destruct Hc as [-> | ->]].
Qed.

(** Reading the host and the port off the authority. *)
Lemma read_authority (u : UrlParts) (scheme : bytes) :
  parts_ok u -> size (authority u) < npos ->
  let portPos := sv_find (authority u) x3a 0 in
  (if portPos =? npos then Ok (authority u) else sv_substr (authority u) 0 portPos) = Ok (u_host u)
  /\ (if portPos =? npos then Ok (getDefaultPort scheme, true)
      else let! portStr := sv_substr (authority u) (portPos + 1) npos in Ok (portLoop portStr 0))
     = Ok (match u_port u with Some n => u16 n | None => getDefaultPort scheme end, true).
Proof.
  intros [_ (_ & _ & Hh) Hport _ _] Hsz. unfold authority in *. destruct (u_port u) as [n |]; cbn [portText] in *; cbv zeta.
  - assert (Hf : sv_find (u_host u ++ x3a :: to_string n) x3a 0 = size (u_host u))
      by exact (sv_find_if_app _ [] (u_host u) x3a _ Hh eq_refl).
    rewrite Hf. rewrite size_app, size_cons in Hsz. pose proof (size_nonneg (to_string n)).
    pose proof (size_nonneg (u_host u)). destruct (Z.eqb_spec (size (u_host u)) npos); [lia |]. split.
    + exact (sv_substr_mid [] (u_host u) _ _ eq_refl).
    + replace (u_host u ++ x3a :: to_string n) with ((u_host u ++ [x3a]) ++ to_string n) by (by rewrite <- app_assoc).
      replace (size (u_host u) + 1) with (size (u_host u ++ [x3a])) by (by rewrite size_app).
      rewrite sv_substr_rest by lia. cbn [obind].
      destruct (to_string_digits n (Hport n eq_refl)) as (ds & -> & Hds & Hp).
      change 0 with (u16 0). by rewrite portLoop_digits, Hp.
  - rewrite app_nil_r in *. assert (Hf : sv_find (u_host u) x3a 0 = npos) by exact (sv_find_if_none _ [] (u_host u) Hh).
    by rewrite Hf.
Qed.

Lemma mark_substr (b q : bytes) : size q <= npos -> sv_substr (b ++ x3f :: q) (size b + 1) npos = Ok q.
Proof.
  intros Hq. replace (b ++ x3f :: q) with ((b ++ [x3f]) ++ q) by (by rewrite <- app_assoc).
  replace (size b + 1) with (size (b ++ [x3f])) by (by rewrite size_app). by apply sv_substr_rest.
Qed.

Lemma at_next (b t : bytes) (c : byte) (x : byte) :
  (if size b <? size (b ++ x :: t) then let! y := at_ (b ++ x :: t) (size b) in Ok (Byte.eqb y c) else Ok false)
  = Ok (Byte.eqb x c).
Proof.
  rewrite at_mid, size_app, size_cons. pose proof (size_nonneg t).
  by destruct (Z.ltb_spec (size b) (size b + (1 + size t))); [| lia].
Qed.

Lemma at_end (b : bytes) (c : byte) :
  (if size b <? size b then let! y := at_ b (size b) in Ok (Byte.eqb y c) else Ok false) = Ok false.
Proof. by rewrite Z.ltb_irrefl. Qed.

(** Reading the path and the query behind the authority. *)
Lemma read_tail (b p : bytes) (q : option bytes) :
  p = [] \/ (exists p', p = x2f :: p') -> lacks x3f p -> size (b ++ p ++ queryText q) < npos ->
  let url := b ++ p ++ queryText q in
  let hostEnd := size b in
  let pathEnd := sv_find url x3f hostEnd in
  exists slash mark,
  let pos := if slash && negb (pathEnd =? npos) then pathEnd else hostEnd in
  (if hostEnd <? size url then let! c := at_ url hostEnd in Ok (Byte.eqb c x2f) else Ok false) = Ok slash
  /\ (if slash : bool then
        if pathEnd =? npos then sv_substr url hostEnd npos else sv_substr url hostEnd (pathEnd - hostEnd)
      else Ok (str "/")) = Ok (if decide (p = []) then str "/" else p)
  /\ (if pos <? size url then let! c := at_ url pos in Ok (Byte.eqb c x3f) else Ok false) = Ok mark
  /\ (if mark : bool then sv_substr url (pos + 1) npos else Ok []) = Ok (default [] q).
Proof.
  intros Hp Hq Hsz. cbv zeta. pose proof (size_nonneg b).
  assert (Hend : sv_find (b ++ p ++ queryText q) x3f (size b) = match q with Some _ => size (b ++ p) | None => npos end).
  { destruct q as [q |]; cbn [queryText].
    - rewrite size_app. exact (sv_find_if_app _ b p x3f q Hq eq_refl).
    - rewrite app_nil_r. by apply sv_find_if_none. }
  rewrite Hend. clear Hend Hq. destruct Hp as [-> | [p' ->]]; destruct q as [q |];
    cbn [queryText app] in *; try change (default [] (Some q)) with q.
  - exists false, true. cbn [andb]. rewrite !at_next. repeat (split; [done |]). apply mark_substr.
    rewrite size_app, size_cons in Hsz. lia.
  - exists false, false. cbn [andb]. rewrite app_nil_r. by rewrite !at_end.
  - exists true, true. cbn [andb]. pose proof (size_nonneg (b ++ x2f :: p')). pose proof (size_nonneg q).
    rewrite (app_comm_cons p'), (app_assoc b (x2f :: p')) in *. rewrite (size_app _ (x3f :: q)), size_cons in Hsz.
    destruct (Z.eqb_spec (size (b ++ x2f :: p')) npos); [lia |]. cbn [negb].
    split; [rewrite <- app_assoc; exact (at_next b (p' ++ x3f :: q) x2f x2f) |].
    split; [| split; [apply (at_next (b ++ x2f :: p') q x3f x3f) | apply mark_substr; lia]].
    rewrite decide_False, <- app_assoc by done. apply (sv_substr_mid b (x2f :: p') (x3f :: q)). rewrite size_app. lia.
  - exists true, false. cbn [andb]. rewrite app_nil_r in *. rewrite Z.eqb_refl. cbn [negb].
    split; [apply at_next |]. split; [| by rewrite at_next]. rewrite decide_False by done.
    apply (sv_substr_rest b). rewrite size_app in Hsz. lia.
Qed.

(** Reading the target of a request. *)
Lemma read_full (u : UrlParts) :
  parts_ok u ->
  (if size (urlBase u) <? size (urlText u)
   then let! c := at_ (urlText u) (size (urlBase u)) in
        Ok (if negb (Byte.eqb c x3f) then u_path u ++ queryText (u_query u) else x2f :: u_path u ++ queryText (u_query u))
   else Ok (x2f :: u_path u ++ queryText (u_query u)))
  = Ok ((if decide (u_path u = []) then str "/" else u_path u) ++ queryText (u_query u)).
Proof.
  intros [_ _ _ Hp _]. assert (Hlt : forall (b t : bytes) (x : byte), (size b <? size (b ++ x :: t)) = true).
  { intros b t x. apply Z.ltb_lt. rewrite size_app, size_cons. pose proof (size_nonneg t). lia. }
  unfold urlText. destruct Hp as [-> | [p ->]]; [destruct (u_query u) as [q |] |]; cbn [queryText app].
  - by rewrite at_mid, decide_True, Hlt.
  - by rewrite app_nil_r, Z.ltb_irrefl.
  - by rewrite at_mid, decide_False, Hlt.
Qed.

Lemma parseRest_ok (u : UrlParts) (scheme full : bytes) :
  parts_ok u -> size (urlText u) < npos ->
  parseRest (urlText u) (urlBase u) full scheme (authority u) (size (urlBase u))
  = Ok (mkUrl (urlBase u) scheme (u_host u)
          (match u_port u with Some n => u16 n | None => getDefaultPort scheme end)
          (if decide (u_path u = []) then str "/" else u_path u) (default [] (u_query u)) full
          (negb (bool_decide (scheme = [])) && negb (bool_decide (u_host u = []))
           && (0 <? match u_port u with Some n => u16 n | None => getDefaultPort scheme end))).
Proof.
  intros Hu Hsz. pose proof Hu as [_ _ _ Hp Hq]. unfold urlText in *.
  assert (Ha : size (authority u) < npos).
  { unfold urlBase in Hsz. rewrite !size_app in Hsz. pose proof (size_nonneg (u_scheme u)).
    pose proof (size_nonneg (u_path u)). pose proof (size_nonneg (queryText (u_query u))).
    change (size (str "://")) with 3 in Hsz. lia. }
  destruct (read_authority u scheme Hu Ha) as [H1 H2].
  destruct (read_tail (urlBase u) (u_path u) (u_query u) Hp Hq Hsz) as (slash & mark & H3 & H4 & H5 & H6).
  unfold parseRest. cbv zeta. rewrite H1. cbn [obind]. rewrite H2. cbn [obind negb]. rewrite H3. cbn [obind].
  rewrite H4. cbn [obind]. rewrite H5. cbn [obind]. rewrite H6. done.
Qed.

(** ** Properties *)

(** What a URL says is what the parser reads.  From a scheme, a host, an
    optional port, path and query, in the usual notation, [Url::parse] takes
    the lower-case scheme, the host, the port or the default of the scheme, the
    path or a slash, the query, and the target of a request; the URL is valid
    exactly when scheme, host and port are there.  The port is kept modulo
    65536: one of 65616 is taken for 80. *)
Theorem url_parse (u : UrlParts) : parts_ok u -> size (urlText u) < npos -> parse (urlText u) = Ok (urlOf u).
Proof.
  intros Hu Hsz. pose proof Hu as [Hs _ _ Hp _].
  assert (Htext : urlText u = u_scheme u ++ str "://" ++ authority u ++ u_path u ++ queryText (u_query u))
    by (unfold urlText, urlBase; by rewrite <- !app_assoc).
  assert (Hfind : sv_find_str (urlText u) (str "://") 0 = size (u_scheme u)).
  { unfold sv_find_str. pose proof (size_nonneg (urlText u)). destruct (Z.ltb_spec (size (urlText u)) 0); [lia |].
    change (Z.to_nat 0) with 0%nat. by rewrite drop_0, Htext, find_scheme. }
  unfold parse. rewrite decide_False by (rewrite Htext; by destruct (u_scheme u)). rewrite Hfind.
  destruct (Z.eqb_spec (size (u_scheme u)) npos) as [Hn | _].
  { rewrite Htext, !size_app in Hsz. pose proof (size_nonneg (authority u)). pose proof (size_nonneg (u_path u)).
    pose proof (size_nonneg (queryText (u_query u))). change (size (str "://")) with 3 in Hsz. lia. }
  assert (H1 : sv_substr (urlText u) 0 (size (u_scheme u)) = Ok (u_scheme u))
    by (rewrite Htext; exact (sv_substr_mid [] (u_scheme u) _ _ eq_refl)).
  rewrite H1. cbn [obind]. set (start := u_scheme u ++ str "://").
  replace (size (u_scheme u) + 3) with (size start) by (unfold start; by rewrite size_app).
  assert (Htext2 : urlText u = start ++ authority u ++ u_path u ++ queryText (u_query u))
    by (rewrite Htext; unfold start; by rewrite <- app_assoc).
  assert (Hbase : urlBase u = start ++ authority u) by (unfold start, urlBase; by rewrite <- app_assoc).
  rewrite Htext2 in Hsz.
  pose proof (host_end start (authority u) _ (authority_lacks u x2f Hu ltac:(auto)) (authority_lacks u x3f Hu ltac:(auto))
    (after_host u Hu) Hsz) as Hend.
  rewrite <- Htext2, <- Hbase in *. cbv zeta in *. rewrite Hend. clear Hend Hfind H1 Htext.
  assert (H2 : sv_substr (urlText u) 0 (size (urlBase u)) = Ok (urlBase u))
    by exact (sv_substr_mid [] (urlBase u) _ _ eq_refl).
  assert (H3 : sv_substr (urlText u) (size (urlBase u)) npos = Ok (u_path u ++ queryText (u_query u))).
  { apply sv_substr_rest. unfold urlText in Hsz. rewrite size_app in Hsz. pose proof (size_nonneg (urlBase u)). lia. }
  assert (H4 : sv_substr (urlText u) (size start) (size (urlBase u) - size start) = Ok (authority u)).
  { rewrite Htext2. apply sv_substr_mid. rewrite Hbase, size_app. lia. }
  rewrite H2. cbn [obind]. rewrite H3. cbn [obind]. rewrite read_full by done. cbn [obind]. rewrite H4. cbn [obind].
  rewrite parseRest_ok; [done | done |]. exact Hsz.
Qed.

Lemma url_parse_witness :
  parse (str "HTTP://example.com:65616/a/b?x=/?")
  = Ok (mkUrl (str "HTTP://example.com:65616") (str "http") (str "example.com") 80 (str "/a/b") (str "x=/?")
          (str "/a/b?x=/?") true).
Proof.
  refine (eq_trans (url_parse (mkParts (str "HTTP") (str "example.com") (Some 65616) (str "/a/b") (Some (str "x=/?"))) _ _) _).
  - split; cbn.
    + by repeat constructor.
    + by repeat constructor.
    + intros n [= <-]. lia.
    + right. by eexists.
    + by repeat constructor.
  - by vm_compute.
  - by vm_compute.
Defined.
