(* ===== verification/HttpClient.v ===== *)
(** The HTTP client, src/extensions/http/src/HttpClient.cc: one request on a
    connection ([doRequest]), the connections kept for reuse, and the cookies.

    The locks make [acquireConnection], [releaseConnection] and the two uses of
    the cookie store atomic; what one call of the client reads from outside, the
    name service, the network and the clocks, is the argument [env]. *)

From Stdlib Require Import ZArith Lia String Strings.Byte.
From stdpp Require Import base numbers option list gmap.
From S2P Require Import Prelude CxxStd ByteStream StringBuffer Conn BodyReader Chunked OrdMap HttpTypes HttpParser.
From S2P Require Import HttpHead CookieCodec Http1Sink Http1Reader HttpOutgoing CookieStore Url.
Open Scope Z_scope.

Record HttpClientConfig : Type := mkConfig {
  max_idle_connections : Z;
  idle_timeout : Z;
  add_host_header : bool
}.

Section client.
Context {S : Type} `{!ByteStream S} {T : Type} `{!CookieStore T} {Addr Tcp : Type}.
Context (reg : MethodRegistry).

(** ** Data *)

Record IdleConnection : Type := mkIdle {
  stream : S;
  idleAt : Z
}.

Definition StreamUpgrader : Type := Tcp -> outcome (option S).

Record HttpClient : Type := mkClient {
  client_url : Url;
  config_ : HttpClientConfig;
  upgrader_ : option StreamUpgrader;
  isHttps_ : bool;
  cookieStore_ : option T;
  idleConnections_ : list IdleConnection
}.

Definition set_idle (l : list IdleConnection) (cl : HttpClient) : HttpClient :=
  mkClient (client_url cl) (config_ cl) (upgrader_ cl) (isHttps_ cl) (cookieStore_ cl) l.

Definition set_store (st : T) (cl : HttpClient) : HttpClient :=
  mkClient (client_url cl) (config_ cl) (upgrader_ cl) (isHttps_ cl) (Some st) (idleConnections_ cl).

Definition newHttpClient (url : Url) (config : HttpClientConfig) (store : option T) : outcome HttpClient :=
  if valid_ url
  then Ok (mkClient url config None (bool_decide (scheme_ url = str "https")) store [])
  else Throw (InvalidArgument "Invalid base URL").

(** What a call meets outside: [net::resolve], [TcpConnection::connect], the
    stream on a connection, [Stream::peerClosed] and the clocks. *)
Record Env : Type := mkEnv {
  resolve : bytes -> outcome (list Addr);
  tcpConnect : Addr -> Z -> outcome Tcp;
  plainStream : Tcp -> S;
  peerClosed : S -> bool;
  acquiredAt : Z;
  releasedAt : Z;
  loadClock : Clock;
  storeClock : Clock
}.

Record IncomingResponse : Type := mkIncoming {
  ir_message : HttpResponse;
  ir_reader : @Http1BodyReader (AnyReader S)
}.

Record HttpCompleteResponse : Type := mkComplete {
  message_ : HttpResponse;
  complete_body : bytes
}.

(** A program on a local object: its new state goes with the result, and is
    gone when it throws. *)
Definition locally {A St : Type} (m : M St A) (s : St) : M HttpClient (A * St) := fun cl =>
  match m s with
  | (Ok a, s') => (Ok (a, s'), cl)
  | (Throw e, _) => (Throw e, cl)
  | (Undefined, _) => (Undefined, cl)
  | (Diverge, _) => (Diverge, cl)
  end.

(** ** Connections *)

Definition connect (env : Env) : M HttpClient S :=
  let* cl := mget in
  let* addresses := mlift (resolve env (host_ (client_url cl))) in
  match addresses with
  | [] => mthrow (RuntimeError "DNS resolution returned no addresses")
  | addr :: _ =>
      let* conn := mlift (tcpConnect env addr (port_ (client_url cl))) in
      if bool_decide (scheme_ (client_url cl) = str "https") then
        match upgrader_ cl with
        | None => mthrow (RuntimeError "HTTPS requires a StreamUpgrader")
        | Some upgrade =>
            let* s := mlift (upgrade conn) in
            match s with
            | None => mthrow (RuntimeError "Stream upgrade failed")
            | Some s => mret s
            end
        end
      else mret (plainStream env conn)
  end.

(** The loop of [acquireConnection]: the first idle connection that may be
    used; those before it are dropped. *)
Fixpoint takeIdle (env : Env) (timeout : Z) (idles : list IdleConnection) : option S * list IdleConnection :=
  match idles with
  | [] => (None, [])
  | idle :: idles' =>
      if (acquiredAt env - idleAt idle <? timeout) && negb (peerClosed env (stream idle))
      then (Some (stream idle), idles')
      else takeIdle env timeout idles'
  end.

Definition acquireConnection (env : Env) : M HttpClient S :=
  let* cl := mget in
  let '(found, rest) := takeIdle env (idle_timeout (config_ cl)) (idleConnections_ cl) in
  let* _ := mput (set_idle rest cl) in
  match found with
  | Some s => mret s
  | None => connect env
  end.

Definition releaseConnection (env : Env) (s : S) : M HttpClient unit :=
  let* cl := mget in
  if size (idleConnections_ cl) <? max_idle_connections (config_ cl)
  then mput (set_idle (idleConnections_ cl ++ [mkIdle s (releasedAt env)]) cl)
  else mret tt.

(** ** Cookies *)

Definition injectCookies (clock : Clock) (path : bytes) (req : ClientRequest) : M HttpClient ClientRequest :=
  let* cl := mget in
  match cookieStore_ cl with
  | None => mret req
  | Some st =>
      let* cs := mlift (cs_load clock path st) in
      mret (foldl (fun r c => if c_secure c && negb (isHttps_ cl) then r else setCookie (c_name c) (c_value c) r) req cs)
  end.

Definition collectCookies (clock : Clock) (path : bytes) (cookies : list Cookie) : M HttpClient unit :=
  let* cl := mget in
  match cookieStore_ cl with
  | None => mret tt
  | Some st =>
      let* st' := mlift (cs_store clock path cookies st) in
      mput (set_store st' cl)
  end.

(** ** One request *)

(** [doRequest] up to the sending. *)
Definition prepareRequest (env : Env) (req : ClientRequest) : M HttpClient ClientRequest :=
  let* cl := mget in
  let req := if add_host_header (config_ cl)
             then setRequestHeaderCode NC_Host (host_ (client_url cl)) req else req in
  injectCookies (loadClock env) (path (data_ req)) req.

(** The state of [doRequest] is the client and the stream it is given, so that
    what it has written on the stream shows whether it returns or throws. *)
Definition onClient {A : Type} (m : M HttpClient A) : M (HttpClient * S) A := fun '(cl, s) =>
  let '(r, cl) := m cl in (r, (cl, s)).

Definition onStream {A : Type} (m : M S A) : M (HttpClient * S) A := fun '(cl, s) =>
  let '(r, s) := m s in (r, (cl, s)).

(** A program on a buffer of its own over the stream; the buffer goes with the
    result. *)
Definition buffered {A : Type} (m : M (conn S) A) : M (HttpClient * S) (A * conn S) := fun '(cl, s) =>
  let '(r, c) := m (Conn empty_buffer s) in
  (let! a := r in Ok (a, c), (cl, strm c)).

Definition doRequest (env : Env) (req : ClientRequest) : M (HttpClient * S) IncomingResponse :=
  let* req := onClient (prepareRequest env req) in
  let* _ := onStream (flushRequest reg req) in
  let* result := buffered parseResponse in
  match fst result with
  | Disconnected => mthrow (RuntimeError "Connection closed")
  | ParseError e => mthrow (RuntimeError (string_of_list_byte (message e)))
  | Parsed msg =>
      let* _ := onClient (collectCookies (storeClock env) (path (data_ req)) (r_cookies msg)) in
      let ignoreBody := method (data_ req) =? Head in
      mret (mkIncoming msg (mkReader (create (snd result) (r_transferMode msg)
                                        (if ignoreBody then 0 else r_contentLength msg)) false))
  end.

(** A stream the caller has. *)
Definition withStream {A : Type} (s : S) (m : M (HttpClient * S) A) : M HttpClient A := fun cl =>
  let '(r, (cl, _)) := m (cl, s) in (r, cl).

(** [toCompleteResponse]; every round reads a byte or ends. *)
Definition toCompleteResponse (resp : IncomingResponse)
    : M HttpClient (HttpCompleteResponse * @Http1BodyReader (AnyReader S)) :=
  let c := reader_conn (impl (ir_reader resp)) in
  let* read := locally (readBody (length (pending (strm c)) + remainSize (buf c) + 1)) (ir_reader resp) in
  mret (mkComplete (ir_message resp) (fst read), snd read).

(** The common body of [get] and [post]. *)
Definition perform (env : Env) (req : ClientRequest) : M HttpClient HttpCompleteResponse :=
  let* s := acquireConnection env in
  let* resp := withStream s (doRequest env req) in
  let* complete := toCompleteResponse resp in
  let* _ := (if r_shouldClose (message_ (fst complete)) then mret tt
             else releaseConnection env (strm (reader_conn (impl (snd complete))))) in
  mret (fst complete).

Definition get (env : Env) (path : bytes) : M HttpClient HttpCompleteResponse :=
  perform env (setPath path (setMethod Get newClientRequest)).

Definition post (env : Env) (path body : bytes) : M HttpClient HttpCompleteResponse :=
  perform env (setRequestBody body (setPath path (setMethod Post newClientRequest))).

Definition request (env : Env) (req : ClientRequest) : M HttpClient IncomingResponse :=
  let* s := acquireConnection env in
  withStream s (doRequest env req).

(** The free functions: a client for one request. *)
Definition with_client {A : Type} (url : bytes) (m : Url -> M HttpClient A) : outcome A :=
  let! parsed := Url.parse url in
  let! cl := newHttpClient parsed (mkConfig 8 60000000000 true) None in
  fst (m parsed cl).

Definition getUrl (env : Env) (url : bytes) : outcome HttpCompleteResponse :=
  with_client url (fun parsed => get env (fullPath_ parsed)).

Definition postUrl (env : Env) (url body : bytes) : outcome HttpCompleteResponse :=
  with_client url (fun parsed => post env (fullPath_ parsed) body).

Definition requestUrl (env : Env) (url : bytes) (req : ClientRequest) : outcome IncomingResponse :=
  with_client url (fun parsed => request env (setPath (fullPath_ parsed) req)).
End client.
