(* ===== verification/HttpClientSpec.v ===== *)
(** The client and the server of this library together: what a program asks
    for is what the handler is called with, and what the handler answers is
    what the program gets. *)

From Stdlib Require Import ZArith Lia String Strings.Byte.
From stdpp Require Import base numbers option list gmap.
From S2P Require Import Prelude CxxStd ByteStream StringBuffer Conn BodyReader Chunked OrdMap HttpTypes HttpParser.
From S2P Require Import HttpHead CookieCodec Http1Sink Http1Reader Http1RoundTrip ReadOnly HttpOutgoing ResponseRoundTrip.
From S2P Require Import Router HttpServer HttpServerSpec CookieStore Url HttpClient.
Open Scope Z_scope.

(** ** The client's side *)

Section client_side.
Context {S : Type} `{!ByteStream S} {T : Type} `{!CookieStore T} {Addr Tcp : Type}.
Context (reg : MethodRegistry).

Lemma parseResponse_leaves (v : bytes) (c : conn S) : sentOn c = v -> leaves sentOn v parseResponse c.
Proof. intros Hc. unfold parseResponse, readHead, leaves. by apply readHeadLoop_leaves. Qed.

Lemma flushRequest_whole (m : ClientRequest) (s : S) :
  bodyWriterFn_ m = None ->
  exists s', flushRequest reg m s = (Ok tt, s') /\ sent s' = sent s ++ onWire reg (data_ m, body_ m)
    /\ pending s' = pending s.
Proof.
  intros Hb. unfold flushRequest. rewrite Hb. eexists. split; [reflexivity |].
  unfold onWire. cbn [fst snd]. apply stream_write_ok.
Qed.

(** A response that fits the syntax and what its setters ensure. *)
Record sendable (sink : ResponseSink.Http1ResponseSink) (m : ServerResponse) : Prop := {
  sd_writable : writable_response sink (data_ m);
  sd_pieces : pieces_ok m;
  sd_length : length_ok m
}.

Context (cl : @HttpClient S T Tcp) (env : @Env S Addr Tcp).

(** The cookies a response sets reach the store. *)
Definition collected (path : bytes) (cs : list Cookie) (cl' : @HttpClient S T Tcp) : Prop :=
  match cookieStore_ cl with
  | None => cl' = cl
  | Some st => exists st', cs_store (storeClock env) path cs st = Ok st' /\ cl' = set_store st' cl
  end.

(** What a request writes on the stream it is given. *)
Definition clientWrote (req : ClientRequest) (s : S) : bytes :=
  drop (length (sent s)) (sent (snd (snd (doRequest reg env req (cl, s))))).

(** It writes the request, whatever is read back. *)
Lemma doRequest_wrote (req req' : ClientRequest) (s : S) :
  prepareRequest env req cl = (Ok req', cl) -> bodyWriterFn_ req' = None ->
  clientWrote req s = onWire reg (data_ req', body_ req').
Proof.
  intros Hprep Hb. destruct (flushRequest_whole req' s Hb) as (s1 & Hflush & Hsent & _).
  unfold clientWrote. enough (Hs : sent (snd (snd (doRequest reg env req (cl, s)))) = sent s1).
  { by rewrite Hs, Hsent, drop_app_length. }
  assert (Hpc : onClient (S := S) (prepareRequest env req) (cl, s) = (Ok req', (cl, s))) by (unfold onClient; by rewrite Hprep).
  assert (Hfl : onStream (flushRequest reg req') (cl, s) = (Ok tt, (cl, s1))) by (unfold onStream; by rewrite Hflush).
  unfold doRequest. rewrite (mbind_ok _ _ _ _ _ Hpc), (mbind_ok _ _ _ _ _ Hfl).
  pose proof (parseResponse_leaves (sent s1) (Conn empty_buffer s1) eq_refl) as Hs. unfold leaves in Hs.
  unfold mbind at 1, buffered. destruct (parseResponse (Conn empty_buffer s1)) as [r c]. cbn [snd] in Hs.
  destruct r as [[] | | |]; cbn [obind fst]; try exact Hs.
  unfold mbind at 1, onClient. destruct (collectCookies _ _ _ cl) as [[] ?]; exact Hs.
Qed.

(** [doRequest] against a peer that answers with [m]. *)
Lemma doRequest_ok (req req' : ClientRequest) (s : S) (sink : ResponseSink.Http1ResponseSink) (m : ServerResponse) :
  prepareRequest env req cl = (Ok req', cl) -> bodyWriterFn_ req' = None -> method (data_ req') <> Head ->
  sendable sink m -> ResponseSink.isHeadMethod_ sink = false -> pending s = flushed sink m ->
  (exists cl', collectCookies (storeClock env) (path (data_ req')) (r_cookies (data_ m)) cl = (Ok tt, cl')) ->
  exists resp cl', withStream s (doRequest reg env req) cl = (Ok resp, cl')
    /\ arrived sink (data_ m) (modeOf m) (ir_message resp)
    /\ collected (path (data_ req')) (r_cookies (data_ m)) cl'
    /\ anyDelivers (impl (ir_reader resp)) (bodyOf m) [] /\ draining_ (ir_reader resp) = false.
Proof.
  intros Hprep Hb Hm [Hw Hp Hl] Hh Hpend [cl' Hcl].
  destruct (flushRequest_whole req' s Hb) as (s1 & Hflush & Hsent & Hp1).
  assert (Hrem : remains (Conn empty_buffer s1) (flushed sink m ++ [])).
  { rewrite app_nil_r, <- Hpend, <- Hp1. split; [unfold wf; simpl; lia | done]. }
  destruct (response_read sink m [] _ Hw Hh Hp Hl ltac:(done) Hrem) as (d & c & Hread & Harr & Hdel).
  assert (Hck : r_cookies d = r_cookies (data_ m)) by apply Harr. rewrite <- Hck in Hcl.
  assert (Hpc : onClient (S := S) (prepareRequest env req) (cl, s) = (Ok req', (cl, s))) by (unfold onClient; by rewrite Hprep).
  assert (Hfl : onStream (flushRequest reg req') (cl, s) = (Ok tt, (cl, s1))) by (unfold onStream; by rewrite Hflush).
  assert (Hps : buffered parseResponse (cl, s1) = (Ok (Parsed d, c), (cl, strm c))) by (unfold buffered; by rewrite Hread).
  assert (Hco : onClient (collectCookies (storeClock env) (path (data_ req')) (r_cookies d)) (cl, strm c)
                = (Ok tt, (cl', strm c))) by (unfold onClient; by rewrite Hcl).
  eexists _, cl'. unfold withStream, doRequest. rewrite (mbind_ok _ _ _ _ _ Hpc), (mbind_ok _ _ _ _ _ Hfl).
  rewrite (mbind_ok _ _ _ _ _ Hps). cbn [fst snd]. rewrite (mbind_ok _ _ _ _ _ Hco).
  apply Z.eqb_neq in Hm. rewrite Hm. split; [reflexivity |]. cbn [ir_message ir_reader impl].
  split; [done |]. split; [| by split].
  unfold collected. unfold collectCookies in Hcl. rewrite mbind_get in Hcl.
  rewrite <- Hck. destruct (cookieStore_ cl) as [st |]; [| by injection Hcl].
  unfold mbind, mlift in Hcl. destruct (cs_store _ _ _ st) as [st' | | |]; try done. exists st'. by injection Hcl.
Qed.

(** [toCompleteResponse] on what [doRequest] gives. *)
Lemma toCompleteResponse_ok (resp : @IncomingResponse S) (d : bytes) (cl0 : @HttpClient S T Tcp) :
  anyDelivers (impl (ir_reader resp)) d [] -> draining_ (ir_reader resp) = false ->
  exists r', toCompleteResponse resp cl0 = (Ok (mkComplete (ir_message resp) d, r'), cl0)
    /\ remains (reader_conn (impl r')) [].
Proof.
  intros Hd Hdr. unfold toCompleteResponse. cbv zeta. set (fuel := (_ + _ + 1)%nat).
  destruct (ir_reader resp) as [i dr]. cbn [impl draining_] in *. subst dr.
  destruct (readBody_any fuel i d [] Hd) as (r' & Hread & Hrem).
  { pose proof (delivers_length i d [] Hd). unfold fuel. lia. }
  exists r'. split; [| done].
  assert (Hl : locally (readBody fuel) (mkReader i false) cl0 = (Ok (d, r'), cl0)) by (unfold locally; by rewrite Hread).
  by rewrite (mbind_ok _ _ _ _ _ Hl).
Qed.
End client_side.

(** ** The server's side *)

Section server_side.
Context {S : Type} `{!ByteStream S} {Regex : Type}.
Context (reg : MethodRegistry) (regex_match : bytes -> Regex -> option (list bytes)).
Context (server : @HttpServer S Regex) (program : @Handler S -> Program).
Context (Hhandlers : forall h, Some h ∈ handlers_ (router_ server) ->
                     computes (invokeChain (middlewares_ server) h) (program h)).
Context (Hplain : requestUpgrader_ server = None).

(** The response the server has for a request. *)
Definition responseTo (d : HttpRequest) (body : bytes) : ServerResponse :=
  snd (fst (reply regex_match server program d body)).

Lemma received_expect (req d : HttpRequest) :
  received req d -> getHeaderCode NC_Expect (headers req) = [] -> getHeaderCode NC_Expect (headers d) = [].
Proof.
  intros (_ & _ & _ & _ & _ & _ & _ & _ & _ & _ & Hh). unfold getHeaderCode. rewrite Hh.
  unfold receivedHeader. rewrite !decide_False by done. destruct (om_find _ (headers req)); [done |].
  intros _. unfold connectionExtra. by repeat case_match.
Qed.

Lemma reply_interim (d : HttpRequest) (body : bytes) :
  getHeaderCode NC_Expect (headers d) = [] -> snd (reply regex_match server program d body) = [].
Proof.
  intros He. unfold reply. cbv zeta. rewrite He. rewrite !decide_True by auto. by repeat case_match.
Qed.

(** One request, and the end of the stream: what the server writes. *)
Lemma serve_one (req : HttpRequest) (body : bytes) (c : conn S) :
  writable_request reg req -> contentLength req = size body -> method req <> Head ->
  getHeaderCode NC_Expect (headers req) = [] -> remains c (onWire reg (req, body)) ->
  exists d closed c', received req d
    /\ handleConnection reg regex_match server c = (Ok closed, c')
    /\ sentOn c' = sentOn c ++ flushed (sinkAt server 0 false) (responseTo d body).
Proof.
  intros Hw Hl Hm He Hrem.
  destruct (connectionLoop_ok reg regex_match server program Hhandlers Hplain [(req, body)]
    (length (pending (strm c)) + remainSize (buf c) + 1) 0 c) as (ds & c' & Hds & Hloop & Hsent).
  - apply Forall_singleton. done.
  - cbn [map concat]. by rewrite app_nil_r.
  - pose proof (remains_length c _ Hrem) as Hn. unfold onWire in Hn. rewrite !length_app in Hn. simpl in *. lia.
  - inversion Hds as [| ? [d b] ? ? [Hrec Hb] Hnil]; subst. inversion Hnil; subst. cbn [fst snd] in *. subst b.
    exists d, (snd (answers regex_match server program 0 [(d, body)])), c'. split; [done |]. split; [exact Hloop |].
    rewrite Hsent. f_equal. cbn [answers]. pose proof (reply_interim d body (received_expect req d Hrec He)) as Hi.
    unfold responseTo. destruct Hrec as (_ & Hmeth & _). apply Z.eqb_neq in Hm. rewrite Hmeth, Hm.
    destruct (reply regex_match server program d body) as [[a resp] interim]. cbn in *. subst interim.
    by destruct a; rewrite ?app_nil_r.
Qed.
End server_side.

(** ** Properties *)

(** C1: the client and the server agree.  A program sends a request through the
    client: with its Host header and cookies, over a new or an idle
    connection.  The server at the other end of the connection calls the
    handler with the request that was sent and writes the handler's response:
    the server reads what the client has written, in whatever segments, and
    when the client's stream carries what the server writes, in whatever
    segments, the program gets that response: status, headers, cookies, which
    go to the cookie store, and the whole body. *)
Theorem client_server_exchange {S W : Type} `{!ByteStream S, !ByteStream W} {T Regex Addr Tcp : Type} `{!CookieStore T}
    (reg : MethodRegistry) (regex_match : bytes -> Regex -> option (list bytes))
    (server : @HttpServer W Regex) (program : @Handler W -> Program)
    (cl cl1 : @HttpClient S T Tcp) (env : @Env S Addr Tcp) (req req' : ClientRequest) (s : S) (c : conn W) :
  (forall h, Some h ∈ handlers_ (router_ server) ->
     computes (invokeChain (middlewares_ server) h) (program h)) ->
  requestUpgrader_ server = None ->
  acquireConnection env cl = (Ok s, cl1) -> prepareRequest env req cl1 = (Ok req', cl1) ->
  bodyWriterFn_ req' = None -> contentLength (data_ req') = size (body_ req') ->
  writable_request reg (data_ req') -> method (data_ req') <> Head ->
  getHeaderCode NC_Expect (headers (data_ req')) = [] ->
  (forall d, received (data_ req') d ->
     let resp := responseTo regex_match server program d (body_ req') in
     sendable (sinkAt server 0 false) resp
     /\ exists cl2, collectCookies (storeClock env) (path (data_ req')) (r_cookies (data_ resp)) cl1 = (Ok tt, cl2)) ->
  remains c (clientWrote reg cl1 env req s) ->
  exists d closed c', received (data_ req') d
    /\ handleConnection reg regex_match server c = (Ok closed, c')
    /\ (sentOn c' = sentOn c ++ pending s ->
        let resp := responseTo regex_match server program d (body_ req') in
        exists complete cl2 cl', perform reg env req cl = (Ok complete, cl')
          /\ arrived (sinkAt server 0 false) (data_ resp) (modeOf resp) (message_ complete)
          /\ complete_body complete = bodyOf resp
          /\ collected cl1 env (path (data_ req')) (r_cookies (data_ resp)) cl2
          /\ cookieStore_ cl' = cookieStore_ cl2).
Proof.
  intros Hh Hu Hacq Hprep Hb Hl Hw Hm He Hsend Hrem. rewrite (doRequest_wrote _ _ _ _ _ _ Hprep Hb) in Hrem.
  destruct (serve_one reg regex_match server program Hh Hu _ _ c Hw Hl Hm He Hrem)
    as (d & closed & c' & Hrec & Hserve & Hsent).
  exists d, closed, c'. split; [done |]. split; [done |]. rewrite Hsent. intros Hpend resp.
  apply app_inv_head in Hpend. symmetry in Hpend. fold resp in Hpend.
  destruct (Hsend d Hrec) as [Hsd Hcol].
  destruct (doRequest_ok reg cl1 env req req' s (sinkAt server 0 false) resp Hprep Hb Hm Hsd eq_refl Hpend Hcol)
    as (r & cl2 & Hdo & Harr & Hck & Hdel & Hdr).
  destruct (toCompleteResponse_ok r (bodyOf resp) cl2 Hdel Hdr) as (r' & Hcomp & _).
  unfold perform. rewrite (mbind_ok _ _ _ _ _ Hacq), (mbind_ok _ _ _ _ _ Hdo), (mbind_ok _ _ _ _ _ Hcomp).
  cbn [fst snd message_]. destruct (r_shouldClose (ir_message r)).
  - eexists _, cl2, cl2. split; [reflexivity |]. auto.
  - unfold releaseConnection, mbind. cbn [mget].
    destruct (_ <? _); eexists _, cl2, _; (split; [reflexivity |]; auto).
Qed.

(** A client of [http://example.com], a request and the connection on which it
    arrives at the example server. *)
Definition exampleUrl : Url := urlOf (mkParts (str "http") (str "example.com") None [] None).

Definition exampleClient : @HttpClient script (list Entry) unit :=
  mkClient exampleUrl (mkConfig 8 60000000000 true) None false (Some []) [].

Definition exampleRequest : ClientRequest :=
  setRequestBody (str "abc") (setPath (str "/hello") (setMethod Post newClientRequest)).

Definition preparedRequest : ClientRequest :=
  setRequestHeaderCode NC_Host (str "example.com") exampleRequest.

Definition exampleConn : conn script :=
  Conn empty_buffer (Script [onWire initRegistry (data_ preparedRequest, str "abc")] []).

Definition exampleAnswer : bytes := sentOn (snd (handleConnection initRegistry noRegex exampleServer exampleConn)).

Definition exampleEnv : @Env script unit unit :=
  mkEnv (fun _ => Ok [tt]) (fun _ _ => Ok tt) (fun _ => Script [take 7 exampleAnswer; drop 7 exampleAnswer] [])
    (fun _ => false) 0 0 (fun _ => 0) (fun _ => 0).

Lemma prepared_writable : writable_request initRegistry (data_ preparedRequest).
Proof.
  assert (Hh : Forall writable (map snd (headers (data_ preparedRequest)))).
  { apply Forall_singleton. split; [exists (str "Host"); split; reflexivity |].
    split; [reflexivity | split; [by repeat constructor | reflexivity]]. }
  split; try done.
  - repeat split; try (by vm_compute); try (by repeat constructor); discriminate.
  - split; [by repeat constructor | split; [by repeat constructor | done]].
  - by split; constructor.
Qed.

Definition helloResponse : ServerResponse := setBody (str "hi") (setCloseConnection false (setVersion kHttp11 newServerResponse)).

Lemma hello_answers (d : HttpRequest) :
  received (data_ preparedRequest) d -> responseTo noRegex exampleServer programOf d (str "abc") = helloResponse.
Proof.
  intros Hrec. pose proof (received_expect _ d Hrec eq_refl) as He.
  destruct Hrec as (Hv & Hm & Hp & _ & _ & _ & _ & _ & _ & Hk & _). unfold responseTo, reply.
  rewrite He, Hk, Hm, Hp, Hv. vm_compute. reflexivity.
Qed.

Lemma pending_split (n : nat) (a : bytes) : pending (Script [take n a; drop n a] []) = a.
Proof. cbn. by rewrite app_nil_r, take_drop. Qed.

Lemma client_server_exchange_witness :
  exists complete cl', perform (T := list Entry) (CookieStore0 := MemoryCookieStore (fun _ => None))
      initRegistry exampleEnv exampleRequest exampleClient = (Ok complete, cl')
    /\ r_statusCode (message_ complete) = 200 /\ complete_body complete = str "hi".
Proof.
  destruct (client_server_exchange (S := script) (W := script) (CookieStore0 := MemoryCookieStore (fun _ => None))
    initRegistry noRegex exampleServer programOf exampleClient exampleClient exampleEnv exampleRequest preparedRequest
    (plainStream exampleEnv tt) exampleConn example_computes eq_refl)
    as (d & closed & c' & Hrec & Hserve & Hget).
  - reflexivity.
  - reflexivity.
  - reflexivity.
  - reflexivity.
  - exact prepared_writable.
  - discriminate.
  - reflexivity.
  - intros d Hd. change (body_ preparedRequest) with (str "abc"). rewrite (hello_answers d Hd).
    split; [| by eexists]. split; [| done | done]. split; try done.
    + split; [by repeat constructor | by vm_compute].
    + split; [constructor | split; constructor].
    + split; [by vm_compute | split; [constructor | by vm_compute]].
  - split; [unfold wf; simpl; lia | by vm_compute].
  - assert (Ha : sentOn c' = exampleAnswer) by (unfold exampleAnswer; by rewrite Hserve).
    change (body_ preparedRequest) with (str "abc") in Hget. rewrite (hello_answers d Hrec) in Hget.
    destruct Hget as (complete & cl2 & cl' & Hperf & Harr & Hbody & _).
    + rewrite Ha. change (sentOn exampleConn) with (@nil byte). rewrite app_nil_l. symmetry. apply pending_split.
    + exists complete, cl'. split; [exact Hperf |]. split; [| exact Hbody]. by destruct Harr as (_ & -> & _).
Defined.
