(* ===== verification/Scheduler.v ===== *)
(** The event loop, src/src/Scheduler.cc and
    src/include/nitrocoro/core/Scheduler.h: [run] with its ready queue, timers
    and wake-up descriptor, while other threads schedule coroutines, set timers
    or stop it.  Every access to what the threads share is a step of its own.

    What a coroutine or an I/O handler does when the loop runs it is open: each
    turn of the loop says what its own thread does next.  Times are nanoseconds
    of the steady clock.  [top] is [std::priority_queue]: an earliest timer and
    the others; which of several earliest ones is the library's choice. *)

From Stdlib Require Import ZArith Lia.
From stdpp Require Import base numbers option list.
From S2P Require Import Prelude Pipe.
Open Scope Z_scope.

(** ** The queues, src/include/nitrocoro/core/MpscQueue.h *)

Record MpscQueue (T : Type) : Type := mkQueue {
  nodes : list (@Node T);
  taken : nat
}.
Arguments mkQueue {T} nodes taken.
Arguments nodes {T} m.
Arguments taken {T} m.

Section queue.
Context {T : Type}.

Definition newQueue : MpscQueue T := mkQueue [] 0.

(** The consumer finds [head->next] set. *)
Definition visible (q : MpscQueue T) : bool := match nodes q with n :: _ => linked n | [] => false end.

(** [push]: the exchange of [tail_] gives the node its place, counted over all
    pushes; the store of [next] makes it visible. *)
Definition exchangeTail (v : T) (q : MpscQueue T) : nat * MpscQueue T :=
  ((taken q + length (nodes q))%nat, mkQueue (nodes q ++ [mkNode v false]) (taken q)).

Definition link (place : nat) (q : MpscQueue T) : MpscQueue T :=
  mkQueue (alter (fun n => mkNode (value n) true) (place - taken q)%nat (nodes q)) (taken q).

(** A push by the consumer's own thread: no [pop] comes between its two
    accesses. *)
Definition push (v : T) (q : MpscQueue T) : MpscQueue T := let '(place, q') := exchangeTail v q in link place q'.

Definition pop (q : MpscQueue T) : option (T * MpscQueue T) :=
  match nodes q with
  | n :: ns => if linked n then Some (value n, mkQueue ns (S (taken q))) else None
  | [] => None
  end.

Definition values (q : MpscQueue T) : list T := map value (nodes q).
End queue.

(** ** State *)

Definition Handle : Type := nat.

Record Timer : Type := mkTimer {
  when : Z;
  handle : Handle
}.

(** What a thread asks of the scheduler. *)
Inductive Action : Type :=
| Schedule (h : Handle)
| ScheduleAt (t : Timer)
| Stop.

(** A thread other than the scheduler's, in [schedule], [schedule_at] or [stop]:
    before the store that links its node, and before the write to the wake-up
    descriptor. *)
Inductive ThreadPc : Type :=
| TIdle
| TLinkReady (place : nat)
| TLinkTimer (place : nat)
| TWake.

Record Thread : Type := mkThread {
  t_pc : ThreadPc;
  t_todo : list Action
}.

(** The loop: before [run]; at the test of [running_]; in [get_next_timeout],
    taking the pending timers and then computing; in [epoll_wait]; in
    [process_io_events], before the read of the wake-up descriptor and in the
    handlers; in [process_timers]; in [process_ready_queue], between the
    coroutines and inside one. *)
Inductive LoopPc : Type :=
| LStart
| LCheck
| LCollect
| LTimeout
| LWait (since timeout : Z)
| LRead
| LHandlers
| LTimers
| LFire (now : Z)
| LReady
| LRunning
| LStopped.

(** [clock] is the time; [resumed], [pushed], [fired] and [asked] record the
    coroutines resumed, the pushes to the ready queue, the timers fired with the
    time it was, and the timers set. *)
Record Scheduler : Type := mkScheduler {
  running_ : bool;
  wakeupFd_ : Z;
  readyQueue_ : MpscQueue Handle;
  pendingTimers_ : MpscQueue Timer;
  timers_ : list Timer;
  loop : LoopPc;
  threads : list Thread;
  clock : Z;
  resumed : list Handle;
  pushed : list Handle;
  fired : list (Timer * Z);
  asked : list Timer
}.

Definition newScheduler (scripts : list (list Action)) (now : Z) : Scheduler :=
  mkScheduler false 0 newQueue newQueue [] LStart (map (mkThread TIdle) scripts) now [] [] [] [].

Definition set_loop (l : LoopPc) (s : Scheduler) : Scheduler :=
  mkScheduler (running_ s) (wakeupFd_ s) (readyQueue_ s) (pendingTimers_ s) (timers_ s) l (threads s) (clock s)
    (resumed s) (pushed s) (fired s) (asked s).
Definition set_running (b : bool) (s : Scheduler) : Scheduler :=
  mkScheduler b (wakeupFd_ s) (readyQueue_ s) (pendingTimers_ s) (timers_ s) (loop s) (threads s) (clock s)
    (resumed s) (pushed s) (fired s) (asked s).
Definition set_wakeup (n : Z) (s : Scheduler) : Scheduler :=
  mkScheduler (running_ s) n (readyQueue_ s) (pendingTimers_ s) (timers_ s) (loop s) (threads s) (clock s)
    (resumed s) (pushed s) (fired s) (asked s).
Definition set_ready (q : MpscQueue Handle) (log : list Handle) (s : Scheduler) : Scheduler :=
  mkScheduler (running_ s) (wakeupFd_ s) q (pendingTimers_ s) (timers_ s) (loop s) (threads s) (clock s)
    (resumed s) log (fired s) (asked s).
Definition set_pending (q : MpscQueue Timer) (log : list Timer) (s : Scheduler) : Scheduler :=
  mkScheduler (running_ s) (wakeupFd_ s) (readyQueue_ s) q (timers_ s) (loop s) (threads s) (clock s)
    (resumed s) (pushed s) (fired s) log.
Definition set_timers (ts : list Timer) (log : list (Timer * Z)) (s : Scheduler) : Scheduler :=
  mkScheduler (running_ s) (wakeupFd_ s) (readyQueue_ s) (pendingTimers_ s) ts (loop s) (threads s) (clock s)
    (resumed s) (pushed s) log (asked s).
Definition set_resumed (log : list Handle) (s : Scheduler) : Scheduler :=
  mkScheduler (running_ s) (wakeupFd_ s) (readyQueue_ s) (pendingTimers_ s) (timers_ s) (loop s) (threads s) (clock s)
    log (pushed s) (fired s) (asked s).
Definition set_clock (t : Z) (s : Scheduler) : Scheduler :=
  mkScheduler (running_ s) (wakeupFd_ s) (readyQueue_ s) (pendingTimers_ s) (timers_ s) (loop s) (threads s) t
    (resumed s) (pushed s) (fired s) (asked s).
Definition set_thread (i : nat) (t : Thread) (s : Scheduler) : Scheduler :=
  mkScheduler (running_ s) (wakeupFd_ s) (readyQueue_ s) (pendingTimers_ s) (timers_ s) (loop s) (<[i := t]> (threads s))
    (clock s) (resumed s) (pushed s) (fired s) (asked s).

(** ** The scheduler's own thread *)

Definition kDefaultTimeoutMs : Z := 10000.
Definition nsPerMs : Z := 1000000.

(** [static_cast<int>] *)
Definition s32 (z : Z) : Z := (z + 2 ^ 31) mod 2 ^ 32 - 2 ^ 31.

Section steps.
Context (top : list Timer -> option (Timer * list Timer)).

(** [get_next_timeout] once the pending timers are in the heap. *)
Definition next_timeout (now : Z) (timers : list Timer) : Z :=
  match top timers with
  | None => kDefaultTimeoutMs
  | Some (t, _) => if when t <=? now then 0 else (when t - now) / nsPerMs
  end.

(** [schedule], [schedule_at] and [stop] on the own thread write no wake-up. *)
Definition own (a : Action) (s : Scheduler) : Scheduler :=
  match a with
  | Schedule h => set_ready (push h (readyQueue_ s)) (pushed s ++ [h]) s
  | ScheduleAt t => set_pending (push t (pendingTimers_ s)) (asked s ++ [t]) s
  | Stop => set_running false s
  end.

(** [epoll_wait] returns at the end of its time, when there is one. *)
Definition timedOut (since timeout now : Z) : bool := (0 <=? timeout) && (since + timeout * nsPerMs <=? now).

(** One step of [run].  [act]: in [epoll_wait], whether a descriptor has an
    event; in a handler or a coroutine, what it does next. *)
Definition loopStep (act : option Action) (s : Scheduler) : Scheduler :=
  match loop s with
  | LStart => set_loop LCheck (set_running true s)
  | LCheck => set_loop (if running_ s then LCollect else LStopped) s
  | LCollect =>
      match pop (pendingTimers_ s) with
      | Some (t, q) => set_timers (timers_ s ++ [t]) (fired s) (set_pending q (asked s) s)
      | None => set_loop LTimeout s
      end
  | LTimeout => set_loop (LWait (clock s) (s32 (next_timeout (clock s) (timers_ s)))) s
  | LWait since timeout =>
      if bool_decide (is_Some act) then set_loop LHandlers s
      else if 0 <? wakeupFd_ s then set_loop LRead s
      else if timedOut since timeout (clock s) then set_loop LTimers s
      else s
  | LRead => set_loop LHandlers (set_wakeup 0 s)
  | LHandlers =>
      match act with
      | Some a => own a s
      | None => set_loop LTimers s
      end
  | LTimers => set_loop (LFire (clock s)) s
  | LFire now =>
      match top (timers_ s) with
      | Some (t, rest) =>
          if when t <=? now
          then set_ready (push (handle t) (readyQueue_ s)) (pushed s ++ [handle t])
                 (set_timers rest (fired s ++ [(t, clock s)]) s)
          else set_loop LReady s
      | None => set_loop LReady s
      end
  | LReady =>
      match pop (readyQueue_ s) with
      | Some (h, q) => set_loop LRunning (set_resumed (resumed s ++ [h]) (set_ready q (pushed s) s))
      | None => set_loop LCheck s
      end
  | LRunning =>
      match act with
      | Some a => own a s
      | None => set_loop LReady s
      end
  | LStopped => s
  end.

(** ** The other threads *)

Definition threadStep (i : nat) (s : Scheduler) : Scheduler :=
  match threads s !! i with
  | None => s
  | Some th =>
      match t_pc th, t_todo th with
      | TIdle, [] => s
      | TIdle, Schedule h :: todo =>
          let '(place, q) := exchangeTail h (readyQueue_ s) in
          set_thread i (mkThread (TLinkReady place) todo) (set_ready q (pushed s ++ [h]) s)
      | TIdle, ScheduleAt t :: todo =>
          let '(place, q) := exchangeTail t (pendingTimers_ s) in
          set_thread i (mkThread (TLinkTimer place) todo) (set_pending q (asked s ++ [t]) s)
      | TIdle, Stop :: todo => set_thread i (mkThread TWake todo) (set_running false s)
      | TLinkReady place, todo =>
          set_thread i (mkThread TWake todo) (set_ready (link place (readyQueue_ s)) (pushed s) s)
      | TLinkTimer place, todo =>
          set_thread i (mkThread TWake todo) (set_pending (link place (pendingTimers_ s)) (asked s) s)
      | TWake, todo => set_thread i (mkThread TIdle todo) (set_wakeup (wakeupFd_ s + 1) s)
      end
  end.

Inductive Turn : Type :=
| Loop (act : option Action)
| Other (i : nat)
| Tick (ns : N).

Definition turn (t : Turn) (s : Scheduler) : Scheduler :=
  match t with
  | Loop act => loopStep act s
  | Other i => threadStep i s
  | Tick ns => set_clock (clock s + Z.of_N ns) s
  end.

Definition run (ts : list Turn) (s : Scheduler) : Scheduler := foldl (fun s t => turn t s) s ts.
End steps.

(** ** Lemmas: the queues *)

Section queue_lemmas.
Context {T : Type}.
Implicit Types q : MpscQueue T.

Lemma values_exchange (v : T) q : values (snd (exchangeTail v q)) = values q ++ [v].
Proof. unfold values. cbn. by rewrite map_app. Qed.

Lemma values_link (place : nat) q : values (link place q) = values q.
Proof. apply map_value_alter. Qed.

Lemma values_push (v : T) q : values (push v q) = values q ++ [v].
Proof.
  change (push v q) with (link (taken q + length (nodes q)) (snd (exchangeTail v q))).
  rewrite values_link. apply values_exchange.
Qed.

Lemma values_pop (v : T) q q' : pop q = Some (v, q') -> values q = v :: values q'.
Proof. unfold pop, values. destruct (nodes q) as [| n ns]; [done |]. destruct (linked n); [| done]. by intros [= <- <-]. Qed.

Lemma pop_none q : pop q = None -> visible q = false.
Proof. unfold pop, visible. destruct (nodes q) as [| n ns]; [done |]. by destruct (linked n). Qed.

Lemma visible_exchange (v : T) q : visible (snd (exchangeTail v q)) = visible q.
Proof. unfold visible. cbn. by destruct (nodes q). Qed.
End queue_lemmas.

(** ** Invariants *)

Section invariants.
Context (top : list Timer -> option (Timer * list Timer)).
Context (top_ok : forall ts, match top ts with
  | None => ts = []
  | Some (t, rest) => ts ≡ₚ t :: rest /\ Forall (fun u => when t <= when u) rest
  end).

(** *** The ready queue is first in, first out *)

Definition fifo (s : Scheduler) : Prop := resumed s ++ values (readyQueue_ s) = pushed s.

Lemma fifo_push (h : Handle) (s : Scheduler) :
  fifo s -> resumed s ++ values (push h (readyQueue_ s)) = pushed s ++ [h].
Proof. unfold fifo. intros <-. by rewrite values_push, app_assoc. Qed.

Lemma own_fifo (a : Action) (s : Scheduler) : fifo s -> fifo (own a s).
Proof. intros H. destruct a as [h | t |]; [exact (fifo_push h s H) | done | done]. Qed.

Lemma turn_fifo (t : Turn) (s : Scheduler) : fifo s -> fifo (turn top t s).
Proof.
  intros H. destruct t as [act | i | ns]; cbn [turn]; [| | done].
  - unfold loopStep. destruct (loop s); try done.
    + by destruct (pop _) as [[t q] |].
    + by repeat case_match.
    + destruct act; [by apply own_fifo | done].
    + destruct (top _) as [[t rest] |]; [| done]. destruct (_ <=? _); [| done]. exact (fifo_push (handle t) s H).
    + destruct (pop _) as [[h q] |] eqn:Hp; [| done]. apply values_pop in Hp. unfold fifo in *. cbn.
      by rewrite <- app_assoc, <- H, Hp.
    + destruct act; [by apply own_fifo | done].
  - unfold threadStep. destruct (threads s !! i) as [[[| p | p |] todo] |]; try done.
    + destruct todo as [| [h | t |] todo]; try done.
      change (resumed s ++ values (snd (exchangeTail h (readyQueue_ s))) = pushed s ++ [h]).
      by rewrite values_exchange, app_assoc, H.
    + change (resumed s ++ values (link p (readyQueue_ s)) = pushed s). by rewrite values_link.
Qed.

(** *** No timer is lost, none fires early *)

Record timely (s : Scheduler) : Prop := {
  tm_all : asked s ≡ₚ map fst (fired s) ++ timers_ s ++ values (pendingTimers_ s);
  tm_due : Forall (fun f => when (fst f) <= snd f /\ snd f <= clock s) (fired s);
  tm_now now : loop s = LFire now -> now <= clock s
}.

Lemma own_timely (a : Action) (s : Scheduler) : loop s = LHandlers \/ loop s = LRunning -> timely s -> timely (own a s).
Proof.
  intros Hl [H1 H2 H3]. destruct a as [h | t |]; [by split | | by split]. split; [| done ..].
  cbn [own set_pending asked fired timers_ pendingTimers_]. by rewrite values_push, H1, <- !app_assoc.
Qed.

Lemma timely_loop (l : LoopPc) (s : Scheduler) :
  (forall now, l = LFire now -> now <= clock s) -> timely s -> timely (set_loop l s).
Proof. by intros Hl [H1 H2 H3]. Qed.

Lemma loopStep_timely (act : option Action) (s : Scheduler) : timely s -> timely (loopStep top act s).
Proof.
  intros H. pose proof H as [H1 H2 H3]. unfold loopStep. destruct (loop s) as [| | | | since timeout | | | | now | | |] eqn:Hl;
    try (by apply timely_loop); try done.
  - apply timely_loop; [| done]. by destruct (running_ s).
  - destruct (pop _) as [[t q] |] eqn:Hp; [| by apply timely_loop]. apply values_pop in Hp.
    split; [| done | cbn; congruence]. cbn. rewrite H1, Hp. by rewrite <- !app_assoc.
  - repeat case_match; try done; by apply timely_loop.
  - destruct act; [apply own_timely; auto | by apply timely_loop].
  - apply timely_loop; [| done]. by intros now [= ->].
  - pose proof (top_ok (timers_ s)) as Ht. destruct (top (timers_ s)) as [[t rest] |]; [| by apply timely_loop].
    destruct Ht as [Hperm _]. destruct (Z.leb_spec (when t) now) as [Hle |]; [| by apply timely_loop].
    specialize (H3 now eq_refl). split; cbn; [| | rewrite Hl; by intros now' [= <-]].
    + rewrite H1, map_app, Hperm. cbn. by rewrite <- app_assoc.
    + apply Forall_app. split; [done |]. apply Forall_singleton. cbn. lia.
  - destruct (pop _) as [[h q] |]; by split.
  - destruct act; [apply own_timely; auto | by apply timely_loop].
Qed.

Lemma turn_timely (t : Turn) (s : Scheduler) : timely s -> timely (turn top t s).
Proof.
  intros H. destruct t as [act | i | ns]; cbn [turn]; [by apply loopStep_timely | |].
  - pose proof H as [H1 H2 H3]. unfold threadStep. destruct (threads s !! i) as [[[| p | p |] todo] |]; try done.
    + destruct todo as [| [h | t |] todo]; try done. split; [| done | done].
      change (asked s ++ [t] ≡ₚ map fst (fired s) ++ timers_ s ++ values (snd (exchangeTail t (pendingTimers_ s)))).
      by rewrite values_exchange, H1, <- !app_assoc.
    + split; [| done | done].
      change (asked s ≡ₚ map fst (fired s) ++ timers_ s ++ values (link p (pendingTimers_ s))). by rewrite values_link.
  - destruct H as [H1 H2 H3]. split; [done | | cbn; intros now Hn; specialize (H3 now Hn); lia].
    eapply Forall_impl; [exact H2 |]. cbn. intros f. lia.
Qed.
(** *** The loop does not sleep past a timer *)

(** A timer that is so far away that its milliseconds are no [int]. *)
Definition tooFar (since : Z) (t : Timer) : Prop := 2 ^ 31 * nsPerMs <= when t - since.

(** [epoll_wait] ends before the timer is due, or at once when it is due. *)
Definition endsBefore (since timeout : Z) (t : Timer) : Prop :=
  0 <= timeout /\ since + timeout * nsPerMs <= Z.max since (when t).

Definition punctual (s : Scheduler) : Prop :=
  forall since timeout, loop s = LWait since timeout ->
    (timers_ s = [] -> timeout = kDefaultTimeoutMs)
    /\ forall t, t ∈ timers_ s -> ~ tooFar since t -> endsBefore since timeout t.

Lemma s32_small (z : Z) : - 2 ^ 31 <= z < 2 ^ 31 -> s32 z = z.
Proof. intros Hz. unfold s32. rewrite Z.mod_small; lia. Qed.

Lemma next_timeout_ends (now : Z) (timers : list Timer) (t : Timer) :
  t ∈ timers -> ~ tooFar now t -> endsBefore now (s32 (next_timeout top now timers)) t.
Proof.
  intros Ht Hfar. unfold next_timeout. pose proof (top_ok timers) as Htop.
  destruct (top timers) as [[u rest] |]; [| subst; by apply elem_of_nil in Ht].
  destruct Htop as [Hperm Hmin]. assert (Hu : when u <= when t).
  { rewrite Hperm in Ht. apply elem_of_cons in Ht as [-> | Ht]; [done |]. by eapply Forall_forall in Hmin. }
  unfold tooFar, endsBefore, nsPerMs in *. destruct (Z.leb_spec (when u) now) as [Hle | Hgt].
  - rewrite s32_small by lia. lia.
  - pose proof (Z.div_mod (when u - now) 1000000 ltac:(lia)). pose proof (Z.mod_pos_bound (when u - now) 1000000 ltac:(lia)).
    rewrite s32_small by lia. lia.
Qed.

Lemma turn_punctual (t : Turn) (s : Scheduler) : punctual s -> punctual (turn top t s).
Proof.
  intros H. destruct t as [act | i | ns]; cbn [turn]; [| | done].
  - unfold loopStep. destruct (loop s) as [| | | | since timeout | | | | now | | |] eqn:Hl; try done.
    + by destruct (running_ s).
    + destruct (pop _) as [[u q] |]; [| done]. intros since timeout. cbn. by rewrite Hl.
    + intros since timeout [= <- <-]. split; [| intros u Hu Hfar; by apply next_timeout_ends].
      cbn. intros Hts. pose proof (top_ok (timers_ s)) as Ht. unfold next_timeout. rewrite Hts in *.
      destruct (top []) as [[u rest] |]; [| done]. destruct Ht as [Hperm _]. by apply Permutation_nil_cons in Hperm.
    + repeat case_match; try done.
    + destruct act as [a |]; [| done]. intros since timeout. destruct a; cbn; by rewrite Hl.
    + destruct (top _) as [[u rest] |]; [| done]. destruct (_ <=? _); [| done]. intros since timeout. cbn. by rewrite Hl.
    + by destruct (pop _) as [[h q] |].
    + destruct act as [a |]; [| done]. intros since timeout. destruct a; cbn; by rewrite Hl.
  - unfold threadStep. destruct (threads s !! i) as [[[| p | p |] todo] |]; try done.
    by destruct todo as [| [h | u |] todo].
Qed.

(** *** No wake-up is lost *)

(** A thread is about to write the wake-up descriptor, or one has. *)
Definition woken (s : Scheduler) : Prop :=
  0 < wakeupFd_ s \/ exists i th, threads s !! i = Some th /\ t_pc th = TWake.

(** Where the loop does not look at the ready queue, the pending timers or
    [running_] again before it waits. *)
Definition pastReady (l : LoopPc) : bool :=
  match l with LStart | LCheck | LCollect | LTimeout | LWait _ _ => true | _ => false end.
Definition pastPending (l : LoopPc) : bool := match l with LTimeout | LWait _ _ => true | _ => false end.
Definition pastRunning (l : LoopPc) : bool := match l with LCollect | LTimeout | LWait _ _ => true | _ => false end.

Record awake (s : Scheduler) : Prop := {
  aw_fd : 0 <= wakeupFd_ s;
  aw_ready : pastReady (loop s) = true -> visible (readyQueue_ s) = true -> woken s;
  aw_pending : pastPending (loop s) = true -> visible (pendingTimers_ s) = true -> woken s;
  aw_running : pastRunning (loop s) = true -> running_ s = false -> woken s
}.

Lemma awake_loop (l : LoopPc) (s : Scheduler) :
  (pastReady l = true -> visible (readyQueue_ s) = true -> woken s) ->
  (pastPending l = true -> visible (pendingTimers_ s) = true -> woken s) ->
  (pastRunning l = true -> running_ s = false -> woken s) ->
  awake s -> awake (set_loop l s).
Proof. intros H1 H2 H3 [H0 _ _ _]. by split. Qed.

Lemma own_awake (a : Action) (s : Scheduler) : loop s = LHandlers \/ loop s = LRunning -> awake s -> awake (own a s).
Proof. intros Hl [H0 _ _ _]. by destruct a, Hl as [Hl | Hl]; split; cbn; rewrite ?Hl. Qed.

Lemma loopStep_awake (act : option Action) (s : Scheduler) : awake s -> awake (loopStep top act s).
Proof.
  intros H. pose proof H as [H0 H1 H2 H3]. unfold loopStep.
  destruct (loop s) as [| | | | since timeout | | | | now | | |] eqn:Hl; cbn [pastReady pastPending pastRunning] in *.
  - by split.
  - destruct (running_ s) eqn:Hr; [| by apply awake_loop]. apply awake_loop; try done. by rewrite Hr.
  - destruct (pop _) as [[t q] |] eqn:Hp; [by split; cbn; rewrite ?Hl |]. apply awake_loop; try done.
    intros _. by rewrite (pop_none _ Hp).
  - by apply awake_loop.
  - repeat case_match; try done; by apply awake_loop.
  - by split.
  - destruct act; [apply own_awake; auto | by apply awake_loop].
  - by apply awake_loop.
  - destruct (top _) as [[t rest] |]; [| by apply awake_loop]. destruct (_ <=? _); [| by apply awake_loop].
    by split; cbn; rewrite ?Hl.
  - destruct (pop _) as [[h q] |] eqn:Hp; [by split |]. apply awake_loop; try done. intros _. by rewrite (pop_none _ Hp).
  - destruct act; [apply own_awake; auto | by apply awake_loop].
  - done.
Qed.

Lemma woken_other (i : nat) (th th' : Thread) (s : Scheduler) :
  threads s !! i = Some th -> t_pc th <> TWake -> woken s -> woken (set_thread i th' s).
Proof.
  intros Hi Hpc [Hw | (j & tj & Hj & Htj)]; [by left |]. right. exists j, tj. split; [| done].
  cbn. rewrite list_lookup_insert_ne; [done |]. intros ->. congruence.
Qed.

Lemma woken_now (i : nat) (th : Thread) (todo : list Action) (s : Scheduler) :
  threads s !! i = Some th -> woken (set_thread i (mkThread TWake todo) s).
Proof.
  intros Hi. right. exists i, (mkThread TWake todo). split; [| done]. cbn. apply list_lookup_insert_eq.
  by eapply lookup_lt_Some.
Qed.

Lemma threadStep_awake (i : nat) (s : Scheduler) : awake s -> awake (threadStep i s).
Proof.
  intros [H0 H1 H2 H3]. unfold threadStep. destruct (threads s !! i) as [th |] eqn:Hi; [| by split].
  destruct th as [pc todo]. cbn [t_pc t_todo]. destruct pc as [| p | p |].
  - assert (Hw : forall th', woken s -> woken (set_thread i th' s)) by (intros th'; by eapply woken_other).
    destruct todo as [| [h | t |] todo]; [by split | | |].
    + split; cbn; try done; try (intros; by apply Hw; auto). intros Hp Hv. apply Hw, H1; [done |].
      by rewrite <- (visible_exchange h (readyQueue_ s)).
    + split; cbn; try done; try (intros; by apply Hw; auto). intros Hp Hv. apply Hw, H2; [done |].
      by rewrite <- (visible_exchange t (pendingTimers_ s)).
    + pose proof (woken_now i _ todo s Hi). by split.
  - pose proof (woken_now i _ todo s Hi). by split.
  - pose proof (woken_now i _ todo s Hi). by split.
  - assert (Hw : woken (set_thread i (mkThread TIdle todo) (set_wakeup (wakeupFd_ s + 1) s))) by (left; cbn; lia).
    split; try done. cbn. lia.
Qed.

Lemma turn_woken (t : Turn) (s : Scheduler) : awake s -> awake (turn top t s).
Proof.
  intros H. destruct t as [act | i | ns]; cbn [turn]; [by apply loopStep_awake | by apply threadStep_awake |].
  destruct H as [H0 H1 H2 H3]. by split.
Qed.
End invariants.

(** ** Properties *)

(** A heap: an earliest timer, the first of them. *)
Fixpoint earliest (ts : list Timer) : option (Timer * list Timer) :=
  match ts with
  | [] => None
  | t :: ts' =>
      match earliest ts' with
      | None => Some (t, [])
      | Some (u, rest) => if when t <=? when u then Some (t, ts') else Some (u, t :: rest)
      end
  end.

Lemma earliest_ok (ts : list Timer) :
  match earliest ts with
  | None => ts = []
  | Some (t, rest) => ts ≡ₚ t :: rest /\ Forall (fun u => when t <= when u) rest
  end.
Proof.
  induction ts as [| t ts IH]; [done |]. cbn. destruct (earliest ts) as [[u rest] |]; [| by subst].
  destruct IH as [Hp Hmin]. destruct (Z.leb_spec (when t) (when u)) as [Hle | Hgt].
  - split; [done |]. rewrite Hp. constructor; [done |]. eapply Forall_impl; [exact Hmin |]. cbn. intros v. lia.
  - split; [rewrite Hp; constructor |]. constructor; [lia | done].
Qed.

(** C20: the scheduler forgets nothing.  However its loop and other threads
    interleave, coroutines are resumed in the order in which they were
    scheduled, each time once; and when the loop is in [epoll_wait] although
    there is a coroutine to resume, a timer to take over or a request to stop,
    the wake-up descriptor is readable or a thread is about to make it so: once
    the threads are done the wait ends. *)
Theorem scheduler_no_lost_wakeup (top : list Timer -> option (Timer * list Timer)) (scripts : list (list Action))
    (now : Z) (ts : list Turn) :
  let s := run top ts (newScheduler scripts now) in
  resumed s ++ values (readyQueue_ s) = pushed s
  /\ forall since timeout, loop s = LWait since timeout ->
     visible (readyQueue_ s) = true \/ visible (pendingTimers_ s) = true \/ running_ s = false ->
     woken s /\ (Forall (fun th => t_pc th = TIdle) (threads s) -> loop (turn top (Loop None) s) = LRead).
Proof.
  intros s.
  assert (Hf : fifo s) by (apply (foldl_invariant _ fifo); [intros; by apply turn_fifo | done]).
  assert (Ha : awake s) by (apply (foldl_invariant _ awake); [intros; by apply turn_woken | by split]).
  split; [exact Hf |]. intros since timeout Hl Hwork.
  assert (Hw : woken s).
  { destruct Ha as [_ H1 H2 H3]. rewrite Hl in *. destruct Hwork as [? | [? | ?]]; auto. }
  split; [done |]. intros Hidle. destruct Hw as [Hfd | (i & th & Hi & Hpc)].
  - cbn [turn]. unfold loopStep. rewrite Hl. cbn. by destruct (Z.ltb_spec 0 (wakeupFd_ s)); [| lia].
  - rewrite Forall_lookup in Hidle. by rewrite (Hidle i th Hi) in Hpc.
Qed.

(** Timers are kept and punctual.  Every timer that was set is exactly once
    among the fired, the waiting and the pending ones; none has fired before its
    time; when the loop leaves [process_timers] none that was due is left; and
    it never waits past a timer, unless the milliseconds to it are no [int]. *)
Theorem scheduler_timers (top : list Timer -> option (Timer * list Timer)) (scripts : list (list Action))
    (now : Z) (ts : list Turn) :
  (forall ts, match top ts with
   | None => ts = []
   | Some (t, rest) => ts ≡ₚ t :: rest /\ Forall (fun u => when t <= when u) rest
   end) ->
  let s := run top ts (newScheduler scripts now) in
  asked s ≡ₚ map fst (fired s) ++ timers_ s ++ values (pendingTimers_ s)
  /\ Forall (fun f => when (fst f) <= snd f <= clock s) (fired s)
  /\ (forall now, loop s = LFire now -> loop (turn top (Loop None) s) = LReady -> Forall (fun t => now < when t) (timers_ s))
  /\ (forall since timeout t, loop s = LWait since timeout -> t ∈ timers_ s -> ~ tooFar since t ->
      endsBefore since timeout t).
Proof.
  intros Htop s.
  assert (Ht : timely s).
  { apply (foldl_invariant _ timely); [intros; by apply turn_timely |]. split; [done | constructor | done]. }
  assert (Hp : punctual s) by (apply (foldl_invariant _ punctual); [intros; by apply turn_punctual | done]).
  destruct Ht as [H1 H2 _]. split; [done |]. split; [done |]. split.
  - intros t Hl. cbn [turn]. unfold loopStep. rewrite Hl. pose proof (Htop (timers_ s)) as Hm.
    destruct (top (timers_ s)) as [[u rest] |]; [| intros _; by rewrite Hm].
    destruct (Z.leb_spec (when u) t) as [| Hgt]; [cbn; congruence |]. intros _. destruct Hm as [Hperm Hmin].
    rewrite Hperm. constructor; [done |]. eapply Forall_impl; [exact Hmin |]. cbn. intros v. lia.
  - intros since timeout t Hl Hin Hfar. by apply (proj2 (Hp since timeout Hl)).
Qed.

Lemma scheduler_timers_witness :
  let s := run earliest ([Loop None; Other 0; Other 0; Other 0; Loop None; Loop None; Loop None; Loop None; Tick 7;
      Loop None; Loop None; Loop None; Loop None; Loop None]) (newScheduler [[ScheduleAt (mkTimer 5 1%nat)]] 0) in
  fired s = [(mkTimer 5 1%nat, 7)] /\ asked s ≡ₚ map fst (fired s) ++ timers_ s ++ values (pendingTimers_ s).
Proof. intros s. split; [by vm_compute | exact (proj1 (scheduler_timers earliest _ 0 _ earliest_ok))]. Defined.

(** A timer in 25 days.  The milliseconds to a timer are cast to [int]: for
    one that is 2160000000 ms away the timeout of [epoll_wait] is negative,
    which means none.  With no other event the loop waits for ever, also long
    after the timer was due. *)
Theorem scheduler_timer_wraps (n : nat) :
  let t := mkTimer (2160000000 * nsPerMs) 1%nat in
  exists ts, let s := run earliest ts (newScheduler [[ScheduleAt t]] 0) in
    running_ s = true /\ timers_ s = [t] /\ when t + 1000000000 < clock s
    /\ loop s = LWait 0 (2160000000 - 2 ^ 32)
    /\ run earliest (replicate n (Loop None)) s = s.
Proof.
  intros t. exists (repeat (Other 0) 3 ++ repeat (Loop None) 14 ++ [Tick 2160001000000001]).
  cbv zeta. set (s := run _ _ _).
  assert (Hs : s = mkScheduler true 0 newQueue (mkQueue [] 1) [t] (LWait 0 (2160000000 - 2 ^ 32))
      [mkThread TIdle []] 2160001000000001 [] [] [] [t]) by (vm_compute; reflexivity).
  rewrite Hs. repeat (split; [done |]).
  clear Hs s. induction n as [| n IH]; [done |]. cbn [replicate run foldl]. exact IH.
Qed.
