(* ===== verification/Future.v ===== *)
(** Promises and futures, src/include/nitrocoro/core/Future.h, with the list of
    waiters of src/include/nitrocoro/core/LockFreeList.h: several coroutines
    that [get] a shared future and several threads that satisfy the promise,
    every access to what they share a step of its own.

    The promise has a scheduler, on which waiters are resumed.  [V] is what a
    future holds: the value or the exception. *)

From Stdlib Require Import ZArith Lia.
From stdpp Require Import base numbers option list.
From S2P Require Import Prelude.

(** ** Data *)

(** A [LockFreeListNode *]: null, [kClosed], or the node in the awaiter of a
    coroutine. *)
Inductive NodePtr : Type :=
| Null
| Closed
| At (i : nat).

#[export] Instance NodePtr_eq_decision : EqDecision NodePtr.
Proof. solve_decision. Defined.

Section future.
Context {V : Type} (broken_promise : V).

(** A coroutine in [co_await future.get()]: in [await_ready]; in [push] before
    the load of the head, at the test of what was loaded, and before the
    compare-exchange; suspended; in [await_resume]; after it, with what it read:
    [None] is the access to an empty [std::optional]. *)
Inductive GetterPc : Type :=
| GReady
| GLoad
| GTest (cur : NodePtr)
| GCas (cur : NodePtr)
| GSuspended
| GResume
| GDone (r : option V).

(** [next_]: of the node in its awaiter; [times]: how often its handle was
    given to the scheduler. *)
Record Getter : Type := mkGetter {
  g_pc : GetterPc;
  next_ : NodePtr;
  times : nat
}.

(** A thread in [set_value] or [set_exception] with [r]: before the exchange of
    the head, at the test of what was there, before the store of the result,
    and in the loop of [resumeAll], before the load of a node's [next_] and
    before its handle is scheduled.  The destructor of the promise looks at the
    head first. *)
Inductive SetterPc : Type :=
| SCheck
| SClose
| SStore (waiters : NodePtr)
| SRead (n : NodePtr)
| SSchedule (i : nat) (next : NodePtr)
| SDone
| SThrown
| SSkipped.

Record Setter : Type := mkSetter {
  s_pc : SetterPc;
  s_result : V
}.

(** [result_] is [value_] and [exception_]; [dangling]: a node was read after
    its awaiter was gone; [owner] records which setter closed the list. *)
Record FutureState : Type := mkFuture {
  waiters_ : NodePtr;
  result_ : option V;
  getters : list Getter;
  setters : list Setter;
  dangling : bool;
  owner : option nat
}.

(** [n] coroutines, a promise that is set with each of [rs] and destroyed. *)
Definition newFuture (n : nat) (rs : list V) : FutureState :=
  mkFuture Null None (replicate n (mkGetter GReady Null 0))
    (map (mkSetter SClose) rs ++ [mkSetter SCheck broken_promise]) false None.

Definition set_getter (i : nat) (g : Getter) (f : FutureState) : FutureState :=
  mkFuture (waiters_ f) (result_ f) (<[i := g]> (getters f)) (setters f) (dangling f) (owner f).
Definition set_setter (i : nat) (s : Setter) (f : FutureState) : FutureState :=
  mkFuture (waiters_ f) (result_ f) (getters f) (<[i := s]> (setters f)) (dangling f) (owner f).
Definition set_waiters (p : NodePtr) (f : FutureState) : FutureState :=
  mkFuture p (result_ f) (getters f) (setters f) (dangling f) (owner f).

(** ** Steps *)

(** [fails]: whether a weak compare-exchange fails without reason. *)
Definition getterStep (fails : bool) (i : nat) (f : FutureState) : FutureState :=
  match getters f !! i with
  | None => f
  | Some g =>
      let goto pc := set_getter i (mkGetter pc (next_ g) (times g)) f in
      match g_pc g with
      | GReady => goto (if decide (waiters_ f = Closed) then GResume else GLoad)
      | GLoad => goto (GTest (waiters_ f))
      | GTest cur =>
          if decide (cur = Closed) then goto GResume
          else set_getter i (mkGetter (GCas cur) cur (times g)) f
      | GCas cur =>
          if negb fails && bool_decide (waiters_ f = cur)
          then set_waiters (At i) (goto GSuspended)
          else goto (GTest (waiters_ f))
      | GSuspended => if (times g =? 0)%nat then f else goto GResume
      | GResume => goto (GDone (result_ f))
      | GDone _ => f
      end
  end.

(** The awaiter, and the node in it, is gone after [await_resume]. *)
Definition gone (g : Getter) : bool := match g_pc g with GDone _ => true | _ => false end.

Definition setterStep (j : nat) (f : FutureState) : FutureState :=
  match setters f !! j with
  | None => f
  | Some s =>
      let goto pc := set_setter j (mkSetter pc (s_result s)) f in
      match s_pc s with
      | SCheck => goto (if decide (waiters_ f = Closed) then SSkipped else SClose)
      | SClose =>
          if decide (waiters_ f = Closed) then goto SThrown
          else
            let f' := goto (SStore (waiters_ f)) in
            mkFuture Closed (result_ f') (getters f') (setters f') (dangling f') (Some j)
      | SStore w =>
          let f' := goto (SRead w) in
          mkFuture (waiters_ f') (Some (s_result s)) (getters f') (setters f') (dangling f') (owner f')
      | SRead (At i) =>
          match getters f !! i with
          | Some g =>
              let f' := goto (SSchedule i (next_ g)) in
              mkFuture (waiters_ f') (result_ f') (getters f') (setters f') (dangling f' || gone g) (owner f')
          | None => f
          end
      | SRead _ => goto SDone
      | SSchedule i next =>
          match getters f !! i with
          | Some g => set_getter i (mkGetter (g_pc g) (next_ g) (S (times g))) (goto (SRead next))
          | None => goto (SRead next)
          end
      | SDone | SThrown | SSkipped => f
      end
  end.

Inductive Turn : Type :=
| Get (fails : bool) (i : nat)
| Set_ (j : nat).

Definition turn (t : Turn) (f : FutureState) : FutureState :=
  match t with
  | Get fails i => getterStep fails i f
  | Set_ j => setterStep j f
  end.

Definition run (ts : list Turn) (f : FutureState) : FutureState := foldl (fun f t => turn t f) f ts.
End future.

(** ** The invariant *)

Section invariant.
Context {V : Type}.
Implicit Types f : @FutureState V.
Implicit Types gs : list (@Getter V).

(** A coroutine that is suspended and not given to the scheduler yet. *)
Definition waits (g : @Getter V) : bool := match g_pc g with GSuspended => (times g =? 0)%nat | _ => false end.

(** The nodes on the list from [p], first to last. *)
Inductive path gs : NodePtr -> list nat -> Prop :=
| path_null : path gs Null []
| path_at i g l : gs !! i = Some g -> path gs (next_ g) l -> path gs (At i) (i :: l).

(** A setter that closed the list. *)
Definition won (pc : SetterPc) : bool :=
  match pc with SStore _ | SRead _ | SSchedule _ _ | SDone => true | _ => false end.

(** The rest of the list, and the node whose handle comes next. *)
Definition remaining (pc : SetterPc) : NodePtr * list nat :=
  match pc with
  | SStore w => (w, [])
  | SRead n => (n, [])
  | SSchedule i next => (next, [i])
  | _ => (Null, [])
  end.

(** The coroutines that wait are exactly those on the list. *)
Definition listed gs (rem : NodePtr * list nat) : Prop :=
  exists l, path gs (fst rem) l /\ NoDup (snd rem ++ l)
    /\ forall i, i ∈ snd rem ++ l <-> exists g, gs !! i = Some g /\ waits g = true.

(** What holds of a coroutine, with the head [w] and the result [r]. *)
Record getter_ok (w : NodePtr) (r : option V) (g : @Getter V) : Prop := {
  go_cas cur : g_pc g = GCas cur -> next_ g = cur /\ cur <> Closed;
  go_once : (times g <= 1)%nat;
  go_woken : times g = 1%nat ->
    is_Some r /\ match g_pc g with GSuspended | GResume | GDone _ => True | _ => False end;
  go_resume : g_pc g = GResume -> w = Closed;
  go_test : g_pc g = GTest Closed -> w = Closed;
  go_done x : g_pc g = GDone x -> match x with Some _ => r = x | None => times g = 0%nat end
}.

Record good (f : @FutureState V) : Prop := {
  gd_open : owner f = None -> waiters_ f <> Closed /\ result_ f = None /\ listed (getters f) (waiters_ f, []);
  gd_closed j : owner f = Some j -> waiters_ f = Closed /\ exists s, setters f !! j = Some s
    /\ won (s_pc s) = true /\ listed (getters f) (remaining (s_pc s))
    /\ result_ f = match s_pc s with SStore _ => None | _ => Some (s_result s) end;
  gd_owner j s : setters f !! j = Some s -> won (s_pc s) = true -> owner f = Some j;
  gd_getter i g : getters f !! i = Some g -> getter_ok (waiters_ f) (result_ f) g;
  gd_ended j s : setters f !! j = Some s -> s_pc s = SThrown \/ s_pc s = SSkipped -> waiters_ f = Closed;
  gd_live : dangling f = false
}.

Lemma path_ext gs gs' (p : NodePtr) (l : list nat) :
  (forall k g, k ∈ l -> gs !! k = Some g -> exists g', gs' !! k = Some g' /\ next_ g' = next_ g) ->
  path gs p l -> path gs' p l.
Proof.
  intros Hext Hp. induction Hp as [| i g l Hi Hp IH]; [constructor |].
  destruct (Hext i g ltac:(left) Hi) as (g' & Hi' & Hn). econstructor; [done |]. rewrite Hn. apply IH.
  intros k g0 Hk. apply Hext. by right.
Qed.

Lemma listed_update gs (i : nat) (g g' : Getter) (rem : NodePtr * list nat) :
  gs !! i = Some g -> waits g' = waits g -> next_ g' = next_ g \/ waits g = false ->
  listed gs rem -> listed (<[i := g']> gs) rem.
Proof.
  intros Hi Hw Hn (l & Hp & Hnd & Hin). pose proof (lookup_lt_Some _ _ _ Hi) as Hlt. exists l. split; [| split; [done |]].
  - eapply path_ext; [| done]. intros k g0 Hk Hg0. destruct (decide (k = i)) as [-> | Hne].
    + simplify_eq. exists g'. split; [by apply list_lookup_insert_eq |]. destruct Hn as [Hn | Hn]; [done |].
      assert (Hk' : i ∈ snd rem ++ l) by (apply elem_of_app; by right). apply Hin in Hk' as (g1 & Hg1 & Hw1). congruence.
    + exists g0. by rewrite list_lookup_insert_ne.
  - intros k. rewrite Hin. destruct (decide (k = i)) as [-> | Hne].
    + rewrite list_lookup_insert_eq by done. rewrite Hi. split; intros (g1 & [= <-] & Hg1); eexists; (split; [done | congruence]).
    + by rewrite list_lookup_insert_ne by done.
Qed.

(** A node is put in front of the list. *)
Lemma listed_push gs (i : nat) (g g' : Getter) (p : NodePtr) :
  gs !! i = Some g -> waits g = false -> waits g' = true -> next_ g' = p ->
  listed gs (p, []) -> listed (<[i := g']> gs) (At i, []).
Proof.
  intros Hi Hw Hw' Hn (l & Hp & Hnd & Hin). cbn [fst snd app] in *. pose proof (lookup_lt_Some _ _ _ Hi) as Hlt.
  assert (Hni : i ∉ l) by (rewrite Hin; intros (g1 & Hg1 & Hw1); congruence).
  exists (i :: l). cbn [fst snd app]. split; [| split; [by apply list.NoDup_cons |]].
  - econstructor; [by apply list_lookup_insert_eq |]. rewrite Hn. eapply path_ext; [| done].
    intros k g0 Hk Hg0. exists g0. rewrite list_lookup_insert_ne; [done |]. by intros ->.
  - intros k. rewrite elem_of_cons, Hin. destruct (decide (k = i)) as [-> | Hne].
    + rewrite list_lookup_insert_eq by done. split; [intros _; by exists g' | by left].
    + rewrite list_lookup_insert_ne by done. split; [by intros [? |] | by right].
Qed.

(** The first node of the list is the next to schedule. *)
Lemma listed_read gs (i : nat) (g : Getter) :
  gs !! i = Some g -> listed gs (At i, []) -> listed gs (next_ g, [i]) /\ waits g = true.
Proof.
  intros Hi (l & Hp & Hnd & Hin). inversion Hp as [| i' g' l' Hi' Hp']; subst. cbn [fst snd app] in *.
  rewrite Hi in Hi'. injection Hi' as <-. split; [by exists l' |].
  destruct (proj1 (Hin i) ltac:(left)) as (g1 & Hg1 & Hw). congruence.
Qed.

Lemma listed_scheduled gs (i : nat) (g g' : Getter) (next : NodePtr) :
  gs !! i = Some g -> waits g' = false -> next_ g' = next_ g ->
  listed gs (next, [i]) -> listed (<[i := g']> gs) (next, []).
Proof.
  intros Hi Hw Hn (l & Hp & Hnd & Hin). cbn [fst snd app] in *. pose proof (lookup_lt_Some _ _ _ Hi) as Hlt.
  apply list.NoDup_cons in Hnd as [Hni Hnd]. exists l. cbn [fst snd app]. split; [| split; [done |]].
  - eapply path_ext; [| done]. intros k g0 Hk Hg0. exists g0. rewrite list_lookup_insert_ne; [done |]. by intros ->.
  - intros k. destruct (decide (k = i)) as [-> | Hne].
    + rewrite list_lookup_insert_eq by done. split; [done |]. intros (g1 & [= <-] & Hw1). congruence.
    + rewrite list_lookup_insert_ne, <- Hin by done. rewrite elem_of_cons. split; [by right | by intros [? |]].
Qed.

Lemma listed_null gs (i : nat) (g : Getter) : listed gs (Null, []) -> gs !! i = Some g -> waits g = false.
Proof.
  intros (l & Hp & _ & Hin) Hi. inversion Hp; subst. destruct (waits g) eqn:Hw; [| done].
  assert (He : i ∈ [] ++ []) by (apply Hin; eauto). by apply elem_of_nil in He.
Qed.
(** ** Every step preserves it *)

Lemma good_new (b : V) (n : nat) (rs : list V) : good (newFuture b n rs).
Proof.
  assert (Hg : forall i g, replicate n (@mkGetter V GReady Null 0) !! i = Some g -> g = mkGetter GReady Null 0)
    by (intros i g Hi; by apply lookup_replicate in Hi as [-> _]).
  split; cbn; try done.
  - intros _. split; [done |]. split; [done |]. exists []. split; [constructor |]. split; [apply base.NoDup_nil_2 |].
    intros i. split; [by intros []%elem_of_nil |]. by intros (g & ->%Hg & Hw).
  - intros j s Hj. apply list_elem_of_lookup_2, elem_of_app in Hj as [(r & -> & _)%list_elem_of_fmap | ->%list_elem_of_singleton]; done.
  - intros i g ->%Hg. split; cbn; try done; lia.
  - intros j s Hj. apply list_elem_of_lookup_2, elem_of_app in Hj as [(r & -> & _)%list_elem_of_fmap | ->%list_elem_of_singleton];
      by intros [|].
Qed.

(** A coroutine moves on; the list stays as it is. *)
Lemma good_getter f (i : nat) (g g' : Getter) :
  good f -> getters f !! i = Some g -> waits g' = waits g -> next_ g' = next_ g \/ waits g = false ->
  getter_ok (waiters_ f) (result_ f) g' -> good (set_getter i g' f).
Proof.
  intros [H1 H2 H3 H4 H6 H5] Hi Hw Hn Hok. split; cbn; try done.
  - intros Ho. destruct (H1 Ho) as (? & ? & ?). split; [done |]. split; [done |]. by eapply listed_update.
  - intros j Ho. destruct (H2 j Ho) as (? & s & ? & ? & ? & ?). split; [done |]. exists s. repeat (split; [done |]).
    split; [| done]. by eapply listed_update.
  - intros k g0 Hk. destruct (decide (k = i)) as [-> | Hne].
    + rewrite list_lookup_insert_eq in Hk by (by eapply lookup_lt_Some). by injection Hk as <-.
    + rewrite list_lookup_insert_ne in Hk by done. by eapply H4.
Qed.

Lemma closed_owner f : good f -> waiters_ f = Closed -> exists j, owner f = Some j.
Proof. intros H Hw. destruct (owner f) as [j |] eqn:Ho; [by exists j |]. by destruct (gd_open _ H Ho) as [? _]. Qed.

Lemma getterStep_good (fails : bool) (i : nat) f : good f -> good (getterStep fails i f).
Proof.
  intros H. unfold getterStep. destruct (getters f !! i) as [g |] eqn:Hi; [| done].
  pose proof (gd_getter _ H i g Hi) as [O1 O2 O3 O4 O5 O6]. destruct g as [pc nx n]. cbn [g_pc next_ times] in *.
  assert (H0 : match pc with GSuspended | GResume | GDone _ => True | _ => n = 0%nat end).
  { destruct pc; try done; (destruct n as [| [|]]; [done | by destruct (O3 eq_refl) | lia]). }
  destruct pc as [| | cur | cur | | | x].
  - case_decide; eapply good_getter; try done; try (by left); subst n; by split.
  - eapply good_getter; try done; [by left |]. subst n. split; try done. by intros [=].
  - subst n. case_decide as Hc.
    + subst cur. eapply good_getter; try done; [by left |]. split; try done. intros _. by apply O5.
    + eapply good_getter; try done; [by right |]. split; try done. by intros c [= <-].
  - subst n. destruct (O1 cur eq_refl) as [-> Hcl]. destruct (negb fails && bool_decide (waiters_ f = cur)) eqn:Hcas.
    + apply andb_prop in Hcas as [_ Heq%bool_decide_eq_true]. destruct H as [H1 H2 H3 H4 H6 H5].
      destruct (owner f) as [j |] eqn:Ho; [destruct (H2 j eq_refl); congruence |].
      destruct (H1 eq_refl) as (_ & Hr & Hl). split; cbn; rewrite ?Ho; try done.
      * intros _. split; [done |]. split; [done |]. rewrite Heq in Hl. by apply (listed_push _ _ _ _ cur Hi).
      * intros k g0 Hk. destruct (decide (k = i)) as [-> | Hne].
        -- rewrite list_lookup_insert_eq in Hk by (by eapply lookup_lt_Some). injection Hk as <-. by split.
        -- rewrite list_lookup_insert_ne in Hk by done. destruct (H4 k g0 Hk) as [? ? ? Hres Htest ?]. split; try done.
           ++ intros Hg. by rewrite Heq in Hres; apply Hres in Hg.
           ++ intros Hg. by rewrite Heq in Htest; apply Htest in Hg.
      * intros j s Hj He. specialize (H6 j s Hj He). congruence.
    + eapply good_getter; try done; [by left |]. split; try done. by intros [=].
  - destruct (Nat.eqb_spec n 0) as [| Hn]; [done |].
    apply (good_getter f i _ _ H Hi); [by unfold waits; cbn; destruct n | by left |].
    split; cbn; try done. intros _.
    assert (n = 1%nat) as -> by lia. destruct (O3 eq_refl) as [Hr _].
    destruct (owner f) as [j |] eqn:Ho; [by destruct (gd_closed _ H j Ho) |].
    destruct (gd_open _ H Ho) as (_ & Hnone & _). rewrite Hnone in Hr. by destruct Hr.
  - eapply good_getter; try done; [by left |]. split; cbn; try done.
    intros x [= <-]. destruct (result_ f) eqn:Hr; [done |]. destruct n as [| [|]]; [done | | lia].
    destruct (O3 eq_refl) as [[? ?] _]. congruence.
  - done.
Qed.
(** A setter that did not close the list moves on. *)
Lemma good_loser f (j : nat) (s s' : Setter) :
  good f -> setters f !! j = Some s -> won (s_pc s) = false -> won (s_pc s') = false ->
  (s_pc s' = SThrown \/ s_pc s' = SSkipped -> waiters_ f = Closed) -> good (set_setter j s' f).
Proof.
  intros [H1 H2 H3 H4 H6 H5] Hj Hw Hw' He. pose proof (lookup_lt_Some _ _ _ Hj) as Hlt. split; cbn; try done.
  - intros k Ho. destruct (H2 k Ho) as (? & sk & Hk & Hwk & ? & ?). split; [done |]. exists sk.
    rewrite list_lookup_insert_ne; [done |]. intros ->. congruence.
  - intros k sk Hk Hwk. destruct (decide (k = j)) as [-> | Hne].
    + rewrite list_lookup_insert_eq in Hk by done. injection Hk as <-. congruence.
    + rewrite list_lookup_insert_ne in Hk by done. by eapply H3.
  - intros k sk Hk. destruct (decide (k = j)) as [-> | Hne].
    + rewrite list_lookup_insert_eq in Hk by done. by injection Hk as <-.
    + rewrite list_lookup_insert_ne in Hk by done. by eapply H6.
Qed.

(** The setter that closed the list moves on. *)
Lemma good_winner f (j : nat) (s s' : Setter) (r : option V) (gs : list Getter) :
  good f -> setters f !! j = Some s -> owner f = Some j \/ owner f = None -> won (s_pc s') = true ->
  listed gs (remaining (s_pc s')) -> r = match s_pc s' with SStore _ => None | _ => Some (s_result s') end ->
  (forall i g, gs !! i = Some g -> getter_ok Closed r g) ->
  good (mkFuture Closed r gs (<[j := s']> (setters f)) false (Some j)).
Proof.
  intros [H1 H2 H3 H4 H6 H5] Hj Ho Hw Hl Hr Hg. pose proof (lookup_lt_Some _ _ _ Hj) as Hlt. split; cbn; try done.
  - intros k [= <-]. split; [done |]. exists s'. by rewrite list_lookup_insert_eq.
  - intros k sk Hk Hwk. destruct (decide (k = j)) as [-> | Hne]; [done |].
    rewrite list_lookup_insert_ne in Hk by done. specialize (H3 k sk Hk Hwk). destruct Ho; congruence.
Qed.

Lemma getter_ok_closed (w : NodePtr) (r : option V) (g : @Getter V) : getter_ok w r g -> getter_ok Closed r g.
Proof. by intros []. Qed.

Lemma getter_ok_stored (v : V) (g : @Getter V) : getter_ok Closed None g -> getter_ok Closed (Some v) g.
Proof.
  intros [O1 O2 O3 O4 O5 O6]. split; try done.
  - intros Ht. destruct (O3 Ht) as [[? ?] _]. done.
  - intros x Hx. specialize (O6 x Hx). by destruct x.
Qed.

Lemma setterStep_good (j : nat) f : good f -> good (setterStep j f).
Proof.
  intros H. unfold setterStep. destruct (setters f !! j) as [s |] eqn:Hj; [| done].
  assert (Hown : won (s_pc s) = true -> owner f = Some j) by (by apply (gd_owner _ H)).
  assert (Hst : won (s_pc s) = true -> waiters_ f = Closed /\ listed (getters f) (remaining (s_pc s))
    /\ result_ f = match s_pc s with SStore _ => None | _ => Some (s_result s) end).
  { intros Hw. destruct (gd_closed _ H j (Hown Hw)) as (? & s0 & Hj0 & _ & ? & ?).
    assert (s0 = s) as -> by congruence. done. }
  destruct s as [pc v]. cbn [s_pc s_result] in *.
  destruct pc as [| | w | n | i next | | |]; cbn [won remaining] in *; try done.
  - case_decide; eapply good_loser; try done. by intros [|].
  - case_decide as Hc; [by eapply good_loser |].
    destruct (owner f) as [k |] eqn:Ho; [by destruct (gd_closed _ H k Ho) |].
    destruct (gd_open _ H Ho) as (_ & Hr & Hl). cbn. rewrite (gd_live _ H).
    eapply (good_winner f); try done; [by right |]. intros i g Hi. by eapply getter_ok_closed, (gd_getter _ H).
  - destruct (Hst eq_refl) as (Hw & Hl & Hr). cbn. rewrite Hw, (gd_live _ H), (Hown eq_refl).
    eapply (good_winner f); try done; [left; by apply Hown |]. intros i g Hi.
    apply getter_ok_stored. rewrite <- Hr, <- Hw. by eapply (gd_getter _ H).
  - destruct (Hst eq_refl) as (Hw & Hl & Hr).
    assert (Hg : forall i g, getters f !! i = Some g -> getter_ok Closed (result_ f) g)
      by (intros i g Hi; eapply getter_ok_closed; by apply (gd_getter _ H i)).
    destruct n as [| | i].
    + unfold set_setter. rewrite Hw, (gd_live _ H), (Hown eq_refl). eapply (good_winner f); try done. left; by apply Hown.
    + destruct Hl as (l & Hp & _). inversion Hp.
    + destruct (getters f !! i) as [g |] eqn:Hi; [| done]. cbn. rewrite Hw, (gd_live _ H), (Hown eq_refl).
      destruct (listed_read _ i g Hi Hl) as [Hl' Hwait].
      assert (Hgone : gone g = false) by (unfold gone, waits in *; by destruct (g_pc g)).
      rewrite Hgone. eapply (good_winner f); try done. left; by apply Hown.
  - destruct (Hst eq_refl) as (Hw & Hl & Hr). assert (Hin : exists g, getters f !! i = Some g /\ waits g = true).
    { destruct Hl as (l & _ & _ & Hin). apply Hin. left. }
    destruct Hin as (g & Hi & Hwait). rewrite Hi. unfold set_getter, set_setter. cbn.
    rewrite Hw, (gd_live _ H), (Hown eq_refl).
    assert (Hg : g_pc g = GSuspended /\ times g = 0%nat).
    { unfold waits in Hwait. destruct (g_pc g); try done. by apply Nat.eqb_eq in Hwait. }
    destruct Hg as [Hpc Ht]. eapply (good_winner f); try done; [left; by apply Hown | |].
    + eapply listed_scheduled; [exact Hi | | done | exact Hl]. unfold waits. cbn. by rewrite Hpc.
    + intros k gk Hk. destruct (decide (k = i)) as [-> | Hne].
      * rewrite list_lookup_insert_eq in Hk by (by eapply lookup_lt_Some). injection Hk as <-.
        split; cbn; rewrite ?Hpc, ?Ht; try done; try lia; rewrite Hr; by eauto.
      * rewrite list_lookup_insert_ne in Hk by done. eapply getter_ok_closed. by apply (gd_getter _ H k).
Qed.

Lemma turn_good (t : Turn) f : good f -> good (turn t f).
Proof. destruct t; [apply getterStep_good | apply setterStep_good]. Qed.

Lemma run_good (ts : list Turn) f : good f -> good (run ts f).
Proof. apply (foldl_invariant _ good). intros t f'. apply turn_good. Qed.
End invariant.

(** ** Properties *)

Definition ended (pc : SetterPc) : bool := match pc with SDone | SThrown | SSkipped => true | _ => false end.

Section facts.
Context {V : Type}.

Lemma setters_length (t : Turn) (f : @FutureState V) : length (setters (turn t f)) = length (setters f).
Proof.
  destruct t as [fails i | j]; cbn [turn].
  - unfold getterStep. destruct (getters f !! i) as [g |]; [| done]. by destruct (g_pc g); repeat case_match.
  - unfold setterStep. destruct (setters f !! j) as [s |]; [| done].
    destruct (s_pc s); repeat case_match; cbn; rewrite ?length_insert; done.
Qed.

Lemma run_setters_length (ts : list Turn) (f : @FutureState V) : length (setters (run ts f)) = length (setters f).
Proof. revert f. induction ts as [| t ts IH]; intros f; [done |]. cbn. rewrite <- (setters_length t f). apply IH. Qed.

(** Once the setter that closed the list is done, nobody waits. *)
Lemma done_none_waits (f : @FutureState V) (j : nat) (s : Setter) (i : nat) (g : Getter) :
  good f -> setters f !! j = Some s -> s_pc s = SDone -> getters f !! i = Some g -> g_pc g = GSuspended ->
  times g = 1%nat.
Proof.
  intros H Hj Hs Hi Hpc. pose proof (gd_owner _ H j s Hj ltac:(by rewrite Hs)) as Ho.
  destruct (gd_closed _ H j Ho) as (_ & s0 & Hj0 & _ & Hl & _). assert (s0 = s) as -> by congruence.
  rewrite Hs in Hl. pose proof (listed_null _ i g Hl Hi) as Hw. pose proof (go_once _ _ _ (gd_getter _ H i g Hi)).
  unfold waits in Hw. rewrite Hpc in Hw. apply Nat.eqb_neq in Hw. lia.
Qed.
End facts.

(** C21: a future has one result, and everybody who waits gets it.  However the
    coroutines that wait for a future, the threads that satisfy its promise and
    its destructor interleave: one setter prevails and the others throw; every
    coroutine that reads a result reads the one of that setter; a coroutine is
    scheduled at most once, and the one that was finds a result; no awaiter is
    read after it is gone; and when all setters and the destructor have ended,
    every suspended coroutine has been scheduled. *)
Theorem future_results {V : Type} (broken : V) (n : nat) (rs : list V) (ts : list Turn) :
  let f := run ts (newFuture broken n rs) in
  (forall j k s s', setters f !! j = Some s -> setters f !! k = Some s' ->
     won (s_pc s) = true -> won (s_pc s') = true -> j = k)
  /\ (forall i g v, getters f !! i = Some g -> g_pc g = GDone (Some v) ->
      exists j s, setters f !! j = Some s /\ won (s_pc s) = true /\ v = s_result s)
  /\ (forall i g, getters f !! i = Some g -> (times g <= 1)%nat /\ (times g = 1%nat -> g_pc g <> GDone None))
  /\ dangling f = false
  /\ (Forall (fun s => ended (s_pc s) = true) (setters f) ->
      forall i g, getters f !! i = Some g -> g_pc g = GSuspended -> times g = 1%nat).
Proof.
  intros f. assert (H : good f) by apply run_good, good_new. split; [| split; [| split; [| split]]].
  - intros j k s s' Hj Hk Hw Hw'. pose proof (gd_owner _ H j s Hj Hw). pose proof (gd_owner _ H k s' Hk Hw'). congruence.
  - intros i g v Hi Hpc. pose proof (go_done _ _ _ (gd_getter _ H i g Hi) _ Hpc) as Hr. cbn in Hr.
    destruct (owner f) as [j |] eqn:Ho; [| destruct (gd_open _ H Ho) as (_ & Hn & _); congruence].
    destruct (gd_closed _ H j Ho) as (_ & s & Hj & Hw & _ & Hs). exists j, s. repeat (split; [done |]).
    rewrite Hr in Hs. destruct (s_pc s); congruence.
  - intros i g Hi. pose proof (gd_getter _ H i g Hi) as Hg. split; [apply Hg |]. intros Ht Hpc.
    pose proof (go_done _ _ _ Hg _ Hpc) as Hz. cbn in Hz. congruence.
  - apply H.
  - intros Hend i g Hi Hpc.
    assert (Hd : (length rs < length (setters f))%nat).
    { unfold f. rewrite run_setters_length. cbn. rewrite length_app, length_map. simpl. lia. }
    apply lookup_lt_is_Some in Hd as [s Hs]. rewrite Forall_lookup in Hend. pose proof (Hend _ s Hs) as He.
    assert (Hcl : exists j, owner f = Some j).
    { destruct (s_pc s) eqn:Hsp; try done.
      - exists (length rs). apply (gd_owner _ H _ s Hs). by rewrite Hsp.
      - apply (closed_owner f H), (gd_ended _ H _ s Hs). auto.
      - apply (closed_owner f H), (gd_ended _ H _ s Hs). auto. }
    destruct Hcl as [j Ho]. destruct (gd_closed _ H j Ho) as (_ & sj & Hj & Hw & _).
    eapply (done_none_waits f j sj); try done. specialize (Hend j sj Hj). by destruct (s_pc sj).
Qed.

(** A result that is not there.  [set_value] closes the list before it
    stores the value: a coroutine on another thread that calls [get] between
    the two finds the list closed, does not wait, and reads an empty optional. *)
Theorem future_empty_result {V : Type} (broken v : V) :
  exists ts, let f := run ts (newFuture broken 1 [v]) in
    g_pc <$> getters f !! 0%nat = Some (GDone None)
    /\ result_ (run [Set_ 0] f) = Some v.
Proof. exists [Set_ 0; Get false 0; Get false 0]. done. Qed.
