(* ===== verification/FileCache.v ===== *)
(** The cache of file contents, [FileCache] of
    src/extensions/http/src/StaticFiles.cc: a list in the order of last use, an
    index into it, and the size of what it holds. *)

From Stdlib Require Import ZArith Lia String Strings.Byte.
From stdpp Require Import base numbers option list gmap.
From S2P Require Import Prelude.
Open Scope Z_scope.

(** ** Data *)

Record CacheNode : Type := mkNode {
  key : bytes;
  data : bytes;
  etag : bytes;
  last_modified : bytes;
  mime_type : bytes;
  content_encoding : bytes;
  expire_at : Z
}.

(** A list iterator names an element; elements get names that are not in use. *)
Abbreviation Iterator := nat.

Record FileCache : Type := mkCache {
  lru_ : list (Iterator * CacheNode);
  index_ : gmap bytes Iterator;
  currentSize_ : Z;
  fresh : Iterator
}.

Definition newCache : FileCache := mkCache [] ∅ 0 0.

(** [*it] *)
Fixpoint deref (it : Iterator) (l : list (Iterator * CacheNode)) : option CacheNode :=
  match l with
  | [] => None
  | (i, n) :: l' => if decide (i = it) then Some n else deref it l'
  end.

(** [lru_.erase(it)] *)
Definition erase (it : Iterator) (l : list (Iterator * CacheNode)) : list (Iterator * CacheNode) :=
  filter (fun e => fst e <> it) l.

(** ** Operations *)

(** [evict]: the entry of [key], whose element is [n] at [it]. *)
Definition evict (k : bytes) (it : Iterator) (n : CacheNode) (c : FileCache) : FileCache :=
  mkCache (erase it (lru_ c)) (delete k (index_ c)) (u64 (currentSize_ c - size (data n))) (fresh c).

(** An iterator that names no element must not be used. *)
Definition get (now : Z) (k : bytes) (c : FileCache) : outcome (option CacheNode * FileCache) :=
  match index_ c !! k with
  | None => Ok (None, c)
  | Some it =>
      match deref it (lru_ c) with
      | None => Undefined
      | Some n =>
          if expire_at n <? now then Ok (None, evict k it n c)
          else Ok (Some n, mkCache ((it, n) :: erase it (lru_ c)) (index_ c) (currentSize_ c) (fresh c))
      end
  end.

Definition invalidate (k : bytes) (c : FileCache) : outcome FileCache :=
  match index_ c !! k with
  | None => Ok c
  | Some it =>
      match deref it (lru_ c) with
      | None => Undefined
      | Some n => Ok (evict k it n c)
      end
  end.

(** The loop of [put]: the least recently used go until there is room. *)
Fixpoint makeRoom (fuel : nat) (incoming max_cache_size : Z) (c : FileCache) : outcome FileCache :=
  match last (lru_ c) with
  | None => Ok c
  | Some (it, n) =>
      if max_cache_size <? u64 (currentSize_ c + incoming) then
        match fuel with
        | O => Diverge
        | S fuel' =>
            makeRoom fuel' incoming max_cache_size
              (mkCache (removelast (lru_ c)) (delete (key n) (index_ c)) (u64 (currentSize_ c - size (data n))) (fresh c))
        end
      else Ok c
  end.

Definition put (n : CacheNode) (max_cache_size : Z) (c : FileCache) : outcome (CacheNode * FileCache) :=
  let! c := invalidate (key n) c in
  let! c := makeRoom (length (lru_ c)) (size (data n)) max_cache_size c in
  let it := fresh c in
  Ok (n, mkCache ((it, n) :: lru_ c)
           (match index_ c !! key n with Some _ => index_ c | None => <[key n := it]> (index_ c) end)
           (u64 (currentSize_ c + size (data n))) (S it)).

(** ** The invariant *)

Definition total (l : list (Iterator * CacheNode)) : Z := foldr (fun e a => size (data (snd e)) + a) 0 l.

#[local] Arguments total l : simpl never.

Lemma total_cons (e : Iterator * CacheNode) (l : list (Iterator * CacheNode)) :
  total (e :: l) = size (data (snd e)) + total l.
Proof. done. Qed.

Lemma total_nil : total [] = 0.
Proof. done. Qed.

(** Names and keys are distinct, the index leads to every element and nowhere
    else, and the size is the sum of the elements' sizes. *)
Record consistent (c : FileCache) : Prop := {
  co_ids : NoDup (map fst (lru_ c));
  co_keys : NoDup (map (fun e => key (snd e)) (lru_ c));
  co_fresh e : e ∈ lru_ c -> (fst e < fresh c)%nat;
  co_index k it : index_ c !! k = Some it <-> exists n, (it, n) ∈ lru_ c /\ key n = k;
  co_size : currentSize_ c = total (lru_ c)
}.

Lemma total_nonneg (l : list (Iterator * CacheNode)) : 0 <= total l.
Proof.
  induction l as [| e l IH]; [done |]. rewrite total_cons.
  pose proof (size_nonneg (data (snd e))). lia.
Qed.

Lemma total_perm (l k : list (Iterator * CacheNode)) : l ≡ₚ k -> total l = total k.
Proof. unfold total. induction 1; cbn [foldr] in *; try lia; congruence. Qed.

Lemma deref_in (it : Iterator) (n : CacheNode) (l : list (Iterator * CacheNode)) :
  NoDup (map fst l) -> (it, n) ∈ l -> deref it l = Some n.
Proof.
  induction l as [| [i m] l IH]; intros Hnd Hin; [by apply elem_of_nil in Hin |].
  apply list.NoDup_cons in Hnd as [Hni Hnd]. cbn. apply elem_of_cons in Hin as [[= <- <-] | Hin]; [by rewrite decide_True |].
  rewrite decide_False; [by apply IH |]. intros ->. apply Hni. by apply (list_elem_of_fmap_2 fst l (it, n)).
Qed.

Lemma erase_perm (it : Iterator) (n : CacheNode) (l : list (Iterator * CacheNode)) :
  NoDup (map fst l) -> (it, n) ∈ l -> l ≡ₚ (it, n) :: erase it l.
Proof.
  induction l as [| [i m] l IH]; intros Hnd Hin; [by apply elem_of_nil in Hin |].
  apply list.NoDup_cons in Hnd as [Hni Hnd]. unfold erase. apply elem_of_cons in Hin as [[= <- <-] | Hin].
  - rewrite filter_cons_False by (cbn; auto). constructor.
    replace (filter (fun e => fst e <> it) l) with l; [done |]. symmetry. clear IH.
    induction l as [| [j p] l IH]; [done |]. cbn in Hni. apply not_elem_of_cons in Hni as [Hne Hni].
    apply list.NoDup_cons in Hnd as [_ Hnd]. rewrite filter_cons_True by (cbn; congruence). f_equal. by apply IH.
  - rewrite filter_cons_True.
    + rewrite (IH Hnd Hin) at 1. unfold erase. apply Permutation_swap.
    + cbn. intros ->. apply Hni. by apply (list_elem_of_fmap_2 fst l (it, n)).
Qed.

(** The same elements in another order. *)
Lemma consistent_perm (l : list (Iterator * CacheNode)) (c : FileCache) :
  l ≡ₚ lru_ c -> consistent c -> consistent (mkCache l (index_ c) (currentSize_ c) (fresh c)).
Proof.
  intros Hp [H1 H2 H3 H4 H5]. split; cbn.
  - by rewrite Hp.
  - by rewrite Hp.
  - intros e. rewrite Hp. apply H3.
  - intros k it. rewrite H4. by setoid_rewrite Hp.
  - by rewrite (total_perm _ _ Hp).
Qed.

(** Without one element. *)
Lemma consistent_remove (it : Iterator) (n : CacheNode) (l : list (Iterator * CacheNode)) (c : FileCache) :
  lru_ c ≡ₚ (it, n) :: l -> consistent c -> total (lru_ c) < 2 ^ 64 ->
  consistent (mkCache l (delete (key n) (index_ c)) (u64 (currentSize_ c - size (data n))) (fresh c)).
Proof.
  intros Hp [H1 H2 H3 H4 H5] Hlt. rewrite Hp in H1, H2. cbn in H1, H2.
  apply list.NoDup_cons in H1 as [Hi H1]. apply list.NoDup_cons in H2 as [Hk H2]. split; cbn; try done.
  - intros e He. apply H3. rewrite Hp. by right.
  - intros k i. rewrite lookup_delete_Some, H4. setoid_rewrite Hp. split.
    + intros (Hne & m & Hin & Hm). exists m. apply elem_of_cons in Hin as [[= -> ->] | Hin]; [congruence | done].
    + intros (m & Hin & Hm). split; [| exists m; split; [by right | done]].
      intros Hnk. apply Hk. rewrite Hnk, <- Hm. by apply (list_elem_of_fmap_2 (fun e => key (snd e)) l (i, m)).
  - rewrite (total_perm _ _ Hp), total_cons in *. cbn in Hlt, H5. rewrite H5.
    pose proof (total_nonneg l). pose proof (size_nonneg (data n)). unfold u64. rewrite Z.mod_small; lia.
Qed.

Lemma index_element (k : bytes) (it : Iterator) (c : FileCache) :
  consistent c -> index_ c !! k = Some it ->
  exists n, deref it (lru_ c) = Some n /\ key n = k /\ lru_ c ≡ₚ (it, n) :: erase it (lru_ c).
Proof.
  intros [H1 _ _ H4 _] Hk. apply H4 in Hk as (n & Hin & Hkey). exists n.
  split; [by apply deref_in |]. split; [done | by apply erase_perm].
Qed.

(** Only elements that were there are left. *)
Definition shrinks (c c' : FileCache) : Prop := forall e, e ∈ lru_ c' -> e ∈ lru_ c.

Lemma invalidate_ok (k : bytes) (c : FileCache) :
  consistent c -> total (lru_ c) < 2 ^ 64 ->
  exists c', invalidate k c = Ok c' /\ consistent c' /\ shrinks c c' /\ total (lru_ c') <= total (lru_ c)
    /\ index_ c' !! k = None /\ fresh c' = fresh c.
Proof.
  intros Hc Hlt. unfold invalidate. destruct (index_ c !! k) as [it |] eqn:Hk; [| exists c; do 3 (split; [by try intros e |]); by split].
  destruct (index_element k it c Hc Hk) as (n & -> & <- & Hp). eexists. split; [done |].
  split; [by apply (consistent_remove it n) |]. unfold evict, shrinks. cbn. split.
  - intros e He. rewrite Hp. by right.
  - split; [| by rewrite lookup_delete_eq]. rewrite (total_perm _ _ Hp), total_cons. cbn. pose proof (size_nonneg (data n)). lia.
Qed.

Lemma makeRoom_ok (fuel : nat) (incoming max : Z) (c : FileCache) :
  consistent c -> 0 <= incoming <= max -> max < 2 ^ 63 -> total (lru_ c) <= max -> (length (lru_ c) <= fuel)%nat ->
  exists c', makeRoom fuel incoming max c = Ok c' /\ consistent c' /\ shrinks c c'
    /\ total (lru_ c') + incoming <= max /\ (forall k, index_ c !! k = None -> index_ c' !! k = None) /\ fresh c' = fresh c.
Proof.
  revert c. induction fuel as [| fuel IH]; intros c Hc Hin Hmax Ht Hf; cbn [makeRoom].
  - assert (Hnil : lru_ c = []) by (apply nil_length_inv; lia). rewrite Hnil. cbn. exists c.
    rewrite Hnil. do 2 (split; [done |]). split; [by intros e |]. split; [rewrite total_nil; lia | done].
  - destruct (last (lru_ c)) as [[it n] |] eqn:Hl.
    + apply last_Some in Hl as [l Hl]. rewrite (co_size _ Hc). pose proof (total_nonneg (lru_ c)).
      unfold u64 at 1. rewrite Z.mod_small by lia. destruct (Z.ltb_spec max (total (lru_ c) + incoming)) as [Hgt | Hle].
      * replace (removelast (lru_ c)) with l by (by rewrite Hl, removelast_last).
        assert (Hp : lru_ c ≡ₚ (it, n) :: l) by (rewrite Hl; symmetry; apply Permutation_cons_append).
        assert (Htl : total (lru_ c) = size (data n) + total l) by (by rewrite (total_perm _ _ Hp), total_cons).
        pose proof (size_nonneg (data n)). pose proof (consistent_remove it n l c Hp Hc ltac:(lia)) as Hc'.
        rewrite (co_size _ Hc) in Hc'.
        destruct (IH _ Hc' Hin Hmax) as (c' & Hr & Hc2 & Hs & Ht' & Hi & Hfr).
        -- cbn. lia.
        -- cbn. rewrite Hl, length_app in Hf. simpl in Hf. lia.
        -- exists c'. split; [exact Hr |]. split; [done |]. split; [| split; [done | split; [| done]]].
           ++ intros e He. apply Hs in He. cbn in He. rewrite Hp. by right.
           ++ intros k Hk. apply Hi. cbn. by apply lookup_delete_None; right.
      * exists c. do 2 (split; [done |]). split; [by intros e |]. split; [lia | done].
    + apply last_None in Hl. exists c. rewrite Hl. do 2 (split; [done |]). split; [by intros e |]. split; [rewrite total_nil; lia | done].
Qed.

Lemma put_ok (n : CacheNode) (max : Z) (c : FileCache) :
  consistent c -> size (data n) <= max -> max < 2 ^ 63 -> total (lru_ c) <= max ->
  exists c', put n max c = Ok (n, c') /\ consistent c' /\ total (lru_ c') <= max
    /\ forall e, e ∈ lru_ c' -> snd e = n \/ (e ∈ lru_ c /\ key (snd e) <> key n).
Proof.
  intros Hc Hn Hmax Ht. pose proof (size_nonneg (data n)). unfold put.
  destruct (invalidate_ok (key n) c Hc ltac:(lia)) as (c1 & -> & Hc1 & Hs1 & Ht1 & Hi1 & Hf1). cbn [obind].
  destruct (makeRoom_ok (length (lru_ c1)) (size (data n)) max c1 Hc1 ltac:(lia) Hmax ltac:(lia) ltac:(lia))
    as (c2 & -> & Hc2 & Hs2 & Ht2 & Hi2 & Hf2). cbn [obind]. rewrite (Hi2 _ Hi1).
  eexists. split; [done |]. pose proof (Hi2 _ Hi1) as Hnone. destruct Hc2 as [H1 H2 H3 H4 H5]. cbn.
  assert (Hkey : forall e, e ∈ lru_ c2 -> key (snd e) <> key n).
  { intros [i m] He Hk. assert (Hx : index_ c2 !! key n = Some i) by (apply H4; by exists m). congruence. }
  split; [split; cbn | split; [rewrite total_cons; cbn; lia |]].
  - apply list.NoDup_cons. split; [| done]. intros (e & Hfst & He)%list_elem_of_fmap. specialize (H3 e He). lia.
  - apply list.NoDup_cons. split; [| done]. intros (e & Hk & He)%list_elem_of_fmap. by apply (Hkey e).
  - intros e [-> | He]%elem_of_cons; cbn; [lia |]. specialize (H3 e He). lia.
  - intros k it. rewrite lookup_insert_Some, H4. split.
    + intros [[<- <-] | (Hne & m & Hin & Hm)]; [exists n; split; [by left | done] | exists m; split; [by right | done]].
    + intros (m & [[= -> ->] | Hin]%elem_of_cons & Hm); [by left |]. right. split; [| by exists m].
      intros Hk. apply (Hkey (it, m) Hin). cbn. congruence.
  - rewrite total_cons, H5. cbn. pose proof (total_nonneg (lru_ c2)). unfold u64. rewrite Z.mod_small by lia. lia.
  - intros e [-> | He]%elem_of_cons; [by left |]. right. split; [by apply Hs1, Hs2 | by apply Hkey].
Qed.

Lemma get_ok (now : Z) (k : bytes) (c : FileCache) :
  consistent c -> total (lru_ c) < 2 ^ 64 ->
  exists o c', get now k c = Ok (o, c') /\ consistent c' /\ shrinks c c' /\ total (lru_ c') <= total (lru_ c)
    /\ (forall n, o = Some n -> key n = k /\ now <= expire_at n /\ exists it, (it, n) ∈ lru_ c).
Proof.
  intros Hc Hlt. unfold get. destruct (index_ c !! k) as [it |] eqn:Hk.
  - destruct (index_element k it c Hc Hk) as (n & -> & <- & Hp). destruct (Z.ltb_spec (expire_at n) now) as [Hx | Hx].
    + eexists None, _. split; [done |]. split; [by apply (consistent_remove it n) |]. split; [| split; [| done]].
      * intros e He. rewrite Hp. by right.
      * cbn. rewrite (total_perm _ _ Hp), total_cons. cbn. pose proof (size_nonneg (data n)). lia.
    + eexists (Some n), _. split; [done |]. split; [by apply consistent_perm |]. split; [| split].
      * intros e He. by rewrite Hp.
      * cbn. by rewrite (total_perm _ _ Hp).
      * intros m [= <-]. split; [done |]. split; [lia |]. exists it. rewrite Hp. by left.
  - exists None, c. split; [done |]. split; [done |]. split; [by intros e |]. by split.
Qed.

(** What was just stored is there, until it expires. *)
Lemma put_get (n : CacheNode) (max now : Z) (c c' : FileCache) :
  consistent c -> size (data n) <= max -> max < 2 ^ 63 -> total (lru_ c) <= max ->
  put n max c = Ok (n, c') -> now <= expire_at n -> exists c2, get now (key n) c' = Ok (Some n, c2).
Proof.
  intros Hc Hn Hmax Ht Hput Hnow. destruct (put_ok n max c Hc Hn Hmax Ht) as (c1 & H1 & Hc1 & _).
  rewrite Hput in H1. injection H1 as <-. revert Hput. unfold put.
  destruct (invalidate (key n) c) as [d | | |]; cbn [obind]; try done.
  destruct (makeRoom _ _ _ d) as [e | | |]; cbn [obind]; try done. intros [= Hc'].
  assert (Hin : (fresh e, n) ∈ lru_ c') by (rewrite <- Hc'; by left).
  assert (Hk : index_ c' !! key n = Some (fresh e)) by (apply (co_index _ Hc1); by exists n).
  unfold get. rewrite Hk, (deref_in _ n _ (co_ids _ Hc1) Hin), (proj2 (Z.ltb_ge _ _) Hnow). by eexists.
Qed.

(** ** The cache as a map that forgets *)

(** What the handler asks of a cache. *)
Inductive Op : Type :=
| Get (now : Z) (k : bytes)
| Put (n : CacheNode)
| Invalidate (k : bytes).

Definition apply (max_cache_size : Z) (op : Op) (c : FileCache) : outcome (option CacheNode * FileCache) :=
  match op with
  | Get now k => get now k c
  | Put n => let! (m, c) := put n max_cache_size c in Ok (Some m, c)
  | Invalidate k => let! c := invalidate k c in Ok (None, c)
  end.

Fixpoint run (max_cache_size : Z) (ops : list Op) (c : FileCache) : outcome (list (option CacheNode) * FileCache) :=
  match ops with
  | [] => Ok ([], c)
  | op :: ops' =>
      let! (o, c) := apply max_cache_size op c in
      let! (os, c) := run max_cache_size ops' c in
      Ok (o :: os, c)
  end.

(** A map from a key to what was last put under it. *)
Definition stored (op : Op) (m : gmap bytes CacheNode) : gmap bytes CacheNode :=
  match op with
  | Get _ _ => m
  | Put n => <[key n := n]> m
  | Invalidate k => delete k m
  end.

(** A cache may forget an entry; it never answers with another one. *)
Definition answers (m : gmap bytes CacheNode) (op : Op) (o : option CacheNode) : Prop :=
  match op with
  | Get now k => forall n, o = Some n -> m !! k = Some n /\ now <= expire_at n
  | Put n => o = Some n
  | Invalidate _ => o = None
  end.

Fixpoint answers_all (m : gmap bytes CacheNode) (ops : list Op) (os : list (option CacheNode)) : Prop :=
  match ops, os with
  | [], [] => True
  | op :: ops', o :: os' => answers m op o /\ answers_all (stored op m) ops' os'
  | _, _ => False
  end.

Definition fits (max_cache_size : Z) (op : Op) : Prop :=
  match op with Put n => size (data n) <= max_cache_size | _ => True end.

(** What relates a cache to the map. *)
Definition remembers (max : Z) (m : gmap bytes CacheNode) (c : FileCache) : Prop :=
  consistent c /\ total (lru_ c) <= max /\ forall it n, (it, n) ∈ lru_ c -> m !! key n = Some n.

Lemma apply_ok (max : Z) (op : Op) (m : gmap bytes CacheNode) (c : FileCache) :
  0 <= max < 2 ^ 63 -> fits max op -> remembers max m c ->
  exists o c', apply max op c = Ok (o, c') /\ answers m op o /\ remembers max (stored op m) c'.
Proof.
  intros Hmax Hfit (Hc & Ht & Hm). destruct op as [now k | n | k]; cbn [apply fits] in *.
  - destruct (get_ok now k c Hc ltac:(lia)) as (o & c' & -> & Hc' & Hs & Ht' & Ho). exists o, c'. split; [done |]. split.
    + intros n Hn. destruct (Ho n Hn) as (<- & Hx & it & Hin). split; [by apply (Hm it) | done].
    + split; [done |]. split; [lia |]. intros it n Hin. by apply (Hm it), Hs.
  - destruct (put_ok n max c Hc Hfit ltac:(lia) Ht) as (c' & -> & Hc' & Ht' & Hin'). cbn [obind]. exists (Some n), c'.
    split; [done |]. split; [done |]. split; [done |]. split; [done |]. intros it e He. cbn.
    destruct (Hin' _ He) as [<- | [Hin Hne]]; cbn; [by rewrite lookup_insert_eq |].
    rewrite lookup_insert_ne by (by cbn in Hne; congruence). by apply (Hm it).
  - destruct (invalidate_ok k c Hc ltac:(lia)) as (c' & -> & Hc' & Hs & Ht' & Hi & _). cbn [obind]. exists None, c'.
    split; [done |]. split; [done |]. split; [done |]. split; [lia |]. intros it n Hin. cbn.
    rewrite lookup_delete_ne; [by apply (Hm it), Hs |]. intros ->.
    assert (Hx : index_ c' !! key n = Some it) by (apply (co_index _ Hc'); by exists n). congruence.
Qed.

(** Whatever is asked of a file cache, as long as no entry is larger than
    the cache may be (which [staticFiles] ensures before it stores one), no
    iterator dangles, every answer is what was last put under the key and has
    not expired, the index and the list name the same entries, and the entries
    never take more room than the cache may. *)
Theorem file_cache_refines (max : Z) (ops : list Op) (Hmax : 0 <= max < 2 ^ 63) (Hfit : Forall (fits max) ops) :
  exists os c, run max ops newCache = Ok (os, c) /\ answers_all ∅ ops os /\ consistent c /\ currentSize_ c <= max.
Proof.
  assert (Hgo : forall c m, remembers max m c ->
    exists os c', run max ops c = Ok (os, c') /\ answers_all m ops os /\ consistent c' /\ currentSize_ c' <= max).
  { induction Hfit as [| op ops Hop _ IH]; intros c m Hr; cbn [run].
    - destruct Hr as (Hc & Ht & _). exists [], c. rewrite (co_size _ Hc). by split; [| split; [| split]].
    - destruct (apply_ok max op m c Hmax Hop Hr) as (o & c1 & -> & Ho & Hr1). cbn [obind].
      destruct (IH c1 _ Hr1) as (os & c2 & -> & Hos & Hc2). cbn [obind]. exists (o :: os), c2. by split; [| split; [split |]]. }
  apply (Hgo newCache ∅). split; [split |]; cbn; try done; try constructor.
  - intros e He. by apply elem_of_nil in He.
  - by rewrite lookup_empty.
  - intros (n & Hin & _). by apply elem_of_nil in Hin.
  - rewrite total_nil. lia.
  - intros it n Hin. by apply elem_of_nil in Hin.
Qed.

Definition example_node (k d : string) (expire : Z) : CacheNode := mkNode (str k) (str d) [] [] [] [] expire.

Definition example_ops : list Op :=
  [Put (example_node "/a" "aaaa" 50); Put (example_node "/b" "bbbb" 50); Get 10 (str "/a");
   Put (example_node "/c" "cccc" 50); Get 20 (str "/b"); Get 20 (str "/a"); Get 60 (str "/c")].

(** Room for two entries: the third takes the place of the one not asked for. *)
Lemma file_cache_refines_witness :
  (exists os c, run 10 example_ops newCache = Ok (os, c) /\ answers_all ∅ example_ops os /\ consistent c
    /\ currentSize_ c <= 10) /\
  (let! (os, _) := run 10 example_ops newCache in Ok (map (option_map data) os))
    = Ok [Some (str "aaaa"); Some (str "bbbb"); Some (str "aaaa"); Some (str "cccc"); None; Some (str "aaaa"); None].
Proof.
  split; [| by vm_compute].
  apply (file_cache_refines 10 example_ops); [lia |]. repeat constructor; cbn; vm_compute; congruence.
Defined.
