(* ===== verification/StaticFiles.v ===== *)
(** Serving files, [staticFiles] of
    src/extensions/http/src/StaticFiles.cc.  The file system and the clocks are
    arguments; what the handler computes with [std::filesystem::path], which
    does not touch the disk, is written out. *)

From Stdlib Require Import ZArith Lia String Strings.Byte.
From stdpp Require Import base numbers option list gmap.
From S2P Require Import Prelude CxxStd Split OrdMap HttpTypes HttpOutgoing FileCache.
Open Scope Z_scope.

(** ** Paths

    Every path the handler computes with is absolute: it is the list of its
    names, the last of which is empty when the path ends with a slash. *)

Abbreviation path := (list bytes).

Definition slash : byte := chr "/".
Definition dot : bytes := str ".".
Definition dotdot : bytes := str "..".

(** [path::string()] *)
Definition path_string (p : path) : bytes := slash :: join slash p.

(** A C string ends at the first NUL. *)
Fixpoint c_str (s : bytes) : bytes :=
  match s with
  | [] => []
  | b :: s' => if Byte.eqb x00 b then [] else b :: c_str s'
  end.

(** [root / relPath], as text. *)
Definition path_div (root : path) (rel : bytes) : bytes :=
  match rel with
  | b :: _ =>
      if Byte.eqb slash b then rel
      else if decide (root = [] \/ last root = Some []) then path_string root ++ rel
      else path_string root ++ [slash] ++ rel
  | [] => if decide (root = [] \/ last root = Some []) then path_string root else path_string root ++ [slash]
  end.

(** [p /= name] *)
Definition path_append (p : path) (name : bytes) : path :=
  if decide (last p = Some []) then removelast p ++ [name] else p ++ [name].

(** [path(s).filename()]: what follows the last slash. *)
Fixpoint filename (s : bytes) : bytes :=
  match s with
  | [] => []
  | b :: s' => if existsb (Byte.eqb slash) s then filename s' else s
  end.

(** The text before the last dot and the text from it. *)
Fixpoint last_dot (s : bytes) : option (bytes * bytes) :=
  match s with
  | [] => None
  | b :: s' =>
      match last_dot s' with
      | Some (stem, ext) => Some (b :: stem, ext)
      | None => if Byte.eqb (chr ".") b then Some ([], s) else None
      end
  end.

(** [p.extension().string()] *)
Definition extension (p : path) : bytes :=
  let name := default [] (last p) in
  if decide (name = dot \/ name = dotdot) then []
  else match last_dot name with
       | Some (_ :: _, ext) => ext
       | _ => []
       end.

(** [std::mismatch] *)
Fixpoint mismatch (a b : path) : path * path :=
  match a, b with
  | x :: a', y :: b' => if decide (x = y) then mismatch a' b' else (a, b)
  | _, _ => (a, b)
  end.

(** The names of [b], less its dot-dots. *)
Fixpoint depth (b : path) : Z :=
  match b with
  | [] => 0
  | x :: b' => (if decide (x = dotdot) then -1 else if decide (x = [] \/ x = dot) then 0 else 1) + depth b'
  end.

(** [p.lexically_relative(base)]; the empty path is the empty list. *)
Definition lexically_relative (p base : path) : path :=
  match mismatch p base with
  | ([], []) => [dot]
  | (a, b) =>
      let n := depth b in
      if n <? 0 then []
      else if (n =? 0) && match a with [] => true | x :: _ => bool_decide (x = []) end then [dot]
      else replicate (Z.to_nat n) dotdot ++ a
  end.

(** ** Options and environment *)

Record StaticFilesOptions : Type := mkOptions {
  index_file : bytes;
  enable_etag : bool;
  max_age : Z;
  mime_types : gmap bytes bytes;
  accept_encodings : gmap bytes bytes;
  cache_ttl : Z;
  cache_max_file_size : Z;
  cache_max_cache_size : Z;
  cache_header : bytes
}.

Definition defaultMimeTypes : gmap bytes bytes :=
  list_to_map (map (fun p => (str (fst p), str (snd p)))
    [(".html", "text/html; charset=utf-8"); (".htm", "text/html; charset=utf-8"); (".css", "text/css; charset=utf-8");
     (".js", "text/javascript; charset=utf-8"); (".mjs", "text/javascript; charset=utf-8");
     (".json", "application/json"); (".xml", "application/xml"); (".txt", "text/plain; charset=utf-8");
     (".md", "text/markdown; charset=utf-8"); (".svg", "image/svg+xml"); (".png", "image/png");
     (".jpg", "image/jpeg"); (".jpeg", "image/jpeg"); (".gif", "image/gif"); (".ico", "image/x-icon");
     (".webp", "image/webp"); (".woff", "font/woff"); (".woff2", "font/woff2"); (".ttf", "font/ttf");
     (".otf", "font/otf"); (".pdf", "application/pdf"); (".wasm", "application/wasm")]%string).

Definition defaultAcceptEncodings : gmap bytes bytes :=
  list_to_map [(str "br", str "br"); (str "gzip", str "gz")].

Definition defaultOptions : StaticFilesOptions :=
  mkOptions (str "index.html") true 3600 defaultMimeTypes defaultAcceptEncodings 0 (1024 * 1024) (64 * 1024 * 1024) [].

Record Stat : Type := mkStat {
  st_mtime : Z;
  st_size : Z;
  st_regular : bool
}.

(** What the handler asks of the system: the canonical form of a path, whether
    a path is a directory, a file's status and its contents, a time as
    [gmtime_r] and [strftime] write it, the steady clock (in nanoseconds) when
    the cache is asked and when an entry is stored, and the first entry of an
    unordered map. *)
Record Env : Type := mkEnv {
  weakly_canonical : bytes -> path;
  is_directory : bytes -> bool;
  stat : bytes -> option Stat;
  fopen : bytes -> option bytes;
  strftime : Z -> bytes;
  now_get : Z;
  now_put : Z;
  first_param : gmap bytes bytes -> bytes
}.

(** ** Helpers *)

Definition kChunkSize : Z := 65536.

Definition mimeType (ext : bytes) (mime_types : gmap bytes bytes) : bytes :=
  default (str "application/octet-stream") (mime_types !! ext).

Fixpoint dropSpaces (s : bytes) : bytes :=
  match s with
  | b :: s' => if Byte.eqb x20 b then dropSpaces s' else s
  | [] => []
  end.

(** One round of [splitTokens]: the parameters go, then the blanks. *)
Definition trimToken (token : bytes) : bytes :=
  rev (dropSpaces (rev (fst (cut (chr ";") (dropSpaces token))))).

Fixpoint splitTokensLoop (fuel : nat) (sv : bytes) : list bytes :=
  match sv, fuel with
  | [], _ | _, O => []
  | _, S fuel' =>
      let '(token, rest) := cut (chr ",") sv in
      let t := trimToken token in
      (if decide (t = []) then [] else [t])
      ++ match rest with None => [] | Some sv' => splitTokensLoop fuel' sv' end
  end.

(** Each round takes at least the comma away. *)
Definition splitTokens (sv : bytes) : list bytes := splitTokensLoop (length sv) sv.

(** [snprintf] into 32 characters, the last of which is the NUL. *)
Definition makeETag (mtime size : Z) : bytes :=
  take 31 (str (String.String (Ascii.ascii_of_nat 34) EmptyString) ++ to_hex (u64 mtime) ++ str "-" ++ to_hex (u64 size)
    ++ str (String.String (Ascii.ascii_of_nat 34) EmptyString)).

(** ** The handler *)

Section handler.
Variables (env : Env) (root : path) (opts : StaticFilesOptions) (cacheControlValue : bytes).

Definition relPathOf (pathParams : gmap bytes bytes) : bytes :=
  let relPath :=
    if decide (pathParams = ∅) then []
    else match pathParams !! str "path" with
         | Some v => v
         | None => first_param env pathParams
         end in
  match relPath with
  | b :: rest => if Byte.eqb slash b then rest else relPath
  | [] => []
  end.

(** The path asked for; a directory stands for its index file. *)
Definition resolve (pathParams : gmap bytes bytes) : path :=
  let filePath := weakly_canonical env (path_div root (relPathOf pathParams)) in
  if is_directory env (c_str (path_string filePath)) then path_append filePath (filename (index_file opts))
  else filePath.

(** The path traversal check. *)
Definition forbidden (filePath : path) : bool :=
  match lexically_relative filePath root with
  | [] => true
  | x :: _ => bool_decide (x = dotdot)
  end.

Definition regular (name : bytes) : option Stat :=
  match stat env (c_str name) with
  | Some st => if st_regular st then Some st else None
  | None => None
  end.

(** Not modified since the client's copy: the answer is 304, or the response
    with the validators the client may use next time. *)
Definition notModified (req : HttpRequest) (st : Stat) (resp : ServerResponse) :
    ServerResponse + (ServerResponse * bytes * bytes) :=
  let lastModified := strftime env (st_mtime st) in
  let ims := getHeaderCode NC_IfModifiedSince (headers req) in
  if bool_decide (ims <> []) && bool_decide (ims = lastModified) then inl (setStatus 304 [] resp)
  else
    let resp := setHeaderCode NC_LastModified lastModified resp in
    if enable_etag opts then
      let etag := makeETag (st_mtime st) (st_size st) in
      let ifNoneMatch := getHeaderCode NC_IfNoneMatch (headers req) in
      if bool_decide (ifNoneMatch <> []) && bool_decide (ifNoneMatch = etag) then inl (setStatus 304 [] resp)
      else inr (setHeader (str "ETag") etag resp, lastModified, etag)
    else inr (resp, lastModified, []).

(** The first encoding the client takes for which there is a file. *)
Fixpoint precompressed (tokens : list bytes) (filePath : bytes) (st : Stat) : bytes * Stat * bytes :=
  match tokens with
  | [] => (filePath, st, [])
  | token :: tokens' =>
      match accept_encodings opts !! token with
      | None => precompressed tokens' filePath st
      | Some ext =>
          let candidate := filePath ++ str "." ++ ext in
          match regular candidate with
          | Some cst => (candidate, cst, token)
          | None => precompressed tokens' filePath st
          end
      end
  end.

Definition chooseEncoding (req : HttpRequest) (filePath : bytes) (st : Stat) : bytes * Stat * bytes :=
  let acceptEncoding := getHeaderCode NC_AcceptEncoding (headers req) in
  if bool_decide (acceptEncoding <> []) && bool_decide (accept_encodings opts <> ∅)
  then precompressed (splitTokens acceptEncoding) filePath st
  else (filePath, st, []).

Definition setUnlessEmpty (set : bytes -> ServerResponse -> ServerResponse) (v : bytes) (resp : ServerResponse) :
    ServerResponse :=
  if decide (v = []) then resp else set v resp.

(** [HIT] or [MISS], if a header is configured for it. *)
Definition setCacheHeader (v : bytes) (resp : ServerResponse) : ServerResponse :=
  if decide (cache_header opts = []) then resp else setHeader (cache_header opts) v resp.

Definition isHead (req : HttpRequest) : bool := method req =? Head.

Definition serveCached (req : HttpRequest) (cached : CacheNode) (resp : ServerResponse) : ServerResponse :=
  let resp := setStatus 200 [] resp in
  let resp := setHeaderCode NC_ContentType (mime_type cached) resp in
  let resp := setHeaderCode NC_LastModified (last_modified cached) resp in
  let resp := setUnlessEmpty (setHeader (str "ETag")) (etag cached) resp in
  let resp := setUnlessEmpty (setHeaderCode NC_ContentEncoding) (content_encoding cached) resp in
  let resp := setHeaderCode NC_ContentLength (to_string (size (data cached))) resp in
  let resp := setHeaderCode NC_CacheControl cacheControlValue resp in
  let resp := setCacheHeader (str "HIT") resp in
  if isHead req then resp else setBody (data cached) resp.

(** The loop over the file: [setBody] takes the place of what was there. *)
Fixpoint sendChunks (fuel : nat) (file : bytes) (remaining : Z) (resp : ServerResponse) : outcome ServerResponse :=
  if 0 <? remaining then
    let buf := take (Z.to_nat (Z.min remaining kChunkSize)) file in
    match buf, fuel with
    | [], _ => Ok resp
    | _, O => Diverge
    | _, S fuel' => sendChunks fuel' (drop (length buf) file) (remaining - size buf) (setBody buf resp)
    end
  else Ok resp.

Definition serveFile (req : HttpRequest) (filePath : path) (actualPath : bytes) (st : Stat)
    (selectedEncoding lastModified etag : bytes) (cacheEnabled : bool) (cache : FileCache) (resp : ServerResponse) :
    outcome (ServerResponse * FileCache) :=
  let resp := setStatus 200 [] resp in
  let mimeTypeStr := mimeType (extension filePath) (mime_types opts) in
  let resp := setHeaderCode NC_ContentType mimeTypeStr resp in
  let resp := setHeaderCode NC_ContentLength (to_string (st_size st)) resp in
  let resp := setUnlessEmpty (setHeaderCode NC_ContentEncoding) selectedEncoding resp in
  let resp := setHeaderCode NC_CacheControl cacheControlValue resp in
  if isHead req then Ok (resp, cache)
  else
    match fopen env (c_str actualPath) with
    | None => Ok (setStatus 500 [] resp, cache)
    | Some file =>
        if cacheEnabled then
          let resp := setCacheHeader (str "MISS") resp in
          if size file <? u64 (st_size st) then Ok (setStatus 500 [] resp, cache)
          else
            let fileData := take (Z.to_nat (u64 (st_size st))) file in
            let! (node, cache) :=
              put (mkNode actualPath fileData etag lastModified mimeTypeStr selectedEncoding
                     (now_put env + cache_ttl opts * 1000000000)) (cache_max_cache_size opts) cache in
            Ok (setBody (data node) resp, cache)
        else
          let! resp := sendChunks (length file) file (u64 (st_size st)) resp in
          Ok (resp, cache)
    end.

Definition handleFile (req : HttpRequest) (filePath : path) (st : Stat) (cache : FileCache) (resp : ServerResponse) :
    outcome (ServerResponse * FileCache) :=
  match notModified req st resp with
  | inl resp => Ok (resp, cache)
  | inr (resp, lastModified, etag) =>
      let '(actualPath, st, selectedEncoding) := chooseEncoding req (path_string filePath) st in
      let cacheEnabled := (0 <? cache_ttl opts) && (u64 (st_size st) <=? cache_max_file_size opts) in
      let miss := serveFile req filePath actualPath st selectedEncoding lastModified etag cacheEnabled in
      if cacheEnabled then
        let! (cached, cache) := get (now_get env) actualPath cache in
        match cached with
        | None => miss cache resp
        | Some cached =>
            let fresh :=
              if enable_etag opts then bool_decide (FileCache.etag cached = etag)
              else bool_decide (last_modified cached = lastModified) in
            if fresh then Ok (serveCached req cached resp, cache)
            else let! cache := invalidate actualPath cache in miss cache resp
        end
      else miss cache resp
  end.

Definition handle (pathParams : gmap bytes bytes) (req : HttpRequest) (cache : FileCache) (resp : ServerResponse) :
    outcome (ServerResponse * FileCache) :=
  let filePath := resolve pathParams in
  if forbidden filePath then Ok (setStatus 403 [] resp, cache)
  else
    match regular (path_string filePath) with
    | None => Ok (setStatus 404 [] resp, cache)
    | Some st => handleFile req filePath st cache resp
    end.
End handler.

(** No file larger than the cache is cached. *)
Definition clampOptions (opts : StaticFilesOptions) : StaticFilesOptions :=
  mkOptions (index_file opts) (enable_etag opts) (max_age opts) (mime_types opts) (accept_encodings opts)
    (cache_ttl opts) (Z.min (cache_max_file_size opts) (cache_max_cache_size opts)) (cache_max_cache_size opts)
    (cache_header opts).

Definition cacheControl (opts : StaticFilesOptions) : bytes :=
  if 0 <? max_age opts then str "public, max-age=" ++ to_string (max_age opts) else str "no-cache".

(** [staticFiles] prepares the root and the options once ([canonicalRoot] is
    the canonical form of the root when the handler was made), then handles
    requests. *)
Definition staticFiles (canonicalRoot : path) (opts : StaticFilesOptions) (env : Env) :
    gmap bytes bytes -> HttpRequest -> FileCache -> ServerResponse -> outcome (ServerResponse * FileCache) :=
  handle env canonicalRoot (clampOptions opts) (cacheControl opts).
