(* ===== verification/StaticFilesSpec.v ===== *)
(** What [staticFiles] promises: the files it opens lie under its root, its
    cache stays sound, and the body of an answer is the file, but for a large
    one that is not cached. *)

From Stdlib Require Import ZArith Lia String Strings.Byte.
From stdpp Require Import base numbers option list gmap.
From S2P Require Import Prelude CxxStd Split OrdMap HttpTypes HttpOutgoing FileCache StaticFiles.
Open Scope Z_scope.

(** ** Paths under the root *)

Definition no_nul (s : bytes) : Prop := x00 ∉ s.

(** A path in normal form: its names are names, neither a dot nor a dot-dot. *)
Definition normal (p : path) : Prop :=
  Forall (fun x => x <> dot /\ x <> dotdot /\ (slash ∉ x) /\ no_nul x) p.

(** A path below [root] (whose trailing slash does not count). *)
Definition below (root p : path) : Prop :=
  exists r e rest, root = r ++ e /\ Forall (fun x => x = []) e /\ p = r ++ rest
    /\ Forall (fun x => x <> dotdot /\ (slash ∉ x) /\ no_nul x) rest.

(** The name of a file below [root], or of its compressed form. *)
Definition servable (root : path) (opts : StaticFilesOptions) (name : bytes) : Prop :=
  exists p, below root p /\
    (name = path_string p \/ exists token ext, accept_encodings opts !! token = Some ext
                                               /\ name = path_string p ++ str "." ++ ext).

Lemma mismatch_prefix (p b : path) : exists c, p = c ++ fst (mismatch p b) /\ b = c ++ snd (mismatch p b).
Proof.
  revert b. induction p as [| x p IH]; intros [| y b]; cbn; try (by exists []).
  destruct (decide (x = y)) as [-> | Hne]; [| by exists []].
  destruct (IH b) as (c & H1 & H2). exists (y :: c). cbn. by rewrite <- H1, <- H2.
Qed.

Lemma depth_normal (b : path) : normal b -> 0 <= depth b /\ (depth b = 0 -> Forall (fun x => x = []) b).
Proof.
  induction 1 as [| x b (Hd & Hdd & _) _ [IH1 IH2]]; cbn [depth]; [by split; [lia | constructor] |].
  rewrite decide_False by done. destruct (decide (x = [] \/ x = dot)) as [[-> | ?] | Hne]; [| done |].
  - split; [lia |]. intros H. constructor; [done | apply IH2; lia].
  - split; lia.
Qed.

Lemma filename_no_slash (s : bytes) : slash ∉ filename s.
Proof.
  induction s as [| b s IH]; [by intros H%elem_of_nil |]. cbn [filename].
  destruct (existsb (Byte.eqb slash) (b :: s)) eqn:He; [done |]. intros Hin.
  assert (Hx : existsb (Byte.eqb slash) (b :: s) = true); [| congruence].
  apply existsb_exists. exists slash. split; [by apply list_elem_of_In | done].
Qed.

(** What passes the traversal check is below the root. *)
Lemma allowed_below (root p : path) :
  normal root -> Forall (fun x => x <> dotdot /\ (slash ∉ x) /\ no_nul x) p -> forbidden root p = false -> below root p.
Proof.
  intros Hroot Hp. unfold forbidden, lexically_relative. destruct (mismatch_prefix p root) as (c & Hpc & Hrc).
  destruct (mismatch p root) as [a b]. cbn in Hpc, Hrc.
  assert (Ha : Forall (fun x => x <> dotdot /\ (slash ∉ x) /\ no_nul x) a) by (rewrite Hpc in Hp; by apply Forall_app in Hp as [_ Hp]).
  assert (Hb : normal b) by (unfold normal in Hroot; rewrite Hrc in Hroot; by apply Forall_app in Hroot as [_ Hroot]).
  destruct (depth_normal b Hb) as [Hn Hz]. intros Hf. exists c, b, a. split; [done |].
  assert (H0 : depth b = 0); [| by split; [apply Hz | split]].
  assert (Hgo : forall q : path, q = (if depth b <? 0 then []
      else if (depth b =? 0) && match a with [] => true | x :: _ => bool_decide (x = []) end then [dot]
      else replicate (Z.to_nat (depth b)) dotdot ++ a) ->
    match q with [] => true | x :: _ => bool_decide (x = dotdot) end = false -> depth b = 0).
  { intros q -> Hq. rewrite (proj2 (Z.ltb_ge _ _) Hn) in Hq. destruct (Z.eqb_spec (depth b) 0) as [| Hne]; [done |]. cbn in Hq.
    replace (Z.to_nat (depth b)) with (S (Z.to_nat (depth b) - 1)) in Hq by lia. cbn in Hq. by rewrite bool_decide_eq_true_2 in Hq. }
  destruct a as [| x a]; [destruct b as [| y b] |]; [done | |]; by apply (Hgo _ eq_refl Hf).
Qed.

(** ** Confinement *)

(** Two systems with the same directories and clocks, and the same servable
    files. *)
Record agree (root : path) (opts : StaticFilesOptions) (e1 e2 : Env) : Prop := {
  ag_canonical s : weakly_canonical e1 s = weakly_canonical e2 s;
  ag_directory s : is_directory e1 s = is_directory e2 s;
  ag_time t : strftime e1 t = strftime e2 t;
  ag_get : now_get e1 = now_get e2;
  ag_put : now_put e1 = now_put e2;
  ag_param ps : first_param e1 ps = first_param e2 ps;
  ag_stat name : servable root opts name -> stat e1 (c_str name) = stat e2 (c_str name);
  ag_open name : servable root opts name -> fopen e1 (c_str name) = fopen e2 (c_str name)
}.

Section confined.
Variables (root : path) (opts : StaticFilesOptions) (e1 e2 : Env) (cc : bytes).
Hypothesis Hagree : agree root opts e1 e2.

Lemma relPathOf_agree (ps : gmap bytes bytes) : relPathOf e1 ps = relPathOf e2 ps.
Proof. unfold relPathOf. by rewrite (ag_param _ _ _ _ Hagree). Qed.

Lemma resolve_agree (ps : gmap bytes bytes) : resolve e1 root opts ps = resolve e2 root opts ps.
Proof. unfold resolve. by rewrite relPathOf_agree, (ag_canonical _ _ _ _ Hagree), (ag_directory _ _ _ _ Hagree). Qed.

Lemma regular_agree (name : bytes) : servable root opts name -> regular e1 name = regular e2 name.
Proof. intros H. unfold regular. by rewrite (ag_stat _ _ _ _ Hagree). Qed.

Variable p : path.
Hypothesis Hp : below root p.

Lemma servable_path : servable root opts (path_string p).
Proof. exists p. split; [done | by left]. Qed.

Lemma servable_candidate (token ext : bytes) :
  accept_encodings opts !! token = Some ext -> servable root opts (path_string p ++ str "." ++ ext).
Proof. intros H. exists p. split; [done | right; by exists token, ext]. Qed.

Lemma precompressed_agree (tokens : list bytes) (st : Stat) :
  precompressed e1 opts tokens (path_string p) st = precompressed e2 opts tokens (path_string p) st
  /\ servable root opts (fst (fst (precompressed e1 opts tokens (path_string p) st))).
Proof.
  induction tokens as [| t ts IH]; cbn [precompressed]; [split; [done | exact servable_path] |].
  destruct (accept_encodings opts !! t) as [ext |] eqn:Ht; [| done].
  rewrite <- (regular_agree _ (servable_candidate t ext Ht)).
  destruct (regular e1 _); [| done]. split; [done | by apply (servable_candidate t)].
Qed.

Lemma chooseEncoding_agree (req : HttpRequest) (st : Stat) :
  chooseEncoding e1 opts req (path_string p) st = chooseEncoding e2 opts req (path_string p) st
  /\ servable root opts (fst (fst (chooseEncoding e1 opts req (path_string p) st))).
Proof.
  unfold chooseEncoding. destruct (_ && _); [apply precompressed_agree | split; [done | exact servable_path]].
Qed.

Lemma serveFile_agree (req : HttpRequest) (name : bytes) (st : Stat) (enc lm etag : bytes) (b : bool) (c : FileCache)
    (resp : ServerResponse) :
  servable root opts name ->
  serveFile e1 opts cc req p name st enc lm etag b c resp = serveFile e2 opts cc req p name st enc lm etag b c resp.
Proof. intros H. unfold serveFile. by rewrite (ag_open _ _ _ _ Hagree name H), (ag_put _ _ _ _ Hagree). Qed.

Lemma handleFile_agree (req : HttpRequest) (st : Stat) (c : FileCache) (resp : ServerResponse) :
  handleFile e1 opts cc req p st c resp = handleFile e2 opts cc req p st c resp.
Proof.
  unfold handleFile.
  assert (Hnm : notModified e1 opts req st resp = notModified e2 opts req st resp)
    by (unfold notModified; by rewrite (ag_time _ _ _ _ Hagree)).
  rewrite Hnm, (ag_get _ _ _ _ Hagree). destruct (notModified e2 opts req st resp) as [r | [[r lm] etag]]; [done |].
  destruct (chooseEncoding_agree req st) as [He Hs]. rewrite <- He.
  destruct (chooseEncoding e1 opts req (path_string p) st) as [[name cst] enc]. cbn in Hs.
  destruct (_ && _); [| by apply serveFile_agree].
  destruct (get _ _ _) as [[[n |] c1] | | |]; cbn [obind]; try done; [| by apply serveFile_agree].
  destruct (if enable_etag opts then _ else _); [done |].
  destruct (invalidate _ _); cbn [obind]; try done. by apply serveFile_agree.
Qed.
End confined.

(** The system gives paths in normal form; the index file is not a dot-dot. *)
Definition canonical_env (env : Env) : Prop := forall s, no_nul s -> normal (weakly_canonical env s).

Lemma no_nul_app (a b : bytes) : no_nul (a ++ b) <-> no_nul a /\ no_nul b.
Proof. unfold no_nul. rewrite elem_of_app. tauto. Qed.

Lemma normal_string (p : path) : normal p -> no_nul (path_string p).
Proof.
  intros Hp. unfold path_string. apply not_elem_of_cons. split; [done |].
  induction Hp as [| x p (_ & _ & _ & Hx) _ IH]; [by intros H%elem_of_nil |]. cbn [join].
  destruct p as [| y p]; [done |]. apply no_nul_app. split; [done |]. by apply not_elem_of_cons.
Qed.

Lemma path_div_no_nul (root : path) (rel : bytes) : normal root -> no_nul rel -> no_nul (path_div root rel).
Proof.
  intros Hr%normal_string Hrel. assert (Hs : no_nul [slash]) by (by apply not_elem_of_cons; split; [| intros ?%elem_of_nil]).
  unfold path_div. destruct rel as [| b rel]; [destruct (decide _); [done | by apply no_nul_app] |].
  destruct (Byte.eqb slash b); [done |]. destruct (decide _); apply no_nul_app; split; try done. by apply (no_nul_app [slash]).
Qed.

Lemma resolve_names (env : Env) (root : path) (opts : StaticFilesOptions) (ps : gmap bytes bytes) :
  canonical_env env -> normal root -> no_nul (relPathOf env ps) ->
  filename (index_file opts) <> dotdot -> no_nul (filename (index_file opts)) ->
  Forall (fun x => x <> dotdot /\ (slash ∉ x) /\ no_nul x) (resolve env root opts ps).
Proof.
  intros Henv Hroot Hrel Hdd Hnul. pose proof (Henv _ (path_div_no_nul _ _ Hroot Hrel)) as Hn. unfold resolve.
  assert (Hw : Forall (fun x => x <> dotdot /\ (slash ∉ x) /\ no_nul x) (weakly_canonical env (path_div root (relPathOf env ps))))
    by (eapply Forall_impl; [exact Hn | by intros x (_ & H)]).
  destruct (is_directory _ _); [| done].
  assert (Hi : Forall (fun x => x <> dotdot /\ (slash ∉ x) /\ no_nul x) [filename (index_file opts)])
    by (apply Forall_singleton; by split; [| split; [apply filename_no_slash |]]).
  unfold path_append. destruct (decide _) as [Hl |]; apply Forall_app; split; try done.
  apply last_Some in Hl as [l Hl]. rewrite Hl in *. rewrite removelast_last. by apply Forall_app in Hw as [Hw _].
Qed.

Lemma agree_clamp (root : path) (opts : StaticFilesOptions) (e1 e2 : Env) :
  agree root opts e1 e2 -> agree root (clampOptions opts) e1 e2.
Proof. by intros [? ? ? ? ? ? ? ?]; split. Qed.

(** C35: no file outside the root is ever looked at.  Whatever a client asks
    for (dots, slashes, any bytes but NUL), the answer and the cache depend
    only on files below the root and on their compressed forms: two systems
    that agree on these give the same answers. *)
Theorem static_files_confined (root : path) (opts : StaticFilesOptions) (e1 e2 : Env) (ps : gmap bytes bytes)
    (req : HttpRequest) (c : FileCache) (resp : ServerResponse)
    (Hroot : normal root) (Henv : canonical_env e1) (Hrel : no_nul (relPathOf e1 ps))
    (Hindex : filename (index_file opts) <> dotdot /\ no_nul (filename (index_file opts)))
    (Hagree : agree root opts e1 e2) :
  staticFiles root opts e1 ps req c resp = staticFiles root opts e2 ps req c resp.
Proof.
  apply agree_clamp in Hagree. unfold staticFiles, handle. rewrite <- (resolve_agree _ _ _ _ Hagree).
  destruct (forbidden root _) eqn:Hf; [done |].
  assert (Hb : below root (resolve e1 root (clampOptions opts) ps))
    by (apply allowed_below; [done | by apply resolve_names; destruct Hindex | done]).
  rewrite <- (regular_agree _ _ _ _ Hagree _ (servable_path _ (clampOptions opts) _ Hb)).
  destruct (regular e1 _) as [st |]; [| done]. by apply (handleFile_agree root).
Qed.

(** A system with a site under [/www] and a secret elsewhere. *)
Definition example_env (secret : bytes) : Env :=
  mkEnv
    (fun s => if decide (s = str "/www/../etc/key") then [str "etc"; str "key"]
              else if decide (s = str "/www/a.txt") then [str "www"; str "a.txt"] else [str "www"])
    (fun s => bool_decide (s = str "/www"))
    (fun s => if decide (s = str "/www/a.txt") then Some (mkStat 1000 5 true)
              else if decide (s = str "/etc/key") then Some (mkStat 1000 (size secret) true) else None)
    (fun s => if decide (s = str "/www/a.txt") then Some (str "hello")
              else if decide (s = str "/etc/key") then Some secret else None)
    (fun _ => str "Thu, 01 Jan 1970 00:16:40 GMT") 0 0 (fun _ => []).

Definition asks (p : string) : gmap bytes bytes := {[str "path" := str p]}.

Definition get_request : HttpRequest :=
  mkRequest kHttp11 HttpTypes.Get [] [] [] [] [] [] ContentLength 0 true.

Definition status_body (o : outcome (ServerResponse * FileCache)) : outcome (Z * bytes) :=
  let! (r, _) := o in Ok (r_statusCode (data_ r), body_ r).

Lemma example_normal : normal [str "www"] /\ forall secret, canonical_env (example_env secret).
Proof.
  assert (Hn : forall p, forallb (fun x => negb (bool_decide (x = dot)) && negb (bool_decide (x = dotdot))
      && forallb (fun b => negb (Byte.eqb slash b) && negb (Byte.eqb x00 b)) x) p = true -> normal p).
  { intros p Hp. apply Forall_forall. intros x Hx%list_elem_of_In. rewrite forallb_forall in Hp. specialize (Hp x Hx).
    apply andb_prop in Hp as [[H1 H2]%andb_prop H3]. rewrite !negb_true_iff, !bool_decide_eq_false in H1, H2.
    rewrite forallb_forall in H3. split; [done |]. split; [done |].
    split; intros Hin%list_elem_of_In; specialize (H3 _ Hin); by destruct (andb_prop _ _ H3). }
  split; [by apply Hn |]. intros secret s _. cbn. destruct (decide _); [by apply Hn |]. destruct (decide _); by apply Hn.
Qed.

Lemma example_agree (s1 s2 : bytes) : agree [str "www"] defaultOptions (example_env s1) (example_env s2).
Proof.
  assert (Hx : forall name, servable [str "www"] defaultOptions name -> c_str name <> str "/etc/key").
  { intros name (p & (r & e & rest & Hr & He & -> & _) & Hname).
    assert (Hp : exists t, name = str "/www" ++ t).
    { assert (Hr' : r = [str "www"]).
      { destruct r as [| x r]; [cbn in Hr; subst e; by inversion He |]. injection Hr as -> Hr.
        destruct r; [done |]. destruct e; discriminate. }
      subst r. destruct Hname as [-> | (token & ext & _ & ->)]; destruct rest as [| y rest]; eexists; cbn; reflexivity. }
    destruct Hp as [t ->]. cbn. destruct t; cbn; discriminate. }
  split; try done; intros name Hs%Hx; cbn; destruct (decide _); try done; by rewrite !decide_False.
Qed.

(** The secret is not served, whatever it is; the file of the site is. *)
Lemma static_files_confined_witness :
  (forall ps, no_nul (relPathOf (example_env []) ps) ->
    staticFiles [str "www"] defaultOptions (example_env []) ps get_request newCache newServerResponse
      = staticFiles [str "www"] defaultOptions (example_env (str "secret")) ps get_request newCache newServerResponse) /\
  status_body (staticFiles [str "www"] defaultOptions (example_env (str "secret")) (asks "../etc/key") get_request
    newCache newServerResponse) = Ok (403, []) /\
  status_body (staticFiles [str "www"] defaultOptions (example_env (str "secret")) (asks "a.txt") get_request
    newCache newServerResponse) = Ok (200, str "hello").
Proof.
  destruct example_normal as [Hn He]. split; [| split; by vm_compute]. intros ps Hps.
  apply (static_files_confined _ defaultOptions); try done; [| by apply example_agree].
  split; [by vm_compute |]. intros Hin%list_elem_of_In. revert Hin. vm_compute. intuition discriminate.
Defined.

(** ** The cache *)

Definition cache_ok (max : Z) (c : FileCache) : Prop := consistent c /\ total (lru_ c) <= max.

Lemma newCache_ok (max : Z) : 0 <= max -> cache_ok max newCache.
Proof.
  intros Hmax. split; [split |]; cbn; try done; try constructor.
  - intros e He. by apply elem_of_nil in He.
  - by rewrite lookup_empty.
  - intros (n & Hin & _). by apply elem_of_nil in Hin.
Qed.

Lemma cache_put (max : Z) (n : CacheNode) (c : FileCache) :
  0 <= max < 2 ^ 63 -> size (data n) <= max -> cache_ok max c -> exists c', put n max c = Ok (n, c') /\ cache_ok max c'.
Proof.
  intros Hmax Hn [Hc Ht]. destruct (put_ok n max c Hc Hn ltac:(lia) Ht) as (c' & -> & Hc' & Ht' & _).
  by exists c'.
Qed.

Lemma cache_get (max now : Z) (k : bytes) (c : FileCache) :
  0 <= max < 2 ^ 63 -> cache_ok max c -> exists o c', get now k c = Ok (o, c') /\ cache_ok max c'.
Proof.
  intros Hmax [Hc Ht]. destruct (get_ok now k c Hc ltac:(lia)) as (o & c' & -> & Hc' & _ & Ht' & _).
  exists o, c'. split; [done | split; [done | lia]].
Qed.

Lemma cache_invalidate (max : Z) (k : bytes) (c : FileCache) :
  0 <= max < 2 ^ 63 -> cache_ok max c -> exists c', invalidate k c = Ok c' /\ cache_ok max c'.
Proof.
  intros Hmax [Hc Ht]. destruct (invalidate_ok k c Hc ltac:(lia)) as (c' & -> & Hc' & _ & Ht' & _).
  exists c'. split; [done | split; [done | lia]].
Qed.

(** ** The body *)

(** What is left of a file when all its full chunks but the last are gone. *)
Definition lastPiece (file : bytes) : bytes :=
  drop (Z.to_nat (kChunkSize * ((size file - 1) / kChunkSize))) file.

Lemma size_drop (n : nat) (s : bytes) : (n <= length s)%nat -> size (drop n s) = size s - Z.of_nat n.
Proof. intros H. unfold size. rewrite length_drop. lia. Qed.

Lemma setBody_setBody (a b : bytes) (resp : ServerResponse) : setBody b (setBody a resp) = setBody b resp.
Proof. done. Qed.

(** The loop ends, whatever the file holds by then. *)
Lemma sendChunks_ends (fuel : nat) (file : bytes) (remaining : Z) (resp : ServerResponse) :
  (length file <= fuel)%nat -> exists resp', sendChunks fuel file remaining resp = Ok resp'.
Proof.
  revert file remaining resp. induction fuel as [| fuel IH]; intros file remaining resp Hf; cbn [sendChunks].
  - assert (file = []) as -> by (apply nil_length_inv; lia). rewrite take_nil. destruct (0 <? remaining); by eexists.
  - destruct (0 <? remaining); [| by eexists]. destruct (take _ file) as [| b buf] eqn:Hb; [by eexists |].
    apply IH. rewrite length_drop. cbn. lia.
Qed.

(** It leaves the last piece in the response. *)
Lemma sendChunks_last (fuel : nat) (file : bytes) (resp : ServerResponse) :
  file <> [] -> (length file <= fuel)%nat -> sendChunks fuel file (size file) resp = Ok (setBody (lastPiece file) resp).
Proof.
  assert (Hk : kChunkSize = 65536) by done.
  revert file resp. induction fuel as [| fuel IH]; intros file resp Hne Hf.
  { destruct file; [done |]. cbn in Hf. lia. }
  assert (Hpos : 0 < size file) by (unfold size; destruct file; [done | cbn; lia]).
  cbn [sendChunks]. rewrite (proj2 (Z.ltb_lt _ _) Hpos). destruct (Z_le_gt_dec (size file) kChunkSize) as [Hle | Hgt].
  - rewrite Z.min_l by done. replace (Z.to_nat (size file)) with (length file) by (unfold size; lia).
    rewrite firstn_all, Z.sub_diag. unfold lastPiece. rewrite Z.div_small by lia. rewrite Z.mul_0_r, drop_0.
    destruct file as [| b file]; [done |]. destruct fuel; done.
  - rewrite Z.min_r by lia. assert (Hlen : length (take (Z.to_nat kChunkSize) file) = Z.to_nat kChunkSize)
      by (rewrite length_take; unfold size in Hgt; lia).
    destruct (take (Z.to_nat kChunkSize) file) as [| b buf] eqn:Hb; [cbn in Hlen; lia |]. rewrite <- Hb in *. clear b buf Hb.
    unfold size at 2. rewrite Hlen, Z2Nat.id by lia.
    assert (Hsz : size (drop (Z.to_nat kChunkSize) file) = size file - kChunkSize)
      by (rewrite size_drop; unfold size in *; lia).
    rewrite <- Hsz, IH.
    + rewrite setBody_setBody. do 2 f_equal. unfold lastPiece. rewrite drop_drop, Hsz. f_equal.
      replace (size file - 1) with (size file - kChunkSize - 1 + 1 * kChunkSize) by lia. rewrite Z.div_add by lia.
      pose proof (Z.div_pos (size file - kChunkSize - 1) kChunkSize). lia.
    + intros Hnil. rewrite Hnil in Hsz. change (size (@nil byte)) with 0 in Hsz. lia.
    + rewrite length_drop. lia.
Qed.

Lemma lastPiece_small (file : bytes) : file <> [] -> size file <= kChunkSize -> lastPiece file = file.
Proof.
  intros Hne Hle. unfold lastPiece. assert (0 < size file) by (unfold size; destruct file; [done | cbn; lia]).
  rewrite Z.div_small by lia. by rewrite Z.mul_0_r, drop_0.
Qed.

Lemma lastPiece_large (file : bytes) : kChunkSize < size file -> 0 < size (lastPiece file) <= kChunkSize.
Proof.
  change kChunkSize with 65536. intros Hlt. unfold lastPiece. change kChunkSize with 65536.
  pose proof (Z.div_mod (size file - 1) 65536 ltac:(lia)) as Hd.
  pose proof (Z.mod_pos_bound (size file - 1) 65536 ltac:(lia)). pose proof (Z.div_pos (size file - 1) 65536 ltac:(lia) ltac:(lia)).
  set (q := (size file - 1) / 65536) in *. rewrite size_drop by (unfold size in *; lia). lia.
Qed.

(** ** Every request is answered *)

Lemma serveFile_answers (env : Env) (opts : StaticFilesOptions) (cc : bytes) (req : HttpRequest) (p : path) (name : bytes)
    (st : Stat) (enc lm etag : bytes) (b : bool) (c : FileCache) (resp : ServerResponse) :
  0 <= cache_max_cache_size opts < 2 ^ 63 -> cache_ok (cache_max_cache_size opts) c ->
  (b = true -> u64 (st_size st) <= cache_max_cache_size opts) ->
  exists resp' c', serveFile env opts cc req p name st enc lm etag b c resp = Ok (resp', c')
    /\ cache_ok (cache_max_cache_size opts) c'.
Proof.
  intros Hmax Hc Hb. unfold serveFile. destruct (isHead req); [by eexists _, c |].
  destruct (fopen env _) as [file |]; [| by eexists _, c]. destruct b.
  - destruct (Z.ltb_spec (size file) (u64 (st_size st))) as [| Hle]; [by eexists _, c |].
    match goal with |- context [put ?n _ _] => destruct (cache_put _ n c Hmax) as (c' & Hput & Hc') end.
    + pose proof (Z.mod_pos_bound (st_size st) (2 ^ 64) ltac:(lia)) as Hr. fold (u64 (st_size st)) in Hr. specialize (Hb eq_refl).
      cbn [data]. unfold size. rewrite length_take. lia.
    + done.
    + rewrite Hput. cbn [obind]. by eexists _, c'.
  - match goal with |- context [sendChunks _ _ _ ?r] =>
      destruct (sendChunks_ends (length file) file (u64 (st_size st)) r ltac:(lia)) as (resp' & ->) end.
    cbn [obind]. by exists resp', c.
Qed.

(** Every request gets an answer, on every path of the handler: no loop
    runs on, no iterator of the cache dangles, and the cache stays sound and
    within its limit, since no entry larger than the limit is stored. *)
Theorem static_files_answers (root : path) (opts : StaticFilesOptions) (env : Env) (ps : gmap bytes bytes)
    (req : HttpRequest) (c : FileCache) (resp : ServerResponse)
    (Hmax : 0 <= cache_max_cache_size opts < 2 ^ 63) (Hc : cache_ok (cache_max_cache_size opts) c) :
  exists resp' c', staticFiles root opts env ps req c resp = Ok (resp', c') /\ cache_ok (cache_max_cache_size opts) c'.
Proof.
  unfold staticFiles, handle. destruct (forbidden root _); [by eexists _, c |].
  destruct (regular env _) as [st0 |]; [| by eexists _, c]. unfold handleFile.
  destruct (notModified _ _ _ _ _) as [r | [[r lm] etag]]; [by exists r, c |].
  destruct (chooseEncoding _ _ _ _ _) as [[name st] enc].
  destruct (_ && _) eqn:Hb; [| by apply (serveFile_answers env (clampOptions opts))].
  assert (Hst : u64 (st_size st) <= cache_max_cache_size opts) by (apply andb_prop in Hb as [_ Hb%Z.leb_le]; cbn in Hb; lia).
  destruct (cache_get _ (now_get env) name c Hmax Hc) as (o & c1 & -> & Hc1). cbn [obind].
  destruct o as [n |]; [| by apply (serveFile_answers env (clampOptions opts))].
  destruct (if enable_etag _ then _ else _); [by eexists _, c1 |].
  destruct (cache_invalidate _ name c1 Hmax Hc1) as (c2 & -> & Hc2). cbn [obind]. by apply (serveFile_answers env (clampOptions opts)).
Qed.

Lemma static_files_answers_witness :
  exists resp' c', staticFiles [str "www"] defaultOptions (example_env []) (asks "a.txt") get_request newCache newServerResponse
    = Ok (resp', c') /\ cache_ok (64 * 1024 * 1024) c'.
Proof.
  apply (static_files_answers _ defaultOptions); [cbn; lia |]. by apply newCache_ok.
Defined.

(** ** What is sent *)

Definition headers_wf (resp : ServerResponse) : Prop := om_wf (r_headers (data_ resp)).

Lemma setHeaderObject_wf (h : HttpHeader) (resp : ServerResponse) : headers_wf resp -> headers_wf (setHeaderObject h resp).
Proof. apply om_insert_wf. Qed.

(** A header that was set, and the headers set after it. *)
Lemma header_set (code code' : NameCode) (v : bytes) (resp : ServerResponse) :
  headers_wf resp ->
  getHeaderCode code (r_headers (data_ (setHeaderCode code' v resp)))
    = if decide (codeToName code = codeToName code') then v else getHeaderCode code (r_headers (data_ resp)).
Proof.
  intros Hwf. unfold getHeaderCode, setHeaderCode, setHeaderObject. cbn [data_ on_data r_headers with_response_headers].
  rewrite om_find_insert by done. change (name_ (newHeaderCode code' v)) with (codeToName code').
  destruct (decide (codeToName code = codeToName code')); done.
Qed.

(** The requests considered: a GET without validators and without encodings. *)
Record plain_get (req : HttpRequest) : Prop := {
  pg_get : method req = HttpTypes.Get;
  pg_modified : getHeaderCode NC_IfModifiedSince (headers req) = [];
  pg_match : getHeaderCode NC_IfNoneMatch (headers req) = [];
  pg_encoding : getHeaderCode NC_AcceptEncoding (headers req) = []
}.

(** The path resolves to a regular file of [n] bytes. *)
Record found (env : Env) (root : path) (opts : StaticFilesOptions) (ps : gmap bytes bytes) (n mtime : Z) : Prop := {
  fo_allowed : forbidden root (resolve env root opts ps) = false;
  fo_stat : regular env (path_string (resolve env root opts ps)) = Some (mkStat mtime n true);
  fo_size : 0 < n < 2 ^ 63
}.

(** Its contents. *)
Definition opens (env : Env) (root : path) (opts : StaticFilesOptions) (ps : gmap bytes bytes) (file : bytes) : Prop :=
  fopen env (c_str (path_string (resolve env root opts ps))) = Some file.

(** Does the handler use the cache for a file of this size? *)
Definition caches (opts : StaticFilesOptions) (n : Z) : bool :=
  (0 <? cache_ttl opts) && (n <=? Z.min (cache_max_file_size opts) (cache_max_cache_size opts)).

Lemma notModified_plain (env : Env) (opts : StaticFilesOptions) (req : HttpRequest) (st : Stat) (resp : ServerResponse) :
  plain_get req -> headers_wf resp -> exists resp', headers_wf resp' /\ notModified env opts req st resp
    = inr (resp', strftime env (st_mtime st), if enable_etag opts then makeETag (st_mtime st) (st_size st) else []).
Proof.
  intros Hreq Hwf. unfold notModified. rewrite (pg_modified _ Hreq), (pg_match _ Hreq).
  rewrite !(bool_decide_eq_false_2 ([] <> [])) by auto. cbn [andb].
  destruct (enable_etag opts); eexists; (split; [| done]); by repeat apply setHeaderObject_wf.
Qed.

(** What the handler does for such a request, once its response is prepared. *)
Lemma staticFiles_located (env : Env) (root : path) (opts : StaticFilesOptions) (ps : gmap bytes bytes) (req : HttpRequest)
    (n mtime : Z) (c : FileCache) (resp : ServerResponse) :
  plain_get req -> headers_wf resp -> found env root opts ps n mtime ->
  exists resp', headers_wf resp' /\ staticFiles root opts env ps req c resp =
    let p := resolve env root opts ps in
    let etag := if enable_etag opts then makeETag mtime n else [] in
    let miss := serveFile env (clampOptions opts) (cacheControl opts) req p (path_string p) (mkStat mtime n true) []
                  (strftime env mtime) etag (caches opts n) in
    if caches opts n then
      let! (cached, c) := get (now_get env) (path_string p) c in
      match cached with
      | None => miss c resp'
      | Some e =>
          if (if enable_etag opts then bool_decide (FileCache.etag e = etag)
              else bool_decide (last_modified e = strftime env mtime))
          then Ok (serveCached (clampOptions opts) (cacheControl opts) req e resp', c)
          else let! c := invalidate (path_string p) c in miss c resp'
      end
    else miss c resp'.
Proof.
  intros Hreq Hwf [Hf Hst Hsize]. unfold staticFiles, handle.
  change (resolve env root (clampOptions opts) ps) with (resolve env root opts ps). rewrite Hf, Hst. unfold handleFile.
  destruct (notModified_plain env (clampOptions opts) req (mkStat mtime n true) resp Hreq Hwf)
    as (resp' & Hwf' & ->).
  unfold chooseEncoding. rewrite (pg_encoding _ Hreq), (bool_decide_eq_false_2 ([] <> [])) by auto. cbn [andb].
  exists resp'. split; [done |]. unfold caches, u64. cbn [st_size st_mtime clampOptions cache_ttl cache_max_file_size enable_etag].
  by rewrite Z.mod_small by lia.
Qed.

(** A file that is not cached goes out in pieces of 65536 bytes, each of
    which takes the place of the one before it: a file of at most that size
    arrives whole, of a larger one only the last piece does, although the
    handler sets a Content-Length header for all of it. *)
Theorem static_files_body (root : path) (opts : StaticFilesOptions) (env : Env) (ps : gmap bytes bytes) (req : HttpRequest)
    (file : bytes) (mtime : Z) (c : FileCache) (resp : ServerResponse)
    (Hreq : plain_get req) (Hwf : headers_wf resp) (Hfile : found env root opts ps (size file) mtime) (Hopen : opens env root opts ps file)
    (Hno : caches opts (size file) = false) :
  exists resp', staticFiles root opts env ps req c resp = Ok (resp', c)
    /\ r_statusCode (data_ resp') = 200
    /\ getHeaderCode NC_ContentLength (r_headers (data_ resp')) = to_string (size file)
    /\ (size file <= 65536 -> body_ resp' = file)
    /\ (65536 < size file -> exists n, body_ resp' = drop n file /\ 0 < size (body_ resp') <= 65536).
Proof.
  destruct (staticFiles_located env root opts ps req (size file) mtime c resp Hreq Hwf Hfile) as (resp' & Hwf' & ->). cbv zeta. rewrite Hno.
  destruct Hfile as [_ _ Hsize]. unfold serveFile, isHead. rewrite (pg_get _ Hreq), Hopen. cbn [Z.eqb HttpTypes.Get Head].
  assert (Hne : file <> []) by (intros ->; change (size (@nil byte)) with 0 in Hsize; lia).
  unfold u64. cbn [st_size]. rewrite Z.mod_small, sendChunks_last by (done || lia). cbn [obind]. eexists. split; [done |].
  split; [done |]. split; [| split; [by apply lastPiece_small | intros Hl; eexists; split; [done | by apply lastPiece_large]]].
  cbn [data_ setBody on_data r_headers with_response_length]. unfold setUnlessEmpty. rewrite decide_True by done.
  by rewrite !header_set by (repeat apply setHeaderObject_wf; done).
Qed.

(** A system with one file. *)
Definition site_env (file : bytes) (now : Z) : Env :=
  mkEnv (fun _ => [str "www"; str "a.txt"]) (fun _ => false)
    (fun s => if decide (s = str "/www/a.txt") then Some (mkStat 1000 (size file) true) else None)
    (fun s => if decide (s = str "/www/a.txt") then Some file else None)
    (fun _ => str "Thu, 01 Jan 1970 00:16:40 GMT") now now (fun _ => []).

Lemma site_found (file : bytes) (now : Z) (opts : StaticFilesOptions) :
  0 < size file < 2 ^ 63 -> found (site_env file now) [str "www"] opts (asks "a.txt") (size file) 1000.
Proof. intros H. by split. Qed.

Lemma get_request_plain : plain_get get_request.
Proof. by split. Qed.

(** A file of 65539 bytes, of which the client gets three at most 65536. *)
Lemma static_files_body_witness :
  let file := replicate (Z.to_nat 65539) x61 in
  exists resp', staticFiles [str "www"] defaultOptions (site_env file 0) (asks "a.txt") get_request newCache newServerResponse
      = Ok (resp', newCache)
    /\ r_statusCode (data_ resp') = 200
    /\ getHeaderCode NC_ContentLength (r_headers (data_ resp')) = to_string 65539
    /\ size (body_ resp') < 65539.
Proof.
  intros file. assert (Hsize : size file = 65539) by (unfold size, file; rewrite length_replicate; lia).
  destruct (static_files_body [str "www"] defaultOptions (site_env file 0) (asks "a.txt") get_request file 1000
              newCache newServerResponse) as (resp' & H & H200 & Hlen & _ & Hbig).
  - exact get_request_plain.
  - exact om_wf_nil.
  - apply site_found. lia.
  - done.
  - done.
  - exists resp'. rewrite Hsize in *. destruct (Hbig ltac:(lia)) as (n & _ & Hb). repeat split; [done .. | lia].
Defined.

(** What was just stored, asked for before it expires, is there and is fresh. *)
Lemma serveFile_stores (env : Env) (opts : StaticFilesOptions) (cc : bytes) (req : HttpRequest) (p : path) (name : bytes)
    (mtime : Z) (enc lm etag file : bytes) (c : FileCache) (resp : ServerResponse) (now : Z) :
  method req = HttpTypes.Get -> fopen env (c_str name) = Some file -> size file < 2 ^ 63 ->
  size file <= cache_max_cache_size opts < 2 ^ 63 -> cache_ok (cache_max_cache_size opts) c ->
  now <= now_put env + cache_ttl opts * 1000000000 ->
  exists resp' c' e c2, serveFile env opts cc req p name (mkStat mtime (size file) true) enc lm etag true c resp = Ok (resp', c')
    /\ r_statusCode (data_ resp') = 200 /\ body_ resp' = file /\ get now name c' = Ok (Some e, c2)
    /\ FileCache.data e = file /\ FileCache.etag e = etag /\ last_modified e = lm.
Proof.
  intros Hget Hopen Hsize Hfit Hc Hnow. unfold serveFile, isHead. rewrite Hget, Hopen. cbn [Z.eqb HttpTypes.Get Head st_size].
  pose proof (size_nonneg file). unfold u64. rewrite Z.mod_small, Z.ltb_irrefl by lia.
  replace (Z.to_nat (size file)) with (length file) by (unfold size; lia). rewrite firstn_all.
  match goal with |- context [put ?n ?max _] => destruct (cache_put max n c ltac:(lia)) as (c' & Hput & Hc');
    [cbn; lia | done |]; destruct (put_get n max now c c') as (c2 & Hg);
    [by destruct Hc | cbn; lia | lia | by destruct Hc | done | done |];
    rewrite Hput; cbn [obind]; exists (setBody file (setCacheHeader opts (str "MISS")
      (setHeaderCode NC_CacheControl cc (setUnlessEmpty (setHeaderCode NC_ContentEncoding) enc
        (setHeaderCode NC_ContentLength (to_string (size file))
          (setHeaderCode NC_ContentType (mimeType (extension p) (mime_types opts)) (setStatus 200 [] resp))))))), c', n, c2 end.
  split; [done |]. split; [| done]. unfold setCacheHeader, setUnlessEmpty. by destruct (decide _), (decide _).
Qed.

Lemma serveCached_body (opts : StaticFilesOptions) (cc : bytes) (req : HttpRequest) (e : CacheNode) (resp : ServerResponse) :
  method req = HttpTypes.Get ->
  r_statusCode (data_ (serveCached opts cc req e resp)) = 200 /\ body_ (serveCached opts cc req e resp) = FileCache.data e.
Proof.
  intros Hget. unfold serveCached, isHead. rewrite Hget. cbn [Z.eqb HttpTypes.Get Head]. split; [| done].
  unfold setCacheHeader, setUnlessEmpty. by repeat destruct (decide _).
Qed.

(** What is cached answers for the file: after a GET that stored it, the
    same request is answered with the file's contents although the file is not
    opened again, until the entry expires and as long as the file's size and
    time of modification stay what they were. *)
Theorem static_files_cached (root : path) (opts : StaticFilesOptions) (env env' : Env) (ps : gmap bytes bytes)
    (req : HttpRequest) (file : bytes) (mtime : Z) (c c0 : FileCache) (resp resp2 : ServerResponse)
    (Hreq : plain_get req) (Hwf : headers_wf resp /\ headers_wf resp2)
    (Hfile : found env root opts ps (size file) mtime) (Hopen : opens env root opts ps file)
    (Hyes : caches opts (size file) = true) (Hmax : 0 <= cache_max_cache_size opts < 2 ^ 63)
    (Hc : cache_ok (cache_max_cache_size opts) c)
    (Hmiss : get (now_get env) (path_string (resolve env root opts ps)) c = Ok (None, c0))
    (Hfile' : found env' root opts ps (size file) mtime)
    (Hsame : resolve env' root opts ps = resolve env root opts ps /\ strftime env' mtime = strftime env mtime)
    (Htime : now_get env' <= now_put env + cache_ttl opts * 1000000000) :
  exists resp1 c1 resp2' c2, staticFiles root opts env ps req c resp = Ok (resp1, c1)
    /\ r_statusCode (data_ resp1) = 200 /\ body_ resp1 = file
    /\ staticFiles root opts env' ps req c1 resp2 = Ok (resp2', c2)
    /\ r_statusCode (data_ resp2') = 200 /\ body_ resp2' = file.
Proof.
  destruct Hsame as [Hres Htm], Hwf as [Hwf Hwf2].
  destruct (staticFiles_located env root opts ps req (size file) mtime c resp Hreq Hwf Hfile) as (r1 & _ & ->).
  cbv zeta. rewrite Hyes, Hmiss. cbn [obind].
  assert (Hfit : size file <= cache_max_cache_size opts) by (apply andb_prop in Hyes as [_ H%Z.leb_le]; lia).
  destruct (cache_get _ (now_get env) (path_string (resolve env root opts ps)) c Hmax Hc) as (o & c0' & Hg & Hc0).
  rewrite Hmiss in Hg. injection Hg as <- <-. destruct Hfile as [_ _ Hsize].
  destruct (serveFile_stores env (clampOptions opts) (cacheControl opts) req (resolve env root opts ps)
    (path_string (resolve env root opts ps)) mtime [] (strftime env mtime)
    (if enable_etag opts then makeETag mtime (size file) else []) file c0 r1 (now_get env') (pg_get _ Hreq) Hopen
    ltac:(lia) ltac:(cbn; lia) Hc0 Htime) as (resp1 & c1 & e & c2 & Hs & H200 & Hbody & Hget & Hd & He & Hl).
  destruct (staticFiles_located env' root opts ps req (size file) mtime c1 resp2 Hreq Hwf2 Hfile') as (r2 & _ & Heq).
  exists resp1, c1. rewrite Hs, Heq. cbv zeta. rewrite Hyes, Hres, Hget. cbn [obind]. rewrite He, Hl, Htm.
  replace (if enable_etag opts then _ else _) with true by (destruct (enable_etag opts); by rewrite bool_decide_eq_true_2).
  destruct (serveCached_body (clampOptions opts) (cacheControl opts) req e r2 (pg_get _ Hreq)) as [Hs2 Hb2].
  eexists _, c2. split; [done |]. split; [done |]. split; [done |]. split; [done |]. split; [done |]. by rewrite Hb2.
Qed.

Definition caching_options : StaticFilesOptions :=
  mkOptions (str "index.html") true 3600 defaultMimeTypes defaultAcceptEncodings 60 1000 2000 [].

(** The file changes, but neither its size nor its time: the old contents go out. *)
Lemma static_files_cached_witness :
  exists resp1 c1 resp2 c2,
    staticFiles [str "www"] caching_options (site_env (str "hello") 0) (asks "a.txt") get_request newCache newServerResponse
      = Ok (resp1, c1)
    /\ r_statusCode (data_ resp1) = 200 /\ body_ resp1 = str "hello"
    /\ staticFiles [str "www"] caching_options (site_env (str "HELLO") 30000000000) (asks "a.txt") get_request c1
         newServerResponse = Ok (resp2, c2)
    /\ r_statusCode (data_ resp2) = 200 /\ body_ resp2 = str "hello".
Proof.
  apply (static_files_cached [str "www"] caching_options (site_env (str "hello") 0) (site_env (str "HELLO") 30000000000)
    (asks "a.txt") get_request (str "hello") 1000 newCache newCache).
  - exact get_request_plain.
  - split; exact om_wf_nil.
  - by apply site_found.
  - done.
  - done.
  - cbn. lia.
  - by apply newCache_ok.
  - done.
  - by apply (site_found (str "HELLO")).
  - done.
  - cbn. lia.
Defined.
