(* ===== verification/Form.v ===== *)
(** HTML forms, src/extensions/http/src/Form.cc: the encoding of a field's name
    or value, and the two parsers of form bodies. *)

From Stdlib Require Import ZArith Lia String Strings.Byte.
From stdpp Require Import base numbers option list.
From S2P Require Import Prelude CxxStd Split OrdMap UrlEncode.
Open Scope Z_scope.

(** ** Encoding

    [kHex], [isUnreserved], [hexVal] and [percentEncode] of Form.cc are those
    of UrlEncode.cc, word for word. *)

Definition formEncodeChar (c : byte) : bytes :=
  if isUnreserved c then [c]
  else if Byte.eqb c x20 then [x2b]
  else if Byte.eqb c x2b then str "%2B"
  else percentEncode c.

Definition formEncode (input : bytes) : bytes := concat (map formEncodeChar input).

Fixpoint formDecode (input : bytes) : bytes :=
  match input with
  | [] => []
  | c :: rest =>
      if Byte.eqb c x2b then x20 :: formDecode rest
      else if Byte.eqb c x25 then
        match rest with
        | h :: l :: rest' =>
            let hi := hexVal h in
            let lo := hexVal l in
            if (0 <=? hi) && (0 <=? lo) then z2b (Z.lor (Z.shiftl hi 4) lo) :: formDecode rest'
            else x25 :: formDecode rest
        | _ => x25 :: formDecode rest
        end
      else c :: formDecode rest
  end.

(** ** Parsing *)

Abbreviation HttpFormMap := (ordmap bytes).
Abbreviation HttpMultiFormMap := (ordmap (list bytes)).

(** One part of a body in [parseFormData]. *)
Definition formPart (pair : bytes) (result : HttpFormMap) : outcome HttpFormMap :=
  let eqPos := sv_find pair x3d 0 in
  if negb (eqPos =? npos) then
    let! k := sv_substr pair 0 eqPos in
    let! v := sv_substr pair (eqPos + 1) npos in
    Ok (om_insert (formDecode k) (formDecode v) result)
  else
    match pair with
    | [] => Ok result
    | _ => Ok (om_insert (formDecode pair) [] result)
    end.

Definition parseFormData (formBody : bytes) : outcome HttpFormMap := forEachPart x26 formPart formBody [].

(** One part of a body in [parseMultiFormData]. *)
Definition multiFormPart (pair : bytes) (result : HttpMultiFormMap) : outcome HttpMultiFormMap :=
  let eqPos := sv_find pair x3d 0 in
  if negb (eqPos =? npos) then
    let! k := sv_substr pair 0 eqPos in
    let! v := sv_substr pair (eqPos + 1) npos in
    let key := formDecode k in
    Ok (om_insert key (default [] (om_find key result) ++ [formDecode v]) result)
  else
    match pair with
    | [] => Ok result
    | _ => Ok (om_insert (formDecode pair) [] result)
    end.

Definition parseMultiFormData (formBody : bytes) : outcome HttpMultiFormMap := forEachPart x26 multiFormPart formBody [].

(** ** Lemmas *)

(** What is written for a character: itself, or text that gives it back; no
    delimiter of forms is in it. *)
Definition formChar_ok (c : byte) : bool :=
  forallb (fun b => negb (Byte.eqb x26 b) && negb (Byte.eqb x3d b)) (formEncodeChar c) &&
  match formEncodeChar c with
  | [d] => if Byte.eqb d x2b then Byte.eqb c x20 else Byte.eqb d c && negb (Byte.eqb d x25)
  | [p; h; l] =>
      Byte.eqb p x25 && (0 <=? hexVal h) && (0 <=? hexVal l)
      && Byte.eqb (z2b (Z.lor (Z.shiftl (hexVal h) 4) (hexVal l))) c
  | _ => false
  end.

Lemma formChar_ok_all (c : byte) : formChar_ok c = true.
Proof. apply byte_forall. by vm_compute. Qed.

Lemma formDecode_char (c : byte) (rest : bytes) : formDecode (formEncodeChar c ++ rest) = c :: formDecode rest.
Proof.
  pose proof (formChar_ok_all c) as Hok. unfold formChar_ok in Hok. apply andb_prop in Hok as [_ Hok].
  destruct (formEncodeChar c) as [| d [| h [| l [| ? ?]]]]; try done.
  - cbn [app formDecode]. destruct (Byte.eqb d x2b).
    + by apply Byte.byte_dec_bl in Hok as ->.
    + apply andb_prop in Hok as [->%Byte.byte_dec_bl Hp%negb_true_iff]. by rewrite Hp.
  - apply andb_prop in Hok as [[[->%Byte.byte_dec_bl Hh]%andb_prop Hl]%andb_prop Hc%Byte.byte_dec_bl].
    cbn [app formDecode]. change (Byte.eqb x25 x2b) with false. change (Byte.eqb x25 x25) with true.
    by rewrite Hh, Hl, Hc.
Qed.

Lemma formDecode_encode (s : bytes) : formDecode (formEncode s) = s.
Proof. induction s as [| c s IH]; [done |]. unfold formEncode in *. cbn [map concat]. by rewrite formDecode_char, IH. Qed.

Lemma formEncode_plain (s : bytes) :
  Forall (fun b => Byte.eqb x26 b = false) (formEncode s) /\ Forall (fun b => Byte.eqb x3d b = false) (formEncode s).
Proof.
  unfold formEncode. induction s as [| c s [IH1 IH2]]; [by split |]. cbn [map concat].
  pose proof (formChar_ok_all c) as Hok. unfold formChar_ok in Hok. apply andb_prop in Hok as [Hok _].
  rewrite forallb_forall in Hok.
  split; apply Forall_app; (split; [| done]); apply Forall_forall; intros b Hb%list_elem_of_In; apply Hok in Hb;
    apply andb_prop in Hb as [H1 H2]; by rewrite negb_true_iff in H1, H2.
Qed.

Lemma formEncode_nonempty (s : bytes) : s <> [] -> formEncode s <> [].
Proof. intros Hs Hn. apply Hs. by rewrite <- (formDecode_encode s), Hn. Qed.

(** ** Forms *)

(** A field with a value, or a name alone. *)
Definition Field : Type := (bytes * option bytes)%type.

Definition encodeField (f : Field) : bytes :=
  match snd f with
  | Some v => formEncode (fst f) ++ [x3d] ++ formEncode v
  | None => formEncode (fst f)
  end.

Definition encodeForm (fs : list Field) : bytes := join x26 (map encodeField fs).

(** A part without an equals sign that is empty is skipped. *)
Definition field_ok (f : Field) : Prop := snd f = None -> fst f <> [].

(** What the parsers make of the fields, one by one. *)
Definition putField (f : Field) (m : HttpFormMap) : HttpFormMap := om_insert (fst f) (default [] (snd f)) m.

Definition addField (f : Field) (m : HttpMultiFormMap) : HttpMultiFormMap :=
  match snd f with
  | Some v => om_insert (fst f) (default [] (om_find (fst f) m) ++ [v]) m
  | None => om_insert (fst f) [] m
  end.

Lemma part_split (k v : bytes) :
  size (formEncode k ++ [x3d] ++ formEncode v) < npos ->
  let pair := formEncode k ++ [x3d] ++ formEncode v in
  sv_find pair x3d 0 = size (formEncode k) /\ size (formEncode k) <> npos
  /\ sv_substr pair 0 (size (formEncode k)) = Ok (formEncode k)
  /\ sv_substr pair (size (formEncode k) + 1) npos = Ok (formEncode v).
Proof.
  intros Hs pair. destruct (formEncode_plain k) as [_ Hk]. rewrite !size_app in Hs.
  pose proof (size_nonneg (formEncode k)). pose proof (size_nonneg (formEncode v)). change (size [x3d]) with 1 in Hs.
  split; [exact (sv_find_if_app (Byte.eqb x3d) [] (formEncode k) x3d (formEncode v) Hk eq_refl) |]. split; [lia |].
  split; [exact (sv_substr_mid [] (formEncode k) (x3d :: formEncode v) _ eq_refl) |]. unfold pair.
  pose proof (sv_substr_rest (formEncode k ++ [x3d]) (formEncode v) npos ltac:(lia)) as H1.
  rewrite size_app, <- app_assoc in H1. exact H1.
Qed.

(** A name alone has no equals sign. *)
Lemma part_bare (k : bytes) : sv_find (formEncode k) x3d 0 = npos.
Proof. destruct (formEncode_plain k) as [_ Hk]. exact (sv_find_if_none (Byte.eqb x3d) [] (formEncode k) Hk). Qed.

Lemma parts_ok (f : Field) (m : HttpFormMap) (mm : HttpMultiFormMap) :
  field_ok f -> size (encodeField f) < npos ->
  formPart (encodeField f) m = Ok (putField f m) /\ multiFormPart (encodeField f) mm = Ok (addField f mm).
Proof.
  intros Hf Hs. unfold formPart, multiFormPart, encodeField, putField, addField in *. destruct f as [k [v |]]; cbn [fst snd] in *.
  - destruct (part_split k v Hs) as (-> & Hne & Hk & Hv). rewrite (proj2 (Z.eqb_neq _ _) Hne). cbn [negb].
    rewrite Hk. cbn [obind]. rewrite Hv. cbn [obind]. by rewrite !formDecode_encode.
  - rewrite part_bare, Z.eqb_refl. cbn [negb]. destruct (formEncode k) as [| b r] eqn:He.
    + destruct (formEncode_nonempty k (Hf eq_refl) He).
    + by rewrite <- He, formDecode_encode.
Qed.

Lemma encodeField_part (f : Field) :
  field_ok f -> encodeField f <> [] /\ Forall (fun b => Byte.eqb x26 b = false) (encodeField f).
Proof.
  intros Hf. destruct f as [k [v |]]; unfold encodeField; cbn [fst snd].
  - split; [by destruct (formEncode k) |]. apply Forall_app. split; [apply formEncode_plain |].
    constructor; [done | apply formEncode_plain].
  - split; [by apply formEncode_nonempty, Hf | apply formEncode_plain].
Qed.

Lemma join_size (f : Field) (fs : list Field) : f ∈ fs -> size (encodeField f) <= size (encodeForm fs).
Proof.
  unfold encodeForm. induction fs as [| g fs IH]; intros Hin; [by apply elem_of_nil in Hin |]. cbn [map].
  apply elem_of_cons in Hin as [-> | Hin].
  - destruct fs as [| h fs]; [done |]. cbn [map join]. rewrite size_app.
    match goal with |- _ <= _ + size ?x => pose proof (size_nonneg x) end. lia.
  - specialize (IH Hin). destruct fs as [| h fs]; [by apply elem_of_nil in Hin |]. cbn [map join] in *.
    rewrite size_app, size_cons. pose proof (size_nonneg (encodeField g)). lia.
Qed.

Lemma foldOutcome_fields {A : Type} (body : bytes -> A -> outcome A) (put : Field -> A -> A) (fs : list Field) (acc : A) :
  (forall f acc, f ∈ fs -> body (encodeField f) acc = Ok (put f acc)) ->
  foldOutcome body (map encodeField fs) acc = Ok (foldl (fun a f => put f a) acc fs).
Proof.
  revert acc. induction fs as [| f fs IH]; intros acc Hb; [done |]. cbn [map foldOutcome foldl].
  rewrite Hb by left. cbn [obind]. apply IH. intros g a Hg. apply Hb. by right.
Qed.

Lemma forms_parsed (fs : list Field) :
  Forall field_ok fs -> size (encodeForm fs) < npos ->
  parseFormData (encodeForm fs) = Ok (foldl (fun m f => putField f m) [] fs)
  /\ parseMultiFormData (encodeForm fs) = Ok (foldl (fun m f => addField f m) [] fs).
Proof.
  intros Hok Hs. unfold parseFormData, parseMultiFormData. rewrite !forEachPart_parts by done. unfold encodeForm in *.
  assert (Hp : Forall (fun p => p <> [] /\ Forall (fun b => Byte.eqb x26 b = false) p) (map encodeField fs))
    by (apply Forall_map; eapply Forall_impl; [exact Hok | intros f; apply encodeField_part]).
  rewrite Forall_forall in Hok. rewrite !foldParts_join by (done || lia).
  split; apply foldOutcome_fields; intros f acc Hf; pose proof (join_size f fs Hf) as Hle; unfold encodeForm in Hle;
    [apply (parts_ok f acc []) | apply (parts_ok f [] acc)]; by (apply Hok || lia).
Qed.

(** ** What a form says *)

(** The value a name was last given. *)
Fixpoint lastValue (k : bytes) (fs : list Field) : option bytes :=
  match fs with
  | [] => None
  | f :: fs' =>
      match lastValue k fs' with
      | Some v => Some v
      | None => if decide (k = fst f) then Some (default [] (snd f)) else None
      end
  end.

(** The values a name was given, after the last time it came alone. *)
Fixpoint allValues (k : bytes) (fs : list Field) (before : option (list bytes)) : option (list bytes) :=
  match fs with
  | [] => before
  | f :: fs' =>
      allValues k fs'
        (if decide (k = fst f) then Some (match snd f with Some v => default [] before ++ [v] | None => [] end) else before)
  end.

Lemma putField_fold (k : bytes) (fs : list Field) (m : HttpFormMap) :
  om_wf m -> om_wf (foldl (fun m f => putField f m) m fs) /\
  om_find k (foldl (fun m f => putField f m) m fs) = match lastValue k fs with Some v => Some v | None => om_find k m end.
Proof.
  revert m. induction fs as [| f fs IH]; intros m Hm; [done |]. cbn [foldl lastValue].
  destruct (IH (putField f m) (om_insert_wf _ _ _ Hm)) as [H1 H2]. split; [done |]. rewrite H2.
  destruct (lastValue k fs); [done |]. unfold putField. rewrite om_find_insert by done. by destruct (decide _).
Qed.

Lemma addField_fold (k : bytes) (fs : list Field) (m : HttpMultiFormMap) :
  om_wf m -> om_wf (foldl (fun m f => addField f m) m fs) /\
  om_find k (foldl (fun m f => addField f m) m fs) = allValues k fs (om_find k m).
Proof.
  revert m. induction fs as [| f fs IH]; intros m Hm; [done |]. cbn [foldl allValues].
  assert (Hm' : om_wf (addField f m)) by (unfold addField; destruct (snd f); by apply om_insert_wf).
  destruct (IH (addField f m) Hm') as [H1 H2]. split; [done |]. rewrite H2. f_equal.
  unfold addField. destruct (snd f); rewrite om_find_insert by done; destruct (decide (k = fst f)) as [-> |]; done.
Qed.

(** What a form is made of is what its parsers find, whatever bytes the
    names and values hold: [parseFormData] the last value of each name, and
    [parseMultiFormData] its values in order, except that a name alone discards
    the values before it. *)
Theorem form_roundtrip (fs : list Field) (Hok : Forall field_ok fs) (Hs : size (encodeForm fs) < npos) :
  exists m mm, parseFormData (encodeForm fs) = Ok m /\ parseMultiFormData (encodeForm fs) = Ok mm
    /\ om_wf m /\ om_wf mm
    /\ (forall k, om_find k m = lastValue k fs) /\ (forall k, om_find k mm = allValues k fs None).
Proof.
  destruct (forms_parsed fs Hok Hs) as [-> ->]. eexists _, _. split; [done |]. split; [done |].
  split; [by apply (putField_fold []), om_wf_nil |]. split; [by apply (addField_fold []), om_wf_nil |]. split; intros k.
  - rewrite (proj2 (putField_fold k fs [] om_wf_nil)). by destruct (lastValue k fs).
  - exact (proj2 (addField_fold k fs [] om_wf_nil)).
Qed.

Lemma form_roundtrip_witness :
  let fs := [(str "a b", Some (str "1&2")); (str "c", Some (str "x")); (str "a b", Some (str "=")); (str "c", None);
             (str "c", Some (str "y"))] in
  (exists m mm, parseFormData (encodeForm fs) = Ok m /\ parseMultiFormData (encodeForm fs) = Ok mm
    /\ om_wf m /\ om_wf mm
    /\ (forall k, om_find k m = lastValue k fs) /\ (forall k, om_find k mm = allValues k fs None))
  /\ encodeForm fs = str "a+b=1%262&c=x&a+b=%3D&c&c=y"
  /\ allValues (str "a b") fs None = Some [str "1&2"; str "="] /\ allValues (str "c") fs None = Some [str "y"].
Proof.
  intros fs. split; [| split; [by vm_compute | split; by vm_compute]]. apply (form_roundtrip fs); [| done].
  repeat constructor; by intros H.
Defined.
