(* ===== verification/Digest.v ===== *)
(** Message digests, src/src/utils/Sha1.cc and Md5.cc.

    Words are [Z]s below [2^32].  Both functions copy the message into a string
    of [padLen] bytes and store the padding there; a store outside the string
    is undefined.  Md5.cc reads words of the message with [memcpy]: the machine
    is little-endian. *)

From Stdlib Require Import ZArith Lia String Strings.Byte.
From stdpp Require Import base numbers option list.
From S2P Require Import Prelude CxxStd Endian.
Open Scope Z_scope.

(** ** Words *)

(** [std::rotl] *)
Definition rotl (x n : Z) : Z := Z.lor (u32 (Z.shiftl x n)) (Z.shiftr x (32 - n)).

(** [~x] *)
Definition not32 (x : Z) : Z := 2 ^ 32 - 1 - x.

(** [a\[i\]] of an array of words; the indices of both functions are within. *)
Definition word (a : list Z) (i : nat) : Z := nth i a 0.

(** ** The padded message *)

(** [(size + 1 + 8 + 63) & ~63u]: the mask is an [unsigned], extended with
    zeros. *)
Definition padLen (n : Z) : Z := Z.land (u64 (n + 9 + 63)) (2 ^ 32 - 64).

(** [msg\[i\] = b] *)
Definition store (i : Z) (b : byte) (msg : bytes) : outcome bytes :=
  if (0 <=? i) && (i <? size msg) then Ok (<[Z.to_nat i := b]> msg) else Undefined.

(** [for (i = 0; i < 8; ++i) msg\[at + i\] = octets\[i\]] *)
Fixpoint storeAll (at_ : Z) (octets : bytes) (msg : bytes) : outcome bytes :=
  match octets with
  | [] => Ok msg
  | b :: octets' => let! msg := store at_ b msg in storeAll (at_ + 1) octets' msg
  end.

(** [octets] is the length in bits, in the order of the digest. *)
Definition padded (octets : Z -> bytes) (input : bytes) : outcome bytes :=
  let bitLen := u64 (size input * 8) in
  let padLen := padLen (size input) in
  if size input <=? padLen then
    let msg := input ++ replicate (Z.to_nat padLen - length input) x00 in
    let! msg := store (size input) x80 msg in
    storeAll (padLen - 8) (octets bitLen) msg
  else Undefined.

Definition le_bytes (n : nat) (v : Z) : bytes := rev (be_bytes n v).

(** The four bytes at [i]. *)
Definition quad (msg : bytes) (i : nat) : bytes := take 4 (drop i msg).

(** ** [sha1] *)

Definition state5 : Type := (Z * Z * Z * Z * Z)%type.

(** [w\[16\]] to [w\[79\]], each from the words before it. *)
Definition extend (w : list Z) (i : nat) : list Z :=
  w ++ [rotl (Z.lxor (Z.lxor (Z.lxor (word w (i - 3)) (word w (i - 8))) (word w (i - 14))) (word w (i - 16))) 1].

Definition sha1Words (msg : bytes) (offset : nat) : list Z :=
  foldl extend (map (fun i => be_value 0 (quad msg (offset + i * 4))) (seq 0 16)) (seq 16 64).

Definition sha1Round (w : list Z) (s : state5) (i : nat) : state5 :=
  let '(a, b, c, d, e) := s in
  let '(f, k) :=
    if (i <? 20)%nat then (Z.lor (Z.land b c) (Z.land (not32 b) d), 0x5A827999)
    else if (i <? 40)%nat then (Z.lxor (Z.lxor b c) d, 0x6ED9EBA1)
    else if (i <? 60)%nat then (Z.lor (Z.lor (Z.land b c) (Z.land b d)) (Z.land c d), 0x8F1BBCDC)
    else (Z.lxor (Z.lxor b c) d, 0xCA62C1D6) in
  let tmp := u32 (rotl a 5 + f + e + k + word w i) in
  (tmp, a, rotl b 30, c, d).

Definition sha1Block (msg : bytes) (h : state5) (offset : nat) : state5 :=
  let '(h0, h1, h2, h3, h4) := h in
  let '(a, b, c, d, e) := foldl (sha1Round (sha1Words msg offset)) h (seq 0 80) in
  (u32 (h0 + a), u32 (h1 + b), u32 (h2 + c), u32 (h3 + d), u32 (h4 + e)).

Definition sha1Init : state5 := (0x67452301, 0xEFCDAB89, 0x98BADCFE, 0x10325476, 0xC3D2E1F0).

(** [for (offset = 0; offset < padLen; offset += 64)] *)
Definition offsets (msg : bytes) : list nat := map (fun i => i * 64)%nat (seq 0 (length msg / 64)).

Definition sha1 (input : bytes) : outcome bytes :=
  let! msg := padded (be_bytes 8) input in
  let '(h0, h1, h2, h3, h4) := foldl (sha1Block msg) sha1Init (offsets msg) in
  Ok (be_bytes 4 h0 ++ be_bytes 4 h1 ++ be_bytes 4 h2 ++ be_bytes 4 h3 ++ be_bytes 4 h4).

(** ** [md5] *)

Definition kS : list Z :=
  [7; 12; 17; 22; 7; 12; 17; 22; 7; 12; 17; 22; 7; 12; 17; 22;
   5; 9; 14; 20; 5; 9; 14; 20; 5; 9; 14; 20; 5; 9; 14; 20;
   4; 11; 16; 23; 4; 11; 16; 23; 4; 11; 16; 23; 4; 11; 16; 23;
   6; 10; 15; 21; 6; 10; 15; 21; 6; 10; 15; 21; 6; 10; 15; 21].

Definition kK : list Z :=
  [0xd76aa478; 0xe8c7b756; 0x242070db; 0xc1bdceee; 0xf57c0faf; 0x4787c62a; 0xa8304613; 0xfd469501;
   0x698098d8; 0x8b44f7af; 0xffff5bb1; 0x895cd7be; 0x6b901122; 0xfd987193; 0xa679438e; 0x49b40821;
   0xf61e2562; 0xc040b340; 0x265e5a51; 0xe9b6c7aa; 0xd62f105d; 0x02441453; 0xd8a1e681; 0xe7d3fbc8;
   0x21e1cde6; 0xc33707d6; 0xf4d50d87; 0x455a14ed; 0xa9e3e905; 0xfcefa3f8; 0x676f02d9; 0x8d2a4c8a;
   0xfffa3942; 0x8771f681; 0x6d9d6122; 0xfde5380c; 0xa4beea44; 0x4bdecfa9; 0xf6bb4b60; 0xbebfbc70;
   0x289b7ec6; 0xeaa127fa; 0xd4ef3085; 0x04881d05; 0xd9d4d039; 0xe6db99e5; 0x1fa27cf8; 0xc4ac5665;
   0xf4292244; 0x432aff97; 0xab9423a7; 0xfc93a039; 0x655b59c3; 0x8f0ccc92; 0xffeff47d; 0x85845dd1;
   0x6fa87e4f; 0xfe2ce6e0; 0xa3014314; 0x4e0811a1; 0xf7537e82; 0xbd3af235; 0x2ad7d2bb; 0xeb86d391].

Definition state4 : Type := (Z * Z * Z * Z)%type.

Definition md5Words (msg : bytes) (offset : nat) : list Z :=
  map (fun i => be_value 0 (rev (quad msg (offset + i * 4)))) (seq 0 16).

Definition md5Round (m : list Z) (s : state4) (i : nat) : state4 :=
  let '(A, B, C, D) := s in
  let '(F, g) :=
    if (i <? 16)%nat then (Z.lor (Z.land B C) (Z.land (not32 B) D), i)
    else if (i <? 32)%nat then (Z.lor (Z.land D B) (Z.land (not32 D) C), (5 * i + 1) mod 16)%nat
    else if (i <? 48)%nat then (Z.lxor (Z.lxor B C) D, (3 * i + 5) mod 16)%nat
    else (Z.lxor C (Z.lor B (not32 D)), (7 * i) mod 16)%nat in
  let F := u32 (F + (A + word kK i + word m g)) in
  (D, u32 (B + rotl F (word kS i)), B, C).

Definition md5Block (msg : bytes) (h : state4) (offset : nat) : state4 :=
  let '(a0, b0, c0, d0) := h in
  let '(A, B, C, D) := foldl (md5Round (md5Words msg offset)) h (seq 0 64) in
  (u32 (a0 + A), u32 (b0 + B), u32 (c0 + C), u32 (d0 + D)).

Definition md5Init : state4 := (0x67452301, 0xefcdab89, 0x98badcfe, 0x10325476).

Definition md5 (input : bytes) : outcome bytes :=
  let! msg := padded (le_bytes 8) input in
  let '(a0, b0, c0, d0) := foldl (md5Block msg) md5Init (offsets msg) in
  Ok (le_bytes 4 a0 ++ le_bytes 4 b0 ++ le_bytes 4 c0 ++ le_bytes 4 d0).

(** ** In hexadecimal *)

Definition hexDigits : bytes := str "0123456789abcdef".

Definition hexOf (d : bytes) : bytes :=
  concat (map (fun b => [nth (Z.to_nat (Z.shiftr (b2z b) 4)) hexDigits x00; nth (Z.to_nat (Z.land (b2z b) 15)) hexDigits x00]) d).

Definition sha1Hex (input : bytes) : outcome bytes := let! d := sha1 input in Ok (hexOf d).
Definition md5Hex (input : bytes) : outcome bytes := let! d := md5 input in Ok (hexOf d).

Example sha1_abc : sha1Hex (str "abc") = Ok (str "a9993e364706816aba3e25717850c26c9cd0d89d").
Proof. by vm_compute. Qed.

Example md5_abc : md5Hex (str "abc") = Ok (str "900150983cd24fb0d6963f7d28e17f72").
Proof. by vm_compute. Qed.

(** ** Padding *)

Lemma land_high (x : Z) : 0 <= x -> Z.land x (2 ^ 32 - 64) = (x / 64) mod 2 ^ 26 * 64.
Proof.
  intros Hx. change (2 ^ 32 - 64) with (Z.shiftl (Z.ones 26) 6). change 64 with (2 ^ 6).
  rewrite <- Z.shiftl_mul_pow2, <- Z.land_ones, <- Z.shiftr_div_pow2 by lia. apply Z.bits_inj'. intros n Hn.
  rewrite Z.land_spec, !Z.shiftl_spec, Z.land_spec by done. destruct (Z.ltb_spec n 6).
  - rewrite (Z.testbit_neg_r _ (n - 6)), (Z.testbit_neg_r (Z.shiftr x 6)) by lia. by rewrite andb_false_r.
  - rewrite Z.shiftr_spec by lia. by replace (n - 6 + 6) with n by lia.
Qed.

(** The length for a message of [n] bytes: the next multiple of 64 that leaves
    nine more bytes, while that fits 32 bits. *)
Lemma padLen_small (n : Z) : 0 <= n -> n + 72 < 2 ^ 32 -> padLen n = (n + 72) / 64 * 64.
Proof.
  intros H0 Hn. unfold padLen, u64. rewrite Z.mod_small by lia. rewrite land_high by lia.
  replace (n + 9 + 63) with (n + 72) by lia.
  rewrite (Z.mod_small ((n + 72) / 64)); [done |]. split; [apply Z.div_pos; lia |]. apply Z.div_lt_upper_bound; lia.
Qed.

Lemma padLen_large (n : Z) : 2 ^ 32 <= n + 72 -> n < 2 ^ 63 -> padLen n < n.
Proof.
  intros Hn H63. unfold padLen, u64. rewrite Z.mod_small by lia. rewrite land_high by lia.
  replace (n + 9 + 63) with (n + 72) by lia.
  set (q := (n + 72) / 64). pose proof (Z.mod_pos_bound q (2 ^ 26) ltac:(lia)).
  destruct (Z_lt_ge_dec n (2 ^ 32)) as [Hlt | Hge]; [| lia].
  assert (Hq : q = 2 ^ 26 \/ q = 2 ^ 26 + 1).
  { unfold q. pose proof (Z.div_mod (n + 72) 64 ltac:(lia)). pose proof (Z.mod_pos_bound (n + 72) 64 ltac:(lia)). lia. }
  destruct Hq as [-> | ->]; [rewrite Z.mod_same by lia | rewrite <- Z.add_mod_idemp_l, Z.mod_same by lia]; change ((0 + 1) mod 2 ^ 26) with 1; lia.
Qed.

Lemma store_app (a b : bytes) (x y : byte) : store (size a) y (a ++ x :: b) = Ok (a ++ y :: b).
Proof.
  unfold store. rewrite size_app, size_cons. pose proof (size_nonneg a). pose proof (size_nonneg b).
  rewrite (proj2 (Z.leb_le _ _)), (proj2 (Z.ltb_lt _ _)) by lia. cbn [andb]. unfold size. rewrite Nat2Z.id.
  by rewrite insert_app_r_alt, Nat.sub_diag by lia.
Qed.

Lemma storeAll_app (a b octets : bytes) : length b = length octets -> storeAll (size a) octets (a ++ b) = Ok (a ++ octets).
Proof.
  revert a b. induction octets as [| o octets IH]; intros a [| x b] Hl; try done. cbn [storeAll]. rewrite store_app. cbn [obind].
  replace (size a + 1) with (size (a ++ [o])) by (rewrite size_app; done).
  replace (a ++ o :: b) with ((a ++ [o]) ++ b) by (by rewrite <- app_assoc). rewrite IH by (cbn in Hl; lia). by rewrite <- app_assoc.
Qed.

Lemma size_replicate (n : nat) (b : byte) : size (replicate n b) = Z.of_nat n.
Proof. unfold size. by rewrite length_replicate. Qed.

(** The padded message of the standards: a one bit, zeros, and the length, a
    whole number of blocks. *)
Definition padding (octets : Z -> bytes) (input : bytes) : bytes :=
  input ++ [x80] ++ replicate (Z.to_nat ((- (size input + 9)) mod 64)) x00 ++ octets (size input * 8).

Lemma padded_ok (octets : Z -> bytes) (input : bytes) :
  (forall v, length (octets v) = 8%nat) -> size input < 2 ^ 63 ->
  padded octets input = if size input + 72 <? 2 ^ 32 then Ok (padding octets input) else Undefined.
Proof.
  intros H8 H63. unfold padded. pose proof (size_nonneg input) as H0. destruct (Z.ltb_spec (size input + 72) (2 ^ 32)) as [Hs | Hs].
  - rewrite padLen_small by lia. set (n := size input) in *. set (p := (n + 72) / 64 * 64).
    assert (Hk : (- (n + 9)) mod 64 = p - n - 9 /\ n + 9 <= p).
    { unfold p. pose proof (Z.div_mod (n + 72) 64 ltac:(lia)). pose proof (Z.mod_pos_bound (n + 72) 64 ltac:(lia)).
      split; [| lia]. symmetry. apply (Z.mod_unique_pos _ _ (- ((n + 72) / 64))); lia. }
    destruct Hk as [Hk Hp]. rewrite (proj2 (Z.leb_le _ _)) by lia. unfold padding, u64. fold n.
    rewrite (Z.mod_small (n * 8)) by lia. rewrite Hk.
    replace (Z.to_nat p - length input)%nat with (S (Z.to_nat (p - n - 9) + 8)) by (unfold n, size in *; lia).
    cbn [replicate Nat.add]. change (store n) with (store (size input)). rewrite store_app. cbn [obind]. rewrite replicate_add.
    replace (p - 8) with (size (input ++ [x80] ++ replicate (Z.to_nat (p - n - 9)) x00)).
    + replace (input ++ x80 :: _ ++ _) with ((input ++ [x80] ++ replicate (Z.to_nat (p - n - 9)) x00) ++ replicate 8 x00)
        by (by rewrite <- !app_assoc).
      rewrite storeAll_app by (by rewrite H8). by rewrite <- !app_assoc.
    + rewrite !size_app, size_replicate. change (size [x80]) with 1. fold n. lia.
  - pose proof (padLen_large (size input) Hs H63). rewrite (proj2 (Z.leb_gt _ _)) by lia. done.
Qed.

Lemma padding_blocks (octets : Z -> bytes) (input : bytes) :
  (forall v, length (octets v) = 8%nat) -> exists n, length (padding octets input) = (n * 64)%nat.
Proof.
  intros H8. exists (Z.to_nat (size (padding octets input) / 64)). apply Nat2Z.inj. fold (size (padding octets input)).
  rewrite Nat2Z.inj_mul, Z2Nat.id by (apply Z.div_pos; [apply size_nonneg | lia]).
  assert (Hs : size (padding octets input) = size input + 9 + (- (size input + 9)) mod 64).
  { unfold padding. rewrite !size_app, size_replicate. change (size [x80]) with 1.
    assert (size (octets (size input * 8)) = 8) as -> by (unfold size at 1; by rewrite H8).
    pose proof (Z.mod_pos_bound (- (size input + 9)) 64 ltac:(lia)). lia. }
  rewrite Hs. set (m := size input + 9). pose proof (Z.div_mod (- m) 64 ltac:(lia)) as Hd.
  replace (m + (- m) mod 64) with ((- ((- m) / 64)) * 64) by lia. by rewrite Z.div_mul by lia.
Qed.
