(* ===== verification/DigestSpec.v ===== *)
(** The digests of Digest.v are those of the standards: SHA-1 as RFC 3174
    computes it with a queue of sixteen words (section 6.2), and MD5 as the
    operations on four registers that RFC 1321 lists. *)

From Stdlib Require Import ZArith Lia String Strings.Byte.
From stdpp Require Import base numbers option list.
From S2P Require Import Prelude CxxStd Endian Digest.
Open Scope Z_scope.

(** ** Blocks *)

(** The first [n] blocks of 64 bytes. *)
Fixpoint blocks (n : nat) (m : bytes) : list bytes :=
  match n with
  | O => []
  | S n' => take 64 m :: blocks n' (drop 64 m)
  end.

(** The sixteen words of a block, each of four bytes. *)
Fixpoint words (n : nat) (value : bytes -> Z) (block : bytes) : list Z :=
  match n with
  | O => []
  | S n' => value (take 4 block) :: words n' value (drop 4 block)
  end.

Lemma words_map (n : nat) (value : bytes -> Z) (block : bytes) (i : nat) :
  words n value (drop (i * 4) block) = map (fun i => value (quad block (i * 4))) (seq i n).
Proof.
  revert i. induction n as [| n IH]; intros i; [done |]. cbn [words seq map]. rewrite <- IH. unfold quad.
  by rewrite drop_drop, Nat.add_comm.
Qed.

(** The words the code takes out of the whole message. *)
Lemma block_words (value : bytes -> Z) (msg : bytes) (offset : nat) :
  map (fun i => value (quad msg (offset + i * 4))) (seq 0 16) = words 16 value (take 64 (drop offset msg)).
Proof.
  pose proof (words_map 16 value (take 64 (drop offset msg)) 0) as H. cbn [Nat.mul] in H. rewrite drop_0 in H. rewrite H.
  apply map_ext_in.
  intros i Hi%in_seq. f_equal. unfold quad. rewrite skipn_firstn_comm, take_take, drop_drop. f_equal. lia. 
Qed.

(** A function of blocks, folded over the offsets of a message. *)
Lemma fold_offsets {A : Type} (f : bytes -> A -> nat -> A) (g : A -> bytes -> A) (msg : bytes) (n : nat) (a : A) :
  (forall a offset, f msg a offset = g a (take 64 (drop offset msg))) -> length msg = (n * 64)%nat ->
  foldl (f msg) a (offsets msg) = foldl g a (blocks n msg).
Proof.
  intros Hf Hn. unfold offsets. rewrite Hn, Nat.div_mul by lia. clear Hn.
  assert (Hgo : forall k, foldl (f msg) a (map (fun i => i * 64)%nat (seq k n)) = foldl g a (blocks n (drop (k * 64) msg))).
  { revert a. induction n as [| n IH]; intros a k; [done |]. cbn [seq map foldl blocks]. rewrite Hf, IH, drop_drop.
    do 3 f_equal. lia. }
  apply (Hgo 0%nat).
Qed.

(** ** SHA-1 (RFC 3174) *)

(** Section 6.2: the queue holds the last sixteen words. *)
Definition nextWord (q : list Z) : Z :=
  rotl (Z.lxor (Z.lxor (Z.lxor (word q 13) (word q 8)) (word q 2)) (word q 0)) 1.

Fixpoint schedule (n : nat) (q : list Z) : list Z :=
  match n, q with
  | S n', w :: q' => w :: schedule n' (q' ++ [nextWord q])
  | _, _ => []
  end.

Definition sha1F (t : nat) (b c d : Z) : Z :=
  if (t <? 20)%nat then Z.lor (Z.land b c) (Z.land (not32 b) d)
  else if (t <? 40)%nat then Z.lxor (Z.lxor b c) d
  else if (t <? 60)%nat then Z.lor (Z.lor (Z.land b c) (Z.land b d)) (Z.land c d)
  else Z.lxor (Z.lxor b c) d.

Definition sha1K (t : nat) : Z :=
  if (t <? 20)%nat then 0x5A827999 else if (t <? 40)%nat then 0x6ED9EBA1 else if (t <? 60)%nat then 0x8F1BBCDC else 0xCA62C1D6.

(** The rounds take the words one by one. *)
Fixpoint sha1Rounds (t : nat) (ws : list Z) (s : state5) : state5 :=
  match ws with
  | [] => s
  | w :: ws' =>
      let '(a, b, c, d, e) := s in
      sha1Rounds (S t) ws' (u32 (rotl a 5 + sha1F t b c d + e + sha1K t + w), a, rotl b 30, c, d)
  end.

Definition sha1Compress (h : state5) (block : bytes) : state5 :=
  let '(h0, h1, h2, h3, h4) := h in
  let '(a, b, c, d, e) := sha1Rounds 0 (schedule 80 (words 16 (be_value 0) block)) h in
  (u32 (h0 + a), u32 (h1 + b), u32 (h2 + c), u32 (h3 + d), u32 (h4 + e)).

Definition sha1Spec (m : bytes) : bytes :=
  let p := padding (be_bytes 8) m in
  let '(h0, h1, h2, h3, h4) := foldl sha1Compress sha1Init (blocks (length p / 64) p) in
  concat (map (be_bytes 4) [h0; h1; h2; h3; h4]).

(** ** MD5 (RFC 1321) *)

(** The words a round takes and by how much it rotates: the table of section
    3.4, four rounds of sixteen operations. *)
Definition md5Table : list (Z * Z) :=
  [(0, 7); (1, 12); (2, 17); (3, 22); (4, 7); (5, 12); (6, 17); (7, 22);
   (8, 7); (9, 12); (10, 17); (11, 22); (12, 7); (13, 12); (14, 17); (15, 22);
   (1, 5); (6, 9); (11, 14); (0, 20); (5, 5); (10, 9); (15, 14); (4, 20);
   (9, 5); (14, 9); (3, 14); (8, 20); (13, 5); (2, 9); (7, 14); (12, 20);
   (5, 4); (8, 11); (11, 16); (14, 23); (1, 4); (4, 11); (7, 16); (10, 23);
   (13, 4); (0, 11); (3, 16); (6, 23); (9, 4); (12, 11); (15, 16); (2, 23);
   (0, 6); (7, 10); (14, 15); (5, 21); (12, 6); (3, 10); (10, 15); (1, 21);
   (8, 6); (15, 10); (6, 15); (13, 21); (4, 6); (11, 10); (2, 15); (9, 21)].

Definition md5F (t : nat) (x y z : Z) : Z :=
  if (t <? 16)%nat then Z.lor (Z.land x y) (Z.land (not32 x) z)
  else if (t <? 32)%nat then Z.lor (Z.land x z) (Z.land y (not32 z))
  else if (t <? 48)%nat then Z.lxor (Z.lxor x y) z
  else Z.lxor y (Z.lor x (not32 z)).

(** [a = b + ((a + F(b,c,d) + X\[k\] + T\[i\]) <<< s)] *)
Definition md5Op (x : list Z) (t : nat) (a b c d : Z) : Z :=
  let '(k, s) := nth t md5Table (0, 0) in
  u32 (b + rotl (u32 (a + md5F t b c d + word x (Z.to_nat k) + word kK t)) s).

(** The operations name the registers in turn: ABCD, DABC, CDAB, BCDA. *)
Definition md5Step (x : list Z) (r : state4) (t : nat) : state4 :=
  let '(a, b, c, d) := r in
  match (t mod 4)%nat with
  | 0%nat => (md5Op x t a b c d, b, c, d)
  | 1%nat => (a, b, c, md5Op x t d a b c)
  | 2%nat => (a, b, md5Op x t c d a b, d)
  | _ => (a, md5Op x t b c d a, c, d)
  end.

Definition md5Compress (h : state4) (block : bytes) : state4 :=
  let '(a0, b0, c0, d0) := h in
  let '(a, b, c, d) := foldl (md5Step (words 16 (fun q => be_value 0 (rev q)) block)) h (seq 0 64) in
  (u32 (a0 + a), u32 (b0 + b), u32 (c0 + c), u32 (d0 + d)).

Definition md5Spec (m : bytes) : bytes :=
  let p := padding (le_bytes 8) m in
  let '(a, b, c, d) := foldl md5Compress md5Init (blocks (length p / 64) p) in
  concat (map (le_bytes 4) [a; b; c; d]).

(** ** SHA-1: the array of eighty words is the queue *)

Lemma length_extend (ws : list Z) (i : nat) : length (extend ws i) = S (length ws).
Proof. unfold extend. rewrite length_app. cbn. lia. Qed.

Lemma schedule_extend (n : nat) (pre q : list Z) :
  length q = 16%nat ->
  foldl extend (pre ++ q) (seq (length pre + 16) n) = pre ++ schedule (n + 16) q.
Proof.
  revert pre q. induction n as [| n IH]; intros pre q Hq.
  - destruct q as [| w0 [| w1 [| w2 [| w3 [| w4 [| w5 [| w6 [| w7 [| w8 [| w9 [| wa [| wb [| wc [| wd [| we [| wf [|]]]]]]]]]]]]]]]]];
      try done.
  - destruct q as [| w q]; [done |]. cbn [seq foldl].
    assert (He : extend (pre ++ w :: q) (length pre + 16) = (pre ++ [w]) ++ (q ++ [nextWord (w :: q)])).
    { unfold extend, nextWord, word. rewrite !app_nth2 by lia. rewrite <- !app_assoc. cbn [app]. do 4 f_equal.
      repeat f_equal; lia. }
    rewrite He. replace (S (length pre + 16)) with (length (pre ++ [w]) + 16)%nat by (rewrite length_app; cbn; lia).
    rewrite IH by (rewrite length_app; cbn in *; lia). by rewrite <- app_assoc.
Qed.

Lemma length_words (n : nat) (value : bytes -> Z) (block : bytes) : length (words n value block) = n.
Proof. revert block. induction n as [| n IH]; intros block; [done |]. cbn. by rewrite IH. Qed.

Lemma sha1Words_schedule (msg : bytes) (offset : nat) :
  sha1Words msg offset = schedule 80 (words 16 (be_value 0) (take 64 (drop offset msg))).
Proof.
  unfold sha1Words. rewrite block_words. pose proof (length_words 16 (be_value 0) (take 64 (drop offset msg))) as Hq.
  revert Hq. generalize (words 16 (be_value 0) (take 64 (drop offset msg))). intros q Hq. exact (schedule_extend 64 [] q Hq).
Qed.

Lemma sha1Rounds_fold (ws pre : list Z) (s : state5) :
  foldl (sha1Round (pre ++ ws)) s (seq (length pre) (length ws)) = sha1Rounds (length pre) ws s.
Proof.
  revert pre s. induction ws as [| w ws IH]; intros pre s; [done |]. cbn [length seq foldl sha1Rounds].
  replace (pre ++ w :: ws) with ((pre ++ [w]) ++ ws) by (by rewrite <- app_assoc).
  replace (S (length pre)) with (length (pre ++ [w])) by (rewrite length_app; cbn; lia).
  destruct s as [[[[a b] c] d] e]. rewrite IH. f_equal. unfold sha1Round, sha1F, sha1K.
  assert (Hw : word ((pre ++ [w]) ++ ws) (length pre) = w).
  { unfold word. rewrite <- app_assoc, app_nth2, Nat.sub_diag by lia. done. }
  rewrite Hw. by destruct (length pre <? 20)%nat, (length pre <? 40)%nat, (length pre <? 60)%nat.
Qed.

Lemma length_schedule (n : nat) (q : list Z) : q <> [] -> length (schedule n q) = n.
Proof.
  revert q. induction n as [| n IH]; intros [| w q] Hq; try done. cbn [schedule length]. rewrite IH; [done |]. by destruct q.
Qed.

Lemma sha1Block_compress (msg : bytes) (h : state5) (offset : nat) :
  sha1Block msg h offset = sha1Compress h (take 64 (drop offset msg)).
Proof.
  unfold sha1Block, sha1Compress. rewrite sha1Words_schedule.
  set (q := words 16 (be_value 0) (take 64 (drop offset msg))).
  assert (Hl : length (schedule 80 q) = 80%nat) by (by apply length_schedule).
  pose proof (sha1Rounds_fold (schedule 80 q) [] h) as Hr. cbn [app length] in Hr. rewrite Hl in Hr. by rewrite Hr.
Qed.

(** ** MD5: the code turns the registers, the standard the roles *)

(** The registers in the order of their roles at operation [t]. *)
Definition view (t : nat) (r : state4) : state4 :=
  let '(a, b, c, d) := r in
  match (t mod 4)%nat with
  | 0%nat => (a, b, c, d)
  | 1%nat => (d, a, b, c)
  | 2%nat => (c, d, a, b)
  | _ => (b, c, d, a)
  end.

(** The formulas of the code give the rows of the table. *)
Definition md5Row (t : nat) : bool :=
  let '(k, s) := nth t md5Table (0, 0) in
  (word kS t =? s) &&
  (Z.to_nat k =? if (t <? 16)%nat then t
                 else if (t <? 32)%nat then (5 * t + 1) mod 16
                 else if (t <? 48)%nat then (3 * t + 5) mod 16 else (7 * t) mod 16)%nat.

Lemma md5Rows (t : nat) : (t < 64)%nat -> md5Row t = true.
Proof.
  intros Ht. assert (H : forallb md5Row (seq 0 64) = true) by (by vm_compute). rewrite forallb_forall in H.
  apply H, in_seq. lia.
Qed.

Lemma md5Round_op (x : list Z) (t : nat) (a b c d : Z) :
  (t < 64)%nat -> md5Round x (a, b, c, d) t = (d, md5Op x t a b c d, b, c).
Proof.
  intros Ht. pose proof (md5Rows t Ht) as Hr. unfold md5Row in Hr. unfold md5Round, md5Op, md5F.
  destruct (nth t md5Table (0, 0)) as [k s]. apply andb_prop in Hr as [->%Z.eqb_eq Hk%Nat.eqb_eq]. rewrite Hk.
  assert (Hu : forall f w, u32 (f + (a + word kK t + w)) = u32 (a + f + w + word kK t)) by (intros; f_equal; lia).
  by destruct (t <? 16)%nat, (t <? 32)%nat, (t <? 48)%nat; rewrite Hu, ?(Z.land_comm d b), ?(Z.land_comm (not32 d) c).
Qed.

Lemma view_step (x : list Z) (t : nat) (r : state4) :
  (t < 64)%nat -> md5Round x (view t r) t = view (S t) (md5Step x r t).
Proof.
  intros Ht. destruct r as [[[a b] c] d]. unfold view, md5Step.
  pose proof (Nat.mod_upper_bound t 4 ltac:(lia)) as Hb.
  assert (Hs : (S t mod 4 = if t mod 4 =? 3 then 0 else S (t mod 4))%nat).
  { rewrite <- Nat.add_1_r, <- Nat.Div0.add_mod_idemp_l. destruct (t mod 4)%nat as [| [| [| [| m]]]]; try done. lia. }
  rewrite Hs. destruct (t mod 4)%nat as [| [| [| [| m]]]]; try lia; by rewrite md5Round_op.
Qed.

Lemma md5_rounds (x : list Z) (n : nat) (r : state4) :
  (n <= 64)%nat -> foldl (md5Round x) r (seq 0 n) = view n (foldl (md5Step x) r (seq 0 n)).
Proof.
  induction n as [| n IH]; intros Hn; [by destruct r as [[[a b] c] d] |].
  rewrite seq_S, !foldl_snoc, IH by lia. apply view_step. lia.
Qed.

Lemma md5Block_compress (msg : bytes) (h : state4) (offset : nat) :
  md5Block msg h offset = md5Compress h (take 64 (drop offset msg)).
Proof.
  unfold md5Block, md5Compress, md5Words. rewrite (block_words (fun q => be_value 0 (rev q))), md5_rounds by lia.
  by destruct (foldl _ h _) as [[[a b] c] d].
Qed.

Lemma sha1_standard (m : bytes) :
  size m < 2 ^ 63 -> sha1 m = if size m + 72 <? 2 ^ 32 then Ok (sha1Spec m) else Undefined.
Proof.
  intros Hm. unfold sha1. rewrite padded_ok by (done || (intros; apply length_be_bytes)).
  destruct (size m + 72 <? 2 ^ 32); [| done]. cbn [obind]. unfold sha1Spec.
  destruct (padding_blocks (be_bytes 8) m) as [n Hn]; [intros; apply length_be_bytes |].
  rewrite (fold_offsets sha1Block sha1Compress _ n) by (done || (intros; apply sha1Block_compress)).
  rewrite Hn, Nat.div_mul by lia. destruct (foldl _ _ _) as [[[[h0 h1] h2] h3] h4]. cbn [map concat]. by rewrite app_nil_r.
Qed.

Lemma md5_standard (m : bytes) :
  size m < 2 ^ 63 -> md5 m = if size m + 72 <? 2 ^ 32 then Ok (md5Spec m) else Undefined.
Proof.
  intros Hm. assert (H8 : forall v, length (le_bytes 8 v) = 8%nat) by (intros v; apply length_rev).
  unfold md5. rewrite padded_ok by done. destruct (size m + 72 <? 2 ^ 32); [| done]. cbn [obind]. unfold md5Spec.
  destruct (padding_blocks (le_bytes 8) m H8) as [n Hn].
  rewrite (fold_offsets md5Block md5Compress _ n) by (done || (intros; apply md5Block_compress)).
  rewrite Hn, Nat.div_mul by lia. destruct (foldl _ _ _) as [[[h0 h1] h2] h3]. cbn [map concat]. by rewrite app_nil_r.
Qed.

Lemma length_sha1Spec (m : bytes) : length (sha1Spec m) = 20%nat.
Proof. unfold sha1Spec. by destruct (foldl _ _ _) as [[[[h0 h1] h2] h3] h4]. Qed.

(** C38: both digests are the standards': for a message of less than
    [2^32 - 72] bytes [sha1] and [md5] compute what RFC 3174 and RFC 1321 define;
    for any longer one the mask [~63u] cuts the length of the padded copy to 32
    bits and the message is copied past its end. *)
Theorem digests_standard (m : bytes) (Hm : size m < 2 ^ 63) :
  (sha1 m = if size m + 72 <? 2 ^ 32 then Ok (sha1Spec m) else Undefined)
  /\ (md5 m = if size m + 72 <? 2 ^ 32 then Ok (md5Spec m) else Undefined).
Proof. split; [by apply sha1_standard | by apply md5_standard]. Qed.

Lemma digests_standard_witness :
  let m := str "The quick brown fox jumps over the lazy dog" in
  (sha1 m = Ok (sha1Spec m) /\ md5 m = Ok (md5Spec m))
  /\ sha1Hex m = Ok (str "2fd4e1c67a2d28fced849ee1bb76e7391b93eb12")
  /\ md5Hex m = Ok (str "9e107d9d372bb6826bd81d3542a419d6").
Proof.
  intros m. split; [exact (digests_standard m eq_refl) | split; by vm_compute].
Defined.
