(* ===== verification/WsHandshake.v ===== *)
(** The WebSocket handshake (RFC 6455, section 4): the upgrader
    [WsServer::handleUpgrade] (WsServer.cc, WsContextImpl.cc) that an HTTP server
    is given, [WsRouter] (WsRouter.h, WsRouter.cc), and [WsClient::connect]
    (WsClient.cc) of src/extensions/websocket/src. *)

From Stdlib Require Import ZArith Lia String Strings.Byte.
From stdpp Require Import base numbers option list gmap.
From S2P Require Import Prelude CxxStd Base64 ByteStream Conn OrdMap HttpTypes HttpOutgoing Router HttpServer Url Digest.
Open Scope Z_scope.

Definition kWebSocketGuid : bytes := str "258EAFA5-E914-47DA-95CA-C5AB0DC85B11".

(** [computeAccept] of the server and [computeExpectedAccept] of the client. *)
Definition computeAccept (key : bytes) : outcome bytes :=
  let! digest := sha1 (key ++ kWebSocketGuid) in base64Encode digest.

(** ** The server *)

(** A stream, and the coroutines that wait for a connection on it and have got
    it: the promise [connPromisePtr] is set, and the scheduler will resume
    them.  Reading and writing is the stream's. *)
Record Hosted (S : Type) : Type := mkHosted {
  host_stream : S;
  resumed : list (M S unit)
}.
Arguments mkHosted {S}.
Arguments host_stream {S}.
Arguments resumed {S}.

#[export, refine] Instance hosted_stream {S : Type} `{!ByteStream S} : ByteStream (Hosted S) := {
  stream_read n s := let '(r, s') := stream_read n (host_stream s) in (r, mkHosted s' (resumed s));
  stream_write d s := mkHosted (stream_write d (host_stream s)) (resumed s);
  pending s := pending (host_stream s);
  sent s := sent (host_stream s)
}.
Proof.
  - intros n s s' r H. destruct (stream_read n (host_stream s)) as [r0 s0] eqn:Hr. simplify_eq/=.
    by apply stream_read_ok in Hr.
  - intros d s. apply stream_write_ok.
Defined.

(** [connPromisePtr->set_value(conn)]: the coroutine that waits for it goes on
    with the connection, later and on its own. *)
Definition setConnection {S : Type} (program : M S unit) : M (Hosted S) unit := fun s =>
  (Ok tt, mkHosted (host_stream s) (resumed s ++ [program])).

Section server.
Context {S : Type} `{!ByteStream S} {Regex : Type}.
Context (reg : MethodRegistry) (iteration : gmap HttpMethod bool -> list HttpMethod).
Context (compile : bytes -> outcome Regex) (regex_match : bytes -> Regex -> option (list bytes)).

(** A handler is a program that is given the exchange and either ends (or
    throws) without calling [accept], or calls it and, when it gets the
    connection, goes on with it, on the stream. *)
Definition WsHandler : Type := M (@Exchange (Hosted S)) (option (M S unit)).

Abbreviation WsRouter := (@HttpRouter Regex WsHandler).

(** [WsRouter::addRoute] and [addRouteRegex]: everything is registered for GET. *)
Definition addRoute (path : bytes) (h : WsHandler) : M WsRouter unit := addHandler reg iteration path [Get] h.
Definition addRouteRegex (pattern : bytes) (h : WsHandler) : M WsRouter unit := addHandlerRegex reg iteration compile pattern [Get] h.

(** What the server answers when it does not upgrade. *)
Definition refuse (code : Z) (text : string) : M (@Exchange (Hosted S)) (option (@StreamHandler (Hosted S))) :=
  let* _ := respond (fun r => setBody (str text) (setStatus code [] r)) in mret None.

(** The coroutine that is spawned for the handler, until the context is
    accepted or goes away; that is when [handleUpgrade], which does nothing but
    wait for it, goes on.  What the handler throws is logged, before it accepts
    and after. *)
Definition runHandler (h : WsHandler) : WsHandler :=
  mtry (let* program := h in
        mret ((fun p => mtry p (fun _ => mret tt)) <$> program)) (fun _ => mret None).

Definition switching (accept : bytes) (r : ServerResponse) : ServerResponse :=
  setHeaderCode NC_SecWebSocketAccept accept
    (setHeaderCode NC_Connection (str "Upgrade")
      (setHeaderCode NC_Upgrade (str "websocket") (setStatus 101 [] r))).

(** The stream handler sets the promise for which the handler that accepted
    waits.  Without one it does nothing, and the stream is closed. *)
Definition handleUpgrade (router_ : WsRouter) : M (@Exchange (Hosted S)) (option (@StreamHandler (Hosted S))) :=
  let* x := mget in
  let upgrade := getHeaderCode NC_Upgrade (headers (x_request x)) in
  if bool_decide (toLower upgrade <> str "websocket") then refuse 400 "Unsupported upgrade protocol"
  else
    match wsRoute regex_match (path (x_request x)) router_ with
    | (None, _) => refuse 404 "Not Found"
    | (Some h, params) =>
        let key := getHeaderCode NC_SecWebSocketKey (headers (x_request x)) in
        if bool_decide (key = []) then refuse 400 "Missing Sec-WebSocket-Key"
        else
          let* accept := mlift (computeAccept key) in
          let* _ := respond (switching accept) in
          let* _ := (fun x => (Ok tt, set_pathParams params x)) in
          let* accepted := runHandler h in
          match accepted with
          | Some program => mret (Some (setConnection program))
          | None => mret (Some (mret tt))
          end
    end.
End server.

(** ** The client *)

Section client.
Context {S : Type} `{!ByteStream S} {Addr Tcp : Type}.

(** What a call of [connect] finds outside: the name service, the network, the
    upgrader of a [wss] URL if there is one, and sixteen random octets. *)
Record Env : Type := mkEnv {
  resolve : bytes -> outcome (list Addr);
  tcpConnect : Addr -> Z -> outcome Tcp;
  plainStream : Tcp -> S;
  upgrader_ : option (Tcp -> outcome (option S));
  raw : bytes
}.

Definition generateKey (raw : bytes) : outcome bytes := base64Encode raw.

Definition endsHead (buf : bytes) : bool :=
  (4 <=? length buf)%nat && bool_decide (drop (length buf - 4) buf = CRLF ++ CRLF).

(** One byte per round. *)
Fixpoint readUntilHeadersEnd (fuel : nat) (buf : bytes) : M S bytes := fun s =>
  match fuel with
  | O => (Diverge, s)
  | Datatypes.S fuel' =>
      match stream_read 1 s with
      | (c :: _, s') =>
          let buf := buf ++ [c] in
          if endsHead buf then (Ok buf, s') else readUntilHeadersEnd fuel' buf s'
      | ([], s') => (Throw (RuntimeError "WsClient: connection closed during handshake"), s')
      end
  end.

Definition handshakeRequest (fullPath host key : bytes) : bytes :=
  str "GET " ++ fullPath ++ str " HTTP/1.1" ++ CRLF
  ++ str "Host: " ++ host ++ CRLF
  ++ str "Upgrade: websocket" ++ CRLF
  ++ str "Connection: Upgrade" ++ CRLF
  ++ str "Sec-WebSocket-Key: " ++ key ++ CRLF
  ++ str "Sec-WebSocket-Version: 13" ++ CRLF
  ++ CRLF.

(** [connect] from the stream on. *)
Definition handshake (fullPath host raw : bytes) : M S unit :=
  let* key := mlift (generateKey raw) in
  let* expectedAccept := mlift (computeAccept key) in
  let* _ := (fun s => (Ok tt, stream_write (handshakeRequest fullPath host key) s)) in
  let* resp := (fun s => readUntilHeadersEnd (Datatypes.S (length (pending s))) [] s) in
  if sv_find_str resp (str "101") 0 =? npos then
    mthrow (RuntimeError "WsClient: server did not return 101")
  else if sv_find_str resp expectedAccept 0 =? npos then
    mthrow (RuntimeError "WsClient: invalid Sec-WebSocket-Accept")
  else mret tt.

(** The connection is the stream, in the role of the client. *)
Definition connect (env : Env) (url : Url) : outcome S :=
  if negb (valid_ url) then Throw (InvalidArgument "WsClient: invalid URL")
  else
    let! addresses := resolve env (host_ url) in
    match addresses with
    | [] => Throw (RuntimeError "WsClient: DNS resolution failed")
    | a :: _ =>
        let! tcp := tcpConnect env a (port_ url) in
        let! stream :=
          (if decide (scheme_ url = str "wss") then
             match upgrader_ env with
             | None => Throw (RuntimeError "WsClient: wss:// requires a StreamUpgrader")
             | Some up =>
                 let! s := up tcp in
                 match s with
                 | None => Throw (RuntimeError "WsClient: stream upgrade failed")
                 | Some s => Ok s
                 end
             end
           else Ok (plainStream env tcp)) in
        let '(o, stream) := handshake (fullPath_ url) (host_ url) (raw env) stream in
        let! _ := o in Ok stream
    end.
End client.
