(* ===== verification/WsHandshakeSpec.v ===== *)
(** The handshake succeeds: what [WsClient] writes is what [WsServer], behind an
    [HttpServer], upgrades, and what the server answers is what the client
    accepts; both go on with the stream, of which the client has read nothing
    but the answer. *)

From Stdlib Require Import ZArith Lia String Strings.Byte.
From stdpp Require Import base numbers option list gmap.
From S2P Require Import Prelude CxxStd Split Base64 ByteStream StringBuffer Conn BodyReader Chunked OrdMap HttpTypes CookieCodec.
From S2P Require Import HttpParser HttpHead Http1Sink Http1Reader Http1RoundTrip ReadOnly HttpOutgoing ResponseRoundTrip Router.
From S2P Require Import HttpServer HttpServerSpec Url Digest DigestSpec WsHandshake.
Open Scope Z_scope.

(** ** Base64 text is plain *)

Definition plain (s : bytes) : Prop := Forall (fun b => Byte.eqb x20 b = false /\ Byte.eqb x0d b = false) s.

Lemma enc_plain (v : Z) : Byte.eqb x20 (enc v) = false /\ Byte.eqb x0d (enc v) = false.
Proof.
  assert (H : forallb (fun b => negb (Byte.eqb x20 b) && negb (Byte.eqb x0d b)) (x00 :: kEncTable) = true) by (by vm_compute).
  rewrite forallb_forall in H. specialize (H (enc v)). unfold enc in *.
  destruct (nth_in_or_default (Z.to_nat v) kEncTable x00) as [Hin | Hd].
  - specialize (H ltac:(by right)). apply andb_prop in H as [H1 H2]. by rewrite negb_true_iff in H1, H2.
  - by rewrite Hd.
Qed.

Lemma encodeSpec_plain (s : bytes) : plain (encodeSpec s).
Proof.
  induction s as [| a | a b | a b c s IH] using triple_ind; cbn [encodeSpec app]; unfold plain in *;
    repeat (apply Forall_cons; split; [first [apply enc_plain | by split] |]); first [exact IH | constructor].
Qed.

Lemma plain_no_cr (s : bytes) : plain s -> no_cr s.
Proof. intros H. eapply Forall_impl; [exact H | by intros b [_ ?]]. Qed.

Lemma plain_trimmed (s : bytes) : plain s -> trimmed s = true.
Proof.
  intros H. destruct s as [| b s]; [done |]. unfold trimmed. rewrite (proj1 (Forall_inv H)).
  assert (Hl : In (List.last (b :: s) x00) (b :: s)) by (destruct (@exists_last _ (b :: s) ltac:(done)) as (l & z & ->);
    rewrite last_last; apply in_or_app; right; by left).
  unfold plain in H. rewrite List.Forall_forall in H. by rewrite (proj1 (H _ Hl)).
Qed.

(** ** Reading a head to its end *)

(** A head: lines that are not empty and hold no carriage return, and an empty one. *)
Definition headText (ls : list bytes) : bytes := linesText ls ++ CRLF.

Definition head_lines (ls : list bytes) : Prop := Forall (fun l => no_cr l /\ l <> []) ls.

Lemma split_at_cr (l p r r' : bytes) :
  no_cr l -> p ++ x0d :: r = l ++ x0d :: r' ->
  (p = l /\ r = r') \/ exists p', p = l ++ x0d :: p' /\ r' = p' ++ x0d :: r.
Proof.
  intros Hl. revert p. induction Hl as [| b l Hb Hl IH]; intros p H.
  - destruct p as [| c p]; cbn [app] in H; injection H as H; [by left |]. right. subst c. by exists p.
  - destruct p as [| c p]; injection H as H1 H2; [subst b; done |]. subst c.
    destruct (IH p H2) as [[-> ->] | (p' & -> & ->)]; [by left | right; by exists p'].
Qed.

Lemma head_ends_once (ls : list bytes) (p q : bytes) :
  head_lines ls -> headText ls = p ++ CRLF ++ CRLF ++ q -> q = [].
Proof.
  unfold headText, linesText. change CRLF with [x0d; x0a]. intros Hls. revert p.
  induction Hls as [| l ls [Hcr Hne] Hls IH]; intros p H.
  - apply (f_equal length) in H. cbn [map concat app length] in H. rewrite !length_app in H. cbn in H. lia.
  - cbn [map concat] in H. rewrite <- !app_assoc in H. cbn [app] in H. symmetry in H.
    destruct (split_at_cr _ _ _ _ Hcr H) as [[-> He] | (p' & -> & He)].
    + injection He as He. destruct Hls as [| l2 ls [Hcr2 Hne2] Hls].
      * cbn in He. by injection He.
      * cbn [map concat] in He. destruct l2 as [| b l2]; [done |]. cbn [app] in He. injection He as <- _.
        by apply Forall_inv in Hcr2.
    + destruct p' as [| b p']; [done |]. injection He as <- He. by apply (IH p').
Qed.

Lemma endsHead_spec (s : bytes) : endsHead s = true -> exists p, s = p ++ CRLF ++ CRLF.
Proof.
  unfold endsHead. intros [_ H%bool_decide_eq_true]%andb_prop. exists (take (length s - 4) s).
  rewrite <- H. by rewrite take_drop.
Qed.

Lemma endsHead_app (p : bytes) : endsHead (p ++ CRLF ++ CRLF) = true.
Proof.
  unfold endsHead. rewrite length_app. change (length (CRLF ++ CRLF)) with 4%nat.
  rewrite (proj2 (Nat.leb_le _ _)) by lia. replace (length p + 4 - 4)%nat with (length p) by lia.
  rewrite drop_app_length. by rewrite bool_decide_eq_true_2.
Qed.

Lemma headText_ends (ls : list bytes) : ls <> [] -> exists p, headText ls = p ++ CRLF ++ CRLF.
Proof.
  intros H. destruct (exists_last H) as (l & z & ->). unfold headText. exists (linesText l ++ z).
  rewrite linesText_app. unfold linesText at 2. cbn [map concat]. by rewrite app_nil_r, <- !app_assoc.
Qed.

Section reading.
Context {S : Type} `{!ByteStream S}.

(** One byte of what is pending. *)
Lemma read_byte (s : S) (b : byte) (t : bytes) :
  pending s = b :: t -> exists s', stream_read 1 s = ([b], s') /\ pending s' = t /\ sent s' = sent s.
Proof.
  intros Hp. destruct (stream_read 1 s) as [r s'] eqn:Hr. destruct (stream_read_ok _ _ _ _ Hr) as (H1 & H2 & H3 & H4).
  rewrite Hp in *. destruct r as [| c [| c' r]]; cbn in H2; try lia.
  - by destruct (H3 eq_refl).
  - cbn [app] in H1. injection H1 as <- H1. by exists s'.
Qed.

Lemma readUntilHeadersEnd_ok (t buf more : bytes) (fuel : nat) (s : S) :
  t <> [] -> pending s = t ++ more -> (length t <= fuel)%nat -> endsHead (buf ++ t) = true ->
  (forall p q, t = p ++ q -> p <> [] -> q <> [] -> endsHead (buf ++ p) = false) ->
  exists s', readUntilHeadersEnd fuel buf s = (Ok (buf ++ t), s') /\ pending s' = more /\ sent s' = sent s.
Proof.
  revert buf fuel s. induction t as [| b t IH]; intros buf fuel s Hne Hp Hf Hend Hnot; [done |].
  destruct fuel as [| fuel]; [cbn in Hf; lia |]. cbn [readUntilHeadersEnd].
  destruct (read_byte s b (t ++ more) Hp) as (s1 & -> & Hp1 & Hs1). destruct t as [| b2 t].
  - rewrite Hend. by exists s1.
  - rewrite (Hnot [b] (b2 :: t)) by done.
    destruct (IH (buf ++ [b]) fuel s1) as (s2 & -> & Hp2 & Hs2).
    + done.
    + done.
    + cbn in *. lia.
    + by rewrite <- app_assoc.
    + intros p q Hpq Hpn Hqn. rewrite <- app_assoc. apply (Hnot (b :: p) q); [by rewrite Hpq | done | done].
    + exists s2. rewrite <- app_assoc. split; [done |]. by rewrite Hs2.
Qed.

(** Of what arrives, the head is read and nothing else. *)
Lemma read_head (ls : list bytes) (more : bytes) (s : S) :
  ls <> [] -> head_lines ls -> pending s = headText ls ++ more ->
  exists s', readUntilHeadersEnd (Datatypes.S (length (pending s))) [] s = (Ok (headText ls), s')
    /\ pending s' = more /\ sent s' = sent s.
Proof.
  intros Hne Hls Hp. destruct (headText_ends ls Hne) as [p0 H0].
  apply (readUntilHeadersEnd_ok (headText ls) [] more).
  - rewrite H0. by destruct p0.
  - done.
  - rewrite Hp, length_app. lia.
  - cbn [app]. rewrite H0. apply endsHead_app.
  - intros p q Hpq _ Hq. destruct (endsHead ([] ++ p)) eqn:He; [| done]. apply endsHead_spec in He as [p' Hp'].
    cbn [app] in Hp'. subst p. rewrite <- !app_assoc in Hpq. by apply head_ends_once in Hpq.
Qed.
End reading.

Lemma index_of_sub_found (pat a b : bytes) : exists i, index_of_sub pat (a ++ pat ++ b) = Some i /\ (i <= length a)%nat.
Proof.
  assert (H0 : forall p r, starts_with p (p ++ r) = true).
  { induction p as [| c p IH]; intros r; [done |]. cbn. rewrite IH. by destruct c. }
  induction a as [| c a (i & IH & Hi)].
  - exists 0%nat. split; [| done]. cbn [app]. specialize (H0 pat b). by destruct (pat ++ b); unfold index_of_sub; rewrite H0.
  - cbn [app index_of_sub]. destruct (starts_with pat _); [exists 0%nat; split; [done | lia] |]. rewrite IH.
    exists (Datatypes.S i). cbn. split; [done | lia].
Qed.

Lemma index_of_sub_sound (pat s : bytes) (i : nat) :
  index_of_sub pat s = Some i -> exists a b, s = a ++ pat ++ b.
Proof.
  assert (H0 : forall p r, starts_with p r = true -> exists q, r = p ++ q).
  { induction p as [| c p IH]; intros r H; [by exists r |]. destruct r as [| d r]; [done |]. cbn [starts_with] in H.
    apply andb_prop in H as [Hd H]. apply Byte.byte_dec_bl in Hd as <-. destruct (IH _ H) as [q ->]. by exists q. }
  revert i. induction s as [| c s IH]; intros i H; cbn [index_of_sub] in H; destruct (starts_with pat _) eqn:Hs; try done.
  - apply H0 in Hs as [q Hq]. exists [], q. exact Hq.
  - apply H0 in Hs as [q Hq]. exists [], q. exact Hq.
  - destruct (index_of_sub pat s) as [j |]; [| done]. destruct (IH j eq_refl) as (a & b & ->). by exists (c :: a), b.
Qed.

Lemma find_str_found (pat a b : bytes) : size (a ++ pat ++ b) < npos -> (sv_find_str (a ++ pat ++ b) pat 0 =? npos) = false.
Proof.
  intros Hs. unfold sv_find_str. pose proof (size_nonneg (a ++ pat ++ b)). rewrite (proj2 (Z.ltb_ge _ _)) by done.
  change (Z.to_nat 0) with 0%nat. rewrite drop_0. destruct (index_of_sub_found pat a b) as (i & -> & Hi). cbn [to_pos].
  apply Z.eqb_neq. rewrite size_app in Hs. pose proof (size_nonneg (pat ++ b)). unfold size in *. lia.
Qed.

(** ** The client's side *)

Definition holds (pat s : bytes) : Prop := exists a b, s = a ++ pat ++ b.

Lemma find_str_spec (pat s : bytes) : size s < npos -> (sv_find_str s pat 0 =? npos) = false <-> holds pat s.
Proof.
  intros Hs. split; [| intros (a & b & ->); by apply find_str_found].
  unfold sv_find_str. pose proof (size_nonneg s). rewrite (proj2 (Z.ltb_ge _ _)) by done.
  change (Z.to_nat 0) with 0%nat. rewrite drop_0. destruct (index_of_sub pat s) as [i |] eqn:Hi; [| done].
  intros _. by apply index_of_sub_sound in Hi.
Qed.

(** The client accepts a head exactly when it holds the status and the proof of
    the key, and reads nothing but the head. *)
Lemma handshake_checks {W : Type} `{!ByteStream W} (fullPath host raw accept more : bytes) (ls : list bytes) (w : W) :
  computeAccept (encodeSpec raw) = Ok accept -> ls <> [] -> head_lines ls -> size (headText ls) < npos ->
  pending w = headText ls ++ more ->
  exists o w', handshake fullPath host raw w = (o, w') /\ pending w' = more
    /\ sent w' = sent w ++ handshakeRequest fullPath host (encodeSpec raw)
    /\ (o = Ok tt <-> holds (str "101") (headText ls) /\ holds accept (headText ls)).
Proof.
  intros Hacc Hne Hls Hs Hp. unfold handshake, generateKey.
  rewrite base64Encode_spec. unfold mbind at 1. unfold mlift at 1. rewrite Hacc. unfold mbind at 1. unfold mlift at 1.
  unfold mbind at 1. set (req := handshakeRequest fullPath host (encodeSpec raw)).
  destruct (stream_write_ok req w) as [Hsent Hpend]. rewrite Hp in Hpend. unfold mbind at 1.
  destruct (read_head ls more (stream_write req w) Hne Hls Hpend) as (w' & -> & Hp' & Hs').
  rewrite Hsent in Hs'. pose proof (find_str_spec (str "101") _ Hs) as F1. pose proof (find_str_spec accept _ Hs) as F2.
  destruct (sv_find_str _ (str "101") 0 =? npos); [eexists _, w'; split; [reflexivity |]; naive_solver |].
  destruct (sv_find_str _ accept 0 =? npos); eexists _, w'; (split; [reflexivity |]); naive_solver.
Qed.

(** ** The server's side: the request *)

Section server.
Context {S : Type} `{!ByteStream S} {Regex : Type} (reg : MethodRegistry).
Context (regex_match : bytes -> Regex -> option (list bytes)).

(** The registry knows GET by its name. *)
Definition knows_get : Prop := methodToString reg HttpTypes.Get = str "GET" /\ methodFromString reg (str "GET") = HttpTypes.Get.

Definition upgradeTarget (fullPath : bytes) : HttpRequest :=
  mkRequest kHttp11 HttpTypes.Get fullPath [] [] [] [] [] ContentLength 0 true.

Definition upgradeHeaders (host key : bytes) : list HttpHeader :=
  [newHeader (str "Host") host; newHeader (str "Upgrade") (str "websocket"); newHeader (str "Connection") (str "Upgrade");
   newHeader (str "Sec-WebSocket-Key") key; newHeader (str "Sec-WebSocket-Version") (str "13")].

Definition requestLines (fullPath host key : bytes) : list bytes :=
  requestLine reg (upgradeTarget fullPath) :: map headerText (upgradeHeaders host key) ++ [[]].

Lemma handshakeRequest_lines (fullPath host key : bytes) :
  knows_get -> handshakeRequest fullPath host key = linesText (requestLines fullPath host key).
Proof.
  intros [Hg _]. unfold requestLines, requestLine. cbn [upgradeTarget method path version]. rewrite Hg.
  unfold handshakeRequest, linesText, upgradeHeaders. cbn [map app concat].
  change (str "GET ") with (str "GET" ++ [x20]). change (str " HTTP/1.1") with (x20 :: versionToString kHttp11).
  unfold headerText. cbn [value_ newHeader].
  repeat (rewrite <- ?app_assoc; cbn [app]). done.
Qed.

(** A path and a host the request can hold. *)
Record target_ok (fullPath host : bytes) : Prop := {
  ta_path : without x20 fullPath /\ no_cr fullPath /\ size fullPath < 8000;
  ta_host : trimmed host = true /\ no_cr host /\ size host < 7000
}.

Lemma upgradeTarget_line (fullPath host : bytes) :
  knows_get -> target_ok fullPath host -> line_ok reg (upgradeTarget fullPath).
Proof.
  intros [Hg Hf] [(Hb & Hcr & Hs) _]. unfold line_ok, requestLine. cbn [upgradeTarget method path version]. rewrite Hg.
  split; [by vm_compute |]. split; [done |]. split; [done |]. split; [done |]. split; [done |]. split; [done |].
  rewrite size_app, size_cons, size_app, size_cons. change (size (str "GET")) with 3.
  change (size (versionToString kHttp11)) with 8. lia.
Qed.

Lemma upgradeHeaders_ok (fullPath host key : bytes) :
  target_ok fullPath host -> plain key -> size key < 1000 ->
  Forall (fun h => writable h /\ nameCode_ h <> NC_Cookie /\ nameCode_ h <> NC_ContentLength) (upgradeHeaders host key).
Proof.
  intros [_ (Ht & Hcr & Hs)] Hk Hks.
  assert (Hw : forall name v, isValidToken name = true -> trimmed v = true -> no_cr v -> size name + size v < 8000 ->
    writable (newHeader name v)).
  { intros name v Hn Hv Hc Hsz. split; [by eexists |]. cbn [value_ name_ newHeader]. split; [done |]. split; [done |].
    unfold toLower. unfold size at 1. rewrite length_map. exact Hsz. }
  unfold upgradeHeaders. repeat (apply Forall_cons; split; [split; [apply Hw; try done | by split] |]); try constructor.
  all: first [by apply plain_trimmed | by apply plain_no_cr | change (size (str "Host")) with 4; lia
             | change (size (str "Sec-WebSocket-Key")) with 17; lia | by repeat constructor].
Qed.

(** The empty line, when the headers say nothing of a body. *)
Lemma feed_end_plain (p : Request.Parser) :
  Request.state_ p = ExpectHeader ->
  om_find (str "transfer-encoding") (headers (Request.data_ p)) = None ->
  om_find (str "content-length") (headers (Request.data_ p)) = None ->
  exists p', Request.feedLine reg [] p = (Ok HeaderComplete, p') /\ Request.state_ p' = HeaderComplete
    /\ let d := Request.data_ p in let d' := Request.data_ p' in
       method d' = method d /\ path d' = path d /\ version d' = version d /\ headers d' = headers d
       /\ transferMode d' = ContentLength /\ contentLength d' = 0.
Proof.
  intros Hst Hte Hcl. unfold Request.feedLine. rewrite (mbind_ok mget _ p p p eq_refl), Hst. rewrite decide_True by done.
  assert (Hd : transferDecision (headers (Request.data_ p)) = NoLength).
  { unfold transferDecision. rewrite Hte. unfold contentLengthDecision. by rewrite Hcl. }
  assert (Ht : Request.processTransferMode p
    = (Ok true, Request.set_data (Request.set_transfer ContentLength 0 (Request.data_ p)) p)).
  { unfold Request.processTransferMode. by rewrite (mbind_ok mget _ p p p eq_refl), Hd. }
  unfold Request.processHeaders. unfold mbind at 1. rewrite (mbind_ok _ _ _ _ _ Ht). cbv iota.
  unfold Request.processKeepAlive, Request.modify, mbind, mret, mget, mput. eexists. split; [reflexivity |].
  cbn. done.
Qed.

(** The request the server parses. *)
Lemma upgrade_parsed (fullPath host key rest : bytes) (c : conn S) :
  knows_get -> target_ok fullPath host -> plain key -> size key < 1000 ->
  remains c (handshakeRequest fullPath host key ++ rest) ->
  exists d c', parseNext reg c = (Ok (Parsed d), c') /\ remains c' rest
    /\ method d = HttpTypes.Get /\ path d = decodedPath fullPath /\ version d = kHttp11
    /\ transferMode d = ContentLength /\ contentLength d = 0
    /\ forall k, om_find k (headers d) = named k (upgradeHeaders host key).
Proof.
  intros Hg Hta Hk Hks Hrem. rewrite handshakeRequest_lines in Hrem by done.
  pose proof (upgradeTarget_line _ _ Hg Hta) as Hline. pose proof (upgradeHeaders_ok _ _ _ Hta Hk Hks) as Hhs.
  set (p1 := Request.mkParser (lineData (upgradeTarget fullPath)) ExpectHeader (Request.error_ Request.newParser)).
  destruct (add_headers_data (upgradeHeaders host key) p1 ltac:(constructor)) as (m & Heq & Hm & Hf).
  change (headers (Request.data_ p1)) with (@nil (bytes * HttpHeader)) in Hf. cbn [om_find] in Hf.
  destruct (feed_end_plain (add_headers (upgradeHeaders host key) p1)) as (p' & Hend & Hst & Hd).
  { by rewrite add_headers_state. }
  { rewrite Heq. cbn [Request.set_data Request.set_headers Request.data_ headers]. by rewrite Hf. }
  { rewrite Heq. cbn [Request.set_data Request.set_headers Request.data_ headers]. by rewrite Hf. }
  assert (Hc : completes (LineParser0 := request_parser reg) Request.newParser (requestLines fullPath host key) p').
  { eapply completes_cons; [by apply feed_requestLine |]. apply completes_headers; [done | done |]. cbn [completes]. exact Hend. }
  destruct (readHead_lines (LineParser0 := request_parser reg) true Request.newParser p' c (requestLines fullPath host key)
    rest Hc) as (c' & Hread & Hrem').
  - unfold requestLines. constructor.
    + destruct Hline as (Ht & _ & _ & _ & _ & Hcr & Hs). split; [| done]. unfold requestLine. apply Forall_app.
      split; [by apply token_no_cr |]. constructor; [done |]. apply Forall_app. split; [done |].
      constructor; [done |]. by apply version_text.
    + apply Forall_app. split; [| constructor; [by split; [constructor |] | constructor]]. apply Forall_map.
      eapply Forall_impl; [exact Hhs |]. intros h [Hw _]. by apply headerText_line.
  - intros _. unfold requestLines, upgradeHeaders. cbn [map app]. rewrite !size_cons, size_nil. lia.
  - done.
  - exists (Request.data_ p'), c'. split; [| split; [done |]].
    + unfold parseNext. rewrite Hread. do 2 f_equal. change (Request.extractResult p' = Parsed (Request.data_ p')).
      unfold Request.extractResult. by rewrite Hst.
    + rewrite Heq in Hd. cbn in Hd. destruct Hd as (H1 & H2 & H3 & H4 & H5 & H6). rewrite H4. by repeat (split; [done |]).
Qed.
End server.

(** ** The server's side: the answer *)

Lemma linesText_size (ls : list bytes) : Forall head_line ls -> size (linesText ls) <= size ls * 8193.
Proof.
  unfold linesText. induction 1 as [| l ls [_ Hl] _ IH]; [done |]. cbn [map concat]. rewrite !size_app, size_cons.
  change (size CRLF) with 2. lia.
Qed.

Lemma headText_holds (l : bytes) (ls : list bytes) : l ∈ ls -> exists a b, headText ls = a ++ l ++ b.
Proof.
  intros (x & y & ->)%list_elem_of_split. unfold headText. rewrite linesText_app. exists (linesText x). eexists.
  unfold linesText at 2. cbn [map concat]. rewrite <- !app_assoc. done.
Qed.

Lemma itemText_nonempty (it : Item) : itemText it <> [].
Proof. destruct it as [h | ck]; cbn [itemText]; [apply headerText_nonempty | done]. Qed.

Section answer.
Context (accept : bytes) (close : bool) (sink : ResponseSink.Http1ResponseSink).
Hypothesis Haccept : plain accept /\ size accept < 1000.
Hypothesis Hdate : trimmed (ResponseSink.date sink) = true /\ no_cr (ResponseSink.date sink) /\ size (ResponseSink.date sink) < 100.

(** The response of an upgrade, before the handler sees it. *)
Definition upgradeResponse : ServerResponse :=
  switching accept (setCloseConnection close (setVersion kHttp11 newServerResponse)).

Lemma upgradeResponse_headers :
  r_headers (data_ upgradeResponse)
  = [(str "connection", newHeaderCode NC_Connection (str "Upgrade"));
     (str "sec-websocket-accept", newHeaderCode NC_SecWebSocketAccept accept);
     (str "upgrade", newHeaderCode NC_Upgrade (str "websocket"))].
Proof. done. Qed.

Lemma upgradeResponse_writable : writable_response sink (data_ upgradeResponse).
Proof.
  assert (Hw : forall name v h, h = newHeader name v -> isValidToken name = true -> size name < 100 -> trimmed v = true ->
    no_cr v -> size v < 1000 -> writable h).
  { intros name v h -> Hn Hsn Hv Hc Hs. split; [by eexists |]. cbn [value_ name_ newHeader]. split; [done |]. split; [done |].
    unfold toLower. unfold size at 1. rewrite length_map. fold (size name). lia. }
  destruct Haccept as [Hp Hs]. split; try done.
  - split; [by repeat constructor | done].
  - rewrite upgradeResponse_headers. split; [| split].
    + by repeat constructor.
    + by repeat constructor.
    + cbn [map snd]. apply Forall_cons; split; [| apply Forall_cons; split; [| apply Forall_cons; split; [| constructor]]].
      * apply (Hw (str "Connection") (str "Upgrade")); try done. by repeat constructor.
      * apply (Hw (str "Sec-WebSocket-Accept") accept); try done; [by apply plain_trimmed | by apply plain_no_cr].
      * apply (Hw (str "Upgrade") (str "websocket")); try done. by repeat constructor.
Qed.

(** The lines of the answer. *)
Definition answerLines : list bytes :=
  statusLine (data_ upgradeResponse) :: map itemText (items sink (data_ upgradeResponse) ContentLength).

Lemma answer_text : flushed sink upgradeResponse = headText answerLines.
Proof.
  unfold flushed. cbn [bodyWriterFn_ upgradeResponse switching setHeaderCode setHeaderObject on_data setStatus setCloseConnection
    setVersion newServerResponse]. fold upgradeResponse.
  assert (Hb : body_ upgradeResponse = []) by done.
  change (ResponseSink.buildHeaderBuf sink _ ContentLength) with (ResponseSink.buildHeaderBuf sink (data_ upgradeResponse) ContentLength).
  replace (if ResponseSink.isHeadMethod_ sink then [] else _) with (@nil byte) by (by destruct (ResponseSink.isHeadMethod_ sink)).
  rewrite app_nil_r, (responseHeader_lines sink (data_ upgradeResponse) ContentLength upgradeResponse_writable).
  unfold responseLines, answerLines, headText. rewrite app_comm_cons, linesText_app. done.
Qed.

Lemma answer_lines : head_lines answerLines /\ size (headText answerLines) < npos.
Proof.
  pose proof upgradeResponse_writable as Hw.
  assert (Hl : Forall head_line answerLines).
  { constructor; [by apply (statusLine_line sink) |]. apply Forall_map. eapply Forall_impl; [by apply items_ok |].
    intros it. apply itemText_line. }
  split.
  - apply Forall_forall. intros l Hin. split; [by apply (proj1 (Forall_forall _ _) Hl l Hin) |].
    apply elem_of_cons in Hin as [-> | (it & -> & _)%list_elem_of_fmap]; [done | apply itemText_nonempty].
  - unfold headText. rewrite size_app. change (size CRLF) with 2. pose proof (linesText_size _ Hl) as Hs.
    assert (Hn : size answerLines <= 10).
    { unfold answerLines, items. rewrite size_cons. unfold size at 1. rewrite length_map, !length_app, !length_map.
      pose proof (size_copied (r_headers (data_ upgradeResponse))) as Hc. rewrite upgradeResponse_headers in Hc at 2.
      unfold framing, dateExtra, closeExtra. unfold size in Hc. cbn [length] in *.
      rewrite length_app. change (length (r_cookies (data_ upgradeResponse))) with 0%nat.
      repeat (match goal with |- context [if ?b then _ else _] => destruct b end; cbn [length]); lia. }
    unfold npos. lia.
Qed.

Lemma answer_holds :
  (exists a b, headText answerLines = a ++ str "101" ++ b) /\ (exists a b, headText answerLines = a ++ accept ++ b).
Proof.
  split.
  - exists (str "HTTP/1.1 "). eexists. unfold answerLines, headText, linesText. cbn [map concat]. rewrite <- !app_assoc.
    unfold statusLine. reflexivity.
  - destruct (headText_holds (headerText (newHeaderCode NC_SecWebSocketAccept accept)) answerLines) as (a & b & ->).
    + right. apply list_elem_of_fmap. exists (HeaderItem (newHeaderCode NC_SecWebSocketAccept accept)). split; [done |].
      unfold items. apply elem_of_app. left. apply list_elem_of_fmap. eexists. split; [done |].
      unfold copied. apply list_elem_of_filter. split; [done |]. rewrite upgradeResponse_headers. cbn. right. left.
    + unfold headerText. cbn [value_ newHeaderCode]. exists (a ++ canonicalName (newHeaderCode NC_SecWebSocketAccept accept) ++ str ": "), b.
      by rewrite <- !app_assoc.
Qed.
End answer.

(** ** The server's side: the connection *)

(** What the program throws is logged. *)
Definition logged {S : Type} (program : M S unit) : M S unit := mtry program (fun _ => mret tt).

Section served.
Context {S : Type} `{!ByteStream S} {Regex : Type} (reg : MethodRegistry).
Context (regex_match : bytes -> Regex -> option (list bytes)).
Context (server : @HttpServer (Hosted S) Regex) (router : @HttpRouter Regex (@WsHandler S)).
Context (h : @WsHandler S) (ps : PathParams) (program : M S unit).
Hypothesis Hup : requestUpgrader_ server = Some (handleUpgrade regex_match router).
Hypothesis Hmid : middlewares_ server = [].

(** A handler that accepts, and then does [program]. *)
Definition accepts : Prop := forall x, h x = (Ok (Some program), x).
Hypothesis Hacc : accepts.

Lemma read_resumed (n : nat) (s : Hosted S) (r : bytes) (s' : Hosted S) : stream_read n s = (r, s') -> resumed s' = resumed s.
Proof. cbn. destruct (stream_read n (host_stream s)) as [r0 s0]. by intros [= <- <-]. Qed.

Lemma exchange_conn_set (c : conn (Hosted S)) (x : @Exchange (Hosted S)) : exchange_conn (set_conn c x) = c.
Proof. unfold exchange_conn, set_conn. cbn. apply reader_with_conn. Qed.

(** The upgrade of one request: the answer is written, and the handler's
    coroutine gets the connection. *)
Lemma serveUpgrade_ok (d : HttpRequest) (accept : bytes) (c : conn (Hosted S)) (go : Action) :
  wsRoute regex_match (path d) router = (Some h, ps) ->
  toLower (getHeaderCode NC_Upgrade (headers d)) = str "websocket" ->
  getHeaderCode NC_SecWebSocketKey (headers d) <> [] ->
  computeAccept (getHeaderCode NC_SecWebSocketKey (headers d)) = Ok accept -> version d = kHttp11 ->
  exists s1 x',
    serveUpgrade server 0 (handleUpgrade regex_match router) go (newExchange d c) = (Ok None, x')
    /\ strm (exchange_conn x') = mkHosted (host_stream s1) (resumed s1 ++ [logged program])
    /\ sent s1 = sentOn c ++ flushed (sinkAt server 0 (method d =? Head)) (upgradeResponse accept (negb (keepAlive d)))
    /\ pending s1 = pending (strm c) /\ resumed s1 = resumed (strm c).
Proof.
  intros Hroute Hws Hkey Ha Hv.
  set (resp := upgradeResponse accept (negb (keepAlive d))). set (sink := sinkAt server 0 (method d =? Head)).
  destruct (flush_ok sink resp (strm c)) as (s1 & Hflush & Hsent & Hpend); [done |]. exists s1.
  assert (Hres : resumed s1 = resumed (strm c)) by (unfold flush in Hflush; cbn in Hflush; by injection Hflush as <-).
  set (x1 := set_handler (Some (setConnection (logged program))) (set_pathParams ps (set_response resp (newExchange d c)))).
  assert (Hcatch : catching (invokeChain (middlewares_ server)
      (let* h := handleUpgrade regex_match router in fun x => (Ok tt, set_handler h x))) (newExchange d c) = (Ok false, x1)).
  { rewrite Hmid. cbn [invokeChain]. unfold catching, mtry, handleUpgrade. unfold mbind, mget. cbn [newExchange x_request].
    rewrite Hws, bool_decide_eq_false_2 by auto. rewrite Hroute. rewrite bool_decide_eq_false_2 by done.
    unfold mlift. rewrite Ha. unfold respond, runHandler, mtry, mbind. rewrite Hacc. unfold mret, x1, resp, upgradeResponse.
    unfold newExchange. rewrite Hv. reflexivity. }
  unfold serveUpgrade. rewrite mbind_get. rewrite (mbind_ok _ _ _ _ _ Hcatch). rewrite mbind_get.
  unfold x1 at 1. cbn [x_handler set_handler].
  assert (Hc1 : exchange_conn x1 = c) by (unfold exchange_conn, x1; cbn; apply create_conn).
  set (x2 := set_conn (Conn (buf c) s1) x1).
  assert (Hf : on_stream (flush (sinkAt server 0 (method (x_request (newExchange d c)) =? Head)) (x_response x1)) x1 = (Ok tt, x2)).
  { unfold on_stream, on_conn_stream. rewrite Hc1. change (x_response x1) with resp. cbn [newExchange x_request].
    fold sink. by rewrite Hflush. }
  rewrite (mbind_ok _ _ _ _ _ Hf). unfold mbind at 1. unfold on_stream at 1, on_conn_stream at 1.
  unfold x2 at 1 2. rewrite exchange_conn_set. cbn [strm buf setConnection]. unfold mret.
  eexists. split; [reflexivity |]. rewrite exchange_conn_set. by split; [| split; [| split]].
Qed.

(** A connection on which nothing but the handshake arrives. *)
Lemma connection_upgrades (fullPath host key accept : bytes) (c : conn (Hosted S)) :
  knows_get reg -> target_ok fullPath host -> plain key -> key <> [] -> size key < 1000 -> computeAccept key = Ok accept ->
  wsRoute regex_match (decodedPath fullPath) router = (Some h, ps) ->
  remains c (handshakeRequest fullPath host key) -> resumed (strm c) = [] ->
  exists close s1 c',
    handleConnection reg regex_match server c = (Ok false, c')
    /\ strm c' = mkHosted s1 [logged program] /\ pending s1 = []
    /\ sent s1 = sentOn c ++ flushed (sinkAt server 0 false) (upgradeResponse accept close).
Proof.
  intros Hg Hta Hk Hne Hks Ha Hroute Hrem Hnone.
  destruct (upgrade_parsed reg fullPath host key [] c Hg Hta Hk Hks) as (d & c1 & Hp & Hrem1 & Hm & Hpath & Hv & Htm & Hcl & Hh).
  { by rewrite app_nil_r. }
  pose proof (parseNext_leaves (sentOn c) reg c eq_refl) as Hs. unfold leaves in Hs. rewrite Hp in Hs. cbn [snd] in Hs.
  pose proof (parseNext_keeps resumed [] read_resumed reg c Hnone) as Hn1. unfold leaves, ofStream in Hn1. rewrite Hp in Hn1. cbn [snd] in Hn1.
  destruct (serveUpgrade_ok d accept c1 (if keepAlive d then ActContinue else ActShutdown)) as (s1 & x' & Hserve & Hst & Hsent & Hpend & Hres).
  - by rewrite Hpath.
  - unfold getHeaderCode. by rewrite Hh.
  - unfold getHeaderCode. by rewrite Hh.
  - unfold getHeaderCode. by rewrite Hh.
  - done.
  - exists (negb (keepAlive d)), (host_stream s1), (exchange_conn x').
    assert (Hpe : pending (strm c1) = []) by (destruct Hrem1 as [_ He]; by apply app_eq_nil in He as [_ ?]).
    rewrite Hm in Hsent. change (HttpTypes.Get =? Head) with false in Hsent. rewrite Hs in Hsent.
    split; [| split; [by rewrite Hst, Hres, Hn1 | split; [by change (pending s1 = []); rewrite Hpend | done]]].
    unfold handleConnection. replace (length (pending (strm c)) + remainSize (buf c) + 1)%nat
      with (Datatypes.S (length (pending (strm c)) + remainSize (buf c))) by lia.
    cbn [connectionLoop]. unfold handleNextRequest. unfold mbind at 1. rewrite (mbind_ok _ _ _ _ _ Hp).
    unfold serve. rewrite mbind_get. cbn [newExchange x_request]. rewrite Hm, Hup.
    change (HttpTypes.Get =? _Invalid) with false. cbv iota.
    assert (Hu : isUpgradeRequest d = true).
    { unfold isUpgradeRequest, getHeaderCode. rewrite !Hh. cbn. done. }
    by rewrite Hu, Hserve.
Qed.
End served.

(** C8: the handshake succeeds.  A client connects to a server whose upgrader
    is a [WsServer], for a path that routes to a handler that accepts.  The
    server answers the client's request, and the connection's coroutine ends
    without a shutdown; the coroutine of the handler is resumed, once, with a
    connection on the stream, on which the answer and nothing else was
    written.  The client, however the answer and what follows it are segmented,
    accepts it and has read exactly the answer, so that the first frame is still
    to come.  And it checks the proof of its key: of whatever head arrives, it
    accepts just those that hold 101 and the key's digest as RFC 6455 defines
    it. *)
Theorem ws_handshake {S W : Type} `{!ByteStream S, !ByteStream W} {Regex : Type} (reg : MethodRegistry)
    (regex_match : bytes -> Regex -> option (list bytes)) (server : @HttpServer (Hosted S) Regex)
    (router : @HttpRouter Regex (@WsHandler S)) (h : @WsHandler S) (ps : PathParams) (program : M S unit)
    (fullPath host raw key : bytes) (c : conn (Hosted S))
    (Hserver : requestUpgrader_ server = Some (handleUpgrade regex_match router) /\ middlewares_ server = [])
    (Hdate : trimmed (dates server 0) = true /\ no_cr (dates server 0) /\ size (dates server 0) < 100)
    (Hacc : accepts h program) (Hroute : wsRoute regex_match (decodedPath fullPath) router = (Some h, ps))
    (Hg : knows_get reg) (Hta : target_ok fullPath host)
    (Hraw : size raw = 16) (Hkey : generateKey raw = Ok key)
    (Hc : remains c (handshakeRequest fullPath host key)) (Hfresh : sentOn c = [] /\ resumed (strm c) = []) :
  exists answer s1 c',
    handleConnection reg regex_match server c = (Ok false, c')
    /\ strm c' = mkHosted s1 [logged program] /\ pending s1 = [] /\ sent s1 = answer
    /\ (forall (w : W) (more : bytes), pending w = answer ++ more ->
         exists w', handshake fullPath host raw w = (Ok tt, w') /\ pending w' = more
           /\ sent w' = sent w ++ handshakeRequest fullPath host key)
    /\ forall (w : W) (ls : list bytes) (more : bytes),
         ls <> [] -> head_lines ls -> size (headText ls) < npos -> pending w = headText ls ++ more ->
         (fst (handshake fullPath host raw w) = Ok tt
          <-> holds (str "101") (headText ls) /\ holds (encodeSpec (sha1Spec (key ++ kWebSocketGuid))) (headText ls)).
Proof.
  unfold generateKey in Hkey. rewrite base64Encode_spec in Hkey. injection Hkey as <-.
  assert (Hl : length (encodeSpec raw) = 24%nat).
  { rewrite length_encodeSpec. unfold size in Hraw. by replace (length raw) with 16%nat by lia. }
  assert (Hsha : size (encodeSpec raw ++ kWebSocketGuid) = 60) by (rewrite size_app; unfold size at 1; rewrite Hl; done).
  assert (Ha : computeAccept (encodeSpec raw) = Ok (encodeSpec (sha1Spec (encodeSpec raw ++ kWebSocketGuid)))).
  { unfold computeAccept. rewrite sha1_standard by (rewrite Hsha; done). rewrite Hsha. cbn [Z.add]. cbv iota.
    change (60 + 72 <? 2 ^ 32) with true. cbn [obind]. apply base64Encode_spec. }
  set (accept := encodeSpec (sha1Spec (encodeSpec raw ++ kWebSocketGuid))) in *.
  assert (Hap : plain accept /\ size accept < 1000).
  { split; [apply encodeSpec_plain |]. unfold accept, size. rewrite length_encodeSpec, length_sha1Spec. done. }
  destruct Hserver as [Hup Hmid]. destruct Hfresh as [Hsent Hnone].
  destruct (connection_upgrades reg regex_match server router h ps program Hup Hmid Hacc fullPath host (encodeSpec raw) accept c
    Hg Hta (encodeSpec_plain raw)) as (close & s1 & c' & Hrun & Hst & Hpe & Hse); try done.
  { intros He. by rewrite He in Hl. }
  { unfold size. rewrite Hl. done. }
  rewrite Hsent in Hse. cbn [app] in Hse. rewrite (answer_text accept close (sinkAt server 0 false) Hap Hdate) in Hse.
  destruct (answer_lines accept close (sinkAt server 0 false) Hap Hdate) as [Hlines Hsize].
  pose proof (answer_holds accept close (sinkAt server 0 false)) as Hin.
  exists (headText (answerLines accept close (sinkAt server 0 false))), s1, c'.
  split; [exact Hrun |]. split; [done |]. split; [done |]. split; [done |]. split.
  - intros w more Hw.
    assert (Hne : answerLines accept close (sinkAt server 0 false) <> []) by done.
    destruct (handshake_checks fullPath host raw accept more _ w Ha Hne Hlines Hsize Hw) as (o & w' & Hh & ? & ? & Ho).
    exists w'. rewrite Hh, (proj2 Ho) by exact Hin. done.
  - intros w ls more Hne Hls Hs Hw.
    destruct (handshake_checks fullPath host raw accept more ls w Ha Hne Hls Hs Hw) as (o & w' & -> & _ & _ & Ho). exact Ho.
Qed.

(** The example of RFC 6455: the nonce, its key and the proof. *)
Definition chatProgram : M script unit := fun s => (Ok tt, stream_write (str "frames") s).

Definition chat : @WsHandler script := fun x => (Ok (Some chatProgram), x).

Definition chatRouter : @HttpRouter unit (@WsHandler script) :=
  snd (addRoute initRegistry (fun _ => []) (str "/chat") chat (mkHttpRouter newRouterCore [])).

Definition chatServer : @HttpServer (Hosted script) unit :=
  mkServer (Some (handleUpgrade noRegex chatRouter)) [] (mkHttpRouter newRouterCore []) false (fun _ => []).

Definition sampleNonce : bytes := str "the sample nonce".
Definition sampleKey : bytes := str "dGhlIHNhbXBsZSBub25jZQ==".

Definition chatRequest : bytes := handshakeRequest (str "/chat") (str "server.example.com") sampleKey.

Definition chatConn : conn (Hosted script) :=
  Conn empty_buffer (mkHosted (Script [take 70 chatRequest; drop 70 chatRequest] []) []).

(** An answer with another proof. *)
Definition forgedAnswer : list bytes :=
  [str "HTTP/1.1 101 Switching Protocols"; str "Sec-WebSocket-Accept: AAAAAAAAAAAAAAAAAAAAAAAAAAA="].

Lemma ws_handshake_witness :
  (exists answer s1 c',
    handleConnection initRegistry noRegex chatServer chatConn = (Ok false, c')
    /\ strm c' = mkHosted s1 [logged chatProgram] /\ pending s1 = [] /\ sent s1 = answer
    /\ (forall (w : script) (more : bytes), pending w = answer ++ more ->
         exists w', handshake (str "/chat") (str "server.example.com") sampleNonce w = (Ok tt, w') /\ pending w' = more
           /\ sent w' = sent w ++ chatRequest)
    /\ fst (handshake (str "/chat") (str "server.example.com") sampleNonce (Script [headText forgedAnswer] [])) <> Ok tt)
  /\ computeAccept sampleKey = Ok (str "s3pPLMBiTxaQ9kYGzzhZRbK+xOo=").
Proof.
  split; [| by vm_compute].
  destruct (ws_handshake initRegistry noRegex chatServer chatRouter chat ∅ chatProgram
    (str "/chat") (str "server.example.com") sampleNonce sampleKey chatConn) as (answer & s1 & c' & H1 & H2 & H3 & H4 & H5 & H6).
  - by split.
  - split; [done | split; [constructor | done]].
  - by intros x.
  - by vm_compute.
  - by split.
  - split; [split; [| split] | split; [| split]]; try done; by repeat constructor.
  - done.
  - by vm_compute.
  - split; [unfold wf; simpl; lia | by vm_compute].
  - done.
  - exists answer, s1, c'. split; [exact H1 | split; [exact H2 | split; [exact H3 | split; [exact H4 | split; [exact H5 |]]]]].
    intros Hok. apply (H6 _ forgedAnswer []) in Hok; [| done | by repeat constructor | done | by rewrite !app_nil_r].
    destruct Hok as [_ (a & b & Hab)]. revert Hab.
    replace (encodeSpec _) with (str "s3pPLMBiTxaQ9kYGzzhZRbK+xOo=") by (by vm_compute). intros Hab.
    assert (Hf : index_of_sub (str "s3pPLMBiTxaQ9kYGzzhZRbK+xOo=") (headText forgedAnswer) = None) by (by vm_compute).
    rewrite Hab in Hf. destruct (index_of_sub_found (str "s3pPLMBiTxaQ9kYGzzhZRbK+xOo=") a b) as (i & Hi & _). by rewrite Hi in Hf.
Defined.
