(* ===== verification/IoTable.v ===== *)
(** The descriptors of the event loop: [setIoHandler], [updateIo], [removeIo]
    and the dispatch of [process_io_events], src/src/Scheduler.cc.

    The kernel behind them is what their calls can observe of it: the open
    descriptors and the ones registered with [epoll], each with its mask.  A
    descriptor that is closed leaves [epoll], and its number may be given to the
    next one.  An operation of a channel whose descriptor was closed and reused
    meanwhile is stale, which the identifiers show: they only grow. *)

From Stdlib Require Import ZArith Lia String.
From stdpp Require Import base numbers option list gmap.
From S2P Require Import Prelude.
Open Scope Z_scope.

(** ** [epoll_ctl] *)

Definition EPOLLIN : Z := 0x1.
Definition EPOLLOUT : Z := 0x4.
Definition EPOLLERR : Z := 0x8.
Definition EPOLLHUP : Z := 0x10.
Definition EPOLLRDHUP : Z := 0x2000.
Definition EPOLLET : Z := 2 ^ 31.

Inductive TriggerMode : Type := EdgeTriggered | LevelTriggered.

#[export] Instance TriggerMode_eq_dec : EqDecision TriggerMode.
Proof. solve_decision. Defined.

Inductive EpollOp : Type := EPOLL_CTL_ADD | EPOLL_CTL_MOD | EPOLL_CTL_DEL.

Record Kernel : Type := mkKernel {
  opened : gset Z;
  epoll : gmap Z Z
}.

(** [None] is -1: [EBADF], [EEXIST] or [ENOENT]. *)
Definition epoll_ctl (op : EpollOp) (fd ev : Z) (k : Kernel) : option Kernel :=
  if decide (fd ∈ opened k) then
    match op, epoll k !! fd with
    | EPOLL_CTL_ADD, None | EPOLL_CTL_MOD, Some _ => Some (mkKernel (opened k) (<[fd := ev]> (epoll k)))
    | EPOLL_CTL_DEL, Some _ => Some (mkKernel (opened k) (delete fd (epoll k)))
    | _, _ => None
    end
  else None.

(** [socket] or [accept4] gave this descriptor, and [close] of its last
    reference. *)
Definition kopen (fd : Z) (k : Kernel) : Kernel := mkKernel ({[fd]} ∪ opened k) (epoll k).
Definition kclose (fd : Z) (k : Kernel) : Kernel := mkKernel (opened k ∖ {[fd]}) (delete fd (epoll k)).

(** ** The table *)

Section table.
Context {Handler : Type}.

Record IoContext : Type := mkIo {
  io_fd : Z;
  io_id : Z;
  handler : option Handler;
  addedToEpoll : bool
}.

Record Poller : Type := mkPoller {
  ioContexts_ : gmap Z IoContext;
  kernel : Kernel
}.

Definition set_context (fd : Z) (c : IoContext) (p : Poller) : Poller := mkPoller (<[fd := c]> (ioContexts_ p)) (kernel p).

(** A failed assertion. *)
Definition massert {S : Type} (b : bool) : M S unit := mlift (if b then Ok tt else Undefined).

Definition mmodify {S : Type} (f : S -> S) : M S unit := fun s => (Ok tt, f s).

Definition setIoHandler (fd id : Z) (h : Handler) : M Poller unit :=
  let* p := mget in
  match ioContexts_ p !! fd with
  | Some c =>
      if negb (io_id c =? id) then
        if id <? io_id c then mret tt
        else mmodify (set_context fd (mkIo fd id (Some h) false))
      else
        let* _ := massert (bool_decide (handler c = None)) in
        mmodify (set_context fd (mkIo (io_fd c) (io_id c) (Some h) (addedToEpoll c)))
  | None => mmodify (set_context fd (mkIo fd id (Some h) false))
  end.

(** [updateIo] once it has its context. *)
Definition interest (events : Z) (mode : TriggerMode) : Z :=
  Z.lor (Z.lor events EPOLLRDHUP) (match mode with EdgeTriggered => EPOLLET | LevelTriggered => 0 end).

Definition control (c : IoContext) (fd events : Z) (mode : TriggerMode) : M Poller unit :=
  let* p := mget in
  if events =? 0 then
    if addedToEpoll c then
      let k := default (kernel p) (epoll_ctl EPOLL_CTL_DEL fd 0 (kernel p)) in
      mput (mkPoller (<[fd := mkIo (io_fd c) (io_id c) (handler c) false]> (ioContexts_ p)) k)
    else mret tt
  else
    match epoll_ctl (if addedToEpoll c then EPOLL_CTL_MOD else EPOLL_CTL_ADD) fd (interest events mode) (kernel p) with
    | None =>
        mthrow (RuntimeError (if addedToEpoll c then "Failed to call EPOLL_CTL_MOD on epoll"
                              else "Failed to call EPOLL_CTL_ADD on epoll")%string)
    | Some k => mput (mkPoller (<[fd := mkIo (io_fd c) (io_id c) (handler c) true]> (ioContexts_ p)) k)
    end.

Definition updateIo (fd id events : Z) (mode : TriggerMode) : M Poller unit :=
  let* p := mget in
  match ioContexts_ p !! fd with
  | Some c =>
      if negb (io_id c =? id) then
        if id <? io_id c then mret tt
        else
          let c := mkIo fd id None false in
          let* _ := mmodify (set_context fd c) in
          control c fd events mode
      else control c fd events mode
  | None =>
      let c := mkIo fd id None false in
      let* _ := mmodify (set_context fd c) in
      control c fd events mode
  end.

Definition removeIo (fd id : Z) : M Poller unit :=
  let* p := mget in
  match ioContexts_ p !! fd with
  | None => massert false
  | Some c =>
      if negb (io_id c =? id) then mret tt
      else
        let* _ := mput (mkPoller (delete fd (ioContexts_ p)) (kernel p)) in
        if negb (addedToEpoll c) then mret tt
        else mmodify (fun p => mkPoller (ioContexts_ p) (default (kernel p) (epoll_ctl EPOLL_CTL_DEL (io_fd c) 0 (kernel p))))
  end.

(** [process_io_events]: what [epoll_wait] gave, in order.  An empty
    [std::function] throws when it is called. *)
Fixpoint process_io_events {W : Type} (poller : W -> Poller) (call : Handler -> Z -> Z -> M W unit)
  (wakeupFd : Z) (readWakeup : M W unit) (events : list (Z * Z)) : M W unit :=
  match events with
  | [] => mret tt
  | (fd, ev) :: events' =>
      let* _ :=
        (if fd =? wakeupFd then readWakeup
         else
           let* w := mget in
           match ioContexts_ (poller w) !! fd with
           | None => mret tt
           | Some c =>
               match handler c with
               | Some h => call h fd ev
               | None => mthrow (RuntimeError "bad_function_call"%string)
               end
           end) in
      process_io_events poller call wakeupFd readWakeup events'
  end.
End table.
Arguments IoContext : clear implicits.
Arguments Poller : clear implicits.

(** ** Channels on descriptors that are closed and reused *)

(** What the channels of a scheduler do to the table, seen from it: [socket] or
    [accept4] gives a descriptor and a channel is constructed on it at once; the
    channel changes its events; its destructor runs; the descriptor is closed,
    which without a guard may happen before the destructor. *)
Inductive FdOp : Type :=
| Open (fd : Z) (mode : TriggerMode)
| Update (id events : Z)
| Destroy (id : Z)
| Close (fd : Z).

(** [channels] has the descriptor, mode and events of each channel; [current]
    the channel that was constructed on a descriptor that is still open. *)
Record Fds : Type := mkFds {
  poller : Poller Z;
  lastId : Z;
  channels : gmap Z (Z * TriggerMode * Z);
  current : gmap Z Z
}.

Definition newFds : Fds := mkFds (mkPoller ∅ (mkKernel ∅ ∅)) 0 ∅ ∅.

Definition set_poller (p : Poller Z) (w : Fds) : Fds := mkFds p (lastId w) (channels w) (current w).

Definition on_poller (m : M (Poller Z) unit) : M Fds unit := fun w => let '(o, p) := m (poller w) in (o, set_poller p w).

Definition kernelStep (f : Kernel -> Kernel) (p : Poller Z) : Poller Z := mkPoller (ioContexts_ p) (f (kernel p)).

Definition fdStep (op : FdOp) : M Fds unit :=
  let* w := mget in
  match op with
  | Open fd mode =>
      if decide (fd ∈ opened (kernel (poller w))) then mret tt
      else
        let id := lastId w + 1 in
        let* _ := mput (mkFds (kernelStep (kopen fd) (poller w)) id (<[id := (fd, mode, 0)]> (channels w)) (<[fd := id]> (current w))) in
        on_poller (setIoHandler fd id id)
  | Update id events =>
      match channels w !! id with
      | Some (fd, mode, _) =>
          let* _ := on_poller (updateIo fd id events mode) in
          mmodify (fun w => mkFds (poller w) (lastId w) (<[id := (fd, mode, events)]> (channels w)) (current w))
      | None => mret tt
      end
  | Destroy id =>
      match channels w !! id with
      | Some (fd, _, _) =>
          let* _ := on_poller (removeIo fd id) in
          mmodify (fun w => mkFds (poller w) (lastId w) (delete id (channels w))
            (if decide (current w !! fd = Some id) then delete fd (current w) else current w))
      | None => mret tt
      end
  | Close fd => mput (mkFds (kernelStep (kclose fd) (poller w)) (lastId w) (channels w) (delete fd (current w)))
  end.

Fixpoint fdSteps (ops : list FdOp) : M Fds unit :=
  match ops with
  | [] => mret tt
  | op :: ops' => let* _ := fdStep op in fdSteps ops'
  end.

(** ** The invariant *)

(** What the table and the kernel have of a channel. *)
Definition registered (fd id : Z) (mode : TriggerMode) (events : Z) (p : Poller Z) : Prop :=
  fd ∈ opened (kernel p)
  /\ ioContexts_ p !! fd = Some (mkIo fd id (Some id) (negb (events =? 0)))
  /\ epoll (kernel p) !! fd = (if events =? 0 then None else Some (interest events mode)).

Record fds_ok (w : Fds) : Prop := {
  epoll_open : forall fd, is_Some (epoll (kernel (poller w)) !! fd) -> fd ∈ opened (kernel (poller w));
  context_fd : forall fd c, ioContexts_ (poller w) !! fd = Some c -> io_fd c = fd /\ io_id c <= lastId w;
  channel_id : forall id fd mode ev, channels w !! id = Some (fd, mode, ev) -> id <= lastId w;
  current_registered : forall fd id, current w !! fd = Some id ->
    exists mode ev, channels w !! id = Some (fd, mode, ev) /\ registered fd id mode ev (poller w);
  current_last : forall fd id id' mode ev, current w !! fd = Some id -> channels w !! id' = Some (fd, mode, ev) -> id' <= id
}.

(** An operation of the current channel does to its descriptor what it says,
    and a stale one nothing. *)
Lemma updateIo_current (fd id : Z) (mode : TriggerMode) (ev ev' : Z) (p : Poller Z) :
  registered fd id mode ev p ->
  exists p', updateIo fd id ev' mode p = (Ok tt, p') /\ registered fd id mode ev' p'
    /\ opened (kernel p') = opened (kernel p)
    /\ forall fd', fd' <> fd -> ioContexts_ p' !! fd' = ioContexts_ p !! fd' /\ epoll (kernel p') !! fd' = epoll (kernel p) !! fd'.
Proof.
  intros (Ho & Hc & He). unfold updateIo, mbind, mget. rewrite Hc. cbn [io_id]. rewrite Z.eqb_refl. cbn [negb].
  unfold control, mbind, mget, mret, mput, epoll_ctl. cbn [addedToEpoll io_fd io_id handler].
  destruct (Z.eqb_spec ev' 0) as [-> | Hev']; destruct (Z.eqb_spec ev 0) as [-> | Hev]; cbn [negb].
  - exists p. split; [done |]. split; [done | done].
  - rewrite decide_True by done. rewrite He. cbn. eexists. split; [done |]. cbn.
    split; [| split; [done | intros fd' Hfd; by rewrite lookup_insert_ne, lookup_delete_ne by done]].
    unfold registered. cbn. by rewrite lookup_insert_eq, lookup_delete_eq.
  - rewrite decide_True by done. rewrite He. cbn. eexists. split; [done |]. cbn.
    split; [| split; [done | intros fd' Hfd; by rewrite !lookup_insert_ne by done]].
    unfold registered. cbn. rewrite !lookup_insert_eq. by destruct (Z.eqb_spec ev' 0).
  - rewrite decide_True by done. rewrite He. cbn. eexists. split; [done |]. cbn.
    split; [| split; [done | intros fd' Hfd; by rewrite !lookup_insert_ne by done]].
    unfold registered. cbn. rewrite !lookup_insert_eq. by destruct (Z.eqb_spec ev' 0).
Qed.

Lemma updateIo_stale (fd id id' : Z) (mode mode' : TriggerMode) (ev ev' : Z) (p : Poller Z) :
  registered fd id mode ev p -> id' < id -> updateIo fd id' ev' mode' p = (Ok tt, p).
Proof.
  intros (_ & Hc & _) Hid. unfold updateIo, mbind, mget. rewrite Hc. cbn [io_id].
  destruct (Z.eqb_spec id id'); [lia |]. cbn [negb]. by destruct (Z.ltb_spec id' id); [| lia].
Qed.

Lemma removeIo_current (fd id : Z) (mode : TriggerMode) (ev : Z) (p : Poller Z) :
  registered fd id mode ev p ->
  removeIo fd id p = (Ok tt, mkPoller (delete fd (ioContexts_ p)) (mkKernel (opened (kernel p)) (delete fd (epoll (kernel p))))).
Proof.
  intros (Ho & Hc & He). unfold removeIo, mbind, mget. rewrite Hc. cbn [io_id io_fd addedToEpoll]. rewrite Z.eqb_refl. cbn [negb].
  unfold mput. rewrite negb_involutive. destruct (Z.eqb_spec ev 0) as [-> | Hev]; cbn.
  - unfold mret. rewrite (delete_id (epoll (kernel p))) by done. by destruct p as [? []].
  - unfold mmodify, epoll_ctl. cbn. rewrite decide_True by done. by rewrite He.
Qed.

Lemma removeIo_stale (fd id id' : Z) (mode : TriggerMode) (ev : Z) (p : Poller Z) :
  registered fd id mode ev p -> id' <> id -> removeIo fd id' p = (Ok tt, p).
Proof.
  intros (_ & Hc & _) Hid. unfold removeIo, mbind, mget. rewrite Hc. cbn [io_id].
  by destruct (Z.eqb_spec id id'); [congruence |].
Qed.

(** Whatever an operation of a channel does, it does to its own descriptor. *)
Record touches (fd id : Z) (p p' : Poller Z) : Prop := {
  same_opened : opened (kernel p') = opened (kernel p);
  other_contexts : forall fd', fd' <> fd -> ioContexts_ p' !! fd' = ioContexts_ p !! fd';
  other_epoll : forall fd', fd' <> fd -> epoll (kernel p') !! fd' = epoll (kernel p) !! fd';
  own_epoll : is_Some (epoll (kernel p') !! fd) -> fd ∈ opened (kernel p) \/ is_Some (epoll (kernel p) !! fd);
  own_context : forall c, ioContexts_ p' !! fd = Some c ->
    (io_fd c = fd /\ io_id c = id) \/ exists c0, ioContexts_ p !! fd = Some c0 /\ io_fd c = io_fd c0 /\ io_id c = io_id c0
}.

Lemma touches_refl (fd id : Z) (p : Poller Z) : touches fd id p p.
Proof. split; try done; eauto. Qed.

Lemma touches_set_context (fd id : Z) (c : IoContext Z) (p : Poller Z) :
  io_fd c = fd -> io_id c = id -> touches fd id p (set_context fd c p).
Proof.
  intros Hf Hi. split; cbn; try done; try (intros fd' Hfd; by rewrite ?lookup_insert_ne by done); eauto.
  intros c'. rewrite lookup_insert_eq. intros [= <-]. by left.
Qed.

Lemma touches_trans (fd id : Z) (p1 p2 p3 : Poller Z) : touches fd id p1 p2 -> touches fd id p2 p3 -> touches fd id p1 p3.
Proof.
  intros [A1 A2 A3 A4 A5] [B1 B2 B3 B4 B5]. split.
  - congruence.
  - intros fd' H. by rewrite B2, A2.
  - intros fd' H. by rewrite B3, A3.
  - intros H. destruct (B4 H) as [H' | H']; [left; congruence | by apply A4].
  - intros c H. destruct (B5 c H) as [? | (c0 & H0 & Hf & Hi)]; [by left |].
    destruct (A5 c0 H0) as [[? ?] | (c1 & H1 & Hf1 & Hi1)]; [left; split; congruence | right; exists c1; split; [done | split; congruence]].
Qed.

Lemma epoll_ctl_frame (op : EpollOp) (fd ev : Z) (k k' : Kernel) :
  epoll_ctl op fd ev k = Some k' ->
  opened k' = opened k /\ fd ∈ opened k /\ forall fd', fd' <> fd -> epoll k' !! fd' = epoll k !! fd'.
Proof.
  unfold epoll_ctl. destruct (decide _) as [Ho |]; [| done].
  destruct op, (epoll k !! fd) eqn:He; intros [= <-]; cbn; (split; [done | split; [done |]]; intros fd' H);
    by rewrite ?lookup_insert_ne, ?lookup_delete_ne by done.
Qed.

Lemma touches_kernel (fd id : Z) (cs : gmap Z (IoContext Z)) (p : Poller Z) (op : EpollOp) (ev : Z) :
  touches fd id p (mkPoller cs (kernel p)) ->
  touches fd id p (mkPoller cs (default (kernel p) (epoll_ctl op fd ev (kernel p)))).
Proof.
  intros T. destruct (epoll_ctl op fd ev (kernel p)) as [k |] eqn:He; cbn; [| done].
  apply epoll_ctl_frame in He as (A1 & A2 & A3). destruct T as [B1 B2 B3 B4 B5]. split; cbn in *; try done. by left.
Qed.

Lemma touches_control (c : IoContext Z) (fd id ev : Z) (mode : TriggerMode) (p : Poller Z) :
  ioContexts_ p !! fd = Some c -> touches fd id p (snd (control c fd ev mode p)).
Proof.
  intros Hc. unfold control, mbind, mget. cbn.
  assert (T : forall b, touches fd id p (mkPoller (<[fd := mkIo (io_fd c) (io_id c) (handler c) b]> (ioContexts_ p)) (kernel p))).
  { intros b. split; cbn; try done; try (intros fd' Hfd; by rewrite lookup_insert_ne by done); eauto.
    intros c'. rewrite lookup_insert_eq. intros [= <-]. right. by exists c. }
  destruct (ev =? 0); [destruct (addedToEpoll c); [| apply touches_refl]; cbn; by apply touches_kernel |].
  destruct (epoll_ctl _ fd _ (kernel p)) as [k |] eqn:He; [| apply touches_refl]. cbn.
  pose proof (touches_kernel fd id _ p (if addedToEpoll c then EPOLL_CTL_MOD else EPOLL_CTL_ADD) (interest ev mode) (T true)) as H.
  by rewrite He in H.
Qed.

Lemma touches_updateIo (fd id ev : Z) (mode : TriggerMode) (p : Poller Z) : touches fd id p (snd (updateIo fd id ev mode p)).
Proof.
  assert (T : touches fd id p (snd (control (mkIo fd id None false) fd ev mode (set_context fd (mkIo fd id None false) p)))).
  { apply touches_trans with (set_context fd (mkIo fd id None false) p); [by apply touches_set_context |]. apply touches_control. cbn. by rewrite lookup_insert_eq. }
  unfold updateIo, mbind, mget. destruct (ioContexts_ p !! fd) as [c |] eqn:Hc; [| exact T].
  destruct (negb _); [| by apply touches_control]. destruct (id <? io_id c); [apply touches_refl | exact T].
Qed.

Lemma touches_removeIo (fd id : Z) (p : Poller Z) :
  (forall c, ioContexts_ p !! fd = Some c -> io_fd c = fd) -> touches fd id p (snd (removeIo fd id p)).
Proof.
  intros Hf. unfold removeIo, mbind, mget. destruct (ioContexts_ p !! fd) as [c |] eqn:Hc; [| apply touches_refl].
  destruct (negb (io_id c =? id)); [apply touches_refl |]. cbn.
  assert (T : touches fd id p (mkPoller (delete fd (ioContexts_ p)) (kernel p))).
  { split; cbn; try done; try (intros fd' Hfd; by rewrite lookup_delete_ne by done); eauto.
    intros c'. by rewrite lookup_delete_eq. }
  destruct (negb (addedToEpoll c)); [exact T |]. cbn. rewrite (Hf c eq_refl). exact (touches_kernel fd id _ p EPOLL_CTL_DEL 0 T).
Qed.

Lemma touches_registered (fd id fd' id' ev : Z) (mode : TriggerMode) (p p' : Poller Z) :
  touches fd id p p' -> fd' <> fd -> registered fd' id' mode ev p -> registered fd' id' mode ev p'.
Proof. intros [A1 A2 A3 _ _] Hfd (B1 & B2 & B3). unfold registered. rewrite A1, (A2 fd' Hfd), (A3 fd' Hfd). tauto. Qed.

(** ** The invariant is kept *)

(** An operation on the table that ends well. *)
Lemma on_poller_ok (m : M (Poller Z) unit) (f : Fds -> Fds) (w w' : Fds) :
  (let* _ := on_poller m in mmodify f) w = (Ok tt, w') ->
  m (poller w) = (Ok tt, snd (m (poller w))) /\ w' = f (set_poller (snd (m (poller w))) w).
Proof.
  unfold mbind, on_poller, mmodify. destruct (m (poller w)) as [[[] | ? | |] p]; cbn; intros [= <-]; done.
Qed.

Lemma touches_ok (fd id : Z) (w : Fds) (p' : Poller Z) (cs : gmap Z (Z * TriggerMode * Z)) (cur : gmap Z Z) :
  fds_ok w -> touches fd id (poller w) p' -> id <= lastId w ->
  (forall id' fd' mode ev, cs !! id' = Some (fd', mode, ev) ->
    exists ev', channels w !! id' = Some (fd', mode, ev')) ->
  (forall fd' id', cur !! fd' = Some id' -> current w !! fd' = Some id') ->
  (forall fd' id', cur !! fd' = Some id' -> fd' <> fd -> cs !! id' = channels w !! id') ->
  (forall id', cur !! fd = Some id' ->
    exists mode ev, cs !! id' = Some (fd, mode, ev) /\ registered fd id' mode ev p') ->
  fds_ok (mkFds p' (lastId w) cs cur).
Proof.
  intros [A1 A2 A3 A4 A5] T Hid Hcs Hcur Hsame Hown. split; cbn.
  - intros fd' H. destruct T as [T1 T2 T3 T4 T5]. rewrite T1. destruct (decide (fd' = fd)) as [-> | Hfd].
    + destruct (T4 H); auto.
    + apply A1. by rewrite <- T3.
  - intros fd' c H. destruct T as [T1 T2 T3 T4 T5]. destruct (decide (fd' = fd)) as [-> | Hfd].
    + destruct (T5 c H) as [[-> ->] | (c0 & H0 & -> & ->)]; [done | by apply A2].
    + apply A2. by rewrite <- T2.
  - intros id' fd' mode ev H. apply Hcs in H as [ev' H]. by eapply A3.
  - intros fd' id' H. destruct (decide (fd' = fd)) as [-> | Hfd]; [by apply Hown |].
    rewrite (Hsame fd' id' H Hfd). destruct (A4 fd' id' (Hcur _ _ H)) as (mode & ev & Hc & Hr).
    exists mode, ev. split; [done |]. by eapply touches_registered.
  - intros fd' id1 id2 mode ev H1 H2. apply Hcs in H2 as [ev' H2]. by eapply A5, H2; apply Hcur.
Qed.

Lemma fds_ok_open (fd : Z) (mode : TriggerMode) (w w' : Fds) :
  fds_ok w -> fdStep (Open fd mode) w = (Ok tt, w') -> fds_ok w'.
Proof.
  intros [A1 A2 A3 A4 A5]. unfold fdStep, mbind at 1, mget. destruct (decide _) as [Ho | Ho]; [by intros [= <-] |].
  unfold mbind, mput, on_poller. cbn [poller].
  assert (He : epoll (kernel (poller w)) !! fd = None).
  { destruct (epoll (kernel (poller w)) !! fd) eqn:He; [| done]. exfalso. by apply Ho, A1. }
  assert (Hs : setIoHandler fd (lastId w + 1) (lastId w + 1) (kernelStep (kopen fd) (poller w))
    = (Ok tt, set_context fd (mkIo fd (lastId w + 1) (Some (lastId w + 1)) false) (kernelStep (kopen fd) (poller w)))).
  { unfold setIoHandler, mbind, mget. cbn. destruct (ioContexts_ (poller w) !! fd) as [c |] eqn:Hc; [| done].
    destruct (A2 fd c Hc) as [_ Hid]. destruct (Z.eqb_spec (io_id c) (lastId w + 1)); [lia |]. cbn [negb].
    by destruct (Z.ltb_spec (lastId w + 1) (io_id c)); [lia |]. }
  rewrite Hs. intros [= <-]. split; cbn.
  - intros fd' H. apply A1 in H. set_solver.
  - intros fd' c H. destruct (decide (fd' = fd)) as [-> | Hfd].
    + rewrite lookup_insert_eq in H. injection H as <-. cbn. lia.
    + rewrite lookup_insert_ne in H by done. destruct (A2 fd' c H). lia.
  - intros id' fd' mode' ev H. destruct (decide (id' = lastId w + 1)) as [-> | Hid]; [lia |].
    rewrite lookup_insert_ne in H by done. apply A3 in H. lia.
  - intros fd' id' H. destruct (decide (fd' = fd)) as [-> | Hfd].
    + rewrite lookup_insert_eq in H. injection H as <-. exists mode, 0. rewrite lookup_insert_eq. split; [done |].
      unfold registered. cbn. rewrite lookup_insert_eq. split; [set_solver | done].
    + rewrite lookup_insert_ne in H by done. destruct (A4 fd' id' H) as (mode' & ev & Hc & Ho' & Hio & Hep).
      exists mode', ev. pose proof (A3 _ _ _ _ Hc). rewrite lookup_insert_ne by lia. split; [done |].
      unfold registered. cbn. rewrite lookup_insert_ne by done. split; [set_solver | done].
  - intros fd' id1 id2 mode' ev H1 H2. destruct (decide (fd' = fd)) as [-> | Hfd].
    + rewrite lookup_insert_eq in H1. injection H1 as <-. destruct (decide (id2 = lastId w + 1)) as [-> | Hid]; [lia |].
      rewrite lookup_insert_ne in H2 by done. apply A3 in H2. lia.
    + rewrite lookup_insert_ne in H1 by done. destruct (decide (id2 = lastId w + 1)) as [-> | Hid].
      * rewrite lookup_insert_eq in H2. injection H2 as -> _ _. done.
      * rewrite lookup_insert_ne in H2 by done. by eapply A5.
Qed.

Lemma fds_ok_update (id ev : Z) (w w' : Fds) :
  fds_ok w -> fdStep (Update id ev) w = (Ok tt, w') -> fds_ok w'.
Proof.
  intros A. unfold fdStep, mbind at 1, mget. destruct (channels w !! id) as [[[fd mode] ev0] |] eqn:Hc; [| by intros [= <-]].
  intros H. apply on_poller_ok in H as [Hok ->]. cbn [set_poller poller lastId channels current].
  pose proof (channel_id w A id fd mode ev0 Hc) as Hid.
  apply (touches_ok fd id w); try done; [by apply touches_updateIo | | |].
  - intros id' fd' mode' ev' H. destruct (decide (id' = id)) as [-> | Hne].
    + rewrite lookup_insert_eq in H. injection H as <- <- <-. by exists ev0.
    + rewrite lookup_insert_ne in H by done. by exists ev'.
  - intros fd' id' H Hfd. destruct (current_registered w A fd' id' H) as (mode' & ev' & Hc' & _).
    rewrite lookup_insert_ne; [done |]. intros <-. congruence.
  - intros id' H. destruct (current_registered w A fd id' H) as (mode' & ev' & Hc' & Hr).
    destruct (decide (id' = id)) as [-> | Hne].
    + rewrite Hc in Hc'. injection Hc' as <- <-. exists mode, ev. rewrite lookup_insert_eq. split; [done |].
      by destruct (updateIo_current fd id mode ev0 ev (poller w) Hr) as (p' & -> & Hr' & _).
    + exists mode', ev'. rewrite lookup_insert_ne by done. split; [done |].
      pose proof (current_last w A fd id' id mode ev0 H Hc).
      by rewrite (updateIo_stale fd id' id mode' mode ev' ev (poller w) Hr) by lia.
Qed.

Lemma fds_ok_destroy (id : Z) (w w' : Fds) :
  fds_ok w -> fdStep (Destroy id) w = (Ok tt, w') -> fds_ok w'.
Proof.
  intros A. unfold fdStep, mbind at 1, mget. destruct (channels w !! id) as [[[fd mode] ev0] |] eqn:Hc; [| by intros [= <-]].
  intros H. apply on_poller_ok in H as [Hok ->]. cbn [set_poller poller lastId channels current].
  pose proof (channel_id w A id fd mode ev0 Hc) as Hid.
  assert (Hcur : forall fd' id', (if decide (current w !! fd = Some id) then delete fd (current w) else current w) !! fd' = Some id' ->
    current w !! fd' = Some id' /\ id' <> id).
  { intros fd' id' H. destruct (decide (current w !! fd = Some id)) as [Hi | Hi].
    - destruct (decide (fd' = fd)) as [-> | Hfd]; [by rewrite lookup_delete_eq in H |].
      rewrite lookup_delete_ne in H by done. split; [done |]. intros ->.
      destruct (current_registered w A fd' id H) as (? & ? & Hc' & _). congruence.
    - split; [done |]. intros ->. destruct (current_registered w A fd' id H) as (? & ? & Hc' & _). congruence. }
  apply (touches_ok fd id w); try done.
  - apply touches_removeIo. intros c Hcc. exact (proj1 (context_fd w A fd c Hcc)).
  - intros id' fd' mode' ev' H. exists ev'. by apply lookup_delete_Some in H as [_ H].
  - intros fd' id' H. by apply Hcur.
  - intros fd' id' H _. apply Hcur in H as [_ H]. by rewrite lookup_delete_ne.
  - intros id' H. apply Hcur in H as [H Hne]. destruct (current_registered w A fd id' H) as (mode' & ev' & Hc' & Hr).
    exists mode', ev'. rewrite lookup_delete_ne by done. split; [done |].
    by rewrite (removeIo_stale fd id' id mode' ev' (poller w) Hr) by done.
Qed.

Lemma fds_ok_close (fd : Z) (w w' : Fds) :
  fds_ok w -> fdStep (Close fd) w = (Ok tt, w') -> fds_ok w'.
Proof.
  intros [A1 A2 A3 A4 A5]. cbn. intros [= <-]. split; cbn; try done.
  - intros fd' H. destruct (decide (fd' = fd)) as [-> | Hfd]; [rewrite lookup_delete_eq in H; by destruct H |].
    rewrite lookup_delete_ne in H by done. apply A1 in H. set_solver.
  - intros fd' id H. apply lookup_delete_Some in H as [Hfd H]. destruct (A4 fd' id H) as (mode & ev & Hc & Ho & Hio & He).
    exists mode, ev. split; [done |]. unfold registered. cbn. rewrite lookup_delete_ne by done. split; [set_solver | done].
  - intros fd' id1 id2 mode ev H. apply lookup_delete_Some in H as [Hfd H]. by eapply A5.
Qed.

Lemma fds_ok_steps (ops : list FdOp) (w w' : Fds) : fds_ok w -> fdSteps ops w = (Ok tt, w') -> fds_ok w'.
Proof.
  revert w. induction ops as [| op ops IH]; intros w A; [by intros [= <-] |]. cbn [fdSteps]. unfold mbind.
  destruct (fdStep op w) as [[[] | ? | |] w1] eqn:H1; try done. apply IH.
  destruct op; [by eapply fds_ok_open | by eapply fds_ok_update | by eapply fds_ok_destroy | by eapply fds_ok_close].
Qed.

Lemma fds_ok_new : fds_ok newFds.
Proof. split; cbn; intros *; rewrite ?lookup_empty; done. Qed.

(** C23: the table follows the descriptors.  After any operations of channels,
    with descriptors closed and their numbers reused in between, the channel
    constructed last on an open descriptor has its context there, with its own
    handler, and is registered with the kernel for exactly the events it last
    asked for: what the kernel reports on the descriptor reaches this channel.
    Its next operation succeeds, and an operation of an older channel, whose
    descriptor was closed under it, changes nothing. *)
Theorem io_table_current (ops : list FdOp) (w : Fds) (fd id : Z)
    (Hrun : fdSteps ops newFds = (Ok tt, w)) (Hcur : current w !! fd = Some id) :
  exists mode ev, channels w !! id = Some (fd, mode, ev) /\ registered fd id mode ev (poller w)
  /\ (forall W (at_ : W -> Poller Z) (call : Z -> Z -> Z -> M W unit) read wakeupFd s mask,
        fd <> wakeupFd -> at_ s = poller w ->
        process_io_events at_ call wakeupFd read [(fd, mask)] s = (let* _ := call id fd mask in mret tt) s)
  /\ (forall ev', exists w', fdStep (Update id ev') w = (Ok tt, w') /\ registered fd id mode ev' (poller w'))
  /\ (exists w', fdStep (Destroy id) w = (Ok tt, w') /\ ioContexts_ (poller w') !! fd = None
        /\ epoll (kernel (poller w')) !! fd = None)
  /\ forall id' mode' ev0, id' <> id -> channels w !! id' = Some (fd, mode', ev0) ->
       (forall ev', exists w', fdStep (Update id' ev') w = (Ok tt, w') /\ poller w' = poller w)
       /\ exists w', fdStep (Destroy id') w = (Ok tt, w') /\ poller w' = poller w.
Proof.
  pose proof (fds_ok_steps ops newFds w fds_ok_new Hrun) as A.
  destruct (current_registered w A fd id Hcur) as (mode & ev & Hc & Hr). exists mode, ev.
  split; [done |]. split; [done |]. split; [| split; [| split]].
  - intros W at_ call read wakeupFd s mask Hfd Hat. cbn. destruct (Z.eqb_spec fd wakeupFd); [done |].
    unfold mbind at 1 2, mget. rewrite Hat. destruct Hr as (_ & -> & _). done.
  - intros ev'. destruct (updateIo_current fd id mode ev ev' (poller w) Hr) as (p' & Hu & Hr' & _).
    unfold fdStep, mbind, mget, on_poller, mmodify. rewrite Hc, Hu. eexists. split; [done |]. exact Hr'.
  - unfold fdStep, mbind, mget, on_poller, mmodify. rewrite Hc, (removeIo_current fd id mode ev (poller w) Hr).
    eexists. split; [done |]. cbn. by rewrite !lookup_delete_eq.
  - intros id' mode' ev0 Hne Hc'. pose proof (current_last w A fd id id' mode' ev0 Hcur Hc').
    unfold fdStep, mbind, mget, on_poller, mmodify. rewrite Hc'. split.
    + intros ev'. rewrite (updateIo_stale fd id id' mode mode' ev ev' (poller w) Hr) by lia. by eexists.
    + rewrite (removeIo_stale fd id id' mode ev (poller w) Hr) by done. by eexists.
Qed.

(** Descriptor 7 is closed while channel 1 still exists, and given to channel 2. *)
Lemma io_table_current_witness :
  let ops := [Open 7 EdgeTriggered; Update 1 EPOLLIN; Close 7; Open 7 LevelTriggered; Update 2 EPOLLOUT; Update 1 0] in
  exists w, fdSteps ops newFds = (Ok tt, w) /\ current w !! 7 = Some 2 /\ channels w !! 1 = Some (7, EdgeTriggered, 0)
  /\ (exists mode ev, channels w !! 2 = Some (7, mode, ev) /\ registered 7 2 mode ev (poller w))
  /\ exists w', fdStep (Destroy 1) w = (Ok tt, w') /\ poller w' = poller w.
Proof.
  intros ops. destruct (fdSteps ops newFds) as [o w] eqn:Hrun.
  assert (Ho : o = Ok tt) by (injection Hrun as <- _; by vm_compute). subst o.
  assert (Hcur : current w !! 7 = Some 2) by (injection Hrun as <-; by vm_compute).
  assert (H1 : channels w !! 1 = Some (7, EdgeTriggered, 0)) by (injection Hrun as <-; by vm_compute).
  exists w. split; [done |]. split; [done |]. split; [done |].
  destruct (io_table_current ops w 7 2 Hrun Hcur) as (mode & ev & Hc & Hr & _ & _ & _ & Hst).
  split; [by exists mode, ev |]. by apply (Hst 1 EdgeTriggered 0).
Defined.
