(* ===== verification/Channel.v ===== *)
(** The channel of a descriptor: src/include/nitrocoro/io/Channel.h and
    src/src/Channel.cc, with the callback channel of
    src/include/nitrocoro/io/CallbackChannel.h.

    A channel belongs to the thread of its scheduler: its members are only
    touched by that thread, so that what happens between two suspensions of a
    coroutine is not interleaved with other operations of the channel.
    [performImpl] is given by its program points ([Pc]); a step goes from one to
    the next, and the adapter's system call lies inside a step. *)

From Stdlib Require Import ZArith Lia.
From stdpp Require Import base numbers option list gmap.
From S2P Require Import Prelude IoTable.
Open Scope Z_scope.

(** ** State *)

(** The two coroutines a channel supports: one that reads and one that writes. *)
Inductive Who : Type := Reader | Writer.

#[export] Instance Who_eq_dec : EqDecision Who.
Proof. solve_decision. Defined.

Record IoState : Type := mkIoState {
  readable : bool;
  writable : bool;
  errored : bool;
  peerClosed : bool;
  readableWaiter : option Who;
  writableWaiter : option Who;
  readCanceled : bool;
  writeCanceled : bool
}.

Definition newIoState : IoState := mkIoState false true false false None None false false.

Definition set_readable (b : bool) (s : IoState) : IoState :=
  mkIoState b (writable s) (errored s) (peerClosed s) (readableWaiter s) (writableWaiter s) (readCanceled s) (writeCanceled s).
Definition set_writable (b : bool) (s : IoState) : IoState :=
  mkIoState (readable s) b (errored s) (peerClosed s) (readableWaiter s) (writableWaiter s) (readCanceled s) (writeCanceled s).
Definition set_errored (s : IoState) : IoState :=
  mkIoState (readable s) (writable s) true (peerClosed s) (readableWaiter s) (writableWaiter s) (readCanceled s) (writeCanceled s).
Definition set_peerClosed (s : IoState) : IoState :=
  mkIoState (readable s) (writable s) (errored s) true (readableWaiter s) (writableWaiter s) (readCanceled s) (writeCanceled s).
Definition set_waiters (r w : option Who) (s : IoState) : IoState :=
  mkIoState (readable s) (writable s) (errored s) (peerClosed s) r w (readCanceled s) (writeCanceled s).
Definition set_canceled (r w : bool) (s : IoState) : IoState :=
  mkIoState (readable s) (writable s) (errored s) (peerClosed s) (readableWaiter s) (writableWaiter s) r w.

Record Channel : Type := mkChannel {
  ch_id : Z;
  ch_fd : Z;
  triggerMode_ : TriggerMode;
  events_ : Z;
  state_ : IoState
}.

Definition set_events (ev : Z) (c : Channel) : Channel := mkChannel (ch_id c) (ch_fd c) (triggerMode_ c) ev (state_ c).
Definition set_state (s : IoState) (c : Channel) : Channel := mkChannel (ch_id c) (ch_fd c) (triggerMode_ c) (events_ c) s.

(** ** Events of the descriptor *)

Definition has (ev mask : Z) : bool := negb (Z.land ev mask =? 0).

(** A waiter is taken and scheduled; the list is what [schedule] was called
    with, in order. *)
Definition wakeReader (x : IoState * list Who) : IoState * list Who :=
  let '(s, hs) := x in
  match readableWaiter s with
  | Some h => (set_waiters None (writableWaiter s) s, hs ++ [h])
  | None => x
  end.

Definition wakeWriter (x : IoState * list Who) : IoState * list Who :=
  let '(s, hs) := x in
  match writableWaiter s with
  | Some h => (set_waiters (readableWaiter s) None s, hs ++ [h])
  | None => x
  end.

Definition on_state (f : IoState -> IoState) (x : IoState * list Who) : IoState * list Who := (f (fst x), snd x).

(** The peer-closed callback is the connection's: whether it is called is
    [has ev EPOLLRDHUP]. *)
Definition handleIoEvents (ev : Z) (s : IoState) : IoState * list Who :=
  let x := (s, []) in
  let x := if has ev EPOLLERR then wakeWriter (wakeReader (on_state set_errored x)) else x in
  let x := if has ev EPOLLRDHUP then on_state set_peerClosed x else x in
  let x := if has ev (Z.lor EPOLLIN (Z.lor EPOLLHUP EPOLLRDHUP)) then wakeReader (on_state (set_readable true) x) else x in
  if has ev EPOLLOUT then wakeWriter (on_state (set_writable true) x) else x.

(** ** Operations *)

(** The channel beside the table of its scheduler. *)
Definition Registered : Type := (Poller Z * Channel)%type.

(** The constructor on the scheduler's own thread, where [dispatch] runs its
    argument at once; the identifier is from [nextIoId]. *)
Definition newChannel (id fd : Z) (mode : TriggerMode) : M (Poller Z) Channel :=
  let* _ := setIoHandler fd id id in
  mret (mkChannel id fd mode 0 newIoState).

(** The destructor there. *)
Definition destroyChannel (c : Channel) : M (Poller Z) unit := removeIo (ch_fd c) (ch_id c).

Definition changeEvents (ev : Z) : M Registered unit := fun '(p, c) =>
  let '(o, p') := updateIo (ch_fd c) (ch_id c) ev (triggerMode_ c) p in (o, (p', set_events ev c)).

Definition enable (bit : Z) : M Registered unit :=
  let* x := mget in
  let ev := events_ (snd x) in
  if negb (has ev bit) then changeEvents (Z.lor ev bit) else mret tt.

Definition disable (bit : Z) : M Registered unit :=
  let* x := mget in
  let ev := events_ (snd x) in
  if has ev bit then changeEvents (Z.ldiff ev bit) else mret tt.

Definition enableReading : M Registered unit := enable EPOLLIN.
Definition disableReading : M Registered unit := disable EPOLLIN.
Definition enableWriting : M Registered unit := enable EPOLLOUT.
Definition disableWriting : M Registered unit := disable EPOLLOUT.

Definition disableAll : M Registered unit :=
  let* x := mget in
  if negb (events_ (snd x) =? 0) then changeEvents 0 else mret tt.

Definition cancelRead (s : IoState) : IoState * list Who :=
  match readableWaiter s with
  | Some h => (set_waiters None (writableWaiter s) (set_canceled true (writeCanceled s) s), [h])
  | None => (s, [])
  end.

Definition cancelWrite (s : IoState) : IoState * list Who :=
  match writableWaiter s with
  | Some h => (set_waiters (readableWaiter s) None (set_canceled (readCanceled s) true s), [h])
  | None => (s, [])
  end.

Definition cancelAll (s : IoState) : IoState * list Who :=
  let '(s, hs) := cancelRead s in
  let '(s, hs') := cancelWrite s in
  (s, hs ++ hs').

(** ** [performImpl] *)

Inductive IoStatus : Type := Success | NeedRead | NeedWrite | Retry | Eof | Error.

Inductive IoResult : Type := RSuccess | REof | RError | RCanceled.

Inductive WaitHint : Type := WaitRead | WaitWrite | WaitNone.

(** Before the test of [pendingWait]; suspended in an awaiter; behind it, before
    the test for a cancellation; before the adapter's call; returned. *)
Inductive Pc : Type :=
| PTop (pendingWait : WaitHint)
| PSuspended (pendingWait : WaitHint)
| PResumed (pendingWait : WaitHint)
| PCall
| PDone (o : outcome IoResult).

(** The test of [pendingWait] and [await_ready] and [await_suspend] of the
    awaiter. *)
Definition performWait (me : Who) (pendingWait : WaitHint) (s : IoState) : Pc * IoState :=
  match pendingWait with
  | WaitRead =>
      if readable s then (PCall, s)
      else if readable s || errored s then (PResumed WaitRead, s)
      else (PSuspended WaitRead, set_waiters (Some me) (writableWaiter s) s)
  | WaitWrite =>
      if writable s then (PCall, s)
      else if writable s || errored s then (PResumed WaitWrite, s)
      else (PSuspended WaitWrite, set_waiters (readableWaiter s) (Some me) s)
  | WaitNone => (PCall, s)
  end.

Definition performResume (pendingWait : WaitHint) (s : IoState) : Pc * IoState :=
  match pendingWait with
  | WaitRead => if readCanceled s then (PDone (Ok RCanceled), set_canceled false (writeCanceled s) s) else (PCall, s)
  | WaitWrite => if writeCanceled s then (PDone (Ok RCanceled), set_canceled (readCanceled s) false s) else (PCall, s)
  | WaitNone => (PCall, s)
  end.

Definition performStatus (status : IoStatus) (s : IoState) : Pc * IoState :=
  match status with
  | Success => (PDone (Ok RSuccess), s)
  | Eof => (PDone (Ok REof), s)
  | Error => (PDone (Ok RError), s)
  | NeedRead => (PTop WaitRead, set_readable false s)
  | NeedWrite => (PTop WaitWrite, set_writable false s)
  | Retry => (PTop WaitNone, s)
  end.

(** ** The callback channel *)

Module CallbackChannel.

(** The callbacks that are set, and the calls made. *)
Inductive Callback : Type := OnReadable | OnWritable | OnClose | OnError.

#[export] Instance Callback_eq_dec : EqDecision Callback.
Proof. solve_decision. Defined.

Definition State : Type := list Callback.

Definition isSet (cb : Callback) (s : State) : bool := bool_decide (cb ∈ s).

Definition handleIoEvents (s : State) (ev : Z) : list Callback :=
  (if has ev EPOLLHUP && negb (has ev EPOLLIN) && isSet OnClose s then [OnClose] else [])
  ++ (if has ev EPOLLERR && isSet OnError s then [OnError] else [])
  ++ (if has ev EPOLLIN && isSet OnReadable s then [OnReadable] else [])
  ++ (if has ev EPOLLOUT && isSet OnWritable s then [OnWritable] else []).

(** The descriptor, identifier and events; [setEvents] skips what changes
    nothing. *)
Definition setEvents (newEvents : Z) : M (Poller Z * (Z * Z * Z)) unit := fun '(p, (fd, id, ev)) =>
  if ev =? newEvents then (Ok tt, (p, (fd, id, ev)))
  else let '(o, p') := updateIo fd id newEvents LevelTriggered p in (o, (p', (fd, id, newEvents))).

Definition enableReading : M (Poller Z * (Z * Z * Z)) unit := fun x => setEvents (Z.lor (snd (snd x)) EPOLLIN) x.
Definition disableReading : M (Poller Z * (Z * Z * Z)) unit := fun x => setEvents (Z.ldiff (snd (snd x)) EPOLLIN) x.
Definition enableWriting : M (Poller Z * (Z * Z * Z)) unit := fun x => setEvents (Z.lor (snd (snd x)) EPOLLOUT) x.
Definition disableWriting : M (Poller Z * (Z * Z * Z)) unit := fun x => setEvents (Z.ldiff (snd (snd x)) EPOLLOUT) x.
Definition disableAll : M (Poller Z * (Z * Z * Z)) unit := fun x => setEvents 0 x.
End CallbackChannel.
