(* ===== verification/Tcp.v ===== *)
(** TCP connections: src/src/TcpConnection.cc over its channel, with the
    adapters of src/include/nitrocoro/io/adapters/ and the socket of
    src/src/Socket.cc.

    The kernel's side of the connection ([Sock]) is what its documentation says
    of a non-blocking stream socket in an edge-triggered [epoll]: [read] gives
    some of the bytes that arrived, 0 at the end, [EAGAIN] only when there is
    neither; [write] takes some bytes when there is room, [EAGAIN] when there is
    none; a condition that begins to hold while it is of interest, or that holds
    when the registration is made or changed, is reported once, with the other
    conditions that hold then.  Between any two steps of the program the network
    may bring bytes, the end of the stream or a reset, or take bytes away.

    One coroutine reads and one writes at a time, as the channel demands.  The
    loop's thread runs one of them from a resumption to its next suspension; the
    steps of such a run are not interleaved with other operations of the thread,
    only with the network's. *)

From Stdlib Require Import ZArith Lia String Strings.Byte.
From stdpp Require Import base numbers option list gmap.
From S2P Require Import Prelude IoTable Channel.
Open Scope Z_scope.

(** ** The socket *)

(** [rx]: arrived and not read; [fin]: the peer has ended its side; [soerror]: a
    reset not reported yet; [room]: what the send buffer takes; [tx]: what it
    took; [dead]: no more can be sent; [edge]: there is something to report. *)
Record Sock : Type := mkSock {
  rx : bytes;
  fin : bool;
  soerror : bool;
  room : nat;
  tx : bytes;
  dead : bool;
  edge : bool
}.

Definition set_edge (b : bool) (k : Sock) : Sock := mkSock (rx k) (fin k) (soerror k) (room k) (tx k) (dead k) b.

Inductive Errno : Type := EAGAIN | EINTR | ECONNRESET | EPIPE.

#[export] Instance Errno_eq_dec : EqDecision Errno.
Proof. solve_decision. Defined.

(** How the kernel answers where it is free to: a signal interrupts the call, or
    at most so many bytes and one more are transferred. *)
Inductive SysAnswer : Type := Interrupted | UpTo (k : nat).

Definition sysRead (len : nat) (a : SysAnswer) (k : Sock) : (bytes + Errno) * Sock :=
  match a with
  | Interrupted => (inr EINTR, k)
  | UpTo m =>
      match rx k with
      | [] =>
          if soerror k then (inr ECONNRESET, mkSock [] (fin k) false (room k) (tx k) (dead k) (edge k))
          else if fin k then (inl [], k)
          else (inr EAGAIN, k)
      | _ =>
          let n := Nat.min len (S m) in
          (inl (take n (rx k)), mkSock (drop n (rx k)) (fin k) (soerror k) (room k) (tx k) (dead k) (edge k))
      end
  end.

Definition sysWrite (d : bytes) (a : SysAnswer) (k : Sock) : (nat + Errno) * Sock :=
  match a with
  | Interrupted => (inr EINTR, k)
  | UpTo m =>
      if soerror k then (inr ECONNRESET, mkSock (rx k) (fin k) false (room k) (tx k) (dead k) (edge k))
      else if dead k then (inr EPIPE, k)
      else
        match room k with
        | O => (inr EAGAIN, k)
        | _ =>
            let n := Nat.min (length d) (Nat.min (S m) (room k)) in
            (inl n, mkSock (rx k) (fin k) (soerror k) (room k - n) (tx k ++ take n d) (dead k) (edge k))
        end
  end.

(** ** The socket in the poller *)

Record Net : Type := mkNet {
  reg : Registered;
  sock : Sock
}.

Definition chan (n : Net) : Channel := snd (reg n).
Definition set_chan (c : Channel) (n : Net) : Net := mkNet (fst (reg n), c) (sock n).
Definition set_sock (k : Sock) (n : Net) : Net := mkNet (reg n) k.

Definition mask_ (n : Net) : option Z := epoll (kernel (fst (reg n))) !! ch_fd (chan n).
Definition interested (n : Net) (bit : Z) : bool := match mask_ n with Some m => has m bit | None => false end.

Definition levelIn (k : Sock) : bool := match rx k with [] => fin k || soerror k | _ => true end.
Definition levelOut (k : Sock) : bool := (0 <? room k)%nat || dead k || soerror k.

Definition bit (b : bool) (m : Z) : Z := if b then m else 0.

(** The conditions that hold and are of interest; errors and hang-ups always
    are. *)
Definition conditions (n : Net) : Z :=
  let k := sock n in
  bit (levelIn k && interested n EPOLLIN) EPOLLIN + bit (levelOut k && interested n EPOLLOUT) EPOLLOUT
  + bit (soerror k) EPOLLERR + bit (fin k && dead k) EPOLLHUP + bit (fin k && interested n EPOLLRDHUP) EPOLLRDHUP.

(** A change of the registration makes the kernel look at the conditions anew. *)
Definition rearm (n : Net) : Net := set_sock (set_edge (edge (sock n) || negb (conditions n =? 0)) (sock n)) n.

Definition on_channel (m : M Registered unit) : M Net unit := fun n =>
  let '(o, reg') := m (reg n) in
  let n' := mkNet reg' (sock n) in
  (o, if events_ (chan n') =? events_ (chan n) then n' else rearm n').

(** ** The adapters *)

Record BufferReader : Type := mkReader {
  r_len : nat;
  r_buf : bytes;
  r_errno : option Errno
}.

Record BufferWriter : Type := mkWriter {
  w_buf : bytes;
  wroteLen_ : nat;
  w_errno : option Errno
}.

(** What [read] leaves in the buffer is [r_buf]. *)
Definition bufferReader (a : SysAnswer) (r : BufferReader) : M Net (IoStatus * BufferReader) :=
  if (r_len r =? 0)%nat then mret (Success, r)
  else fun n =>
    let '(ret, k) := sysRead (r_len r) a (sock n) in
    let n := set_sock k n in
    match ret with
    | inl [] => (Ok (Eof, r), n)
    | inl data => (Ok (Success, mkReader (r_len r) data (r_errno r)), n)
    | inr EAGAIN => (Ok (NeedRead, r), n)
    | inr EINTR => (Ok (Retry, r), n)
    | inr ECONNRESET => (Ok (Eof, r), n)
    | inr e => (Ok (Error, mkReader (r_len r) (r_buf r) (Some e)), n)
    end.

(** A [write] of a non-empty buffer does not give 0. *)
Definition bufferWriter (a : SysAnswer) (w : BufferWriter) : M Net (IoStatus * BufferWriter) :=
  if (length (w_buf w) =? 0)%nat then mret (Success, w)
  else
    let* ret := (fun n => let '(ret, k) := sysWrite (drop (wroteLen_ w) (w_buf w)) a (sock n) in (Ok ret, set_sock k n)) in
    match ret with
    | inl m =>
        let w := mkWriter (w_buf w) (wroteLen_ w + m) (w_errno w) in
        if (length (w_buf w) <=? wroteLen_ w)%nat then
          let* _ := on_channel disableWriting in mret (Success, w)
        else mret (Retry, w)
    | inr EAGAIN => let* _ := on_channel enableWriting in mret (NeedWrite, w)
    | inr EINTR => mret (Retry, w)
    | inr EPIPE | inr ECONNRESET => mret (Eof, w)
    end.

(** ** The connection *)

Module TcpState.
Inductive State : Type := NoState | Connected | LocalShutdown | PeerShutdown | Closed.

#[export] Instance State_eq_dec : EqDecision State.
Proof. solve_decision. Defined.
End TcpState.
Import TcpState.

(** The peer-closed callback. *)
Definition peerClosedCallback (s : State) : State :=
  let s := if decide (s = Connected) then PeerShutdown else s in
  if decide (s = LocalShutdown) then Closed else s.

(** What [read] does with the result of its operation. *)
Definition readResult (o : outcome IoResult) (r : BufferReader) (s : State) : outcome bytes * State :=
  match o with
  | Ok REof => (Ok [], if decide (s = LocalShutdown) then Closed else PeerShutdown)
  | Ok RSuccess => (Ok (r_buf r), s)
  | Ok _ => (Throw (RuntimeError "strerror"%string), Closed)
  | Throw e => (Throw e, s)
  | Undefined => (Undefined, s)
  | Diverge => (Diverge, s)
  end.

Definition writeResult (o : outcome IoResult) (w : BufferWriter) (s : State) : outcome nat * State :=
  match o with
  | Ok REof => (Ok 0%nat, Closed)
  | Ok RSuccess => (Ok (length (w_buf w)), s)
  | Ok _ => (Throw (RuntimeError "strerror"%string), Closed)
  | Throw e => (Throw e, s)
  | Undefined => (Undefined, s)
  | Diverge => (Diverge, s)
  end.

(** A connection with the coroutines in its [read] and [write], and the ready
    queue of its scheduler as far as they are in it.  [alive]: the channel
    exists.  [delivered] and [accepted] record what the reads returned and what
    the kernel took of the writes that ended; [arrived] what the network brought; [lastRead] and
    [lastWrite] the results of the last calls. *)
Record World : Type := mkWorld {
  net : Net;
  alive : bool;
  tcp : State;
  ready : list Who;
  running : option Who;
  reading : option (Pc * BufferReader);
  writing : option (Pc * BufferWriter);
  lastRead : option (outcome bytes);
  lastWrite : option (BufferWriter * outcome nat);
  delivered : bytes;
  accepted : bytes;
  arrived : bytes
}.

Definition set_net (n : Net) (w : World) : World :=
  mkWorld n (alive w) (tcp w) (ready w) (running w) (reading w) (writing w) (lastRead w) (lastWrite w) (delivered w) (accepted w) (arrived w).
Definition set_alive (b : bool) (w : World) : World :=
  mkWorld (net w) b (tcp w) (ready w) (running w) (reading w) (writing w) (lastRead w) (lastWrite w) (delivered w) (accepted w) (arrived w).
Definition set_tcp (s : State) (w : World) : World :=
  mkWorld (net w) (alive w) s (ready w) (running w) (reading w) (writing w) (lastRead w) (lastWrite w) (delivered w) (accepted w) (arrived w).
Definition set_run (hs : list Who) (r : option Who) (w : World) : World :=
  mkWorld (net w) (alive w) (tcp w) hs r (reading w) (writing w) (lastRead w) (lastWrite w) (delivered w) (accepted w) (arrived w).
Definition set_reading (x : option (Pc * BufferReader)) (w : World) : World :=
  mkWorld (net w) (alive w) (tcp w) (ready w) (running w) x (writing w) (lastRead w) (lastWrite w) (delivered w) (accepted w) (arrived w).
Definition set_writing (x : option (Pc * BufferWriter)) (w : World) : World :=
  mkWorld (net w) (alive w) (tcp w) (ready w) (running w) (reading w) x (lastRead w) (lastWrite w) (delivered w) (accepted w) (arrived w).
Definition set_results (r : option (outcome bytes)) (wr : option (BufferWriter * outcome nat)) (w : World) : World :=
  mkWorld (net w) (alive w) (tcp w) (ready w) (running w) (reading w) (writing w) r wr (delivered w) (accepted w) (arrived w).
Definition set_logs (d a ar : bytes) (w : World) : World :=
  mkWorld (net w) (alive w) (tcp w) (ready w) (running w) (reading w) (writing w) (lastRead w) (lastWrite w) d a ar.

Definition ch_state (w : World) : IoState := state_ (chan (net w)).
Definition set_ch_state (s : IoState) (w : World) : World := set_net (set_chan (set_state s (chan (net w))) (net w)) w.

(** ** Steps of the coroutines *)

(** [read] and [write] return to who awaits them. *)
Definition finishRead (o : outcome IoResult) (r : BufferReader) (w : World) : World :=
  let '(res, st) := readResult o r (tcp w) in
  let data := match res with Ok d => d | _ => [] end in
  set_logs (delivered w ++ data) (accepted w) (arrived w)
    (set_results (Some res) (lastWrite w) (set_reading None (set_run (ready w) None (set_tcp st w)))).

Definition finishWrite (o : outcome IoResult) (wr : BufferWriter) (w : World) : World :=
  let '(res, st) := writeResult o wr (tcp w) in
  set_logs (delivered w) (accepted w ++ take (wroteLen_ wr) (w_buf wr)) (arrived w)
    (set_results (lastRead w) (Some (wr, res)) (set_writing None (set_run (ready w) None (set_tcp st w)))).

(** A coroutine that has gone to this point of [performImpl]. *)
Definition readerAt (pc : Pc) (r : BufferReader) (w : World) : World :=
  match pc with
  | PDone o => finishRead o r w
  | PSuspended _ => set_reading (Some (pc, r)) (set_run (ready w) None w)
  | _ => set_reading (Some (pc, r)) w
  end.

Definition writerAt (pc : Pc) (wr : BufferWriter) (w : World) : World :=
  match pc with
  | PDone o => finishWrite o wr w
  | PSuspended _ => set_writing (Some (pc, wr)) (set_run (ready w) None w)
  | _ => set_writing (Some (pc, wr)) w
  end.

(** [performImpl] around the adapter's call. *)
Definition performCall {A : Type} (adapter : M Net (IoStatus * A)) (a0 : A) (n : Net) : Pc * A * Net :=
  let '(o, n) := adapter n in
  match o with
  | Ok (status, a) =>
      let '(pc, s) := performStatus status (state_ (chan n)) in
      (pc, a, set_chan (set_state s (chan n)) n)
  | Throw e => (PDone (Throw e), a0, n)
  | Undefined => (PDone Undefined, a0, n)
  | Diverge => (PDone Diverge, a0, n)
  end.

Definition stepReader (a : SysAnswer) (w : World) : World :=
  match reading w with
  | Some (PTop h, r) => let '(pc, s) := performWait Reader h (ch_state w) in readerAt pc r (set_ch_state s w)
  | Some (PResumed h, r) => let '(pc, s) := performResume h (ch_state w) in readerAt pc r (set_ch_state s w)
  | Some (PCall, r) => let '(pc, r, n) := performCall (bufferReader a r) r (net w) in readerAt pc r (set_net n w)
  | _ => w
  end.

Definition stepWriter (a : SysAnswer) (w : World) : World :=
  match writing w with
  | Some (PTop h, wr) => let '(pc, s) := performWait Writer h (ch_state w) in writerAt pc wr (set_ch_state s w)
  | Some (PResumed h, wr) => let '(pc, s) := performResume h (ch_state w) in writerAt pc wr (set_ch_state s w)
  | Some (PCall, wr) => let '(pc, wr, n) := performCall (bufferWriter a wr) wr (net w) in writerAt pc wr (set_net n w)
  | _ => w
  end.

(** [resume] of a suspended coroutine. *)
Definition resumed (x : Pc) : Pc := match x with PSuspended h => PResumed h | pc => pc end.

Definition resume (h : Who) (w : World) : World :=
  match h with
  | Reader => set_reading ((fun x => (resumed (fst x), snd x)) <$> reading w) w
  | Writer => set_writing ((fun x => (resumed (fst x), snd x)) <$> writing w) w
  end.

(** ** The network *)

Definition signal (was now : bool) (w : World) : World :=
  if negb was && now then set_net (set_sock (set_edge true (sock (net w))) (net w)) w else w.

Definition arrive (d : bytes) (w : World) : World :=
  let k := sock (net w) in
  if fin k || soerror k || (length d =? 0)%nat then w
  else
    let k' := mkSock (rx k ++ d) (fin k) (soerror k) (room k) (tx k) (dead k) (edge k) in
    signal (levelIn k) (interested (net w) EPOLLIN)
      (set_logs (delivered w) (accepted w) (arrived w ++ d) (set_net (set_sock k' (net w)) w)).

(** A descriptor that is registered has an event for the end of the stream. *)
Definition isRegistered (w : World) : bool := bool_decide (is_Some (mask_ (net w))).

Definition peerFin (w : World) : World :=
  let k := sock (net w) in
  let k' := mkSock (rx k) true (soerror k) (room k) (tx k) (dead k) (edge k) in
  signal (fin k) (isRegistered w) (set_net (set_sock k' (net w)) w).

Definition peerReset (w : World) : World :=
  let k := sock (net w) in
  let k' := mkSock (rx k) true true (room k) (tx k) true (edge k) in
  signal (fin k && dead k) (isRegistered w) (set_net (set_sock k' (net w)) w).

Definition drain (n : nat) (w : World) : World :=
  let k := sock (net w) in
  let k' := mkSock (rx k) (fin k) (soerror k) (room k + n) (tx k) (dead k) (edge k) in
  signal (levelOut k) ((0 <? n)%nat && interested (net w) EPOLLOUT) (set_net (set_sock k' (net w)) w).

(** [shutdown(SHUT_WR)]: from now on a write fails at once. *)
Definition sysShutdown (w : World) : World :=
  let k := sock (net w) in
  let k' := mkSock (rx k) (fin k) (soerror k) (room k) (tx k) true (edge k) in
  signal (levelOut k) (interested (net w) EPOLLOUT) (set_net (set_sock k' (net w)) w).

(** ** The event loop's thread *)

Definition callHandler (_ : Z) (_ ev : Z) : M World unit := fun w =>
  if alive w then
    let '(s, hs) := handleIoEvents ev (ch_state w) in
    let w := set_run (ready w ++ hs) (running w) (set_ch_state s w) in
    (Ok tt, if has ev EPOLLRDHUP then set_tcp (peerClosedCallback (tcp w)) w else w)
  else (Ok tt, w).

(** [process_io_events], as far as this descriptor is concerned. *)
Definition pollable (w : World) : bool := edge (sock (net w)) && isRegistered w && negb (conditions (net w) =? 0).

Definition poll : M World unit := fun w =>
  if pollable w then
    let ev := conditions (net w) in
    process_io_events (fun w => fst (reg (net w))) callHandler (-1) (mret tt) [(ch_fd (chan (net w)), ev)]
      (set_net (set_sock (set_edge false (sock (net w))) (net w)) w)
  else (Ok tt, w).

Definition shutdown (w : World) : World :=
  match tcp w with
  | LocalShutdown | Closed => w
  | PeerShutdown => sysShutdown (set_tcp Closed w)
  | _ => sysShutdown (set_tcp LocalShutdown w)
  end.

Definition cancel (w : World) : World :=
  let '(s, hs) := cancelAll (ch_state w) in set_run (ready w ++ hs) (running w) (set_ch_state s w).

(** [forceClose]: [disableAll], [cancelAll], the destructor of the channel, and
    that of the socket, which closes the descriptor. *)
Definition forceClose : M World unit := fun w =>
  let '(o, n) := on_channel disableAll (net w) in
  match o with
  | Ok _ =>
      let w := cancel (set_net n (set_tcp Closed w)) in
      let '(o, p) := destroyChannel (chan (net w)) (fst (reg (net w))) in
      (o, set_alive false (set_net (mkNet (kernelStep (kclose (ch_fd (chan (net w)))) p, chan (net w)) (sock (net w))) w))
  | _ => (o, w)
  end.

Inductive Event : Type :=
| Arrive (d : bytes)
| PeerFin
| PeerReset
| Drain (n : nat)
| Poll
| StartRead (len : nat)
| StartWrite (d : bytes)
| Resume
| Continue (a : SysAnswer)
| Cancel
| Shutdown
| ForceClose.

(** Behind [forceClose] the connection has no channel: whoever uses it follows a
    null pointer, and a coroutine that is still in it a dangling one. *)
Definition step (e : Event) : M World unit :=
  let* w := mget in
  let idle := bool_decide (running w = None) in
  let use (m : M World unit) : M World unit := if alive w then m else mlift Undefined in
  match e with
  | Arrive d => mput (arrive d w)
  | PeerFin => mput (peerFin w)
  | PeerReset => mput (peerReset w)
  | Drain n => mput (drain n w)
  | Poll => if idle then poll else mret tt
  | StartRead len =>
      if idle && bool_decide (reading w = None) then
        use (mput (set_reading (Some (PTop WaitRead, mkReader len [] None)) (set_run (ready w) (Some Reader) w)))
      else mret tt
  | StartWrite d =>
      if idle && bool_decide (writing w = None) then
        use (mput (set_writing (Some (PTop WaitWrite, mkWriter d 0 None)) (set_run (ready w) (Some Writer) w)))
      else mret tt
  | Resume =>
      match idle, ready w with
      | true, h :: hs => mput (resume h (set_run hs (Some h) w))
      | _, _ => mret tt
      end
  | Continue a =>
      match running w with
      | Some Reader => use (mput (stepReader a w))
      | Some Writer => use (mput (stepWriter a w))
      | None => mret tt
      end
  | Cancel => if idle then use (mput (cancel w)) else mret tt
  | Shutdown => if idle then use (mput (shutdown w)) else mret tt
  | ForceClose => if idle then use forceClose else mret tt
  end.

Fixpoint steps (es : list Event) : M World unit :=
  match es with
  | [] => mret tt
  | e :: es' => let* _ := step e in steps es'
  end.

(** A connection on a descriptor that was just accepted or connected. *)
Definition newConnection (id fd : Z) (k : Sock) (p : Poller Z) : outcome World :=
  let '(o, p) := newChannel id fd EdgeTriggered p in
  let! c := o in
  let '(o, n) := on_channel enableReading (mkNet (p, c) k) in
  let! _ := o in
  Ok (mkWorld n true Connected [] None None None None None [] (tx k) (rx k)).
