(* ===== verification/TcpInv.v ===== *)
(** The invariant of a TCP connection (Tcp.v): where its two coroutines can be,
    and that nothing the kernel has for a coroutine that is suspended goes
    unreported. *)

From Stdlib Require Import ZArith Lia String Strings.Byte.
From stdpp Require Import base numbers option list gmap.
From S2P Require Import Prelude IoTable Channel Tcp.
Open Scope Z_scope.
Import TcpState.

(** ** The invariant *)

(** A coroutine that is not suspended in its awaiter has no handle there, and
    its handle is in the ready queue exactly when it waits to be resumed. *)
Definition at_rest (me : Who) (waiter : option Who) (hs : list Who) (run : option Who) : Prop :=
  waiter = None /\ ~ (me ∈ hs) /\ run <> Some me.

Definition on_stack (me : Who) (waiter : option Who) (hs : list Who) (run : option Who) : Prop :=
  waiter = None /\ ~ (me ∈ hs) /\ run = Some me.

(** [wants]: what its awaiter tests; [canceled]: why it may run without. *)
Definition suspended (me : Who) (waiter : option Who) (hs : list Who) (run : option Who) (wants canceled : bool) : Prop :=
  run <> Some me
  /\ ((waiter = Some me /\ ~ (me ∈ hs) /\ wants = false) \/ (waiter = None /\ me ∈ hs /\ (wants || canceled) = true)).

Definition coroutine_ok (me : Who) (hint : WaitHint) (waiter : option Who) (hs : list Who) (run : option Who)
    (wants canceled : bool) (pc : option Pc) : Prop :=
  match pc with
  | None => at_rest me waiter hs run
  | Some (PTop h) => on_stack me waiter hs run /\ (h = hint \/ (h = WaitNone /\ wants = true))
  | Some (PSuspended h) => suspended me waiter hs run wants canceled /\ h = hint
  | Some (PResumed h) => on_stack me waiter hs run /\ h = hint /\ (wants || canceled) = true
  | Some PCall => on_stack me waiter hs run /\ wants = true
  | Some (PDone _) => False
  end.

(** ** The coroutines in the channel's state *)

Section coroutine.
Context (me : Who) (hint : WaitHint).

(** The other coroutine's handle in the ready queue is no matter. *)
Lemma coroutine_ok_other (waiter : option Who) (hs hs' : list Who) (run : option Who) (wants canceled : bool) (pc : option Pc) :
  (me ∈ hs <-> me ∈ hs') ->
  coroutine_ok me hint waiter hs run wants canceled pc -> coroutine_ok me hint waiter hs' run wants canceled pc.
Proof.
  intros Hhs. destruct pc as [[h | h | h | | o] |]; cbn; unfold on_stack, at_rest, suspended; rewrite <- ?Hhs; tauto.
Qed.

Lemma coroutine_ok_waiter (waiter : option Who) (hs : list Who) (run : option Who) (wants canceled : bool) (pc : option Pc) :
  coroutine_ok me hint waiter hs run wants canceled pc ->
  waiter = None \/ (waiter = Some me /\ ~ (me ∈ hs) /\ wants = false /\ run <> Some me /\ pc = Some (PSuspended hint)).
Proof. destruct pc as [[h | h | h | | o] |]; cbn; unfold on_stack, at_rest, suspended; naive_solver. Qed.

(** Who waits is woken: by what it wants, or by a cancellation. *)
Lemma coroutine_ok_woken (waiter : option Who) (hs : list Who) (run : option Who) (wants canceled wants' canceled' : bool) (pc : option Pc) :
  coroutine_ok me hint waiter hs run wants canceled pc -> (wants = true -> wants' = true) -> (canceled = true -> canceled' = true) ->
  (waiter = Some me -> wants' || canceled' = true) ->
  coroutine_ok me hint None (match waiter with Some h => hs ++ [h] | None => hs end) run wants' canceled' pc.
Proof.
  intros H Hw Hc Hwake. destruct (coroutine_ok_waiter _ _ _ _ _ _ H) as [-> | (-> & Hni & -> & Hrun & ->)].
  - destruct pc as [[h | h | h | | o] |]; cbn in *; unfold on_stack, at_rest, suspended in *;
      rewrite ?orb_true_iff in *; naive_solver.
  - cbn. split; [| done]. split; [done |]. right. rewrite elem_of_app, list_elem_of_singleton. auto.
Qed.

(** An event: who waits for it is taken, and waits in the ready queue. *)
Lemma coroutine_ok_event (ev : bool) (waiter : option Who) (hs hs' : list Who) (run : option Who) (wants canceled wants' : bool) (pc : option Pc) :
  coroutine_ok me hint waiter hs run wants canceled pc -> wants' = wants || ev ->
  (me ∈ hs' <-> me ∈ hs \/ (ev = true /\ waiter = Some me)) ->
  coroutine_ok me hint (if ev then None else waiter) hs' run wants' canceled pc.
Proof.
  intros H -> Hhs. destruct ev.
  - apply coroutine_ok_other with (match waiter with Some h => hs ++ [h] | None => hs end).
    + rewrite Hhs. destruct (coroutine_ok_waiter _ _ _ _ _ _ H) as [-> | (-> & _)]; [naive_solver |].
      rewrite elem_of_app, list_elem_of_singleton. naive_solver.
    + apply coroutine_ok_woken with wants canceled; try done; intros; by rewrite orb_true_r.
  - rewrite orb_false_r. apply coroutine_ok_other with hs; [| done]. rewrite Hhs. naive_solver.
Qed.
End coroutine.

(** The two coroutines as the channel's state and the ready queue have them. *)
Record io_ok (run : option Who) (rpc wpc : option Pc) (hs : list Who) (s : IoState) : Prop := {
  io_ready : NoDup hs;
  io_reader : coroutine_ok Reader WaitRead (readableWaiter s) hs run (readable s || errored s) (readCanceled s) rpc;
  io_writer : coroutine_ok Writer WaitWrite (writableWaiter s) hs run (writable s || errored s) (writeCanceled s) wpc
}.

(** No condition a coroutine could be waiting for goes unreported: it is known
    to the channel, or the kernel has something to report. *)
Record tcp_inv (fd id : Z) (w : World) : Prop := {
  i_alive : alive w = true;
  i_fd : ch_fd (chan (net w)) = fd;
  i_id : ch_id (chan (net w)) = id;
  i_mode : triggerMode_ (chan (net w)) = EdgeTriggered;
  i_events : events_ (chan (net w)) = 1 \/ events_ (chan (net w)) = 5;
  i_reg : registered fd id EdgeTriggered (events_ (chan (net w))) (fst (reg (net w)));
  i_in : readable (ch_state w) = false -> levelIn (sock (net w)) = true -> edge (sock (net w)) = true;
  i_out : writable (ch_state w) = false -> errored (ch_state w) = true
    \/ (events_ (chan (net w)) = 5 /\ (levelOut (sock (net w)) = true -> edge (sock (net w)) = true));
  i_io : io_ok (running w) (fst <$> reading w) (fst <$> writing w) (ready w) (ch_state w);
  i_buf : forall pc r, reading w = Some (pc, r) -> r_buf r = [];
  i_wrote : forall pc wr, writing w = Some (pc, wr) -> (wroteLen_ wr < length (w_buf wr))%nat \/ wroteLen_ wr = 0%nat;
  i_arrived : delivered w ++ rx (sock (net w)) = arrived w;
  i_sent : tx (sock (net w)) = accepted w ++ match writing w with Some (_, wr) => take (wroteLen_ wr) (w_buf wr) | None => [] end;
  i_done : forall wr n, lastWrite w = Some (wr, Ok n) -> n = 0%nat \/ (n = length (w_buf wr) /\ n <= wroteLen_ wr)%nat
}.

(** What an event does: the flags it sets, and who it schedules. *)
Lemma handleIoEvents_spec (ev : Z) (s s' : IoState) (hs : list Who) :
  handleIoEvents ev s = (s', hs) ->
  let e := has ev EPOLLERR in
  let i := has ev (Z.lor EPOLLIN (Z.lor EPOLLHUP EPOLLRDHUP)) in
  let o := has ev EPOLLOUT in
  readable s' = readable s || i /\ writable s' = writable s || o /\ errored s' = errored s || e
  /\ peerClosed s' = peerClosed s || has ev EPOLLRDHUP
  /\ readCanceled s' = readCanceled s /\ writeCanceled s' = writeCanceled s
  /\ readableWaiter s' = (if e || i then None else readableWaiter s)
  /\ writableWaiter s' = (if e || o then None else writableWaiter s)
  /\ hs ≡ₚ (if e || i then option_list (readableWaiter s) else []) ++ (if e || o then option_list (writableWaiter s) else []).
Proof.
  unfold handleIoEvents, wakeReader, wakeWriter, on_state. intros H. cbv zeta.
  destruct s as [rd wr er pc [r |] [w |] rc wc]; destruct (has ev EPOLLERR), (has ev EPOLLRDHUP),
    (has ev (Z.lor EPOLLIN (Z.lor EPOLLHUP EPOLLRDHUP))), (has ev EPOLLOUT); cbn in H; injection H as <- <-; cbn;
    rewrite ?orb_true_r, ?orb_false_r; repeat split; try done; apply Permutation_swap.
Qed.

Lemma in_event (me : Who) (hs0 hs : list Who) (x y : option Who) (ex ey : bool) (other : Who) :
  hs ≡ₚ (if ex then option_list x else []) ++ (if ey then option_list y else []) ->
  (y = None \/ y = Some other) -> me <> other ->
  (me ∈ hs0 ++ hs <-> me ∈ hs0 \/ (ex = true /\ x = Some me)).
Proof.
  intros -> Hy Hne. rewrite !elem_of_app.
  assert (Hz : ~ (me ∈ if ey then option_list y else [])).
  { destruct ey; [| set_solver]. destruct Hy as [-> | ->]; cbn; set_solver. }
  destruct ex; [destruct x |]; cbn; set_solver.
Qed.

Lemma io_ok_event (ev : Z) (rpc wpc : option Pc) (run : option Who) (hs hs' : list Who) (s s' : IoState) :
  io_ok run rpc wpc hs s -> handleIoEvents ev s = (s', hs') -> io_ok run rpc wpc (hs ++ hs') s'.
Proof.
  intros [A B C] H. apply handleIoEvents_spec in H as (E1 & E2 & E3 & _ & E5 & E6 & E7 & E8 & Hp).
  set (e := has ev EPOLLERR) in *. set (i := has ev (Z.lor EPOLLIN _)) in *. set (o := has ev EPOLLOUT) in *.
  pose proof (coroutine_ok_waiter _ _ _ _ _ _ _ _ B) as Hr. pose proof (coroutine_ok_waiter _ _ _ _ _ _ _ _ C) as Hw.
  assert (Hr' : readableWaiter s = None \/ readableWaiter s = Some Reader) by naive_solver.
  assert (Hw' : writableWaiter s = None \/ writableWaiter s = Some Writer) by naive_solver.
  split.
  - apply list.NoDup_app. split; [done |]. split; [| rewrite Hp].
    + intros x Hx Hx'. rewrite Hp in Hx'. apply elem_of_app in Hx' as [Hx' | Hx'].
      * destruct (e || i); [| set_solver]. destruct Hr as [Hr | (Hr & Hn & _)]; rewrite Hr in Hx'; cbn in Hx'; set_solver.
      * destruct (e || o); [| set_solver]. destruct Hw as [Hw | (Hw & Hn & _)]; rewrite Hw in Hx'; cbn in Hx'; set_solver.
    + destruct Hr' as [-> | ->], Hw' as [-> | ->], (e || i), (e || o); cbn; repeat constructor; set_solver.
  - rewrite E7, E5. apply coroutine_ok_event with hs (readable s || errored s); [done | |].
    + rewrite E1, E3. by destruct (readable s), (errored s), e, i.
    + by apply (in_event Reader hs hs' (readableWaiter s) (writableWaiter s) (e || i) (e || o) Writer).
  - rewrite E8, E6. apply coroutine_ok_event with hs (writable s || errored s); [done | |].
    + rewrite E2, E3. by destruct (writable s), (errored s), e, o.
    + rewrite Permutation_app_comm in Hp.
      by apply (in_event Writer hs hs' (writableWaiter s) (readableWaiter s) (e || o) (e || i) Reader).
Qed.

Lemma io_ok_cancel (run : option Who) (rpc wpc : option Pc) (hs hs' : list Who) (s s' : IoState) :
  io_ok run rpc wpc hs s -> cancelAll s = (s', hs') ->
  io_ok run rpc wpc (hs ++ hs') s' /\ readable s' = readable s /\ writable s' = writable s /\ errored s' = errored s.
Proof.
  intros [A B C]. pose proof (coroutine_ok_waiter _ _ _ _ _ _ _ _ B) as Hr. pose proof (coroutine_ok_waiter _ _ _ _ _ _ _ _ C) as Hw.
  destruct s as [rd wr er pc r w rc wc]. unfold cancelAll, cancelRead, cancelWrite. cbn in *.
  destruct Hr as [-> | (-> & Hrn & _ & Hrr & ->)], Hw as [-> | (-> & Hwn & _ & Hwr & ->)]; cbn; intros [= <- <-]; cbn;
    (split; [| done]); rewrite ?app_nil_r.
  - by split.
  - split; cbn; [apply list.NoDup_app; split; [done |]; split; [set_solver | apply NoDup_singleton] | |].
    + apply coroutine_ok_other with hs; [set_solver | done].
    + unfold suspended. rewrite orb_true_r. set_solver.
  - split; cbn; [apply list.NoDup_app; split; [done |]; split; [set_solver | apply NoDup_singleton] | |].
    + unfold suspended. rewrite orb_true_r. set_solver.
    + apply coroutine_ok_other with hs; [set_solver | done].
  - split; cbn; [apply list.NoDup_app; split; [done |]; split; [set_solver | repeat constructor; set_solver] | |];
      unfold suspended; rewrite orb_true_r; set_solver.
Qed.

(** ** What the kernel reports *)

Lemma bits_has (a b c d e : bool) :
  let x := bit a EPOLLIN + bit b EPOLLOUT + bit c EPOLLERR + bit d EPOLLHUP + bit e EPOLLRDHUP in
  has x EPOLLERR = c /\ has x EPOLLRDHUP = e /\ has x (Z.lor EPOLLIN (Z.lor EPOLLHUP EPOLLRDHUP)) = a || d || e
  /\ has x EPOLLOUT = b /\ (x =? 0) = negb (a || b || c || d || e).
Proof. destruct a, b, c, d, e; by vm_compute. Qed.

Section facts.
Context (n : Net) (fd id ev : Z) (Hfd : ch_fd (chan n) = fd) (Hreg : registered fd id EdgeTriggered ev (fst (reg n)))
  (Hev : ev = 1 \/ ev = 5).

Lemma mask_known : mask_ n = Some (interest ev EdgeTriggered).
Proof. unfold mask_. rewrite Hfd. destruct Hreg as (_ & _ & ->). by destruct Hev as [-> | ->]. Qed.

Lemma interested_known : interested n EPOLLIN = true /\ interested n EPOLLRDHUP = true /\ interested n EPOLLOUT = (ev =? 5).
Proof. unfold interested. rewrite mask_known. by destruct Hev as [-> | ->]. Qed.

Lemma conditions_known :
  has (conditions n) EPOLLERR = soerror (sock n) /\ has (conditions n) EPOLLRDHUP = fin (sock n)
  /\ has (conditions n) (Z.lor EPOLLIN (Z.lor EPOLLHUP EPOLLRDHUP)) = levelIn (sock n)
  /\ has (conditions n) EPOLLOUT = levelOut (sock n) && (ev =? 5)
  /\ (conditions n =? 0) = negb (levelIn (sock n) || (levelOut (sock n) && (ev =? 5))).
Proof.
  destruct interested_known as (E1 & E2 & E3). unfold conditions. rewrite E1, E2, E3.
  destruct (bits_has (levelIn (sock n) && true) (levelOut (sock n) && (ev =? 5)) (soerror (sock n)) (fin (sock n) && dead (sock n))
    (fin (sock n) && true)) as (-> & -> & -> & -> & ->).
  rewrite !andb_true_r. unfold levelIn.
  destruct (rx (sock n)), (fin (sock n)), (soerror (sock n)), (dead (sock n)), (levelOut (sock n) && (ev =? 5)); done.
Qed.
End facts.

(** ** The network's steps *)

Lemma signal_eq (was now : bool) (w : World) :
  signal was now w = set_net (set_sock (set_edge (edge (sock (net w)) || (negb was && now)) (sock (net w))) (net w)) w.
Proof.
  unfold signal. destruct (negb was && now); [by rewrite orb_true_r |]. rewrite orb_false_r.
  by destruct w as [[? []] ? ? ? ? ? ? ? ? ? ? ?].
Qed.

Section steps.
Context (fd id : Z).

(** The kernel's side changes: what begins to hold is reported. *)
Lemma tcp_inv_sock (w : World) (k : Sock) (ar : bytes) :
  tcp_inv fd id w ->
  (edge (sock (net w)) = true -> edge k = true) ->
  (levelIn k = true -> levelIn (sock (net w)) = true \/ edge k = true) ->
  (events_ (chan (net w)) = 5 -> levelOut k = true -> levelOut (sock (net w)) = true \/ edge k = true) ->
  delivered w ++ rx k = ar -> tx k = tx (sock (net w)) ->
  tcp_inv fd id (set_logs (delivered w) (accepted w) ar (set_net (set_sock k (net w)) w)).
Proof.
  intros [A1 A2 A3 A4 A5 A6 A7 A8 A9 A10 A11 A12 A13 A14] He Hi Ho Hrx Htx. split; cbn in *; try done.
  - intros Hr Hl. destruct (Hi Hl); [auto | done].
  - intros Hw. destruct (A8 Hw) as [? | [H5 Hl]]; [by left | right]. split; [done |]. intros H. destruct (Ho H5 H); auto.
  - by rewrite Htx.
Qed.

Lemma set_logs_net (d a ar : bytes) (n : Net) (w : World) : set_logs d a ar (set_net n w) = set_net n (set_logs d a ar w).
Proof. done. Qed.

Lemma tcp_inv_sock' (w : World) (k : Sock) :
  tcp_inv fd id w -> (edge (sock (net w)) = true -> edge k = true) ->
  (levelIn k = true -> levelIn (sock (net w)) = true \/ edge k = true) ->
  (events_ (chan (net w)) = 5 -> levelOut k = true -> levelOut (sock (net w)) = true \/ edge k = true) ->
  rx k = rx (sock (net w)) -> tx k = tx (sock (net w)) ->
  tcp_inv fd id (set_net (set_sock k (net w)) w).
Proof.
  intros I He Hi Ho Hrx Htx. replace (set_net (set_sock k (net w)) w)
    with (set_logs (delivered w) (accepted w) (arrived w) (set_net (set_sock k (net w)) w)) by (by destruct w).
  apply tcp_inv_sock; try done.
  rewrite Hrx. by apply i_arrived with fd id.
Qed.

Lemma tcp_inv_facts (w : World) : tcp_inv fd id w ->
  isRegistered w = true /\ interested (net w) EPOLLIN = true /\ interested (net w) EPOLLOUT = (events_ (chan (net w)) =? 5).
Proof.
  intros I. pose proof (i_fd _ _ _ I) as Hfd. pose proof (i_reg _ _ _ I) as Hreg. pose proof (i_events _ _ _ I) as Hev.
  destruct (interested_known (net w) fd id _ Hfd Hreg Hev) as (? & ? & ?). split; [| done].
  unfold isRegistered. rewrite (mask_known (net w) fd id _ Hfd Hreg Hev). done.
Qed.

Lemma tcp_inv_arrive (d : bytes) (w : World) : tcp_inv fd id w -> tcp_inv fd id (arrive d w).
Proof.
  intros I. unfold arrive. destruct (_ || _ || _); [done |]. destruct (tcp_inv_facts w I) as (_ & -> & _).
  rewrite signal_eq. cbn. rewrite <- set_logs_net. apply (tcp_inv_sock w); cbn; try done.
  - intros ->. done.
  - intros _. rewrite andb_true_r. destruct (levelIn (sock (net w))); [by left | right]. by rewrite orb_true_r.
  - by left.
  - rewrite (app_assoc (delivered w)). by rewrite (i_arrived _ _ _ I).
Qed.

Lemma tcp_inv_peerFin (w : World) : tcp_inv fd id w -> tcp_inv fd id (peerFin w).
Proof.
  intros I. unfold peerFin. destruct (tcp_inv_facts w I) as (-> & _ & _).
  rewrite signal_eq. cbn. apply (tcp_inv_sock' w); cbn; try done.
  - intros ->. done.
  - intros _. unfold levelIn. cbn. destruct (rx (sock (net w))), (fin (sock (net w))); cbn; rewrite ?orb_true_r; auto.
  - by left.
Qed.

Lemma tcp_inv_peerReset (w : World) : tcp_inv fd id w -> tcp_inv fd id (peerReset w).
Proof.
  intros I. unfold peerReset. destruct (tcp_inv_facts w I) as (-> & _ & _).
  rewrite signal_eq. cbn. apply (tcp_inv_sock' w); cbn; try done.
  - intros ->. done.
  - intros _. unfold levelIn. cbn. destruct (rx (sock (net w))), (fin (sock (net w))), (dead (sock (net w))); cbn; rewrite ?orb_true_r; auto.
  - intros _ _. unfold levelOut. cbn. destruct (fin (sock (net w))), (dead (sock (net w))), (0 <? room (sock (net w)))%nat; cbn;
      rewrite ?orb_true_r; auto.
Qed.

Lemma tcp_inv_drain (m : nat) (w : World) : tcp_inv fd id w -> tcp_inv fd id (drain m w).
Proof.
  intros I. unfold drain. destruct (tcp_inv_facts w I) as (_ & _ & ->).
  rewrite signal_eq. cbn. apply (tcp_inv_sock' w); cbn; try done.
  - intros ->. done.
  - by left.
  - intros -> Hl. destruct (levelOut (sock (net w))) eqn:Ho; [by left | right]. cbn. rewrite andb_true_r.
    unfold levelOut in *. cbn in *. apply orb_false_iff in Ho as [Ho H1]. apply orb_false_iff in Ho as [Ho H2].
    rewrite H1, H2, !orb_false_r in Hl. destruct (room (sock (net w))); [| done]. cbn [Nat.add] in Hl.
    destruct m; [done |]. by rewrite orb_true_r.
Qed.

Lemma tcp_inv_tcp (s : State) (w : World) : tcp_inv fd id w -> tcp_inv fd id (set_tcp s w).
Proof. intros [A1 A2 A3 A4 A5 A6 A7 A8 A9 A10 A11 A12 A13 A14]. by split. Qed.

Lemma tcp_inv_sysShutdown (w : World) : tcp_inv fd id w -> tcp_inv fd id (sysShutdown w).
Proof.
  intros I. unfold sysShutdown. destruct (tcp_inv_facts w I) as (_ & _ & ->).
  rewrite signal_eq. cbn. apply (tcp_inv_sock' w); cbn; try done.
  - intros ->. done.
  - by left.
  - intros -> _. destruct (levelOut (sock (net w))) eqn:Ho; [by left | right]. cbn. by rewrite orb_true_r.
Qed.

Lemma tcp_inv_shutdown (w : World) : tcp_inv fd id w -> tcp_inv fd id (shutdown w).
Proof. intros I. unfold shutdown. destruct (tcp w); try done; by apply tcp_inv_sysShutdown, tcp_inv_tcp. Qed.

(** ** The steps of the loop's thread *)

Definition can_read (w : World) : bool := levelIn (sock (net w)).
Definition can_write (w : World) : bool := levelOut (sock (net w)).

(** An event reaches the channel, and wakes who can go on. *)
Lemma tcp_inv_poll (w : World) (Hpos : 0 <= fd) :
  tcp_inv fd id w ->
  exists w', poll w = (Ok tt, w') /\ tcp_inv fd id w'
  /\ (readableWaiter (ch_state w) = Some Reader -> can_read w = true -> Reader ∈ ready w')
  /\ (writableWaiter (ch_state w) = Some Writer -> can_write w = true -> Writer ∈ ready w')
  /\ (net w').(sock) = (if pollable w then set_edge false (sock (net w)) else sock (net w)).
Proof.
  intros I. pose proof (i_fd _ _ _ I) as Hfd. pose proof (i_reg _ _ _ I) as Hreg. pose proof (i_events _ _ _ I) as Hev.
  destruct (conditions_known (net w) fd id _ Hfd Hreg Hev) as (B1 & B2 & B3 & B4 & B5).
  destruct (tcp_inv_facts w I) as (Hr & _ & _). pose proof (i_io _ _ _ I) as Hio.
  assert (Hin : readableWaiter (ch_state w) = Some Reader -> readable (ch_state w) = false).
  { intros Hw. destruct (coroutine_ok_waiter _ _ _ _ _ _ _ _ (io_reader _ _ _ _ _ Hio)) as [? | (_ & _ & H & _)]; [congruence |].
    by apply orb_false_iff in H as [H _]. }
  assert (Hout : writableWaiter (ch_state w) = Some Writer -> can_write w = true ->
    edge (sock (net w)) = true /\ events_ (chan (net w)) = 5).
  { intros Hw Hl. destruct (coroutine_ok_waiter _ _ _ _ _ _ _ _ (io_writer _ _ _ _ _ Hio)) as [? | (_ & _ & H & _)]; [congruence |].
    apply orb_false_iff in H as [H1 H2]. destruct (i_out _ _ _ I H1) as [? | [? H]]; [congruence | auto]. }
  unfold poll, pollable. rewrite Hr, B5, negb_involutive, andb_true_r.
  destruct (edge (sock (net w)) && _) eqn:Hp.
  - cbn [process_io_events]. destruct Hreg as (Ho & Hc & He). unfold mbind at 1 2, mget. cbn [net set_net set_sock reg].
    rewrite Hfd. destruct (Z.eqb_spec fd (-1)); [lia |].
    change (net (set_net (set_sock (set_edge false (sock (net w))) (net w)) w)) with (set_sock (set_edge false (sock (net w))) (net w)).
    change (reg (set_sock (set_edge false (sock (net w))) (net w))) with (reg (net w)). rewrite Hc. cbn [handler].
    unfold callHandler. cbn [alive set_net]. rewrite (i_alive _ _ _ I).
    change (ch_state (set_net (set_sock (set_edge false (sock (net w))) (net w)) w)) with (ch_state w).
    destruct (handleIoEvents (conditions (net w)) (ch_state w)) as [s' hs] eqn:Hh.
    pose proof (io_ok_event _ _ _ _ _ _ _ _ Hio Hh) as Hio'.
    pose proof (handleIoEvents_spec _ _ _ _ Hh) as (E1 & E2 & E3 & _ & _ & _ & _ & _ & Hperm).
    rewrite B1, B3 in *. rewrite B4 in *. eexists. split; [done |].
    set (w1 := set_run _ _ _). assert (I1 : tcp_inv fd id w1).
    { destruct I as [A1 A2 A3 A4 A5 A6 A7 A8 A9 A10 A11 A12 A13 A14]. split; cbn in *; try done.
      - rewrite E1. intros H Hl. apply orb_false_iff in H as [_ H]. unfold levelIn in *. cbn in *. congruence.
      - rewrite E2, E3. intros H. apply orb_false_iff in H as [H1 H2]. destruct (A8 H1) as [A8' | [H5 _]]; [left; by rewrite A8' | right].
        split; [done |]. rewrite H5 in H2. cbn in H2. rewrite andb_true_r in H2. intros Hl. unfold levelOut in *. cbn in *. congruence. }
    split; [destruct (has (conditions (net w)) EPOLLRDHUP); [by apply tcp_inv_tcp | done] |].
    assert (Hsame : forall st, ready (if has (conditions (net w)) EPOLLRDHUP then set_tcp st w1 else w1) = ready w ++ hs)
      by (intros; by destruct (has (conditions (net w)) EPOLLRDHUP)).
    assert (Hsock : forall st, sock (net (if has (conditions (net w)) EPOLLRDHUP then set_tcp st w1 else w1)) = set_edge false (sock (net w)))
      by (intros; by destruct (has (conditions (net w)) EPOLLRDHUP)).
    rewrite Hsame, Hsock. split; [| split; [| done]].
    + intros Hw Hl. unfold can_read in Hl. rewrite Hl, Hw, orb_true_r in Hperm. rewrite Hperm. set_solver.
    + intros Hw Hl. destruct (Hout Hw Hl) as [_ H5]. unfold can_write in Hl. rewrite Hl, Hw, H5, orb_true_r in Hperm.
      rewrite Hperm. set_solver.
  - exists w. split; [done |]. split; [done |]. split; [| split; [| done]].
    + intros Hw Hl. unfold can_read in Hl. rewrite (i_in _ _ _ I (Hin Hw) Hl), Hl in Hp. done.
    + intros Hw Hl. destruct (Hout Hw Hl) as [He H5]. unfold can_write in Hl. rewrite He, H5, Hl in Hp.
      by rewrite orb_true_r in Hp.
Qed.

(** ** The coroutines in [performImpl] *)

Lemma coroutine_ok_run (me : Who) (hint : WaitHint) (waiter : option Who) (hs : list Who) (run run' : option Who)
    (wants canceled : bool) (pc : option Pc) :
  (run = Some me <-> run' = Some me) ->
  coroutine_ok me hint waiter hs run wants canceled pc -> coroutine_ok me hint waiter hs run' wants canceled pc.
Proof. intros Hr. destruct pc as [[h | h | h | | o] |]; cbn; unfold on_stack, at_rest, suspended; rewrite <- ?Hr; tauto. Qed.

(** The other one suspends or returns. *)
Lemma coroutine_ok_left (me other : Who) (hint : WaitHint) (waiter : option Who) (hs : list Who)
    (wants canceled : bool) (pc : option Pc) :
  me <> other ->
  coroutine_ok me hint waiter hs (Some other) wants canceled pc -> coroutine_ok me hint waiter hs None wants canceled pc.
Proof. intros Hne. apply coroutine_ok_run. split; congruence. Qed.

(** Where a coroutine is when it has gone to a point, and whether it still runs. *)
Definition pc_after (pc : Pc) : option Pc := match pc with PDone _ => None | _ => Some pc end.
Definition run_after (me : Who) (pc : Pc) : option Who := match pc with PDone _ | PSuspended _ => None | _ => Some me end.

Definition flags_same (s s' : IoState) : Prop :=
  readable s' = readable s /\ writable s' = writable s /\ errored s' = errored s.

Lemma io_ok_start (rpc wpc : option Pc) (hs : list Who) (s : IoState) :
  io_ok None rpc wpc hs s ->
  (rpc = None -> io_ok (Some Reader) (Some (PTop WaitRead)) wpc hs s)
  /\ (wpc = None -> io_ok (Some Writer) rpc (Some (PTop WaitWrite)) hs s).
Proof.
  intros [A B C]. split; intros ->.
  - split; [done | |]; [cbn in *; unfold at_rest, on_stack in *; naive_solver | by apply coroutine_ok_run with None].
  - split; [done | |]; [by apply coroutine_ok_run with None | cbn in *; unfold at_rest, on_stack in *; naive_solver].
Qed.

Lemma io_ok_resume (h : Who) (rpc wpc : option Pc) (hs : list Who) (s : IoState) :
  io_ok None rpc wpc (h :: hs) s ->
  match h with
  | Reader => io_ok (Some Reader) (resumed <$> rpc) wpc hs s
  | Writer => io_ok (Some Writer) rpc (resumed <$> wpc) hs s
  end.
Proof.
  intros [A B C]. apply list.NoDup_cons in A as [Hni A].
  destruct h; split; try done.
  - destruct rpc as [[x | x | x | | o] |]; cbn in *; unfold at_rest, on_stack, suspended in *; set_solver.
  - apply coroutine_ok_run with None; [done |]. apply coroutine_ok_other with (Reader :: hs); [set_solver | done].
  - apply coroutine_ok_run with None; [done |]. apply coroutine_ok_other with (Writer :: hs); [set_solver | done].
  - destruct wpc as [[x | x | x | | o] |]; cbn in *; unfold at_rest, on_stack, suspended in *; set_solver.
Qed.

(** From the top of the loop to the adapter's call or into the awaiter. *)
Lemma io_ok_wait_reader (h : WaitHint) (wpc : option Pc) (hs : list Who) (s s' : IoState) (pc : Pc) :
  io_ok (Some Reader) (Some (PTop h)) wpc hs s -> performWait Reader h s = (pc, s') ->
  io_ok (run_after Reader pc) (pc_after pc) wpc hs s' /\ flags_same s s' /\ (forall o, pc <> PDone o).
Proof.
  intros [A [(B1 & B2 & B3) Hh] C]. assert (C' := coroutine_ok_left Writer Reader _ _ _ _ _ _ ltac:(done) C).
  destruct Hh as [-> | [-> Hw]]; cbn.
  - destruct (readable s) eqn:Hr; [intros [= <- <-] | destruct (errored s) eqn:He; intros [= <- <-]]; cbn;
      (split; [split; cbn; rewrite ?Hr, ?He; try done; cbn; unfold suspended, on_stack; naive_solver | done]).
  - intros [= <- <-]. split; [split; try done; cbn; unfold on_stack; naive_solver | done].
Qed.

Lemma io_ok_wait_writer (h : WaitHint) (rpc : option Pc) (hs : list Who) (s s' : IoState) (pc : Pc) :
  io_ok (Some Writer) rpc (Some (PTop h)) hs s -> performWait Writer h s = (pc, s') ->
  io_ok (run_after Writer pc) rpc (pc_after pc) hs s' /\ flags_same s s' /\ (forall o, pc <> PDone o).
Proof.
  intros [A C [(B1 & B2 & B3) Hh]]. assert (C' := coroutine_ok_left Reader Writer _ _ _ _ _ _ ltac:(done) C).
  destruct Hh as [-> | [-> Hw]]; cbn.
  - destruct (writable s) eqn:Hr; [intros [= <- <-] | destruct (errored s) eqn:He; intros [= <- <-]]; cbn;
      (split; [split; cbn; rewrite ?Hr, ?He; try done; cbn; unfold suspended, on_stack; naive_solver | done]).
  - intros [= <- <-]. split; [split; try done; cbn; unfold on_stack; naive_solver | done].
Qed.

(** Behind the awaiter: cancelled, or on to the call. *)
Lemma io_ok_resume_reader (h : WaitHint) (wpc : option Pc) (hs : list Who) (s s' : IoState) (pc : Pc) :
  io_ok (Some Reader) (Some (PResumed h)) wpc hs s -> performResume h s = (pc, s') ->
  io_ok (run_after Reader pc) (pc_after pc) wpc hs s' /\ flags_same s s' /\ (pc = PCall \/ pc = PDone (Ok RCanceled)).
Proof.
  intros [A [(B1 & B2 & B3) [-> Hw]] C]. assert (C' := coroutine_ok_left Writer Reader _ _ _ _ _ _ ltac:(done) C). cbn.
  destruct (readCanceled s) eqn:Hc; intros [= <- <-]; cbn; (split; [split; cbn; try done; unfold at_rest, on_stack | split; [done | auto]]).
  rewrite orb_false_r in Hw. done.
Qed.

Lemma io_ok_resume_writer (h : WaitHint) (rpc : option Pc) (hs : list Who) (s s' : IoState) (pc : Pc) :
  io_ok (Some Writer) rpc (Some (PResumed h)) hs s -> performResume h s = (pc, s') ->
  io_ok (run_after Writer pc) rpc (pc_after pc) hs s' /\ flags_same s s' /\ (pc = PCall \/ pc = PDone (Ok RCanceled)).
Proof.
  intros [A C [(B1 & B2 & B3) [-> Hw]]]. assert (C' := coroutine_ok_left Reader Writer _ _ _ _ _ _ ltac:(done) C). cbn.
  destruct (writeCanceled s) eqn:Hc; intros [= <- <-]; cbn; (split; [split; cbn; try done; unfold at_rest, on_stack | split; [done | auto]]).
  rewrite orb_false_r in Hw. done.
Qed.

(** Behind the call. *)
Lemma io_ok_status_reader (status : IoStatus) (wpc : option Pc) (hs : list Who) (s s' : IoState) (pc : Pc) :
  io_ok (Some Reader) (Some PCall) wpc hs s -> status <> NeedWrite -> performStatus status s = (pc, s') ->
  io_ok (run_after Reader pc) (pc_after pc) wpc hs s'.
Proof.
  intros [A [(B1 & B2 & B3) Hw] C] Hn. assert (C' := coroutine_ok_left Writer Reader _ _ _ _ _ _ ltac:(done) C).
  destruct status; cbn; intros [= <- <-]; (split; cbn; try done; unfold at_rest, on_stack; naive_solver).
Qed.

Lemma io_ok_status_writer (status : IoStatus) (rpc : option Pc) (hs : list Who) (s s' : IoState) (pc : Pc) :
  io_ok (Some Writer) rpc (Some PCall) hs s -> status <> NeedRead -> performStatus status s = (pc, s') ->
  io_ok (run_after Writer pc) rpc (pc_after pc) hs s'.
Proof.
  intros [A C [(B1 & B2 & B3) Hw]] Hn. assert (C' := coroutine_ok_left Reader Writer _ _ _ _ _ _ ltac:(done) C).
  destruct status; cbn; intros [= <- <-]; (split; cbn; try done; unfold at_rest, on_stack; naive_solver).
Qed.

(** ** The adapters *)

Lemma levelIn_app (k : Sock) (d : bytes) (b : byte) : rx k = b :: d -> levelIn k = true.
Proof. unfold levelIn. by intros ->. Qed.

Lemma sysRead_spec (len : nat) (a : SysAnswer) (k k' : Sock) (ret : bytes + Errno) :
  (0 < len)%nat -> sysRead len a k = (ret, k') ->
  edge k' = edge k /\ tx k' = tx k /\ room k' = room k /\ dead k' = dead k
  /\ (levelIn k' = true -> levelIn k = true) /\ (levelOut k' = true -> levelOut k = true)
  /\ match ret with
     | inl d => rx k = d ++ rx k' /\ (length d <= len)%nat /\ (d = [] -> rx k = [] /\ fin k = true /\ soerror k = false)
     | inr e => rx k' = rx k /\ (e = EAGAIN -> levelIn k' = false) /\ (e = ECONNRESET -> rx k = [] /\ soerror k = true)
                /\ (e = EINTR <-> a = Interrupted)
     end.
Proof.
  intros Hlen. unfold sysRead, levelIn, levelOut. destruct k as [rx fin so room tx dead edge]. cbn.
  destruct a as [| m]; [intros [= <- <-]; naive_solver |].
  destruct rx as [| b rx].
  - destruct so; [intros [= <- <-]; cbn; split_and!; try done; destruct fin, dead, room; cbn; try done; naive_solver |].
    destruct fin; intros [= <- <-]; cbn; split_and!; try done; lia || naive_solver.
  - intros [= <- <-]. destruct len as [| len]; [lia |]. cbn. split_and!; try done.
    + by rewrite take_drop.
    + rewrite length_take. lia.
Qed.

Lemma sysWrite_spec (d : bytes) (a : SysAnswer) (k k' : Sock) (ret : nat + Errno) :
  d <> [] -> sysWrite d a k = (ret, k') ->
  edge k' = edge k /\ rx k' = rx k /\ fin k' = fin k
  /\ (levelIn k' = true -> levelIn k = true) /\ (levelOut k' = true -> levelOut k = true)
  /\ match ret with
     | inl n => tx k' = tx k ++ take n d /\ (0 < n <= length d)%nat
     | inr e => tx k' = tx k /\ (e = EAGAIN -> levelOut k' = false) /\ (e = EINTR <-> a = Interrupted)
                /\ (e = EPIPE \/ e = ECONNRESET -> dead k = true \/ soerror k = true)
     end.
Proof.
  intros Hd. unfold sysWrite, levelIn, levelOut. destruct k as [rx fin so room tx dead edge]. cbn.
  destruct a as [| m]; [intros [= <- <-]; naive_solver |].
  destruct so; [intros [= <- <-]; cbn; split_and!; try done; destruct rx, fin, dead, room; cbn; try done; naive_solver |].
  destruct dead; [intros [= <- <-]; naive_solver |].
  destruct room as [| room]; intros [= <- <-]; cbn; split_and!; try done; try naive_solver.
  - destruct d; [done |]. cbn. lia.
  - lia.
Qed.

(** The part of the invariant that does not concern the coroutines. *)
Record net_ok (n : Net) : Prop := {
  n_fd : ch_fd (chan n) = fd;
  n_id : ch_id (chan n) = id;
  n_mode : triggerMode_ (chan n) = EdgeTriggered;
  n_events : events_ (chan n) = 1 \/ events_ (chan n) = 5;
  n_reg : registered fd id EdgeTriggered (events_ (chan n)) (fst (reg n));
  n_in : readable (state_ (chan n)) = false -> levelIn (sock n) = true -> edge (sock n) = true;
  n_out : writable (state_ (chan n)) = false -> errored (state_ (chan n)) = true
    \/ (events_ (chan n) = 5 /\ (levelOut (sock n) = true -> edge (sock n) = true))
}.

Lemma net_ok_inv (w : World) : tcp_inv fd id w -> net_ok (net w).
Proof. by intros [A1 A2 A3 A4 A5 A6 A7 A8 A9 A10 A11 A12 A13 A14]. Qed.

(** The channel's flags stay, or one is cleared for a condition that does not
    hold. *)
Lemma net_ok_state (n : Net) (s : IoState) :
  net_ok n -> errored s = errored (state_ (chan n)) ->
  (readable s = readable (state_ (chan n)) \/ levelIn (sock n) = false) ->
  (writable s = writable (state_ (chan n)) \/ (events_ (chan n) = 5 /\ levelOut (sock n) = false)) ->
  net_ok (set_chan (set_state s (chan n)) n).
Proof.
  intros [A1 A2 A3 A4 A5 A6 A7] He Hr Hw. split; cbn; try done.
  - intros H Hl. destruct Hr as [Hr | Hr]; [apply A6; congruence | congruence].
  - intros H. rewrite He. destruct Hw as [Hw | [? Hw]]; [apply A7; congruence | right; split; [done | congruence]].
Qed.

Lemma net_ok_sock (n : Net) (k : Sock) :
  net_ok n -> edge k = edge (sock n) -> (levelIn k = true -> levelIn (sock n) = true) ->
  (levelOut k = true -> levelOut (sock n) = true) -> net_ok (set_sock k n).
Proof.
  intros [A1 A2 A3 A4 A5 A6 A7] He Hi Ho. split; cbn; try done.
  - intros H Hl. rewrite He. auto.
  - intros H. rewrite He. destruct (A7 H) as [? | [? ?]]; auto.
Qed.

(** [enableWriting] and [disableWriting]: nothing but the events changes, and
    something more may be reported. *)
Lemma on_channel_ok (on : bool) (n : Net) :
  net_ok n -> (on = false -> writable (state_ (chan n)) || errored (state_ (chan n)) = true) ->
  exists n', on_channel (if on then enableWriting else disableWriting) n = (Ok tt, n') /\ net_ok n'
    /\ state_ (chan n') = state_ (chan n) /\ events_ (chan n') = (if on then 5 else 1)
    /\ exists b, sock n' = set_edge b (sock n).
Proof.
  intros N Hoff. pose proof N as [A1 A2 A3 A4 A5 A6 A7]. destruct n as [[p c] k]. cbn in *.
  assert (Hsame : exists b, k = set_edge b k) by (exists (edge k); by destruct k).
  unfold on_channel, enableWriting, disableWriting, enable, disable, mbind, mget, mret.
  destruct on, A4 as [E | E]; cbn [reg snd sock]; rewrite E in *; cbn [has Z.land negb Z.eqb EPOLLOUT Pos.land].
  - destruct (updateIo_current fd id EdgeTriggered 1 5 p A5) as (p' & Hu & Hr & _).
    change (negb (has 1 EPOLLOUT)) with true. cbv iota. unfold changeEvents. rewrite A1, A2, A3.
    change (Z.lor 1 EPOLLOUT) with 5. rewrite Hu. cbn. rewrite E. cbn. eexists. split; [done |].
    split; [| split; [done | split; [done | eauto]]].
    split; cbn; auto.
    + intros H Hl. by rewrite (A6 H Hl).
    + intros H. destruct (A7 H) as [? | [? ?]]; [by left | done].
  - exists (mkNet (p, c) k). split; [change (negb (has 5 EPOLLOUT)) with false; cbn; by rewrite Z.eqb_refl |]. split; [done |]. split; [done | split; [done | done]].
  - exists (mkNet (p, c) k). split; [change (has 1 EPOLLOUT) with false; cbn; by rewrite Z.eqb_refl |]. split; [done |]. split; [done | split; [done | done]].
  - destruct (updateIo_current fd id EdgeTriggered 5 1 p A5) as (p' & Hu & Hr & _).
    change (has 5 EPOLLOUT) with true. cbv iota. unfold changeEvents. rewrite A1, A2, A3.
    change (Z.ldiff 5 EPOLLOUT) with 1. rewrite Hu. cbn. rewrite E. cbn. eexists. split; [done |].
    split; [| split; [done | split; [done | eauto]]].
    split; cbn; auto.
    + intros H Hl. by rewrite (A6 H Hl).
    + intros H. left. specialize (Hoff eq_refl). rewrite H in Hoff. done.
Qed.

(** ** The steps of the coroutines *)

(** What the reader's buffer adds to what was delivered when it returns. *)
Definition returned (pc : Pc) (r : BufferReader) : bytes := match pc with PDone (Ok RSuccess) => r_buf r | _ => [] end.

Lemma tcp_inv_readerAt (w : World) (n : Net) (pc : Pc) (r : BufferReader) :
  tcp_inv fd id w -> running w = Some Reader -> net_ok n ->
  io_ok (run_after Reader pc) (pc_after pc) (fst <$> writing w) (ready w) (state_ (chan n)) ->
  tx (sock n) = tx (sock (net w)) -> delivered w ++ returned pc r ++ rx (sock n) = arrived w ->
  ((forall o, pc <> PDone o) -> r_buf r = []) ->
  tcp_inv fd id (readerAt pc r (set_net n w)).
Proof.
  intros I Hrun [N1 N2 N3 N4 N5 N6 N7] Hio Htx Hlog Hbuf.
  pose proof I as [A1 A2 A3 A4 A5 A6 A7 A8 A9 A10 A11 A12 A13 A14].
  assert (Hlog' : (forall o, pc <> PDone o) -> delivered w ++ rx (sock n) = arrived w).
  { intros Hp. rewrite <- Hlog. unfold returned. destruct pc as [| | | | o]; try done. by destruct (Hp o). }
  destruct pc as [h | h | h | | o]; cbn [readerAt].
  1-4: specialize (Hbuf ltac:(done)); specialize (Hlog' ltac:(done)).
  1-4: split; cbn in *; try done; rewrite ?Hrun, ?Htx; try done; intros ? ? [= <- <-]; done.
  unfold finishRead. destruct (readResult o r (tcp (set_net n w))) as [res st] eqn:Hres.
  assert (Hdata : match res with Ok d => d | _ => [] end = returned (PDone o) r).
  { destruct o as [[] | ? | |]; cbn in Hres; injection Hres as <- _; done. }
  rewrite Hdata. split; cbn in *; try done; rewrite ?Htx; try done. by rewrite <- Hlog, <- app_assoc.
Qed.

Lemma tcp_inv_writerAt (w : World) (n : Net) (pc : Pc) (wr : BufferWriter) :
  tcp_inv fd id w -> running w = Some Writer -> net_ok n ->
  io_ok (run_after Writer pc) (fst <$> reading w) (pc_after pc) (ready w) (state_ (chan n)) ->
  rx (sock n) = rx (sock (net w)) -> tx (sock n) = accepted w ++ take (wroteLen_ wr) (w_buf wr) ->
  ((forall o, pc <> PDone o) -> (wroteLen_ wr < length (w_buf wr))%nat \/ wroteLen_ wr = 0%nat) ->
  (pc = PDone (Ok RSuccess) -> (length (w_buf wr) <= wroteLen_ wr)%nat) ->
  tcp_inv fd id (writerAt pc wr (set_net n w)).
Proof.
  intros I Hrun [N1 N2 N3 N4 N5 N6 N7] Hio Hrx Htx Hwr Hdone.
  pose proof I as [A1 A2 A3 A4 A5 A6 A7 A8 A9 A10 A11 A12 A13 A14].
  destruct pc as [h | h | h | | o]; cbn [writerAt].
  1-4: specialize (Hwr ltac:(done)).
  1-4: split; cbn in *; try done; rewrite ?Hrun, ?Hrx; try done; intros ? ? [= <- <-]; done.
  unfold finishWrite. destruct (writeResult o wr (tcp (set_net n w))) as [res st] eqn:Hres.
  split; cbn in *; try done; rewrite ?Hrx, ?Htx; try done; [by rewrite app_nil_r |].
  intros ? ? [= <- E]. destruct o as [[] | ? | |]; cbn in Hres; injection Hres as <- _; simplify_eq; [right; auto | by left].
Qed.

Lemma flags_same_ok (n : Net) (s : IoState) : net_ok n -> flags_same (state_ (chan n)) s -> net_ok (set_chan (set_state s (chan n)) n).
Proof. intros N (E1 & E2 & E3). apply net_ok_state; auto. Qed.

Ltac status_ok lem Hio :=
  let go st := exact (lem st _ _ _ _ _ Hio ltac:(done) eq_refl) in
  first [go Success | go Eof | go Error | go Retry | go NeedRead | go NeedWrite].

Lemma tcp_inv_stepReader (a : SysAnswer) (w : World) :
  tcp_inv fd id w -> running w = Some Reader -> tcp_inv fd id (stepReader a w).
Proof.
  intros I Hrun. pose proof (net_ok_inv w I) as N. pose proof (i_io _ _ _ I) as Hio. pose proof (i_arrived _ _ _ I) as Hlog.
  rewrite Hrun in Hio. unfold stepReader. destruct (reading w) as [[pc r] |] eqn:Hre; [| done]. cbn in Hio.
  pose proof (i_buf _ _ _ I pc r Hre) as Hbuf.
  destruct pc as [h | h | h | | o]; try done.
  - destruct (performWait Reader h (ch_state w)) as [pc s] eqn:Hw.
    destruct (io_ok_wait_reader _ _ _ _ _ _ Hio Hw) as (Hio' & Hf & Hpc). apply tcp_inv_readerAt; try done.
    + by apply flags_same_ok.
    + unfold returned. destruct pc as [| | | | o]; try done. by destruct (Hpc o).
  - destruct (performResume h (ch_state w)) as [pc s] eqn:Hw.
    destruct (io_ok_resume_reader _ _ _ _ _ _ Hio Hw) as (Hio' & Hf & Hpc). apply tcp_inv_readerAt; try done.
    + by apply flags_same_ok.
    + by destruct Hpc as [-> | ->].
  - unfold performCall, bufferReader. destruct (Nat.eqb_spec (r_len r) 0) as [Hz | Hz].
    + cbn -[readerAt]. apply (tcp_inv_readerAt w _ (PDone (Ok RSuccess))); try done.
      * by apply flags_same_ok.
      * eapply (io_ok_status_reader Success); [exact Hio | done | done].
      * cbn. by rewrite Hbuf.
    + destruct (sysRead (r_len r) a (sock (net w))) as [ret k] eqn:Hs.
      destruct (sysRead_spec (r_len r) a _ _ _ ltac:(lia) Hs) as (E1 & E2 & _ & _ & E3 & E4 & E5).
      pose proof (net_ok_sock _ k N E1 E3 E4) as N'.
      destruct ret as [[| b d] | []]; cbn -[readerAt]; destruct E5 as [E5 E6]; apply tcp_inv_readerAt;
        try done; try (by apply flags_same_ok); try status_ok io_ok_status_reader Hio; cbn in *; try (by rewrite <- Hlog, E5).
      * intros H. by destruct (H (Ok RSuccess)).
      * apply net_ok_state; cbn; auto. right. by apply E6.
Qed.

Lemma tcp_inv_stepWriter (a : SysAnswer) (w : World) :
  tcp_inv fd id w -> running w = Some Writer -> tcp_inv fd id (stepWriter a w).
Proof.
  intros I Hrun. pose proof (net_ok_inv w I) as N. pose proof (i_io _ _ _ I) as Hio. pose proof (i_sent _ _ _ I) as Hlog.
  rewrite Hrun in Hio. unfold stepWriter. destruct (writing w) as [[pc wr] |] eqn:Hwr; [| done]. cbn in Hio.
  pose proof (i_wrote _ _ _ I pc wr Hwr) as Hlt.
  destruct pc as [h | h | h | | o]; try done.
  - destruct (performWait Writer h (ch_state w)) as [pc s] eqn:Hw.
    destruct (io_ok_wait_writer _ _ _ _ _ _ Hio Hw) as (Hio' & Hf & Hpc). apply tcp_inv_writerAt; try done; [by apply flags_same_ok |].
    intros ->. by destruct (Hpc (Ok RSuccess)).
  - destruct (performResume h (ch_state w)) as [pc s] eqn:Hw.
    destruct (io_ok_resume_writer _ _ _ _ _ _ Hio Hw) as (Hio' & Hf & Hpc). apply tcp_inv_writerAt; try done; [by apply flags_same_ok |].
    intros ->. by destruct Hpc.
  - pose proof (io_writer _ _ _ _ _ Hio) as [_ Hwant].
    unfold performCall, bufferWriter. destruct (Nat.eqb_spec (length (w_buf wr)) 0) as [Hz | Hz].
    + cbn -[writerAt]. apply tcp_inv_writerAt; try done; [by apply flags_same_ok | status_ok io_ok_status_writer Hio | lia].
    + destruct (sysWrite (drop (wroteLen_ wr) (w_buf wr)) a (sock (net w))) as [ret k] eqn:Hs.
      assert (Hd : drop (wroteLen_ wr) (w_buf wr) <> []).
      { intros H. apply (f_equal length) in H. rewrite length_drop in H. cbn in H. lia. }
      destruct (sysWrite_spec _ a _ _ _ Hd Hs) as (E1 & E2 & _ & E3 & E4 & E5).
      pose proof (net_ok_sock _ k N E1 E3 E4) as N'. unfold mbind at 1. rewrite Hs.
      destruct ret as [m | []]; destruct E5 as [E5 E6].
      * assert (Htx : tx k = accepted w ++ take (wroteLen_ wr + m) (w_buf wr)).
        { by rewrite E5, Hlog, <- app_assoc, take_take_drop. }
        rewrite length_drop in E6. cbn [wroteLen_ w_buf].
        destruct (Nat.leb_spec (length (w_buf wr)) (wroteLen_ wr + m)).
        -- destruct (on_channel_ok false _ N' ltac:(done)) as (n' & Hc & N'' & Es & _ & b & Ek).
           unfold mbind. cbv iota in Hc. rewrite Hc. cbn -[writerAt]. apply tcp_inv_writerAt; try done.
           ++ by apply flags_same_ok.
           ++ cbn. rewrite Es. status_ok io_ok_status_writer Hio.
           ++ cbn. by rewrite Ek.
           ++ cbn. by rewrite Ek.
           ++ intros H0. by destruct (H0 (Ok RSuccess)).
        -- cbn -[writerAt]. apply tcp_inv_writerAt; try done; [by apply flags_same_ok | status_ok io_ok_status_writer Hio |].
           cbn. intros _. left. lia.
      * destruct (on_channel_ok true _ N' ltac:(done)) as (n' & Hc & N'' & Es & Ev & b & Ek).
        unfold mbind. cbv iota in Hc. rewrite Hc. cbn -[writerAt]. apply tcp_inv_writerAt; try done.
        -- apply net_ok_state; cbn; auto. right. split; [done |]. rewrite Ek. apply E6. done.
        -- cbn. rewrite Es. status_ok io_ok_status_writer Hio.
        -- cbn. by rewrite Ek.
        -- cbn. rewrite Ek. cbn. by rewrite E5, Hlog.
      * cbn -[writerAt]. apply tcp_inv_writerAt; try done; [by apply flags_same_ok | status_ok io_ok_status_writer Hio | cbn; by rewrite E5].
      * cbn -[writerAt]. apply tcp_inv_writerAt; try done; [by apply flags_same_ok | status_ok io_ok_status_writer Hio | cbn; by rewrite E5].
      * cbn -[writerAt]. apply tcp_inv_writerAt; try done; [by apply flags_same_ok | status_ok io_ok_status_writer Hio | cbn; by rewrite E5].
Qed.

Lemma tcp_inv_run (w : World) (hs : list Who) (run : option Who) (rd : option (Pc * BufferReader)) (wr : option (Pc * BufferWriter)) :
  tcp_inv fd id w -> io_ok run (fst <$> rd) (fst <$> wr) hs (ch_state w) ->
  (forall pc r, rd = Some (pc, r) -> r_buf r = []) ->
  (forall pc x, wr = Some (pc, x) -> (wroteLen_ x < length (w_buf x))%nat \/ wroteLen_ x = 0%nat) ->
  tx (sock (net w)) = accepted w ++ match wr with Some (_, x) => take (wroteLen_ x) (w_buf x) | None => [] end ->
  tcp_inv fd id (set_writing wr (set_reading rd (set_run hs run w))).
Proof. intros [A1 A2 A3 A4 A5 A6 A7 A8 A9 A10 A11 A12 A13 A14] Hio Hr Hw Htx. by split. Qed.

Lemma fst_resumed {A : Type} (x : option (Pc * A)) : fst <$> ((fun y => (resumed (fst y), snd y)) <$> x) = resumed <$> (fst <$> x).
Proof. by destruct x as [[]|]. Qed.

Lemma set_writing_same (w : World) : set_writing (writing w) w = w.
Proof. by destruct w. Qed.

Lemma tcp_inv_resume (h : Who) (hs : list Who) (w : World) :
  tcp_inv fd id w -> running w = None -> ready w = h :: hs -> tcp_inv fd id (resume h (set_run hs (Some h) w)).
Proof.
  intros I Hrun Hready. pose proof (i_io _ _ _ I) as Hio. rewrite Hrun, Hready in Hio. apply io_ok_resume in Hio.
  destruct h; cbn [resume]; [rewrite <- (set_writing_same (set_reading _ _)) |].
  - apply tcp_inv_run; cbn; try done.
    + by rewrite fst_resumed.
    + intros pc r H. destruct (reading w) as [[pc0 r0] |] eqn:Hr; [| done]. injection H as _ <-. by eapply i_buf.
    + by apply (i_wrote _ _ _ I).
    + apply (i_sent _ _ _ I).
  - change (set_run hs (Some Writer) w) with (set_run hs (Some Writer) w).
    replace (set_run hs (Some Writer) w) with (set_reading (reading w) (set_run hs (Some Writer) w)) by (by destruct w).
    apply tcp_inv_run; cbn; try done.
    + by rewrite fst_resumed.
    + apply (i_buf _ _ _ I).
    + intros pc r H. destruct (writing w) as [[pc0 r0] |] eqn:Hr; [| done]. injection H as _ <-. by eapply i_wrote.
    + rewrite (i_sent _ _ _ I). by destruct (writing w) as [[] |].
Qed.

Lemma tcp_inv_startRead (len : nat) (w : World) :
  tcp_inv fd id w -> running w = None -> reading w = None ->
  tcp_inv fd id (set_reading (Some (PTop WaitRead, mkReader len [] None)) (set_run (ready w) (Some Reader) w)).
Proof.
  intros I Hrun Hrd. pose proof (i_io _ _ _ I) as Hio. rewrite Hrun, Hrd in Hio.
  rewrite <- (set_writing_same (set_reading _ _)). apply tcp_inv_run; cbn; try done.
  - by apply io_ok_start in Hio as [Hio _]; apply Hio.
  - intros ? ? [= <- <-]. done.
  - apply (i_wrote _ _ _ I).
  - apply (i_sent _ _ _ I).
Qed.

Lemma tcp_inv_startWrite (d : bytes) (w : World) :
  tcp_inv fd id w -> running w = None -> writing w = None ->
  tcp_inv fd id (set_writing (Some (PTop WaitWrite, mkWriter d 0 None)) (set_run (ready w) (Some Writer) w)).
Proof.
  intros I Hrun Hwr. pose proof (i_io _ _ _ I) as Hio. rewrite Hrun, Hwr in Hio.
  replace (set_run (ready w) (Some Writer) w) with (set_reading (reading w) (set_run (ready w) (Some Writer) w)) by (by destruct w).
  apply tcp_inv_run; cbn; try done.
  - by apply io_ok_start in Hio as [_ Hio]; apply Hio.
  - apply (i_buf _ _ _ I).
  - intros ? ? [= <- <-]. by right.
  - rewrite (i_sent _ _ _ I), Hwr. done.
Qed.

Lemma tcp_inv_cancel (w : World) : tcp_inv fd id w -> tcp_inv fd id (cancel w).
Proof.
  intros I. unfold cancel. destruct (cancelAll (ch_state w)) as [s hs] eqn:Hc.
  destruct (io_ok_cancel _ _ _ _ _ _ _ (i_io _ _ _ I) Hc) as (Hio & E1 & E2 & E3).
  destruct (flags_same_ok (net w) s (net_ok_inv w I) (conj E1 (conj E2 E3))) as [N1 N2 N3 N4 N5 N6 N7].
  destruct I as [A1 A2 A3 A4 A5 A6 A7 A8 A9 A10 A11 A12 A13 A14]. by split.
Qed.

Lemma tcp_inv_step (e : Event) (w : World) (Hpos : 0 <= fd) :
  tcp_inv fd id w -> e <> ForceClose -> exists w', step e w = (Ok tt, w') /\ tcp_inv fd id w'.
Proof.
  intros I Hne. unfold step, mbind, mget, mput, mret. rewrite (i_alive _ _ _ I).
  destruct e; try done; cbn.
  - eexists. split; [done |]. by apply tcp_inv_arrive.
  - eexists. split; [done |]. by apply tcp_inv_peerFin.
  - eexists. split; [done |]. by apply tcp_inv_peerReset.
  - eexists. split; [done |]. by apply tcp_inv_drain.
  - destruct (bool_decide_reflect (running w = None)); [| by eexists].
    destruct (tcp_inv_poll w Hpos I) as (w' & Hp & I' & _). eauto.
  - destruct (bool_decide_reflect (running w = None)), (bool_decide_reflect (reading w = None)); cbn; try by eexists.
    eexists. split; [done |]. by apply tcp_inv_startRead.
  - destruct (bool_decide_reflect (running w = None)), (bool_decide_reflect (writing w = None)); cbn; try by eexists.
    eexists. split; [done |]. by apply tcp_inv_startWrite.
  - destruct (bool_decide_reflect (running w = None)); [| by eexists].
    destruct (ready w) as [| h hs] eqn:Hready; [by eexists |]. eexists. split; [done |]. by apply tcp_inv_resume.
  - destruct (running w) as [[] |] eqn:Hrun; [| | by eexists]; (eexists; split; [done |]).
    + by apply tcp_inv_stepReader.
    + by apply tcp_inv_stepWriter.
  - destruct (bool_decide_reflect (running w = None)); [| by eexists]. eexists. split; [done |]. by apply tcp_inv_cancel.
  - destruct (bool_decide_reflect (running w = None)); [| by eexists]. eexists. split; [done |]. by apply tcp_inv_shutdown.
Qed.

Lemma tcp_inv_steps (es : list Event) (w : World) (Hpos : 0 <= fd) :
  tcp_inv fd id w -> ForceClose ∉ es -> exists w', steps es w = (Ok tt, w') /\ tcp_inv fd id w'.
Proof.
  revert w. induction es as [| e es IH]; intros w I Hes; [by eexists |]. apply not_elem_of_cons in Hes as [He Hes].
  destruct (tcp_inv_step e w Hpos I ltac:(congruence)) as (w1 & H1 & I1).
  destruct (IH w1 I1 Hes) as (w' & H' & I'). exists w'. split; [| done]. cbn [steps]. unfold mbind. by rewrite H1.
Qed.

(** A descriptor that was just opened, as far as the table and the kernel know. *)
Definition fresh (p : Poller Z) : Prop :=
  0 <= fd /\ fd ∈ opened (kernel p) /\ epoll (kernel p) !! fd = None /\ forall c, ioContexts_ p !! fd = Some c -> io_id c < id.

Lemma newConnection_ok (k : Sock) (p : Poller Z) :
  fresh p -> exists w, newConnection id fd k p = Ok w /\ tcp_inv fd id w /\ tcp w = Connected
    /\ running w = None /\ reading w = None /\ writing w = None /\ rx (sock (net w)) = rx k /\ fin (sock (net w)) = fin k
    /\ accepted w = tx k /\ arrived w = rx k /\ delivered w = [] /\ soerror (sock (net w)) = soerror k /\ dead (sock (net w)) = dead k
    /\ tx (sock (net w)) = tx k /\ ch_state w = newIoState.
Proof.
  intros (Hpos & Ho & He & Hid). unfold newConnection, newChannel, mbind, mret.
  assert (Hs : exists c, setIoHandler fd id id p = (Ok tt, set_context fd c p) /\ c = mkIo fd id (Some id) false).
  { unfold setIoHandler, mbind, mget. destruct (ioContexts_ p !! fd) as [c |] eqn:Hc; [| by eexists].
    specialize (Hid c eq_refl). destruct (Z.eqb_spec (io_id c) id); [lia |]. cbn [negb].
    destruct (Z.ltb_spec id (io_id c)); [lia |]. by eexists. }
  destruct Hs as (c & -> & ->). cbn [obind].
  set (p1 := set_context fd _ p).
  assert (R : registered fd id EdgeTriggered 0 p1) by (unfold registered, p1; cbn; rewrite lookup_insert_eq; done).
  destruct (updateIo_current fd id EdgeTriggered 0 1 p1 R) as (p2 & Hu & Hr & _).
  unfold on_channel, enableReading, enable, mbind, mget. cbn [snd events_ reg].
  change (negb (has 0 EPOLLIN)) with true. cbv iota. unfold changeEvents. cbn [ch_fd ch_id triggerMode_].
  change (Z.lor 0 EPOLLIN) with 1. rewrite Hu. cbn. eexists. split; [done |].
  split; [| by split_and!].
  assert (Hcond : (conditions (mkNet (p2, mkChannel id fd EdgeTriggered 1 newIoState) k) =? 0) = negb (levelIn k || false)).
  { destruct (conditions_known (mkNet (p2, mkChannel id fd EdgeTriggered 1 newIoState) k) fd id 1 eq_refl Hr ltac:(by left))
      as (_ & _ & _ & _ & ->). cbn. by rewrite andb_false_r. }
  unfold rearm. split; cbn; try done; try by left.
  - intros _ Hl. change (set_events 1 (mkChannel id fd EdgeTriggered 0 newIoState)) with (mkChannel id fd EdgeTriggered 1 newIoState).
    rewrite Hcond. unfold levelIn in *. cbn in Hl. rewrite Hl. by rewrite orb_true_r.
  - split; cbn; [constructor | |]; unfold at_rest; set_solver.
  - by rewrite app_nil_r.
Qed.
End steps.
