(* ===== verification/TcpSpec.v ===== *)
(** What a TCP connection promises (Tcp.v, TcpInv.v): no wake-up is lost and no
    byte is lost or reordered, whatever the network does and in whatever order
    the loop's thread runs; and what [forceClose] leaves behind. *)

From Stdlib Require Import ZArith Lia String Strings.Byte.
From stdpp Require Import base numbers option list gmap.
From S2P Require Import Prelude IoTable Channel Tcp TcpInv.
Open Scope Z_scope.
Import TcpState.

(** C18: no wake-up is lost.  However the network's bytes, end and reset, the
    kernel's short counts, the reads and writes of the program, cancellations
    and the turns of the loop interleave, the connection never fails, and a
    coroutine that is suspended in a read while there are bytes, the end of the
    stream or an error is woken by the next [epoll_wait], although the
    registration is edge-triggered; so is one suspended in a write while there
    is room or writing has ended.  What the reads returned is what arrived, in
    order, except for what the kernel still has; what was sent is what the writes
    handed over, and a write that returns its length has handed over all of it. *)
Theorem tcp_no_lost_wakeup (fd id : Z) (k : Sock) (p : Poller Z) (es : list Event)
    (Hfresh : fresh fd id p) (Hes : ForceClose ∉ es) :
  exists w0 w, newConnection id fd k p = Ok w0 /\ steps es w0 = (Ok tt, w)
  /\ (forall h r, reading w = Some (PSuspended h, r) -> can_read w = true ->
        exists w', poll w = (Ok tt, w') /\ Reader ∈ ready w')
  /\ (forall h x, writing w = Some (PSuspended h, x) -> can_write w = true ->
        exists w', poll w = (Ok tt, w') /\ Writer ∈ ready w')
  /\ delivered w ++ rx (sock (net w)) = arrived w
  /\ tx (sock (net w)) = accepted w ++ match writing w with Some (_, x) => take (wroteLen_ x) (w_buf x) | None => [] end
  /\ forall x n, lastWrite w = Some (x, Ok n) ->
       n = 0%nat \/ (n = length (w_buf x) /\ take (wroteLen_ x) (w_buf x) = w_buf x).
Proof.
  destruct (newConnection_ok fd id k p Hfresh) as (w0 & Hnew & I0 & _). pose proof Hfresh as (Hpos & _).
  destruct (tcp_inv_steps fd id es w0 Hpos I0 Hes) as (w & Hrun & I). exists w0, w. split; [done |]. split; [done |].
  destruct (tcp_inv_poll fd id w Hpos I) as (w' & Hp & _ & Hrd & Hwr & _).
  pose proof (i_io _ _ _ I) as [_ Hr Hw].
  assert (Hmore : forall h, h ∈ ready w -> h ∈ ready w').
  { intros h Hh. revert Hp. unfold poll. destruct (pollable w); [| by intros [= <-]].
    cbn [process_io_events]. unfold mbind, mget, mret. destruct (_ =? -1); [by intros [= <-] |].
    destruct (ioContexts_ _ !! _) as [[? ? [h0 |] ?] |]; cbn [handler]; [| done | by intros [= <-]].
    unfold callHandler. destruct (alive _); [| by intros [= <-]].
    destruct (handleIoEvents _ _) as [s hs]. cbn. intros [= <-]. destruct (has _ EPOLLRDHUP); cbn; set_solver. }
  split; [| split; [| split; [by apply (i_arrived _ _ _ I) | split; [by apply (i_sent _ _ _ I) |]]]].
  - intros h r Hs Hl. exists w'. split; [done |]. rewrite Hs in Hr. cbn in Hr.
    destruct Hr as [[_ [(Hx & _) | (_ & Hx & _)]] _]; auto.
  - intros h r Hs Hl. exists w'. split; [done |]. rewrite Hs in Hw. cbn in Hw.
    destruct Hw as [[_ [(Hx & _) | (_ & Hx & _)]] _]; auto.
  - intros x n Hl. destruct (i_done _ _ _ I x n Hl) as [? | [-> ?]]; [by left | right]. split; [done |]. by apply take_ge.
Qed.

(** A read of ten bytes is suspended, two bytes come, it gets them; a write of
    five bytes is suspended behind the third. *)
Lemma tcp_no_lost_wakeup_witness :
  let k := mkSock [] false false 3 [] false false in
  let p := mkPoller ∅ (mkKernel {[7]} ∅) in
  let run := [StartRead 10; Continue (UpTo 9); StartWrite (str "hello"); Continue (UpTo 9); Continue (UpTo 9);
              Continue (UpTo 9); Continue (UpTo 9); Continue (UpTo 9); Arrive (str "ab"); Drain 1] in
  exists w0 w, newConnection 1 7 k p = Ok w0 /\ steps run w0 = (Ok tt, w)
  /\ (exists h r, reading w = Some (PSuspended h, r)) /\ (exists h x, writing w = Some (PSuspended h, x))
  /\ (exists w', poll w = (Ok tt, w') /\ Reader ∈ ready w') /\ (exists w', poll w = (Ok tt, w') /\ Writer ∈ ready w')
  /\ tx (sock (net w)) = str "hel".
Proof.
  intros k p run.
  assert (Hf : fresh 7 1 p) by (split; [lia | split; [by vm_compute | done]]).
  destruct (tcp_no_lost_wakeup 7 1 k p run Hf) as (w0 & w & Hn & Hr & Hrd & Hwr & _ & Htx & _).
  { intros H. repeat (apply elem_of_cons in H as [H | H]; [done |]). by apply elem_of_nil in H. }
  exists w0, w. split; [done |]. split; [done |].
  assert (E : w = snd (steps run match newConnection 1 7 k p with Ok w0 => w0 | _ => w0 end)) by (by rewrite Hn, Hr).
  assert (E1 : exists h r, reading w = Some (PSuspended h, r)) by (rewrite E; vm_compute; eauto).
  assert (E2 : exists h x, writing w = Some (PSuspended h, x)) by (rewrite E; vm_compute; eauto).
  assert (E3 : can_read w = true) by (rewrite E; by vm_compute).
  assert (E4 : can_write w = true) by (rewrite E; by vm_compute).
  split; [done |]. split; [done |]. destruct E1 as (h & r & E1). destruct E2 as (h' & x & E2).
  split; [exact (Hrd h r E1 E3) |]. split; [exact (Hwr h' x E2 E4) |]. rewrite E. by vm_compute.
Defined.

(** ** [forceClose] *)

Lemma cancelAll_wakes (run : option Who) (rpc wpc : option Pc) (hs hs' : list Who) (s s' : IoState) :
  io_ok run rpc wpc hs s -> cancelAll s = (s', hs') ->
  (forall h, rpc = Some (PSuspended h) -> Reader ∈ hs ++ hs') /\ (forall h, wpc = Some (PSuspended h) -> Writer ∈ hs ++ hs').
Proof.
  intros I Hc. destruct (io_ok_cancel _ _ _ _ _ _ _ I Hc) as ([_ B C] & _).
  assert (Hn : readableWaiter s' = None /\ writableWaiter s' = None).
  { revert Hc. unfold cancelAll, cancelRead, cancelWrite. destruct s as [? ? ? ? [] [] ? ?]; cbn; by intros [= <- _]. }
  destruct Hn as [Hn1 Hn2]. rewrite Hn1 in B. rewrite Hn2 in C.
  split; intros h ->; [destruct B as [[_ [(? & _) | (_ & ? & _)]] _] | destruct C as [[_ [(? & _) | (_ & ? & _)]] _]]; done.
Qed.

Lemma disableAll_ok (fd id : Z) (n : Net) :
  net_ok fd id n -> exists p b, on_channel disableAll n = (Ok tt, mkNet (p, set_events 0 (chan n)) (set_edge b (sock n)))
    /\ registered fd id EdgeTriggered 0 p.
Proof.
  intros [A1 A2 A3 A4 A5 A6 A7]. destruct n as [[p c] k]. cbn in *.
  destruct (updateIo_current fd id EdgeTriggered _ 0 p A5) as (p' & Hu & Hr & _).
  unfold on_channel, disableAll, mbind, mget. cbn [reg snd sock].
  assert (Hne : (events_ c =? 0) = false) by (by destruct A4 as [-> | ->]). rewrite Hne.
  assert (Hne' : (0 =? events_ c) = false) by (by destruct A4 as [-> | ->]). cbn [negb].
  unfold changeEvents. rewrite A1, A2, A3, Hu. cbn [chan reg snd sock set_events events_]. rewrite Hne'. eexists p', _. split; [|done]. done.
Qed.

(** C39: closing by force.  It takes the descriptor from the table and from the
    kernel and closes it, and schedules every coroutine that is suspended in the
    connection.  But it destroys the channel at once: the first of these
    coroutines that runs reads the freed channel, and a later read or write of
    the connection follows a null pointer. *)
Theorem tcp_force_close (fd id : Z) (k : Sock) (p : Poller Z) (es : list Event) (w0 w : World)
    (Hfresh : fresh fd id p) (Hes : ForceClose ∉ es) (Hnew : newConnection id fd k p = Ok w0)
    (Hrun : steps es w0 = (Ok tt, w)) (Hidle : running w = None) :
  exists w', step ForceClose w = (Ok tt, w') /\ tcp w' = Closed
  /\ ~ (fd ∈ opened (kernel (fst (reg (net w'))))) /\ ioContexts_ (fst (reg (net w'))) !! fd = None
  /\ epoll (kernel (fst (reg (net w')))) !! fd = None
  /\ (forall h r, reading w = Some (PSuspended h, r) -> Reader ∈ ready w')
  /\ (forall h x, writing w = Some (PSuspended h, x) -> Writer ∈ ready w')
  /\ (ready w' <> [] -> forall a, fst (steps [Resume; Continue a] w') = Undefined)
  /\ (reading w = None -> forall len, fst (step (StartRead len) w') = Undefined)
  /\ (writing w = None -> forall d, fst (step (StartWrite d) w') = Undefined).
Proof.
  destruct (newConnection_ok fd id k p Hfresh) as (w0' & Hnew' & I0 & _). rewrite Hnew in Hnew'. injection Hnew' as <-.
  pose proof Hfresh as (Hpos & _).
  destruct (tcp_inv_steps fd id es w0 Hpos I0 Hes) as (w1 & Hrun1 & I). rewrite Hrun in Hrun1. injection Hrun1 as <-.
  destruct (disableAll_ok fd id (net w) (net_ok_inv fd id w I)) as (p' & b & Hd & Hr).
  unfold step, mbind, mget. rewrite Hidle, (i_alive _ _ _ I). cbn [bool_decide]. change (bool_decide (@None Who = None)) with true.
  cbv iota. unfold forceClose. rewrite Hd.
  set (w1 := set_net _ (set_tcp Closed w)).
  destruct (cancelAll (ch_state w1)) as [s hs] eqn:Hc.
  destruct (cancelAll_wakes _ _ _ _ _ _ _ (i_io _ _ _ I) Hc) as [Hw1 Hw2].
  unfold cancel. rewrite Hc. unfold destroyChannel. cbn -[removeIo].
  rewrite (i_fd _ _ _ I), (i_id _ _ _ I), (removeIo_current fd id EdgeTriggered 0 p' Hr). cbn.
  eexists. split; [done |]. cbn. split; [done |]. split; [set_solver |].
  split; [by rewrite lookup_delete_eq |]. split; [by rewrite lookup_delete_eq |].
  split; [intros h r Hx; apply (Hw1 h); by rewrite Hx |].
  split; [intros h x Hx; apply (Hw2 h); by rewrite Hx |].
  split; [| split].
  - intros Hne a. unfold steps, step, mbind, mget. cbn. rewrite Hidle. change (bool_decide (@None Who = None)) with true. cbv iota.
    destruct (ready w ++ hs) as [| h hs'] eqn:Hready; [done |]. cbn. by destruct h.
  - intros Hrd len. unfold step, mbind, mget. cbn. by rewrite Hidle, Hrd.
  - intros Hwr d. unfold step, mbind, mget. cbn. by rewrite Hidle, Hwr.
Qed.

Lemma tcp_force_close_witness :
  let k := mkSock [] false false 3 [] false false in
  let p := mkPoller ∅ (mkKernel {[7]} ∅) in
  let run := [StartRead 10; Continue (UpTo 9)] in
  exists w0 w, newConnection 1 7 k p = Ok w0 /\ steps run w0 = (Ok tt, w)
  /\ exists w', step ForceClose w = (Ok tt, w') /\ tcp w' = Closed /\ Reader ∈ ready w'
  /\ fst (steps [Resume; Continue (UpTo 9)] w') = Undefined.
Proof.
  intros k p run.
  assert (Hf : fresh 7 1 p) by (split; [lia | split; [by vm_compute | done]]).
  destruct (newConnection 1 7 k p) as [w0 | | |] eqn:Hn; try by vm_compute in Hn.
  destruct (steps run w0) as [o w] eqn:Hr.
  assert (E : (o, w) = steps run match newConnection 1 7 k p with Ok w0 => w0 | _ => w0 end) by (by rewrite Hn, Hr).
  assert (Ho : o = Ok tt) by (apply (f_equal fst) in E; exact E). subst o.
  apply (f_equal snd) in E. cbn [snd] in E.
  exists w0, w. split; [done |]. split; [done |].
  assert (Hidle : running w = None) by (rewrite E; by vm_compute).
  assert (E1 : exists h r, reading w = Some (PSuspended h, r)) by (rewrite E; vm_compute; eauto). destruct E1 as (h & r & E1).
  destruct (tcp_force_close 7 1 k p run w0 w Hf) as (w' & Hs & Ht & _ & _ & _ & Hrd & _ & Hu & _); try done.
  { intros H. repeat (apply elem_of_cons in H as [H | H]; [done |]). by apply elem_of_nil in H. }
  exists w'. split; [done |]. split; [done |]. pose proof (Hrd h r E1). split; [done |]. apply Hu. intros H0. rewrite H0 in H. by apply elem_of_nil in H.
Defined.
