(* ===== verification/TcpStream.v ===== *)
(** A TCP connection is a byte stream: [TcpConnection] (Tcp.v) implements the
    interface [ByteStream] of the readers, writers and sessions above it.

    One coroutine uses the connection, one call after the other, as a session does,
    and the loop runs: it runs the coroutine until it suspends, resumes what is
    ready, and asks [epoll].  A script says what happens besides and in what order:
    before any step of the program the network brings bytes or makes room, and at
    each system call the kernel transfers as much as it likes or is interrupted by a
    signal.  Scripts are of any length; when one is over no signal comes any more,
    the kernel transfers a byte at a time, and once the program waits for it the
    peer ends its stream and goes on taking bytes.  There is no reset, and nobody
    cancels or closes; [TcpSpec] is about these, and about a reader and a writer at
    the same time. *)

From Stdlib Require Import ZArith Lia String Strings.Byte.
From stdpp Require Import base numbers option list gmap.
From S2P Require Import Prelude ByteStream IoTable Channel Tcp TcpInv.
Open Scope Z_scope.

(** ** The loop *)

(** [Go a]: the program takes a step, in which the kernel answers [a] to a system
    call. *)
Inductive Moment : Type := Brings (d : bytes) | Takes (n : nat) | Go (a : SysAnswer).

Definition Running : Type := (World * list Moment)%type.

(** A step of the loop's thread: of the coroutine that runs, of one that is ready,
    or [epoll_wait]. *)
Definition goOn (a : SysAnswer) (w : World) : World :=
  match running w, ready w with
  | Some _, _ => snd (step (Continue a) w)
  | None, _ :: _ => snd (step Resume w)
  | None, [] => snd (step Poll w)
  end.

(** Nothing is to be done, and [epoll_wait] would not return. *)
Definition waits (w : World) : bool :=
  bool_decide (running w = None) && bool_decide (ready w = []) && negb (pollable w).

Definition turn (x : Running) : Running :=
  let '(w, script) := x in
  match script with
  | Brings d :: script' => (arrive d w, script')
  | Takes n :: script' => (drain n w, script')
  | Go a :: script' => (goOn a w, script')
  | [] => (if waits w then drain 1 (peerFin w) else goOn (UpTo 0) w, [])
  end.

Fixpoint until (done_ : World -> bool) (fuel : nat) (x : Running) : Running :=
  if done_ (fst x) then x
  else match fuel with O => x | S fuel' => until done_ fuel' (turn x) end.

Definition readDone (w : World) : bool := bool_decide (reading w = None).
Definition writeDone (w : World) : bool := bool_decide (writing w = None).

(** [co_await read(buf, len)] and [co_await write(buf, len)]. *)
Definition tcpRead (len : nat) (x : Running) : bytes * Running :=
  let x := until readDone (length (snd x) + 11) (snd (step (StartRead len) (fst x)), snd x) in
  (match lastRead (fst x) with Some (Ok d) => d | _ => [] end, x).

Definition tcpWrite (d : bytes) (x : Running) : Running :=
  until writeDone (length (snd x) + 11 * length d + 11) (snd (step (StartWrite d) (fst x)), snd x).

(** What the peer sent and nobody read, and what was written. *)
Definition brought (script : list Moment) : bytes := concat (map (fun m => match m with Brings d => d | _ => [] end) script).
Definition tcpPending (x : Running) : bytes := rx (sock (net (fst x))) ++ brought (snd x).
Definition tcpSent (x : Running) : bytes := tx (sock (net (fst x))).

(** ** What stays *)

Section stream.
Context (fd id : Z) (Hpos : 0 <= fd).

(** No reset, no shutdown, no cancellation. *)
Definition quiet (w : World) : Prop :=
  soerror (sock (net w)) = false /\ dead (sock (net w)) = false
  /\ readCanceled (ch_state w) = false /\ writeCanceled (ch_state w) = false /\ errored (ch_state w) = false.

Definition good (w : World) : Prop := tcp_inv fd id w /\ quiet w.

(** A step of the network or of the loop, in which no coroutine runs. *)
Record moved (w w' : World) : Prop := {
  m_good : good w';
  m_delivered : delivered w' = delivered w;
  m_accepted : accepted w' = accepted w;
  m_reader : snd <$> reading w' = snd <$> reading w;
  m_writer : snd <$> writing w' = snd <$> writing w
}.

(** *** The network *)

Record netMoved (w w' : World) : Prop := {
  n_moved : moved w w';
  n_reading : reading w' = reading w;
  n_writing : writing w' = writing w;
  n_running : running w' = running w;
  n_ready : ready w' = ready w;
  n_room : (room (sock (net w)) <= room (sock (net w')))%nat
}.

Lemma netMoved_refl (w : World) : good w -> netMoved w w.
Proof. intros G. by split; [split |..]. Qed.

Lemma netMoved_arrive (d : bytes) (w : World) :
  good w -> fin (sock (net w)) = false ->
  netMoved w (arrive d w) /\ arrived (arrive d w) = arrived w ++ d /\ fin (sock (net (arrive d w))) = false.
Proof.
  intros [I Q] Hf. pose proof (tcp_inv_arrive fd id d w I) as I'. destruct Q as (Q1 & Q2 & Q3 & Q4 & Q5).
  revert I'. unfold arrive. rewrite Hf, Q1. cbn [orb]. destruct (Nat.eqb_spec (length d) 0) as [Hd | Hd].
  - apply nil_length_inv in Hd as ->. rewrite app_nil_r. intros _. by split; [apply netMoved_refl |].
  - rewrite signal_eq. cbn. intros I'. split; [| done]. split; try done.
Qed.

Lemma netMoved_drain (n : nat) (w : World) :
  good w -> netMoved w (drain n w) /\ arrived (drain n w) = arrived w /\ fin (sock (net (drain n w))) = fin (sock (net w))
  /\ room (sock (net (drain n w))) = (room (sock (net w)) + n)%nat.
Proof.
  intros [I Q]. pose proof (tcp_inv_drain fd id n w I) as I'. revert I'. unfold drain. rewrite signal_eq. cbn. intros I'.
  split; [| done]. split; cbn; try done. lia.
Qed.

Lemma netMoved_peerFin (w : World) :
  good w -> netMoved w (peerFin w) /\ arrived (peerFin w) = arrived w /\ fin (sock (net (peerFin w))) = true.
Proof.
  intros [I Q]. pose proof (tcp_inv_peerFin fd id w I) as I'. revert I'. unfold peerFin. rewrite signal_eq. cbn. intros I'.
  split; [| done]. split; cbn; done.
Qed.

Lemma moved_trans (w w' w'' : World) : moved w w' -> moved w' w'' -> moved w w''.
Proof. intros [A1 A2 A3 A4 A5] [B1 B2 B3 B4 B5]. split; congruence. Qed.

(** *** [epoll_wait] *)

Lemma poll_frame (w w' : World) :
  poll w = (Ok tt, w') ->
  reading w' = reading w /\ writing w' = writing w /\ running w' = running w /\ readCanceled (ch_state w') = readCanceled (ch_state w)
  /\ writeCanceled (ch_state w') = writeCanceled (ch_state w)
  /\ (has (conditions (net w)) EPOLLERR = false -> errored (ch_state w') = errored (ch_state w))
  /\ delivered w' = delivered w /\ accepted w' = accepted w /\ arrived w' = arrived w.
Proof.
  unfold poll. destruct (pollable w); [| by intros [= <-]].
  cbn [process_io_events]. unfold mbind, mget, mret. destruct (_ =? -1); [by intros [= <-] |].
  destruct (ioContexts_ _ !! _) as [[? ? [h0 |] ?] |]; cbn [handler]; [| done | by intros [= <-]].
  unfold callHandler. destruct (alive _); [| by intros [= <-]].
  destruct (handleIoEvents _ _) as [s hs] eqn:Hh. apply handleIoEvents_spec in Hh as (_ & _ & E3 & _ & E1 & E2 & _).
  intros [= <-]. destruct (has _ EPOLLRDHUP); cbn in *; rewrite E1, E2; (split_and!; try done);
    intros H; by rewrite E3, H, orb_false_r.
Qed.

Lemma good_poll (w : World) :
  good w ->
  exists w', poll w = (Ok tt, w') /\ moved w w' /\ reading w' = reading w /\ writing w' = writing w /\ running w' = running w
    /\ arrived w' = arrived w /\ room (sock (net w')) = room (sock (net w)) /\ fin (sock (net w')) = fin (sock (net w))
    /\ can_read w' = can_read w /\ can_write w' = can_write w
    /\ (pollable w = true -> pollable w' = false)
    /\ (readableWaiter (ch_state w) = Some Reader -> can_read w = true -> Reader ∈ ready w')
    /\ (writableWaiter (ch_state w) = Some Writer -> can_write w = true -> Writer ∈ ready w').
Proof.
  intros [I (Q1 & Q2 & Q3 & Q4 & Q5)].
  destruct (tcp_inv_poll fd id w Hpos I) as (w' & Hp & I' & Hr & Hw & Hs). exists w'. split; [done |].
  destruct (poll_frame w w' Hp) as (E1 & E2 & E3 & E4 & E5 & E6 & E7 & E8 & E9).
  destruct (conditions_known (net w) fd id _ (i_fd _ _ _ I) (i_reg _ _ _ I) (i_events _ _ _ I)) as (B1 & _). rewrite B1 in E6. specialize (E6 Q1).
  assert (Es : exists b, sock (net w') = set_edge b (sock (net w))).
  { rewrite Hs. destruct (pollable w); [by eexists |]. exists (edge (sock (net w))). by destruct (sock (net w)). }
  destruct Es as [b Es]. unfold can_read, can_write, levelIn, levelOut. rewrite Es. split_and!; try done.
  - split; [split; [done |] | | | |]; try congruence. unfold quiet. rewrite E4, E5, E6, Es. done.
  - intros Hpw. unfold pollable. rewrite Hs, Hpw. done.
Qed.

(** An event wakes only who can go on. *)
Lemma poll_wakes (w w' : World) :
  tcp_inv fd id w -> poll w = (Ok tt, w') ->
  exists hs, ready w' = ready w ++ hs /\ (Reader ∈ hs -> can_read w = true) /\ (Writer ∈ hs -> can_write w = true).
Proof.
  intros I. pose proof (conditions_known (net w) fd id _ (i_fd _ _ _ I) (i_reg _ _ _ I) (i_events _ _ _ I)) as (B1 & _ & B3 & B4 & _).
  assert (Hnil : exists hs, ready w = ready w ++ hs /\ (Reader ∈ hs -> can_read w = true) /\ (Writer ∈ hs -> can_write w = true)).
  { exists []. rewrite app_nil_r. set_solver. }
  unfold poll. destruct (pollable w); [| by intros [= <-]].
  cbn [process_io_events]. unfold mbind, mget, mret. destruct (_ =? -1); [by intros [= <-] |].
  destruct (ioContexts_ _ !! _) as [[? ? [h0 |] ?] |]; cbn [handler]; [| done | by intros [= <-]].
  unfold callHandler. destruct (alive _); [| by intros [= <-]].
  destruct (handleIoEvents _ _) as [s hs] eqn:Hh. apply handleIoEvents_spec in Hh as (_ & _ & _ & _ & _ & _ & _ & _ & Hp).
  rewrite B1, B3, B4 in Hp. pose proof (i_io _ _ _ I) as [_ Hr Hw].
  assert (Hr' : readableWaiter (ch_state w) = None \/ readableWaiter (ch_state w) = Some Reader)
    by (destruct (coroutine_ok_waiter _ _ _ _ _ _ _ _ Hr) as [? | [? _]]; auto).
  assert (Hw' : writableWaiter (ch_state w) = None \/ writableWaiter (ch_state w) = Some Writer)
    by (destruct (coroutine_ok_waiter _ _ _ _ _ _ _ _ Hw) as [? | [? _]]; auto).
  change (ch_state (set_net (set_sock (set_edge false (sock (net w))) (net w)) w)) with (ch_state w) in Hp.
  intros [= <-]. exists hs. split; [by destruct (has _ EPOLLRDHUP) |]. unfold can_read, can_write, levelIn, levelOut in *.
  split; intros Hin; rewrite Hp in Hin; apply elem_of_app in Hin as [Hin | Hin];
    destruct Hr' as [Hr' | Hr'], Hw' as [Hw' | Hw']; rewrite ?Hr', ?Hw' in Hin;
    destruct (rx (sock (net w))), (fin (sock (net w))), (soerror (sock (net w))), (dead (sock (net w))),
      (0 <? room (sock (net w)))%nat, (events_ (chan (net w)) =? 5); cbn in Hin; try done;
    first [by apply elem_of_nil in Hin | by apply list_elem_of_singleton in Hin].
Qed.

(** *** How far a coroutine is from its call *)

(** While no signal comes, every step takes it nearer.  [c]: the call can go on;
    [flag]: the channel says so; [polls]: [epoll_wait] has something to report;
    [queued]: its handle is in the ready queue. *)
Definition rank (c flag polls queued : bool) (pc : Pc) : nat :=
  match pc with
  | PCall => if c then 1 else 8
  | PResumed _ | PTop WaitNone => if c then 2 else 9
  | PTop _ => if c then 5 else if flag then 9 else 7
  | PSuspended _ => if queued then (if c then 3 else 10) else if c then 4 else if polls then 6 else 5
  | PDone _ => 0
  end%nat.

Lemma rank_bound (c flag polls queued : bool) (pc : Pc) : (rank c flag polls queued pc <= 10)%nat.
Proof. destruct pc as [[] | | | |], c, flag, polls, queued; cbn; lia. Qed.

Definition readerRank (w : World) : nat :=
  match reading w with
  | Some (pc, _) => rank (can_read w) (readable (ch_state w)) (pollable w) (bool_decide (Reader ∈ ready w)) pc
  | None => 0
  end.

Definition rest (wr : BufferWriter) : bytes := drop (wroteLen_ wr) (w_buf wr).

Definition writerRank (w : World) : nat :=
  match writing w with
  | Some (pc, wr) =>
      11 * length (rest wr) + rank (can_write w) (writable (ch_state w)) (pollable w) (bool_decide (Writer ∈ ready w)) pc
  | None => 0
  end.

(** *** A step of the reader *)

(** What a read gives. *)
Record readOver (len : nat) (w w' : World) : Prop := {
  rv_idle : reading w' = None /\ running w' = None;
  rv_data : exists d, lastRead w' = Some (Ok d) /\ delivered w' = delivered w ++ d /\ (length d <= len)%nat
    /\ (d = [] -> len = 0%nat \/ (rx (sock (net w')) = [] /\ fin (sock (net w')) = true))
}.

(** A step that is no call. *)
Lemma readerAt_spec (w : World) (s : IoState) (pc : Pc) (r : BufferReader) :
  good w -> running w = Some Reader -> (forall a, stepReader a w = readerAt pc r (set_ch_state s w)) -> (forall o, pc <> PDone o) ->
  readCanceled s = readCanceled (ch_state w) -> writeCanceled s = writeCanceled (ch_state w) -> errored s = errored (ch_state w) ->
  let w' := readerAt pc r (set_ch_state s w) in
  good w' /\ reading w' = Some (pc, r) /\ delivered w' = delivered w /\ accepted w' = accepted w /\ arrived w' = arrived w
  /\ writing w' = writing w /\ sock (net w') = sock (net w) /\ ready w' = ready w /\ ch_state w' = s.
Proof.
  intros [I (Q1 & Q2 & Q3 & Q4 & Q5)] Hrun Hs Hpc E1 E2 E3. cbv zeta.
  pose proof (tcp_inv_stepReader fd id (UpTo 0) w I Hrun) as I'. rewrite Hs in I'.
  destruct pc as [h | h | h | | o]; [| | | | by destruct (Hpc o)]; cbn [readerAt] in *;
    (split_and!; try done; split; [exact I' | unfold quiet; cbn; rewrite E1, E2, E3; done]).
Qed.

Lemma sysRead_quiet (len : nat) (a : SysAnswer) (k : Sock) :
  soerror k = false -> len <> 0%nat ->
  (exists d k', sysRead len a k = (inl d, k') /\ (length d <= len)%nat /\ (d = [] -> k' = k /\ rx k = [] /\ fin k = true) /\ rx k = d ++ rx k'
     /\ tx k' = tx k /\ fin k' = fin k /\ soerror k' = false /\ dead k' = dead k)
  \/ (sysRead len a k = (inr EINTR, k) /\ a = Interrupted) \/ (sysRead len a k = (inr EAGAIN, k) /\ levelIn k = false).
Proof.
  intros Hso Hlen. unfold sysRead, levelIn. destruct a as [| m]; [by right; left |]. destruct (rx k) as [| b d] eqn:Hrx.
  - rewrite Hso. destruct (fin k) eqn:Hf; [left | by right; right]. exists [], k. rewrite Hrx. split_and!; try done; cbn; lia.
  - left. eexists _, _. split; [reflexivity |]. cbn [rx tx fin soerror dead]. rewrite take_drop, length_take. split_and!; try done; [lia |].
    destruct (Nat.min len (S m)) eqn:E; [lia | done].
Qed.
Lemma stepReader_spec (a : SysAnswer) (w : World) (pc : Pc) (r : BufferReader) :
  good w -> running w = Some Reader -> reading w = Some (pc, r) ->
  let w' := stepReader a w in
  good w' /\ accepted w' = accepted w /\ arrived w' = arrived w /\ writing w' = writing w
  /\ fin (sock (net w')) = fin (sock (net w))
  /\ (((exists pc', reading w' = Some (pc', r)) /\ delivered w' = delivered w /\ (a <> Interrupted -> readerRank w' < readerRank w)%nat)
      \/ readOver (r_len r) w w').
Proof.
  intros G Hrun Hre. pose proof G as [I (Q1 & Q2 & Q3 & Q4 & Q5)]. pose proof (i_buf _ _ _ I _ _ Hre) as Hbuf.
  pose proof (tcp_inv_stepReader fd id a w I Hrun) as I'.
  pose proof (io_reader _ _ _ _ _ (i_io _ _ _ I)) as Hio. rewrite Hre, Hrun in Hio. cbn [fst fmap option_fmap option_map] in Hio.
  assert (Hgo : forall s pc', (forall a, stepReader a w = readerAt pc' r (set_ch_state s w)) -> (forall o, pc' <> PDone o) ->
    readCanceled s = readCanceled (ch_state w) -> writeCanceled s = writeCanceled (ch_state w) -> errored s = errored (ch_state w) ->
    (rank (can_read w) (readable s) (pollable (readerAt pc' r (set_ch_state s w))) (bool_decide (Reader ∈ ready w)) pc'
      < rank (can_read w) (readable (ch_state w)) (pollable w) (bool_decide (Reader ∈ ready w)) pc)%nat ->
    let w' := stepReader a w in
    good w' /\ accepted w' = accepted w /\ arrived w' = arrived w /\ writing w' = writing w
    /\ fin (sock (net w')) = fin (sock (net w))
    /\ (((exists pc', reading w' = Some (pc', r)) /\ delivered w' = delivered w /\ (a <> Interrupted -> readerRank w' < readerRank w)%nat)
        \/ readOver (r_len r) w w')).
  { intros s pc' Hs Hpc E1 E2 E3 Hrank. cbv zeta. rewrite Hs.
    destruct (readerAt_spec w s pc' r G Hrun Hs Hpc E1 E2 E3) as (G' & R1 & R2 & R3 & R4 & R5 & R6 & R7 & R8).
    split_and!; try done; [by rewrite R6 |]. left. split; [by eexists |]. split; [done |]. intros _.
    unfold readerRank. rewrite R1, R7, R8, Hre. unfold can_read in *. by rewrite R6. }
  destruct pc as [h | h | h | | o]; [| | | | done].
  - destruct Hio as [(_ & Hni & _) Hh]. rewrite (bool_decide_eq_false_2 (Reader ∈ ready w)) in Hgo by done.
    destruct Hh as [-> | [-> Hwants]].
    + destruct (readable (ch_state w)) eqn:Hrd.
      * apply (Hgo (ch_state w) PCall); try done; [intros a'; unfold stepReader; rewrite Hre; cbn; by rewrite Hrd |].
        cbn. destruct (can_read w); lia.
      * apply (Hgo (set_waiters (Some Reader) (writableWaiter (ch_state w)) (ch_state w)) (PSuspended WaitRead)); try done;
          [intros a'; unfold stepReader; rewrite Hre; cbn; by rewrite Hrd, Q5 |].
        cbn. destruct (can_read w); [lia |]. case_match; lia.
    + apply (Hgo (ch_state w) PCall); try done; [intros a'; unfold stepReader; by rewrite Hre |]. cbn. destruct (can_read w); lia.
  - destruct Hio as [[Hr _] _]. done.
  - destruct Hio as [(_ & Hni & _) [-> _]]. rewrite (bool_decide_eq_false_2 (Reader ∈ ready w)) in Hgo by done.
    apply (Hgo (ch_state w) PCall); try done; [intros a'; unfold stepReader; rewrite Hre; cbn; by rewrite Q3 |].
    cbn. destruct (can_read w); lia.
  - clear Hgo. unfold stepReader, performCall, bufferReader in I' |- *. rewrite Hre in I' |- *. destruct (Nat.eqb_spec (r_len r) 0) as [Hz | Hz].
    { cbn -[finishRead] in I' |- *. split_and!; try done. right. split; [done |]. exists []. cbn. rewrite Hbuf. do 2 (split; [done |]). split; [lia | by left]. }
    destruct (sysRead_quiet (r_len r) a (sock (net w)) Q1 Hz) as [(d & k & E & Hlen & Hnil & Hrx & Htx & Hfin & Hso & Hdead) | [[E Ha] | [E Hl]]];
      rewrite E in I' |- *.
    + destruct d as [| x d]; cbn -[finishRead] in I' |- *.
      * destruct (Hnil eq_refl) as (-> & Hrx0 & Hf). split_and!; try done. right. split; [done |]. exists []. cbn. rewrite app_nil_r. do 2 (split; [done |]). split; [lia | by right].
      * split; [split; [done |]; unfold quiet; cbn; by rewrite Hso, Hdead |]. do 4 (split; [done |]). right. split; [done |]. exists (x :: d). by split_and!.
    + cbn in I' |- *. split_and!; try done. left. split; [by eexists |]. by split.
    + cbn in I' |- *. split_and!; try done. left. split; [by eexists |]. split; [done |]. intros _.
      unfold readerRank. cbn. rewrite Hre. unfold can_read. cbn. rewrite Hl. cbn. lia.
Qed.
(** *** A step of the writer *)

(** What a write leaves: all of it was handed over. *)
Record writeOver (d : bytes) (w w' : World) : Prop := {
  wv_idle : writing w' = None /\ running w' = None;
  wv_accepted : accepted w' = accepted w ++ d
}.

Lemma writerAt_spec (w : World) (s : IoState) (pc : Pc) (wr : BufferWriter) :
  good w -> running w = Some Writer -> (forall a, stepWriter a w = writerAt pc wr (set_ch_state s w)) -> (forall o, pc <> PDone o) ->
  readCanceled s = readCanceled (ch_state w) -> writeCanceled s = writeCanceled (ch_state w) -> errored s = errored (ch_state w) ->
  let w' := writerAt pc wr (set_ch_state s w) in
  good w' /\ writing w' = Some (pc, wr) /\ delivered w' = delivered w /\ accepted w' = accepted w /\ arrived w' = arrived w
  /\ reading w' = reading w /\ sock (net w') = sock (net w) /\ ready w' = ready w /\ ch_state w' = s.
Proof.
  intros [I (Q1 & Q2 & Q3 & Q4 & Q5)] Hrun Hs Hpc E1 E2 E3. cbv zeta.
  pose proof (tcp_inv_stepWriter fd id (UpTo 0) w I Hrun) as I'. rewrite Hs in I'.
  destruct pc as [h | h | h | | o]; [| | | | by destruct (Hpc o)]; cbn [writerAt] in *;
    (split_and!; try done; split; [exact I' | unfold quiet; cbn; rewrite E1, E2, E3; done]).
Qed.

Lemma sysWrite_quiet (d : bytes) (a : SysAnswer) (k : Sock) :
  soerror k = false -> dead k = false -> d <> [] ->
  (exists n k', sysWrite d a k = (inl n, k') /\ (0 < n <= length d)%nat /\ fin k' = fin k /\ soerror k' = false /\ dead k' = false
     /\ levelIn k' = levelIn k /\ edge k' = edge k /\ levelOut k = true /\ (levelOut k' = true -> levelOut k = true))
  \/ (sysWrite d a k = (inr EINTR, k) /\ a = Interrupted) \/ (sysWrite d a k = (inr EAGAIN, k) /\ levelOut k = false).
Proof.
  intros Hso Hdead Hd. unfold sysWrite, levelOut. rewrite Hso, Hdead. destruct a as [| m]; [by right; left |].
  destruct (room k) as [| n] eqn:Hroom; [by right; right |]. left. eexists _, _. split; [reflexivity |].
  assert (length d <> 0%nat) by (by destruct d). cbn [fin soerror dead edge room levelIn rx]. rewrite ?Hso, ?Hdead. split_and!; try done; [lia | lia |]. unfold levelIn. cbn. by rewrite Hso.
Qed.

(** What a step leaves of a write's data [buf], or its end. *)
Definition writeOn (a : SysAnswer) (buf : bytes) (w w' : World) : Prop :=
  ((exists pc' wr', writing w' = Some (pc', wr') /\ w_buf wr' = buf) /\ accepted w' = accepted w
    /\ (a <> Interrupted -> writerRank w' < writerRank w)%nat)
  \/ writeOver buf w w'.

Definition writeKeeps (w w' : World) : Prop :=
  good w' /\ delivered w' = delivered w /\ arrived w' = arrived w /\ reading w' = reading w /\ fin (sock (net w')) = fin (sock (net w)).

(** The call. *)
Lemma writer_call (a : SysAnswer) (w : World) (wr : BufferWriter) :
  good w -> running w = Some Writer -> writing w = Some (PCall, wr) ->
  writeKeeps w (stepWriter a w) /\ writeOn a (w_buf wr) w (stepWriter a w).
Proof.
  intros G Hrun Hwr. pose proof G as [I (Q1 & Q2 & Q3 & Q4 & Q5)]. pose proof (i_wrote _ _ _ I _ _ Hwr) as Hwrote.
  pose proof (tcp_inv_stepWriter fd id a w I Hrun) as I'. pose proof (io_writer _ _ _ _ _ (i_io _ _ _ I)) as Hio.
  rewrite Hwr in Hio. destruct Hio as [_ Hwant]. pose proof (net_ok_inv fd id w I) as N.
  assert (Hlen : length (rest wr) = (length (w_buf wr) - wroteLen_ wr)%nat) by apply length_drop.
  unfold stepWriter, performCall, bufferWriter in I' |- *. rewrite Hwr in I' |- *.
  destruct (Nat.eqb_spec (length (w_buf wr)) 0) as [Hz | Hz].
  { cbn -[finishWrite] in I' |- *. split; [split_and!; try done |]. right. split; [done |]. cbn. apply nil_length_inv in Hz. by rewrite Hz, take_nil. }
  assert (Hne : rest wr <> []) by (intros E; apply (f_equal length) in E; rewrite Hlen in E; cbn in E; lia).
  unfold mbind in I' |- *. fold (rest wr) in I' |- *.
  destruct (sysWrite_quiet (rest wr) a (sock (net w)) Q1 Q2 Hne) as
    [(n & k & E & Hn & Hfin & Hso & Hdead & Hin & Hedge & Hcan & Hout) | [[E Ha] | [E Hl]]]; rewrite E in I' |- *; cbn [w_buf wroteLen_] in I' |- *.
  - assert (N' : net_ok fd id (set_sock k (net w))) by (apply net_ok_sock; [done | done | by rewrite Hin | done]).
    destruct (Nat.leb_spec (length (w_buf wr)) (wroteLen_ wr + n)) as [Hall | Hmore].
    + destruct (on_channel_ok fd id false _ N' (fun _ => Hwant)) as (n' & Hc & N'' & Es & _ & b & Ek). cbv iota in Hc. rewrite Hc in I' |- *.
      cbn -[finishWrite] in I' |- *. split; [split_and!; try done |].
      * split; [exact I' |]. unfold quiet, ch_state. cbn. rewrite Ek, Es. cbn. by rewrite Hso, Hdead.
      * cbn. by rewrite Ek.
      * right. split; [done |]. cbn. by rewrite take_ge by lia.
    + cbn in I' |- *. split; [split; [split; [exact I' | unfold quiet; cbn; by rewrite Hso, Hdead] | done] |].
      left. split; [by eexists _, _ |]. split; [done |]. intros _. unfold writerRank at 2. rewrite Hwr. unfold can_write. rewrite Hcan.
      unfold writerRank. cbn [writing set_writing]. pose proof (rank_bound) as Hb.
      match goal with |- (11 * length ?l + rank ?c ?f ?p ?q ?pc < _)%nat => specialize (Hb c f p q pc);
        assert (length l = (length (rest wr) - n)%nat) by (unfold rest at 1; cbn; rewrite length_drop; lia) end.
      cbn [rank] in Hb |- *. lia.
  - cbn in I' |- *. split; [split_and!; try done |].
    left. split; [by eexists _, _ |]. split; [done |]. done.
  - assert (N' : net_ok fd id (set_sock (sock (net w)) (net w))) by (apply net_ok_sock; done).
    destruct (on_channel_ok fd id true _ N' ltac:(done)) as (n' & Hc & N'' & Es & _ & b & Ek). cbv iota in Hc. rewrite Hc in I' |- *.
    cbn -[set_writing] in I' |- *. split; [split_and!; try done |].
    + split; [exact I' |]. unfold quiet, ch_state. cbn. rewrite Ek, Es. cbn. done.
    + cbn. by rewrite Ek.
    + left. split; [by eexists _, _ |]. split; [done |]. intros _. unfold writerRank. rewrite Hwr. cbn -[Nat.mul]. unfold can_write.
      cbn -[Nat.mul]. rewrite Ek. change (levelOut (set_edge b _)) with (levelOut (sock (net w))). rewrite !Hl. cbn -[Nat.mul]. lia.
Qed.

Lemma stepWriter_spec (a : SysAnswer) (w : World) (pc : Pc) (wr : BufferWriter) :
  good w -> running w = Some Writer -> writing w = Some (pc, wr) ->
  writeKeeps w (stepWriter a w) /\ writeOn a (w_buf wr) w (stepWriter a w).
Proof.
  intros G Hrun Hwr. pose proof G as [I (Q1 & Q2 & Q3 & Q4 & Q5)].
  pose proof (io_writer _ _ _ _ _ (i_io _ _ _ I)) as Hio. rewrite Hwr, Hrun in Hio. cbn [fst fmap option_fmap option_map] in Hio.
  assert (Hgo : forall s pc', (forall a, stepWriter a w = writerAt pc' wr (set_ch_state s w)) -> (forall o, pc' <> PDone o) ->
    readCanceled s = readCanceled (ch_state w) -> writeCanceled s = writeCanceled (ch_state w) -> errored s = errored (ch_state w) ->
    (rank (can_write w) (writable s) (pollable (writerAt pc' wr (set_ch_state s w))) (bool_decide (Writer ∈ ready w)) pc'
      < rank (can_write w) (writable (ch_state w)) (pollable w) (bool_decide (Writer ∈ ready w)) pc)%nat ->
    writeKeeps w (stepWriter a w) /\ writeOn a (w_buf wr) w (stepWriter a w)).
  { intros s pc' Hs Hpc E1 E2 E3 Hrank. rewrite Hs.
    destruct (writerAt_spec w s pc' wr G Hrun Hs Hpc E1 E2 E3) as (G' & R1 & R2 & R3 & R4 & R5 & R6 & R7 & R8).
    split; [split_and!; try done; by rewrite R6 |]. left. split; [by eexists _, _ |]. split; [done |]. intros _.
    unfold writerRank. rewrite R1, R7, R8, Hwr. unfold can_write in *. rewrite R6. lia. }
  destruct pc as [h | h | h | | o]; [| | | by apply writer_call | done].
  - destruct Hio as [(_ & Hni & _) Hh]. rewrite (bool_decide_eq_false_2 (Writer ∈ ready w)) in Hgo by done.
    destruct Hh as [-> | [-> Hwants]].
    + destruct (writable (ch_state w)) eqn:Hrd.
      * apply (Hgo (ch_state w) PCall); try done; [intros a'; unfold stepWriter; rewrite Hwr; cbn; by rewrite Hrd |].
        cbn. destruct (can_write w); lia.
      * apply (Hgo (set_waiters (readableWaiter (ch_state w)) (Some Writer) (ch_state w)) (PSuspended WaitWrite)); try done;
          [intros a'; unfold stepWriter; rewrite Hwr; cbn; by rewrite Hrd, Q5 |].
        cbn. destruct (can_write w); [lia |]. case_match; lia.
    + apply (Hgo (ch_state w) PCall); try done; [intros a'; unfold stepWriter; by rewrite Hwr |]. cbn. destruct (can_write w); lia.
  - destruct Hio as [[Hr _] _]. done.
  - destruct Hio as [(_ & Hni & _) [-> _]]. rewrite (bool_decide_eq_false_2 (Writer ∈ ready w)) in Hgo by done.
    apply (Hgo (ch_state w) PCall); try done; [intros a'; unfold stepWriter; rewrite Hwr; cbn; by rewrite Q4 |].
    cbn. destruct (can_write w); lia.
Qed.
(** *** A step of the loop *)

Definition place (h : Who) (w : World) : option Pc := match h with Reader => fst <$> reading w | Writer => fst <$> writing w end.
Definition other (h : Who) : Who := match h with Reader => Writer | Writer => Reader end.
Definition can (h : Who) (w : World) : bool := match h with Reader => can_read w | Writer => can_write w end.
Definition flag (h : Who) (w : World) : bool := match h with Reader => readable (ch_state w) | Writer => writable (ch_state w) end.
Definition waiter (h : Who) (w : World) : option Who :=
  match h with Reader => readableWaiter (ch_state w) | Writer => writableWaiter (ch_state w) end.
Definition rankOf (h : Who) (w : World) : nat :=
  match place h w with
  | Some pc => rank (can h w) (flag h w) (pollable w) (bool_decide (h ∈ ready w)) pc
  | None => 0
  end.

Lemma readerRank_eq (w : World) : readerRank w = rankOf Reader w.
Proof. unfold readerRank, rankOf. cbn. by destruct (reading w) as [[]|]. Qed.

Lemma writerRank_eq (w : World) (pc : Pc) (wr : BufferWriter) :
  writing w = Some (pc, wr) -> writerRank w = (11 * length (rest wr) + rankOf Writer w)%nat.
Proof. intros H. unfold writerRank, rankOf. cbn [place]. by rewrite H. Qed.

Lemma place_ok (h : Who) (w : World) :
  good w -> exists hint canceled,
  coroutine_ok h hint (waiter h w) (ready w) (running w) (flag h w || errored (ch_state w)) canceled (place h w).
Proof. intros [I _]. destruct (i_io _ _ _ I). destruct h; by eexists _, _. Qed.

Lemma idle_absent (h : Who) (w : World) : good w -> place h w = None -> ~ (h ∈ ready w) /\ running w <> Some h.
Proof. intros G Hp. destruct (place_ok h w G) as (hint & c & H). rewrite Hp in H. by destruct H as (_ & ? & ?). Qed.

(** A coroutine that does not run is suspended, in the ready queue or with its
    handle in the channel. *)
Lemma waiting_place (h : Who) (w : World) (pc : Pc) :
  good w -> running w <> Some h -> place h w = Some pc ->
  exists hint, pc = PSuspended hint /\ (h ∈ ready w \/ (~ (h ∈ ready w) /\ waiter h w = Some h)).
Proof.
  intros G Hrun Hp. destruct (place_ok h w G) as (hint & c & H). rewrite Hp in H.
  destruct pc as [x | x | x | | o]; cbn in H; [by destruct H as [(_ & _ & ?) _] | | by destruct H as [(_ & _ & ?) _]
    | by destruct H as [(_ & _ & ?) _] | done].
  exists x. split; [done |]. destruct H as [[_ [(? & ? & _) | (_ & ? & _)]] _]; [by right | by left].
Qed.

Lemma only_ready (h : Who) (w : World) : good w -> place (other h) w = None -> h ∈ ready w -> ready w = [h].
Proof.
  intros G Ho Hin. destruct (idle_absent _ _ G Ho) as [Hni _]. destruct G as [I _]. pose proof (io_ready _ _ _ _ _ (i_io _ _ _ I)) as Hn.
  destruct (ready w) as [| a [| b hs]]; [set_solver | |].
  - f_equal. set_solver.
  - apply list.NoDup_cons in Hn as [Hn _]. destruct a, b, h; cbn in *; set_solver.
Qed.

Lemma poll_wakes_can (h : Who) (w w' : World) :
  good w -> good w' -> poll w = (Ok tt, w') -> ready w = [] -> place (other h) w' = None -> can h w = false -> ready w' = [].
Proof.
  intros [I _] G' Hp Hr Ho Hc. destruct (poll_wakes w w' I Hp) as (hs & E & H1 & H2). rewrite Hr in E. cbn in E.
  destruct (idle_absent _ _ G' Ho) as [Hni _]. rewrite E in *. destruct hs as [| x hs]; [done | exfalso].
  destruct h, x; cbn in *; try set_solver; [rewrite H1 in Hc by set_solver | rewrite H2 in Hc by set_solver]; done.
Qed.

Lemma goOn_loop (h : Who) (a : SysAnswer) (w : World) (pc : Pc) :
  good w -> running w = None -> place h w = Some pc -> place (other h) w = None ->
  moved w (goOn a w) /\ arrived (goOn a w) = arrived w /\ fin (sock (net (goOn a w))) = fin (sock (net w))
  /\ is_Some (place h (goOn a w)) /\ place (other h) (goOn a w) = None
  /\ (waits w = false -> (rankOf h (goOn a w) < rankOf h w)%nat).
Proof.
  intros G Hrun Hp Ho. destruct (waiting_place h w pc G ltac:(congruence) Hp) as (hint & -> & Hready).
  pose proof G as [I Q]. unfold goOn. rewrite Hrun. unfold step, mbind, mget. rewrite Hrun.
  change (bool_decide (@None Who = None)) with true. cbv iota. destruct Hready as [Hin | [Hni Hw]].
  - pose proof (only_ready h w G Ho Hin) as Hr. rewrite Hr. cbn [snd mput].
    pose proof (tcp_inv_resume fd id h [] w I Hrun Hr) as I'.
    assert (Hq : quiet (resume h (set_run [] (Some h) w))) by by destruct h.
    assert (Hpl : place h (resume h (set_run [] (Some h) w)) = Some (PResumed hint) /\ place (other h) (resume h (set_run [] (Some h) w)) = None).
    { destruct h; cbn in *; [destruct (reading w) as [[] |] | destruct (writing w) as [[] |]]; try done; by injection Hp as ->. }
    destruct Hpl as [Hpl Hpo]. split; [| split; [by destruct h | split; [by destruct h |]]].
    + split; [done | by destruct h | by destruct h | |]; destruct h; cbn; try done; [by destruct (reading w) | by destruct (writing w)].
    + split; [by rewrite Hpl |]. split; [done |]. intros _. unfold rankOf. rewrite Hp, Hpl, (bool_decide_eq_true_2 (h ∈ ready w)) by done.
      replace (can h (resume h (set_run [] (Some h) w))) with (can h w) by (by destruct h). cbn. destruct (can h w); lia.
  - assert (Hr : ready w = []).
    { destruct (idle_absent _ _ G Ho) as [? _]. destruct (ready w) as [| x hs]; [done | destruct h, x; set_solver]. }
    rewrite Hr. destruct (good_poll w G) as (w' & E & M & E1 & E2 & E3 & E4 & E5 & E6 & E7 & E8 & E9 & E10 & E11).
    rewrite E. cbn [snd]. assert (Hpl : forall x, place x w' = place x w) by (intros []; cbn; congruence).
    rewrite !Hpl. split; [done |]. split; [done |]. split; [done |]. split; [by rewrite Hp |]. split; [done |].
    unfold waits. rewrite Hrun, Hr, !bool_decide_eq_true_2 by done. cbn [andb]. intros Hpo. apply negb_false_iff in Hpo.
    assert (Hcan : can h w' = can h w) by by destruct h. pose proof (m_good _ _ M) as G'.
    unfold rankOf. rewrite Hpl, Hp, Hcan, Hpo, E9 by done. rewrite (bool_decide_eq_false_2 (h ∈ ready w)) by done.
    destruct (can h w) eqn:Hc; cbn.
    + rewrite bool_decide_eq_true_2 by (destruct h; auto). lia.
    + rewrite (poll_wakes_can h w w') by (by rewrite ?Hpl). rewrite bool_decide_eq_false_2 by set_solver. lia.
Qed.

(** When the loop would wait for ever the peer makes it go on. *)
Lemma waits_ends (h : Who) (w : World) (pc : Pc) :
  good w -> waits w = true -> place h w = Some pc -> place (other h) w = None ->
  let w' := drain 1 (peerFin w) in
  moved w w' /\ arrived w' = arrived w /\ fin (sock (net w')) = true /\ is_Some (place h w') /\ place (other h) w' = None
  /\ (rankOf h w' < rankOf h w)%nat.
Proof.
  intros G Hw Hp Ho. cbv zeta. unfold waits in Hw. apply andb_true_iff in Hw as [[Hrun Hr]%andb_true_iff Hpo].
  apply bool_decide_eq_true in Hrun, Hr. apply negb_true_iff in Hpo.
  destruct (netMoved_peerFin w G) as ([M1 A1 A2 A3 A4 A5] & B1 & B2).
  destruct (netMoved_drain 1 (peerFin w) (m_good _ _ M1)) as ([M2 C1 C2 C3 C4 C5] & D1 & D2 & D3).
  set (w' := drain 1 (peerFin w)) in *. assert (Hpl : forall x, place x w' = place x w) by (intros []; cbn; congruence).
  rewrite !Hpl. split; [by apply (moved_trans _ _ _ M1) |]. split; [congruence |]. split; [congruence |]. split; [by rewrite Hp |]. split; [done |].
  destruct (waiting_place h w pc G ltac:(congruence) Hp) as (hint & -> & [Hin | [Hni Hwait]]); [rewrite Hr in Hin; set_solver |].
  assert (Hc : can h w = false).
  { destruct (can h w) eqn:Hc; [| done]. destruct (good_poll w G) as (w1 & E & _ & _ & _ & _ & _ & _ & _ & _ & _ & _ & F1 & F2).
    unfold poll in E. rewrite Hpo in E. injection E as <-. rewrite Hr in F1, F2. destruct h; [specialize (F1 Hwait Hc) | specialize (F2 Hwait Hc)]; set_solver. }
  assert (Hc' : can h w' = true).
  { destruct h; cbn; [unfold can_read, levelIn; rewrite D2, B2; by destruct (rx _) | unfold can_write, levelOut; rewrite D3].
    by destruct (room (sock (net (peerFin w)))). }
  unfold rankOf. rewrite Hpl, Hp, Hc, Hc', Hpo, C4, A4, Hr. rewrite !(bool_decide_eq_false_2 (h ∈ [])) by set_solver. cbn. lia.
Qed.
(** *** A turn *)

(** Everything that comes has come, when the peer has ended its stream. *)
Definition fin_ok (x : Running) : Prop := fin (sock (net (fst x))) = true -> snd x = [].

(** What a turn keeps of a coroutine's call, [h]. *)
Record turned (h : Who) (x y : Running) : Prop := {
  t_good : good (fst y);
  t_fin : fin_ok y;
  t_other : place (other h) (fst y) = None;
  t_script : length (snd y) = pred (length (snd x));
  t_arrived : arrived (fst y) ++ brought (snd y) = arrived (fst x) ++ brought (snd x)
}.

(** The network's part of a turn, and the loop's. *)
Lemma turn_loop (h : Who) (x : Running) (pc : Pc) :
  good (fst x) -> fin_ok x -> place h (fst x) = Some pc -> place (other h) (fst x) = None ->
  (running (fst x) = None \/ (exists d s, snd x = Brings d :: s) \/ (exists n s, snd x = Takes n :: s)) ->
  turned h x (turn x) /\ moved (fst x) (fst (turn x)) /\ is_Some (place h (fst (turn x)))
  /\ (snd x = [] -> (rankOf h (fst (turn x)) < rankOf h (fst x))%nat).
Proof.
  destruct x as [w s]. cbn [fst snd]. intros G F Hp Ho Hcase. unfold fin_ok in F. cbn [fst snd] in F.
  assert (Hsame : forall w' (m : netMoved w w'), place h w' = Some pc /\ place (other h) w' = None).
  { intros w' [_ E1 E2 _ _ _]. destruct h; cbn in *; by rewrite E1, E2. }
  destruct s as [| [d | n | a] s]; cbn [turn].
  - destruct Hcase as [Hrun | [(? & ? & ?) | (? & ? & ?)]]; [| done..]. destruct (waits w) eqn:Hw.
    + destruct (waits_ends h w pc G Hw Hp Ho) as (M & A1 & A2 & A3 & A4 & A5). split; [| by split].
      split; cbn; try done; [apply M | congruence].
    + destruct (goOn_loop h (UpTo 0) w pc G Hrun Hp Ho) as (M & A1 & A2 & A3 & A4 & A5). split; [| by split; [| split; [| auto]]].
      split; cbn; try done; [apply M | congruence].
  - assert (Hf : fin (sock (net w)) = false) by (destruct (fin _); [by specialize (F eq_refl) | done]).
    destruct (netMoved_arrive d w G Hf) as (M & A1 & A2). destruct (Hsame _ M) as [Hp' Ho'].
    split; [| split; [apply M | split; [cbn [fst]; by rewrite Hp' | done]]].
    split; cbn; try done; [apply M | intros E; cbn in E; congruence |]. rewrite A1. unfold brought. cbn. by rewrite <- app_assoc.
  - assert (Hf : fin (sock (net w)) = false) by (destruct (fin _); [by specialize (F eq_refl) | done]).
    destruct (netMoved_drain n w G) as (M & A1 & A2 & A3). destruct (Hsame _ M) as [Hp' Ho'].
    split; [| split; [apply M | split; [cbn [fst]; by rewrite Hp' | done]]].
    split; cbn; try done; [apply M | intros E; cbn in E; congruence | by rewrite A1].
  - destruct Hcase as [Hrun | [(? & ? & ?) | (? & ? & ?)]]; [| done..].
    assert (Hf : fin (sock (net w)) = false) by (destruct (fin _); [by specialize (F eq_refl) | done]).
    destruct (goOn_loop h a w pc G Hrun Hp Ho) as (M & A1 & A2 & A3 & A4 & A5). split; [| by split; [| split]].
    split; cbn; try done; [apply M | intros E; cbn in E; congruence | by rewrite A1].
Qed.

(** The coroutine's part. *)
Lemma turn_runs (x : Running) :
  (forall d s, snd x <> Brings d :: s) -> (forall n s, snd x <> Takes n :: s) -> running (fst x) <> None ->
  exists a, turn x = (goOn a (fst x), tail (snd x)) /\ (snd x = [] -> a <> Interrupted) /\ brought (tail (snd x)) = brought (snd x).
Proof.
  destruct x as [w [| [d | n | a] s]]; cbn [fst snd]; intros H1 H2 Hrun; [| by destruct (H1 d s) | by destruct (H2 n s) | by exists a].
  exists (UpTo 0). cbn [turn]. unfold waits. by rewrite bool_decide_eq_false_2.
Qed.

Lemma network_or_not (s : list Moment) :
  ((exists d s', s = Brings d :: s') \/ (exists n s', s = Takes n :: s'))
  \/ ((forall d s', s <> Brings d :: s') /\ (forall n s', s <> Takes n :: s')).
Proof. destruct s as [| [d | n | a] s]; [by right | left; left; eauto | left; right; eauto | by right]. Qed.

Lemma goOn_running (h : Who) (a : SysAnswer) (w : World) :
  good w -> running w = Some h -> goOn a w = (match h with Reader => stepReader | Writer => stepWriter end) a w.
Proof.
  intros [I _] Hrun. unfold goOn. rewrite Hrun. unfold step, mbind, mget. rewrite Hrun, (i_alive _ _ _ I). by destruct h.
Qed.

(** A turn is the network's or the loop's, or the coroutine runs. *)
Lemma turn_cases (h : Who) (x : Running) (pc : Pc) :
  good (fst x) -> fin_ok x -> place h (fst x) = Some pc -> place (other h) (fst x) = None ->
  (turned h x (turn x) /\ moved (fst x) (fst (turn x)) /\ is_Some (place h (fst (turn x)))
    /\ (snd x = [] -> (rankOf h (fst (turn x)) < rankOf h (fst x))%nat))
  \/ (running (fst x) = Some h
       /\ exists a, turn x = (goOn a (fst x), tail (snd x)) /\ (snd x = [] -> a <> Interrupted) /\ brought (tail (snd x)) = brought (snd x)).
Proof.
  intros G F Hp Ho. destruct (network_or_not (snd x)) as [Hnet | [H1 H2]]; [left; apply (turn_loop h x pc); auto |].
  destruct (running (fst x)) as [h' |] eqn:Hrun; [right | left; apply (turn_loop h x pc); auto].
  split; [| by apply turn_runs; [.. | rewrite Hrun]].
  destruct (idle_absent _ _ G Ho) as [_ Hne]. rewrite Hrun in Hne. by destruct h, h'.
Qed.

(** A turn while somebody reads. *)
Lemma turn_reads (x : Running) (pc : Pc) (r : BufferReader) :
  good (fst x) -> fin_ok x -> reading (fst x) = Some (pc, r) -> writing (fst x) = None ->
  turned Reader x (turn x) /\ accepted (fst (turn x)) = accepted (fst x)
  /\ (((exists pc', reading (fst (turn x)) = Some (pc', r)) /\ delivered (fst (turn x)) = delivered (fst x)
        /\ (snd x = [] -> readerRank (fst (turn x)) < readerRank (fst x))%nat)
      \/ readOver (r_len r) (fst x) (fst (turn x))).
Proof.
  intros G F Hre Hwr. assert (Hp : place Reader (fst x) = Some pc) by (cbn; by rewrite Hre).
  assert (Ho : place (other Reader) (fst x) = None) by (cbn; by rewrite Hwr).
  destruct (turn_cases Reader x pc G F Hp Ho) as [(T & M & [pc' Hpc'] & Hrank) | (Hrun & a & -> & Ha & Hb)].
  - split; [done |]. split; [apply M |]. left. pose proof (m_reader _ _ M) as Hr. rewrite Hre in Hr. cbn in Hr, Hpc'.
    destruct (reading (fst (turn x))) as [[pc1 r1] |]; [| done]. cbn in Hr. injection Hr as ->.
    split; [by eexists |]. split; [apply M |]. by rewrite !readerRank_eq.
  - rewrite (goOn_running Reader a (fst x) G Hrun).
    destruct (stepReader_spec a (fst x) pc r G Hrun Hre) as (G' & E1 & E2 & E3 & E4 & Hend). cbn [fst].
    split; [split; cbn [fst snd place other]; [done | unfold fin_ok; cbn [fst snd]; rewrite E4; intros E; by rewrite (F E) | by rewrite E3, Hwr | by destruct (snd x) | by rewrite E2, Hb] |].
    split; [done |]. destruct Hend as [(H1 & H2 & H3) | H]; [left | by right]. split; [done |]. split; [done |]. auto.
Qed.

(** A turn while somebody writes. *)
Lemma turn_writes (x : Running) (pc : Pc) (wr : BufferWriter) :
  good (fst x) -> fin_ok x -> writing (fst x) = Some (pc, wr) -> reading (fst x) = None ->
  turned Writer x (turn x) /\ delivered (fst (turn x)) = delivered (fst x)
  /\ (((exists pc' wr', writing (fst (turn x)) = Some (pc', wr') /\ w_buf wr' = w_buf wr) /\ accepted (fst (turn x)) = accepted (fst x)
        /\ (snd x = [] -> writerRank (fst (turn x)) < writerRank (fst x))%nat)
      \/ writeOver (w_buf wr) (fst x) (fst (turn x))).
Proof.
  intros G F Hwr Hre. assert (Hp : place Writer (fst x) = Some pc) by (cbn; by rewrite Hwr).
  assert (Ho : place (other Writer) (fst x) = None) by (cbn; by rewrite Hre).
  destruct (turn_cases Writer x pc G F Hp Ho) as [(T & M & [pc' Hpc'] & Hrank) | (Hrun & a & -> & Ha & Hb)].
  - split; [done |]. split; [apply M |]. left. pose proof (m_writer _ _ M) as Hr. rewrite Hwr in Hr. cbn in Hr, Hpc'.
    destruct (writing (fst (turn x))) as [[pc1 wr1] |] eqn:Hw1; [| done]. cbn in Hr. injection Hr as ->.
    split; [by eexists _, _ |]. split; [apply M |]. intros E. rewrite (writerRank_eq _ _ _ Hw1), (writerRank_eq _ _ _ Hwr).
    specialize (Hrank E). lia.
  - rewrite (goOn_running Writer a (fst x) G Hrun).
    destruct (stepWriter_spec a (fst x) pc wr G Hrun Hwr) as ((G' & E1 & E2 & E3 & E4) & Hend). cbn [fst].
    split; [split; cbn [fst snd place other]; [done | unfold fin_ok; cbn [fst snd]; rewrite E4; intros E; by rewrite (F E) | by rewrite E3, Hre | by destruct (snd x) | by rewrite E2, Hb] |].
    split; [done |]. destruct Hend as [(H1 & H2 & H3) | H]; [left | by right]. split; [done |]. split; [done |]. auto.
Qed.
(** ** Calls *)

(** A connection nobody uses. *)
Definition idle (w : World) : Prop := running w = None /\ reading w = None /\ writing w = None.

(** From [x] to [y] a read gives [d]. *)
Record readPost (len : nat) (d : bytes) (x y : Running) : Prop := {
  rp_good : good (fst y) /\ fin_ok y /\ idle (fst y);
  rp_result : lastRead (fst y) = Some (Ok d);
  rp_data : tcpPending x = d ++ tcpPending y /\ (length d <= len)%nat /\ (d = [] -> len = 0%nat \/ tcpPending x = []);
  rp_sent : tcpSent y = tcpSent x
}.

Definition countdown (rank len : nat) (x : Running) : nat := match snd x with [] => rank | s => (length s + 11 * len + 10)%nat end.

Lemma countdown_turn (rank rank' len : nat) (x y : Running) :
  length (snd y) = pred (length (snd x)) -> (rank' <= 11 * len + 10)%nat -> (snd x = [] -> rank' < rank)%nat ->
  (countdown rank' len y < countdown rank len x)%nat.
Proof.
  unfold countdown. destruct (snd x) as [| m s]; cbn [length pred]; intros Hl Hb Hr.
  - apply nil_length_inv in Hl as ->. auto.
  - destruct (snd y); cbn in Hl |- *; lia.
Qed.

Lemma until_reads (n : nat) (x : Running) (pc : Pc) (r : BufferReader) :
  good (fst x) -> fin_ok x -> reading (fst x) = Some (pc, r) -> writing (fst x) = None ->
  (countdown (readerRank (fst x)) 0 x < n)%nat ->
  let y := until readDone n x in
  good (fst y) /\ fin_ok y /\ idle (fst y) /\ accepted (fst y) = accepted (fst x)
  /\ arrived (fst y) ++ brought (snd y) = arrived (fst x) ++ brought (snd x)
  /\ exists d, lastRead (fst y) = Some (Ok d) /\ delivered (fst y) = delivered (fst x) ++ d /\ (length d <= r_len r)%nat
     /\ (d = [] -> r_len r = 0%nat \/ (rx (sock (net (fst y))) = [] /\ fin (sock (net (fst y))) = true)).
Proof.
  revert x pc. induction n as [| n IH]; intros x pc G F Hre Hwr Hn; [lia |]. cbn [until].
  replace (readDone (fst x)) with false by (unfold readDone; by rewrite Hre).
  destruct (turn_reads x pc r G F Hre Hwr) as ([G' F' Ho Hs Ha] & Hac & [([pc' Hre'] & Hd & Hrank) | [[I1 I2] Hdata]]).
  - assert (Hwr' : writing (fst (turn x)) = None) by exact (proj1 (fmap_None _ _) Ho).
    destruct (IH (turn x) pc' G' F' Hre' Hwr') as (A & B & C & D & E & Hend).
    + assert (countdown (readerRank (fst (turn x))) 0 (turn x) < countdown (readerRank (fst x)) 0 x)%nat; [| lia].
      apply countdown_turn; [done | | done]. unfold readerRank. rewrite Hre'. pose proof rank_bound as Hb. apply Hb.
    + cbv zeta. rewrite Hac in D. rewrite Ha in E. rewrite Hd in Hend. done.
  - assert (Hwr' : writing (fst (turn x)) = None) by exact (proj1 (fmap_None _ _) Ho).
    replace (until readDone n (turn x)) with (turn x) by (destruct n; cbn [until]; unfold readDone; by rewrite I1). done.
Qed.

Lemma tcpRead_post (len : nat) (x : Running) :
  good (fst x) -> fin_ok x -> idle (fst x) -> readPost len (fst (tcpRead len x)) x (snd (tcpRead len x)).
Proof.
  intros G F (H1 & H2 & H3). pose proof G as [I Q]. unfold tcpRead. cbn [fst snd]. unfold step, mbind, mget.
  rewrite H1, H2, (i_alive _ _ _ I).
  change (bool_decide (@None Who = None) && bool_decide (@None (Pc * BufferReader) = None)) with true. cbv iota. cbn [mput snd].
  pose proof (tcp_inv_startRead fd id len (fst x) I H1 H2) as I1. set (w1 := set_reading _ _) in *.
  destruct (until_reads (length (snd x) + 11) (w1, snd x) (PTop WaitRead) (mkReader len [] None)) as (A & B & C & D & E & d & L1 & L2 & L3 & L4);
    [by split | done | done | done | |].
  { unfold countdown, readerRank. cbn [fst snd reading w1 set_reading]. pose proof rank_bound as Hb. destruct (snd x); cbn [length];
      match goal with |- (rank ?c ?f ?p ?q ?pc < _)%nat => specialize (Hb c f p q pc) | _ => idtac end; lia. }
  set (y := until readDone _ _) in *. rewrite L1. cbn [fst snd delivered accepted arrived w1 set_reading set_run] in *.
  pose proof (i_arrived _ _ _ I) as P1. pose proof (i_arrived _ _ _ (proj1 A)) as P2.
  assert (Hpend : tcpPending x = d ++ tcpPending y).
  { apply (app_inv_head (delivered (fst x))). unfold tcpPending. rewrite app_assoc, P1, <- E, <- P2, L2. by rewrite <- !app_assoc. }
  split; [done | done | |].
  - split; [done |]. split; [done |]. intros Hd. destruct (L4 Hd) as [? | [Hrx Hfin]]; [by left | right].
    rewrite Hpend, Hd. unfold tcpPending. by rewrite Hrx, (B Hfin).
  - unfold tcpSent. rewrite (i_sent _ _ _ I), (i_sent _ _ _ (proj1 A)), D, H3. by destruct C as (_ & _ & ->).
Qed.

(** What a write does. *)
Record writePost (d : bytes) (x y : Running) : Prop := {
  wp_good : good (fst y) /\ fin_ok y /\ idle (fst y);
  wp_pending : tcpPending y = tcpPending x;
  wp_sent : tcpSent y = tcpSent x ++ d
}.

Lemma writerRank_bound (w : World) (pc : Pc) (wr : BufferWriter) :
  writing w = Some (pc, wr) -> (writerRank w <= 11 * length (w_buf wr) + 10)%nat.
Proof.
  intros H. unfold writerRank. rewrite H. assert (length (rest wr) <= length (w_buf wr))%nat by (unfold rest; rewrite length_drop; lia).
  pose proof rank_bound as Hb. match goal with |- (_ + rank ?c ?f ?p ?q ?pc <= _)%nat => specialize (Hb c f p q pc) end. lia.
Qed.

Lemma until_writes (n : nat) (x : Running) (pc : Pc) (wr : BufferWriter) :
  good (fst x) -> fin_ok x -> writing (fst x) = Some (pc, wr) -> reading (fst x) = None ->
  (countdown (writerRank (fst x)) (length (w_buf wr)) x < n)%nat ->
  let y := until writeDone n x in
  good (fst y) /\ fin_ok y /\ idle (fst y) /\ delivered (fst y) = delivered (fst x)
  /\ arrived (fst y) ++ brought (snd y) = arrived (fst x) ++ brought (snd x) /\ accepted (fst y) = accepted (fst x) ++ w_buf wr.
Proof.
  revert x pc wr. induction n as [| n IH]; intros x pc wr G F Hwr Hre Hn; [lia |]. cbn [until].
  replace (writeDone (fst x)) with false by (unfold writeDone; by rewrite Hwr).
  destruct (turn_writes x pc wr G F Hwr Hre) as ([G' F' Ho Hs Ha] & Hac & [((pc' & wr' & Hwr' & Hbuf) & Hd & Hrank) | [[I1 I2] Hdata]]).
  - assert (Hre' : reading (fst (turn x)) = None) by exact (proj1 (fmap_None _ _) Ho).
    rewrite <- Hbuf in *. destruct (IH (turn x) pc' wr' G' F' Hwr' Hre') as (A & B & C & D & E & Hend).
    + assert (countdown (writerRank (fst (turn x))) (length (w_buf wr')) (turn x) < countdown (writerRank (fst x)) (length (w_buf wr')) x)%nat; [| lia].
      apply countdown_turn; [done | by eapply writerRank_bound | done].
    + cbv zeta. rewrite Hac in D. rewrite Ha in E. rewrite Hd in Hend. done.
  - assert (Hre' : reading (fst (turn x)) = None) by exact (proj1 (fmap_None _ _) Ho).
    replace (until writeDone n (turn x)) with (turn x) by (destruct n; cbn [until]; unfold writeDone; by rewrite I1). done.
Qed.

Lemma tcpWrite_post (d : bytes) (x : Running) :
  good (fst x) -> fin_ok x -> idle (fst x) -> writePost d x (tcpWrite d x).
Proof.
  intros G F (H1 & H2 & H3). pose proof G as [I Q]. unfold tcpWrite. cbn [fst snd]. unfold step, mbind, mget.
  rewrite H1, H3, (i_alive _ _ _ I).
  change (bool_decide (@None Who = None) && bool_decide (@None (Pc * BufferWriter) = None)) with true. cbv iota. cbn [mput snd].
  pose proof (tcp_inv_startWrite fd id d (fst x) I H1 H3) as I1. set (w1 := set_writing _ _) in *.
  destruct (until_writes (length (snd x) + 11 * length d + 11) (w1, snd x) (PTop WaitWrite) (mkWriter d 0 None)) as (A & B & C & D & E & L);
    [by split | done | done | done | |].
  { assert (Hb := writerRank_bound w1 (PTop WaitWrite) (mkWriter d 0 None) eq_refl). cbn [w_buf] in Hb |- *.
    unfold countdown. cbn [fst snd]. destruct (snd x); cbn [length]; lia. }
  set (y := until writeDone _ _) in *. cbn [fst snd delivered accepted arrived w1 set_writing set_run w_buf] in *.
  pose proof (i_arrived _ _ _ I) as P1. pose proof (i_arrived _ _ _ (proj1 A)) as P2. split; [done | |].
  - apply (app_inv_head (delivered (fst x))). unfold tcpPending. rewrite !app_assoc, P1. rewrite <- D at 1. by rewrite P2.
  - unfold tcpSent. rewrite (i_sent _ _ _ I), (i_sent _ _ _ (proj1 A)), L, H3. destruct C as (_ & _ & ->). by rewrite !app_nil_r.
Qed.
End stream.

(** ** The interface *)

Definition connected (x : Running) : Prop := exists fd id, 0 <= fd /\ good fd id (fst x) /\ fin_ok x /\ idle (fst x).

Lemma connected_read (len : nat) (x : Running) :
  connected x -> connected (snd (tcpRead len x))
  /\ tcpPending x = fst (tcpRead len x) ++ tcpPending (snd (tcpRead len x))
  /\ (length (fst (tcpRead len x)) <= len)%nat
  /\ (fst (tcpRead len x) = [] -> len = 0%nat \/ tcpPending x = [])
  /\ tcpSent (snd (tcpRead len x)) = tcpSent x.
Proof.
  intros (fd & id & Hpos & G & F & Hidle). destruct (tcpRead_post fd id Hpos len x G F Hidle) as [A B (C1 & C2 & C3) D].
  split; [by exists fd, id | done].
Qed.

Lemma connected_write (d : bytes) (x : Running) :
  connected x -> connected (tcpWrite d x) /\ tcpSent (tcpWrite d x) = tcpSent x ++ d /\ tcpPending (tcpWrite d x) = tcpPending x.
Proof.
  intros (fd & id & Hpos & G & F & Hidle). destruct (tcpWrite_post fd id Hpos d x G F Hidle) as [A B C].
  split; [by exists fd, id | done].
Qed.

(** A connection, with what is going to happen to it. *)
Definition TcpStream : Type := {x : Running | connected x}.

#[export, refine] Instance tcp_stream : ByteStream TcpStream := {
  stream_read n s := (fst (tcpRead n (proj1_sig s)), exist _ (snd (tcpRead n (proj1_sig s))) _);
  stream_write d s := exist _ (tcpWrite d (proj1_sig s)) _;
  pending s := tcpPending (proj1_sig s);
  sent s := tcpSent (proj1_sig s)
}.
Proof.
  - by apply (connected_read n), (proj2_sig s).
  - by apply (connected_write d), (proj2_sig s).
  - intros n s s' r [= <- <-]. by destruct (connected_read n (proj1_sig s) (proj2_sig s)).
  - intros d s. by destruct (connected_write d (proj1_sig s) (proj2_sig s)).
Defined.


(** ** A session's calls *)






