(* ===== verification/Http2ClientSession.v ===== *)
(** The client side of an HTTP/2 connection: [Http2ClientSession] of
    src/extensions/http2/src/Http2ClientSession.cc with its streams
    (Http2ClientStream.h) and what [Http2RequestSink] sends through it
    (Http2RequestSink.cc). *)

From Stdlib Require Import ZArith Lia String Strings.Byte.
From stdpp Require Import base numbers option list gmap.
From S2P Require Import Prelude CxxStd Endian UrlEncode ByteStream Split OrdMap HttpTypes CookieCodec HttpParser.
From S2P Require Import HpackTable Hpack Http2Frame Http2Request Http2Session.
Open Scope Z_scope.

(** ** State *)

(** [Http2ClientStream]: [response] is the state of [responsePromise],
    [received] what was sent into the pipe of the body, [open_] tells whether
    [bodySender] still holds its end. *)
Record Http2ClientStream : Type := mkClientStream {
  streamId : Z;
  response : option (outcome HttpResponse);
  decodedHeaders : DecodedHeaders;
  headersComplete : bool;
  received : list bytes;
  open_ : bool
}.

Definition newStream (id : Z) : Http2ClientStream := mkClientStream id None noHeaders false [] true.

(** What the programs that use the session do while it waits: they begin a
    request, and send its headers and its body. *)
Inductive event : Type :=
| Begin
| SendHeaders (streamId : Z) (req : HttpRequest) (endStream : bool)
| SendData (streamId : Z) (data : bytes) (endStream : bool).

(** The stream objects are shared between the session's map, the coroutine of
    the request and the handler at work: [objs_] holds them in the order they
    were made and [streams_] leads to them. *)
Record Http2ClientSession (S : Type) : Type := mkClientSession {
  reader_ : S;
  decoder_ : HpackTable;
  objs_ : list Http2ClientStream;
  streams_ : gmap Z nat;
  continuationStreamId_ : Z;
  headersOnly_ : bool;
  headerBlockBuf_ : bytes;
  scheme_ : bytes;
  nextStreamId_ : Z;
  goAwaySent_ : bool;
  settingsReceived_ : bool;
  running_ : bool;
  ready_ : bool;
  schedule_ : list (list event)
}.
Arguments mkClientSession {S} _ _ _ _ _ _ _ _ _ _ _ _ _ _.
Arguments reader_ {S} h.
Arguments decoder_ {S} h.
Arguments objs_ {S} h.
Arguments streams_ {S} h.
Arguments continuationStreamId_ {S} h.
Arguments headersOnly_ {S} h.
Arguments headerBlockBuf_ {S} h.
Arguments scheme_ {S} h.
Arguments nextStreamId_ {S} h.
Arguments goAwaySent_ {S} h.
Arguments settingsReceived_ {S} h.
Arguments running_ {S} h.
Arguments ready_ {S} h.
Arguments schedule_ {S} h.

Definition maxFrameSize_ : Z := 16384.

Definition newClientSession {S : Type} (stream : S) (scheme : bytes) (schedule : list (list event))
  : Http2ClientSession S :=
  mkClientSession stream (newTable kDefaultMaxSize) [] ∅ 0 false [] scheme 1 false false true false schedule.

(** ** [buildResponse] *)

Fixpoint buildResponseHeaders (hs : HttpHeaderMap) (resp : HttpResponse) : outcome HttpResponse :=
  match hs with
  | [] => Ok resp
  | (key, hdr) :: hs' =>
      let! resp :=
        (if decide (name_ hdr = str "set-cookie") then
           let! c := fromString (value_ hdr) in
           Ok (mkResponse (r_version resp) (r_statusCode resp) (r_statusReason resp) (r_headers resp)
                 (r_cookies resp ++ [c]) (r_transferMode resp) (r_contentLength resp) (r_shouldClose resp))
         else
           Ok (mkResponse (r_version resp) (r_statusCode resp) (r_statusReason resp)
                 (om_emplace key hdr (r_headers resp)) (r_cookies resp) (r_transferMode resp)
                 (r_contentLength resp) (r_shouldClose resp))) in
      buildResponseHeaders hs' resp
  end.

Definition buildResponse (dh : DecodedHeaders) : outcome HttpResponse :=
  let! code := (if decide (d_status dh = []) then Ok 200 else stoi (d_status dh)) in
  buildResponseHeaders (d_headers dh) (mkResponse kHttp11 (u16 code) [] [] [] ContentLength 0 false).

(** ** [Http2RequestSink] *)

(** [write(req, body)] *)
Definition sinkWrite (sid : Z) (req : HttpRequest) (body : bytes) : list event :=
  SendHeaders sid req (bool_decide (body = []))
  :: (if decide (body = []) then [] else [SendData sid body true]).

(** [write(req, bodyWriterFn)], with what the function writes. *)
Definition sinkWriteFn (sid : Z) (req : HttpRequest) (pieces : list bytes) : list event :=
  SendHeaders sid req false :: map (fun d => SendData sid d false) pieces ++ [SendData sid [] true].

(** ** Access to the members *)

Section session.
Context {S : Type} `{!ByteStream S} (reg : MethodRegistry).
Abbreviation Session := (Http2ClientSession S).

Definition set_reader (r : S) (h : Session) : Session :=
  mkClientSession r (decoder_ h) (objs_ h) (streams_ h) (continuationStreamId_ h) (headersOnly_ h)
    (headerBlockBuf_ h) (scheme_ h) (nextStreamId_ h) (goAwaySent_ h) (settingsReceived_ h) (running_ h)
    (ready_ h) (schedule_ h).
Definition set_decoder (t : HpackTable) (h : Session) : Session :=
  mkClientSession (reader_ h) t (objs_ h) (streams_ h) (continuationStreamId_ h) (headersOnly_ h)
    (headerBlockBuf_ h) (scheme_ h) (nextStreamId_ h) (goAwaySent_ h) (settingsReceived_ h) (running_ h)
    (ready_ h) (schedule_ h).
Definition set_objs (os : list Http2ClientStream) (h : Session) : Session :=
  mkClientSession (reader_ h) (decoder_ h) os (streams_ h) (continuationStreamId_ h) (headersOnly_ h)
    (headerBlockBuf_ h) (scheme_ h) (nextStreamId_ h) (goAwaySent_ h) (settingsReceived_ h) (running_ h)
    (ready_ h) (schedule_ h).
Definition set_streams (m : gmap Z nat) (h : Session) : Session :=
  mkClientSession (reader_ h) (decoder_ h) (objs_ h) m (continuationStreamId_ h) (headersOnly_ h)
    (headerBlockBuf_ h) (scheme_ h) (nextStreamId_ h) (goAwaySent_ h) (settingsReceived_ h) (running_ h)
    (ready_ h) (schedule_ h).
Definition set_block (sid : Z) (only : bool) (block : bytes) (h : Session) : Session :=
  mkClientSession (reader_ h) (decoder_ h) (objs_ h) (streams_ h) sid only block (scheme_ h)
    (nextStreamId_ h) (goAwaySent_ h) (settingsReceived_ h) (running_ h) (ready_ h) (schedule_ h).
Definition set_next (sid : Z) (h : Session) : Session :=
  mkClientSession (reader_ h) (decoder_ h) (objs_ h) (streams_ h) (continuationStreamId_ h) (headersOnly_ h)
    (headerBlockBuf_ h) (scheme_ h) sid (goAwaySent_ h) (settingsReceived_ h) (running_ h)
    (ready_ h) (schedule_ h).
(** [goAwaySent_], [settingsReceived_], [running_] and the state of
    [readyPromise_]. *)
Definition set_status (goAway settings running ready : bool) (h : Session) : Session :=
  mkClientSession (reader_ h) (decoder_ h) (objs_ h) (streams_ h) (continuationStreamId_ h) (headersOnly_ h)
    (headerBlockBuf_ h) (scheme_ h) (nextStreamId_ h) goAway settings running ready (schedule_ h).
Definition set_schedule (es : list (list event)) (h : Session) : Session :=
  mkClientSession (reader_ h) (decoder_ h) (objs_ h) (streams_ h) (continuationStreamId_ h) (headersOnly_ h)
    (headerBlockBuf_ h) (scheme_ h) (nextStreamId_ h) (goAwaySent_ h) (settingsReceived_ h) (running_ h)
    (ready_ h) es.

Definition modify (f : Session -> Session) : M Session unit := fun h => (Ok tt, f h).

Definition on_reader {A : Type} (m : M S A) : M Session A := fun h =>
  let '(o, r) := m (reader_ h) in (o, set_reader r h).
Definition on_decoder {A : Type} (m : M HpackTable A) : M Session A := fun h =>
  let '(o, t) := m (decoder_ h) in (o, set_decoder t h).

(** A change of the object [i]. *)
Definition on_stream (i : nat) (f : Http2ClientStream -> Http2ClientStream) : M Session unit :=
  modify (fun h => set_objs (alter f i (objs_ h)) h).

Definition erase (sid : Z) : M Session unit :=
  modify (fun h => set_streams (delete sid (streams_ h)) h).

(** ** What the programs do *)

Definition allocateStreamId : M Session Z :=
  let* h := mget in
  let* _ := modify (set_next (u32 (nextStreamId_ h + 2))) in
  mret (nextStreamId_ h).

(** [request] up to [sendRequest]. *)
Definition beginRequest : M Session Z :=
  let* sid := allocateStreamId in
  let* _ := modify (fun h => set_streams (<[sid := length (objs_ h)]> (streams_ h))
                              (set_objs (objs_ h ++ [newStream sid]) h)) in
  mret sid.

Definition sendHeaders (sid : Z) (req : HttpRequest) (endStream : bool) : M Session unit :=
  let* h := mget in
  let* block := mlift (requestBlock reg (scheme_ h) req) in
  on_reader (writeFrame FrameType.Headers (Z.lor FrameFlags.EndHeaders (flagsOf endStream)) sid block).

Definition sendData (sid : Z) (data : bytes) (endStream : bool) : M Session unit :=
  on_reader (writeFrame FrameType.Data (flagsOf endStream) sid data).

(** A request waits for [readyFuture_] before all else. *)
Definition happen (e : event) : M Session unit :=
  let* h := mget in
  if ready_ h then
    match e with
    | Begin => let* _ := beginRequest in mret tt
    | SendHeaders sid req fin => sendHeaders sid req fin
    | SendData sid data fin => sendData sid data fin
    end
  else mret tt.

Fixpoint happenAll (es : list event) : M Session unit :=
  match es with
  | [] => mret tt
  | e :: es' => let* _ := happen e in happenAll es'
  end.

(** [co_await writeMutex_.scoped_lock()], and the other waits. *)
Definition wait : M Session unit :=
  let* h := mget in
  match schedule_ h with
  | [] => mret tt
  | es :: rest =>
      let* _ := modify (set_schedule rest) in
      happenAll es
  end.

(** ** Sending *)

Definition sendClientPreface : M Session unit :=
  let* _ := wait in
  on_reader (streamWriteM kClientPreface).

Definition sendSettingsAck : M Session unit :=
  let* _ := wait in
  on_reader (writeFrame FrameType.Settings FrameFlags.Ack 0 []).

Definition sendRstStream (sid errorCode : Z) : M Session unit :=
  let* _ := wait in
  on_reader (writeFrame FrameType.RstStream 0 sid (octets4 errorCode)).

(** ** The handlers *)

(** [responsePromise.set_value] and [set_exception]. *)
Definition setResponse (i : nat) (r : outcome HttpResponse) : M Session unit :=
  let* h := mget in
  match objs_ h !! i with
  | None => mlift Undefined
  | Some s =>
      match response s with
      | Some _ => mthrow FutureError
      | None =>
          on_stream i (fun s => mkClientStream (streamId s) (Some r) (decodedHeaders s) (headersComplete s)
                                  (received s) (open_ s))
      end
  end.

(** [bodySender.reset()] *)
Definition closeBody (i : nat) : M Session unit :=
  on_stream i (fun s => mkClientStream (streamId s) (response s) (decodedHeaders s) (headersComplete s)
                          (received s) false).

(** [bodySender->send(data)] *)
Definition sendBody (i : nat) (data : bytes) : M Session unit :=
  let* h := mget in
  match objs_ h !! i with
  | None => mlift Undefined
  | Some s =>
      if open_ s then
        on_stream i (fun s => mkClientStream (streamId s) (response s) (decodedHeaders s) (headersComplete s)
                                (received s ++ [data]) (open_ s))
      else mlift Undefined
  end.

Definition finaliseHeaders : M Session unit :=
  let* h := mget in
  let sid := continuationStreamId_ h in
  let block := headerBlockBuf_ h in
  let* _ := modify (set_block 0 (headersOnly_ h) block) in
  match streams_ h !! sid with
  | None => mret tt
  | Some i =>
      let* decoded := mtry (let* dh := on_decoder (decode block) in mret (Some dh)) (fun _ => mret None) in
      match decoded with
      | None =>
          let* _ := setResponse i (Throw (RuntimeError "HPACK decode error")) in
          erase sid
      | Some dh =>
          let* _ := modify (fun h => set_block (continuationStreamId_ h) (headersOnly_ h) [] h) in
          let* _ := on_stream i (fun s => mkClientStream (streamId s) (response s) dh true (received s) (open_ s)) in
          let* _ := (if headersOnly_ h then closeBody i else mret tt) in
          let* resp := mlift (buildResponse dh) in
          setResponse i (Ok resp)
      end
  end.

(** [payload + offset .. + blockLen]: with more padding than payload the range
    ends before it begins. *)
Definition handleHeaders (f : Frame) : M Session unit :=
  let sid := f_streamId f in
  let* h := mget in
  if (sid =? 0) || (sid mod 2 =? 0) then mret tt
  else
    match streams_ h !! sid with
    | None => sendRstStream sid ErrorCode.StreamClosed
    | Some _ =>
        let payLen := size (f_payload f) in
        let* (padLen, offset) :=
          (if has FrameFlags.Padded (f_flags f) then let* p := mlift (at_payload f 0) in mret (p, 1)
           else mret (0, 0)) in
        let offset := if has FrameFlags.Priority (f_flags f) then offset + 5 else offset in
        if payLen <? offset + padLen then mlift Undefined
        else
          let blockLen := payLen - offset - padLen in
          let block := take (Z.to_nat blockLen) (drop (Z.to_nat offset) (f_payload f)) in
          let* _ := modify (set_block sid (has FrameFlags.EndStream (f_flags f)) block) in
          if has FrameFlags.EndHeaders (f_flags f) then finaliseHeaders else mret tt
    end.

Definition handleContinuation (f : Frame) : M Session unit :=
  let* h := mget in
  if bool_decide (f_streamId f <> continuationStreamId_ h) then mret tt
  else
    let* _ := modify (set_block (continuationStreamId_ h) (headersOnly_ h) (headerBlockBuf_ h ++ f_payload f)) in
    if has FrameFlags.EndHeaders (f_flags f) then finaliseHeaders else mret tt.

Definition handleData (f : Frame) : M Session unit :=
  let sid := f_streamId f in
  let* h := mget in
  match streams_ h !! sid with
  | None => sendRstStream sid ErrorCode.StreamClosed
  | Some i =>
      let payLen := size (f_payload f) in
      let* (padLen, offset) :=
        (if has FrameFlags.Padded (f_flags f) then let* p := mlift (at_payload f 0) in mret (p, 1)
         else mret (0, 0)) in
      if payLen <? offset + padLen then mlift Undefined
      else
        let dataLen := payLen - offset - padLen in
        let* _ :=
          (if 0 <? dataLen then
             let* _ := sendBody i (take (Z.to_nat dataLen) (drop (Z.to_nat offset) (f_payload f))) in
             let wu := octets31 (u32 dataLen) in
             let* _ := wait in
             let* _ := on_reader (writeFrame FrameType.WindowUpdate 0 0 wu) in
             on_reader (writeFrame FrameType.WindowUpdate 0 sid wu)
           else mret tt) in
        if has FrameFlags.EndStream (f_flags f) then
          let* _ := closeBody i in
          erase sid
        else mret tt
  end.

Definition handleSettings (f : Frame) : M Session unit :=
  if has FrameFlags.Ack (f_flags f) then
    modify (fun h => set_status (goAwaySent_ h) true (running_ h) (ready_ h) h)
  else sendSettingsAck.

Definition handlePing (f : Frame) : M Session unit :=
  if has FrameFlags.Ack (f_flags f) then mret tt
  else if negb (size (f_payload f) =? 8) then mret tt
  else
    let* _ := wait in
    on_reader (writeFrame FrameType.Ping FrameFlags.Ack 0 (f_payload f)).

(** ** [run] *)

Definition handleFrame (f : Frame) : M Session unit :=
  if f_type f =? FrameType.Headers then handleHeaders f
  else if f_type f =? FrameType.Continuation then handleContinuation f
  else if f_type f =? FrameType.Data then handleData f
  else if f_type f =? FrameType.Settings then handleSettings f
  else if f_type f =? FrameType.WindowUpdate then mret tt
  else if f_type f =? FrameType.Ping then handlePing f
  else if f_type f =? FrameType.RstStream then erase (f_streamId f)
  else if f_type f =? FrameType.GoAway then
    modify (fun h => set_status true (settingsReceived_ h) (running_ h) (ready_ h) h)
  else mret tt.

(** One round on a frame; [false] leaves the loop. *)
Definition onFrame (f : Frame) : M Session bool :=
  let* h := mget in
  if negb (continuationStreamId_ h =? 0) && negb (f_type f =? FrameType.Continuation) then mret false
  else mtry (let* _ := handleFrame f in mret true) (fun _ => mret false).

Fixpoint runLoop (fuel : nat) : M Session unit := fun h =>
  if goAwaySent_ h then (Ok tt, h)
  else
    match fuel with
    | O => (Diverge, h)
    | Datatypes.S fuel' =>
        (let* _ := wait in
         let* maybeFrame := on_reader (readFrame maxFrameSize_) in
         match maybeFrame with
         | None => mret tt
         | Some f =>
             let* go := onFrame f in
             if go then runLoop fuel' else mret tt
         end) h
    end.

(** The loop of [run]; every frame has nine octets. *)
Definition readLoop : M Session unit :=
  fun h => runLoop (Datatypes.S (length (pending (reader_ h)))) h.

Definition run : M Session unit :=
  let* _ := sendClientPreface in
  let* _ := on_reader (writeFrame FrameType.Settings 0 0 []) in
  let* _ := modify (fun h => set_status (goAwaySent_ h) (settingsReceived_ h) (running_ h) true h) in
  let* _ := readLoop in
  modify (fun h => set_status (goAwaySent_ h) (settingsReceived_ h) false (ready_ h) h).
End session.
