(* ===== verification/Http2ClientSpec.v ===== *)
(** What the client side of an HTTP/2 connection promises: it ends, what a request
    got is final; and what it does with the responses of this library's server:
    it refuses them. *)

From Stdlib Require Import ZArith Lia String Strings.Byte.
From stdpp Require Import base numbers option list gmap.
From S2P Require Import Prelude CxxStd Endian UrlEncode ByteStream Split OrdMap HttpTypes CookieCodec HttpParser.
From S2P Require Import HpackTable Hpack Http2Frame Http2Request Http2Session Http2SessionInv Http2ClientSession.
Open Scope Z_scope.

(** ** [buildResponse] always ends *)

Lemma sv_find_after (s : bytes) (c : byte) (pos : Z) :
  sv_find s c pos = npos \/ pos <= sv_find s c pos.
Proof.
  unfold sv_find, sv_find_if, to_pos. destruct (_ <=? pos); [by left |].
  destruct (index_of _ _); [right; lia | by left].
Qed.

Lemma sv_substr_ends (s : bytes) (pos n : Z) : sv_substr s pos n <> Diverge.
Proof. unfold sv_substr. by destruct (_ <? _). Qed.

Lemma obind_ends {A B : Type} (o : outcome A) (k : A -> outcome B) :
  o <> Diverge -> (forall a, k a <> Diverge) -> obind o k <> Diverge.
Proof. by destruct o; cbn. Qed.

Lemma trim_ends (s : bytes) : trim s <> Diverge.
Proof. unfold trim. destruct (_ =? _); [done | apply sv_substr_ends]. Qed.

Create HintDb ends.
#[local] Hint Resolve sv_substr_ends trim_ends : ends.

(** A chain of calls, a test after each. *)
Ltac ends :=
  repeat first
    [ apply obind_ends; [solve [auto with ends] | intro]
    | case_decide
    | match goal with |- (if ?b then _ else _) <> _ => destruct b end
    | done
    | solve [auto with ends] ].

Lemma applyAttribute_ends (part : bytes) (c : Cookie) : applyAttribute part c <> Diverge.
Proof. unfold applyAttribute. ends. by destruct (stoi _). Qed.

Lemma splitLoop_ends {A : Type} (delim : byte) (body : bytes -> A -> outcome A)
    (fuel : nat) (s : bytes) (start : Z) (acc : A) :
  (forall part acc, body part acc <> Diverge) -> size s - start < Z.of_nat fuel ->
  splitLoop delim body fuel s start acc <> Diverge.
Proof.
  intros Hb. revert start acc. induction fuel as [| fuel IH]; intros start acc Hf; cbn [splitLoop];
    (destruct (Z.ltb_spec start (size s)); [| done]); [lia |].
  apply obind_ends; [apply sv_substr_ends |]. intros part. apply obind_ends; [apply Hb |]. intros acc'.
  destruct (sv_find_after s delim start) as [-> | Hp]; [by rewrite Z.eqb_refl |].
  destruct (_ =? npos); [done |]. apply IH. lia.
Qed.

Lemma fromString_ends (raw : bytes) : fromString raw <> Diverge.
Proof.
  unfold fromString. ends. apply splitLoop_ends; [apply applyAttribute_ends |].
  pose proof (size_nonneg raw). unfold size at 1.
  destruct (sv_find_after raw x3b 0) as [-> | Hp]; [rewrite Z.eqb_refl; lia |].
  destruct (_ =? npos); lia.
Qed.

Lemma buildResponse_ends (dh : DecodedHeaders) : buildResponse dh <> Diverge.
Proof.
  unfold buildResponse. apply obind_ends; [case_decide; [done |]; unfold stoi; by cases |]. intros code.
  generalize (mkResponse kHttp11 (u16 code) [] [] [] ContentLength 0 false).
  induction (d_headers dh) as [| [k hdr] hs IH]; intros resp; [done |]. cbn [buildResponseHeaders].
  apply obind_ends; [| intros; apply IH]. case_decide; [| done].
  apply obind_ends; [apply fromString_ends | done].
Qed.

(** ** Encoding a request always succeeds *)

Lemma encodeLiteral_total (name value out : bytes) : exists w, encodeLiteral name value out = Ok w.
Proof.
  unfold encodeLiteral. destruct (encodeStr_total (encodeInt out 0 4 0) name) as (w & ->). apply encodeStr_total.
Qed.

Lemma requestBlock_total (reg : MethodRegistry) (scheme : bytes) (req : HttpRequest) :
  exists w, requestBlock reg scheme req = Ok w.
Proof.
  unfold requestBlock.
  destruct (encodeLiteral_total (str ":method") (methodToString reg (method req)) []) as (w1 & ->). cbn [obind].
  edestruct (encodeLiteral_total (str ":path")) as (w2 & ->). cbn [obind].
  edestruct (encodeLiteral_total (str ":scheme") scheme w2) as (w3 & ->). cbn [obind].
  assert (Hh : exists w, encodeRequestHeaders (headers req) w3 = Ok w).
  { revert w3. induction (headers req) as [| [k h] hs IH]; intros w3; [by eexists |]. cbn [encodeRequestHeaders].
    destruct (decide _); [| destruct (connectionHeader h); [apply IH |]];
      edestruct encodeLiteral_total as (w & ->); apply IH. }
  destruct Hh as (w4 & ->). cbn [obind]. destruct (decide _); [by eexists |]. apply encodeLiteral_total.
Qed.

(** ** The invariant *)

(** The id of the [i]-th stream. *)
Definition idOf (i : nat) : Z := u32 (1 + 2 * Z.of_nat i).

Lemma idOf_odd (i : nat) : idOf i mod 2 = 1.
Proof.
  unfold idOf, u32. rewrite Z.mod_mod_divide by (by exists (2 ^ 31)).
  by rewrite (Z.mul_comm 2), Z.mod_add by lia.
Qed.

Lemma idOf_next (i : nat) : u32 (idOf i + 2) = idOf (Datatypes.S i).
Proof. unfold idOf, u32. rewrite Zplus_mod_idemp_l. f_equal. lia. Qed.

Lemma idOf_inj (i j : nat) :
  1 + 2 * Z.of_nat i < 2 ^ 32 -> 1 + 2 * Z.of_nat j < 2 ^ 32 -> idOf i = idOf j -> i = j.
Proof. unfold idOf, u32. intros Hi Hj. rewrite !Z.mod_small by lia. lia. Qed.

(** What may become of a stream object: its answer and its end are final, and
    what its pipe received stays. *)
Record stream_grows (o o' : Http2ClientStream) : Prop := {
  sg_id : streamId o' = streamId o;
  sg_response : forall r, response o = Some r -> response o' = Some r;
  sg_received : received o `prefix_of` received o';
  sg_closed : open_ o = false -> open_ o' = false /\ received o' = received o
}.

#[export] Instance stream_grows_preorder : PreOrder stream_grows.
Proof.
  split; [intros o; by split |]. intros o1 o2 o3 [A1 A2 A3 A4] [B1 B2 B3 B4].
  split; [congruence | auto | by trans (received o2) |].
  intros Hc. destruct (A4 Hc) as [Hc2 Hr]. destruct (B4 Hc2) as [Hc3 Hr3]. split; congruence.
Qed.

Definition objs_grow (os os' : list Http2ClientStream) : Prop :=
  forall i o, os !! i = Some o -> exists o', os' !! i = Some o' /\ stream_grows o o'.

#[export] Instance objs_grow_preorder : PreOrder objs_grow.
Proof.
  split; [intros os i o Ho; by exists o |]. intros os1 os2 os3 H12 H23 i o Ho.
  destruct (H12 i o Ho) as (o2 & Ho2 & G12). destruct (H23 i o2 Ho2) as (o3 & Ho3 & G23).
  exists o3. split; [done | by trans o2].
Qed.

Lemma objs_grow_app (os new : list Http2ClientStream) : objs_grow os (os ++ new).
Proof. intros i o Ho. exists o. split; [by apply lookup_app_l_Some | done]. Qed.

Lemma objs_grow_alter (f : Http2ClientStream -> Http2ClientStream) (i : nat) (os : list Http2ClientStream) :
  (forall o, os !! i = Some o -> stream_grows o (f o)) -> objs_grow os (alter f i os).
Proof.
  intros Hf j o Ho. destruct (decide (j = i)) as [-> | Hne].
  - exists (f o). split; [by rewrite list_lookup_alter_eq, Ho | by apply Hf].
  - exists o. by rewrite list_lookup_alter_ne.
Qed.

Section invariant.
Context {S : Type} `{!ByteStream S} (reg : MethodRegistry).
Abbreviation Session := (Http2ClientSession S).

Record client_ok (h : Session) : Prop := {
  co_ids : forall i o, objs_ h !! i = Some o -> streamId o = idOf i;
  co_next : nextStreamId_ h = idOf (length (objs_ h));
  co_streams : forall sid i, streams_ h !! sid = Some i -> (i < length (objs_ h))%nat /\ idOf i = sid
}.

(** The requests yet to begin. *)
Definition isBegin (e : event) : bool := match e with Begin => true | _ => false end.
Definition begins (es : list (list event)) : nat := length (List.filter isBegin (concat es)).

(** What the programs change: streams are added, and nothing else that matters
    to the session. *)
Record quietly (h h' : Session) : Prop := {
  qu_ok : client_ok h -> client_ok h';
  qu_pending : pending (reader_ h') = pending (reader_ h);
  qu_decoder : decoder_ h' = decoder_ h;
  qu_block : continuationStreamId_ h' = continuationStreamId_ h /\ headersOnly_ h' = headersOnly_ h
    /\ headerBlockBuf_ h' = headerBlockBuf_ h;
  qu_goAway : goAwaySent_ h' = goAwaySent_ h;
  qu_objs : exists new, objs_ h' = objs_ h ++ new;
  qu_streams : client_ok h -> forall sid, streams_ h' !! sid = streams_ h !! sid
    \/ exists j, (length (objs_ h) <= j < length (objs_ h'))%nat /\ sid = idOf j;
  qu_begins : (begins (schedule_ h') + length (objs_ h') <= begins (schedule_ h) + length (objs_ h))%nat
}.

#[export] Instance quietly_preorder : PreOrder quietly.
Proof.
  split; [intros h; split; try done; [by exists []; rewrite app_nil_r | by left] |].
  intros h1 h2 h3 [A1 A2 A3 A4 A5 [na A6] A7 A8] [B1 B2 B3 B4 B5 [nb B6] B7 B8].
  split; [auto | congruence | congruence | | congruence | | | lia].
  - destruct A4 as (? & ? & ?), B4 as (? & ? & ?). repeat split; congruence.
  - exists (na ++ nb). by rewrite B6, A6, app_assoc.
  - intros Hok sid. rewrite B6, A6 in *. rewrite !length_app in *.
    destruct (B7 (A1 Hok) sid) as [-> | (j & Hj & ->)]; [| right; exists j; split; [lia | done]].
    destruct (A7 Hok sid) as [-> | (j & Hj & ->)]; [by left | right; exists j; split; [lia | done]].
Qed.

(** [m] never fails and changes only what the programs change. *)
Definition quiet {A : Type} (m : M Session A) : Prop :=
  forall h, exists a h', m h = (Ok a, h') /\ quietly h h'.

Lemma client_quiet_ret {A : Type} (a : A) : quiet (mret a).
Proof. intros h. by eexists _, _. Qed.

Lemma quiet_get {A : Type} (k : Session -> M Session A) :
  (forall h, quiet (k h)) -> quiet (mbind mget k).
Proof. intros Hk h. apply (Hk h). Qed.

Lemma client_quiet_bind {A B : Type} (m : M Session A) (k : A -> M Session B) :
  quiet m -> (forall a, quiet (k a)) -> quiet (mbind m k).
Proof.
  intros Hm Hk h. destruct (Hm h) as (a & h1 & H1 & Hu1). destruct (Hk a h1) as (b & h2 & H2 & Hu2).
  exists b, h2. split; [by rewrite (mbind_ok _ _ _ _ _ H1) | by trans h1].
Qed.

(** Writing to the connection. *)
Lemma quiet_reader (m : M S unit) :
  (forall s, exists s', m s = (Ok tt, s') /\ pending s' = pending s) -> quiet (on_reader m).
Proof.
  intros Hm h. destruct (Hm (reader_ h)) as (r & Hr & Hp).
  exists tt, (set_reader r h). unfold on_reader. rewrite Hr. split; [done |].
  split; try done; [by intros [? ? ?]; split | by exists []; cbn; rewrite app_nil_r | by left].
Qed.

Lemma client_quiet_write (type flags sid : Z) (payload : bytes) : quiet (on_reader (writeFrame type flags sid payload)).
Proof.
  apply quiet_reader. intros s. destruct (writeFrame_ok type flags sid payload s) as (s' & H & _ & Hp). eauto.
Qed.

Lemma begin_quietly (h : Session) (es : list (list event)) :
  (begins es + 1 <= begins (schedule_ h))%nat ->
  let sid := nextStreamId_ h in
  quietly h (set_streams (<[sid := length (objs_ h)]> (streams_ h))
    (set_objs (objs_ h ++ [newStream sid]) (set_next (u32 (sid + 2)) (set_schedule es h)))).
Proof.
  intros Hes sid. split; try done.
  - intros [H1 H2 H3]. split; cbn.
    + intros i o Ho. apply lookup_app_Some in Ho as [Ho | [Hge Ho]]; [by apply H1 |].
      apply list_lookup_singleton_Some in Ho as [Hi <-]. cbn [streamId newStream]. unfold sid. rewrite H2.
      apply (f_equal idOf). cbn in *. lia.
    + unfold sid. rewrite H2, idOf_next, length_app. f_equal. cbn. lia.
    + intros sid' i Hi. rewrite length_app. apply lookup_insert_Some in Hi as [[<- <-] | [_ Hi]].
      * split; [cbn; lia | by unfold sid; rewrite H2].
      * apply H3 in Hi as [? ?]. split; [lia | done].
  - cbn. by eexists.
  - intros [H1 H2 H3] sid'. cbn. destruct (decide (sid' = sid)) as [-> | Hne].
    + right. exists (length (objs_ h)). rewrite length_app. split; [cbn; lia | done].
    + left. by rewrite lookup_insert_ne.
  - cbn -[begins]. rewrite length_app. cbn [length]. lia.
Qed.

Lemma begins_cons (es : list event) (rest : list (list event)) :
  begins (es :: rest) = (length (List.filter isBegin es) + begins rest)%nat.
Proof. unfold begins. cbn [concat]. by rewrite List.filter_app, length_app. Qed.

(** An event that is not yet out of the schedule. *)
Lemma happen_quietly (e : event) (es : list event) (rest : list (list event)) (h : Session) :
  schedule_ h = (e :: es) :: rest ->
  exists h', happen reg e (set_schedule rest h) = (Ok tt, h') /\ schedule_ h' = rest
    /\ quietly h (set_schedule (es :: rest) h').
Proof.
  intros Hsch.
  assert (Hskip : forall s, pending s = pending (reader_ h) ->
    quietly h (set_schedule (es :: rest) (set_reader s (set_schedule rest h)))).
  { intros s Hs. split; try done; [by intros [? ? ?]; split | by exists []; cbn; rewrite app_nil_r | by left |].
    cbn -[begins]. rewrite Hsch, !begins_cons. cbn [List.filter]. destruct (isBegin e); cbn [length]; lia. }
  assert (Hself : forall h1 : Session, set_reader (reader_ h1) h1 = h1) by (by intros []).
  unfold happen. rewrite mbind_get. change (ready_ (set_schedule rest h)) with (ready_ h).
  destruct (ready_ h); [| exists (set_schedule rest h); split; [done |]; split; [done |];
    rewrite <- (Hself (set_schedule rest h)); by apply Hskip].
  destruct e as [| sid req fin | sid data fin].
  - eexists. split; [reflexivity |]. split; [done |].
    pose proof (begin_quietly h (es :: rest)) as Hq. cbn zeta in Hq. apply Hq. rewrite Hsch, !begins_cons. cbn [List.filter isBegin length]. lia.
  - unfold sendHeaders. rewrite mbind_get.
    destruct (requestBlock_total reg (scheme_ (set_schedule rest h)) req) as (w & Hw).
    rewrite (mbind_lift _ _ _ _ Hw). unfold on_reader. cbn [reader_ set_schedule].
    edestruct writeFrame_ok as (s & -> & _ & Hp). eexists. split; [done |]. split; [done |]. by apply Hskip.
  - unfold sendData, on_reader. cbn [reader_ set_schedule].
    edestruct writeFrame_ok as (s & -> & _ & Hp). eexists. split; [done |]. split; [done |]. by apply Hskip.
Qed.

Lemma quietly_unschedule (h : Session) (rest : list (list event)) :
  schedule_ h = [] :: rest -> quietly h (set_schedule rest h).
Proof.
  intros Hsch. split; try done; [by intros [? ? ?]; split | by exists []; cbn; rewrite app_nil_r | by left |].
  cbn -[begins]. rewrite Hsch, begins_cons. done.
Qed.

Lemma client_quiet_wait : quiet (wait reg).
Proof.
  intros h. unfold wait. rewrite mbind_get. destruct (schedule_ h) as [| es rest] eqn:Hsch; [by eexists _, _ |].
  change (exists a h', happenAll reg es (set_schedule rest h) = (Ok a, h') /\ quietly h h').
  revert h Hsch. induction es as [| e es IH]; intros h Hsch.
  - exists tt, (set_schedule rest h). split; [done | by apply quietly_unschedule].
  - destruct (happen_quietly e es rest h Hsch) as (h1 & H1 & Hs1 & Hq1).
    destruct (IH (set_schedule (es :: rest) h1) eq_refl) as (a & h2 & H2 & Hq2).
    assert (Hsame : set_schedule rest (set_schedule (es :: rest) h1) = h1)
      by (destruct h1; cbn in *; by rewrite Hs1).
    rewrite Hsame in H2. exists a, h2. cbn [happenAll]. rewrite (mbind_ok _ _ _ _ _ H1).
    split; [done | by trans (set_schedule (es :: rest) h1)].
Qed.

Lemma client_quiet_rst (sid code : Z) : quiet (sendRstStream reg sid code).
Proof. apply client_quiet_bind; [apply client_quiet_wait |]. intros _. apply client_quiet_write. Qed.

(** *** The handlers keep it *)

(** The invariant, with the objects of before, what is left to read and how
    much of a header block may have been collected. *)
Definition good (os : list Http2ClientStream) (p : bytes) (n : Z) (h : Session) : Prop :=
  client_ok h /\ objs_grow os (objs_ h) /\ pending (reader_ h) = p /\ size (headerBlockBuf_ h) <= n.

Lemma good_quietly (os : list Http2ClientStream) (p : bytes) (n : Z) (h h' : Session) :
  quietly h h' -> good os p n h -> good os p n h'.
Proof.
  intros [Hok Hp _ (_ & _ & Hb) _ [new Ho] _ _] (G1 & G2 & G3 & G4). split; [auto |].
  split; [rewrite Ho; etrans; [exact G2 | apply objs_grow_app] |]. split; congruence.
Qed.

Lemma good_more (os : list Http2ClientStream) (p : bytes) (n m : Z) (h : Session) :
  n <= m -> good os p n h -> good os p m h.
Proof. intros Hle (H1 & H2 & H3 & H4). split; [done |]. split; [done |]. split; [done | lia]. Qed.

Lemma good_stream (os : list Http2ClientStream) (p : bytes) (n : Z) (h : Session) (i : nat)
    (f : Http2ClientStream -> Http2ClientStream) :
  (forall o, objs_ h !! i = Some o -> stream_grows o (f o)) -> good os p n h ->
  good os p n (set_objs (alter f i (objs_ h)) h).
Proof.
  intros Hf ([H1 H2 H3] & G2 & G3 & G4). split; [| split; [| done]].
  - split; cbn [objs_ set_objs nextStreamId_ streams_]; [| by rewrite length_alter |].
    + intros j o Hj. destruct (decide (j = i)) as [-> | Hne].
      * rewrite list_lookup_alter_eq in Hj. destruct (objs_ h !! i) as [o1 |] eqn:Ho; cbn in Hj; [| done].
        injection Hj as <-. rewrite (sg_id _ _ (Hf o1 eq_refl)). by apply H1.
      * rewrite list_lookup_alter_ne in Hj by done. by apply H1.
    + intros sid j Hj. rewrite length_alter. by apply H3.
  - etrans; [exact G2 | by apply objs_grow_alter].
Qed.

Lemma good_erase (os : list Http2ClientStream) (p : bytes) (n : Z) (h : Session) (sid : Z) :
  good os p n h -> good os p n (set_streams (delete sid (streams_ h)) h).
Proof.
  intros ([H1 H2 H3] & G2). split; [| done]. split; [done | done |].
  intros sid' i Hi. apply H3. cbn in Hi. by apply lookup_delete_Some in Hi as [_ Hi].
Qed.

Lemma good_block (os : list Http2ClientStream) (p : bytes) (n : Z) (h : Session) (sid : Z) (only : bool)
    (block : bytes) :
  size block <= n -> good os p n h -> good os p n (set_block sid only block h).
Proof. intros Hn (H1 & G2 & G3 & _). split; [by destruct H1; split |]. split; [done |]. by split. Qed.

Lemma good_decoder (os : list Http2ClientStream) (p : bytes) (n : Z) (h : Session) (t : HpackTable) :
  good os p n h -> good os p n (set_decoder t h).
Proof. intros (H1 & G2). split; [by destruct H1; split | done]. Qed.

Lemma good_status (os : list Http2ClientStream) (p : bytes) (n : Z) (h : Session) (a b c d : bool) :
  good os p n h -> good os p n (set_status a b c d h).
Proof. intros (H1 & G2). split; [by destruct H1; split | done]. Qed.

Lemma client_quiet_keeps {A : Type} (m : M Session A) (os : list Http2ClientStream) (p : bytes) (n : Z) (h : Session) :
  quiet m -> good os p n h -> keeps m h (good os p n) (fun _ _ => True).
Proof.
  intros Hm Hi. destruct (Hm h) as (a & h' & H & Hu). unfold keeps. rewrite H. cbn.
  by split; [eapply good_quietly |].
Qed.

Lemma modify_keeps {A : Type} (f : Session -> Session) (k : unit -> M Session A) (h : Session)
    (I : Session -> Prop) (Q : A -> Session -> Prop) :
  keeps (k tt) (f h) I Q -> keeps (mbind (modify f) k) h I Q.
Proof. done. Qed.

Lemma modify_ends (f : Session -> Session) (h : Session) (I : Session -> Prop) :
  I (f h) -> keeps (modify f) h I (fun _ _ => True).
Proof. by repeat split. Qed.

Lemma quiet_then {A B : Type} (m : M Session A) (k : A -> M Session B) (os : list Http2ClientStream)
    (p : bytes) (n : Z) (h : Session) (Q : B -> Session -> Prop) :
  quiet m -> good os p n h -> (forall a h', good os p n h' -> keeps (k a) h' (good os p n) Q) ->
  keeps (mbind m k) h (good os p n) Q.
Proof. intros Hm Hi Hk. eapply keeps_bind; [by apply client_quiet_keeps |]. auto. Qed.

Lemma keeps_undefined {A : Type} (h : Session) (I : Session -> Prop) (Q : A -> Session -> Prop) :
  I h -> keeps (mlift Undefined) h I Q.
Proof. by repeat split. Qed.

Lemma setResponse_keeps (i : nat) (r : outcome HttpResponse) (os : list Http2ClientStream) (p : bytes) (n : Z)
    (h : Session) :
  good os p n h -> keeps (setResponse i r) h (good os p n) (fun _ _ => True).
Proof.
  intros Hi. unfold setResponse. apply keeps_get.
  destruct (objs_ h !! i) as [o |] eqn:Ho; [| by apply keeps_undefined].
  destruct (response o) as [r' |] eqn:Hr; [by apply keeps_throw |].
  apply modify_ends, good_stream; [| done]. intros o' Ho'. assert (o' = o) as -> by congruence.
  split; cbn; [done | by rewrite Hr | done | done].
Qed.

Lemma closeBody_keeps (i : nat) (os : list Http2ClientStream) (p : bytes) (n : Z) (h : Session) :
  good os p n h -> keeps (closeBody i) h (good os p n) (fun _ _ => True).
Proof. intros Hi. apply modify_ends, good_stream; [by split | done]. Qed.

Lemma sendBody_keeps (i : nat) (d : bytes) (os : list Http2ClientStream) (p : bytes) (n : Z) (h : Session) :
  good os p n h -> keeps (sendBody i d) h (good os p n) (fun _ _ => True).
Proof.
  intros Hi. unfold sendBody. apply keeps_get.
  destruct (objs_ h !! i) as [o |] eqn:Ho; [| by apply keeps_undefined].
  destruct (open_ o) eqn:Hop; [| by apply keeps_undefined].
  apply modify_ends, good_stream; [| done]. intros o' Ho'. assert (o' = o) as -> by congruence.
  split; cbn; [done | done | by apply prefix_app_r | by rewrite Hop].
Qed.

Lemma client_finaliseHeaders_keeps (os : list Http2ClientStream) (p : bytes) (n : Z) (h : Session) :
  0 <= n < 2 ^ 64 -> good os p n h -> keeps finaliseHeaders h (good os p n) (fun _ _ => True).
Proof.
  intros Hn Hi. unfold finaliseHeaders. apply keeps_get, modify_keeps.
  assert (Hs : size (headerBlockBuf_ h) <= n) by (by destruct Hi as (_ & _ & _ & ?)).
  set (h1 := set_block 0 _ _ h). assert (Hi1 : good os p n h1) by (by apply good_block).
  destruct (streams_ h !! continuationStreamId_ h) as [i |]; [| by apply keeps_ret].
  apply (keeps_bind _ _ _ _ (fun _ _ => True)).
  - apply keeps_try; [| intros; by apply keeps_ret].
    pose proof (decode_ends (headerBlockBuf_ h) (decoder_ h1) ltac:(lia)) as Hd.
    pose proof (fun t => good_decoder os p n h1 t Hi1) as Ht.
    unfold keeps, mbind, on_decoder. destruct (decode _ _) as [[dh | | |] t]; cbn [fst snd] in *;
      (split; [apply Ht | by split]).
  - intros [dh |] h2 Hi2 _.
    + apply modify_keeps.
      assert (Hi3 : good os p n (set_block (continuationStreamId_ h2) (headersOnly_ h2) [] h2))
        by (apply good_block; [rewrite size_nil; lia | done]).
      clear Hi2. revert Hi3. generalize (set_block (continuationStreamId_ h2) (headersOnly_ h2) [] h2).
      intros h3 Hi3. apply modify_keeps.
      apply (keeps_bind _ _ _ _ (fun _ _ => True)).
      { assert (Hi4 : forall f, (forall o, stream_grows o (f o)) ->
          good os p n (set_objs (alter f i (objs_ h3)) h3)) by (intros f Hf; apply good_stream; auto).
        destruct (headersOnly_ h); [apply closeBody_keeps | apply keeps_ret; [| done]];
          apply Hi4; by split. }
      intros _ h4 Hi4 _. apply keeps_lift; [done | apply buildResponse_ends |]. intros resp _.
      by apply setResponse_keeps.
    + eapply keeps_bind; [by apply setResponse_keeps |]. intros _ h3 Hi3 _.
      by apply modify_ends, good_erase.
Qed.

(** The padding of a payload. *)
Lemma padding_keeps {A : Type} (f : Frame) (k : Z * Z -> M Session A) (h : Session)
    (I : Session -> Prop) (Q : A -> Session -> Prop) :
  I h -> (forall p, keeps (k p) h I Q) ->
  keeps (mbind (if has FrameFlags.Padded (f_flags f)
                then let* p := mlift (at_payload f 0) in mret (p, 1) else mret (0, 0)) k) h I Q.
Proof.
  intros HI Hk. apply (keeps_bind _ _ _ _ (fun _ h' => h' = h)).
  - destruct (has _ _); [| by apply keeps_ret]. apply keeps_lift; [done | apply octet_ends |].
    intros b _. by apply keeps_ret.
  - intros q h' _ ->. apply Hk.
Qed.

Lemma client_handleHeaders_keeps (f : Frame) (os : list Http2ClientStream) (p : bytes) (n : Z) (h : Session) :
  n + size (f_payload f) < 2 ^ 64 -> 0 <= n -> good os p n h ->
  keeps (handleHeaders reg f) h (good os p (n + size (f_payload f))) (fun _ _ => True).
Proof.
  intros Hn Hn0 Hi. pose proof (size_nonneg (f_payload f)).
  apply (good_more _ p n (n + size (f_payload f))) in Hi; [| lia].
  unfold handleHeaders. apply keeps_get. destruct (_ || _); [by apply keeps_ret |].
  destruct (streams_ h !! f_streamId f) as [i |]; [| by apply client_quiet_keeps; [apply client_quiet_rst |]].
  apply padding_keeps; [done |]. intros [padLen offset].
  set (off := if has FrameFlags.Priority (f_flags f) then offset + 5 else offset).
  destruct (_ <? _); [by apply keeps_undefined |]. apply modify_keeps.
  assert (Hi2 : forall a b, good os p (n + size (f_payload f))
    (set_block (f_streamId f) (has FrameFlags.EndStream (f_flags f)) (take a (drop b (f_payload f))) h)).
  { intros a b. apply good_block; [| done]. pose proof (take_drop_size a b (f_payload f)). lia. }
  destruct (has FrameFlags.EndHeaders _); [apply client_finaliseHeaders_keeps; [lia | done] | by apply keeps_ret].
Qed.

Lemma client_handleContinuation_keeps (f : Frame) (os : list Http2ClientStream) (p : bytes) (n : Z) (h : Session) :
  n + size (f_payload f) < 2 ^ 64 -> 0 <= n -> good os p n h ->
  keeps (handleContinuation f) h (good os p (n + size (f_payload f))) (fun _ _ => True).
Proof.
  intros Hn Hn0 Hi. pose proof (size_nonneg (f_payload f)). unfold handleContinuation. apply keeps_get.
  assert (Hs : size (headerBlockBuf_ h) <= n) by (by destruct Hi as (_ & _ & _ & ?)).
  apply (good_more _ p n (n + size (f_payload f))) in Hi; [| lia].
  destruct (bool_decide _); [by apply keeps_ret |]. apply modify_keeps.
  assert (Hi2 : good os p (n + size (f_payload f))
    (set_block (continuationStreamId_ h) (headersOnly_ h) (headerBlockBuf_ h ++ f_payload f) h))
    by (apply good_block; [rewrite size_app; lia | done]).
  destruct (has FrameFlags.EndHeaders _); [apply client_finaliseHeaders_keeps; [lia | done] | by apply keeps_ret].
Qed.

Lemma client_handleData_keeps (f : Frame) (os : list Http2ClientStream) (p : bytes) (n : Z) (h : Session) :
  good os p n h -> keeps (handleData reg f) h (good os p n) (fun _ _ => True).
Proof.
  intros Hi. unfold handleData. apply keeps_get.
  destruct (streams_ h !! f_streamId f) as [i |]; [| by apply client_quiet_keeps; [apply client_quiet_rst |]].
  apply padding_keeps; [done |]. intros [padLen offset].
  destruct (_ <? _); [by apply keeps_undefined |].
  apply (keeps_bind _ _ _ _ (fun _ _ => True)).
  - destruct (0 <? _); [| by apply keeps_ret].
    eapply keeps_bind; [by apply sendBody_keeps |]. intros _ h1 Hi1 _.
    apply client_quiet_keeps; [| done]. apply client_quiet_bind; [apply client_quiet_wait |]. intros _.
    apply client_quiet_bind; intros; apply client_quiet_write.
  - intros _ h1 Hi1 _. destruct (has _ _); [| by apply keeps_ret].
    eapply keeps_bind; [by apply closeBody_keeps |]. intros _ h2 Hi2 _. by apply modify_ends, good_erase.
Qed.

Lemma quiet_ping (f : Frame) : quiet (handlePing reg f).
Proof.
  unfold handlePing. destruct (has _ _); [apply client_quiet_ret |]. destruct (negb _); [apply client_quiet_ret |].
  apply client_quiet_bind; [apply client_quiet_wait |]. intros _. apply client_quiet_write.
Qed.

Lemma client_quiet_ack : quiet (sendSettingsAck reg).
Proof. apply client_quiet_bind; [apply client_quiet_wait |]. intros _. apply client_quiet_write. Qed.

Lemma client_onFrame_keeps (f : Frame) (os : list Http2ClientStream) (p : bytes) (n : Z) (h : Session) :
  n + size (f_payload f) < 2 ^ 64 -> 0 <= n -> good os p n h ->
  keeps (onFrame reg f) h (good os p (n + size (f_payload f))) (fun _ _ => True).
Proof.
  intros Hn Hn0 Hi. pose proof (size_nonneg (f_payload f)). unfold onFrame. apply keeps_get.
  assert (Hi' : good os p (n + size (f_payload f)) h) by (eapply good_more; [| done]; lia).
  destruct (_ && _); [by apply keeps_ret |]. apply keeps_try; [| intros; by apply keeps_ret].
  apply (keeps_bind _ _ _ _ (fun _ _ => True)); [| intros; by apply keeps_ret]. unfold handleFrame.
  destruct (_ =? FrameType.Headers); [by apply client_handleHeaders_keeps |].
  destruct (_ =? FrameType.Continuation); [by apply client_handleContinuation_keeps |].
  destruct (_ =? FrameType.Data); [by apply client_handleData_keeps |].
  destruct (_ =? FrameType.Settings).
  { unfold handleSettings. destruct (has _ _); [by apply modify_ends, good_status |].
    by apply client_quiet_keeps; [apply client_quiet_ack |]. }
  destruct (_ =? FrameType.WindowUpdate); [by apply keeps_ret |].
  destruct (_ =? FrameType.Ping); [by apply client_quiet_keeps; [apply quiet_ping |] |].
  destruct (_ =? FrameType.RstStream); [by apply modify_ends, good_erase |].
  destruct (_ =? FrameType.GoAway); [by apply modify_ends, good_status | by apply keeps_ret].
Qed.

(** *** The loop *)

Definition settled (os : list Http2ClientStream) (h : Session) : Prop :=
  client_ok h /\ objs_grow os (objs_ h).

Lemma keeps_settled {A : Type} (m : M Session A) (os : list Http2ClientStream) (p : bytes) (n : Z) (h : Session) :
  keeps m h (good os p n) (fun _ _ => True) -> keeps m h (settled os) (fun _ => good os p n).
Proof. intros (Hg & Hd & _). pose proof Hg as (? & ? & _). split; [by split |]. by split. Qed.

Lemma client_runLoop_keeps (fuel : nat) (os : list Http2ClientStream) (p : bytes) (n : Z) (h : Session) :
  good os p n h -> 0 <= n -> n + size p < 2 ^ 64 -> size p < Z.of_nat fuel ->
  keeps (runLoop reg fuel) h (settled os) (fun _ _ => True).
Proof.
  revert p n h. induction fuel as [| fuel IH]; intros p n h Hi Hn0 Hn Hf; pose proof (size_nonneg p); [lia |].
  assert (Hstep : keeps (let* _ := wait reg in let* maybeFrame := on_reader (readFrame maxFrameSize_) in
    match maybeFrame with
    | None => mret tt
    | Some f => let* go := onFrame reg f in if go then runLoop reg fuel else mret tt
    end) h (settled os) (fun _ _ => True)).
  { eapply keeps_bind; [by apply keeps_settled, client_quiet_keeps; [apply client_quiet_wait |] |]. intros [] h1 _ Hi1.
    destruct (readFrame_ends maxFrameSize_ (reader_ h1)) as (r & s & Hr & Hsize).
    assert (Hi2 : good os (pending s) n (set_reader s h1)).
    { destruct Hi1 as (Hok & Hg & Hp & Hb). split; [by destruct Hok; split |]. split; [done |]. by split. }
    assert (Hon : on_reader (readFrame maxFrameSize_) h1 = (Ok r, set_reader s h1))
      by (unfold on_reader; by rewrite Hr).
    assert (Hp1 : pending (reader_ h1) = p) by (by destruct Hi1 as (_ & _ & ? & _)). rewrite Hp1 in Hsize.
    unfold keeps. rewrite (mbind_ok _ _ _ _ _ Hon). revert r Hon Hsize Hr.
    intros [f |] Hon Hsize Hr; [| by destruct Hi2 as (? & ? & _)].
    specialize (Hsize f eq_refl). pose proof (size_nonneg (f_payload f)). pose proof (size_nonneg (pending s)).
    eapply (keeps_bind (onFrame reg f) (fun go => if go then runLoop reg fuel else mret tt) _ _ _ (fun _ _ => True));
      [apply keeps_settled, client_onFrame_keeps; [| | exact Hi2]; lia |].
    intros go h3 Hok3 Hi3. destruct go; [| by apply keeps_ret].
    eapply IH; [done | lia | lia | lia]. }
  destruct (goAwaySent_ h) eqn:Hgo; unfold keeps; cbn [runLoop]; rewrite Hgo;
    [by destruct Hi as (? & ? & _) | exact Hstep].
Qed.

Lemma client_start (stream : S) (scheme : bytes) (schedule : list (list event)) :
  good [] (pending stream) 0 (newClientSession stream scheme schedule).
Proof. split; [by split; intros |]. split; [by intros ? ? ? |]. by split. Qed.

Lemma readLoop_keeps (os : list Http2ClientStream) (p : bytes) (n : Z) (h : Session) :
  good os p n h -> 0 <= n -> n + size p < 2 ^ 64 ->
  keeps (readLoop reg) h (settled os) (fun _ _ => True).
Proof.
  intros Hi Hn0 Hn. eapply client_runLoop_keeps; [exact Hi | done | done |].
  destruct Hi as (_ & _ & -> & _). unfold size. lia.
Qed.
End invariant.

(** ** What a server sends *)

(** The header block of a response, a piece of its body, the last of them marked,
    and frames that carry none. *)
Inductive message : Type :=
| Head (sid : Z) (block : bytes) (fin : bool)
| Body (sid : Z) (data : bytes) (fin : bool)
| Control (type flags sid : Z) (payload : bytes).

Definition messageType (m : message) : Z :=
  match m with Head _ _ _ => FrameType.Headers | Body _ _ _ => FrameType.Data | Control t _ _ _ => t end.
Definition messageFlags (m : message) : Z :=
  match m with
  | Head _ _ fin => Z.lor FrameFlags.EndHeaders (flagsOf fin)
  | Body _ _ fin => flagsOf fin
  | Control _ fl _ _ => fl
  end.
Definition messageId (m : message) : Z :=
  match m with Head sid _ _ | Body sid _ _ | Control _ _ sid _ => sid end.
Definition messagePayload (m : message) : bytes :=
  match m with Head _ d _ | Body _ d _ | Control _ _ _ d => d end.

Definition frameOf (m : message) : Frame :=
  mkFrame (size (messagePayload m)) (messageType m) (messageFlags m) (messageId m) (messagePayload m).

(** What a request has got so far. *)
Inductive Reply : Type :=
| Waiting
| Streaming (r : HttpResponse) (pieces : list bytes)
| Complete (r : HttpResponse) (pieces : list bytes).

(** The replies of the open requests, and the table the blocks are read
    with. *)
Abbreviation replies := (gmap Z Reply * HpackTable)%type.

(** What the program that waits for the response sees of its stream. *)
Definition shows (rep : Reply) (o : Http2ClientStream) : Prop :=
  match rep with
  | Waiting => response o = None /\ received o = [] /\ open_ o = true
  | Streaming r ps => response o = Some (Ok r) /\ received o = ps /\ open_ o = true
  | Complete r ps => response o = Some (Ok r) /\ received o = ps /\ open_ o = false
  end.

Definition ended (rep : Reply) : bool := match rep with Complete _ _ => true | _ => false end.

Section delivery.
Context {S : Type} `{!ByteStream S} (reg : MethodRegistry).
Abbreviation Session := (Http2ClientSession S).

(** The session's side of the replies.  [capacity]: ids are not used twice. *)
Record serves (st : replies) (h : Session) : Prop := {
  sv_ok : client_ok h;
  sv_decoder : decoder_ h = snd st;
  sv_continuation : continuationStreamId_ h = 0;
  sv_goAway : goAwaySent_ h = false;
  sv_capacity : 1 + 2 * Z.of_nat (begins (schedule_ h) + length (objs_ h)) < 2 ^ 32;
  sv_replies : forall sid rep, fst st !! sid = Some rep ->
    exists i o, sid = idOf i /\ objs_ h !! i = Some o /\ shows rep o
      /\ (ended rep = false -> streams_ h !! sid = Some i)
}.

(** The object of a reply. *)
Lemma serves_at (st : replies) (h : Session) (i : nat) (rep : Reply) :
  serves st h -> (i < length (objs_ h))%nat -> fst st !! idOf i = Some rep ->
  exists o, objs_ h !! i = Some o /\ shows rep o /\ (ended rep = false -> streams_ h !! idOf i = Some i).
Proof.
  intros Hsv Hi Hrep. destruct (sv_replies _ _ Hsv _ _ Hrep) as (j & o & Heq & Hj & Hsh & Hin).
  pose proof (sv_capacity _ _ Hsv). pose proof (lookup_lt_Some _ _ _ Hj).
  apply idOf_inj in Heq as <-; [eauto | lia | lia].
Qed.

Lemma whole (d : bytes) : take (Z.to_nat (size d - 0 - 0)) (drop (Z.to_nat 0) d) = d.
Proof. rewrite drop_0. apply take_ge. unfold size. lia. Qed.

Lemma setResponse_ok (h : Session) (i : nat) (o : Http2ClientStream) (r : outcome HttpResponse) :
  objs_ h !! i = Some o -> response o = None ->
  setResponse i r h = (Ok tt, set_objs (alter (fun s => mkClientStream (streamId s) (Some r) (decodedHeaders s)
    (headersComplete s) (received s) (open_ s)) i (objs_ h)) h).
Proof. intros Ho Hr. unfold setResponse. by rewrite mbind_get, Ho, Hr. Qed.

(** A header block in one frame, for a stream that is known. *)
Lemma whole_block (i j : nat) (block : bytes) (fin : bool) (h : Session) :
  streams_ h !! idOf i = Some j ->
  handleFrame reg (frameOf (Head (idOf i) block fin)) h = finaliseHeaders (set_block (idOf i) fin block h).
Proof.
  intros Hin.
  change (handleFrame reg _) with (handleHeaders reg (frameOf (Head (idOf i) block fin))).
  unfold handleHeaders. rewrite mbind_get. cbn [frameOf f_streamId f_payload f_flags messagePayload messageFlags messageId].
  pose proof (idOf_odd i) as Hodd. rewrite Hodd.
  destruct (Z.eqb_spec (idOf i) 0) as [Hz | _]; [by rewrite Hz in Hodd |]. change (1 =? 0) with false. cbn [orb].
  rewrite Hin. set (flags := Z.lor _ _).
  assert (Hpad : has FrameFlags.Padded flags = false) by (by destruct fin). rewrite Hpad.
  assert (Hprio : has FrameFlags.Priority flags = false) by (by destruct fin). rewrite Hprio.
  assert (Hend : has FrameFlags.EndStream flags = fin) by (by destruct fin). rewrite Hend.
  assert (Hdone : has FrameFlags.EndHeaders flags = true) by (by destruct fin). rewrite Hdone.
  rewrite (mbind_ok _ _ h h (0, 0)) by done. pose proof (size_nonneg block).
  destruct (Z.ltb_spec (size block) (0 + 0)); [lia |]. rewrite whole.
  by rewrite (mbind_ok _ _ h (set_block (idOf i) fin block h) tt) by done.
Qed.

(** *** The loop *)

(** A block that does not decode. *)
Lemma head_refused (i : nat) (block : bytes) (fin : bool) (e : exn) (st : replies) (h : Session) :
  serves st h -> fst st !! idOf i = Some Waiting -> (i < length (objs_ h))%nat ->
  fst (decode block (decoder_ h)) = Throw e ->
  exists h' o, onFrame reg (frameOf (Head (idOf i) block fin)) h = (Ok true, h')
    /\ objs_ h' !! i = Some o /\ response o = Some (Throw (RuntimeError "HPACK decode error"))
    /\ streams_ h' !! idOf i = None.
Proof.
  intros Hsv Hrep Hlt Hdec. destruct (serves_at st h i _ Hsv Hlt Hrep) as (o & Hi & (Hr & _) & Hin).
  specialize (Hin eq_refl). set (h1 := set_block 0 fin block h).
  destruct (decode block (decoder_ h)) as [d t'] eqn:Hd. cbn [fst] in Hdec. subst d.
  set (h2 := set_decoder t' h1).
  assert (Hf : finaliseHeaders (set_block (idOf i) fin block h)
    = (let* _ := setResponse i (Throw (RuntimeError "HPACK decode error")) in erase (idOf i)) h2).
  { unfold finaliseHeaders. rewrite mbind_get. cbn [continuationStreamId_ headerBlockBuf_ headersOnly_ set_block].
    rewrite (mbind_ok _ _ _ h1 tt) by done. change (streams_ (set_block _ _ _ _)) with (streams_ h). rewrite Hin.
    rewrite (mbind_ok _ _ _ h2 None); [done |]. unfold mtry, mbind, on_decoder.
    change (decoder_ h1) with (decoder_ h). by rewrite Hd. }
  unfold onFrame. rewrite mbind_get, (sv_continuation _ _ Hsv). cbn [Z.eqb negb andb]. unfold mtry, mbind at 1.
  rewrite (whole_block i i) by done. rewrite Hf. unfold mbind at 1. rewrite (setResponse_ok h2 i o) by done.
  cbn. eexists _, _. split; [done |]. cbn. rewrite list_lookup_alter_eq, Hi. split; [done |].
  split; [done |]. apply lookup_delete_eq.
Qed.
End delivery.

(** ** Properties *)

(** C16: a connection of the client ends, and what a request got is final.
    Whatever the server sends, however it arrives, and whatever requests the
    programs begin meanwhile, the loop of [Http2ClientSession::run] ends; every
    stream keeps its identifier; the map leads from an identifier to the
    stream that has it; a response once set is not replaced, what a body
    received stays, and a body that ended receives nothing more. *)
Theorem h2_client_session {S : Type} `{!ByteStream S} (reg : MethodRegistry) (h : Http2ClientSession S) :
  client_ok h -> size (headerBlockBuf_ h) + size (pending (reader_ h)) < 2 ^ 64 ->
  let '(o, h') := readLoop reg h in
  o <> Diverge /\ client_ok h' /\ objs_grow (objs_ h) (objs_ h').
Proof.
  intros Hok Hsize. pose proof (size_nonneg (headerBlockBuf_ h)).
  destruct (readLoop_keeps reg (objs_ h) (pending (reader_ h)) (size (headerBlockBuf_ h)) h) as ([H1 H2] & H3 & _);
    [split; [done |]; split; [reflexivity | by split] | done | lia |].
  by destruct (readLoop reg h).
Qed.

(** What [run] starts from. *)
Lemma client_starts {S : Type} `{!ByteStream S} (stream : S) (scheme : bytes) (schedule : list (list event)) :
  client_ok (newClientSession stream scheme schedule).
Proof. by destruct (client_start stream scheme schedule). Qed.

(** A client with two requests on their way. *)
Definition two_requests (segments : list bytes) : Http2ClientSession script :=
  snd ((let* _ := modify (set_status false false true true) in let* _ := beginRequest in beginRequest)
    (newClientSession (Script segments []) (str "http") [[Begin]; []; [SendData 3 (str "late") true]])).

Lemma two_requests_ok (segments : list bytes) : client_ok (two_requests segments).
Proof.
  split.
  - intros [| [| i]] o Ho; by simplify_eq/=.
  - done.
  - intros sid i Hi. cbn in Hi. apply lookup_insert_Some in Hi as [[<- <-] | [_ Hi]]; [by split; [cbn; lia |] |].
    apply lookup_insert_Some in Hi as [[<- <-] | [_ Hi]]; [by split; [cbn; lia |] | done].
Qed.

Lemma h2_client_session_witness :
  let h := two_requests [frameOctets FrameType.Headers 5 3 [x88]; frameOctets FrameType.RstStream 0 1 [x00; x00; x00; x08]] in
  let '(o, h') := readLoop initRegistry h in
  o <> Diverge /\ client_ok h' /\ objs_grow (objs_ h) (objs_ h').
Proof.
  apply h2_client_session; [apply two_requests_ok | by vm_compute].
Defined.

(** C40: client and server of this library do not understand each other.  The
    header block of any response [Http2Session::sendHeaders] writes begins with
    its status, which [HpackDecoder] takes for an error: the request that waits
    for it gets the exception "HPACK decode error" and its stream is
    forgotten. *)
Theorem h2_client_rejects {S : Type} `{!ByteStream S} (reg : MethodRegistry) (h : Http2ClientSession S)
    (i : nat) (fin : bool) (resp : HttpResponse) (st : replies) :
  serves st h -> fst st !! idOf i = Some Waiting -> (i < length (objs_ h))%nat ->
  table_ok (decoder_ h) -> response_small resp ->
  exists block t', encodeResponse resp (decoder_ h) = (Ok block, t') /\
    (size block <= maxFrameSize_ ->
     exists h' o, onFrame reg (frameOf (Head (idOf i) block fin)) h = (Ok true, h')
       /\ objs_ h' !! i = Some o /\ response o = Some (Throw (RuntimeError "HPACK decode error"))
       /\ streams_ h' !! idOf i = None).
Proof.
  intros Hsv Hrep Hlt Ht Hr. destruct (hpack_rejects_responses resp (decoder_ h) Ht Hr) as (block & t' & Henc & Hdec).
  exists block, t'. split; [done |]. intros Hsize. eapply head_refused; [done .. |].
  apply Hdec. unfold maxFrameSize_ in Hsize. lia.
Qed.

Lemma h2_client_rejects_witness :
  let h := two_requests [] in
  exists block t', encodeResponse (mkResponse kHttp11 404 (str "Not Found") [] [] ContentLength 0 false) (decoder_ h)
      = (Ok block, t') /\
    (size block <= maxFrameSize_ ->
     exists h' o, onFrame initRegistry (frameOf (Head (idOf 0) block true)) h = (Ok true, h')
       /\ objs_ h' !! 0%nat = Some o /\ response o = Some (Throw (RuntimeError "HPACK decode error"))
       /\ streams_ h' !! idOf 0 = None).
Proof.
  intros h. assert (Hserves : serves ({[1 := Waiting]}, newTable kDefaultMaxSize) h).
  { split; try done; [apply two_requests_ok |].
    intros sid rep Hrep. cbn [fst] in Hrep. apply lookup_singleton_Some in Hrep as [<- <-].
    exists 0%nat. eexists. by split; [| split; [reflexivity | split]]. }
  apply (h2_client_rejects initRegistry h 0 true _ ({[1 := Waiting]}, newTable kDefaultMaxSize));
    [exact Hserves | by vm_compute | cbn; lia | by repeat constructor |].
  split; [by split |]. split; [by split |]. split; by repeat constructor.
Defined.
