(* ===== verification/CancelToken.v ===== *)
(** Cancellation, src/include/nitrocoro/core/CancelToken.h: threads that cancel a
    source, coroutines that register callbacks with its tokens and drop their
    registrations, and coroutines that wait for the cancellation, every access
    to what they share a step of its own.  [LockFreeListNode::push] and [close]
    are one step each: [Future] has their loop. *)

From Stdlib Require Import ZArith Lia.
From stdpp Require Import base numbers option list.
From S2P Require Import Prelude.

(** ** Data *)

(** A coroutine in [onCancel] with a callback of its own: before [cbMutex_] is
    locked; in [addCallback] with the lock, before [isCancelled], before
    [push_back], and before the lock is released; before it runs the callback
    itself; and with what [onCancel] returned, a registration that holds the
    flag or one that holds nothing.  [unregister] ends the former. *)
Inductive RegistrarPc : Type :=
| RLock
| RCheck
| RPush
| RUnlock (cancelled : bool)
| RRun
| RHeld
| REmpty
| RDropped.

(** [r_sched]: whether the coroutine runs on a scheduler; [active]: the
    [atomic_flag]; [runs]: how often the callback ran. *)
Record Registrar : Type := mkRegistrar {
  r_pc : RegistrarPc;
  r_sched : bool;
  active : bool;
  runs : nat
}.

(** A coroutine in [co_await token.cancelled()]; [times]: how often its handle
    was given to its scheduler, or resumed. *)
Inductive WaiterPc : Type :=
| WReady
| WPush
| WSuspended
| WResumed.

Record Waiter : Type := mkWaiter {
  w_pc : WaiterPc;
  times : nat
}.

(** A thread in [CancelState::cancel]: before the list is closed; with the list
    that was there, before [cbMutex_] is locked, before the callbacks are taken
    and before the lock is released; in the loop over the callbacks; in the loop
    over the waiters. *)
Inductive CancellerPc : Type :=
| CClose
| CLock (head : list nat)
| CSwap (head : list nat)
| CUnlock (cbs head : list nat)
| CFire (cbs head : list nat)
| CResume (head : list nat)
| CDone
| CAlready.

Inductive Holder : Type :=
| ByRegistrar (i : nat)
| ByCanceller (j : nat).

#[export] Instance Holder_eq_decision : EqDecision Holder.
Proof. solve_decision. Defined.

(** [CancelState]: [waiters_] is [None] when closed; a callback is known by the
    coroutine it belongs to.  [posted]: what [dispatch] gave to schedulers and
    has not run; [owner] records which thread closed the list. *)
Record CancelState : Type := mkCancel {
  waiters_ : option (list nat);
  cbMutex_ : option Holder;
  callbacks_ : list nat;
  posted : list nat;
  registrars : list Registrar;
  waiters : list Waiter;
  cancellers : list CancellerPc;
  owner : option nat
}.

(** Coroutines with and without a scheduler that register, [n] that wait, and
    [m] threads that cancel. *)
Definition newCancel (scheds : list bool) (n m : nat) : CancelState :=
  mkCancel (Some []) None [] [] (map (fun b => mkRegistrar RLock b false 0) scheds)
    (replicate n (mkWaiter WReady 0)) (replicate m CClose) None.

Definition isCancelled (s : CancelState) : bool := match waiters_ s with None => true | Some _ => false end.

Definition set_registrar (i : nat) (r : Registrar) (s : CancelState) : CancelState :=
  mkCancel (waiters_ s) (cbMutex_ s) (callbacks_ s) (posted s) (<[i := r]> (registrars s)) (waiters s)
    (cancellers s) (owner s).
Definition set_mutex (m : option Holder) (s : CancelState) : CancelState :=
  mkCancel (waiters_ s) m (callbacks_ s) (posted s) (registrars s) (waiters s) (cancellers s) (owner s).
Definition set_callbacks (cbs : list nat) (s : CancelState) : CancelState :=
  mkCancel (waiters_ s) (cbMutex_ s) cbs (posted s) (registrars s) (waiters s) (cancellers s) (owner s).
Definition set_posted (p : list nat) (s : CancelState) : CancelState :=
  mkCancel (waiters_ s) (cbMutex_ s) (callbacks_ s) p (registrars s) (waiters s) (cancellers s) (owner s).
Definition set_list (l : option (list nat)) (s : CancelState) : CancelState :=
  mkCancel l (cbMutex_ s) (callbacks_ s) (posted s) (registrars s) (waiters s) (cancellers s) (owner s).
Definition set_waiter (i : nat) (w : Waiter) (s : CancelState) : CancelState :=
  mkCancel (waiters_ s) (cbMutex_ s) (callbacks_ s) (posted s) (registrars s) (<[i := w]> (waiters s))
    (cancellers s) (owner s).
Definition set_canceller (j : nat) (pc : CancellerPc) (s : CancelState) : CancelState :=
  mkCancel (waiters_ s) (cbMutex_ s) (callbacks_ s) (posted s) (registrars s) (waiters s)
    (<[j := pc]> (cancellers s)) (owner s).
Definition set_owner (j : nat) (s : CancelState) : CancelState :=
  mkCancel (waiters_ s) (cbMutex_ s) (callbacks_ s) (posted s) (registrars s) (waiters s) (cancellers s) (Some j).

(** ** Steps *)

(** [if (!active->test_and_set()) fn();] *)
Definition fire (r : Registrar) : Registrar :=
  if active r then r else mkRegistrar (r_pc r) (r_sched r) true (S (runs r)).

(** [onCancel].  [dispatch] to the scheduler of the own thread calls at once. *)
Definition registerStep (i : nat) (s : CancelState) : CancelState :=
  match registrars s !! i with
  | None => s
  | Some r =>
      let goto pc := set_registrar i (mkRegistrar pc (r_sched r) (active r) (runs r)) in
      match r_pc r with
      | RLock => if decide (cbMutex_ s = None) then set_mutex (Some (ByRegistrar i)) (goto RCheck s) else s
      | RCheck => goto (if isCancelled s then RUnlock true else RPush) s
      | RPush => set_callbacks (callbacks_ s ++ [i]) (goto (RUnlock false) s)
      | RUnlock cancelled => set_mutex None (goto (if cancelled then RRun else RHeld) s)
      | RRun => set_registrar i (mkRegistrar REmpty (r_sched r) (active r) (S (runs r))) s
      | RHeld | REmpty | RDropped => s
      end
  end.

(** [CancelRegistration::unregister] *)
Definition unregisterStep (i : nat) (s : CancelState) : CancelState :=
  match registrars s !! i with
  | None => s
  | Some r =>
      match r_pc r with
      | RHeld => set_registrar i (mkRegistrar RDropped (r_sched r) true (runs r)) s
      | _ => s
      end
  end.

Definition awaitStep (i : nat) (s : CancelState) : CancelState :=
  match waiters s !! i with
  | None => s
  | Some w =>
      match w_pc w with
      | WReady => set_waiter i (mkWaiter (if isCancelled s then WResumed else WPush) (times w)) s
      | WPush =>
          match waiters_ s with
          | None => set_waiter i (mkWaiter WResumed (times w)) s
          | Some l => set_list (Some (i :: l)) (set_waiter i (mkWaiter WSuspended (times w)) s)
          end
      | WSuspended => if (times w =? 0)%nat then s else set_waiter i (mkWaiter WResumed (times w)) s
      | WResumed => s
      end
  end.

Definition cancelStep (j : nat) (s : CancelState) : CancelState :=
  match cancellers s !! j with
  | None => s
  | Some pc =>
      match pc with
      | CClose =>
          match waiters_ s with
          | None => set_canceller j CAlready s
          | Some l => set_owner j (set_list None (set_canceller j (CLock l) s))
          end
      | CLock head =>
          if decide (cbMutex_ s = None) then set_mutex (Some (ByCanceller j)) (set_canceller j (CSwap head) s) else s
      | CSwap head => set_callbacks [] (set_canceller j (CUnlock (callbacks_ s) head) s)
      | CUnlock cbs head => set_mutex None (set_canceller j (CFire cbs head) s)
      | CFire [] head => set_canceller j (CResume head) s
      | CFire (i :: cbs) head =>
          let s' := set_canceller j (CFire cbs head) s in
          match registrars s !! i with
          | None => s'
          | Some r => if r_sched r then set_posted (posted s ++ [i]) s' else set_registrar i (fire r) s'
          end
      | CResume [] => set_canceller j CDone s
      | CResume (i :: head) =>
          let s' := set_canceller j (CResume head) s in
          match waiters s !! i with
          | None => s'
          | Some w => set_waiter i (mkWaiter (w_pc w) (S (times w))) s'
          end
      | CDone | CAlready => s
      end
  end.

(** A scheduler runs what was dispatched to it. *)
Definition postedStep (i : nat) (s : CancelState) : CancelState :=
  if decide (i ∈ posted s) then
    let s' := set_posted (list_difference (posted s) [i]) s in
    match registrars s !! i with
    | None => s'
    | Some r => set_registrar i (fire r) s'
    end
  else s.

Inductive Turn : Type :=
| Register (i : nat)
| Unregister (i : nat)
| Await (i : nat)
| Cancel (j : nat)
| Posted (i : nat).

Definition turn (t : Turn) (s : CancelState) : CancelState :=
  match t with
  | Register i => registerStep i s
  | Unregister i => unregisterStep i s
  | Await i => awaitStep i s
  | Cancel j => cancelStep j s
  | Posted i => postedStep i s
  end.

Definition run (ts : list Turn) (s : CancelState) : CancelState := foldl (fun s t => turn t s) s ts.

(** ** The invariant *)

(** Registered with the state, and so on the way to being called. *)
Definition kept (pc : RegistrarPc) : bool :=
  match pc with RUnlock false | RHeld | RDropped => true | _ => false end.
Definition awaited (r : Registrar) : bool := kept (r_pc r) && negb (active r).

Definition reg_ok (r : Registrar) : Prop :=
  match r_pc r with
  | RLock | RCheck | RPush | RUnlock true | RRun => runs r = 0%nat /\ active r = false
  | RUnlock false | RHeld => runs r = (if active r then 1 else 0)%nat
  | REmpty => runs r = 1%nat
  | RDropped => active r = true /\ (runs r <= 1)%nat
  end.

Definition waiter_ok (w : Waiter) : Prop :=
  match w_pc w with WReady | WPush => times w = 0%nat | _ => (times w <= 1)%nat end.
Definition waits (w : Waiter) : bool := match w_pc w with WSuspended => (times w =? 0)%nat | _ => false end.

(** Holding [cbMutex_]. *)
Definition r_locked (pc : RegistrarPc) : bool := match pc with RCheck | RPush | RUnlock _ => true | _ => false end.
Definition c_locked (pc : CancellerPc) : bool := match pc with CSwap _ | CUnlock _ _ => true | _ => false end.

(** Of the thread that closed the list: what it has still to call and to
    resume. *)
Definition won (pc : CancellerPc) : bool := match pc with CClose | CAlready => false | _ => true end.
Definition swapped (pc : CancellerPc) : bool :=
  match pc with CUnlock _ _ | CFire _ _ | CResume _ | CDone => true | _ => false end.
Definition cbsOf (pc : CancellerPc) : list nat := match pc with CUnlock cbs _ | CFire cbs _ => cbs | _ => [] end.
Definition headOf (pc : CancellerPc) : list nat :=
  match pc with CLock h | CSwap h | CUnlock _ h | CFire _ h | CResume h => h | _ => [] end.

Definition stage (s : CancelState) : CancellerPc :=
  match owner s with Some j => default CClose (cancellers s !! j) | None => CClose end.

(** The callbacks that wait to be called are on one of the lists, once. *)
Record pend (rs : list Registrar) (l : list nat) : Prop := {
  pd_once : NoDup l;
  pd_kept : forall i, i ∈ l -> exists r, rs !! i = Some r /\ kept (r_pc r) = true;
  pd_all : forall i r, rs !! i = Some r -> awaited r = true -> i ∈ l
}.

(** The coroutines that wait are on the list, once. *)
Definition listed (ws : list Waiter) (l : list nat) : Prop :=
  NoDup l /\ forall i, i ∈ l <-> exists w, ws !! i = Some w /\ waits w = true.

Definition waitList (s : CancelState) : list nat :=
  match waiters_ s with Some l => l | None => headOf (stage s) end.
Definition pending (s : CancelState) : list nat := callbacks_ s ++ cbsOf (stage s) ++ posted s.

Record good (s : CancelState) : Prop := {
  gd_closed : isCancelled s = won (stage s);
  gd_owner : forall j pc, cancellers s !! j = Some pc -> won pc = true -> owner s = Some j;
  gd_late : forall j, cancellers s !! j = Some CAlready -> isCancelled s = true;
  gd_pend : pend (registrars s) (pending s);
  gd_swapped : swapped (stage s) = true ->
    callbacks_ s = [] /\ forall i r, registrars s !! i = Some r -> r_pc r <> RPush;
  gd_listed : listed (waiters s) (waitList s);
  gd_reg : forall i r, registrars s !! i = Some r -> reg_ok r;
  gd_waiter : forall i w, waiters s !! i = Some w -> waiter_ok w;
  gd_rlock : forall i r, registrars s !! i = Some r -> r_locked (r_pc r) = true -> cbMutex_ s = Some (ByRegistrar i);
  gd_clock : forall j pc, cancellers s !! j = Some pc -> c_locked pc = true -> cbMutex_ s = Some (ByCanceller j)
}.

(** Every element of a list of which one changed: that one first. *)
Ltac inserted k y Hk :=
  intros k y Hk; apply list_lookup_insert_Some in Hk as [(<- & <- & _) | [? Hk]].

Lemma pend_update (rs : list Registrar) (l : list nat) (i : nat) (r r' : Registrar) :
  rs !! i = Some r -> (kept (r_pc r) = true -> kept (r_pc r') = true) ->
  (awaited r' = true -> awaited r = true) -> pend rs l -> pend (<[i := r']> rs) l.
Proof.
  intros Hi Hk Ha [P1 P2 P3]. pose proof (lookup_lt_Some _ _ _ Hi) as Hlt. split; [done | |].
  - intros k Hin. destruct (P2 k Hin) as (r0 & Hr0 & Hk0). destruct (decide (k = i)) as [-> | Hne].
    + exists r'. rewrite list_lookup_insert_eq by done. split; [done |]. apply Hk. congruence.
    + exists r0. by rewrite list_lookup_insert_ne.
  - inserted k y Hk'; [| by apply P3]. intros Hw. by apply (P3 i r); [| apply Ha].
Qed.

(** A list with the same elements. *)
Lemma pend_perm (rs : list Registrar) (l l' : list nat) : l ≡ₚ l' -> pend rs l -> pend rs l'.
Proof.
  intros Hp [P1 P2 P3]. split; [by rewrite <- Hp | intros i; rewrite <- Hp; apply P2 |].
  intros i r. rewrite <- Hp. apply P3.
Qed.

(** A callback is no longer to be called. *)
Lemma pend_consume (rs : list Registrar) (l : list nat) (i : nat) (r' : Registrar) :
  awaited r' = false -> pend rs (i :: l) -> pend (<[i := r']> rs) l.
Proof.
  intros Ha [P1 P2 P3]. apply list.NoDup_cons in P1 as [Hni P1]. split; [done | |].
  - intros k Hin. destruct (P2 k ltac:(by right)) as (r0 & Hr0 & Hk0). exists r0.
    rewrite list_lookup_insert_ne; [done |]. by intros ->.
  - inserted k y Hk; [congruence |]. intros Hw. specialize (P3 k y Hk Hw). apply elem_of_cons in P3 as [|]; done.
Qed.

(** *** One registration moves on *)

Lemma good_registrar (s : CancelState) (i : nat) (r r' : Registrar) (m : option Holder) (cbs : list nat) :
  good s -> registrars s !! i = Some r -> reg_ok r' ->
  pend (<[i := r']> (registrars s)) (cbs ++ cbsOf (stage s) ++ posted s) ->
  (r_locked (r_pc r') = true -> m = Some (ByRegistrar i)) ->
  m = cbMutex_ s \/ cbMutex_ s = None \/ cbMutex_ s = Some (ByRegistrar i) ->
  (swapped (stage s) = true -> cbs = [] /\ r_pc r' <> RPush) ->
  good (set_callbacks cbs (set_mutex m (set_registrar i r' s))).
Proof.
  intros [H1 H2 H3 H4 H5 H6 H7 H8 H9 H10] Hi Hok Hp Hl Hm Hs. split; try done; cbn.
  - intros Hsw. destruct (H5 Hsw) as [_ Hno]. destruct (Hs Hsw) as [-> Hr]. split; [done |].
    inserted k y Hk; [done | by apply (Hno k)].
  - inserted k y Hk; [done | by apply (H7 k)].
  - inserted k y Hk; [done |]. intros Hlk. specialize (H9 k y Hk Hlk).
    destruct Hm as [-> | [Hm | Hm]]; congruence.
  - intros j pc Hj Hlk. specialize (H10 j pc Hj Hlk). destruct Hm as [-> | [Hm | Hm]]; congruence.
Qed.

Lemma same_registrar (s : CancelState) (i : nat) (r' : Registrar) :
  set_callbacks (callbacks_ s) (set_mutex (cbMutex_ s) (set_registrar i r' s)) = set_registrar i r' s.
Proof. done. Qed.

Lemma registerStep_good (i : nat) (s : CancelState) : good s -> good (registerStep i s).
Proof.
  intros H. unfold registerStep. destruct (registrars s !! i) as [r |] eqn:Hi; [| done].
  pose proof (gd_reg _ H i r Hi) as Hok. pose proof (gd_rlock _ H i r Hi) as Hlk.
  destruct r as [pc sc ac n]. unfold reg_ok in Hok. cbn [r_pc r_sched active runs] in *.
  assert (Hpend : forall pc', kept pc = kept pc' -> pend (<[i := mkRegistrar pc' sc ac n]> (registrars s)) (pending s)).
  { intros pc' Hk. eapply pend_update; [exact Hi | | | apply H]; unfold awaited; cbn [r_pc active]; by rewrite Hk. }
  destruct pc as [| | | c | | | |].
  - destruct (decide (cbMutex_ s = None)) as [Hm | _]; [| done].
    apply (good_registrar s i _ _ (Some (ByRegistrar i)) (callbacks_ s)) with (1 := H) (2 := Hi);
      [done | by apply Hpend | done | auto |]. intros Hsw. by split; [apply (gd_swapped _ H Hsw) |].
  - rewrite <- same_registrar. apply good_registrar with (1 := H) (2 := Hi); [by destruct (isCancelled s) | | | auto |].
    + apply Hpend. by destruct (isCancelled s).
    + intros _. by apply Hlk.
    + intros Hsw. split; [apply (gd_swapped _ H Hsw) |].
      assert (Hc : isCancelled s = true) by (rewrite (gd_closed _ H); by destruct (stage s)). by rewrite Hc.
  - change (set_callbacks _ _) with (set_callbacks (callbacks_ s ++ [i]) (set_mutex (cbMutex_ s)
      (set_registrar i (mkRegistrar (RUnlock false) sc ac n) s))).
    destruct (swapped (stage s)) eqn:Hsw;
      [destruct (gd_swapped _ H Hsw) as [_ Hno]; by destruct (Hno i _ Hi) |].
    destruct Hok as [-> ->]. apply good_registrar with (1 := H) (2 := Hi); [done | | by intros; apply Hlk | auto | congruence].
    destruct (gd_pend _ H) as [P1 P2 P3]. fold (pending s).
    assert (Hni : i ∉ pending s) by (intros Hin; destruct (P2 i Hin) as (r0 & Hr0 & Hk0); by simplify_eq).
    apply (pend_perm _ (i :: pending s)); [unfold pending; by rewrite <- !app_assoc, (Permutation_middle (callbacks_ s)) |].
    pose proof (lookup_lt_Some _ _ _ Hi) as Hlt. split; [by apply list.NoDup_cons | |].
    + intros k [-> | Hin]%elem_of_cons; [eexists; by rewrite list_lookup_insert_eq |].
      destruct (P2 k Hin) as (r0 & Hr0 & Hk0). exists r0. rewrite list_lookup_insert_ne; [done |]. by intros ->.
    + inserted k y Hk; [left |]. intros Hw. right. by eapply P3.
  - change (set_mutex None _) with (set_callbacks (callbacks_ s) (set_mutex None
      (set_registrar i (mkRegistrar (if c then RRun else RHeld) sc ac n) s))).
    apply good_registrar with (1 := H) (2 := Hi); [by destruct c | apply Hpend; by destruct c | by destruct c | |].
    + right. right. by apply Hlk.
    + intros Hsw. split; [apply (gd_swapped _ H Hsw) | by destruct c].
  - rewrite <- same_registrar. destruct Hok as [-> ->].
    apply good_registrar with (1 := H) (2 := Hi); [done | | done | auto |].
    + eapply pend_update; [exact Hi | done | done | apply H].
    + intros Hsw. by split; [apply (gd_swapped _ H Hsw) |].
  - done.
  - done.
  - done.
Qed.

Lemma unregisterStep_good (i : nat) (s : CancelState) : good s -> good (unregisterStep i s).
Proof.
  intros H. unfold unregisterStep. destruct (registrars s !! i) as [r |] eqn:Hi; [| done].
  destruct (r_pc r) eqn:Hpc; try done. rewrite <- same_registrar.
  pose proof (gd_reg _ H i r Hi) as Hok. unfold reg_ok in Hok. rewrite Hpc in Hok.
  apply good_registrar with (1 := H) (2 := Hi); [| | done | auto |].
  - unfold reg_ok. cbn. split; [done |]. destruct (active r); lia.
  - eapply pend_update; [exact Hi | done | | apply H]. unfold awaited. cbn. by rewrite andb_comm.
  - intros Hsw. by split; [apply (gd_swapped _ H Hsw) |].
Qed.

(** *** A callback is called *)

Lemma fire_ok (r : Registrar) : kept (r_pc r) = true -> reg_ok r -> reg_ok (fire r) /\ awaited (fire r) = false.
Proof.
  intros Hk Hok. unfold awaited, fire, reg_ok in *.
  destruct r as [[| | | [] | | | |] sc [] n]; cbn in *; try done; split; try done; try lia; destruct Hok; congruence.
Qed.

Lemma posted_first (i : nat) (l : list nat) :
  NoDup l -> i ∈ l -> l ≡ₚ i :: list_difference l [i].
Proof.
  intros Hnd Hi. apply NoDup_Permutation; [done | |].
  - apply list.NoDup_cons. rewrite list_elem_of_difference, list_elem_of_singleton. split; [tauto |].
    by apply NoDup_list_difference.
  - intros k. rewrite elem_of_cons, list_elem_of_difference, list_elem_of_singleton.
    destruct (decide (k = i)) as [-> |]; tauto.
Qed.

Lemma postedStep_good (i : nat) (s : CancelState) : good s -> good (postedStep i s).
Proof.
  intros H. unfold postedStep. destruct (decide (i ∈ posted s)) as [Hin | _]; [| done].
  set (p := list_difference (posted s) [i]).
  assert (Hperm : pending s ≡ₚ i :: callbacks_ s ++ cbsOf (stage s) ++ p).
  { unfold pending. rewrite (posted_first i (posted s)) at 1; [| | done].
    - by rewrite (app_assoc (callbacks_ s)), <- Permutation_middle, app_assoc.
    - pose proof (pd_once _ _ (gd_pend _ H)) as Hnd. unfold pending in Hnd.
      by apply list.NoDup_app in Hnd as (_ & _ & (_ & _ & ?)%list.NoDup_app). }
  destruct (pd_kept _ _ (gd_pend _ H) i) as (r & Hi & Hk); [rewrite Hperm; left |]. rewrite Hi.
  destruct (fire_ok r Hk (gd_reg _ H i r Hi)) as [Hok Ha].
  assert (Hlocked : r_locked (r_pc (fire r)) = r_locked (r_pc r)) by (unfold fire; by destruct (active r)).
  assert (Hpush : r_pc (fire r) = r_pc r) by (unfold fire; by destruct (active r)).
  destruct H as [H1 H2 H3 H4 H5 H6 H7 H8 H9 H10]. split; try done; cbn.
  - eapply pend_consume; [exact Ha |]. by eapply pend_perm.
  - intros Hsw. destruct (H5 Hsw) as [Hc Hno]. split; [done |].
    inserted k y Hk'; [rewrite Hpush; by apply (Hno i) | by apply (Hno k)].
  - inserted k y Hk'; [done | by apply (H7 k)].
  - inserted k y Hk'; [rewrite Hlocked; by apply H9 | by apply H9].
Qed.

(** *** A waiter moves on *)

Lemma cancel_listed_update (ws : list Waiter) (l : list nat) (i : nat) (w w' : Waiter) :
  ws !! i = Some w -> waits w' = waits w -> listed ws l -> listed (<[i := w']> ws) l.
Proof.
  intros Hi Hw [Hnd Hin]. pose proof (lookup_lt_Some _ _ _ Hi). split; [done |]. intros k. rewrite Hin.
  destruct (decide (k = i)) as [-> | Hne].
  - rewrite list_lookup_insert_eq, Hi by done. split; intros (w0 & [= <-] & Hw0); eexists; (split; [done | congruence]).
  - by rewrite list_lookup_insert_ne by done.
Qed.

Lemma cancel_listed_push (ws : list Waiter) (l : list nat) (i : nat) (w w' : Waiter) :
  ws !! i = Some w -> waits w = false -> waits w' = true -> listed ws l -> listed (<[i := w']> ws) (i :: l).
Proof.
  intros Hi Hw Hw' [Hnd Hin]. pose proof (lookup_lt_Some _ _ _ Hi). split.
  - apply list.NoDup_cons. split; [| done]. rewrite Hin. intros (w0 & Hw0 & ?). congruence.
  - intros k. rewrite elem_of_cons, Hin. destruct (decide (k = i)) as [-> | Hne].
    + rewrite list_lookup_insert_eq by done. split; [intros _; by exists w' | by left].
    + rewrite list_lookup_insert_ne by done. split; [by intros [? |] | by right].
Qed.

Lemma listed_pop (ws : list Waiter) (l : list nat) (i : nat) (w' : Waiter) :
  waits w' = false -> listed ws (i :: l) -> listed (<[i := w']> ws) l.
Proof.
  intros Hw [Hnd Hin]. apply list.NoDup_cons in Hnd as [Hni Hnd]. split; [done |]. intros k.
  destruct (decide (k = i)) as [-> | Hne].
  - destruct (proj1 (Hin i) ltac:(left)) as (w & Hi & _). apply lookup_lt_Some in Hi.
    rewrite list_lookup_insert_eq by done. split; [done |]. intros (w0 & [= <-] & ?). congruence.
  - rewrite list_lookup_insert_ne, <- Hin by done. rewrite elem_of_cons. split; [by right | by intros [|]].
Qed.

Lemma good_waiter (s : CancelState) (i : nat) (w w' : Waiter) :
  good s -> waiters s !! i = Some w -> waits w' = waits w -> waiter_ok w' -> good (set_waiter i w' s).
Proof.
  intros [H1 H2 H3 H4 H5 H6 H7 H8 H9 H10] Hi Hw Hok. split; try done; cbn.
  - by eapply cancel_listed_update.
  - inserted k y Hk; [done | by apply (H8 k)].
Qed.

Lemma awaitStep_good (i : nat) (s : CancelState) : good s -> good (awaitStep i s).
Proof.
  intros H. unfold awaitStep. destruct (waiters s !! i) as [w |] eqn:Hi; [| done].
  pose proof (gd_waiter _ H i w Hi) as Hok. destruct w as [pc n]. unfold waiter_ok in Hok. cbn [w_pc times] in *.
  destruct pc.
  - subst n. eapply good_waiter; [done | exact Hi | |]; unfold waits, waiter_ok; destruct (isCancelled s); cbn; (done || lia).
  - subst n. destruct (waiters_ s) as [l |] eqn:Hl; [| eapply good_waiter; [done | exact Hi | done | unfold waiter_ok; cbn; lia]].
    destruct H as [H1 H2 H3 H4 H5 H6 H7 H8 H9 H10].
    assert (Hop : isCancelled s = false) by (unfold isCancelled; by rewrite Hl).
    split; try done; cbn.
    + by rewrite <- Hop.
    + intros j Hj. rewrite (H3 j Hj) in Hop. done.
    + unfold waitList in *. cbn. rewrite Hl in H6. by eapply cancel_listed_push.
    + inserted k y Hk; [unfold waiter_ok; cbn; lia | by apply (H8 k)].
  - destruct (Nat.eqb_spec n 0); [done |]. eapply good_waiter; [done | exact Hi | |]; [| done].
    unfold waits. cbn. by destruct n.
  - done.
Qed.

(** *** The cancelling thread moves on *)

Lemma good_canceller (s : CancelState) (j : nat) (pc pc' : CancellerPc) (m : option Holder) (cbs p : list nat)
    (rs : list Registrar) (ws : list Waiter) :
  good s -> cancellers s !! j = Some pc -> won pc = true -> won pc' = true ->
  pend rs (cbs ++ cbsOf pc' ++ p) -> listed ws (headOf pc') ->
  (swapped pc' = true -> cbs = [] /\ forall i r, rs !! i = Some r -> r_pc r <> RPush) ->
  (forall i r, rs !! i = Some r -> reg_ok r /\ (r_locked (r_pc r) = true -> m = Some (ByRegistrar i))) ->
  (forall i w, ws !! i = Some w -> waiter_ok w) ->
  (c_locked pc' = true -> m = Some (ByCanceller j)) ->
  m = cbMutex_ s \/ cbMutex_ s = None \/ cbMutex_ s = Some (ByCanceller j) ->
  good (mkCancel (waiters_ s) m cbs p rs ws (<[j := pc']> (cancellers s)) (owner s)).
Proof.
  intros [H1 H2 H3 H4 H5 H6 H7 H8 H9 H10] Hj Hw Hw' Hp Hl Hs Hr Hws Hc Hm.
  pose proof (H2 j pc Hj Hw) as Ho. pose proof (lookup_lt_Some _ _ _ Hj) as Hlt.
  assert (Hst : forall q c, stage (mkCancel q m cbs p rs ws (<[j := pc']> (cancellers s)) c) = pc' \/ c <> Some j).
  { intros q c. destruct (decide (c = Some j)) as [-> |]; [left | by right]. unfold stage. cbn.
    by rewrite list_lookup_insert_eq. }
  destruct (Hst (waiters_ s) (owner s)) as [Hst' | ?]; [| done].
  assert (Hcl : isCancelled s = true) by (rewrite H1; unfold stage; by rewrite Ho, Hj).
  assert (Hwn : waiters_ s = None) by (unfold isCancelled in Hcl; by destruct (waiters_ s)).
  split; unfold pending, waitList; rewrite ?Hst'; cbn; rewrite ?Hwn; try done.
  - inserted k y Hk; [done | by apply H2].
  - intros i r Hi. by apply (Hr i r).
  - intros i r Hi. by apply (Hr i r).
  - inserted k y Hk; [done |]. intros Hlk. specialize (H10 k y Hk Hlk). destruct Hm as [-> | [Hm | Hm]]; congruence.
Qed.

(** The head is exchanged. *)
Lemma close_good (j : nat) (s : CancelState) :
  good s -> cancellers s !! j = Some CClose ->
  good (match waiters_ s with
        | None => set_canceller j CAlready s
        | Some l => set_owner j (set_list None (set_canceller j (CLock l) s))
        end).
Proof.
  intros [H1 H2 H3 H4 H5 H6 H7 H8 H9 H10] Hj. pose proof (lookup_lt_Some _ _ _ Hj) as Hlt.
  unfold isCancelled, waitList, pending in *. destruct (waiters_ s) as [l |] eqn:Hl.
  - assert (Hst : stage (set_owner j (set_list None (set_canceller j (CLock l) s))) = CLock l)
      by (unfold stage; cbn; by rewrite list_lookup_insert_eq).
    assert (Hno : forall k pc, cancellers s !! k = Some pc -> won pc = false).
    { intros k pc Hk. destruct (won pc) eqn:Hw; [| done]. pose proof (H2 k pc Hk Hw) as Ho.
      unfold stage in H1. rewrite Ho, Hk in H1. cbn in H1. congruence. }
    assert (Hcb : cbsOf (stage s) = []) by (by destruct (stage s)). rewrite Hcb in H4.
    split; unfold isCancelled, waitList, pending; rewrite ?Hst; try done; cbn.
    + inserted k y Hk; [done |]. intros Hw. by rewrite (Hno k y Hk) in Hw.
    + inserted k y Hk; [done | by apply (H10 k)].
  - assert (Hst : stage (set_canceller j CAlready s) = stage s).
    { unfold stage in *. cbn. destruct (owner s) as [k |]; [| done].
      destruct (decide (k = j)) as [-> | Hne]; [by rewrite Hj in H1 | by rewrite list_lookup_insert_ne]. }
    split; unfold isCancelled, waitList, pending; rewrite ?Hst; cbn; rewrite ?Hl; try done.
    + inserted k y Hk; [done | by apply (H2 k)].
    + inserted k y Hk; [done | by apply (H10 k)].
Qed.

Lemma cancelStep_good (j : nat) (s : CancelState) : good s -> good (cancelStep j s).
Proof.
  intros H. unfold cancelStep. destruct (cancellers s !! j) as [pc |] eqn:Hj; [| done].
  pose proof (lookup_lt_Some _ _ _ Hj) as Hlt.
  assert (Hstage : won pc = true -> stage s = pc)
    by (intros Hw; unfold stage; by rewrite (gd_owner _ H j pc Hj Hw), Hj).
  assert (Hcur : won pc = true -> pend (registrars s) (callbacks_ s ++ cbsOf pc ++ posted s)
    /\ listed (waiters s) (headOf pc)
    /\ (swapped pc = true -> callbacks_ s = [] /\ forall i r, registrars s !! i = Some r -> r_pc r <> RPush)).
  { intros Hw. pose proof (gd_listed _ H) as Hl. pose proof (gd_pend _ H) as Hp. pose proof (gd_swapped _ H) as Hs.
    pose proof (gd_closed _ H) as Hc. unfold waitList, pending in *. rewrite (Hstage Hw) in *.
    unfold isCancelled in Hc. rewrite Hw in Hc. by destruct (waiters_ s). }
  assert (Hreg : forall i r, registrars s !! i = Some r ->
    reg_ok r /\ (r_locked (r_pc r) = true -> cbMutex_ s = Some (ByRegistrar i)))
    by (intros i r Hi; split; [by apply (gd_reg _ H i) | by apply (gd_rlock _ H i)]).
  pose proof (gd_clock _ H j pc Hj) as Hclk.
  pose proof (gd_waiter _ H) as Hwt.
  destruct pc as [| h | h | cbs h | cbs h | h | |]; cbn [won cbsOf headOf swapped c_locked] in *; try done;
    try destruct (Hcur eq_refl) as (Hp & Hl & Hs).
  - clear Hcur Hstage Hclk. by apply close_good.
  - destruct (decide (cbMutex_ s = None)) as [Hm | _]; [| done].
    apply (good_canceller s j _ (CSwap h) (Some (ByCanceller j)) (callbacks_ s) (posted s) (registrars s) (waiters s) H Hj);
      auto. intros i r Hi. split; [by apply (Hreg i) |]. intros Hlk. destruct (Hreg i r Hi) as [_ Hr].
    rewrite Hr in Hm; done.
  - apply (good_canceller s j _ (CUnlock (callbacks_ s) h) (cbMutex_ s) [] (posted s) (registrars s) (waiters s) H Hj);
      auto. intros _. split; [done |]. intros i r Hi Hpc. destruct (Hreg i r Hi) as [_ Hr].
    rewrite Hpc, Hclk in Hr by done. by specialize (Hr eq_refl).
  - apply (good_canceller s j _ (CFire cbs h) None (callbacks_ s) (posted s) (registrars s) (waiters s) H Hj); auto; try done.
    intros i r Hi. split; [by apply (Hreg i) |]. intros Hlk. destruct (Hreg i r Hi) as [_ Hr].
    rewrite Hclk in Hr by done. by specialize (Hr Hlk).
  - destruct (Hs eq_refl) as [Hc Hno]. destruct cbs as [| i cbs].
    + by apply (good_canceller s j _ (CResume h) (cbMutex_ s) (callbacks_ s) (posted s) (registrars s) (waiters s) H Hj); auto.
    + rewrite Hc in Hp. cbn [app] in Hp.
      destruct (pd_kept _ _ Hp i ltac:(left)) as (r & Hi & Hk). rewrite Hi. destruct (r_sched r).
      * apply (good_canceller s j _ (CFire cbs h) (cbMutex_ s) (callbacks_ s) (posted s ++ [i]) (registrars s) (waiters s) H Hj);
          auto. rewrite Hc. cbn [app cbsOf]. eapply pend_perm; [| exact Hp].
        cbn [app]. by rewrite (app_assoc cbs), (Permutation_app_comm _ [i]).
      * destruct (fire_ok r Hk (gd_reg _ H i r Hi)) as [Hok Ha].
        assert (Hpc : r_pc (fire r) = r_pc r) by (unfold fire; by destruct (active r)).
        apply (good_canceller s j _ (CFire cbs h) (cbMutex_ s) (callbacks_ s) (posted s) (<[i := fire r]> (registrars s))
          (waiters s) H Hj); auto.
        -- rewrite Hc. by apply pend_consume.
        -- intros _. split; [done |]. inserted k y Hk'; [rewrite Hpc; by apply (Hno i) | by apply (Hno k)].
        -- inserted k y Hk'; [| by apply Hreg]. split; [done |]. rewrite Hpc. by apply (Hreg i r Hi).
  - destruct h as [| i h].
    + by apply (good_canceller s j _ CDone (cbMutex_ s) (callbacks_ s) (posted s) (registrars s) (waiters s) H Hj); auto.
    + destruct (proj1 (proj2 Hl i) ltac:(left)) as (w & Hi & Hw). rewrite Hi.
      assert (Hsus : w_pc w = WSuspended /\ times w = 0%nat).
      { unfold waits in Hw. destruct (w_pc w); try done. by apply Nat.eqb_eq in Hw. }
      destruct Hsus as [Hpc Ht].
      apply (good_canceller s j _ (CResume h) (cbMutex_ s) (callbacks_ s) (posted s) (registrars s)
        (<[i := mkWaiter (w_pc w) (S (times w))]> (waiters s)) H Hj); auto.
      * eapply listed_pop; [| exact Hl]. unfold waits. cbn. by rewrite Hpc.
      * inserted k y Hk; [| by apply (Hwt k)]. unfold waiter_ok. cbn. rewrite Hpc, Ht. lia.
Qed.

Lemma cancel_turn_good (t : Turn) (s : CancelState) : good s -> good (turn t s).
Proof.
  destruct t; cbn [turn];
    [apply registerStep_good | apply unregisterStep_good | apply awaitStep_good | apply cancelStep_good | apply postedStep_good].
Qed.

Lemma cancel_run_good (ts : list Turn) (s : CancelState) : good s -> good (run ts s).
Proof. apply (foldl_invariant _ good). intros t s'. apply cancel_turn_good. Qed.

Lemma cancel_good_new (scheds : list bool) (n m : nat) : good (newCancel scheds n m).
Proof.
  assert (Hr : forall i r, map (fun b => mkRegistrar RLock b false 0) scheds !! i = Some r ->
    exists b, r = mkRegistrar RLock b false 0).
  { intros i r Hi. apply list_elem_of_lookup_2, list_elem_of_fmap in Hi as (b & -> & _). by exists b. }
  assert (Hw : forall i w, replicate n (mkWaiter WReady 0) !! i = Some w -> w = mkWaiter WReady 0)
    by (intros i w Hi; by apply lookup_replicate in Hi as [-> _]).
  assert (Hc : forall j pc, replicate m CClose !! j = Some pc -> pc = CClose)
    by (intros j pc Hj; by apply lookup_replicate in Hj as [-> _]).
  split; cbn; try done.
  - by intros j pc ->%Hc.
  - by intros j Hj%Hc.
  - split; [constructor | by intros i []%elem_of_nil |]. by intros i r (b & ->)%Hr.
  - split; [constructor |]. intros i. split; [by intros []%elem_of_nil |]. by intros (w & ->%Hw & ?).
  - by intros i r (b & ->)%Hr.
  - by intros i w ->%Hw.
  - by intros i r (b & ->)%Hr.
  - by intros j pc ->%Hc.
Qed.

(** *** Facts *)

(** A registration that was dropped is never looked at again. *)
Lemma dropped_turn (t : Turn) (s : CancelState) (i : nat) (r : Registrar) :
  registrars s !! i = Some r -> r_pc r = RDropped -> active r = true -> registrars (turn t s) !! i = Some r.
Proof.
  intros Hi Hpc Ha. assert (Hfire : fire r = r) by (unfold fire; by rewrite Ha).
  assert (Hother : forall k r', r' = r \/ k <> i -> <[k := r']> (registrars s) !! i = Some r).
  { intros k r' Hk. destruct (decide (k = i)) as [-> | Hne]; [| by rewrite list_lookup_insert_ne].
    destruct Hk as [-> |]; [| done]. apply list_lookup_insert_eq. by eapply lookup_lt_Some. }
  assert (Hk : forall k r0, registrars s !! k = Some r0 -> r_pc r0 <> RDropped -> k <> i) by (intros; congruence).
  assert (Hf : forall k r0, registrars s !! k = Some r0 -> fire r0 = r \/ k <> i).
  { intros k r0 Hr0. destruct (decide (k = i)) as [-> |]; [left; congruence | by right]. }
  destruct t as [k | k | k | j | k]; cbn [turn].
  - unfold registerStep. destruct (registrars s !! k) as [r0 |] eqn:Hr0; [| done].
    destruct (r_pc r0) eqn:Hp; try done; try (destruct (decide _); [| done]); cbn; apply Hother; right;
      (apply (Hk k r0 Hr0); congruence).
  - unfold unregisterStep. destruct (registrars s !! k) as [r0 |] eqn:Hr0; [| done].
    destruct (r_pc r0) eqn:Hp; try done. cbn. apply Hother. right. apply (Hk k r0 Hr0). congruence.
  - unfold awaitStep. by repeat case_match.
  - unfold cancelStep. destruct (cancellers s !! j) as [pc |]; [| done].
    destruct pc as [| h | h | cbs h | [| k cbs] h | [| k h] | |]; cbn; try done; try (by case_match).
    + destruct (registrars s !! k) as [r0 |] eqn:Hr0; [| done]. destruct (r_sched r0); [done |]. cbn.
      apply Hother. by eapply Hf.
  - unfold postedStep. destruct (decide _); [| done]. destruct (registrars s !! k) as [r0 |] eqn:Hr0; [| done].
    cbn. apply Hother. by eapply Hf.
Qed.

Lemma dropped_run (ts : list Turn) (s : CancelState) (i : nat) (r : Registrar) :
  registrars s !! i = Some r -> r_pc r = RDropped -> active r = true -> registrars (run ts s) !! i = Some r.
Proof.
  revert s. induction ts as [| t ts IH]; intros s Hi Hpc Ha; [done |]. cbn. apply IH; [| done | done].
  by apply dropped_turn.
Qed.

Definition ended (pc : CancellerPc) : bool := match pc with CDone | CAlready => true | _ => false end.

(** Once the cancelling threads are done and the schedulers have run what they
    were given, nothing is left. *)
Lemma quiescent (s : CancelState) :
  good s -> isCancelled s = true -> Forall (fun pc => ended pc = true) (cancellers s) -> posted s = [] ->
  pending s = [] /\ waitList s = [].
Proof.
  intros H Hc Hend Hp. pose proof (gd_closed _ H) as Hw. rewrite Hc in Hw. symmetry in Hw.
  assert (Hst : stage s = CDone).
  { unfold stage in *. destruct (owner s) as [j |]; [| done].
    destruct (cancellers s !! j) as [pc |] eqn:Hj; [| done]. cbn in *.
    rewrite Forall_lookup in Hend. specialize (Hend j pc Hj). by destruct pc. }
  unfold pending, waitList. rewrite Hst, Hp. destruct (gd_swapped _ H) as [-> _]; [by rewrite Hst |].
  unfold isCancelled in Hc. by destruct (waiters_ s).
Qed.

(** ** Properties *)

(** C22: a cancellation reaches everybody once.  However threads that cancel,
    coroutines that register callbacks and drop their registrations, coroutines
    that wait and schedulers that run what was dispatched to them interleave: no
    callback runs twice, and none runs after its registration was dropped; no
    waiter is resumed twice; and once the cancelling threads have returned and
    the schedulers have nothing left, every callback that is registered has run,
    also those that were registered while the source was being cancelled, and
    every waiter was resumed. *)
Theorem cancel_reaches_all (scheds : list bool) (n m : nat) (ts : list Turn) :
  let s := run ts (newCancel scheds n m) in
  (forall i r, registrars s !! i = Some r -> (runs r <= 1)%nat
     /\ (r_pc r = RDropped -> forall ts', registrars (run ts' s) !! i = Some r))
  /\ (forall i w, waiters s !! i = Some w -> (times w <= 1)%nat)
  /\ (isCancelled s = true -> Forall (fun pc => ended pc = true) (cancellers s) -> posted s = [] ->
      (forall i r, registrars s !! i = Some r -> r_pc r = RHeld \/ r_pc r = REmpty -> runs r = 1%nat)
      /\ (forall i w, waiters s !! i = Some w -> w_pc w = WSuspended -> times w = 1%nat)).
Proof.
  intros s. assert (H : good s) by apply cancel_run_good, cancel_good_new. split; [| split].
  - intros i r Hi. pose proof (gd_reg _ H i r Hi) as Hok. unfold reg_ok in Hok. split.
    + destruct (r_pc r) as [| | | [] | | | |]; try lia; destruct (active r); lia.
    + intros Hpc ts'. rewrite Hpc in Hok. destruct Hok as [Ha _]. by apply dropped_run.
  - intros i w Hi. pose proof (gd_waiter _ H i w Hi) as Hok. unfold waiter_ok in Hok. destruct (w_pc w); lia.
  - intros Hc Hend Hp. destruct (quiescent s H Hc Hend Hp) as [Hpend Hlist]. split.
    + intros i r Hi Hpc. pose proof (gd_reg _ H i r Hi) as Hok. unfold reg_ok in Hok.
      destruct Hpc as [Hpc | Hpc]; rewrite Hpc in Hok; [| done].
      destruct (active r) eqn:Ha; [done |]. exfalso.
      pose proof (pd_all _ _ (gd_pend _ H) i r Hi) as Hin. unfold awaited in Hin.
      rewrite Hpc, Ha, Hpend in Hin. by specialize (Hin eq_refl); apply elem_of_nil in Hin.
    + intros i w Hi Hpc. pose proof (gd_waiter _ H i w Hi) as Hok. unfold waiter_ok in Hok. rewrite Hpc in Hok.
      destruct (times w) as [| [|]] eqn:Ht; [| done | lia].
      destruct (gd_listed _ H) as [_ Hin]. rewrite Hlist in Hin.
      assert (He : i ∈ []) by (apply Hin; exists w; split; [done |]; unfold waits; by rewrite Hpc, Ht). by apply elem_of_nil in He.
Qed.

(** A callback registered while the source is cancelled: the two orders of the
    locks. *)
Example registered_before_swap :
  let s := run [Register 0; Register 0; Cancel 0; Register 0; Register 0; Cancel 0; Cancel 0; Cancel 0; Cancel 0; Posted 0]
             (newCancel [true] 0 1) in
  runs <$> registrars s !! 0%nat = Some 1%nat.
Proof. reflexivity. Qed.

Example registered_after_close :
  let s := run [Register 0; Cancel 0; Register 0; Register 0; Register 0] (newCancel [true] 0 1) in
  runs <$> registrars s !! 0%nat = Some 1%nat.
Proof. reflexivity. Qed.

