(* ===== verification/Timeout.v ===== *)
(** Deadlines, src/include/nitrocoro/core/Timeout.h: the coroutine that runs what
    is awaited, the coroutine that sleeps until the deadline, and the caller that
    the first of them resumes; every access to what they share a step of its
    own.  [V] is what the awaited operation gives. *)

From Stdlib Require Import ZArith Lia.
From stdpp Require Import base numbers option list.
From S2P Require Import Prelude.

(** ** Data *)

Section timeout.
Context {V : Type}.

(** [timeoutInner] with what the operation gave, a value or an exception: before
    it is stored, before the compare-exchange, before the caller is scheduled. *)
Inductive InnerPc : Type :=
| IStore (r : outcome V)
| ICas
| ISchedule
| IDone.

(** [timeoutTimer]: after its sleep. *)
Inductive TimerPc : Type :=
| TCas
| TFlag
| TSchedule
| TDone.

(** What [await_resume] ends with. *)
Inductive Answer : Type :=
| TimeoutException
| Rethrown (e : exn)
| Value (v : V)
| NoValue.

(** [TimeoutState], and the caller: how often it was scheduled and what it got. *)
Record TimeoutState : Type := mkTimeout {
  done_ : bool;
  value_ : option V;
  exception_ : option exn;
  timed_out_ : bool;
  inner : InnerPc;
  timer : TimerPc;
  scheduled : nat;
  answer : option Answer
}.

(** [await_suspend], when the operation will give [r]. *)
Definition newTimeout (r : outcome V) : TimeoutState := mkTimeout false None None false (IStore r) TCas 0 None.

(** ** Steps *)

Definition innerStep (s : TimeoutState) : TimeoutState :=
  match inner s with
  | IStore (Ok v) =>
      mkTimeout (done_ s) (Some v) (exception_ s) (timed_out_ s) ICas (timer s) (scheduled s) (answer s)
  | IStore (Throw e) =>
      mkTimeout (done_ s) (value_ s) (Some e) (timed_out_ s) ICas (timer s) (scheduled s) (answer s)
  | IStore _ => s
  | ICas =>
      if done_ s then
        mkTimeout (done_ s) (value_ s) (exception_ s) (timed_out_ s) IDone (timer s) (scheduled s) (answer s)
      else mkTimeout true (value_ s) (exception_ s) (timed_out_ s) ISchedule (timer s) (scheduled s) (answer s)
  | ISchedule =>
      mkTimeout (done_ s) (value_ s) (exception_ s) (timed_out_ s) IDone (timer s) (S (scheduled s)) (answer s)
  | IDone => s
  end.

Definition timerStep (s : TimeoutState) : TimeoutState :=
  match timer s with
  | TCas =>
      if done_ s then
        mkTimeout (done_ s) (value_ s) (exception_ s) (timed_out_ s) (inner s) TDone (scheduled s) (answer s)
      else mkTimeout true (value_ s) (exception_ s) (timed_out_ s) (inner s) TFlag (scheduled s) (answer s)
  | TFlag => mkTimeout (done_ s) (value_ s) (exception_ s) true (inner s) TSchedule (scheduled s) (answer s)
  | TSchedule =>
      mkTimeout (done_ s) (value_ s) (exception_ s) (timed_out_ s) (inner s) TDone (S (scheduled s)) (answer s)
  | TDone => s
  end.

(** [await_resume] *)
Definition resume (s : TimeoutState) : Answer :=
  if timed_out_ s then TimeoutException
  else
    match exception_ s, value_ s with
    | Some e, _ => Rethrown e
    | None, Some v => Value v
    | None, None => NoValue
    end.

Definition callerStep (s : TimeoutState) : TimeoutState :=
  match answer s with
  | Some _ => s
  | None =>
      if (scheduled s =? 0)%nat then s
      else mkTimeout (done_ s) (value_ s) (exception_ s) (timed_out_ s) (inner s) (timer s) (scheduled s)
             (Some (resume s))
  end.

Inductive Turn : Type := Inner | Timer | Caller.

Definition turn (t : Turn) : TimeoutState -> TimeoutState :=
  match t with Inner => innerStep | Timer => timerStep | Caller => callerStep end.

Definition run (ts : list Turn) (s : TimeoutState) : TimeoutState := foldl (fun s t => turn t s) s ts.

(** ** The invariant *)

(** What the operation gave, as the caller is to see it. *)
Definition given (r : outcome V) : option Answer :=
  match r with Ok v => Some (Value v) | Throw e => Some (Rethrown e) | _ => None end.

(** Who won, and how far the loser and the winner are. *)
Inductive good (r : outcome V) : TimeoutState -> Prop :=
| good_start s : done_ s = false -> timed_out_ s = false -> timer s = TCas -> scheduled s = 0%nat -> answer s = None ->
    inner s = IStore r /\ value_ s = None /\ exception_ s = None
    \/ inner s = ICas /\ given r = Some (resume s) -> good r s
| good_inner s : done_ s = true -> timed_out_ s = false -> timer s = TCas \/ timer s = TDone ->
    inner s = ISchedule /\ scheduled s = 0%nat \/ inner s = IDone /\ scheduled s = 1%nat ->
    given r = Some (resume s) -> answer s = None \/ (answer s = given r /\ scheduled s = 1%nat) -> good r s
| good_timer s : done_ s = true -> inner s = IStore r \/ inner s = ICas \/ inner s = IDone ->
    timer s = TFlag /\ scheduled s = 0%nat
    \/ timer s = TSchedule /\ scheduled s = 0%nat /\ timed_out_ s = true
    \/ timer s = TDone /\ scheduled s = 1%nat /\ timed_out_ s = true ->
    answer s = None \/ (answer s = Some TimeoutException /\ scheduled s = 1%nat) -> good r s.

Ltac settle :=
  first [ by apply good_start; cbn; auto 8 | by apply good_inner; cbn; auto 8 | by apply good_timer; cbn; auto 10 ].

Lemma timeout_turn_good (r : outcome V) (t : Turn) (s : TimeoutState) : good r s -> good r (turn t s).
Proof.
  intros H. destruct s as [d v e to i ti n a].
  inversion H as [s' | s' | s']; subst; cbn [done_ value_ exception_ timed_out_ inner timer scheduled answer] in *; subst;
    destruct t; cbn [turn]; unfold innerStep, timerStep, callerStep, resume in *;
    cbn [done_ value_ exception_ timed_out_ inner timer scheduled answer] in *;
    destruct_or?; destruct_and?; subst; cbn in *; try settle.
  all: try (destruct r; cbn in *; settle).
Qed.

Lemma timeout_run_good (r : outcome V) (ts : list Turn) : good r (run ts (newTimeout r)).
Proof.
  apply (foldl_invariant _ (good r)); [intros t s; apply timeout_turn_good |]. by apply good_start; auto.
Qed.
End timeout.

(** ** Properties *)

(** The first one decides.  However the operation, the timer and the caller
    interleave, the caller is scheduled at most once, and exactly once when both
    have ended; it gets the value or the exception of the operation, or the
    timeout when the timer was first, and never an empty result. *)
Theorem timeout_first_wins {V : Type} (r : outcome V) (ts : list Turn) :
  let s := run ts (newTimeout r) in
  (scheduled s <= 1)%nat
  /\ (forall a, answer s = Some a -> a = TimeoutException \/ given r = Some a)
  /\ (answer s = Some TimeoutException -> timed_out_ s = true)
  /\ (inner s = IDone -> timer s = TDone -> scheduled s = 1%nat).
Proof.
  intros s. assert (Hg : forall a, given r = Some a -> a <> TimeoutException) by (intros a; by destruct r; intros [= <-]).
  destruct (timeout_run_good r ts : good r s) as [s H1 H2 H3 H4 H5 H6 | s H1 H2 H3 H4 H5 H6 | s H1 H2 H3 H4].
  - rewrite H3, H4, H5. split; [lia |]. done.
  - split; [destruct_or!; destruct_and?; lia |]. split; [| split].
    + intros a Ha. destruct H6 as [H6 | [H6 _]]; [congruence | right; congruence].
    + intros Ha. destruct H6 as [H6 | [H6 _]]; [congruence |]. by destruct (Hg TimeoutException); [congruence |].
    + intros Hi _. by destruct H4 as [[? ?] | [? ?]]; [congruence |].
  - split; [destruct_or!; destruct_and?; lia |]. split; [| split].
    + intros a Ha. destruct H4 as [H4 | [H4 _]]; [congruence | left; congruence].
    + intros Ha. destruct H4 as [H4 | [H4 Hs]]; [congruence |]. by destruct_or!; destruct_and?; try congruence.
    + intros _ Ht. by destruct_or!; destruct_and?; try congruence.
Qed.

(** An operation that gives its value just before the deadline, whose timer
    comes first. *)
Example timer_first :
  answer (run [Inner; Timer; Inner; Timer; Timer; Caller] (newTimeout (Ok tt))) = Some TimeoutException.
Proof. reflexivity. Qed.
