(* ===== verification/PgConfig.v ===== *)
(** The settings and the values of a PostgreSQL connection: [toConnStr] and
    [parseConnStr] of src/extensions/pg/src/PgConnectionImpl.cc, the parameters
    [sendAndReceive] hands to libpq, and [PgResult] of
    src/extensions/pg/src/PgResult.cc.

    libpq is outside src/: [PQconninfoParse] and what a result holds are
    arguments.  A [double] is an argument too, with [std::to_string] and
    [std::stod] on it. *)

From Stdlib Require Import ZArith Lia String Strings.Byte.
From stdpp Require Import base numbers option list gmap.
From S2P Require Import Prelude CxxStd Split.
Open Scope Z_scope.

(** ** [PgConnectConfig] *)

Record PgConnectConfig : Type := mkConfig {
  host : bytes;
  port : Z;
  dbname : bytes;
  user : bytes;
  password : bytes;
  connectTimeoutMs : Z;
  statementTimeoutMs : Z;
  lockTimeoutMs : Z;
  applicationName : bytes;
  options : gmap bytes bytes
}.

Definition newConfig : PgConnectConfig := mkConfig (str "localhost") 5432 [] [] [] 0 0 0 [] ∅.

(** [connOptions]: the fields that have an option, and the options over them. *)
Definition connOptions (c : PgConnectConfig) : gmap bytes bytes :=
  let m := ∅ in
  let m := if 0 <? statementTimeoutMs c
           then <[str "statement_timeout" := to_string (statementTimeoutMs c) ++ str "ms"]> m else m in
  let m := if 0 <? lockTimeoutMs c
           then <[str "lock_timeout" := to_string (lockTimeoutMs c) ++ str "ms"]> m else m in
  let m := if decide (applicationName c = []) then m
           else <[str "application_name" := applicationName c]> m in
  options c ∪ m.

(** [key='value' ] *)
Definition setting (kv : bytes * bytes) : bytes := kv.1 ++ str "='" ++ kv.2 ++ str "' ".

(** [-c key=value ] *)
Definition optionText (kv : bytes * bytes) : bytes := str "-c " ++ kv.1 ++ str "=" ++ kv.2 ++ str " ".

Definition optionsText (l : list (bytes * bytes)) : bytes := concat (map optionText l).

Definition unlessEmpty (k v : bytes) : list (bytes * bytes) := if decide (v = []) then [] else [(k, v)].

(** The settings in the order they are written; [iter] is the order in which the
    loop visits [connOptions]. *)
Definition settings (iter : list (bytes * bytes)) (c : PgConnectConfig) : list (bytes * bytes) :=
  [(str "host", host c); (str "port", to_string (port c))]
  ++ unlessEmpty (str "dbname") (dbname c) ++ unlessEmpty (str "user") (user c)
  ++ unlessEmpty (str "password") (password c)
  ++ (if decide (iter = []) then [] else [(str "options", optionsText iter)]).

Definition toConnStr (iter : list (bytes * bytes)) (c : PgConnectConfig) : bytes :=
  concat (map setting (settings iter c)).

(** *** [parseConnStr] *)

(** [while (pos < s.size() && s\[pos\] == ' ') ++pos;] *)
Fixpoint leadingBlanks (s : bytes) : Z :=
  match s with
  | b :: s' => if Byte.eqb b x20 then 1 + leadingBlanks s' else 0
  | [] => 0
  end.

Definition skipBlanks (s : bytes) (pos : Z) : Z := pos + leadingBlanks (drop (Z.to_nat pos) s).

(** Every round takes the two characters of a [-c]. *)
Fixpoint optionsLoop (fuel : nat) (optStr : bytes) (pos : Z) (opts : gmap bytes bytes)
  : outcome (gmap bytes bytes) :=
  if pos <? size optStr then
    match fuel with
    | O => Diverge
    | S fuel' =>
        let pos := skipBlanks optStr pos in
        let! isOption := (if pos + 2 <? size optStr then
                            let! two := sv_substr optStr pos 2 in Ok (bool_decide (two = str "-c"))
                          else Ok false) in
        if isOption then
          let pos := skipBlanks optStr (pos + 2) in
          let eq := sv_find optStr x3d pos in
          let sp := sv_find optStr x20 pos in
          if eq =? npos then optionsLoop fuel' optStr pos opts
          else
            let! key := sv_substr optStr pos (u64 (eq - pos)) in
            let! v := sv_substr optStr (eq + 1) (if sp =? npos then sp else u64 (u64 (sp - eq) - 1)) in
            optionsLoop fuel' optStr (if sp =? npos then size optStr else sp) (<[key := v]> opts)
        else Ok opts
    end
  else Ok opts.

Definition parseOptions (optStr : bytes) (opts : gmap bytes bytes) : outcome (gmap bytes bytes) :=
  optionsLoop (S (length optStr)) optStr 0 opts.

Definition set_host (v : bytes) (c : PgConnectConfig) : PgConnectConfig :=
  mkConfig v (port c) (dbname c) (user c) (password c) (connectTimeoutMs c) (statementTimeoutMs c)
    (lockTimeoutMs c) (applicationName c) (options c).
Definition set_port (v : Z) (c : PgConnectConfig) : PgConnectConfig :=
  mkConfig (host c) v (dbname c) (user c) (password c) (connectTimeoutMs c) (statementTimeoutMs c)
    (lockTimeoutMs c) (applicationName c) (options c).
Definition set_dbname (v : bytes) (c : PgConnectConfig) : PgConnectConfig :=
  mkConfig (host c) (port c) v (user c) (password c) (connectTimeoutMs c) (statementTimeoutMs c)
    (lockTimeoutMs c) (applicationName c) (options c).
Definition set_user (v : bytes) (c : PgConnectConfig) : PgConnectConfig :=
  mkConfig (host c) (port c) (dbname c) v (password c) (connectTimeoutMs c) (statementTimeoutMs c)
    (lockTimeoutMs c) (applicationName c) (options c).
Definition set_password (v : bytes) (c : PgConnectConfig) : PgConnectConfig :=
  mkConfig (host c) (port c) (dbname c) (user c) v (connectTimeoutMs c) (statementTimeoutMs c)
    (lockTimeoutMs c) (applicationName c) (options c).
Definition set_options (v : gmap bytes bytes) (c : PgConnectConfig) : PgConnectConfig :=
  mkConfig (host c) (port c) (dbname c) (user c) (password c) (connectTimeoutMs c) (statementTimeoutMs c)
    (lockTimeoutMs c) (applicationName c) v.

Definition applySetting (kw val : bytes) (cfg : PgConnectConfig) : outcome PgConnectConfig :=
  if decide (kw = str "host") then Ok (set_host val cfg)
  else if decide (kw = str "port") then let! p := stoi val in Ok (set_port (u16 p) cfg)
  else if decide (kw = str "dbname") then Ok (set_dbname val cfg)
  else if decide (kw = str "user") then Ok (set_user val cfg)
  else if decide (kw = str "password") then Ok (set_password val cfg)
  else if decide (kw = str "options") then
    let! m := parseOptions val (options cfg) in Ok (set_options m cfg)
  else Ok cfg.

(** The loop over [PQconninfoOption]s; a setting that is not given has no
    value. *)
Fixpoint applySettings (opts : list (bytes * option bytes)) (cfg : PgConnectConfig) : outcome PgConnectConfig :=
  match opts with
  | [] => Ok cfg
  | (kw, None) :: opts' => applySettings opts' cfg
  | (kw, Some val) :: opts' => let! cfg := applySetting kw val cfg in applySettings opts' cfg
  end.

Section parse.
Context (PQconninfoParse : bytes -> option (list (bytes * option bytes))).

Definition parseConnStr (s : bytes) : outcome PgConnectConfig :=
  match PQconninfoParse s with
  | None => Throw (RuntimeError "PgConnectConfig::parseConnStr: ")
  | Some opts => applySettings opts newConfig
  end.
End parse.

(** ** Options *)

(** A key or a value that survives: no blank, and no [=] in a key. *)
Definition option_ok (kv : bytes * bytes) : Prop :=
  Forall (fun b => Byte.eqb x20 b = false) kv.1 /\ Forall (fun b => Byte.eqb x3d b = false) kv.1
  /\ Forall (fun b => Byte.eqb x20 b = false) kv.2.

Lemma leadingBlanks_none (b : byte) (s : bytes) : Byte.eqb x20 b = false -> leadingBlanks (b :: s) = 0.
Proof.
  intros Hb. cbn. destruct (Byte.eqb b x20) eqn:He; [| done]. apply Byte.byte_dec_bl in He as ->. done.
Qed.

Lemma skipBlanks_at (p s : bytes) : skipBlanks (p ++ s) (size p) = size p + leadingBlanks s.
Proof. unfold skipBlanks. unfold size at 2. by rewrite Nat2Z.id, drop_app_length. Qed.

Lemma optionText_size (kv : bytes * bytes) : size (optionText kv) = 5 + size kv.1 + size kv.2.
Proof. unfold optionText. rewrite !size_app. change (size (str "-c ")) with 3. change (size (str "=")) with 1.
  change (size (str " ")) with 1. lia. Qed.

(** The key and the value begin without a blank, whatever they are. *)
Lemma option_first (kv : bytes * bytes) (s : bytes) :
  option_ok kv -> leadingBlanks (kv.1 ++ x3d :: s) = 0.
Proof.
  intros (Hk & _). destruct kv.1 as [| b k]; [done |]. apply leadingBlanks_none. by inversion Hk.
Qed.

(** The parts of an option and where they are. *)
Lemma option_parts (p k v rest : bytes) :
  let s := p ++ (k ++ str "=" ++ v ++ str " ") ++ rest in
  option_ok (k, v) -> size s < 2 ^ 62 ->
  sv_find s x3d (size p) = size p + size k
  /\ sv_find s x20 (size p) = size p + size k + 1 + size v
  /\ sv_substr s (size p) (size k) = Ok k
  /\ sv_substr s (size p + size k + 1) (size v) = Ok v.
Proof.
  intros s (Hk & Hke & Hv) Hs. cbn [fst snd] in *. unfold s, sv_find. split; [| split; [| split]].
  - rewrite <- app_assoc. by apply sv_find_if_app.
  - replace ((k ++ str "=" ++ v ++ str " ") ++ rest) with ((k ++ str "=" ++ v) ++ x20 :: rest)
      by (by rewrite <- !app_assoc).
    rewrite sv_find_if_app; [rewrite !size_app; change (size (str "=")) with 1; lia | | done].
    apply Forall_app. split; [done |]. apply Forall_app. split; [by repeat constructor | done].
  - rewrite <- app_assoc. by apply sv_substr_mid.
  - replace (p ++ (k ++ str "=" ++ v ++ str " ") ++ rest) with ((p ++ k ++ str "=") ++ v ++ str " " ++ rest)
      by (by rewrite <- !app_assoc).
    replace (size p + size k + 1) with (size (p ++ k ++ str "="))
      by (rewrite !size_app; change (size (str "=")) with 1; lia).
    by apply sv_substr_mid.
Qed.

(** One round of the loop. *)
Lemma optionsLoop_round (fuel : nat) (p q k v rest : bytes) (m : gmap bytes bytes) :
  let s := p ++ q ++ optionText (k, v) ++ rest in
  option_ok (k, v) -> size s < 2 ^ 62 -> q = [] \/ q = [x20] ->
  optionsLoop (S fuel) s (size p) m
  = optionsLoop fuel s (size (p ++ q ++ str "-c " ++ k ++ str "=" ++ v)) (<[k := v]> m).
Proof.
  intros s Hkv Hs Hq. cbn [optionsLoop].
  pose proof (size_nonneg p). pose proof (size_nonneg q). pose proof (size_nonneg k). pose proof (size_nonneg v).
  pose proof (size_nonneg rest).
  assert (Hsize : size s = size p + size q + (5 + size k + size v) + size rest)
    by (unfold s; rewrite !size_app, optionText_size; cbn [fst snd]; lia).
  destruct (Z.ltb_spec (size p) (size s)); [| lia].
  assert (Hb0 : skipBlanks s (size p) = size (p ++ q)).
  { unfold s. rewrite skipBlanks_at, size_app. by destruct Hq as [-> | ->]. }
  rewrite Hb0. rewrite size_app. destruct (Z.ltb_spec (size p + size q + 2) (size s)); [| lia]. rewrite <- size_app.
  set (p3 := p ++ q ++ str "-c ").
  assert (Hs3 : s = p3 ++ (k ++ str "=" ++ v ++ str " ") ++ rest)
    by (unfold s, p3, optionText; cbn [fst snd]; by rewrite <- !app_assoc).
  assert (Hp3 : size p3 = size p + size q + 3) by (unfold p3; rewrite !size_app; change (size (str "-c ")) with 3; lia).
  assert (Htwo : sv_substr s (size (p ++ q)) 2 = Ok (str "-c")).
  { replace s with ((p ++ q) ++ str "-c" ++ str " " ++ (k ++ str "=" ++ v ++ str " ") ++ rest)
      by (rewrite Hs3; unfold p3; by rewrite <- !app_assoc). by apply sv_substr_mid. }
  rewrite Htwo. cbn [obind]. rewrite bool_decide_eq_true_2 by done.
  assert (Hskip : skipBlanks s (size (p ++ q) + 2) = size p3).
  { replace (size (p ++ q) + 2) with (size (p ++ q ++ str "-c"))
      by (rewrite !size_app; change (size (str "-c")) with 2; lia).
    replace s with ((p ++ q ++ str "-c") ++ x20 :: k ++ x3d :: v ++ str " " ++ rest)
      by (rewrite Hs3; unfold p3; by rewrite <- !app_assoc).
    rewrite skipBlanks_at, Hp3. pose proof (option_first (k, v) (v ++ str " " ++ rest) Hkv) as Hf. cbn [fst] in Hf.
    cbn [leadingBlanks]. change (Byte.eqb x20 x20) with true. cbn iota. rewrite Hf, !size_app.
    change (size (str "-c")) with 2. lia. }
  rewrite Hskip. pose proof Hs as Hs'. rewrite Hs3 in Hs'. rewrite Hsize in Hs.
  destruct (option_parts p3 k v rest Hkv Hs') as (Hf1 & Hf2 & Hf3 & Hf4).
  rewrite <- Hs3 in Hf1, Hf2, Hf3, Hf4. rewrite Hf1, Hf2. unfold npos.
  destruct (Z.eqb_spec (size p3 + size k) (2 ^ 64 - 1)); [lia |].
  destruct (Z.eqb_spec (size p3 + size k + 1 + size v) (2 ^ 64 - 1)); [lia |].
  replace (u64 (size p3 + size k - size p3)) with (size k) by (unfold u64; rewrite Z.mod_small; lia).
  rewrite Hf3. cbn [obind].
  replace (u64 (u64 (size p3 + size k + 1 + size v - (size p3 + size k)) - 1)) with (size v)
    by (unfold u64; rewrite !Z.mod_small; rewrite ?Z.mod_small; lia).
  rewrite Hf4. cbn [obind]. f_equal. rewrite !size_app. change (size (str "-c ")) with 3. change (size (str "=")) with 1. lia.
Qed.

Lemma optionsLoop_text (l : list (bytes * bytes)) (fuel : nat) (p q : bytes) (m : gmap bytes bytes) :
  Forall option_ok l -> (length l < fuel)%nat -> size (p ++ q ++ optionsText l) < 2 ^ 62 ->
  q = [] \/ q = [x20] ->
  optionsLoop fuel (p ++ q ++ optionsText l) (size p) m
  = Ok (foldl (fun m kv => <[kv.1 := kv.2]> m) m l).
Proof.
  revert fuel p q m. induction l as [| [k v] l IH]; intros fuel p q m Hl Hf Hs Hq;
    (destruct fuel as [| fuel]; [cbn in Hf; lia |]); unfold optionsText in *; cbn [map concat foldl fst snd] in *.
  - cbn [optionsLoop]. rewrite app_nil_r, size_app. destruct (Z.ltb_spec (size p) (size p + size q)); [| done].
    rewrite skipBlanks_at. assert (Hlb : leadingBlanks q = size q) by (by destruct Hq as [-> | ->]).
    rewrite Hlb. destruct (Z.ltb_spec (size p + size q + 2) (size p + size q)); [lia | done].
  - inversion_clear Hl as [| ? ? Hkv Hl']. rewrite optionsLoop_round by done.
    assert (Hnext : p ++ q ++ optionText (k, v) ++ concat (map optionText l)
      = (p ++ q ++ str "-c " ++ k ++ str "=" ++ v) ++ [x20] ++ concat (map optionText l))
      by (unfold optionText; cbn [fst snd]; by rewrite <- !app_assoc).
    rewrite Hnext in *. apply IH; [done | cbn in Hf; lia | done | by right].
Qed.

(** Keys are visited once: the fold is the map. *)
Lemma inserts_map (l : list (bytes * bytes)) (m : gmap bytes bytes) :
  NoDup (map fst l) ->
  foldl (fun m kv => <[kv.1 := kv.2]> m) m l = list_to_map l ∪ m.
Proof.
  revert m. induction l as [| [k v] l IH]; intros m Hnd; cbn; [by rewrite (left_id_L ∅ (∪)) |].
  apply list.NoDup_cons in Hnd as [Hk Hnd]. rewrite IH by done.
  rewrite <- insert_union_l. apply map_eq. intros i. rewrite lookup_union.
  destruct (decide (i = k)) as [-> | Hne].
  - rewrite !lookup_insert_eq. assert (Hn : (list_to_map l : gmap bytes bytes) !! k = None)
      by (by apply not_elem_of_list_to_map). by rewrite Hn.
  - by rewrite !lookup_insert_ne, lookup_union by done.
Qed.

(** What [toConnStr] writes as options, [parseConnStr] reads back. *)
Lemma parseOptions_text (l : list (bytes * bytes)) (m : gmap bytes bytes) :
  l ≡ₚ map_to_list m -> Forall option_ok l -> size (optionsText l) < 2 ^ 62 ->
  parseOptions (optionsText l) ∅ = Ok m.
Proof.
  intros Hperm Hl Hs. unfold parseOptions.
  assert (Hlen : (length l <= length (optionsText l))%nat).
  { clear. induction l as [| kv l IH]; [done |]. unfold optionsText in *. cbn [map concat length].
    rewrite length_app. pose proof (optionText_size kv). unfold size in *. lia. }
  pose proof (optionsLoop_text l (S (length (optionsText l))) [] [] ∅ Hl) as H. cbn [app] in H.
  rewrite size_nil in H. rewrite H; [| lia | done | by left]. f_equal.
  assert (Hnd : NoDup (map fst l)) by (rewrite Hperm; apply NoDup_fst_map_to_list).
  rewrite inserts_map, (right_id_L ∅ (∪)) by done.
  rewrite (list_to_map_proper l (map_to_list m)) by done. apply list_to_map_to_list.
Qed.

(** ** Values *)

Section values.
Context {F : Type} (to_string_f : F -> bytes) (stod : bytes -> outcome F).

(** [PgValue] *)
Inductive PgValue : Type :=
| Monostate
| VBool (b : bool)
| VInt (n : Z)
| VDouble (d : F)
| VText (s : bytes)
| VBytes (d : bytes).

(** One parameter of [PQsendQueryParams]: the pointer, null or to the octets,
    the length and whether the format is binary. *)
Record Param : Type := mkParam {
  p_value : option bytes;
  p_length : Z;
  p_format : Z
}.

Definition i32 (n : Z) : Z := let m := n mod 2 ^ 32 in if m <? 2 ^ 31 then m else m - 2 ^ 32.

(** [data_empty]: whether [data()] of an empty vector is null. *)
Definition encodeParam (data_empty : bool) (v : PgValue) : Param :=
  let text s := mkParam (Some s) (i32 (size s)) 0 in
  match v with
  | Monostate => mkParam None 0 0
  | VBool b => text (if b then str "t" else str "f")
  | VInt n => text (to_string n)
  | VDouble d => text (to_string_f d)
  | VText s => text s
  | VBytes d =>
      mkParam (if bool_decide (d = []) && data_empty then None else Some d) (i32 (size d)) 1
  end.

Definition encodeParams (data_empty : bool) (params : list PgValue) : list Param :=
  map (encodeParam data_empty) params.

(** [std::stoll] *)
Definition stoll (s : bytes) : outcome Z :=
  match parse_number 10 s with
  | None => Throw (InvalidArgument "stoll")
  | Some (neg, v) =>
      let r := if neg then - v else v in
      if (r <? - 2 ^ 63) || (2 ^ 63 <=? r) then Throw (OutOfRange "stoll") else Ok r
  end.

(** A [PGresult]: its columns with their types and names, and its rows, a field
    null or the text libpq has for it. *)
Record PGresult : Type := mkPGresult {
  fields : list (Z * bytes);
  tuples : list (list (option bytes))
}.

Context (PQunescapeBytea : bytes -> bytes).

Record PgResult : Type := mkPgResult {
  res_ : option PGresult;
  rows_ : Z;
  cols_ : Z
}.

Definition newResult (res : option PGresult) : PgResult :=
  mkPgResult res (match res with Some r => size (tuples r) | None => 0 end)
    (match res with Some r => size (fields r) | None => 0 end).

Definition colName (col : Z) (r : PgResult) : outcome (option bytes) :=
  if cols_ r <=? col then Ok None
  else match res_ r with
       | None => Undefined
       | Some res => let! f := at_ (fields res) col in Ok (Some (snd f))
       end.

(** [get]; the character after the last one of a [const char *] is zero. *)
Definition get (row col : Z) (r : PgResult) : outcome PgValue :=
  if (rows_ r <=? row) || (cols_ r <=? col) then Ok Monostate
  else
    match res_ r with
    | None => Undefined
    | Some res =>
        let! tuple := at_ (tuples res) row in
        let! field := at_ tuple col in
        match field with
        | None => Ok Monostate
        | Some val =>
            let! f := at_ (fields res) col in
            let oid := fst f in
            if oid =? 16 then Ok (VBool (match val with b :: _ => Byte.eqb b x74 | [] => false end))
            else if (oid =? 20) || (oid =? 21) || (oid =? 23) then let! n := stoll val in Ok (VInt n)
            else if (oid =? 700) || (oid =? 701) || (oid =? 1700) then let! d := stod val in Ok (VDouble d)
            else if oid =? 17 then Ok (VBytes (PQunescapeBytea val))
            else Ok (VText val)
        end
    end.

(** A result is a table. *)
Definition result_ok (res : PGresult) : Prop :=
  Forall (fun t => length t = length (fields res)) (tuples res).

(** The type a value is sent with, as the server names it; what it answers to
    [SELECT $1] of that type in text. *)
Definition echoes (v : PgValue) (oid : Z) (answer : option bytes) : Prop :=
  match v with
  | Monostate => answer = None
  | VBool b => oid = 16 /\ answer = p_value (encodeParam true v)
  | VInt n => (oid = 20 /\ - 2 ^ 63 <= n < 2 ^ 63) /\ answer = p_value (encodeParam true v)
  | VDouble d => oid = 701 /\ answer = p_value (encodeParam true v) /\ stod (to_string_f d) = Ok d
  | VText s => oid = 25 /\ answer = p_value (encodeParam true v)
  | VBytes d => oid = 17 /\ exists t, answer = Some t /\ PQunescapeBytea t = d
  end.
End values.
Arguments PgValue F : clear implicits.

Lemma parse_number_to_string (n : Z) :
  - 2 ^ 63 <= n < 2 ^ 63 -> parse_number 10 (to_string n) = Some (n <? 0, Z.abs n).
Proof.
  intros Hn. unfold to_string. destruct (Z.ltb_spec n 0) as [Hneg | Hpos].
  - pose proof (parse_number_digits 10 (- n) 20 ltac:(by left) ltac:(lia) ltac:(lia)) as H.
    unfold parse_number in *. change (skip_space (chr "-" :: digits_of 10 20 (- n) []))
      with (chr "-" :: digits_of 10 20 (- n) []). change (parse_sign (chr "-" :: digits_of 10 20 (- n) []))
      with (true, digits_of 10 20 (- n) []).
    destruct (digits_of_spec 10 20 (- n) []) as (ds & Hds & Hlen & Hall & _); [by left | lia | lia |].
    rewrite app_nil_r in Hds. rewrite Hds in *. destruct ds as [| b0 ds]; [cbn in Hlen; lia |].
    apply Forall_cons in Hall as [(d0 & Hd0 & ->) _].
    destruct (digit_char_plain 10 d0 (or_introl eq_refl) Hd0) as (Hs & Hm & Hpl & _).
    cbn [skip_space] in H. rewrite Hs in H. cbn [parse_sign] in H. rewrite Hm, Hpl in H. cbn iota in H.
    destruct (skip_0x 10 (digit_char d0 :: ds)) as [| b r]; [done |]. destruct (digit_val 10 b); [| done].
    assert (He : parse_digits 10 0 (b :: r) = - n) by congruence. rewrite He. do 2 f_equal. lia.
  - rewrite parse_number_digits; [| by left | lia | lia]. do 2 f_equal. lia.
Qed.

Lemma stoll_to_string (n : Z) : - 2 ^ 63 <= n < 2 ^ 63 -> stoll (to_string n) = Ok n.
Proof.
  intros Hn. unfold stoll. rewrite parse_number_to_string by done.
  replace (if n <? 0 then - Z.abs n else Z.abs n) with n by (destruct (Z.ltb_spec n 0); lia).
  destruct (Z.ltb_spec n (- 2 ^ 63)); [lia |]. destruct (Z.leb_spec (2 ^ 63) n); [lia | done].
Qed.

Lemma stoi_to_string (n : Z) : - 2 ^ 31 <= n < 2 ^ 31 -> stoi (to_string n) = Ok n.
Proof.
  intros Hn. unfold stoi. rewrite parse_number_to_string by lia.
  replace (if n <? 0 then - Z.abs n else Z.abs n) with n by (destruct (Z.ltb_spec n 0); lia).
  destruct (Z.ltb_spec n (- 2 ^ 31)); [lia |]. destruct (Z.leb_spec (2 ^ 31) n); [lia | done].
Qed.

(** ** Properties *)

(** The settings that were given. *)
Definition given (l : list (bytes * option bytes)) : list (bytes * bytes) :=
  omap (fun kv => pair kv.1 <$> kv.2) l.

Lemma applySettings_given (l : list (bytes * option bytes)) (c : PgConnectConfig) :
  applySettings l c = applySettings (map (fun kv => (kv.1, Some kv.2)) (given l)) c.
Proof.
  revert c. induction l as [| [k [v |]] l IH]; intros c; [done | | apply IH]. cbn.
  destruct (applySetting k v c); [apply IH | done ..].
Qed.

(** settings survive the connection string.  What [toConnStr] writes,
    in whatever order the options are visited, [parseConnStr] reads back, with
    the timeouts and the name among the options, when libpq finds in the string
    the settings as they were written and the options have no blanks. *)
Theorem pg_config_roundtrip (PQconninfoParse : bytes -> option (list (bytes * option bytes)))
    (c : PgConnectConfig) (iter : list (bytes * bytes)) (l : list (bytes * option bytes)) :
  iter ≡ₚ map_to_list (connOptions c) -> Forall option_ok iter -> size (optionsText iter) < 2 ^ 62 ->
  0 <= port c < 2 ^ 16 ->
  PQconninfoParse (toConnStr iter c) = Some l -> given l = settings iter c ->
  parseConnStr PQconninfoParse (toConnStr iter c)
  = Ok (mkConfig (host c) (port c) (dbname c) (user c) (password c) 0 0 0 [] (connOptions c)).
Proof.
  intros Hperm Hok Hsize Hport Hparse Hgiven. unfold parseConnStr. rewrite Hparse, applySettings_given, Hgiven.
  assert (Hp : applySetting (str "port") (to_string (port c)) (set_host (host c) newConfig)
    = Ok (set_port (port c) (set_host (host c) newConfig))).
  { unfold applySetting. rewrite decide_False, decide_True by done. rewrite stoi_to_string by lia. cbn [obind].
    unfold u16. by rewrite Z.mod_small. }
  assert (Ho : (if decide (iter = []) then [] else [(str "options", optionsText iter)]) = []
    /\ connOptions c = ∅ \/ (if decide (iter = []) then [] else [(str "options", optionsText iter)])
       = [(str "options", optionsText iter)]).
  { destruct (decide (iter = [])) as [-> |]; [left | by right]. split; [done |].
    apply map_to_list_empty_iff. by apply Permutation_nil in Hperm. }
  unfold settings, unlessEmpty. cbn [app map applySettings fst snd].
  change (applySetting (str "host") (host c) newConfig) with (Ok (set_host (host c) newConfig)). cbn [obind].
  rewrite Hp. cbn [obind].
  pose proof (parseOptions_text iter (connOptions c) Hperm Hok Hsize) as Hopt.
  destruct Ho as [[-> Hnone] | ->]; [rewrite Hnone |];
    destruct (decide (dbname c = [])) as [-> |], (decide (user c = [])) as [-> |], (decide (password c = [])) as [-> |];
    cbn [app map applySettings fst snd]; unfold applySetting;
    repeat (first [rewrite decide_True by done | rewrite decide_False by done]; cbn [obind]);
    cbn [options set_host set_port set_dbname set_user set_password set_options newConfig]; rewrite ?Hopt; done.
Qed.

Lemma pg_config_roundtrip_witness :
  let c := mkConfig (str "db") 5433 (str "app") [] (str "pw") 100 2000 0 (str "svc") ∅ in
  let iter := [(str "application_name", str "svc"); (str "statement_timeout", str "2000ms")] in
  let libpq (s : bytes) := Some ((str "sslmode", None) :: map (fun kv => (kv.1, Some kv.2)) (settings iter c)) in
  parseConnStr libpq (toConnStr iter c)
  = Ok (mkConfig (str "db") 5433 (str "app") [] (str "pw") 0 0 0 [] (connOptions c)).
Proof.
  intros c iter libpq.
  apply (pg_config_roundtrip libpq c iter ((str "sslmode", None) :: map (fun kv => (kv.1, Some kv.2)) (settings iter c))).
  - replace (map_to_list (connOptions c)) with (rev iter) by (vm_compute; reflexivity). apply Permutation_rev.
  - repeat constructor.
  - by vm_compute.
  - by vm_compute.
  - reflexivity.
  - by vm_compute.
Defined.

(** A value comes back from the server as it was sent, when the server echoes it
    in the type it was sent as. *)
Theorem pg_value_roundtrip {F : Type} (to_string_f : F -> bytes) (stod : bytes -> outcome F)
    (PQunescapeBytea : bytes -> bytes) (v : PgValue F) (oid : Z) (answer : option bytes) (name : bytes) :
  echoes to_string_f stod PQunescapeBytea v oid answer ->
  get stod PQunescapeBytea 0 0 (newResult (Some (mkPGresult [(oid, name)] [[answer]]))) = Ok v.
Proof.
  intros He. unfold get. destruct v as [| b | n | d | s | d]; cbn -[to_string] in He.
  - by subst answer.
  - destruct He as [-> ->]. by destruct b.
  - destruct He as [[-> Hn] ->].
    match goal with |- ?g = _ => change g with (let! m := stoll (to_string n) in Ok (VInt (F := F) m)) end.
    by rewrite stoll_to_string.
  - destruct He as (-> & -> & Hd).
    match goal with |- ?g = _ => change g with (let! x := stod (to_string_f d) in Ok (VDouble x)) end.
    by rewrite Hd.
  - by destruct He as [-> ->].
  - destruct He as (-> & t & -> & <-). done.
Qed.

(** Outside the table there is no value, inside there is no undefined access. *)
Lemma get_defined {F : Type} (stod : bytes -> outcome F) (PQunescapeBytea : bytes -> bytes) (res : PGresult)
    (row col : Z) :
  result_ok res -> 0 <= row -> 0 <= col -> (forall s, stod s <> Undefined) ->
  get stod PQunescapeBytea row col (newResult (Some res)) <> Undefined.
Proof.
  intros Hok Hr Hc Hd. unfold get, newResult. cbn [rows_ cols_ res_].
  destruct (Z.leb_spec (size (tuples res)) row); [done |].
  destruct (Z.leb_spec (size (fields res)) col); [done |]. cbn [orb].
  destruct (at_total (tuples res) row) as (t & -> & Ht); [lia |]. cbn [obind].
  unfold result_ok in Hok. rewrite Forall_lookup in Hok. pose proof (Hok _ _ Ht) as Hlen.
  destruct (at_total t col) as (f & -> & _); [unfold size in *; lia |]. cbn [obind].
  destruct f as [val |]; [| done]. destruct (at_total (fields res) col) as ([oid name] & -> & _); [lia |].
  cbn [obind fst]. destruct (_ =? 16); [done |].
  destruct (_ || _); [unfold stoll; by repeat case_match |].
  destruct (_ || _); [specialize (Hd val); by destruct (stod val) |]. by destruct (_ =? 17).
Qed.
