(* ===== verification/PgConnection.v ===== *)
(** Queries on a PostgreSQL connection: [readLoop], [sendAndReceive] and
    [ConnectionContext] of src/extensions/pg/src/PgConnectionImpl.cc.

    Everything runs on the scheduler of the channel; a turn is what happens
    between two suspensions.  libpq is outside src/: it is a class [LibPq] of the
    calls the source makes, with what is documented of them. *)

From Stdlib Require Import ZArith Lia String.
From stdpp Require Import base numbers option list.
From S2P Require Import Prelude.
Open Scope string_scope.
Open Scope Z_scope.

(** ** Exceptions of the library *)

Inductive PgExn : Type :=
| PgConnectionError (what : string)
| PgCancelledError (what : string)
| PgQueryError (what sqlState : string).

(** ** libpq *)

(** A connection [L] and a result [R]; queries are known by a number.
    [pq_results] is what [PQgetResult] gives until it gives null, [pq_error] the
    message and the code of a result whose status is neither [PGRES_TUPLES_OK]
    nor [PGRES_COMMAND_OK], [pq_message] is [PQerrorMessage].  [pq_current] and [pq_owner] are not calls: they say which
    command is in progress, and which one a result is of.  A command is sent
    only when none is in progress; results are of the command in progress, which
    is over when they were taken. *)
Class LibPq (L R : Type) := {
  pq_send : nat -> L -> bool * L;
  pq_flush : L -> Z * L;
  pq_consume : L -> bool * L;
  pq_busy : L -> bool;
  pq_results : L -> list R * L;
  pq_ok : L -> bool;
  pq_error : R -> option (string * string);
  pq_message : L -> string;
  pq_current : L -> option nat;
  pq_owner : R -> nat;
  pq_send_law i l : if fst (pq_send i l) then pq_current l = None /\ pq_current (snd (pq_send i l)) = Some i
    else pq_current (snd (pq_send i l)) = pq_current l;
  pq_flush_law l : pq_current (snd (pq_flush l)) = pq_current l;
  pq_consume_law l : pq_current (snd (pq_consume l)) = pq_current l;
  pq_results_law l : pq_current (snd (pq_results l)) = (if decide (fst (pq_results l) = []) then pq_current l else None)
    /\ Forall (fun r => pq_current l = Some (pq_owner r)) (fst (pq_results l))
}.

Section connection.
Context {L R : Type} `{!LibPq L R}.

(** ** State *)

(** A coroutine in [sendAndReceive]: before the first step on the scheduler;
    suspended in [performWrite]; woken there, cancelled or not; suspended until
    its promise is set; ended. *)
Inductive QueryPc : Type :=
| QStart
| QFlush
| QFlushed (canceled : bool)
| QWait
| QDone (r : PgExn + R).

(** [q_promise]: what [resultPromise] was set to, a null result being [None];
    [q_cancelled]: whether its token is cancelled. *)
Record Query : Type := mkQuery {
  q_pc : QueryPc;
  q_promise : option (PgExn + option R);
  q_cancelled : bool
}.

(** [readLoop]: suspended in [performRead]; woken there, cancelled or not;
    ended. *)
Inductive ReaderPc : Type :=
| RWaiting
| RWoken (canceled : bool)
| REnded.

(** [ConnectionContext]: [weakPromise] leads to a promise that lives as long as
    its query holds it; [writable] and [writer] are of the channel;
    [brokenCalls] counts the calls of [brokenHandler]. *)
Record Connection : Type := mkConnection {
  pgConn : L;
  broken : bool;
  weakPromise : option nat;
  reader : ReaderPc;
  writable : bool;
  writer : option nat;
  queries : list Query;
  brokenCalls : nat
}.

Definition newConnection (l : L) (n : nat) : Connection :=
  mkConnection l false None RWaiting true None (replicate n (mkQuery QStart None false)) 0.

Definition set_conn (l : L) (s : Connection) : Connection :=
  mkConnection l (broken s) (weakPromise s) (reader s) (writable s) (writer s) (queries s) (brokenCalls s).
Definition set_weak (w : option nat) (s : Connection) : Connection :=
  mkConnection (pgConn s) (broken s) w (reader s) (writable s) (writer s) (queries s) (brokenCalls s).
Definition set_reader (r : ReaderPc) (s : Connection) : Connection :=
  mkConnection (pgConn s) (broken s) (weakPromise s) r (writable s) (writer s) (queries s) (brokenCalls s).
Definition set_writer (b : bool) (w : option nat) (s : Connection) : Connection :=
  mkConnection (pgConn s) (broken s) (weakPromise s) (reader s) b w (queries s) (brokenCalls s).
Definition set_query (i : nat) (q : Query) (s : Connection) : Connection :=
  mkConnection (pgConn s) (broken s) (weakPromise s) (reader s) (writable s) (writer s) (<[i := q]> (queries s))
    (brokenCalls s).
Definition set_broken (s : Connection) : Connection :=
  mkConnection (pgConn s) true (weakPromise s) (reader s) (writable s) (writer s) (queries s) (S (brokenCalls s)).

(** A coroutine goes on, or ends. *)
Definition goto (i : nat) (pc : QueryPc) (s : Connection) : Connection :=
  match queries s !! i with
  | Some q => set_query i (mkQuery pc (q_promise q) (q_cancelled q)) s
  | None => s
  end.

(** ** [ConnectionContext] *)

(** [channel->cancelAll()] *)
Definition cancelReader (s : Connection) : Connection :=
  match reader s with RWaiting => set_reader (RWoken true) s | _ => s end.
Definition cancelWriter (s : Connection) : Connection :=
  match writer s with Some j => goto j (QFlushed true) (set_writer (writable s) None s) | None => s end.
Definition cancelAll (s : Connection) : Connection := cancelWriter (cancelReader s).

Definition handleBroken (s : Connection) : Connection :=
  if broken s then s else cancelAll (set_broken s).

(** The coroutine holds its promise. *)
Definition live (q : Query) : bool := match q_pc q with QFlush | QFlushed _ | QWait => true | _ => false end.

(** [weakPromise.lock()] *)
Definition lock (s : Connection) : option nat :=
  match weakPromise s with
  | Some i => match queries s !! i with Some q => if live q then Some i else None | None => None end
  | None => None
  end.

(** The promise is set, and [weakPromise] cleared. *)
Definition resolve (r : PgExn + option R) (s : Connection) : Connection :=
  match lock s with
  | Some i =>
      match queries s !! i with
      | Some q => set_weak None (set_query i (mkQuery (q_pc q) (Some r) (q_cancelled q)) s)
      | None => s
      end
  | None => s
  end.

(** ** [readLoop] *)

Definition readerEnd (e : PgExn) (s : Connection) : Connection :=
  set_reader REnded (resolve (inl e) (handleBroken s)).

Definition readError (s : Connection) : Connection :=
  readerEnd (PgConnectionError ("PQconsumeInput: " ++ pq_message (pgConn s))) s.

(** What the adapter does when the descriptor is readable. *)
Definition onReadable (s : Connection) : Connection :=
  let '(ok, l) := pq_consume (pgConn s) in
  let s := set_conn l s in
  if negb ok then readError s
  else if pq_busy l then set_reader RWaiting s
  else
    let '(rs, l) := pq_results l in
    let s := set_conn l s in
    let s := match rs with r :: _ => resolve (inr (Some r)) s | [] => s end in
    match rs, lock s with
    | [], Some _ => readError (resolve (inr None) s)
    | _, _ => if pq_ok l then set_reader RWaiting s else readError s
    end.

Definition readTurn (s : Connection) : Connection :=
  match reader s with
  | RWoken true => readerEnd (PgCancelledError "PgConnection: query canceled (read)") s
  | RWoken false => onReadable s
  | _ => s
  end.

(** ** [sendAndReceive] *)

Definition afterFlush (i : nat) (cancelled : bool) (s : Connection) : Connection :=
  if cancelled then goto i (QDone (inl (PgCancelledError "PgConnection: query canceled (read)"))) (handleBroken s)
  else goto i QWait s.

(** The adapter of [performWrite]. *)
Definition flushOnce (i : nat) (cancelled : bool) (s : Connection) : Connection :=
  let '(r, l) := pq_flush (pgConn s) in
  let s := set_conn l s in
  if r =? 0 then afterFlush i cancelled s
  else if 0 <? r then goto i QFlush (set_writer false (Some i) s)
  else goto i (QDone (inl (PgConnectionError ("PQflush: " ++ pq_message l)))) (handleBroken s).

Definition startTurn (i : nat) (s : Connection) : Connection :=
  match queries s !! i with
  | Some (mkQuery QStart _ cancelled) =>
      if cancelled then goto i (QDone (inl (PgCancelledError "PgConnection: query cancelled"))) s
      else
        let s := set_weak (Some i) s in
        let '(ok, l) := pq_send i (pgConn s) in
        let s := set_conn l s in
        if negb ok then goto i (QDone (inl (PgConnectionError ("PQsendQueryParams: " ++ pq_message l)))) (handleBroken s)
        else if writable s then flushOnce i cancelled s
        else goto i QFlush (set_writer (writable s) (Some i) s)
  | _ => s
  end.

Definition flushTurn (i : nat) (s : Connection) : Connection :=
  match queries s !! i with
  | Some (mkQuery (QFlushed true) _ _) => goto i (QDone (inl (PgCancelledError "PgConnection: query canceled (flush)"))) (handleBroken s)
  | Some (mkQuery (QFlushed false) _ cancelled) => flushOnce i cancelled s
  | _ => s
  end.

Definition waitTurn (i : nat) (s : Connection) : Connection :=
  match queries s !! i with
  | Some (mkQuery QWait (Some r) _) =>
      match r with
      | inr (Some res) =>
          match pq_error res with
          | Some (err, sqlstate) => goto i (QDone (inl (PgQueryError ("PgConnection query error: " ++ err) sqlstate))) s
          | None => goto i (QDone (inr res)) s
          end
      | inr None => goto i (QDone (inl (PgConnectionError "PgConnection: no result returned"))) (handleBroken s)
      | inl e => goto i (QDone (inl e)) s
      end
  | _ => s
  end.

(** ** Events *)

(** The descriptor is readable or writable; a broken connection has disabled
    its events. *)
Definition readEvent (s : Connection) : Connection :=
  match reader s with RWaiting => if broken s then s else set_reader (RWoken false) s | _ => s end.

Definition writeEvent (s : Connection) : Connection :=
  if broken s then s
  else
    match writer s with
    | Some j => goto j (QFlushed false) (set_writer true None s)
    | None => set_writer true None s
    end.

(** The token of a query is cancelled; its callback is registered while the
    coroutine is in flight. *)
Definition cancelTurn (i : nat) (s : Connection) : Connection :=
  match queries s !! i with
  | Some q =>
      let s := set_query i (mkQuery (q_pc q) (q_promise q) true) s in
      if live q then cancelAll s else s
  | None => s
  end.

Inductive Turn : Type :=
| Start (i : nat)
| FlushTurn (i : nat)
| WaitTurn (i : nat)
| ReadTurn
| ReadEvent
| WriteEvent
| Cancel (i : nat).

Definition turn (t : Turn) (s : Connection) : Connection :=
  match t with
  | Start i => startTurn i s
  | FlushTurn i => flushTurn i s
  | WaitTurn i => waitTurn i s
  | ReadTurn => readTurn s
  | ReadEvent => readEvent s
  | WriteEvent => writeEvent s
  | Cancel i => cancelTurn i s
  end.

Definition run (ts : list Turn) (s : Connection) : Connection := foldl (fun s t => turn t s) s ts.

Definition isAlive (s : Connection) : bool := negb (broken s) && pq_ok (pgConn s).
End connection.

(** ** The invariant *)

Section invariant.
Context {L R : Type} `{!LibPq L R}.
Abbreviation Conn := (@Connection L R).

Definition live_pc (pc : @QueryPc R) : bool := match pc with QFlush | QFlushed _ | QWait => true | _ => false end.

(** [u]: whether queries are made one at a time, on a connection that is not
    broken. *)
Record good (u : bool) (s : Conn) : Prop := {
  gd_weak : forall i q, weakPromise s = Some i -> queries s !! i = Some q -> live q = true ->
    q_promise q = None /\ pq_current (pgConn s) = Some i;
  gd_answer : forall i q r, queries s !! i = Some q -> q_promise q = Some (inr (Some r)) -> pq_owner r = i;
  gd_done : forall i q r, queries s !! i = Some q -> q_pc q = QDone (inr r) -> pq_owner r = i;
  gd_start : forall i q, queries s !! i = Some q -> q_pc q = QStart -> q_promise q = None;
  gd_writer : forall j, writer s = Some j -> exists q, queries s !! j = Some q /\ q_pc q = QFlush;
  gd_calls : brokenCalls s = (if broken s then 1 else 0)%nat;
  gd_reader : reader s = REnded -> broken s = true;
  gd_alone : u = true -> forall i j q q', queries s !! i = Some q -> queries s !! j = Some q' ->
    live q = true -> live q' = true -> i = j;
  gd_flush : u = true -> forall i q, queries s !! i = Some q -> q_pc q = QFlush -> writer s = Some i
}.

(** The query that has no answer yet is the one the reader knows, and the
    connection is not broken. *)
Definition served (s : Conn) : Prop :=
  forall i q, queries s !! i = Some q -> live q = true -> q_promise q = None ->
  broken s = false /\ weakPromise s = Some i.

Lemma live_pc_eq (q : @Query R) : live q = live_pc (q_pc q).
Proof. done. Qed.

Lemma good_conn (u : bool) (l : L) (s : Conn) :
  good u s -> lock s = None \/ pq_current l = pq_current (pgConn s) -> good u (set_conn l s).
Proof.
  intros [H1 H2 H3 H4 H5 H6 H7 H8 H9] Hl. split; try done. cbn. intros i q Hw Hi Hq.
  destruct (H1 i q Hw Hi Hq) as [Hp Hc]. split; [done |]. destruct Hl as [Hl | ->]; [| done].
  unfold lock in Hl. by rewrite Hw, Hi, Hq in Hl.
Qed.

Lemma good_reader (u : bool) (r : ReaderPc) (s : Conn) :
  good u s -> (r = REnded -> broken s = true) -> good u (set_reader r s).
Proof. intros [H1 H2 H3 H4 H5 H6 H7 H8 H9] Hr. by split. Qed.

(** Query [i] goes from [q] to [pc]. *)
Definition may (u : bool) (i : nat) (q : @Query R) (pc : @QueryPc R) (s : Conn) : Prop :=
  pc <> QStart
  /\ (forall r, pc = QDone (inr r) -> pq_owner r = i)
  /\ (live_pc pc = true -> live q = true
      \/ (q_promise q = None /\ pq_current (pgConn s) = Some i /\ weakPromise s = Some i
          /\ (u = true -> forall j q', queries s !! j = Some q' -> live q' = false))).

(** The part of the invariant that speaks of queries, whatever the writer is. *)
Lemma good_moved (u : bool) (i : nat) (q : @Query R) (pc : @QueryPc R) (b : bool) (w : option nat) (s : Conn) :
  good u s -> queries s !! i = Some q -> may u i q pc s ->
  (forall j, w = Some j -> exists q', queries (goto i pc s) !! j = Some q' /\ q_pc q' = QFlush) ->
  (u = true -> forall j q', queries (goto i pc s) !! j = Some q' -> q_pc q' = QFlush -> w = Some j) ->
  good u (goto i pc (set_writer b w s)).
Proof.
  intros [H1 H2 H3 H4 H5 H6 H7 H8 H9] Hi (Hs & Hd & Hl) Hw Hf.
  unfold goto in *. cbn [queries set_writer set_query] in *. rewrite Hi in *.
  split; cbn [queries set_writer set_query weakPromise pgConn writer brokenCalls broken reader] in *; try done.
  - intros k q' Hwk Hk. apply list_lookup_insert_Some in Hk as [(<- & <- & _) | [_ Hk]]; [| by apply (H1 k q')].
    cbn. intros Hlv. destruct (Hl Hlv) as [Hlq | (Hp & Hc & _)]; [by apply (H1 i q) | done].
  - intros k q' r Hk. apply list_lookup_insert_Some in Hk as [(<- & <- & _) | [_ Hk]]; [by apply (H2 i q r) | by apply (H2 k q' r)].
  - intros k q' r Hk. apply list_lookup_insert_Some in Hk as [(<- & <- & _) | [_ Hk]]; [apply Hd | by apply (H3 k q' r)].
  - intros k q' Hk. apply list_lookup_insert_Some in Hk as [(<- & <- & _) | [_ Hk]]; [done | by apply (H4 k q')].
  - intros Hu. assert (Halone : live_pc pc = true -> forall j q', queries s !! j = Some q' -> live q' = true -> j = i).
    { intros Hlv j q' Hj Hlj. destruct (Hl Hlv) as [Hlq | (_ & _ & _ & Hno)]; [by apply (H8 Hu j i q' q) |].
      by rewrite (Hno Hu j q' Hj) in Hlj. }
    intros k j q1 q2 Hk Hj Hl1 Hl2.
    apply list_lookup_insert_Some in Hk as [(<- & <- & _) | [_ Hk]], Hj as [(<- & <- & _) | [_ Hj]].
    + done.
    + symmetry. by eapply Halone.
    + by eapply Halone.
    + by apply (H8 Hu k j q1 q2).
Qed.

Lemma good_goto (u : bool) (i : nat) (q : @Query R) (pc : @QueryPc R) (s : Conn) :
  good u s -> queries s !! i = Some q -> may u i q pc s -> pc <> QFlush -> q_pc q <> QFlush ->
  good u (goto i pc s).
Proof.
  intros H Hi Hm Hpc Hq. replace (goto i pc s) with (goto i pc (set_writer (writable s) (writer s) s)) by (by destruct s).
  eapply good_moved; [done.. | |].
  - intros j Hj. destruct (gd_writer _ _ H j Hj) as (q' & Hq' & Hf). exists q'. split; [| done].
    unfold goto. rewrite Hi. cbn. rewrite list_lookup_insert_ne; [done |]. intros ->. congruence.
  - intros Hu j q'. unfold goto. rewrite Hi. cbn.
    intros [(<- & <- & _) | [_ Hj]]%list_lookup_insert_Some Hf; [done | by apply (gd_flush _ _ H Hu j q')].
Qed.

(** It suspends in [performWrite]. *)
Lemma good_suspend (u : bool) (i : nat) (q : @Query R) (b : bool) (s : Conn) :
  good u s -> queries s !! i = Some q -> may u i q QFlush s -> good u (goto i QFlush (set_writer b (Some i) s)).
Proof.
  intros H Hi Hm. pose proof (lookup_lt_Some _ _ _ Hi). eapply good_moved; [done.. | |]; unfold goto; rewrite Hi; cbn.
  - intros j [= <-]. eexists. by rewrite list_lookup_insert_eq.
  - intros Hu j q' [(<- & _) | [Hne Hj]]%list_lookup_insert_Some Hf; [done |].
    destruct Hm as (_ & _ & Hl). destruct (Hl eq_refl) as [Hlq | (_ & _ & _ & Hno)].
    + f_equal. apply (gd_alone _ _ H Hu i j q q'); try done. by rewrite live_pc_eq, Hf.
    + pose proof (Hno Hu j q' Hj) as Hq. by rewrite live_pc_eq, Hf in Hq.
Qed.

(** It is woken there. *)
Lemma good_woken (u : bool) (j : nat) (b c : bool) (s : Conn) :
  good u s -> writer s = Some j -> good u (goto j (QFlushed c) (set_writer b None s)).
Proof.
  intros H Hw. destruct (gd_writer _ _ H j Hw) as (q & Hj & Hq).
  eapply good_moved; [done | exact Hj | | done |].
  - split; [done |]. split; [done |]. intros _. left. by rewrite live_pc_eq, Hq.
  - intros Hu k q'. unfold goto. rewrite Hj. cbn. intros [(<- & <- & _) | [Hne Hk]]%list_lookup_insert_Some Hf; [done |].
    pose proof (gd_flush _ _ H Hu k q' Hk Hf). congruence.
Qed.

Lemma good_cancelAll (u : bool) (s : Conn) : good u s -> good u (cancelAll s).
Proof.
  intros H. unfold cancelAll, cancelWriter.
  assert (Hr : good u (cancelReader s)) by (unfold cancelReader; destruct (reader s); [by apply good_reader | done..]).
  destruct (writer (cancelReader s)) as [j |] eqn:Hw; [by apply good_woken | done].
Qed.

Lemma good_broken (u : bool) (s : Conn) : good u s -> good u (handleBroken s).
Proof.
  intros H. unfold handleBroken. destruct (broken s) eqn:Hb; [done |]. apply good_cancelAll.
  destruct H as [H1 H2 H3 H4 H5 H6 H7 H8 H9]. split; try done. cbn. by rewrite H6, Hb.
Qed.

Lemma good_resolve (u : bool) (r : PgExn + option R) (s : Conn) :
  good u s -> (forall x, r = inr (Some x) -> pq_current (pgConn s) = Some (pq_owner x)) -> good u (resolve r s).
Proof.
  intros H Hr. unfold resolve. destruct (lock s) as [i |] eqn:Hlk; [| done].
  destruct (queries s !! i) as [q |] eqn:Hi; [| done].
  assert (Hw : weakPromise s = Some i /\ live q = true).
  { unfold lock in Hlk. destruct (weakPromise s) as [k |]; [| done].
    destruct (queries s !! k) as [qk |] eqn:Hk; [| done]. destruct (live qk) eqn:Hlv; [| done]. by simplify_eq. }
  destruct Hw as [Hw Hlv]. destruct H as [H1 H2 H3 H4 H5 H6 H7 H8 H9].
  destruct (H1 i q Hw Hi Hlv) as [Hp Hc]. pose proof (lookup_lt_Some _ _ _ Hi) as Hlt.
  split; cbn; try done.
  - intros k q' x Hk. apply list_lookup_insert_Some in Hk as [(<- & <- & _) | [_ Hk]]; [| by apply (H2 k q' x)].
    cbn. intros [= ->]. specialize (Hr x eq_refl). congruence.
  - intros k q' x Hk. apply list_lookup_insert_Some in Hk as [(<- & <- & _) | [_ Hk]]; [by apply (H3 i q x) | by apply (H3 k q' x)].
  - intros k q' Hk. apply list_lookup_insert_Some in Hk as [(<- & <- & _) | [_ Hk]]; [| by apply (H4 k q')].
    cbn. intros Hs. by rewrite live_pc_eq, Hs in Hlv.
  - intros j Hj. destruct (H5 j Hj) as (q' & Hq' & Hf). destruct (decide (j = i)) as [-> | Hne].
    + eexists. rewrite list_lookup_insert_eq by done. split; [done |]. cbn. congruence.
    + exists q'. by rewrite list_lookup_insert_ne.
  - intros Hu k j q1 q2 Hk Hj Hl1 Hl2.
    apply list_lookup_insert_Some in Hk as [(<- & <- & _) | [_ Hk]], Hj as [(<- & <- & _) | [_ Hj]].
    + done.
    + by apply (H8 Hu i j q q2).
    + by apply (H8 Hu k i q1 q).
    + by apply (H8 Hu k j q1 q2).
  - intros Hu k q' Hk Hf. apply list_lookup_insert_Some in Hk as [(<- & <- & _) | [_ Hk]]; [by apply (H9 Hu i q) | by apply (H9 Hu k q')].
Qed.

(** *** What a cancellation leaves *)

(** Queries differ at most in having been woken. *)
Definition woken (s s' : Conn) : Prop :=
  weakPromise s' = weakPromise s /\ pgConn s' = pgConn s
  /\ forall i, match queries s !! i, queries s' !! i with
     | Some q, Some q' => live q' = live q /\ q_promise q' = q_promise q /\ (q_pc q <> QFlush -> q_pc q' = q_pc q)
     | None, None => True
     | _, _ => False
     end.

Lemma woken_refl (s s' : Conn) :
  weakPromise s' = weakPromise s -> pgConn s' = pgConn s -> queries s' = queries s -> woken s s'.
Proof. intros Hw Hc Hq. split; [done |]. split; [done |]. intros i. rewrite Hq. by destruct (queries s !! i). Qed.

Lemma woken_trans (s1 s2 s3 : Conn) : woken s1 s2 -> woken s2 s3 -> woken s1 s3.
Proof.
  intros (A1 & A2 & A3) (B1 & B2 & B3). split; [congruence |]. split; [congruence |]. intros i.
  specialize (A3 i). specialize (B3 i).
  destruct (queries s1 !! i), (queries s2 !! i), (queries s3 !! i); try done.
  destruct A3 as (a1 & a2 & a3), B3 as (b1 & b2 & b3). split; [congruence |]. split; [congruence |].
  intros H. rewrite <- (a3 H). apply b3. by rewrite (a3 H).
Qed.

Lemma cancelAll_woken (u : bool) (s : Conn) : good u s -> woken s (cancelAll s) /\ broken (cancelAll s) = broken s.
Proof.
  intros H. unfold cancelAll, cancelWriter.
  assert (Hr : woken s (cancelReader s) /\ broken (cancelReader s) = broken s /\ writer (cancelReader s) = writer s)
    by (unfold cancelReader; destruct (reader s); (split; [by apply woken_refl | done])).
  destruct Hr as (Hr & Hb & Hw). destruct (writer (cancelReader s)) as [j |] eqn:Hj; [| done].
  destruct (gd_writer _ _ H j) as (q & Hq & Hf); [congruence |].
  assert (Hq' : queries (cancelReader s) !! j = Some q) by (unfold cancelReader; by destruct (reader s)).
  unfold goto. cbn [queries set_writer]. rewrite Hq'. cbn. split; [| done].
  eapply woken_trans; [exact Hr |]. split; [done |]. split; [done |]. intros i. cbn.
  destruct (decide (i = j)) as [-> | Hne].
  - rewrite list_lookup_insert_eq, Hq' by (by eapply lookup_lt_Some). split; [by rewrite !live_pc_eq, Hf |]. done.
  - rewrite list_lookup_insert_ne by done. by destruct (queries _ !! i).
Qed.

Lemma broken_woken (u : bool) (s : Conn) : good u s -> woken s (handleBroken s) /\ broken (handleBroken s) = true.
Proof.
  intros H. unfold handleBroken. destruct (broken s) eqn:Hb; [by split; [apply woken_refl |] |].
  assert (Hg : good u (set_broken s)).
  { destruct H as [H1 H2 H3 H4 H5 H6 H7 H8 H9]. split; try done. cbn. by rewrite H6, Hb. }
  destruct (cancelAll_woken u _ Hg) as [Hw Hbr]. split; [| by rewrite Hbr].
  eapply woken_trans; [| exact Hw]. by apply woken_refl.
Qed.

Lemma woken_at (s s' : Conn) (i : nat) (q' : @Query R) :
  woken s s' -> queries s' !! i = Some q' ->
  exists q, queries s !! i = Some q /\ live q' = live q /\ q_promise q' = q_promise q
    /\ (q_pc q <> QFlush -> q_pc q' = q_pc q).
Proof. intros (_ & _ & H) Hi. specialize (H i). rewrite Hi in H. destruct (queries s !! i) as [q |]; [eauto | done]. Qed.

Lemma woken_to (s s' : Conn) (i : nat) (q : @Query R) :
  woken s s' -> queries s !! i = Some q ->
  exists q', queries s' !! i = Some q' /\ live q' = live q /\ q_promise q' = q_promise q
    /\ (q_pc q <> QFlush -> q_pc q' = q_pc q).
Proof. intros (_ & _ & H) Hi. specialize (H i). rewrite Hi in H. destruct (queries s' !! i) as [q' |]; [eauto | done]. Qed.

Lemma served_woken (s s' : Conn) : woken s s' -> broken s' = broken s -> served s -> served s'.
Proof.
  intros Hw Hb Hs i q' Hi Hl Hp. destruct (woken_at s s' i q' Hw Hi) as (q & Hq & Hlq & Hpq & _).
  destruct Hw as (-> & _). rewrite Hb. apply (Hs i q); congruence.
Qed.

(** No query is in flight but [i]. *)
Definition only (i : nat) (s : Conn) : Prop := forall j q, queries s !! j = Some q -> live q = true -> j = i.

Lemma may_only (u : bool) (i : nat) (q : @Query R) (s : Conn) :
  good u s -> queries s !! i = Some q -> may u i q QWait s -> u = true -> only i s.
Proof.
  intros H Hi (_ & _ & Hl) Hu j q' Hj Hlj. destruct (Hl eq_refl) as [Hlq | (_ & _ & _ & Hno)].
  - by apply (gd_alone _ _ H Hu j i q' q).
  - by rewrite (Hno Hu j q' Hj) in Hlj.
Qed.

(** Query [i] ends, and with it the connection. *)
Lemma end_broken (u : bool) (i : nat) (q : @Query R) (e : PgExn) (s : Conn) :
  good u s -> queries s !! i = Some q -> q_pc q <> QFlush -> (u = true -> only i s) ->
  good u (goto i (QDone (inl e)) (handleBroken s))
  /\ (u = true -> served (goto i (QDone (inl e)) (handleBroken s))).
Proof.
  intros H Hi Hq Hon. destruct (broken_woken u s H) as [Hw Hb].
  destruct (woken_to _ _ _ _ Hw Hi) as (q' & Hi' & Hl & Hp & Hpc). specialize (Hpc Hq). split.
  - eapply good_goto; [by apply good_broken | exact Hi' | | done | congruence]. by repeat split.
  - intros Hu j q1 Hj Hl1 _. unfold goto in Hj. rewrite Hi' in Hj. cbn in Hj.
    apply list_lookup_insert_Some in Hj as [(<- & <- & _) | [Hne Hj]]; [done |].
    destruct (woken_at _ _ _ _ Hw Hj) as (q2 & Hj2 & Hl2 & _). destruct Hne. symmetry. apply (Hon Hu j q2); congruence.
Qed.

(** Query [i] goes on to wait, or ends alone. *)
Lemma goto_served (i : nat) (q : @Query R) (pc : @QueryPc R) (b : bool) (w : option nat) (s : Conn) :
  queries s !! i = Some q -> only i s ->
  (live_pc pc = true -> q_promise q = None -> broken s = false /\ weakPromise s = Some i) ->
  served (goto i pc (set_writer b w s)).
Proof.
  intros Hi Hon Hs j q' Hj Hl Hp. unfold goto in *. cbn [queries set_writer] in *. rewrite Hi in *. cbn in *.
  apply list_lookup_insert_Some in Hj as [(<- & <- & _) | [Hne Hj]]; [by apply Hs |].
  destruct Hne. symmetry. by eapply Hon.
Qed.

Lemma flushOnce_ok (u : bool) (i : nat) (q : @Query R) (c : bool) (s : Conn) :
  good u s -> queries s !! i = Some q -> q_pc q <> QFlush -> may u i q QWait s ->
  (u = true -> q_promise q = None -> broken s = false /\ weakPromise s = Some i) ->
  good u (flushOnce i c s) /\ (u = true -> served (flushOnce i c s)).
Proof.
  intros H Hi Hq Hm Hs. pose proof (may_only u i q s H Hi Hm) as Hon. unfold flushOnce.
  pose proof (pq_flush_law (pgConn s)) as Hlaw. destruct (pq_flush (pgConn s)) as [r l]. cbn [snd] in Hlaw.
  assert (H1 : good u (set_conn l s)) by (apply good_conn; auto).
  assert (Hm1 : may u i q QWait (set_conn l s)).
  { destruct Hm as (Ha & Hb & Hc). split; [done |]. split; [done |]. cbn. by rewrite Hlaw. }
  assert (Hi1 : queries (set_conn l s) !! i = Some q) by done.
  assert (Hon1 : u = true -> only i (set_conn l s)) by done.
  destruct (r =? 0); [unfold afterFlush; destruct c | destruct (0 <? r)].
  - by apply (end_broken u i q).
  - split; [by apply (good_goto u i q) |]. intros Hu.
    replace (set_conn l s) with (set_writer (writable s) (writer s) (set_conn l s)) by (by destruct s).
    by apply (goto_served i q); auto.
  - split; [apply (good_suspend u i q); [done.. | by destruct Hm1 as (_ & _ & Hm1)] |]. intros Hu. apply (goto_served i q); auto.
  - by apply (end_broken u i q).
Qed.

(** *** The reader *)

Lemma resolve_weak (r : PgExn + option R) (s : Conn) : lock (resolve r s) = None.
Proof.
  unfold resolve. destruct (lock s) as [i |] eqn:Hl; [| done].
  destruct (queries s !! i) eqn:Hi; [done |]. unfold lock in Hl. destruct (weakPromise s) as [k |]; [| done].
  destruct (queries s !! k) as [q |] eqn:Hk; [| done]. destruct (live q); [| done]. by simplify_eq.
Qed.

Lemma resolve_parts (r : PgExn + option R) (s : Conn) :
  broken (resolve r s) = broken s /\ pgConn (resolve r s) = pgConn s /\ reader (resolve r s) = reader s.
Proof. unfold resolve. destruct (lock s) as [i |]; [| done]. by destruct (queries s !! i). Qed.

(** The query in flight has its answer. *)
Definition answered (s : Conn) : Prop := forall i q, queries s !! i = Some q -> live q = true -> q_promise q <> None.

Lemma answered_served (s : Conn) : answered s -> served s.
Proof. intros Ha i q Hi Hl Hp. by destruct (Ha i q Hi Hl). Qed.

Lemma resolve_answers (r : PgExn + option R) (s : Conn) :
  (forall i q, queries s !! i = Some q -> live q = true -> q_promise q = None -> weakPromise s = Some i) ->
  answered (resolve r s).
Proof.
  intros Hs k q Hk Hl. unfold resolve in *. destruct (lock s) as [i |] eqn:Hlk.
  - destruct (queries s !! i) as [qi |] eqn:Hi.
    + cbn in Hk. apply list_lookup_insert_Some in Hk as [(<- & <- & _) | [Hne Hk]]; [done |].
      intros Hp. pose proof (Hs k q Hk Hl Hp) as Hw. unfold lock in Hlk. rewrite Hw, Hk, Hl in Hlk. congruence.
    + intros Hp. pose proof (Hs k q Hk Hl Hp) as Hw. unfold lock in Hlk. rewrite Hw, Hk, Hl in Hlk. congruence.
  - intros Hp. pose proof (Hs k q Hk Hl Hp) as Hw. unfold lock in Hlk. by rewrite Hw, Hk, Hl in Hlk.
Qed.

Lemma readerEnd_ok (u : bool) (e : PgExn) (s : Conn) :
  good u s -> good u (readerEnd e s) /\ (served s -> served (readerEnd e s)).
Proof.
  intros H. destruct (broken_woken u s H) as [Hw Hb]. unfold readerEnd. split.
  - apply good_reader; [by apply good_resolve; [apply good_broken |] |]. intros _.
    by destruct (resolve_parts (inl e) (handleBroken s)) as (-> & _).
  - intros Hs. apply answered_served. intros i q. cbn [queries set_reader]. apply resolve_answers.
    intros k qk Hk Hl Hp. destruct (woken_at _ _ _ _ Hw Hk) as (q0 & Hk0 & Hl0 & Hp0 & _).
    destruct Hw as (-> & _). apply (Hs k q0); congruence.
Qed.

Lemma readError_ok (u : bool) (s : Conn) :
  good u s -> good u (readError s) /\ (served s -> served (readError s)).
Proof. apply readerEnd_ok. Qed.

(** The first result goes to the query in progress, which ends with it. *)
Lemma good_deliver (u : bool) (r : R) (rs : list R) (l l2 : L) (s : Conn) :
  pq_results l = (r :: rs, l2) -> pgConn s = l -> good u s -> good u (resolve (inr (Some r)) (set_conn l2 s)).
Proof.
  intros Hrs Hl H. pose proof (pq_results_law l) as [_ Hown]. rewrite Hrs in Hown. cbn [fst] in Hown.
  assert (Hcomm : resolve (inr (Some r)) (set_conn l2 s) = set_conn l2 (resolve (inr (Some r)) s)).
  { unfold resolve. change (lock (set_conn l2 s)) with (lock s). destruct (lock s) as [i |]; [| done].
    cbn. by destruct (queries s !! i). }
  rewrite Hcomm. apply good_conn; [| left; apply resolve_weak].
  apply good_resolve; [done |]. intros x [= <-]. rewrite Hl. by inversion Hown.
Qed.

Lemma onReadable_ok (u : bool) (s : Conn) :
  good u s -> good u (onReadable s) /\ (served s -> served (onReadable s)).
Proof.
  intros H. unfold onReadable. pose proof (pq_consume_law (pgConn s)) as Hc.
  destruct (pq_consume (pgConn s)) as [ok l]. cbn [snd] in Hc.
  assert (H1 : good u (set_conn l s)) by (apply good_conn; auto).
  assert (Hs1 : served s -> served (set_conn l s)) by done.
  destruct ok; cbn [negb]; [| destruct (readError_ok u _ H1); auto].
  destruct (pq_busy l); [by split; [apply good_reader |] |].
  pose proof (pq_results_law l) as [Hcur _]. destruct (pq_results l) as [[| r rs] l2] eqn:Hrs; cbn [fst snd] in Hcur.
  - rewrite decide_True in Hcur by done.
    assert (H2 : good u (set_conn l2 (set_conn l s))) by (apply good_conn; auto).
    destruct (lock (set_conn l2 (set_conn l s))) as [i |].
    + destruct (readError_ok u (resolve (inr None) (set_conn l2 (set_conn l s))))
        as [Hg Hsv]; [by apply good_resolve |].
      split; [done |]. intros Hs. apply Hsv, answered_served, resolve_answers. intros k q Hk Hl Hp. by apply (Hs k q).
    + destruct (pq_ok l2); [by split; [apply good_reader |] |].
      by destruct (readError_ok u _ H2).
  - rewrite decide_False in Hcur by done.
    assert (H2 : good u (resolve (inr (Some r)) (set_conn l2 (set_conn l s)))).
    { apply (good_deliver u r rs l l2 (set_conn l s)); done. }
    assert (Hs2 : served s -> served (resolve (inr (Some r)) (set_conn l2 (set_conn l s)))).
    { intros Hs. apply answered_served, resolve_answers. intros k qk Hk Hl Hp. by apply (Hs k qk). }
    destruct (pq_ok l2); [split; [by apply good_reader | exact Hs2] |].
    destruct (readError_ok u _ H2); auto.
Qed.

(** *** Every turn keeps it *)

(** A query is begun when no other is in flight and the connection is not
    broken. *)
Definition allowed (t : Turn) (s : Conn) : Prop :=
  match t with
  | Start _ => broken s = false /\ forall j q, queries s !! j = Some q -> live q = false
  | _ => True
  end.

Definition fine (u : bool) (s : Conn) : Prop := good u s /\ (u = true -> served s).

Lemma startTurn_fine (u : bool) (i : nat) (s : Conn) :
  (u = true -> allowed (Start i) s) -> fine u s -> fine u (startTurn i s).
Proof.
  intros Hal [H Hs]. unfold startTurn. destruct (queries s !! i) as [[pc p c] |] eqn:Hi; [| done].
  destruct pc; try done. pose proof (gd_start _ _ H i _ Hi eq_refl) as Hp. cbn in Hp. subst p.
  assert (Hself : forall s1 : Conn, set_writer (writable s1) (writer s1) s1 = s1) by (by intros []).
  destruct c.
  - split; [by eapply good_goto |]. intros Hu j q Hj. unfold goto in *. rewrite Hi in *. cbn in *.
    apply list_lookup_insert_Some in Hj as [(<- & <- & _) | [_ Hj]]; [done | by apply (Hs Hu j q)].
  - assert (H1 : good u (set_weak (Some i) s)).
    { destruct H as [H1 H2 H3 H4 H5 H6 H7 H8 H9]. split; try done. cbn. intros k q [= <-] Hk Hl. by simplify_eq. }
    assert (Hlock : lock (set_weak (Some i) s) = None) by (unfold lock; cbn; by rewrite Hi).
    pose proof (pq_send_law i (pgConn s)) as Hlaw. change (pgConn (set_weak (Some i) s)) with (pgConn s).
    destruct (pq_send i (pgConn s)) as [ok l]. cbn [fst snd] in Hlaw.
    assert (H2 : good u (set_conn l (set_weak (Some i) s))) by (apply good_conn; auto).
    assert (Hi2 : queries (set_conn l (set_weak (Some i) s)) !! i = Some (mkQuery QStart None false)) by done.
    destruct ok; cbn [negb].
    + destruct Hlaw as [_ Hcur].
      assert (Hm : forall pc, pc <> QStart -> (forall r, pc <> QDone (inr r)) ->
        may u i (mkQuery QStart None false) pc (set_conn l (set_weak (Some i) s))).
      { intros pc Hpc Hd. split; [done |]. split; [intros r Hr; by destruct (Hd r) |]. intros _. right.
        repeat (split; [done |]). intros Hu j q Hj. by apply (proj2 (Hal Hu) j q). }
      assert (Hon : u = true -> only i (set_conn l (set_weak (Some i) s))).
      { intros Hu j q Hj Hl. by rewrite (proj2 (Hal Hu) j q Hj) in Hl. }
      destruct (writable _).
      * apply (flushOnce_ok u i (mkQuery QStart None false)); try done; [by apply Hm |].
        intros Hu _. by destruct (Hal Hu).
      * split; [eapply good_suspend; [done | done | by apply Hm] |]. intros Hu.
        apply (goto_served i (mkQuery QStart None false)); [done | by apply Hon |]. intros _ _. by destruct (Hal Hu).
    + apply (end_broken u i (mkQuery QStart None false)); try done.
      intros Hu j q Hj Hl. by rewrite (proj2 (Hal Hu) j q Hj) in Hl.
Qed.
Lemma flushTurn_fine (u : bool) (i : nat) (s : Conn) : fine u s -> fine u (flushTurn i s).
Proof.
  intros [H Hs]. unfold flushTurn. destruct (queries s !! i) as [[pc p c] |] eqn:Hi; [| done].
  destruct pc as [| | canceled | | r]; try done.
  assert (Hm : may u i (mkQuery (QFlushed canceled) p c) QWait s).
  { split; [done |]. split; [done |]. intros _. by left. }
  destruct canceled.
  - apply (end_broken u i _ _ s H Hi); [done |]. by apply (may_only u i _ s H Hi).
  - apply (flushOnce_ok u i _ c s H Hi); [done.. |]. intros Hu Hp. by apply (Hs Hu i _ Hi).
Qed.

(** Query [i] ends with what its promise was set to. *)
Lemma end_fine (u : bool) (i : nat) (q : @Query R) (r : PgExn + R) (s : Conn) :
  fine u s -> queries s !! i = Some q -> q_pc q = QWait -> (forall x, r = inr x -> pq_owner x = i) ->
  fine u (goto i (QDone r) s).
Proof.
  intros [H Hs] Hi Hq Hr. split.
  - apply (good_goto u i q); [done | done | | done | by rewrite Hq].
    split; [done |]. split; [| done]. intros x [= ->]. by apply Hr.
  - intros Hu j q' Hj Hl Hp. unfold goto in *. rewrite Hi in *. cbn in *.
    apply list_lookup_insert_Some in Hj as [(<- & <- & _) | [_ Hj]]; [done |]. by apply (Hs Hu j q').
Qed.

Lemma waitTurn_fine (u : bool) (i : nat) (s : Conn) : fine u s -> fine u (waitTurn i s).
Proof.
  intros [H Hs]. unfold waitTurn. destruct (queries s !! i) as [[pc p c] |] eqn:Hi; [| done].
  destruct pc; try done. destruct p as [[e | [res |]] |]; [| | | done].
  - by apply (end_fine u i _ _ s (conj H Hs) Hi).
  - destruct (pq_error res) as [[err code] |]; [by apply (end_fine u i _ _ s (conj H Hs) Hi) |].
    apply (end_fine u i _ _ s (conj H Hs) Hi); [done |]. intros x [= <-]. by apply (gd_answer _ _ H i _ res Hi).
  - apply (end_broken u i _ _ s H Hi); [done |]. intros Hu j q Hj Hl. by apply (gd_alone _ _ H Hu j i _ _ Hj Hi Hl).
Qed.

Lemma readTurn_fine (u : bool) (s : Conn) : fine u s -> fine u (readTurn s).
Proof.
  intros [H Hs]. unfold readTurn. destruct (reader s) as [| [] |]; [done | | | done].
  - destruct (readerEnd_ok u (PgCancelledError "PgConnection: query canceled (read)") s H); by split; auto.
  - destruct (onReadable_ok u s H). by split; auto.
Qed.

Lemma readEvent_fine (u : bool) (s : Conn) : fine u s -> fine u (readEvent s).
Proof.
  intros [H Hs]. unfold readEvent. destruct (reader s); try done. destruct (broken s); [done |].
  split; [by apply good_reader | done].
Qed.

Lemma writeEvent_fine (u : bool) (s : Conn) : fine u s -> fine u (writeEvent s).
Proof.
  intros [H Hs]. unfold writeEvent. destruct (broken s) eqn:Hb; [done |].
  destruct (writer s) as [j |] eqn:Hw.
  - split; [by apply good_woken |]. intros Hu i q Hi Hl Hp.
    destruct (gd_writer _ _ H j Hw) as (q0 & Hj & Hq0). unfold goto in *. cbn [queries set_writer] in *.
    rewrite Hj in *. cbn in *. apply list_lookup_insert_Some in Hi as [(<- & <- & _) | [_ Hi]].
    + apply (Hs Hu j q0 Hj); [by rewrite live_pc_eq, Hq0 | done].
    + by apply (Hs Hu i q).
  - split; [| done]. destruct H as [H1 H2 H3 H4 H5 H6 H7 H8 H9]. split; try done. cbn.
    intros Hu i q Hi Hq. pose proof (H9 Hu i q Hi Hq). congruence.
Qed.

(** The token of a query does not matter to the invariant. *)
Lemma fine_cancelled (u : bool) (i : nat) (q : @Query R) (s : Conn) :
  queries s !! i = Some q -> fine u s -> fine u (set_query i (mkQuery (q_pc q) (q_promise q) true) s).
Proof.
  intros Hi [H Hs].
  assert (Hat : forall j q', <[i := mkQuery (q_pc q) (q_promise q) true]> (queries s) !! j = Some q' ->
    exists q0, queries s !! j = Some q0 /\ q_pc q' = q_pc q0 /\ q_promise q' = q_promise q0 /\ live q' = live q0).
  { intros j q' [(<- & <- & _) | [_ Hj]]%list_lookup_insert_Some; eauto. }
  split.
  - destruct H as [H1 H2 H3 H4 H5 H6 H7 H8 H9]. split; try done; cbn.
    + intros j q' Hw Hj Hl. destruct (Hat j q' Hj) as (q0 & Hq0 & _ & Hp & Hl0). rewrite Hp.
      apply (H1 j q0 Hw Hq0). congruence.
    + intros j q' r Hj Hr. destruct (Hat j q' Hj) as (q0 & Hq0 & _ & Hp & _). apply (H2 j q0 r Hq0). congruence.
    + intros j q' r Hj Hr. destruct (Hat j q' Hj) as (q0 & Hq0 & Hpc & _). apply (H3 j q0 r Hq0). congruence.
    + intros j q' Hj Hst. destruct (Hat j q' Hj) as (q0 & Hq0 & Hpc & -> & _). apply (H4 j q0 Hq0). congruence.
    + intros j Hw. destruct (H5 j Hw) as (q0 & Hq0 & Hf). pose proof (lookup_lt_Some _ _ _ Hi).
      destruct (decide (j = i)) as [-> | Hne]; [| exists q0; by rewrite list_lookup_insert_ne].
      eexists. rewrite list_lookup_insert_eq by done. split; [done |]. cbn. congruence.
    + intros Hu j k q1 q2 Hj Hk Hl1 Hl2. destruct (Hat j q1 Hj) as (p1 & Hp1 & _ & _ & E1).
      destruct (Hat k q2 Hk) as (p2 & Hp2 & _ & _ & E2). apply (H8 Hu j k p1 p2); congruence.
    + intros Hu j q' Hj Hf. destruct (Hat j q' Hj) as (q0 & Hq0 & Hpc & _). apply (H9 Hu j q0 Hq0). congruence.
  - intros Hu j q' Hj Hl Hp. destruct (Hat j q' Hj) as (q0 & Hq0 & _ & Hp0 & Hl0). apply (Hs Hu j q0 Hq0); congruence.
Qed.

Lemma cancelTurn_fine (u : bool) (i : nat) (s : Conn) : fine u s -> fine u (cancelTurn i s).
Proof.
  intros Hf. unfold cancelTurn. destruct (queries s !! i) as [q |] eqn:Hi; [| done].
  destruct (fine_cancelled u i q s Hi Hf) as [H Hs]. destruct (live q); [| done].
  split; [by apply good_cancelAll |]. intros Hu. destruct (cancelAll_woken u _ H) as [Hw Hb].
  by apply (served_woken _ _ Hw Hb), Hs.
Qed.

Lemma turn_fine (u : bool) (t : Turn) (s : Conn) :
  (u = true -> allowed t s) -> fine u s -> fine u (turn t s).
Proof.
  destruct t; cbn [turn]; intros Hal Hf;
    [by apply startTurn_fine | by apply flushTurn_fine | by apply waitTurn_fine | by apply readTurn_fine
    | by apply readEvent_fine | by apply writeEvent_fine | by apply cancelTurn_fine].
Qed.

(** Every query of the run is begun when it may be. *)
Fixpoint allowed_run (ts : list Turn) (s : Conn) : Prop :=
  match ts with
  | [] => True
  | t :: ts => allowed t s /\ allowed_run ts (turn t s)
  end.

(** Every query of the run is begun when no other is in flight. *)
Fixpoint one_at_a_time (ts : list Turn) (s : Conn) : Prop :=
  match ts with
  | [] => True
  | t :: ts =>
      (match t with Start _ => forall j q, queries s !! j = Some q -> live q = false | _ => True end)
      /\ one_at_a_time ts (turn t s)
  end.

(** And on a connection that is not broken. *)
Fixpoint begun_unbroken (ts : list Turn) (s : Conn) : Prop :=
  match ts with
  | [] => True
  | t :: ts => (match t with Start _ => broken s = false | _ => True end) /\ begun_unbroken ts (turn t s)
  end.

Lemma allowed_both (ts : list Turn) (s : Conn) : one_at_a_time ts s -> begun_unbroken ts s -> allowed_run ts s.
Proof.
  revert s. induction ts as [| t ts IH]; intros s; [done |]. intros [H1 H2] [H3 H4]. split; [by destruct t | by apply IH].
Qed.

(** *** A broken connection stays broken *)

Lemma goto_broken (i : nat) (pc : QueryPc) (s : Conn) : broken (goto i pc s) = broken s.
Proof. unfold goto. by destruct (queries s !! i). Qed.

Lemma cancelAll_broken (s : Conn) : broken (cancelAll s) = broken s.
Proof.
  unfold cancelAll, cancelWriter. assert (Hr : broken (cancelReader s) = broken s) by (unfold cancelReader; by destruct (reader s)).
  destruct (writer _); [by rewrite goto_broken | done].
Qed.

Lemma handleBroken_broken (s : Conn) : broken (handleBroken s) = true.
Proof. unfold handleBroken. destruct (broken s) eqn:Hb; [done | by rewrite cancelAll_broken]. Qed.

Lemma resolve_broken (r : PgExn + option R) (s : Conn) : broken (resolve r s) = broken s.
Proof. unfold resolve. destruct (lock s) as [i |]; [| done]. by destruct (queries s !! i). Qed.

Lemma readerEnd_broken (e : PgExn) (s : Conn) : broken (readerEnd e s) = true.
Proof. unfold readerEnd. cbn [broken set_reader]. by rewrite resolve_broken, handleBroken_broken. Qed.

Lemma flushOnce_broken (i : nat) (c : bool) (s : Conn) : broken s = true -> broken (flushOnce i c s) = true.
Proof.
  intros Hb. unfold flushOnce, afterFlush. destruct (pq_flush (pgConn s)) as [r l].
  destruct (r =? 0), c, (0 <? r); by rewrite goto_broken, ?handleBroken_broken.
Qed.

Lemma turn_broken (t : Turn) (s : Conn) : broken s = true -> broken (turn t s) = true.
Proof.
  intros Hb. destruct t as [i | i | i | | | | i]; cbn [turn].
  - unfold startTurn. destruct (queries s !! i) as [[[] p []] |]; try done; [by rewrite goto_broken |].
    destruct (pq_send _ _) as [[] l]; cbn [negb]; [| by rewrite goto_broken, handleBroken_broken].
    destruct (writable _); [by apply flushOnce_broken | by rewrite goto_broken].
  - unfold flushTurn. destruct (queries s !! i) as [[[| | [] | |] p c] |]; try done;
      [by rewrite goto_broken, handleBroken_broken | by apply flushOnce_broken].
  - unfold waitTurn. destruct (queries s !! i) as [[[] [[e | [x |]] |] c] |]; try done; try by rewrite goto_broken.
    + destruct (pq_error x) as [[] |]; by rewrite goto_broken.
    + by rewrite goto_broken, handleBroken_broken.
  - unfold readTurn. destruct (reader s) as [| [] |]; try done; [by rewrite readerEnd_broken |].
    unfold onReadable, readError. destruct (pq_consume _) as [[] l]; cbn [negb]; [| by rewrite readerEnd_broken].
    destruct (pq_busy l); [done |]. destruct (pq_results l) as [[| r rs] l2].
    + destruct (lock _); [by rewrite readerEnd_broken |]. destruct (pq_ok l2); [done | by rewrite readerEnd_broken].
    + destruct (pq_ok l2); [cbn; by rewrite resolve_broken | by rewrite readerEnd_broken].
  - unfold readEvent. by destruct (reader s); rewrite ?Hb.
  - unfold writeEvent. by rewrite Hb.
  - unfold cancelTurn. destruct (queries s !! i) as [q |]; [| done]. destruct (live q); [by rewrite cancelAll_broken | done].
Qed.

Lemma run_broken (ts : list Turn) (s : Conn) : broken s = true -> broken (run ts s) = true.
Proof. revert s. induction ts as [| t ts IH]; intros s Hb; [done |]. apply (IH (turn t s)), turn_broken, Hb. Qed.

(** A connection that is not broken was not before. *)
Lemma unbroken_begun (ts : list Turn) (s : Conn) : broken (run ts s) = false -> begun_unbroken ts s.
Proof.
  revert s. induction ts as [| t ts IH]; intros s Hb; [done |]. cbn [begun_unbroken]. split; [| by apply IH].
  destruct t; try done. destruct (broken s) eqn:Hs; [| done]. by rewrite (run_broken _ _ Hs) in Hb.
Qed.

Lemma run_fine (u : bool) (ts : list Turn) (s : Conn) :
  (u = true -> allowed_run ts s) -> fine u s -> fine u (run ts s).
Proof.
  revert s. induction ts as [| t ts IH]; intros s Hts Hf; [done |]. cbn [run foldl].
  apply (IH (turn t s)); [by intros Hu; apply Hts | apply turn_fine; [by intros Hu; apply Hts | done]].
Qed.

Lemma new_fine (u : bool) (l : L) (n : nat) : fine u (newConnection l n).
Proof.
  assert (Hq : forall i q, queries (newConnection l n) !! i = Some q -> q = @mkQuery R QStart None false).
  { intros i q [-> _]%lookup_replicate. done. }
  split; [split; try done |].
  - intros i q r Hi%Hq. by subst q.
  - intros i q r Hi%Hq. by subst q.
  - intros i q Hi%Hq. by subst q.
  - intros _ i j q q' Hi%Hq _. by subst q.
  - intros _ i q Hi%Hq. by subst q.
  - intros _ i q Hi%Hq. by subst q.
Qed.
End invariant.

(** ** Answers *)

Section answers.
Context {L R : Type} `{!LibPq L R}.
Abbreviation Conn := (@Connection L R).

(** What [sendAndReceive] makes of what its promise was set to. *)
Definition final (r : PgExn + option R) : PgExn + R :=
  match r with
  | inl e => inl e
  | inr None => inl (PgConnectionError "PgConnection: no result returned")
  | inr (Some res) =>
      match pq_error res with
      | Some (err, sqlstate) => inl (PgQueryError ("PgConnection query error: " ++ err) sqlstate)
      | None => inr res
      end
  end.

(** What libpq has for the query in progress once the descriptor is readable:
    nothing yet, or its end. *)
Definition reply (l : L) : option (PgExn + R) :=
  let '(ok, l) := pq_consume l in
  if negb ok then Some (inl (PgConnectionError ("PQconsumeInput: " ++ pq_message l)))
  else if pq_busy l then None
  else Some (final (inr (head (fst (pq_results l))))).

(** Query [i] waits, and its promise is [p]. *)
Definition waits (i : nat) (p : option (PgExn + option R)) (s : Conn) : Prop :=
  exists q, queries s !! i = Some q /\ q_pc q = QWait /\ q_promise q = p.

Definition ended (i : nat) (r : PgExn + R) (s : Conn) : Prop :=
  exists q, queries s !! i = Some q /\ q_pc q = QDone r.

Lemma waits_woken (i : nat) (p : option (PgExn + option R)) (s s' : Conn) : woken s s' -> waits i p s -> waits i p s'.
Proof.
  intros Hw (q & Hi & Hq & Hp). destruct (woken_to _ _ _ _ Hw Hi) as (q' & Hi' & _ & Hp' & Hpc).
  exists q'. split; [done |]. rewrite Hpc, Hp' by (by rewrite Hq). done.
Qed.

Lemma waits_lock (i : nat) (p : option (PgExn + option R)) (s : Conn) :
  waits i p s -> weakPromise s = Some i -> lock s = Some i.
Proof. intros (q & Hi & Hq & _) Hw. unfold lock. by rewrite Hw, Hi, live_pc_eq, Hq. Qed.

Lemma waits_resolve (i : nat) (r : PgExn + option R) (s : Conn) :
  waits i None s -> weakPromise s = Some i -> waits i (Some r) (resolve r s).
Proof.
  intros Hs Hw. pose proof (waits_lock _ _ _ Hs Hw) as Hl. destruct Hs as (q & Hi & Hq & _).
  unfold resolve. rewrite Hl, Hi. eexists. cbn. rewrite list_lookup_insert_eq by (by eapply lookup_lt_Some). done.
Qed.

Lemma resolve_none (r : PgExn + option R) (s : Conn) : lock s = None -> resolve r s = s.
Proof. unfold resolve. by intros ->. Qed.

Lemma lock_woken (s s' : Conn) : woken s s' -> lock s' = lock s.
Proof.
  intros (Hw & _ & H). unfold lock. rewrite Hw. destruct (weakPromise s) as [i |]; [| done].
  specialize (H i). destruct (queries s !! i), (queries s' !! i); try done. by destruct H as (-> & _).
Qed.

Lemma readerEnd_answers (u : bool) (i : nat) (e : PgExn) (s : Conn) :
  good u s -> waits i None s -> weakPromise s = Some i -> waits i (Some (inl e)) (readerEnd e s).
Proof.
  intros H Hs Hw. destruct (broken_woken u s H) as [Hwk _]. unfold readerEnd.
  change (waits i (Some (inl e)) (resolve (inl e) (handleBroken s))).
  apply waits_resolve; [by apply (waits_woken _ _ _ _ Hwk) |]. destruct Hwk as (-> & _). done.
Qed.

Lemma readerEnd_keeps (u : bool) (i : nat) (p : option (PgExn + option R)) (e : PgExn) (s : Conn) :
  good u s -> waits i p s -> lock s = None -> waits i p (readerEnd e s).
Proof.
  intros H Hs Hl. destruct (broken_woken u s H) as [Hwk _]. unfold readerEnd.
  rewrite resolve_none by (by rewrite (lock_woken _ _ Hwk)). by apply (waits_woken _ _ _ _ Hwk).
Qed.

Lemma waitTurn_ends (u : bool) (i : nat) (r : PgExn + option R) (s : Conn) :
  good u s -> waits i (Some r) s -> ended i (final r) (waitTurn i s).
Proof.
  assert (Hgo : forall (s' : Conn) q o, queries s' !! i = Some q -> ended i o (goto i (QDone o) s')).
  { intros s' q o Hi. unfold goto. rewrite Hi. eexists. cbn.
    rewrite list_lookup_insert_eq by (by eapply lookup_lt_Some). done. }
  intros H ([pc p c] & Hi & [= ->] & [= ->]). unfold waitTurn. rewrite Hi.
  destruct r as [e | [res |]]; cbn [final].
  - by apply (Hgo s _ _ Hi).
  - destruct (pq_error res) as [[err code] |]; by apply (Hgo s _ _ Hi).
  - destruct (broken_woken u s H) as [Hwk _]. destruct (woken_to _ _ _ _ Hwk Hi) as (q' & Hi' & _).
    by apply (Hgo _ _ _ Hi').
Qed.

Lemma onReadable_answers (u : bool) (i : nat) (s : Conn) :
  good u s -> waits i None s -> weakPromise s = Some i ->
  match reply (pgConn s) with
  | Some r => exists p, waits i (Some p) (onReadable s) /\ final p = r
  | None => waits i None (onReadable s)
  end.
Proof.
  intros H Hs Hw. unfold onReadable, reply, readError. pose proof (pq_consume_law (pgConn s)) as Hc.
  destruct (pq_consume (pgConn s)) as [ok l]. cbn [snd] in Hc.
  assert (H1 : good u (set_conn l s)) by (apply good_conn; auto).
  destruct ok; cbn [negb].
  2: { eexists. split; [by apply (readerEnd_answers u) | done]. }
  destruct (pq_busy l); [done |]. destruct (pq_results l) as [[| r rs] l2] eqn:Hrs; cbn [fst head].
  - pose proof (pq_results_law l) as [Hcur _]. rewrite Hrs in Hcur. cbn [fst snd] in Hcur.
    rewrite decide_True in Hcur by done.
    assert (H2 : good u (set_conn l2 (set_conn l s))) by (apply good_conn; auto).
    rewrite (waits_lock i None) by done. exists (inr None). split; [| done].
    apply (readerEnd_keeps u); [by apply good_resolve | by apply waits_resolve | apply resolve_weak].
  - exists (inr (Some r)). split; [| done].
    assert (Hr : waits i (Some (inr (Some r))) (resolve (inr (Some r)) (set_conn l2 (set_conn l s)))) by by apply waits_resolve.
    destruct (pq_ok l2); [done |].
    apply (readerEnd_keeps u); [by apply (good_deliver u r rs l) | done | apply resolve_weak].
Qed.

(** After a run that begins queries one at a time. *)
Lemma waiting_known (l : L) (n : nat) (ts : list Turn) (i : nat) :
  allowed_run ts (newConnection l n) -> waits i None (run ts (newConnection l n)) ->
  good true (run ts (newConnection l n)) /\ broken (run ts (newConnection l n)) = false
  /\ weakPromise (run ts (newConnection l n)) = Some i.
Proof.
  intros Hts (q & Hi & Hq & Hp). destruct (run_fine true ts _ (fun _ => Hts) (new_fine true l n)) as [H Hs].
  split; [done |]. apply (Hs eq_refl i q Hi); [by rewrite live_pc_eq, Hq | done].
Qed.

Lemma readTurn_answers (u : bool) (i : nat) (s : Conn) :
  good u s -> waits i None s -> weakPromise s = Some i -> reader s = RWoken false ->
  match reply (pgConn s) with
  | Some r => ended i r (run [ReadTurn; WaitTurn i] s)
  | None => waits i None (run [ReadTurn] s)
  end.
Proof.
  intros H Hs Hw Hr. cbn [run foldl turn]. unfold readTurn. rewrite Hr.
  pose proof (onReadable_answers u i s H Hs Hw) as Ha. pose proof (onReadable_ok u s H) as [Hg _].
  destruct (reply (pgConn s)) as [r |]; [| done]. destruct Ha as (p & Hp & <-). by apply (waitTurn_ends u).
Qed.

Lemma readTurn_cancels (u : bool) (i : nat) (s : Conn) :
  good u s -> waits i None s -> weakPromise s = Some i -> reader s = RWoken true ->
  ended i (inl (PgCancelledError "PgConnection: query canceled (read)")) (run [ReadTurn; WaitTurn i] s).
Proof.
  intros H Hs Hw Hr. cbn [run foldl turn]. unfold readTurn. rewrite Hr.
  destruct (readerEnd_ok u (PgCancelledError "PgConnection: query canceled (read)") s H) as [Hg _].
  apply (waitTurn_ends u i (inl _) _ Hg). by apply (readerEnd_answers u).
Qed.

(** The token of a waiting query is cancelled while the reader is suspended, or
    woken by another cancellation. *)
Lemma cancelTurn_wakes (u : bool) (i : nat) (s : Conn) :
  fine u s -> waits i None s -> weakPromise s = Some i -> reader s = RWaiting \/ reader s = RWoken true ->
  good u (cancelTurn i s) /\ waits i None (cancelTurn i s) /\ weakPromise (cancelTurn i s) = Some i
  /\ reader (cancelTurn i s) = RWoken true.
Proof.
  intros Hf (q & Hi & Hq & Hp) Hw Hr. destruct (cancelTurn_fine u i s Hf) as [Hg _]. split; [done |].
  destruct (fine_cancelled u i q s Hi Hf) as [H1 _]. unfold cancelTurn. rewrite Hi, live_pc_eq, Hq. cbn [live_pc].
  rewrite Hq, Hp in H1. rewrite Hp. set (s1 := set_query i _ s) in *.
  destruct (cancelAll_woken u s1 H1) as [Hwk _].
  split; [| split].
  - apply (waits_woken _ _ _ _ Hwk). eexists. cbn. by rewrite list_lookup_insert_eq by (by eapply lookup_lt_Some).
  - destruct Hwk as (-> & _). done.
  - unfold cancelAll, cancelWriter, cancelReader. change (reader s1) with (reader s).
    destruct Hr as [Hr | Hr]; rewrite Hr.
    + destruct (writer (set_reader (RWoken true) s1)) as [j |]; [| done].
      unfold goto. by destruct (queries (set_writer _ None _) !! j).
    + destruct (writer s1) as [j |]; [| done].
      unfold goto. by destruct (queries (set_writer _ None _) !! j).
Qed.
End answers.

(** ** Properties *)

Section properties.
Context {L R : Type} `{!LibPq L R}.
Abbreviation Conn := (@Connection L R).

(** Whatever queries are made of a connection, at the same time or not, and
    whatever is cancelled: a query that returns a result returns one of its own
    command, a query whose promise is set ends with what it was set to, and the
    broken handler is called once, when the connection breaks, or never. *)
Theorem pg_results_match (l : L) (n : nat) (ts : list Turn) :
  let s := run ts (newConnection l n) in
  (forall i x, ended i (inr x) s -> pq_owner x = i)
  /\ (forall i p, waits i (Some p) s -> ended i (final p) (turn (WaitTurn i) s))
  /\ brokenCalls s = (if broken s then 1 else 0)%nat
  /\ (reader s = REnded -> isAlive s = false).
Proof.
  intros s. destruct (run_fine false ts (newConnection l n)) as [H _]; [done | by apply new_fine |]. fold s in H.
  split; [| split; [| split]].
  - intros i x (q & Hi & Hq). by apply (gd_done _ _ H i q).
  - intros i p Hw. by apply (waitTurn_ends false).
  - apply (gd_calls _ _ H).
  - intros Hr. unfold isAlive. by rewrite (gd_reader _ _ H Hr).
Qed.

(** C27: Let queries be begun one at a time, each when no other is in flight, and
    let one wait.  If each was begun on a connection that was not broken yet, then
    the connection is not broken.  And as long as it is not broken, the query is
    answered: [readLoop] runs; when the descriptor is readable, and [readLoop] was
    not woken by a cancellation before, the query goes on waiting exactly when
    libpq is still busy, and ends otherwise with the first result of its command,
    the error of the server, or [PgConnectionError]; when its token is cancelled
    while [readLoop] is suspended, or was woken by a cancellation, it ends with
    [PgCancelledError].  (A cancellation that comes when [readLoop] was already
    woken by its descriptor may be lost, see [pg_cancel_lost]; and a query begun on
    a broken connection may wait for ever, see [pg_query_on_broken_strands].) *)
Theorem pg_query_answered (l : L) (n : nat) (ts : list Turn) (i : nat) :
  let s := run ts (newConnection l n) in
  one_at_a_time ts (newConnection l n) -> waits i None s ->
  (begun_unbroken ts (newConnection l n) -> broken s = false)
  /\ (broken s = false ->
      reader s <> REnded
      /\ (reader s <> RWoken true ->
          match reply (pgConn s) with
          | Some r => ended i r (run [ReadEvent; ReadTurn; WaitTurn i] s)
          | None => waits i None (run [ReadEvent; ReadTurn] s)
          end)
      /\ (reader s <> RWoken false ->
          ended i (inl (PgCancelledError "PgConnection: query canceled (read)")) (run [Cancel i; ReadTurn; WaitTurn i] s))).
Proof.
  intros s Hone Hs. split.
  { intros Hun. by destruct (waiting_known l n ts i (allowed_both _ _ Hone Hun) Hs) as (_ & Hb & _). }
  intros Hb. pose proof (allowed_both _ _ Hone (unbroken_begun _ _ Hb)) as Hts.
  destruct (waiting_known l n ts i Hts Hs) as (H & _ & Hw). fold s in H, Hw.
  assert (Hf : fine true s) by (apply run_fine; [done | apply new_fine]).
  split; [intros Hr; pose proof (gd_reader _ _ H Hr); congruence |]. split; intros Hr.
  - assert (He : exists s1, turn ReadEvent s = s1 /\ good true s1 /\ waits i None s1 /\ weakPromise s1 = Some i
      /\ reader s1 = RWoken false /\ pgConn s1 = pgConn s).
    { eexists. split; [done |]. cbn [turn]. unfold readEvent. destruct (reader s) as [| [] |] eqn:Hrd; try done.
      - rewrite Hb. repeat (split; [by try apply good_reader |]). done.
      - by pose proof (gd_reader _ _ H Hrd); congruence. }
    destruct He as (s1 & He & H1 & Hs1 & Hw1 & Hr1 & Hc). rewrite <- Hc.
    pose proof (readTurn_answers true i s1 H1 Hs1 Hw1 Hr1) as Ha.
    destruct (reply (pgConn s1)); cbn [run foldl] in *; by rewrite He.
  - assert (Hrd : reader s = RWaiting \/ reader s = RWoken true).
    { destruct (reader s) as [| [] |] eqn:Hrd; auto; [done |]. by pose proof (gd_reader _ _ H Hrd); congruence. }
    destruct (cancelTurn_wakes true i s Hf Hs Hw Hrd) as (H1 & Hs1 & Hw1 & Hr1).
    by apply (readTurn_cancels true i (cancelTurn i s)).
Qed.

(** Query [i] waits for a [readLoop] that has ended. *)
Definition stranded (i : nat) (s : Conn) : Prop := broken s = true /\ reader s = REnded /\ waits i None s.

Lemma stranded_goto (i j : nat) (pc : QueryPc) (s : Conn) : i <> j -> stranded i s -> stranded i (goto j pc s).
Proof.
  intros Hij (Hb & Hr & q & Hi & Hq). unfold goto. destruct (queries s !! j) as [qj |]; [| by repeat (split; [done |]); exists q].
  split; [done |]. split; [done |]. exists q. cbn. by rewrite list_lookup_insert_ne.
Qed.

Lemma stranded_broken (i : nat) (s : Conn) : stranded i s -> handleBroken s = s.
Proof. intros (Hb & _). unfold handleBroken. by rewrite Hb. Qed.

Lemma stranded_not (i j : nat) (q : @Query R) (s : Conn) :
  stranded i s -> queries s !! j = Some q -> q_pc q <> QWait \/ q_promise q <> None -> i <> j.
Proof. intros (_ & _ & q' & Hi & Hq & Hp) Hj Hn ->. simplify_eq. by destruct Hn. Qed.

Lemma stranded_flush (i j : nat) (c : bool) (s : Conn) : i <> j -> stranded i s -> stranded i (flushOnce j c s).
Proof.
  intros Hij Hs. unfold flushOnce, afterFlush. destruct (pq_flush (pgConn s)) as [r l].
  assert (Hs1 : stranded i (set_conn l s)) by done. rewrite (stranded_broken i) by done.
  destruct (r =? 0), c, (0 <? r); by apply stranded_goto.
Qed.

Lemma stranded_turn (i : nat) (t : Turn) (s : Conn) : good false s -> stranded i s -> stranded i (turn t s).
Proof.
  intros H Hs. pose proof Hs as (Hb & Hr & Hw). destruct t as [j | j | j | | | | j]; cbn [turn].
  - unfold startTurn. destruct (queries s !! j) as [[pc p c] |] eqn:Hj; [| done]. destruct pc; try done.
    assert (Hij : i <> j) by (eapply stranded_not; [done | done | by left]).
    destruct c; [by apply stranded_goto |]. destruct (pq_send j _) as [ok l].
    assert (Hs1 : stranded i (set_conn l (set_weak (Some j) s))) by done.
    destruct ok; cbn [negb]; [destruct (writable _); [by apply stranded_flush | by apply stranded_goto] |].
    rewrite (stranded_broken i) by done. by apply stranded_goto.
  - unfold flushTurn. destruct (queries s !! j) as [[pc p c] |] eqn:Hj; [| done]. destruct pc as [| | canceled | |]; try done.
    assert (Hij : i <> j) by (eapply stranded_not; [done | done | by left]).
    destruct canceled; [rewrite (stranded_broken i) by done; by apply stranded_goto | by apply stranded_flush].
  - unfold waitTurn. destruct (queries s !! j) as [[pc p c] |] eqn:Hj; [| done]. destruct pc; try done.
    destruct p as [r |]; [| done]. assert (Hij : i <> j) by (eapply stranded_not; [done | done | by right]).
    rewrite (stranded_broken i) by done.
    destruct r as [e | [res |]]; [| destruct (pq_error res) as [[err code] |] |]; by apply stranded_goto.
  - unfold readTurn. by rewrite Hr.
  - unfold readEvent. by rewrite Hr.
  - unfold writeEvent. by rewrite Hb.
  - unfold cancelTurn. destruct (queries s !! j) as [q |] eqn:Hj; [| done].
    set (s1 := set_query j _ s).
    assert (Hs1 : stranded i s1).
    { destruct Hw as (qi & Hi & Hq & Hp). split; [done |]. split; [done |]. cbn. destruct (decide (i = j)) as [<- | Hij].
      - simplify_eq. eexists. cbn. rewrite list_lookup_insert_eq by (by eapply lookup_lt_Some). done.
      - exists qi. cbn. by rewrite list_lookup_insert_ne. }
    destruct (live q); [| done].
    destruct (fine_cancelled false j q s Hj) as [H1 _]; [by split |].
    destruct (cancelAll_woken false s1 H1) as [Hwk Hbk]. destruct Hs1 as (Hb1 & Hr1 & Hw1).
    split; [by rewrite Hbk |]. split; [| by apply (waits_woken _ _ _ _ Hwk)].
    unfold cancelAll, cancelWriter, cancelReader. rewrite Hr1. destruct (writer s1) as [k |]; [| done].
    unfold goto. by destruct (queries (set_writer _ None _) !! k).
Qed.

(** A query that waits once [readLoop] has ended waits for ever. *)
Lemma stranded_run (i : nat) (ts : list Turn) (s : Conn) : good false s -> stranded i s -> stranded i (run ts s).
Proof.
  revert s. induction ts as [| t ts IH]; intros s H Hs; [done |]. cbn [run foldl].
  apply (IH (turn t s)); [| by apply stranded_turn].
  destruct (turn_fine false t s) as [Hg _]; [done | by split | done].
Qed.
End properties.

(** ** A small libpq *)

(** The command in progress, whose result comes at once. *)
#[local] Program Instance toyPq : LibPq (option nat) nat := {
  pq_send i l := match l with None => (true, Some i) | Some _ => (false, l) end;
  pq_flush l := (0, l);
  pq_consume l := (true, l);
  pq_busy l := false;
  pq_results l := match l with Some i => ([i], None) | None => ([], None) end;
  pq_ok l := true;
  pq_error r := None;
  pq_message l := "another command is already in progress";
  pq_current l := l;
  pq_owner r := r
}.
Next Obligation. by intros i [j |]. Qed.
Next Obligation. done. Qed.
Next Obligation. done. Qed.
Next Obligation. intros [i |]; cbn; [by repeat constructor | done]. Qed.

Lemma pg_query_answered_witness :
  let s := run [Start 0; ReadEvent; ReadTurn; WaitTurn 0; Start 1] (newConnection None 2) in
  ended 0 (inr 0%nat) s /\ ended 1 (inr 1%nat) (run [ReadEvent; ReadTurn; WaitTurn 1] s).
Proof.
  intros s. split; [by eexists |].
  assert (Hts : one_at_a_time [Start 0; ReadEvent; ReadTurn; WaitTurn 0; Start 1] (newConnection (None : option nat) 2)).
  { cbn [one_at_a_time]. split.
    - intros [| [| j]] q Hj; cbn in Hj; by simplify_eq.
    - repeat (split; [exact I |]). split; [| exact I].
      intros [| [| j]] q Hj; vm_compute in Hj; by simplify_eq. }
  destruct (pg_query_answered (None : option nat) 2 _ 1 Hts) as (_ & Hr); [by eexists |].
  destruct (Hr ltac:(done)) as (_ & Ha & _). specialize (Ha ltac:(done)). exact Ha.
Defined.

(** A second query while the first is in flight: its promise replaces the first
    one, libpq refuses it, and the first query waits for ever. *)
Example pg_second_query_strands (ts : list Turn) :
  stranded 0 (run ts (run [Start 0; Start 1; ReadTurn] (newConnection (None : option nat) 2))).
Proof.
  apply stranded_run; [| by repeat split; eexists].
  destruct (run_fine false [Start 0; Start 1; ReadTurn] (newConnection (None : option nat) 2)) as [H _];
    [done | apply new_fine | exact H].
Qed.

(** A query cancelled once it has its result breaks the connection; the next one,
    begun although it is broken, waits for ever. *)
Example pg_query_on_broken_strands (ts : list Turn) :
  let s := run [Start 0; ReadEvent; ReadTurn; Cancel 0; WaitTurn 0; ReadTurn; Start 1] (newConnection (None : option nat) 2) in
  ended 0 (inr 0%nat) s /\ stranded 1 (run ts s).
Proof.
  intros s. split; [by eexists |]. apply stranded_run; [| by repeat split; eexists].
  destruct (run_fine false [Start 0; ReadEvent; ReadTurn; Cancel 0; WaitTurn 0; ReadTurn; Start 1]
    (newConnection (None : option nat) 2)) as [H _]; [done | apply new_fine | exact H].
Qed.

(** A cancellation that comes when [readLoop] is already woken is lost. *)
Example pg_cancel_lost :
  waits 0 None (run [Start 0; ReadEvent; Cancel 0] (newConnection (None : option nat) 1))
  /\ reader (run [Start 0; ReadEvent; Cancel 0] (newConnection (None : option nat) 1)) = RWoken false.
Proof. by split; [eexists |]. Qed.
