(* ===== verification/PgTransaction.v ===== *)
(** Transactions: src/extensions/pg/src/PgTransaction.cc.

    A transaction is written against the interface of a connection (the virtual
    methods of [PgConnection]): what it sends is recorded in order, with what came
    of it.  The theorem says how what was sent ends. *)

From Stdlib Require Import String.
From stdpp Require Import base list option.
From S2P Require Import Prelude PgConnection.
Open Scope string_scope.
Open Scope list_scope.

(** The interface: a statement with its parameters, and whether the connection is
    alive. *)
Class PgConn (C P R : Type) := {
  conn_call : string -> list P -> C -> (PgExn + R) * C;
  conn_alive : C -> bool
}.

Section transaction.
Context {C P R : Type} `{!PgConn C P R}.

(** What a method throws: what the connection threw, or [PgTransactionError]. *)
Inductive TxExn : Type :=
| ConnectionThrew (e : PgExn)
| PgTransactionError (what : string).

(** [sent]: every statement given to the connection, in order, and whether it
    returned. *)
Record PgTransaction : Type := mkTransaction {
  conn_ : option C;
  done_ : bool;
  autoCommit_ : bool;
  sent : list (string * bool)
}.

Definition returned (r : PgExn + R) : bool := match r with inr _ => true | inl _ => false end.

(** [begin]: when it throws, the connection given to it is destroyed. *)
Definition begin_ (conn : C) : PgExn + PgTransaction :=
  match conn_call "BEGIN" [] conn with
  | (inl e, _) => inl e
  | (inr _, conn) => inr (mkTransaction (Some conn) false false [("BEGIN", true)])
  end.

(** A call of [conn_]; on a null pointer it is undefined. *)
Definition onConn (sql : string) (params : list P) (t : PgTransaction) : option ((PgExn + R) * PgTransaction) :=
  match conn_ t with
  | Some conn =>
      let '(r, conn) := conn_call sql params conn in
      Some (r, mkTransaction (Some conn) (done_ t) (autoCommit_ t) (sent t ++ [(sql, returned r)]))
  | None => None
  end.

Definition finishedError : TxExn := PgTransactionError "Transaction already finished".

Definition query (sql : string) (params : list P) (t : PgTransaction) : option ((TxExn + R) * PgTransaction) :=
  if done_ t then Some (inl finishedError, t)
  else
    match onConn sql params t with
    | Some (inl e, t) => Some (inl (ConnectionThrew e), t)
    | Some (inr r, t) => Some (inr r, t)
    | None => None
    end.

Definition execute (sql : string) (params : list P) (t : PgTransaction) : option ((TxExn + unit) * PgTransaction) :=
  match query sql params t with
  | Some (inl e, t) => Some (inl e, t)
  | Some (inr _, t) => Some (inr tt, t)
  | None => None
  end.

Definition set_done (t : PgTransaction) : PgTransaction := mkTransaction (conn_ t) true (autoCommit_ t) (sent t).

(** [commit] and [rollback] are one text but for the statement. *)
Definition finish (sql : string) (t : PgTransaction) : option ((TxExn + unit) * PgTransaction) :=
  if done_ t then Some (inl finishedError, t)
  else
    match onConn sql [] t with
    | Some (inl e, t) => Some (inl (ConnectionThrew e), t)
    | Some (inr _, t) => Some (inr tt, set_done t)
    | None => None
    end.
Definition commit : PgTransaction -> option ((TxExn + unit) * PgTransaction) := finish "COMMIT".
Definition rollback : PgTransaction -> option ((TxExn + unit) * PgTransaction) := finish "ROLLBACK".

Definition setAutoCommit (b : bool) (t : PgTransaction) : PgTransaction :=
  mkTransaction (conn_ t) (done_ t) b (sent t).

Definition release (t : PgTransaction) : (TxExn + option C) * PgTransaction :=
  if done_ t then (inr (conn_ t), mkTransaction None (done_ t) (autoCommit_ t) (sent t))
  else (inl (PgTransactionError "Cannot release connection before commit/rollback"), t).

Definition isAlive (t : PgTransaction) : bool :=
  negb (done_ t) && match conn_ t with Some conn => conn_alive conn | None => false end.

(** The destructor: [conn_] moves to a coroutine that sends one statement, whose
    exceptions are logged.  [None] is a call on a null pointer. *)
Definition destroy (t : PgTransaction) : option PgTransaction :=
  if done_ t then Some t
  else
    match onConn (if autoCommit_ t then "COMMIT" else "ROLLBACK") [] t with
    | Some (_, t) => Some (mkTransaction None (done_ t) (autoCommit_ t) (sent t))
    | None => None
    end.

(** ** Calls of its methods, one after the other *)

Inductive Op : Type :=
| Query (sql : string) (params : list P)
| Execute (sql : string) (params : list P)
| Commit
| Rollback
| SetAutoCommit (b : bool)
| Release.

Definition step (o : Op) (t : PgTransaction) : option PgTransaction :=
  match o with
  | Query sql params => option_map snd (query sql params t)
  | Execute sql params => option_map snd (execute sql params t)
  | Commit => option_map snd (commit t)
  | Rollback => option_map snd (rollback t)
  | SetAutoCommit b => Some (setAutoCommit b t)
  | Release => Some (snd (release t))
  end.

Fixpoint steps (os : list Op) (t : PgTransaction) : option PgTransaction :=
  match os with
  | [] => Some t
  | o :: os => match step o t with Some t => steps os t | None => None end
  end.
End transaction.
Arguments PgTransaction C : clear implicits.
Arguments Op P : clear implicits.

(** ** The invariant *)

Section invariant.
Context {C P R : Type} `{!PgConn C P R}.
Implicit Types t : PgTransaction C.

(** An open transaction holds its connection; the last statement of a finished
    one is the one that finished it. *)
Definition tx_ok t : Prop :=
  if done_ t then exists l sql, sent t = l ++ [(sql, true)] /\ (sql = "COMMIT" \/ sql = "ROLLBACK")
  else is_Some (conn_ t).

(** What was sent by open steps is kept; a finished transaction sends nothing. *)
Definition extends t t' : Prop :=
  exists l, sent t' = sent t ++ l /\ (done_ t = true -> l = [] /\ done_ t' = true).

Lemma extends_refl t : extends t t.
Proof. exists []. by rewrite app_nil_r. Qed.

Lemma extends_trans t1 t2 t3 : extends t1 t2 -> extends t2 t3 -> extends t1 t3.
Proof.
  intros (l1 & E1 & F1) (l2 & E2 & F2). exists (l1 ++ l2). rewrite E2, E1, app_assoc. split; [done |].
  intros Hd. destruct (F1 Hd) as [-> Hd2]. by destruct (F2 Hd2) as [-> Hd3].
Qed.

Lemma onConn_ok (sql : string) (params : list P) t :
  done_ t = false -> is_Some (conn_ t) ->
  exists r t', onConn sql params t = Some (r, t') /\ done_ t' = false /\ is_Some (conn_ t')
    /\ sent t' = sent t ++ [(sql, returned r)].
Proof.
  intros Hd [c Hc]. unfold onConn. rewrite Hc. destruct (conn_call sql params c) as [r c'].
  eexists _, _. split; [done |]. by rewrite Hd.
Qed.

Lemma extends_open t t' (l : list (string * bool)) : done_ t = false -> sent t' = sent t ++ l -> extends t t'.
Proof. intros Hd E. exists l. split; [done |]. by rewrite Hd. Qed.

Lemma tx_open t : done_ t = false -> tx_ok t <-> is_Some (conn_ t).
Proof. unfold tx_ok. by intros ->. Qed.

Lemma query_ok (sql : string) (params : list P) t :
  tx_ok t -> exists r t', query sql params t = Some (r, t') /\ tx_ok t' /\ extends t t'.
Proof.
  intros Ht. unfold query. destruct (done_ t) eqn:Hd.
  - eexists _, _. split; [done |]. split; [done | apply extends_refl].
  - destruct (onConn_ok sql params t Hd) as (r & t' & -> & Hd' & Hc' & Hs); [by apply tx_open |].
    pose proof (extends_open t t' _ Hd Hs). apply (tx_open t' Hd') in Hc'.
    destruct r; by eexists _, _.
Qed.

Lemma finish_ok (sql : string) t :
  sql = "COMMIT" \/ sql = "ROLLBACK" -> tx_ok t ->
  exists r t', finish sql t = Some (r, t') /\ tx_ok t' /\ extends t t'
    /\ (done_ t = false -> done_ t' = match r with inr _ => true | inl _ => false end).
Proof.
  intros Hsql Ht. unfold finish. destruct (done_ t) eqn:Hd.
  - eexists _, _. split; [done |]. split; [done |]. split; [apply extends_refl | done].
  - destruct (onConn_ok sql [] t Hd) as (r & t' & -> & Hd' & Hc' & Hs); [by apply tx_open |].
    pose proof (extends_open t t' _ Hd Hs) as He. apply (tx_open t' Hd') in Hc'.
    destruct r; eexists _, _; (split; [done |]); [done |].
    split; [| split; [by apply (extends_open t _ [(sql, true)]) | done]].
    unfold tx_ok. cbn. by exists (sent t), sql.
Qed.

Lemma step_ok (o : Op P) t : tx_ok t -> exists t', step o t = Some t' /\ tx_ok t' /\ extends t t'.
Proof.
  intros Ht.
  assert (Hsame : forall t', done_ t' = done_ t -> sent t' = sent t -> extends t t').
  { intros t' Hd Hs. exists []. rewrite Hs, app_nil_r. split; [done |]. intros Ht'. by rewrite Hd. }
  destruct o as [sql params | sql params | | | b |]; cbn [step].
  - destruct (query_ok sql params t Ht) as (r & t' & -> & H1 & H2). by exists t'.
  - unfold execute. destruct (query_ok sql params t Ht) as (r & t' & -> & H1 & H2). exists t'. by destruct r.
  - unfold commit. destruct (finish_ok "COMMIT" t) as (r & t' & -> & H1 & H2 & _); [by left | done |]. by exists t'.
  - unfold rollback. destruct (finish_ok "ROLLBACK" t) as (r & t' & -> & H1 & H2 & _); [by right | done |]. by exists t'.
  - eexists. split; [done |]. split; [done | by apply Hsame].
  - eexists. split; [done |]. unfold release. destruct (done_ t) eqn:Hd; cbn [snd]; [| by split; [| apply Hsame]].
    split; [| by apply Hsame]. unfold tx_ok in *. cbn. by rewrite Hd in Ht.
Qed.

Lemma steps_ok (os : list (Op P)) t : tx_ok t -> exists t', steps os t = Some t' /\ tx_ok t' /\ extends t t'.
Proof.
  revert t. induction os as [| o os IH]; intros t Ht; cbn [steps].
  - exists t. split; [done |]. split; [done | apply extends_refl].
  - destruct (step_ok o t Ht) as (t1 & -> & H1 & E1). destruct (IH t1 H1) as (t2 & -> & H2 & E2).
    exists t2. split; [done |]. split; [done | by eapply extends_trans].
Qed.

Lemma begin_ok (conn : C) t : begin_ conn = inr t -> tx_ok t /\ done_ t = false /\ sent t = [("BEGIN", true)].
Proof.
  unfold begin_. destruct (conn_call "BEGIN" [] conn) as [[e | r] c]; intros [= <-].
  split; [| done]. by apply tx_open; [| eexists].
Qed.

(** C28: Whatever is called on a transaction that began, and whatever the connection
    answers: no call is made through a null pointer; a finished transaction sent
    its [COMMIT] or [ROLLBACK] last, which succeeded, and every later call leaves
    what was sent alone and [query], [commit] and [rollback] throw; an unfinished
    one does not give its connection away, and its destructor sends one statement
    more, [ROLLBACK] unless [setAutoCommit] was called with true last. *)
Theorem pg_transaction_ends (conn : C) t (os : list (Op P)) :
  begin_ conn = inr t ->
  exists t1 t2, steps os t = Some t1 /\ destroy t1 = Some t2
    /\ (exists l, sent t1 = ("BEGIN", true) :: l)
    /\ if done_ t1 then
         (exists l sql, sent t1 = l ++ [(sql, true)] /\ (sql = "COMMIT" \/ sql = "ROLLBACK"))
         /\ t2 = t1
         /\ (forall os', exists t', steps os' t1 = Some t' /\ done_ t' = true /\ sent t' = sent t1)
         /\ (forall sql params, query sql params t1 = Some (inl finishedError, t1))
         /\ commit t1 = Some (inl finishedError, t1) /\ rollback t1 = Some (inl finishedError, t1)
       else
         fst (release t1) = inl (PgTransactionError "Cannot release connection before commit/rollback")
         /\ exists ok, sent t2 = sent t1 ++ [(if autoCommit_ t1 then "COMMIT" else "ROLLBACK", ok)].
Proof.
  intros Hb. destruct (begin_ok conn t Hb) as (Ht & Hd0 & Hs0).
  destruct (steps_ok os t Ht) as (t1 & Hst & Ht1 & (l & Hl & _)). exists t1.
  rewrite Hst. unfold destroy, query, commit, rollback, finish, release.
  destruct (done_ t1) eqn:Hd1.
  - exists t1. split; [done |]. split; [done |]. split; [exists l; by rewrite Hl, Hs0 |].
    pose proof Ht1 as Hfin. unfold tx_ok in Hfin. rewrite Hd1 in Hfin. split; [done |]. split; [done |].
    split; [| done]. intros os'. destruct (steps_ok os' t1 Ht1) as (t' & H1 & _ & (l' & Hl' & Hnil)).
    destruct (Hnil Hd1) as [-> Hd']. exists t'. by rewrite Hl', app_nil_r.
  - destruct (onConn_ok (if autoCommit_ t1 then "COMMIT" else "ROLLBACK") [] t1 Hd1) as (r & t2 & -> & _ & _ & Hs);
      [by apply tx_open |].
    eexists. split; [done |]. split; [done |]. split; [exists l; by rewrite Hl, Hs0 |]. split; [done |].
    exists (returned r). done.
Qed.
End invariant.

(** ** A connection that counts, and refuses one statement *)

#[local] Instance toyConn : PgConn nat unit nat := {
  conn_call sql _ n := if String.eqb sql "bad" then (inl (PgQueryError "PgConnection query error: bad" "42601"), S n) else (inr n, S n);
  conn_alive n := true
}.

Lemma pg_transaction_ends_witness :
  exists t1 : PgTransaction nat,
    steps [Query "a" []; Execute "bad" []; Commit; Rollback; Query "b" []] (mkTransaction (Some 1%nat) false false [("BEGIN", true)])
    = Some t1 /\ sent t1 = [("BEGIN", true); ("a", true); ("bad", false); ("COMMIT", true)].
Proof.
  assert (Hb : begin_ (P := unit) (R := nat) 0%nat = inr (mkTransaction (Some 1%nat) false false [("BEGIN", true)])) by reflexivity.
  destruct (pg_transaction_ends 0%nat _ [Query "a" []; Execute "bad" []; Commit; Rollback; Query "b" []] Hb) as (t1 & t2 & Hs & _).
  exists t1. split; [exact Hs |]. vm_compute in Hs. by injection Hs as <-.
Defined.
