(* ===== verification/DnsResolver.v ===== *)
(** Name resolution: src/src/DnsResolver.cc, on the thread pool of
    src/src/TaskQueue.cc.

    Coroutines that resolve and the pool's worker threads interleave; what a
    thread does under a mutex, or between two accesses to shared state, is one
    step.  [getaddrinfo] and the clock are outside: a lookup takes the answer it
    is given, and time passes by steps of its own.  The resolver is not destroyed
    while someone resolves. *)

From Stdlib Require Import ZArith Lia String Sorted.
From stdpp Require Import base numbers option list gmap.
From S2P Require Import Prelude CxxStd.
Open Scope Z_scope.

Section resolver.
Context {A : Type} (gai_strerror : Z -> bytes) (ttl : Z).

(** ** State *)

Record Question : Type := mkQuestion { hostname : bytes; service : bytes; family : Z }.

(** [DnsException] *)
Record DnsException : Type := mkDnsException { message_ : bytes; error_code_ : Z }.

Definition Answer : Type := DnsException + list A.

Record CacheEntry : Type := mkCacheEntry { addresses : list A; expiry : Z }.

(** A coroutine in [resolveImpl]: not begun, about to lock [mutex], about to post
    its task, waiting for the future. *)
Inductive CallerPc : Type :=
| CStart
| CLock (now : Z)
| CPost
| CWait.

(** [c_promise]: what its promise was set to. *)
Record Caller : Type := mkCaller { c_question : Question; c_pc : CallerPc; c_promise : option Answer }.

(** A thread of the pool: in [workerThread], or in [doResolve] before
    [getaddrinfo] returns, with its addresses, with the time, after the first
    critical section, before the second, before the one of an error, setting
    promises; ended. *)
Inductive WorkerPc : Type :=
| WIdle
| WLookup (q : Question)
| WFound (q : Question) (l : list A)
| WStore (q : Question) (l : list A) (now : Z)
| WCount (q : Question) (l : list A) (now : Z) (waiters : list nat)
| WExpire (q : Question) (l : list A) (now : Z) (waiters : list nat)
| WFail (q : Question) (e : DnsException)
| WAnswer (q : Question) (r : Answer) (waiters : list nat)
| WEnded.

(** [expiryQueue] is sorted, its top first.  [threw]: a promise was set twice,
    which throws in a worker.  [found] keeps the lookups that gave addresses, with
    the time they were stored at. *)
Record World : Type := mkWorld {
  cache : gmap bytes CacheEntry;
  pending : gmap bytes (list nat);
  expiryQueue : list (Z * bytes);
  writeCount : Z;
  tasks_ : list Question;
  stop_ : bool;
  callers : list Caller;
  workers : list WorkerPc;
  clock : Z;
  threw : bool;
  found : list (Question * list A * Z)
}.

Definition newResolver (qs : list Question) (threads : nat) (now : Z) : World :=
  mkWorld ∅ ∅ [] 0 [] false (map (fun q => mkCaller q CStart None) qs) (replicate threads WIdle) now false [].

Definition set_cache (c : gmap bytes CacheEntry) (w : World) : World :=
  mkWorld c (pending w) (expiryQueue w) (writeCount w) (tasks_ w) (stop_ w) (callers w) (workers w) (clock w) (threw w) (found w).
Definition set_pending (p : gmap bytes (list nat)) (w : World) : World :=
  mkWorld (cache w) p (expiryQueue w) (writeCount w) (tasks_ w) (stop_ w) (callers w) (workers w) (clock w) (threw w) (found w).
Definition set_queue (e : list (Z * bytes)) (w : World) : World :=
  mkWorld (cache w) (pending w) e (writeCount w) (tasks_ w) (stop_ w) (callers w) (workers w) (clock w) (threw w) (found w).
Definition set_count (n : Z) (w : World) : World :=
  mkWorld (cache w) (pending w) (expiryQueue w) n (tasks_ w) (stop_ w) (callers w) (workers w) (clock w) (threw w) (found w).
Definition set_tasks (t : list Question) (w : World) : World :=
  mkWorld (cache w) (pending w) (expiryQueue w) (writeCount w) t (stop_ w) (callers w) (workers w) (clock w) (threw w) (found w).
Definition set_stop (b : bool) (w : World) : World :=
  mkWorld (cache w) (pending w) (expiryQueue w) (writeCount w) (tasks_ w) b (callers w) (workers w) (clock w) (threw w) (found w).
Definition set_caller (i : nat) (c : Caller) (w : World) : World :=
  mkWorld (cache w) (pending w) (expiryQueue w) (writeCount w) (tasks_ w) (stop_ w) (<[i := c]> (callers w)) (workers w) (clock w) (threw w) (found w).
Definition set_worker (v : nat) (pc : WorkerPc) (w : World) : World :=
  mkWorld (cache w) (pending w) (expiryQueue w) (writeCount w) (tasks_ w) (stop_ w) (callers w) (<[v := pc]> (workers w)) (clock w) (threw w) (found w).
Definition set_clock (t : Z) (w : World) : World :=
  mkWorld (cache w) (pending w) (expiryQueue w) (writeCount w) (tasks_ w) (stop_ w) (callers w) (workers w) t (threw w) (found w).
Definition set_threw (w : World) : World :=
  mkWorld (cache w) (pending w) (expiryQueue w) (writeCount w) (tasks_ w) (stop_ w) (callers w) (workers w) (clock w) true (found w).
Definition add_found (x : Question * list A * Z) (w : World) : World :=
  mkWorld (cache w) (pending w) (expiryQueue w) (writeCount w) (tasks_ w) (stop_ w) (callers w) (workers w) (clock w) (threw w) (x :: found w).

(** ** The thread pool *)

(** [post] *)
Definition post (q : Question) (w : World) : World := set_tasks (tasks_ w ++ [q]) w.

(** [workerThread]: the wait under [mutex_] and what follows; it stays while
    there is nothing to do. *)
Definition workerThread (v : nat) (w : World) : World :=
  if stop_ w then set_worker v WEnded w
  else
    match tasks_ w with
    | q :: ts => set_worker v (WLookup q) (set_tasks ts w)
    | [] => w
    end.

(** ** [resolveImpl] *)

Definition cacheKey (q : Question) : bytes := hostname q ++ str "|" ++ service q ++ str "|" ++ to_string (family q).

Definition goto (i : nat) (pc : CallerPc) (c : Caller) (w : World) : World :=
  set_caller i (mkCaller (c_question c) pc (c_promise c)) w.

Definition lookupSection (i : nat) (c : Caller) (now : Z) (w : World) : World :=
  let key := cacheKey (c_question c) in
  let miss :=
    match pending w !! key with
    | Some l => goto i CWait c (set_pending (<[key := l ++ [i]]> (pending w)) w)
    | None => goto i CPost c (set_pending (<[key := [i]]> (pending w)) w)
    end in
  match cache w !! key with
  | Some e =>
      if now <? expiry e then set_caller i (mkCaller (c_question c) CWait (Some (inr (addresses e)))) w
      else miss
  | None => miss
  end.

Definition callerStep (i : nat) (w : World) : World :=
  match callers w !! i with
  | Some c =>
      match c_pc c with
      | CStart => goto i (CLock (clock w)) c w
      | CLock now => lookupSection i c now w
      | CPost => goto i CWait c (post (c_question c) w)
      | CWait => w
      end
  | None => w
  end.

(** ** [doResolve] *)

(** An [addrinfo]: its family, and the address [ai_addr] points to. *)
Definition AddrInfo : Type := Z * option A.

Definition AF_INET : Z := 2.
Definition AF_INET6 : Z := 10.

Fixpoint usable (res : list AddrInfo) : list A :=
  match res with
  | [] => []
  | (fam, addr) :: res' =>
      match addr with
      | Some a => if (fam =? AF_INET) || (fam =? AF_INET6) then a :: usable res' else usable res'
      | None => usable res'
      end
  end.

(** What [getaddrinfo] gives: a code and a list, which is null when empty. *)
Definition lookupResult (error : Z) (res : list AddrInfo) : Answer :=
  match res with
  | [] => inl (mkDnsException (str "no result") error)
  | _ =>
      if negb (error =? 0) then inl (mkDnsException (gai_strerror error) error)
      else
        match usable res with
        | [] => inl (mkDnsException (str "no usable addresses") 0)
        | l => inr l
        end
  end.

(** [expiryQueue.push] *)
Fixpoint push (x : Z * bytes) (l : list (Z * bytes)) : list (Z * bytes) :=
  match l with
  | [] => [x]
  | y :: l' => if fst x <=? fst y then x :: l else y :: push x l'
  end.

(** The loop that expires old entries. *)
Fixpoint purge (now : Z) (l : list (Z * bytes)) (c : gmap bytes CacheEntry) : list (Z * bytes) * gmap bytes CacheEntry :=
  match l with
  | (e, key) :: l' =>
      if e <=? now then
        purge now l'
          (match c !! key with Some entry => if expiry entry <=? now then delete key c else c | None => c end)
      else (l, c)
  | [] => (l, c)
  end.

(** The waiters of a key, taken out of [pending]. *)
Definition takeWaiters (key : bytes) (w : World) : list nat * World :=
  match pending w !! key with
  | Some l => (l, set_pending (delete key (pending w)) w)
  | None => ([], w)
  end.

(** [set_value] or [set_exception] of one promise. *)
Definition fulfil (i : nat) (r : Answer) (w : World) : World :=
  match callers w !! i with
  | Some c =>
      match c_promise c with
      | None => set_caller i (mkCaller (c_question c) (c_pc c) (Some r)) w
      | Some _ => set_threw w
      end
  | None => w
  end.

Definition workerStep (v : nat) (w : World) : World :=
  match workers w !! v with
  | Some WIdle => workerThread v w
  | Some (WFound q l) => set_worker v (WStore q l (clock w)) w
  | Some (WStore q l now) =>
      let key := cacheKey q in
      let w := set_cache (<[key := mkCacheEntry l (now + ttl)]> (cache w)) w in
      let w := set_queue (push (now + ttl, key) (expiryQueue w)) w in
      let '(waiters, w) := takeWaiters key w in
      set_worker v (WCount q l now waiters) (add_found (q, l, now) w)
  | Some (WCount q l now waiters) =>
      let n := writeCount w in
      set_worker v (if Z.land n 15 =? 0 then WExpire q l now waiters else WAnswer q (inr l) waiters)
        (set_count (u32 (n + 1)) w)
  | Some (WExpire q l now waiters) =>
      let '(queue, c) := purge now (expiryQueue w) (cache w) in
      set_worker v (WAnswer q (inr l) waiters) (set_queue queue (set_cache c w))
  | Some (WFail q e) =>
      let '(waiters, w) := takeWaiters (cacheKey q) w in
      set_worker v (WAnswer q (inl e) waiters) w
  | Some (WAnswer q r waiters) =>
      match waiters with
      | i :: l => set_worker v (WAnswer q r l) (fulfil i r w)
      | [] => set_worker v WIdle w
      end
  | _ => w
  end.

(** [getaddrinfo] returns. *)
Definition lookupStep (v : nat) (error : Z) (res : list AddrInfo) (w : World) : World :=
  match workers w !! v with
  | Some (WLookup q) =>
      set_worker v (match lookupResult error res with inl e => WFail q e | inr l => WFound q l end) w
  | _ => w
  end.

(** ** Runs *)

Inductive Label : Type :=
| CallerTurn (i : nat)
| WorkerTurn (v : nat)
| Lookup (v : nat) (error : Z) (res : list AddrInfo)
| Tick (d : N)
| Stop.

Definition step (l : Label) (w : World) : World :=
  match l with
  | CallerTurn i => callerStep i w
  | WorkerTurn v => workerStep v w
  | Lookup v error res => lookupStep v error res w
  | Tick d => set_clock (clock w + Z.of_N d) w
  | Stop => set_stop true w
  end.

Definition run (ls : list Label) (w : World) : World := foldl (fun w l => step l w) w ls.
End resolver.

(** ** The invariant *)

Section invariant.
Context {A : Type} (ttl : Z).
Abbreviation World := (@World A).
Abbreviation Caller := (@Caller A).
Abbreviation WorkerPc := (@WorkerPc A).

(** Sums over lists that are updated. *)
Lemma sum_insert {X : Type} (f : X -> nat) (l : list X) (i : nat) (x y : X) :
  l !! i = Some x -> (sum_list_with f (<[i := y]> l) + f x = sum_list_with f l + f y)%nat.
Proof.
  revert i. induction l as [| z l IH]; intros [| i] Hi; [done.. | |].
  - cbn in *. simplify_eq. lia.
  - change (<[S i := y]> (z :: l)) with (z :: <[i := y]> l). specialize (IH i Hi). cbn [sum_list_with]. lia.
Qed.

Lemma sum_at {X : Type} (f : X -> nat) (l : list X) (i : nat) (x : X) :
  l !! i = Some x -> (f x <= sum_list_with f l)%nat.
Proof. revert i. induction l as [| z l IH]; intros [| i] Hi; [done.. | |]; cbn in *; [simplify_eq; lia |]. specialize (IH i Hi). lia. Qed.

Definition one (P : Prop) `{Decision P} : nat := if decide P then 1 else 0.

(** Who has the task of resolving [k]. *)
Definition callerJob (k : bytes) (c : Caller) : nat :=
  match c_pc c with CPost => one (cacheKey (c_question c) = k) | _ => 0 end.
Definition workerJob (k : bytes) (pc : WorkerPc) : nat :=
  match pc with WLookup q | WFound q _ | WStore q _ _ | WFail q _ => one (cacheKey q = k) | _ => 0 end.
Definition jobs (k : bytes) (w : World) : nat :=
  sum_list_with (callerJob k) (callers w) + sum_list_with (fun q => one (cacheKey q = k)) (tasks_ w)
  + sum_list_with (workerJob k) (workers w).

(** How often the promise of [i] is kept, by [pending] or by a worker. *)
Definition times (i : nat) (l : list nat) : nat := sum_list_with (fun j => one (j = i)) l.
Definition waitersOf (pc : WorkerPc) : list nat :=
  match pc with WCount _ _ _ l | WExpire _ _ _ l | WAnswer _ _ l => l | _ => [] end.
Definition owed (i : nat) (k : bytes) (w : World) : nat :=
  times i (default [] (pending w !! k)) + sum_list_with (fun pc => times i (waitersOf pc)) (workers w).

Definition waiting (c : Caller) : nat :=
  match c_pc c, c_promise c with CPost, None | CWait, None => 1 | _, _ => 0 end.

Definition asks (i : nat) (k : bytes) (w : World) : Prop :=
  exists c, callers w !! i = Some c /\ cacheKey (c_question c) = k.

(** A lookup of key [k] gave [l], stored at [t]. *)
Definition looked_up (k : bytes) (l : list A) (t : Z) (w : World) : Prop :=
  l <> [] /\ exists q, (q, l, t) ∈ found w /\ cacheKey q = k.

Definition known (k : bytes) (r : Answer) (w : World) : Prop :=
  match r with inr l => exists t, looked_up k l t w | inl _ => True end.

Definition worker_ok (w : World) (pc : WorkerPc) : Prop :=
  match pc with
  | WFound _ l | WStore _ l _ => l <> []
  | WCount q l now ws | WExpire q l now ws => looked_up (cacheKey q) l now w /\ Forall (fun i => asks i (cacheKey q) w) ws
  | WAnswer q r ws => known (cacheKey q) r w /\ Forall (fun i => asks i (cacheKey q) w) ws
  | _ => True
  end.

Record inv (w : World) : Prop := {
  inv_threw : threw w = false;
  inv_jobs : forall k, jobs k w = match pending w !! k with Some _ => 1%nat | None => 0%nat end;
  inv_pending : forall k l, pending w !! k = Some l -> Forall (fun i => asks i k w) l;
  inv_owed : forall i c, callers w !! i = Some c -> owed i (cacheKey (c_question c)) w = waiting c;
  inv_new : forall i c, callers w !! i = Some c -> c_promise c <> None -> c_pc c = CPost \/ c_pc c = CWait;
  inv_workers : forall v pc, workers w !! v = Some pc -> worker_ok w pc;
  inv_cache : forall k e, cache w !! k = Some e ->
    exists t, looked_up k (addresses e) t w /\ expiry e = t + ttl /\ (expiry e, k) ∈ expiryQueue w;
  inv_sorted : StronglySorted (fun x y => fst x <= fst y) (expiryQueue w);
  inv_promise : forall i c r, callers w !! i = Some c -> c_promise c = Some r -> known (cacheKey (c_question c)) r w
}.

(** *** Counting *)

Lemma jobs_worker (k : bytes) (v : nat) (pc pc' : WorkerPc) (w : World) :
  workers w !! v = Some pc -> (jobs k (set_worker v pc' w) + workerJob k pc = jobs k w + workerJob k pc')%nat.
Proof. intros Hv. pose proof (sum_insert (workerJob k) _ _ _ pc' Hv). unfold jobs. cbn. lia. Qed.

Lemma owed_worker (i : nat) (k : bytes) (v : nat) (pc pc' : WorkerPc) (w : World) :
  workers w !! v = Some pc ->
  (owed i k (set_worker v pc' w) + times i (waitersOf pc) = owed i k w + times i (waitersOf pc'))%nat.
Proof.
  intros Hv. pose proof (sum_insert (fun pc => times i (waitersOf pc)) _ _ _ pc' Hv) as H. cbv beta in H.
  unfold owed. cbn [pending workers set_worker]. lia.
Qed.

Lemma jobs_caller (k : bytes) (i : nat) (c c' : Caller) (w : World) :
  callers w !! i = Some c -> (jobs k (set_caller i c' w) + callerJob k c = jobs k w + callerJob k c')%nat.
Proof. intros Hi. pose proof (sum_insert (callerJob k) _ _ _ c' Hi). unfold jobs. cbn. lia. Qed.

Lemma times_app (i : nat) (l1 l2 : list nat) : times i (l1 ++ l2) = (times i l1 + times i l2)%nat.
Proof. unfold times. induction l1; cbn; lia. Qed.

Lemma times_in (i : nat) (l : list nat) : i ∈ l -> (1 <= times i l)%nat.
Proof.
  intros [j Hj]%list_elem_of_lookup. pose proof (sum_at (fun j => one (j = i)) l j i Hj) as H. cbv beta in H.
  unfold times. unfold one at 1 in H. by rewrite decide_True in H.
Qed.

(** *** What does not matter to it *)

Lemma asks_caller (j i : nat) (k : bytes) (c c' : Caller) (w : World) :
  callers w !! i = Some c -> c_question c' = c_question c -> asks j k w -> asks j k (set_caller i c' w).
Proof.
  intros Hi Hq (d & Hj & Hd). unfold asks. cbn. destruct (decide (j = i)) as [-> | Hne].
  - exists c'. rewrite list_lookup_insert_eq by (by eapply lookup_lt_Some). split; [done |]. simplify_eq. by rewrite Hq.
  - exists d. by rewrite list_lookup_insert_ne.
Qed.

Lemma looked_up_more (k : bytes) (l : list A) (t : Z) x (w : World) : looked_up k l t w -> looked_up k l t (add_found x w).
Proof. intros (Hl & q & Hq & Hk). split; [done |]. exists q. split; [| done]. cbn. by right. Qed.

Lemma known_more (k : bytes) (r : Answer) x (w : World) : known k r w -> known k r (add_found x w).
Proof. destruct r as [e | l]; [done |]. intros [t Ht]. exists t. by apply looked_up_more. Qed.

Lemma worker_ok_more (pc : WorkerPc) x (w : World) : worker_ok w pc -> worker_ok (add_found x w) pc.
Proof.
  destruct pc; cbn; try done.
  - intros [H ?]. split; [by apply looked_up_more | done].
  - intros [H ?]. split; [by apply looked_up_more | done].
  - intros [H ?]. split; [by apply known_more | done].
Qed.

Lemma worker_ok_caller (i : nat) (c c' : Caller) (pc : WorkerPc) (w : World) :
  callers w !! i = Some c -> c_question c' = c_question c -> worker_ok w pc -> worker_ok (set_caller i c' w) pc.
Proof.
  intros Hi Hq. destruct pc; cbn; try done; (intros [H Hf]; split; [done |]; eapply Forall_impl; [exact Hf |]; cbn;
    intros j Hj; by apply (asks_caller j i _ c)).
Qed.

(** *** Steps keep it *)

(** A worker goes on with the same task and the same waiters. *)
Lemma inv_set_worker (v : nat) (pc pc' : WorkerPc) (w : World) :
  inv w -> workers w !! v = Some pc -> (forall k, workerJob k pc' = workerJob k pc) -> waitersOf pc' = waitersOf pc ->
  worker_ok w pc' -> inv (set_worker v pc' w).
Proof.
  intros [H1 H2 H3 H4 H5 H6 H7 H9 H8] Hv Hj Hw Hok. split; try done.
  - intros k. pose proof (jobs_worker k v pc pc' w Hv) as E. rewrite Hj in E. cbn [pending set_worker]. rewrite <- H2. lia.
  - intros i c Hi. pose proof (owed_worker i (cacheKey (c_question c)) v pc pc' w Hv) as E. rewrite Hw in E.
    rewrite <- (H4 i c Hi). lia.
  - intros u pcu. cbn. intros [(-> & <- & _) | [_ Hu]]%list_lookup_insert_Some; [done | by apply (H6 u)].
Qed.

(** A caller goes on, with the same question, and nothing else changes. *)
Lemma inv_set_caller (i : nat) (c c' : Caller) (w : World) :
  inv w -> callers w !! i = Some c -> c_question c' = c_question c -> (forall k, callerJob k c' = callerJob k c) ->
  waiting c' = waiting c -> (c_promise c' <> None -> c_pc c' = CPost \/ c_pc c' = CWait) ->
  (forall r, c_promise c' = Some r -> known (cacheKey (c_question c)) r w) -> inv (set_caller i c' w).
Proof.
  intros [H1 H2 H3 H4 H5 H6 H7 H9 H8] Hi Hq Hj Hw Hp Hk. split; try done.
  - intros k. pose proof (jobs_caller k i c c' w Hi) as E. rewrite Hj in E. cbn [pending set_caller]. rewrite <- H2. lia.
  - intros k l Hl. eapply Forall_impl; [exact (H3 k l Hl) |]. intros j Hjk. by apply (asks_caller j i _ c).
  - intros j d. cbn. intros [(-> & <- & _) | [_ Hjd]]%list_lookup_insert_Some; [| by apply (H4 j)].
    change (owed j (cacheKey (c_question c')) w = waiting c'). rewrite Hw, Hq. by apply H4.
  - intros j d. cbn. intros [(-> & <- & _) | [_ Hjd]]%list_lookup_insert_Some; [done | by apply (H5 j)].
  - intros v pc Hv. apply (worker_ok_caller i c); try done. by apply (H6 v).
  - intros j d r. cbn. intros [(-> & <- & _) | [_ Hjd]]%list_lookup_insert_Some; [rewrite Hq; apply Hk | by apply (H8 j)].
Qed.

(** A caller joins the waiters of its key, the first of which posts the task. *)
Lemma inv_join (i : nat) (c : Caller) (pc : CallerPc) (w : World) :
  let key := cacheKey (c_question c) in
  inv w -> callers w !! i = Some c -> (exists now, c_pc c = CLock now) ->
  pc = match pending w !! key with Some _ => CWait | None => CPost end ->
  inv (goto i pc c (set_pending (<[key := default [] (pending w !! key) ++ [i]]> (pending w)) w)).
Proof.
  intros key [H1 H2 H3 H4 H5 H6 H7 H9 H8] Hi [now Hc] Hpc.
  assert (Hp : c_promise c = None). { destruct (c_promise c) eqn:E; [| done]. destruct (H5 i c Hi) as [E' | E']; congruence. }
  set (w1 := set_pending _ w). set (c' := mkCaller (c_question c) pc (c_promise c)).
  assert (Hpos : pc = CWait \/ pc = CPost) by (rewrite Hpc; destruct (pending w !! key); auto).
  assert (Hasks : forall j k, asks j k w -> asks j k (goto i pc c w1)).
  { intros j k Hj. by apply (asks_caller j i k c c' w1). }
  split; try done.
  - intros k. pose proof (jobs_caller k i c c' w1 Hi) as E. change (jobs k w1) with (jobs k w) in E.
    change (jobs k (goto i pc c w1)) with (jobs k (set_caller i c' w1)).
    unfold callerJob in E. rewrite Hc in E. cbn [c_pc c'] in E. rewrite H2 in E. cbn [pending goto set_caller w1 set_pending].
    destruct (decide (k = key)) as [-> | Hne].
    + rewrite lookup_insert_eq. cbn [c_question c'] in E. subst pc. unfold one in E.
      destruct (pending w !! key); [lia |]. rewrite decide_True in E by done. lia.
    + rewrite lookup_insert_ne by done. destruct pc; try lia. cbn [c_question c'] in E. unfold one in E.
      rewrite decide_False in E by (fold key; congruence). lia.
  - intros k l. cbn. intros [(<- & <-) | [Hne Hl]]%lookup_insert_Some.
    + apply Forall_app. split; [| repeat constructor; apply Hasks; by exists c].
      destruct (pending w !! key) as [l |] eqn:Hl; [| constructor]. eapply Forall_impl; [exact (H3 _ _ Hl) |]. auto.
    + eapply Forall_impl; [exact (H3 _ _ Hl) |]. auto.
  - intros j d Hj. cbn in Hj. unfold owed. cbn [pending workers goto set_caller w1 set_pending].
    assert (Hsame : forall n, (times j (default [] (<[key := default [] (pending w !! key) ++ [i]]> (pending w) !! cacheKey (c_question d))) + n
      = times j (default [] (pending w !! cacheKey (c_question d))) + n + (if decide (cacheKey (c_question d) = key /\ j = i) then 1 else 0))%nat).
    { intros n. destruct (decide (key = cacheKey (c_question d))) as [He | He].
      - rewrite <- He, lookup_insert_eq. cbn [from_option id]. rewrite times_app. unfold times at 2. cbn. unfold one.
        destruct (decide (i = j)) as [-> | Hn]; [rewrite decide_True by done; lia | rewrite decide_False by (by intros [_ ->]); lia].
      - rewrite lookup_insert_ne by done. rewrite decide_False by (intros [E _]; congruence). lia. }
    rewrite Hsame. apply list_lookup_insert_Some in Hj as [(-> & <- & _) | [Hne Hj]].
    + pose proof (H4 j c Hi) as E. unfold owed in E. cbn [c_question]. rewrite decide_True by done.
      fold key in E |- *. unfold waiting in *. rewrite Hc in E. cbn. rewrite Hp.
      destruct Hpos as [-> | ->]; lia.
    + pose proof (H4 j d Hj) as E. unfold owed in E. rewrite decide_False by (by intros [_ ->]). lia.
  - intros j d. cbn. intros [(-> & <- & _) | [_ Hjd]]%list_lookup_insert_Some; [cbn; congruence | by apply (H5 j)].
  - intros v pcv Hv. apply (worker_ok_caller i c c' pcv w1); try done. by apply (H6 v).
  - intros j d r. cbn. intros [(-> & <- & _) | [_ Hjd]]%list_lookup_insert_Some; [cbn; congruence | by apply (H8 j)].
Qed.

(** The task of a key ends: its waiters go to the worker. *)
Lemma inv_take (v : nat) (q : Question) (pc pc' : WorkerPc) (w : World) :
  inv w -> workers w !! v = Some pc -> (forall k, workerJob k pc = one (cacheKey q = k)) -> waitersOf pc = [] ->
  (forall k, workerJob k pc' = 0%nat) -> waitersOf pc' = fst (takeWaiters (cacheKey q) w) ->
  (Forall (fun i => asks i (cacheKey q) w) (waitersOf pc') -> worker_ok w pc') ->
  inv (set_worker v pc' (snd (takeWaiters (cacheKey q) w))).
Proof.
  intros [H1 H2 H3 H4 H5 H6 H7 H9 H8] Hv Hj Hw Hj' Hw' Hok.
  assert (Hsome : exists l, pending w !! cacheKey q = Some l).
  { pose proof (H2 (cacheKey q)) as E. pose proof (sum_at (workerJob (cacheKey q)) _ _ _ Hv) as E1.
    rewrite Hj in E1. unfold one in E1. rewrite decide_True in E1 by done. unfold jobs in E.
    destruct (pending w !! cacheKey q) as [l |]; [by exists l | lia]. }
  destruct Hsome as [l Hl]. unfold takeWaiters in *. rewrite Hl in *. cbn [fst snd] in *.
  set (w1 := set_pending (delete (cacheKey q) (pending w)) w).
  assert (Hv1 : workers w1 !! v = Some pc) by done. split; try done.
  - intros k. pose proof (jobs_worker k v pc pc' w1 Hv1) as E. change (jobs k w1) with (jobs k w) in E.
    rewrite Hj, Hj', H2 in E. cbn [pending set_worker w1 set_pending]. unfold one in E.
    destruct (decide (cacheKey q = k)) as [<- | Hne].
    + rewrite lookup_delete_eq. rewrite Hl in E. lia.
    + rewrite lookup_delete_ne by done. lia.
  - intros k l'. cbn. intros [_ Hk]%lookup_delete_Some. by apply (H3 k).
  - intros i c Hi. pose proof (owed_worker i (cacheKey (c_question c)) v pc pc' w1 Hv1) as E.
    rewrite <- (H4 i c Hi). change (owed i (cacheKey (c_question c)) (set_worker v pc' w1)
      = owed i (cacheKey (c_question c)) w). rewrite Hw, Hw' in E. change (times i []) with 0%nat in E.
    assert (Ho : (owed i (cacheKey (c_question c)) w1 + times i l = owed i (cacheKey (c_question c)) w)%nat).
    { unfold owed. cbn [pending workers w1 set_pending]. destruct (decide (cacheKey q = cacheKey (c_question c))) as [He | Hne].
      - rewrite <- He, lookup_delete_eq, Hl. cbn [from_option id]. change (times i []) with 0%nat. lia.
      - rewrite lookup_delete_ne by done. assert (Hz : times i l = 0%nat); [| lia].
        destruct (times i l) eqn:Ht; [done |]. exfalso.
        assert (Hin : i ∈ l).
        { clear -Ht. induction l as [| j l IH]; [done |]. unfold times in *. cbn in Ht. unfold one in Ht.
          destruct (decide (j = i)) as [-> | Hn]; [by left | right; by apply IH]. }
        destruct (proj1 (Forall_forall _ _) (H3 _ _ Hl) i Hin) as (c' & Hi' & Hc').
        change (callers w !! i = Some c) in Hi. congruence. }
    lia.
  - intros u pcu. cbn. intros [(-> & <- & _) | [_ Hu]]%list_lookup_insert_Some; [| by apply (H6 u)].
    change (worker_ok w pc'). apply Hok. rewrite Hw'. by apply (H3 _ _ Hl).
Qed.

(** A worker sets a promise: it is not set already. *)
Lemma inv_fulfil (v : nat) (q : Question) (r : Answer) (i : nat) (l : list nat) (w : World) :
  inv w -> workers w !! v = Some (WAnswer q r (i :: l)) -> inv (set_worker v (WAnswer q r l) (fulfil i r w)).
Proof.
  intros H Hv. pose proof H as [H1 H2 H3 H4 H5 H6 H7 H9 H8]. destruct (H6 v _ Hv) as [Hk Hf].
  apply Forall_cons in Hf as [(c & Hi & Hc) Hf].
  pose proof (H4 i c Hi) as Ho. rewrite Hc in Ho.
  pose proof (sum_at (fun pc => times i (waitersOf pc)) _ _ _ Hv) as Hs. cbv beta in Hs. cbn [waitersOf] in Hs.
  assert (Ht : (times i (i :: l) = 1 + times i l)%nat).
  { change (times i (i :: l)) with (one (i = i) + times i l)%nat. unfold one. by rewrite decide_True. }
  assert (Hwt : waiting c = 1%nat).
  { unfold owed in Ho. unfold waiting in *. destruct (c_pc c), (c_promise c); lia. }
  assert (Hp : c_promise c = None) by (unfold waiting in Hwt; destruct (c_pc c), (c_promise c); done).
  unfold fulfil. rewrite Hi, Hp. set (c' := mkCaller (c_question c) (c_pc c) (Some r)).
  assert (Hwt' : waiting c' = 0%nat) by (unfold waiting; cbn; by destruct (c_pc c)).
  assert (Hasks : forall j k, asks j k w -> asks j k (set_caller i c' w)).
  { intros j k Hj. by apply (asks_caller j i k c c'). }
  assert (Hpc : c_pc c = CPost \/ c_pc c = CWait) by (unfold waiting in Hwt; destruct (c_pc c); auto; done).
  split; try done.
  - intros k. pose proof (jobs_worker k v (WAnswer q r (i :: l)) (WAnswer q r l) (set_caller i c' w) Hv) as E.
    pose proof (jobs_caller k i c c' w Hi) as E'. change (callerJob k c') with (callerJob k c) in E'.
    cbn [workerJob] in E. change (pending (set_worker v (WAnswer q r l) (set_caller i c' w))) with (pending w). rewrite <- (H2 k). lia.
  - intros k lk Hl. eapply Forall_impl; [exact (H3 k lk Hl) |]. intros j Hj. by apply Hasks.
  - intros j d Hj. pose proof (owed_worker j (cacheKey (c_question d)) v (WAnswer q r (i :: l)) (WAnswer q r l)
      (set_caller i c' w) Hv) as E. cbn [waitersOf] in E.
    change (owed j (cacheKey (c_question d)) (set_caller i c' w)) with (owed j (cacheKey (c_question d)) w) in E.
    change (times j (i :: l)) with (one (i = j) + times j l)%nat in E.
    cbn in Hj. apply list_lookup_insert_Some in Hj as [(<- & <- & _) | [Hne Hj]].
    + rewrite Hwt'. cbn [c_question c'] in *. rewrite Hc in *. unfold one in E. rewrite decide_True in E by done. lia.
    + rewrite <- (H4 j d Hj). unfold one in E. rewrite decide_False in E by done. lia.
  - intros j d. cbn. intros [(<- & <- & _) | [_ Hjd]]%list_lookup_insert_Some; [done | by apply (H5 j)].
  - intros u pcu. cbn. intros [(<- & <- & _) | [_ Hu]]%list_lookup_insert_Some.
    + split; [done |]. eapply Forall_impl; [exact Hf |]. intros j Hj. by apply Hasks.
    + apply (worker_ok_caller i c c' pcu w); try done. by apply (H6 u).
  - intros j d x. cbn. intros [(<- & <- & _) | [_ Hjd]]%list_lookup_insert_Some; [| by apply (H8 j)].
    cbn. intros [= <-]. by rewrite Hc.
Qed.

(** *** The expiry queue *)

Lemma push_in (x y : Z * bytes) (l : list (Z * bytes)) : y ∈ push x l <-> y = x \/ y ∈ l.
Proof.
  induction l as [| z l IH]; cbn [push]; [by rewrite list_elem_of_singleton, elem_of_nil; tauto |].
  destruct (fst x <=? fst z); rewrite !elem_of_cons; [done |]. rewrite IH. tauto.
Qed.

Lemma push_sorted (x : Z * bytes) (l : list (Z * bytes)) :
  StronglySorted (fun x y => fst x <= fst y) l -> StronglySorted (fun x y => fst x <= fst y) (push x l).
Proof.
  induction 1 as [| z l Hs IH Hz]; cbn [push]; [by repeat constructor |].
  destruct (Z.leb_spec (fst x) (fst z)).
  - constructor; [by constructor |]. constructor; [done |]. eapply Forall_impl; [exact Hz |]. cbn. lia.
  - constructor; [done |]. apply Forall_forall. intros y [-> | Hy]%push_in; [lia |].
    by apply (proj1 (Forall_forall _ _) Hz).
Qed.

Lemma purge_keeps (now : Z) (l : list (Z * bytes)) (c : gmap bytes (@CacheEntry A)) (k : bytes) (e : CacheEntry) :
  snd (purge now l c) !! k = Some e ->
  c !! k = Some e /\ ((expiry e, k) ∈ l -> (expiry e, k) ∈ fst (purge now l c)).
Proof.
  revert c. induction l as [| [t key] l IH]; intros c; cbn [purge]; [done |].
  destruct (Z.leb_spec t now) as [Ht | Ht]; [| done].
  intros [Hc Hin]%IH. destruct (c !! key) as [en |] eqn:Hk; [destruct (Z.leb_spec (expiry en) now) as [He | He] |].
  - apply lookup_delete_Some in Hc as [Hne Hc]. split; [done |]. intros [[= -> ->] | Hl]%elem_of_cons; [done | auto].
  - split; [done |]. intros [[= <- ->] | Hl]%elem_of_cons; [| auto]. simplify_eq. lia.
  - split; [done |]. intros [[= <- ->] | Hl]%elem_of_cons; [congruence | auto].
Qed.

Lemma purge_rest (now : Z) (l : list (Z * bytes)) (c : gmap bytes (@CacheEntry A)) :
  StronglySorted (fun x y => fst x <= fst y) l ->
  StronglySorted (fun x y => fst x <= fst y) (fst (purge now l c))
  /\ Forall (fun x => now < fst x) (fst (purge now l c)).
Proof.
  intros H. revert c. induction H as [| [t key] l Hs IH Hz]; intros c; cbn [purge]; [by split; constructor |].
  destruct (Z.leb_spec t now) as [Ht | Ht]; [apply IH |]. cbn [fst]. split; [by constructor |].
  constructor; [done |]. eapply Forall_impl; [exact Hz |]. cbn. lia.
Qed.

Lemma inv_put (q : Question) (l : list A) (now : Z) (w : World) :
  inv w -> l <> [] ->
  inv (add_found (q, l, now) (set_queue (push (now + ttl, cacheKey q) (expiryQueue w))
    (set_cache (<[cacheKey q := mkCacheEntry l (now + ttl)]> (cache w)) w))).
Proof.
  intros [H1 H2 H3 H4 H5 H6 H7 H9 H8] Hl. split; try done.
  - intros v pc Hv. by apply (worker_ok_more pc (q, l, now) w), (H6 v).
  - intros k e. cbn. intros [(<- & <-) | [Hne Hk]]%lookup_insert_Some.
    + exists now. split; [| split; [done | by apply push_in; left]]. split; [done |]. exists q. split; [by left | done].
    + destruct (H7 k e Hk) as (t & Ht & He & Hin). exists t.
      split; [by apply (looked_up_more k _ t (q, l, now) w) | split; [done |]]. by apply push_in; right.
  - by apply push_sorted.
  - intros i c r Hi Hr. by apply (known_more _ _ (q, l, now) w), (H8 i).
Qed.

Lemma inv_purge (now : Z) (w : World) :
  inv w -> inv (set_queue (fst (purge now (expiryQueue w) (cache w))) (set_cache (snd (purge now (expiryQueue w) (cache w))) w)).
Proof.
  intros [H1 H2 H3 H4 H5 H6 H7 H9 H8]. split; try done.
  - intros k e. cbn. intros [Hk Hin]%purge_keeps. destruct (H7 k e Hk) as (t & Ht & He & Hq). exists t. auto.
  - by apply purge_rest.
Qed.

(** *** Every step *)

Lemma lookupSection_inv (i : nat) (c : Caller) (now : Z) (w : World) :
  inv w -> callers w !! i = Some c -> c_pc c = CLock now -> inv (lookupSection i c now w).
Proof.
  intros H Hi Hc. unfold lookupSection. set (key := cacheKey (c_question c)).
  assert (Hmiss : inv (match pending w !! key with
    | Some l => goto i CWait c (set_pending (<[key := l ++ [i]]> (pending w)) w)
    | None => goto i CPost c (set_pending (<[key := [i]]> (pending w)) w) end)).
  { pose proof (inv_join i c (match pending w !! key with Some _ => CWait | None => CPost end) w H Hi
      (ex_intro _ now Hc) eq_refl) as Hj. fold key in Hj. by destruct (pending w !! key). }
  destruct (cache w !! key) as [e |] eqn:He; [| done]. destruct (now <? expiry e); [| done].
  apply (inv_set_caller i c); try done.
  - intros k. unfold callerJob. by rewrite Hc.
  - unfold waiting. by rewrite Hc.
  - cbn. auto.
  - cbn. intros r [= <-]. destruct (inv_cache _ H _ _ He) as (t & Ht & _). by exists t.
Qed.

(** A task is posted; a thread takes one. *)
Lemma inv_post (i : nat) (c : Caller) (w : World) :
  inv w -> callers w !! i = Some c -> c_pc c = CPost -> inv (goto i CWait c (post (c_question c) w)).
Proof.
  intros [H1 H2 H3 H4 H5 H6 H7 H9 H8] Hi Hc. set (c' := mkCaller (c_question c) CWait (c_promise c)).
  assert (Hi1 : callers (post (c_question c) w) !! i = Some c) by done.
  split; try done.
  - intros k. pose proof (jobs_caller k i c c' _ Hi1) as E. change (pending (goto i CWait c (post (c_question c) w))) with (pending w).
    change (goto i CWait c (post (c_question c) w)) with (set_caller i c' (post (c_question c) w)). rewrite <- (H2 k).
    unfold callerJob in E. rewrite Hc in E. cbn [c_pc c'] in E.
    assert (Ep : jobs k (post (c_question c) w) = (jobs k w + one (cacheKey (c_question c) = k))%nat).
    { unfold jobs, post. cbn [callers tasks_ workers set_tasks]. rewrite sum_list_with_app. cbn [sum_list_with]. lia. }
    lia.
  - intros k l Hl. eapply Forall_impl; [exact (H3 k l Hl) |]. intros j Hj. by apply (asks_caller j i k c c' (post (c_question c) w)).
  - intros j d. cbn. intros [(<- & <- & _) | [_ Hj]]%list_lookup_insert_Some; [| by apply (H4 j)].
    change (owed i (cacheKey (c_question c)) w = waiting c'). rewrite (H4 i c Hi). unfold waiting. by rewrite Hc.
  - intros j d. cbn. intros [(<- & <- & _) | [_ Hj]]%list_lookup_insert_Some; [cbn; auto | by apply (H5 j)].
  - intros v pc Hv. apply (worker_ok_caller i c c' pc (post (c_question c) w)); try done. by apply (H6 v).
  - intros j d r. cbn. intros [(<- & <- & _) | [_ Hj]]%list_lookup_insert_Some; [exact (H8 i c r Hi) | exact (H8 j d r Hj)].
Qed.

Lemma inv_idle (v : nat) (w : World) : inv w -> workers w !! v = Some WIdle -> inv (workerThread v w).
Proof.
  intros H Hv. unfold workerThread. destruct (stop_ w); [by apply (inv_set_worker v WIdle) |].
  destruct (tasks_ w) as [| q ts] eqn:Ht; [done |]. destruct H as [H1 H2 H3 H4 H5 H6 H7 H9 H8].
  assert (Hv1 : workers (set_tasks ts w) !! v = Some WIdle) by done. split; try done.
  - intros k. pose proof (jobs_worker k v WIdle (WLookup q) (set_tasks ts w) Hv1) as E. cbn [workerJob] in E.
    change (pending (set_worker v (WLookup q) (set_tasks ts w))) with (pending w). rewrite <- (H2 k).
    assert (E0 : jobs k w = (jobs k (set_tasks ts w) + one (cacheKey q = k))%nat).
    { unfold jobs. rewrite Ht. cbn [callers tasks_ workers set_tasks sum_list_with]. lia. }
    lia.
  - intros i c Hi. pose proof (owed_worker i (cacheKey (c_question c)) v WIdle (WLookup q) (set_tasks ts w) Hv1) as E.
    rewrite <- (H4 i c Hi). change (owed i (cacheKey (c_question c)) (set_tasks ts w)) with (owed i (cacheKey (c_question c)) w) in E.
    cbn [waitersOf] in E. lia.
  - intros u pc. cbn. intros [(<- & <- & _) | [_ Hu]]%list_lookup_insert_Some; [done | by apply (H6 u)].
Qed.

Lemma workerStep_inv (v : nat) (w : World) : inv w -> inv (workerStep ttl v w).
Proof.
  intros H. unfold workerStep. destruct (workers w !! v) as [pc |] eqn:Hv; [| done].
  pose proof (inv_workers _ H v pc Hv) as Hok.
  destruct pc as [| q | q l | q l now | q l now ws | q l now ws | q e | q r ws |]; try done.
  - by apply inv_idle.
  - by apply (inv_set_worker v (WFound q l)).
  - pose proof (inv_put q l now w H Hok) as Hput. set (w1 := add_found (q, l, now) _) in Hput.
    set (w2 := set_queue _ _).
    assert (Htake : takeWaiters (cacheKey q) w1
      = (fst (takeWaiters (cacheKey q) w2), add_found (q, l, now) (snd (takeWaiters (cacheKey q) w2)))).
    { unfold takeWaiters. change (pending w1) with (pending w2). by destruct (pending w2 !! cacheKey q). }
    pose proof (inv_take v q (WStore q l now) (WCount q l now (fst (takeWaiters (cacheKey q) w1))) w1 Hput Hv) as Hinv.
    rewrite Htake in Hinv. destruct (takeWaiters (cacheKey q) w2) as [ws w3]. cbn [fst snd] in Hinv.
    apply Hinv; try done. intros Hws. split; [| done]. split; [done |]. exists q. split; [by left | done].
  - apply (inv_set_worker v (WCount q l now ws) _ (set_count (u32 (writeCount w + 1)) w)); [by destruct H | done | | |];
      destruct (Z.land (writeCount w) 15 =? 0); try done.
    destruct Hok as [Hl Hws]. split; [by exists now | done].
  - pose proof (inv_purge now w H) as Hp. destruct (purge now (expiryQueue w) (cache w)) as [queue c]. cbn [fst snd] in Hp.
    apply (inv_set_worker v (WExpire q l now ws)); try done. destruct Hok as [Hl Hws]. split; [by exists now | done].
  - pose proof (inv_take v q (WFail q e) (WAnswer q (inl e) (fst (takeWaiters (cacheKey q) w))) w H Hv) as Hinv.
    destruct (takeWaiters (cacheKey q) w) as [ws w1]. cbn [fst snd] in Hinv. by apply Hinv.
  - destruct ws as [| i ws]; [by apply (inv_set_worker v (WAnswer q r [])) | by apply inv_fulfil].
Qed.

Context (gai_strerror : Z -> bytes).

Lemma lookupResult_some (error : Z) (res : list AddrInfo) (l : list A) :
  lookupResult gai_strerror error res = inr l -> l <> [].
Proof.
  unfold lookupResult. destruct res as [| x res]; [done |]. destruct (negb _); [done |].
  destruct (usable (x :: res)) as [| a l'] eqn:E; [done |]. by intros [= <-].
Qed.

Lemma lookupStep_inv (v : nat) (error : Z) (res : list AddrInfo) (w : World) :
  inv w -> inv (lookupStep gai_strerror v error res w).
Proof.
  intros H. unfold lookupStep. destruct (workers w !! v) as [[] |] eqn:Hv; try done.
  destruct (lookupResult gai_strerror error res) as [e | l] eqn:E; apply (inv_set_worker v (WLookup q)); try done.
  by apply (lookupResult_some error res).
Qed.

Lemma callerStep_inv (i : nat) (w : World) : inv w -> inv (callerStep i w).
Proof.
  intros H. unfold callerStep. destruct (callers w !! i) as [c |] eqn:Hi; [| done].
  destruct (c_pc c) as [| now | |] eqn:Hc; [| by apply lookupSection_inv | | done].
  - assert (Hp : c_promise c = None).
    { destruct (c_promise c) eqn:E; [| done]. destruct (inv_new _ H i c Hi) as [E' | E']; congruence. }
    apply (inv_set_caller i c); try done; unfold callerJob, waiting; rewrite ?Hc; cbn; try done; by rewrite Hp.
  - by apply inv_post.
Qed.

Lemma step_inv (l : Label) (w : World) : inv w -> inv (step gai_strerror ttl l w).
Proof.
  destruct l; cbn [step]; [by apply callerStep_inv | by apply workerStep_inv | by apply lookupStep_inv | |]; by intros [].
Qed.

Lemma run_inv (ls : list Label) (w : World) : inv w -> inv (run gai_strerror ttl ls w).
Proof. revert w. induction ls as [| l ls IH]; intros w H; [done |]. cbn [run foldl]. by apply IH, step_inv. Qed.

Lemma new_inv (qs : list Question) (threads : nat) (now : Z) : inv (newResolver qs threads now).
Proof.
  assert (Hz : forall f : WorkerPc -> nat, f WIdle = 0%nat -> sum_list_with f (replicate threads WIdle) = 0%nat).
  { intros f Hf. induction threads as [| n IH]; [done |]. cbn. by rewrite Hf, IH. }
  assert (Hc : forall i c, callers (newResolver (A := A) qs threads now) !! i = Some c -> c_pc c = CStart /\ c_promise c = None).
  { intros i c. cbn. intros Hi. change (map (fun q => mkCaller q CStart None) qs) with ((fun q => @mkCaller A q CStart None) <$> qs) in Hi.
    rewrite list_lookup_fmap in Hi. by destruct (qs !! i); simplify_eq/=. }
  assert (Hw : forall v pc, workers (newResolver (A := A) qs threads now) !! v = Some pc -> pc = WIdle).
  { intros v pc [-> _]%lookup_replicate. done. }
  split; try done.
  - intros k. cbn [pending newResolver]. rewrite lookup_empty. unfold jobs. cbn [callers tasks_ workers newResolver].
    rewrite Hz by done. cbn [sum_list_with]. rewrite !Nat.add_0_r. clear Hc Hw. induction qs as [| q qs IH]; [done | exact IH].
  - intros i c Hi. destruct (Hc i c Hi) as [E1 E2]. unfold owed, waiting. rewrite E1. cbn [pending workers newResolver].
    rewrite lookup_empty, Hz by done. done.
  - intros i c Hi. destruct (Hc i c Hi) as [E1 E2]. by rewrite E2.
  - intros v pc Hv%Hw. by subst pc.
  - by constructor.
  - intros i c r Hi. destruct (Hc i c Hi) as [E1 E2]. by rewrite E2.
Qed.
End invariant.

(** ** Answers *)

Section answers.
Context {A : Type} (gai_strerror : Z -> bytes) (ttl : Z).
Abbreviation World := (@World A).

Lemma sum_positive {X : Type} (f : X -> nat) (l : list X) :
  (0 < sum_list_with f l)%nat -> exists i x, l !! i = Some x /\ (0 < f x)%nat.
Proof.
  induction l as [| x l IH]; cbn [sum_list_with]; [lia |]. intros H. destruct (decide (0 < f x)%nat) as [Hx | Hx].
  - by exists 0%nat, x.
  - destruct IH as (i & y & Hi & Hy); [lia |]. by exists (S i), y.
Qed.

Lemma times_positive (i : nat) (l : list nat) : (0 < times i l)%nat -> i ∈ l.
Proof.
  intros (k & j & Hk & Hj)%sum_positive. unfold one in Hj. destruct (decide (j = i)) as [-> |]; [| lia].
  by eapply list_elem_of_lookup_2.
Qed.

Definition answer (i : nat) (w : World) : option (@Answer A) := match callers w !! i with Some c => c_promise c | None => None end.

(** Worker [v], left alone, sets the promise of [i] to [r]. *)
Definition will_answer (v i : nat) (r : @Answer A) (w : World) : Prop :=
  exists n, answer i (run gai_strerror ttl (replicate n (WorkerTurn v)) w) = Some r.

Lemma will_answer_step (v i : nat) (r : @Answer A) (w : World) :
  will_answer v i r (workerStep ttl v w) -> will_answer v i r w.
Proof. intros [n Hn]. by exists (S n). Qed.

Lemma worker_set (v : nat) (pc pc' : @WorkerPc A) (w w' : World) :
  workers w !! v = Some pc -> workers w' = workers w -> workers (set_worker v pc' w') !! v = Some pc'.
Proof. intros Hv Hw. cbn. rewrite Hw, list_lookup_insert_eq; [done |]. by eapply lookup_lt_Some. Qed.

Lemma fulfil_parts (j : nat) (r : @Answer A) (w : World) :
  workers (fulfil j r w) = workers w /\ pending (fulfil j r w) = pending w.
Proof. unfold fulfil. destruct (callers w !! j) as [c |]; [| done]. by destruct (c_promise c). Qed.

Lemma will_answer_answer (v i : nat) (q : Question) (r : @Answer A) (ws : list nat) (w : World) :
  inv ttl w -> workers w !! v = Some (WAnswer q r ws) -> i ∈ ws -> will_answer v i r w.
Proof.
  revert w. induction ws as [| j ws IH]; intros w H Hv Hin; [by apply elem_of_nil in Hin |].
  apply will_answer_step. pose proof (inv_fulfil ttl v q r j ws w H Hv) as H'.
  assert (Hs : workerStep ttl v w = set_worker v (WAnswer q r ws) (fulfil j r w)) by (unfold workerStep; by rewrite Hv).
  rewrite Hs. apply elem_of_cons in Hin as [-> | Hin].
  - exists 0%nat. cbn [replicate run foldl]. pose proof (inv_threw _ _ H') as Ht. change (threw (fulfil j r w) = false) in Ht.
    destruct (inv_workers _ _ H v _ Hv) as [_ Hf]. apply Forall_cons in Hf as [(c & Hj & _) _].
    unfold answer, fulfil in *. rewrite Hj in *. destruct (c_promise c); [done |]. cbn.
    by rewrite list_lookup_insert_eq by (by eapply lookup_lt_Some).
  - apply IH; [done | | done]. eapply worker_set; [done | apply fulfil_parts].
Qed.

Lemma will_answer_count (v i : nat) (q : Question) (l : list A) (now : Z) (ws : list nat) (w : World) :
  inv ttl w -> workers w !! v = Some (WCount q l now ws) \/ workers w !! v = Some (WExpire q l now ws) ->
  i ∈ ws -> will_answer v i (inr l) w.
Proof.
  intros H Hv Hin.
  assert (Hexp : forall w, inv ttl w -> workers w !! v = Some (WExpire q l now ws) -> will_answer v i (inr l) w).
  { intros w1 H1 Hv1. apply will_answer_step. apply (will_answer_answer v i q (inr l) ws); [by apply workerStep_inv | | done].
    unfold workerStep. rewrite Hv1. destruct (purge now (expiryQueue w1) (cache w1)). by eapply worker_set. }
  destruct Hv as [Hv | Hv]; [| by apply Hexp]. apply will_answer_step. pose proof (workerStep_inv ttl v w H) as H'.
  unfold workerStep in *. rewrite Hv in *. destruct (Z.land (writeCount w) 15 =? 0).
  - apply Hexp; [done | by eapply worker_set].
  - apply (will_answer_answer v i q (inr l) ws); [done | by eapply worker_set | done].
Qed.

Lemma will_answer_job (v i : nat) (q : Question) (pc : @WorkerPc A) (r : @Answer A) (ws : list nat) (w : World) :
  inv ttl w -> workers w !! v = Some pc ->
  match r with inl e => pc = WFail q e | inr l => pc = WFound q l \/ exists now, pc = WStore q l now end ->
  pending w !! cacheKey q = Some ws -> i ∈ ws -> will_answer v i r w.
Proof.
  intros H Hv Hpc Hk Hin. pose proof (workerStep_inv ttl v w H) as H'. destruct r as [e | l].
  - subst pc. apply will_answer_step. unfold workerStep, takeWaiters in *. rewrite Hv in *. rewrite Hk in *.
    apply (will_answer_answer v i q (inl e) ws); [done | by eapply worker_set | done].
  - assert (Hst : forall w now, inv ttl w -> workers w !! v = Some (WStore q l now) -> pending w !! cacheKey q = Some ws ->
      will_answer v i (inr l) w).
    { intros w1 now H1 Hv1 Hk1. apply will_answer_step. pose proof (workerStep_inv ttl v w1 H1) as H2.
      unfold workerStep, takeWaiters in *. rewrite Hv1 in *. cbn [pending set_queue set_cache] in *. rewrite Hk1 in *.
      apply (will_answer_count v i q l now ws); [done | left; by eapply worker_set | done]. }
    destruct Hpc as [-> | [now ->]]; [| by apply (Hst w now)].
    apply will_answer_step. unfold workerStep in *. rewrite Hv in *. apply (Hst _ (clock w)); [done | by eapply worker_set | done].
Qed.
End answers.

(** ** Properties *)

Section properties.
Context {A : Type} (gai_strerror : Z -> bytes) (ttl : Z).
Abbreviation World := (@World A).

(** Someone resolves [key] or has the answer of [i]: a coroutine about to post
    the task, the pool's queue, a thread in [getaddrinfo], which answers [i] with
    whatever that gives, or a thread that has the answer. *)
Definition attended (i : nat) (key : bytes) (w : World) : Prop :=
  (exists j c, callers w !! j = Some c /\ c_pc c = CPost /\ cacheKey (c_question c) = key)
  \/ (exists q, q ∈ tasks_ w /\ cacheKey q = key)
  \/ (exists v q, workers w !! v = Some (WLookup q) /\ cacheKey q = key
      /\ forall error res, will_answer gai_strerror ttl v i (lookupResult gai_strerror error res)
           (lookupStep gai_strerror v error res w))
  \/ (exists v r, will_answer gai_strerror ttl v i r w).

Lemma pending_attended (i : nat) (key : bytes) (l : list nat) (w : World) :
  inv ttl w -> pending w !! key = Some l -> i ∈ l -> attended i key w.
Proof.
  intros H Hk Hin. pose proof (inv_jobs _ _ H key) as Hj. rewrite Hk in Hj. unfold jobs in Hj.
  destruct (decide (0 < sum_list_with (callerJob key) (callers w))%nat) as [Hc | Hc].
  { left. apply sum_positive in Hc as (j & c & Hj' & Hc). exists j, c. unfold callerJob, one in Hc.
    destruct (c_pc c); try lia. by destruct (decide _); [| lia]. }
  destruct (decide (0 < sum_list_with (fun q => one (cacheKey q = key)) (tasks_ w))%nat) as [Ht | Ht].
  { right. left. apply sum_positive in Ht as (j & q & Hq & Ht). exists q. unfold one in Ht.
    destruct (decide _); [| lia]. split; [by eapply list_elem_of_lookup_2 | done]. }
  right. right. assert (Hw : (0 < sum_list_with (workerJob key) (workers w))%nat) by lia.
  apply sum_positive in Hw as (v & pc & Hv & Hw).
  destruct pc as [| q | q l' | q l' now | | | q e | |]; cbn [workerJob] in Hw; try lia;
    unfold one in Hw; (destruct (decide _) as [He |]; [| lia]); rewrite <- He in Hk.
  - left. exists v, q. split; [done |]. split; [done |]. intros error res.
    pose proof (lookupStep_inv ttl gai_strerror v error res w H) as H'. unfold lookupStep in *. rewrite Hv in *.
    apply (will_answer_job gai_strerror ttl v i q (match lookupResult gai_strerror error res with inl e => WFail q e | inr l => WFound q l end) _ l);
      [done | by eapply worker_set | destruct (lookupResult gai_strerror error res); auto | done | done].
  - right. exists v, (inr l'). by apply (will_answer_job gai_strerror ttl v i q _ (inr l') l w H Hv (or_introl eq_refl) Hk).
  - right. exists v, (inr l').
    by apply (will_answer_job gai_strerror ttl v i q _ (inr l') l w H Hv (or_intror (ex_intro _ now eq_refl)) Hk).
  - right. exists v, (inl e). by apply (will_answer_job gai_strerror ttl v i q _ (inl e) l w H Hv eq_refl Hk).
Qed.

Lemma waiting_attended (i : nat) (c : Caller) (w : World) :
  inv ttl w -> callers w !! i = Some c -> waiting c = 1%nat -> attended i (cacheKey (c_question c)) w.
Proof.
  intros H Hi Hw. pose proof (inv_owed _ _ H i c Hi) as Ho. rewrite Hw in Ho. unfold owed in Ho.
  destruct (decide (0 < times i (default [] (pending w !! cacheKey (c_question c))))%nat) as [Hp | Hp].
  - apply times_positive in Hp. destruct (pending w !! cacheKey (c_question c)) as [l |] eqn:Hk; [| by apply elem_of_nil in Hp].
    by apply (pending_attended i _ l).
  - assert (Hs : (0 < sum_list_with (fun pc => times i (waitersOf pc)) (workers w))%nat) by lia.
    apply sum_positive in Hs as (v & pc & Hv & Hs). apply times_positive in Hs. right. right. right.
    destruct pc as [| | | | q l now ws | q l now ws | | q r ws |]; cbn [waitersOf] in Hs; try by apply elem_of_nil in Hs.
    + exists v, (inr l). by apply (will_answer_count gai_strerror ttl v i q l now ws w H (or_introl Hv)).
    + exists v, (inr l). by apply (will_answer_count gai_strerror ttl v i q l now ws w H (or_intror Hv)).
    + exists v, r. by apply (will_answer_answer gai_strerror ttl v i q r ws).
Qed.

(** C26: However coroutines, threads of the pool, lookups and time interleave, every
    name is resolved by one task at a time, no promise is set twice, a coroutine
    that waits is attended to, and addresses that are returned are those a lookup
    of its key gave, and never an empty list. *)
Theorem dns_resolves (qs : list Question) (threads : nat) (now : Z) (ls : list Label) :
  let w : World := run gai_strerror ttl ls (newResolver qs threads now) in
  threw w = false
  /\ (forall k, jobs k w = match pending w !! k with Some _ => 1%nat | None => 0%nat end)
  /\ (forall i c, callers w !! i = Some c -> c_pc c = CPost \/ c_pc c = CWait ->
        is_Some (c_promise c) \/ attended i (cacheKey (c_question c)) w)
  /\ (forall i l, answer i w = Some (inr l) -> l <> []
        /\ exists c q t, callers w !! i = Some c /\ (q, l, t) ∈ found w /\ cacheKey q = cacheKey (c_question c)).
Proof.
  intros w. assert (H : inv ttl w) by apply run_inv, new_inv.
  split; [apply (inv_threw _ _ H) |]. split; [apply (inv_jobs _ _ H) |]. split.
  - intros i c Hi Hpc. destruct (c_promise c) as [r |] eqn:Hp; [by left; eexists | right].
    apply waiting_attended; [done.. |]. unfold waiting. rewrite Hp. by destruct Hpc as [-> | ->].
  - unfold answer. intros i l Ha. destruct (callers w !! i) as [c |] eqn:Hi; [| done].
    destruct (inv_promise _ _ H i c _ Hi Ha) as (t & Hl & q & Hq & Hk). split; [done |]. by exists c, q, t.
Qed.

(** What is answered from the cache was stored less than [ttl] ago, and once old
    entries are expired none is left that is. *)
Theorem dns_cache_fresh (qs : list Question) (threads : nat) (now : Z) (ls : list Label) :
  let w : World := run gai_strerror ttl ls (newResolver qs threads now) in
  (forall i c t l, callers w !! i = Some c -> c_pc c = CLock t -> answer i (callerStep i w) = Some (inr l) ->
     exists s, looked_up (cacheKey (c_question c)) l s w /\ t < s + ttl)
  /\ (forall v q l t ws, workers w !! v = Some (WExpire q l t ws) ->
        forall k e, cache (workerStep ttl v w) !! k = Some e -> cache w !! k = Some e /\ t < expiry e).
Proof.
  intros w. assert (H : inv ttl w) by apply run_inv, new_inv. split.
  - intros i c t l Hi Hc. pose proof (lookup_lt_Some _ _ _ Hi) as Hlt.
    assert (Hp : c_promise c = None).
    { destruct (c_promise c) eqn:E; [| done]. destruct (inv_new _ _ H i c Hi) as [E' | E']; congruence. }
    unfold callerStep, lookupSection. rewrite Hi, Hc. set (key := cacheKey (c_question c)).
    assert (Hgo : forall pc (w' : World), callers w' = callers w -> answer i (goto i pc c w') = None).
    { intros pc w' Hw'. unfold answer, goto. cbn. by rewrite Hw', list_lookup_insert_eq. }
    destruct (cache w !! key) as [e |] eqn:He.
    + destruct (Z.ltb_spec t (expiry e)) as [Ht | Ht]; [| destruct (pending w !! key); by rewrite Hgo].
      unfold answer. cbn. rewrite list_lookup_insert_eq by done. intros [= <-].
      destruct (inv_cache _ _ H _ _ He) as (s & Hs & Hx & _). exists s. split; [done | lia].
    + destruct (pending w !! key); by rewrite Hgo.
  - intros v q l t ws Hv k e. unfold workerStep. rewrite Hv.
    pose proof (purge_keeps t (expiryQueue w) (cache w) k e) as Hk.
    pose proof (proj2 (purge_rest t (expiryQueue w) (cache w) (inv_sorted _ _ H))) as Hr.
    destruct (purge t (expiryQueue w) (cache w)) as [queue c]. cbn [fst snd] in Hk, Hr. cbn.
    intros [Hc Hin]%Hk. split; [done |]. destruct (inv_cache _ _ H _ _ Hc) as (s & _ & _ & Hq).
    by apply (proj1 (Forall_forall _ _) Hr _ (Hin Hq)).
Qed.
End properties.

(** ** Two coroutines ask for one name, a third finds it in the cache *)

#[local] Definition dns_name : Question := mkQuestion (str "example.org") [] 0.
#[local] Definition dns_questions : list Question := [dns_name; dns_name; dns_name].
#[local] Definition dns_err (e : Z) : bytes := str "error".
#[local] Definition dns_asked : list (@Label Z) := [CallerTurn 0; CallerTurn 1; CallerTurn 0; CallerTurn 1; CallerTurn 0; WorkerTurn 0].
#[local] Definition dns_answered : list (@Label Z) :=
  dns_asked ++ [Lookup 0 0 [(AF_INET, Some 7); (1, Some 9); (AF_INET6, Some 8)]; WorkerTurn 0; WorkerTurn 0; WorkerTurn 0;
    WorkerTurn 0; WorkerTurn 0; WorkerTurn 0; Tick 299; CallerTurn 2; CallerTurn 2].

Example dns_sample :
  map (fun i => answer i (run dns_err 300 dns_answered (newResolver dns_questions 1 1000))) (seq 0 3)
  = [Some (inr [7; 8]); Some (inr [7; 8]); Some (inr [7; 8])].
Proof. reflexivity. Qed.

Lemma dns_resolves_witness :
  attended dns_err 300 1 (cacheKey dns_name) (run dns_err 300 dns_asked (newResolver dns_questions 1 1000)) /\ threw (run dns_err 300 dns_asked (newResolver dns_questions 1 1000)) = false.
Proof.
  destruct (dns_resolves dns_err 300 dns_questions 1 1000 dns_asked) as (Ht & _ & Hw & _). split; [| exact Ht].
  destruct (Hw 1%nat (mkCaller dns_name CWait None) eq_refl (or_intror eq_refl)) as [[x Hx] | Ha]; [discriminate Hx | exact Ha].
Defined.

(** An error is always reported as "no result": a list of addresses comes only
    with success. *)
Example dns_error_text (e : Z) : lookupResult (A := Z) dns_err e [] = inl (mkDnsException (str "no result") e).
Proof. reflexivity. Qed.

(** Two questions with one key. *)
Example dns_keys_collide :
  cacheKey (mkQuestion (str "a|b") (str "c") 0) = cacheKey (mkQuestion (str "a") (str "b|c") 0).
Proof. reflexivity. Qed.
