(* ===== verification/TlsStream.v ===== *)
(** TLS streams: src/extensions/tls/src/TlsStream.cc, against the interface of
    TlsProvider.h.

    A provider turns octets of the network into plaintext and back.  The class
    [TlsSession] states what two providers promise each other once their
    handshake is over; the theorem is about two streams that talk over a TCP
    connection, whose coroutines interleave.  [OpenSSLProvider] discharges the
    class.

    A write to the connection is what it is in TcpConnection.cc: the kernel takes
    what it takes, the coroutine waits, and others run, before it is through; it
    may also fail.  Nothing in the source keeps a reader that has records of its
    own to send from writing between the halves of a writer's; the theorem is about
    runs in which no two coroutines of an end are in a write to the connection at
    the same time, and [tls_records_mix] shows one in which two are. *)

From Stdlib Require Import ZArith Lia String Strings.Byte.
From stdpp Require Import base numbers option list.
From S2P Require Import Prelude CxxStd.
Open Scope Z_scope.

(** ** The interface *)

Inductive FeedResult : Type := FOk | HandshakeDone | FEof | FError.

(** What is appended to [plainOut] and [encOut] is a result. *)
Class TlsProvider (P : Type) := {
  startHandshake : P -> bytes * P;
  feedEncrypted : bytes -> P -> FeedResult * bytes * bytes * P;
  sendPlain : bytes -> P -> Z * bytes * P;
  closeProvider : P -> bytes * P;
  lastError : P -> bytes
}.

(** [session p q c d e c' d' e']: on the way from [p] to [q] are the octets [c],
    which carry the plaintext [d], and [e] tells whether [p] has closed its side;
    [c'], [d'] and [e'] are the other way. *)
Class TlsSession (P : Type) `{!TlsProvider P} := {
  session : P -> P -> bytes -> bytes -> bool -> bytes -> bytes -> bool -> Prop;
  session_sym p q c d e c' d' e' : session p q c d e c' d' e' -> session q p c' d' e' c d e;
  session_empty p q c d e d' e' : session p q c d e [] d' e' -> d' = [];
  session_send p q c d c' d' e' x :
    session p q c d false c' d' e' -> x <> [] -> size x < 2 ^ 31 ->
    let '(n, enc, p') := sendPlain x p in
    0 < n <= size x /\ session p' q (c ++ enc) (d ++ take (Z.to_nat n) x) false c' d' e';
  session_feed p q c d e c1 c2 d' e' :
    session p q c d e (c1 ++ c2) d' e' -> c1 <> [] ->
    let '(r, plain, enc, p') := feedEncrypted c1 p in
    exists d2, d' = plain ++ d2 /\ session p' q (c ++ enc) d e c2 d2 e'
    /\ (r = FOk \/ (r = FEof /\ e' = true /\ d2 = [])) /\ (e = true -> enc = []);
  session_close p q c d c' d' e' :
    session p q c d false c' d' e' ->
    let '(enc, p') := closeProvider p in session p' q (c ++ enc) d true c' d' e'
}.

Section stream.
Context {P : Type} `{!TlsProvider P}.

(** ** The stream *)

Record TlsStream : Type := mkStream {
  provider_ : P;
  plainBuf_ : bytes;
  encryptedOutBuf_ : bytes;
  eof_ : bool
}.

Definition newStream (p : P) : TlsStream := mkStream p [] [] false.

Definition set_out (o : bytes) (s : TlsStream) : TlsStream := mkStream (provider_ s) (plainBuf_ s) o (eof_ s).
Definition set_plain (b : bytes) (s : TlsStream) : TlsStream := mkStream (provider_ s) b (encryptedOutBuf_ s) (eof_ s).
Definition set_eof (s : TlsStream) : TlsStream := mkStream (provider_ s) (plainBuf_ s) (encryptedOutBuf_ s) true.

(** What goes to [conn_->write]; without anything to send all is well. *)
Definition flushEncrypted (s : TlsStream) : option bytes * TlsStream :=
  match encryptedOutBuf_ s with
  | [] => (None, s)
  | toSend => (Some toSend, set_out [] s)
  end.

(** [feedOnce] up to the write to the connection; [raw] is what [conn_->read]
    returned. *)
Definition feedBegin (raw : bytes) (s : TlsStream) : FeedResult * option bytes * TlsStream :=
  match raw with
  | [] => (FEof, None, set_eof s)
  | _ =>
      let '(result, plain, enc, p) := feedEncrypted raw (provider_ s) in
      let '(o, s) := flushEncrypted (mkStream p (plainBuf_ s ++ plain) (encryptedOutBuf_ s ++ enc) (eof_ s)) in
      (result, o, s)
  end.

(** And from there on; [ok]: what [flushEncrypted] returned. *)
Definition feedEnd (result : FeedResult) (ok : bool) (s : TlsStream) : FeedResult * TlsStream :=
  if negb ok then (FEof, set_eof s)
  else (result, match result with FEof => set_eof s | _ => s end).

(** *** [accept] and [connect], which are one text *)

(** While a handshake is on there is one coroutine; [wrote] tells whether
    [conn_->write] returned more than zero. *)
Definition feedOnce (raw : bytes) (wrote : bool) (s : TlsStream) : FeedResult * bytes * TlsStream :=
  let '(result, o, s) := feedBegin raw s in
  let '(result, s) := feedEnd result (match o with Some _ => wrote | None => true end) s in
  (result, default [] o, s).

Definition beginHandshake (p : P) : bytes * TlsStream :=
  let '(enc, p) := startHandshake p in
  let '(o, s) := flushEncrypted (set_out enc (newStream p)) in (default [] o, s).

Inductive Handshake : Type :=
| HGoesOn (s : TlsStream)
| HDone (s : TlsStream)
| HThrew (what : bytes).

(** A round of the loop, and what it sends. *)
Definition handshakeTurn (raw : bytes) (wrote : bool) (s : TlsStream) : bytes * Handshake :=
  let '(result, out, s) := feedOnce raw wrote s in
  (out,
   match result with
   | HandshakeDone => HDone s
   | FError => HThrew (lastError (provider_ s))
   | FEof => HThrew (str "Connection closed during TLS handshake")
   | FOk => HGoesOn s
   end).

(** The loop on the reads of the connection. *)
Fixpoint handshakeLoop (raws : list (bytes * bool)) (s : TlsStream) : bytes * Handshake :=
  match raws with
  | [] => ([], HGoesOn s)
  | (raw, wrote) :: raws' =>
      let '(out, h) := handshakeTurn raw wrote s in
      match h with
      | HGoesOn s => let '(out', h) := handshakeLoop raws' s in (out ++ out', h)
      | _ => (out, h)
      end
  end.

(** *** [read] *)

(** A coroutine in [read]: not in it; asks for so much; in [conn_->write] with so
    much left, after [feedEncrypted] gave [result]; threw. *)
Inductive ReaderPc : Type :=
| RIdle
| RLoop (len : nat)
| RFlush (len : nat) (result : FeedResult) (rest : bytes)
| RThrew (what : bytes).

Definition wantsMore (s : TlsStream) : bool := bool_decide (plainBuf_ s = []) && negb (eof_ s).

(** The end of a round. *)
Definition readAfter (len : nat) (result : FeedResult) (ok : bool) (s : TlsStream) : ReaderPc * TlsStream :=
  let '(result, s) := feedEnd result ok s in
  (match result with FError => RThrew (lastError (provider_ s)) | _ => RLoop len end, s).

(** A round of the loop with what [conn_->read] gave, up to the write to the
    connection. *)
Definition readRound (len : nat) (raw : bytes) (s : TlsStream) : ReaderPc * TlsStream :=
  let '(result, o, s) := feedBegin raw s in
  match o with
  | Some toSend => (RFlush len result toSend, s)
  | None => readAfter len result true s
  end.

(** The end: what is copied, and the stream without it. *)
Definition readEnd (len : nat) (s : TlsStream) : bytes * TlsStream :=
  let copy := Nat.min len (length (plainBuf_ s)) in
  (take copy (plainBuf_ s), set_plain (drop copy (plainBuf_ s)) s).

(** *** [write], under its mutex *)

(** In [conn_->write] the provider has taken [n] octets of the data behind the
    first [sent]. *)
Inductive WriterPc : Type :=
| WIdle (sent : nat)
| WLoop (data : bytes) (sent : nat)
| WFlush (data : bytes) (sent n : nat) (rest : bytes)
| WThrew (what : bytes).

Definition writeCall (data : bytes) : WriterPc := match data with [] => WIdle 0 | _ => WLoop data 0 end.

(** The end of a round: zero from [conn_->write] means that the peer closed. *)
Definition writeAfter (data : bytes) (sent n : nat) (ok : bool) : WriterPc :=
  if negb ok then WIdle sent else WLoop data (sent + n).

Definition writeRound (data : bytes) (sent : nat) (s : TlsStream) : WriterPc * TlsStream :=
  if (sent <? length data)%nat then
    let '(n, enc, p) := sendPlain (drop sent data) (provider_ s) in
    let s := mkStream p (plainBuf_ s) (encryptedOutBuf_ s ++ enc) (eof_ s) in
    if n <? 0 then (WThrew (lastError p), s)
    else if n =? 0 then (WThrew (str "TLS write returned 0 unexpectedly"), s)
    else
      match flushEncrypted s with
      | (Some toSend, s) => (WFlush data sent (Z.to_nat n) toSend, s)
      | (None, s) => (writeAfter data sent (Z.to_nat n) true, s)
      end
  else (WIdle sent, s).

(** *** [shutdown] *)

(** In it, and [conn_->shutdown] is called when the write ends without an
    exception, whatever it returned. *)
Inductive StopperPc : Type := SIdle | SFlush (rest : bytes) | SDone | SThrew (what : bytes).

Definition shutdown (s : TlsStream) : StopperPc * TlsStream :=
  let '(enc, p) := closeProvider (provider_ s) in
  match flushEncrypted (mkStream p (plainBuf_ s) (encryptedOutBuf_ s ++ enc) (eof_ s)) with
  | (Some toSend, s) => (SFlush toSend, s)
  | (None, s) => (SDone, s)
  end.

(** ** Two streams on a connection *)

(** An end: its stream and coroutines; for the theorem what its reads returned,
    and what its writes gave to the provider; whether its connection has failed,
    and what was not sent for that. *)
Record End : Type := mkEnd {
  strm : TlsStream;
  reader : ReaderPc;
  writer : WriterPc;
  stopper : StopperPc;
  got : bytes;
  given : bytes;
  failed : bool;
  lost : bytes
}.

Definition set_reader (s : TlsStream) (pc : ReaderPc) (e : End) : End :=
  mkEnd s pc (writer e) (stopper e) (got e) (given e) (failed e) (lost e).
Definition set_writer (s : TlsStream) (pc : WriterPc) (e : End) : End :=
  mkEnd s (reader e) pc (stopper e) (got e) (given e) (failed e) (lost e).
Definition set_stopper (s : TlsStream) (pc : StopperPc) (e : End) : End :=
  mkEnd s (reader e) (writer e) pc (got e) (given e) (failed e) (lost e).
Definition add_got (d : bytes) (e : End) : End :=
  mkEnd (strm e) (reader e) (writer e) (stopper e) (got e ++ d) (given e) (failed e) (lost e).
Definition add_given (d : bytes) (e : End) : End :=
  mkEnd (strm e) (reader e) (writer e) (stopper e) (got e) (given e ++ d) (failed e) (lost e).
Definition add_lost (d : bytes) (e : End) : End :=
  mkEnd (strm e) (reader e) (writer e) (stopper e) (got e) (given e) true (lost e ++ d).

(** The stream was told to close, and the connection was. *)
Definition closed (e : End) : bool := match stopper e with SIdle => false | _ => true end.
Definition finished (e : End) : bool := match stopper e with SDone => true | _ => false end.

(** No write is under way. *)
Definition quiet (pc : WriterPc) : bool := match pc with WIdle _ | WThrew _ => true | _ => false end.

Inductive Who : Type := Reader | Writer | Stopper.

(** What a coroutine has left in [conn_->write]. *)
Definition sendingOf (who : Who) (e : End) : option bytes :=
  match who with
  | Reader => match reader e with RFlush _ _ rest => Some rest | _ => None end
  | Writer => match writer e with WFlush _ _ _ rest => Some rest | _ => None end
  | Stopper => match stopper e with SFlush rest => Some rest | _ => None end
  end.

Definition set_rest (who : Who) (rest : bytes) (e : End) : End :=
  match who with
  | Reader => match reader e with RFlush len r _ => set_reader (strm e) (RFlush len r rest) e | _ => e end
  | Writer => match writer e with WFlush d m n _ => set_writer (strm e) (WFlush d m n rest) e | _ => e end
  | Stopper => set_stopper (strm e) (SFlush rest) e
  end.

(** [conn_->write] returns, more than zero or not. *)
Definition flushed (who : Who) (ok : bool) (e : End) : End :=
  match who with
  | Reader =>
      match reader e with
      | RFlush len r _ => let '(pc, s) := readAfter len r ok (strm e) in set_reader s pc e
      | _ => e
      end
  | Writer =>
      match writer e with
      | WFlush data sent n _ => set_writer (strm e) (writeAfter data sent n ok) e
      | _ => e
      end
  | Stopper => set_stopper (strm e) SDone e
  end.

(** It throws. *)
Definition threw (who : Who) (what : bytes) (e : End) : End :=
  match who with
  | Reader => set_reader (strm e) (RThrew what) e
  | Writer => set_writer (strm e) (WThrew what) e
  | Stopper => set_stopper (strm e) (SThrew what) e
  end.

(** [out]: the octets on the way from the end [here] to [there]. *)
Record World : Type := mkWorld { here : End; out : bytes; there : End; inn : bytes }.

Definition swap (w : World) : World := mkWorld (there w) (inn w) (here w) (out w).

Definition newEnd (p : P) : End := mkEnd (newStream p) RIdle (WIdle 0) SIdle [] [] false [].
Definition start (p q : P) : World := mkWorld (newEnd p) [] (newEnd q) [].

(** What the coroutines of the end [here] do between two suspensions.  [ReadTurn
    k]: [conn_->read] gives [k] octets of those that came, one at least and 16384 at
    most; it stays suspended when there are none, and gives none when the other
    end has shut down.  [SendTurn who k]: the kernel takes [k] octets of a write,
    one at least; a coroutine that waits for the socket takes no turn.  [Fails]: the
    connection fails for a coroutine that is in [conn_->write], which returns zero
    or throws, or in [conn_->read], which throws; from then on it takes no octet
    more.  A write is begun when no other is under way, and the stream is shut down
    once, when none is. *)
Inductive Turn : Type :=
| ReadCall (len : nat)
| ReadTurn (k : Z)
| WriteCall (data : bytes)
| WriteTurn
| Shutdown
| SendTurn (who : Who) (k : nat)
| Fails (who : Who) (what : option bytes).

Definition set_here (e : End) (w : World) : World := mkWorld e (out w) (there w) (inn w).

Definition arrived (k : Z) (w : World) : bytes := take (Z.to_nat (Z.min (Z.max k 1) 16384)) (inn w).

Definition readTurn (k : Z) (w : World) : World :=
  let e := here w in
  match reader e with
  | RLoop len =>
      if wantsMore (strm e) then
        if bool_decide (inn w = []) && negb (finished (there w)) then w
        else
          let raw := arrived k w in
          let '(pc, s) := readRound len raw (strm e) in
          mkWorld (set_reader s pc e) (out w) (there w) (drop (length raw) (inn w))
      else
        let '(d, s) := readEnd len (strm e) in
        set_here (add_got d (set_reader s RIdle e)) w
  | _ => w
  end.

Definition writeTurn (w : World) : World :=
  let e := here w in
  match writer e with
  | WLoop data sent =>
      let '(pc, s) := writeRound data sent (strm e) in
      let n := match pc with WFlush _ _ n _ => n | WLoop _ m => (m - sent)%nat | _ => 0%nat end in
      set_here (add_given (take n (drop sent data)) (set_writer s pc e)) w
  | _ => w
  end.

Definition sendTurn (who : Who) (k : nat) (w : World) : World :=
  let e := here w in
  match sendingOf who e with
  | Some rest =>
      if failed e then w
      else
        let o := take (Nat.max k 1) rest in
        let e := match drop (Nat.max k 1) rest with [] => flushed who true e | rest' => set_rest who rest' e end in
        mkWorld e (out w ++ o) (there w) (inn w)
  | None => w
  end.

Definition failTurn (who : Who) (what : option bytes) (w : World) : World :=
  let e := here w in
  match sendingOf who e with
  | Some rest =>
      let e := add_lost rest e in
      set_here (match what with Some m => threw who m e | None => flushed who false e end) w
  | None =>
      match who, reader e, what with
      | Reader, RLoop _, Some m => if wantsMore (strm e) then set_here (threw Reader m (add_lost [] e)) w else w
      | _, _, _ => w
      end
  end.

Definition turn (t : Turn) (w : World) : World :=
  let e := here w in
  match t with
  | ReadCall len =>
      match reader e with
      | RIdle | RThrew _ => set_here (set_reader (strm e) (RLoop len) e) w
      | _ => w
      end
  | ReadTurn k => readTurn k w
  | WriteCall data =>
      if quiet (writer e) && negb (closed e) then set_here (set_writer (strm e) (writeCall data) e) w else w
  | WriteTurn => writeTurn w
  | Shutdown =>
      if quiet (writer e) && negb (closed e) then
        let '(pc, s) := shutdown (strm e) in set_here (set_stopper s pc e) w
      else w
  | SendTurn who k => sendTurn who k w
  | Fails who what => failTurn who what w
  end.

(** A turn of the one end, or of the other. *)
Definition step (t : bool * Turn) (w : World) : World :=
  if fst t then turn (snd t) w else swap (turn (snd t) (swap w)).

Definition run (ts : list (bool * Turn)) (w : World) : World := foldl (fun w t => step t w) w ts.

(** *** Coroutines in [conn_->write] *)

Definition sending (e : End) : bytes :=
  default [] (sendingOf Reader e) ++ default [] (sendingOf Writer e) ++ default [] (sendingOf Stopper e).

Definition inWrite (who : Who) (e : End) : bool := match sendingOf who e with Some _ => true | None => false end.

(** At most one coroutine of the end is in a write to the connection, and none
    when the connection was shut down. *)
Definition alone (e : End) : bool :=
  match inWrite Reader e, inWrite Writer e, inWrite Stopper e with
  | false, false, _ => true
  | true, false, false | false, true, false => negb (finished e)
  | _, _, _ => false
  end.

Fixpoint apart (ts : list (bool * Turn)) (w : World) : bool :=
  match ts with
  | [] => true
  | t :: ts' => alone (here (step t w)) && alone (there (step t w)) && apart ts' (step t w)
  end.
End stream.
Arguments TlsStream P : clear implicits.
Arguments End P : clear implicits.
Arguments World P : clear implicits.

(** ** The invariant *)

Section invariant.
Context {P : Type} `{!TlsProvider P, !TlsSession P}.
Implicit Types (w : World P) (e : End P).

(** What is on the way, or was when the connection failed. *)
Definition wire w : bytes := out w ++ lost (here w) ++ sending (here w).

(** What [src] has written is what [dst] returned, holds and will decrypt. *)
Definition half (src dst : End P) (d : bytes) : Prop :=
  given src = got dst ++ plainBuf_ (strm dst) ++ d
  /\ (eof_ (strm dst) = true -> failed dst = true \/ failed src = true \/ (closed src = true /\ d = []))
  /\ (forall len rest, reader dst = RFlush len FEof rest -> closed src = true /\ d = []).

Definition calm e : Prop :=
  encryptedOutBuf_ (strm e) = []
  /\ (forall m, reader e = RThrew m \/ writer e = WThrew m -> failed e = true)
  /\ (closed e = true -> quiet (writer e) = true)
  /\ (forall data n, writer e = WLoop data n -> (n <= length data)%nat /\ size data < 2 ^ 31)
  /\ (forall data m n rest, writer e = WFlush data m n rest -> (0 < n)%nat /\ (m + n <= length data)%nat /\ size data < 2 ^ 31)
  /\ (forall len r rest, reader e = RFlush len r rest -> r = FOk \/ r = FEof)
  /\ (failed e = false -> lost e = [])
  /\ alone e = true.

Definition inv w : Prop :=
  calm (here w) /\ calm (there w)
  /\ exists d d', session (provider_ (strm (here w))) (provider_ (strm (there w))) (wire w) d (closed (here w))
       (wire (swap w)) d' (closed (there w))
     /\ half (here w) (there w) d /\ half (there w) (here w) d'.

Lemma swap_swap w : swap (swap w) = w.
Proof. by destruct w. Qed.

Lemma inv_swap w : inv w -> inv (swap w).
Proof.
  intros (Hh & Ht & d & d' & Hs & H1 & H2). split; [done |]. split; [done |]. exists d', d.
  split; [| done]. rewrite swap_swap. by apply session_sym.
Qed.

Lemma new_calm (p : P) : calm (newEnd p).
Proof. split_and!; try done. by intros m [H | H]. Qed.

Lemma start_inv (p q : P) : session p q [] [] false [] [] false -> inv (start p q).
Proof.
  intros Hs. split; [apply new_calm |]. split; [apply new_calm |]. exists [], []. split; [done |]. by split_and!.
Qed.

(** *** One coroutine in a write *)

Lemma alone_sending who e rest : alone e = true -> sendingOf who e = Some rest -> sending e = rest.
Proof.
  unfold alone, inWrite, sending. destruct who; cbn [sendingOf]; intros Ha Hr; rewrite Hr in *.
  - destruct (writer e); try done; destruct (stopper e); try done; by rewrite app_nil_r.
  - destruct (reader e); try done; destruct (stopper e); try done; by rewrite app_nil_r.
  - destruct (reader e); try done; destruct (writer e); done.
Qed.

(** A coroutine that comes into a write sends behind all that is on the way. *)
Lemma sends_more who e e' rest :
  sendingOf who e = None -> sendingOf who e' = Some rest -> (forall who', who' <> who -> sendingOf who' e' = sendingOf who' e) ->
  alone e' = true -> sending e' = sending e ++ rest.
Proof.
  intros Hn Hs Hother Ha. rewrite (alone_sending _ _ _ Ha Hs). cut (sending e = []); [by intros -> |].
  unfold alone, inWrite in Ha. unfold sending.
  destruct who; rewrite Hn; rewrite Hs in Ha;
    [rewrite !(Hother Writer), !(Hother Stopper) in Ha by done | rewrite !(Hother Reader), !(Hother Stopper) in Ha by done
    | rewrite !(Hother Reader), !(Hother Writer) in Ha by done];
    by destruct (sendingOf Reader e), (sendingOf Writer e), (sendingOf Stopper e).
Qed.

(** *** Steps of an end that leave its provider alone *)

Lemma half_src src src' dst d :
  given src' = given src -> closed src' = closed src -> (failed src = true -> failed src' = true) ->
  half src dst d -> half src' dst d.
Proof.
  intros Hg Hc Hf (H1 & H2 & H3). split_and!; [congruence | | intros len rest H; rewrite Hc; by eapply H3].
  intros H. rewrite Hc. destruct (H2 H) as [? | [? | ?]]; auto.
Qed.

Lemma half_dst src dst dst' d :
  got dst' ++ plainBuf_ (strm dst') = got dst ++ plainBuf_ (strm dst) -> (failed dst = true -> failed dst' = true) ->
  (eof_ (strm dst') = true -> eof_ (strm dst) = true \/ failed dst' = true \/ exists len rest, reader dst = RFlush len FEof rest) ->
  (forall len rest, reader dst' = RFlush len FEof rest -> exists len rest, reader dst = RFlush len FEof rest) ->
  half src dst d -> half src dst' d.
Proof.
  intros Hg Hf He Hr (H1 & H2 & H3). split_and!.
  - by rewrite app_assoc, Hg, <- app_assoc.
  - intros H. destruct (He H) as [H' | [? | (len & rest & H')]]; [| by left | right; right; by eapply H3].
    destruct (H2 H') as [? | ?]; [left; auto | by right].
  - intros len rest H. destruct (Hr _ _ H) as (len' & rest' & H'). by eapply H3.
Qed.

Lemma inv_here w e' (o : bytes) :
  inv w -> calm e' -> provider_ (strm e') = provider_ (strm (here w)) -> closed e' = closed (here w) ->
  o ++ lost e' ++ sending e' = wire w -> given e' = given (here w) ->
  got e' ++ plainBuf_ (strm e') = got (here w) ++ plainBuf_ (strm (here w)) -> (failed (here w) = true -> failed e' = true) ->
  (eof_ (strm e') = true ->
    eof_ (strm (here w)) = true \/ failed e' = true \/ exists len rest, reader (here w) = RFlush len FEof rest) ->
  (forall len rest, reader e' = RFlush len FEof rest -> exists len rest, reader (here w) = RFlush len FEof rest) ->
  inv (mkWorld e' o (there w) (inn w)).
Proof.
  intros (_ & Ht & d & d' & Hs & H1 & H2) Hc Hp Hcl Hw Hg Hgot Hf He Hr. split; [done |]. split; [done |]. exists d, d'.
  unfold wire at 1. cbn [here out there inn]. rewrite Hp, Hcl, Hw. split; [exact Hs |].
  split; [by apply (half_src (here w)) | by apply (half_dst _ (here w))].
Qed.

(** *** Writes to the connection *)

Lemma alone_none e : inWrite Reader e = false -> inWrite Writer e = false -> alone e = true.
Proof. unfold alone. by intros -> ->. Qed.

Lemma calm_reader e (s : TlsStream P) pc :
  calm e -> encryptedOutBuf_ s = [] -> (forall m, pc = RThrew m -> failed e = true) ->
  (forall len r rest, pc = RFlush len r rest -> r = FOk \/ r = FEof) -> alone (set_reader s pc e) = true ->
  calm (set_reader s pc e).
Proof.
  intros (He & Hthrew & Hq & Hl & Hfl & Hr & Hlost & _) Hs Ht Hf Ha. split; [exact Hs |].
  split; [| by split_and!]. intros m [H | H]; [by eapply Ht | by apply (Hthrew m); right].
Qed.

Lemma calm_writer e (s : TlsStream P) pc :
  calm e -> encryptedOutBuf_ s = [] -> (forall m, pc = WThrew m -> failed e = true) -> closed e = false \/ quiet pc = true ->
  (forall data n, pc = WLoop data n -> (n <= length data)%nat /\ size data < 2 ^ 31) ->
  (forall data m n rest, pc = WFlush data m n rest -> (0 < n)%nat /\ (m + n <= length data)%nat /\ size data < 2 ^ 31) ->
  alone (set_writer s pc e) = true -> calm (set_writer s pc e).
Proof.
  intros (He & Hthrew & Hq & Hl & Hfl & Hr & Hlost & _) Hs Ht Hc Hn Hf Ha. split; [exact Hs |].
  split; [| split; [| by split_and!]].
  - intros m [H | H]; [by apply (Hthrew m); left | by eapply Ht].
  - intros E. destruct Hc as [Hc | Hc]; [| done]. change (closed e = true) in E. congruence.
Qed.

Lemma calm_stopper e (s : TlsStream P) pc :
  calm e -> encryptedOutBuf_ s = [] -> quiet (writer e) = true -> alone (set_stopper s pc e) = true -> calm (set_stopper s pc e).
Proof.
  intros (He & Hthrew & Hq & Hl & Hfl & Hr & Hlost & _) Hs Hw Ha. split; [exact Hs |].
  split; [exact Hthrew |]. split; [done | by split_and!].
Qed.

(** The coroutine whose write is over is in none. *)
Lemma alone_flushed who e e' :
  alone e = true -> inWrite who e = true -> sendingOf who e' = None ->
  (forall who', who' <> who -> sendingOf who' e' = sendingOf who' e) -> alone e' = true /\ sending e' = [].
Proof.
  intros Ha Hs Hn Hother. unfold alone, inWrite in *. unfold sending.
  destruct who; rewrite Hn; destruct (sendingOf Reader e) eqn:E1, (sendingOf Writer e) eqn:E2, (sendingOf Stopper e) eqn:E3; try done;
    rewrite ?(Hother Reader), ?(Hother Writer), ?(Hother Stopper), ?E1, ?E2, ?E3 by done; done.
Qed.

(** The end of a write, of which [sending] is what is left. *)
Lemma flushed_spec who (ok : bool) e rest :
  calm e -> sendingOf who e = Some rest ->
  let e' := flushed who ok e in
  calm e' /\ provider_ (strm e') = provider_ (strm e) /\ closed e' = closed e /\ sending e' = []
  /\ got e' ++ plainBuf_ (strm e') = got e ++ plainBuf_ (strm e)
  /\ (eof_ (strm e') = true -> eof_ (strm e) = true \/ ok = false \/ exists len rest, reader e = RFlush len FEof rest)
  /\ (forall len rest, reader e' = RFlush len FEof rest -> reader e = RFlush len FEof rest).
Proof.
  intros Hcalm Hs. pose proof Hcalm as (He & Hthrew & Hq & Hl & Hfl & Hr & Hlost & Ha). cbn zeta.
  pose proof (alone_flushed who e (flushed who ok e) Ha) as Hal. unfold inWrite in Hal. rewrite Hs in Hal.
  specialize (Hal eq_refl). destruct who; cbn [sendingOf flushed] in *.
  - destruct (reader e) as [| | len r rest' |] eqn:Er; try done. destruct (Hr _ _ _ eq_refl) as [Hr' | Hr'].
    all: unfold readAfter, feedEnd in *; destruct ok; subst r; cbn [negb] in *.
    all: destruct Hal as [Hal Hse]; [done | by intros [] |];
      split; [by apply calm_reader | split_and!; try done; cbn; eauto].
  - destruct (writer e) as [| | data m n rest' |] eqn:Ew; try done.
    destruct (Hfl _ _ _ _ eq_refl) as (Hpos & Hle & Hsize).
    assert (Hopen : closed e = false) by (destruct (closed e); [by specialize (Hq eq_refl) | done]).
    unfold writeAfter in *. destruct ok; cbn [negb] in *.
    all: destruct Hal as [Hal Hse]; [done | by intros [] |].
    all: split; [apply calm_writer; try done; try (by left); by intros ? ? [= <- <-] | split_and!; try done; cbn; auto].
  - destruct (stopper e) as [| rest' | |] eqn:Es; try done.
    assert (Hopen : closed e = true) by (unfold closed; by rewrite Es).
    destruct Hal as [Hal Hse]; [done | by intros [] |].
    split; [apply calm_stopper; auto | split_and!; try done; cbn; auto].
Qed.
Lemma calm_lost e (d : bytes) : calm e -> calm (add_lost d e).
Proof. intros (He & Hthrew & Hq & Hl & Hfl & Hr & Hlost & Ha). by split_and!. Qed.

(** A write that throws is over too. *)
Lemma threw_spec who (what : bytes) e rest :
  calm e -> sendingOf who e = Some rest -> failed e = true ->
  let e' := threw who what e in
  calm e' /\ closed e' = closed e /\ sending e' = [] /\ (forall len rest, reader e' = RFlush len FEof rest -> reader e = RFlush len FEof rest).
Proof.
  intros Hcalm Hs Hf. pose proof Hcalm as (He & Hthrew & Hq & Hl & Hfl & Hr & Hlost & Ha). cbn zeta.
  pose proof (alone_flushed who e (threw who what e) Ha) as Hal. unfold inWrite in Hal. rewrite Hs in Hal.
  specialize (Hal eq_refl). destruct who; cbn [sendingOf threw] in *; (destruct Hal as [Hal Hse]; [done | by intros [] |]).
  - split; [by apply calm_reader | do 2 (split; [done |]); by intros].
  - split; [apply calm_writer; auto; by intros | do 2 (split; [done |]); auto].
  - destruct (stopper e) as [| rest' | |] eqn:Es; try done.
    assert (Hopen : closed e = true) by (unfold closed; by rewrite Es).
    split; [apply calm_stopper; auto | do 2 (split; [auto |]); auto].
Qed.

Lemma set_rest_spec who e rest rest' :
  calm e -> sendingOf who e = Some rest ->
  let e' := set_rest who rest' e in
  calm e' /\ strm e' = strm e /\ closed e' = closed e /\ sending e' = rest'
  /\ (forall len r, reader e' = RFlush len FEof r -> exists r', reader e = RFlush len FEof r').
Proof.
  intros Hcalm Hs. pose proof Hcalm as (He & Hthrew & Hq & Hl & Hfl & Hr & Hlost & Ha). cbn zeta.
  assert (Ha' : alone (set_rest who rest' e) = true).
  { revert Ha. unfold alone, inWrite. destruct who; cbn [sendingOf] in *.
    - cbn. by destruct (reader e).
    - cbn. by destruct (writer e).
    - unfold finished. cbn. by destruct (stopper e). }
  assert (Hs' : sendingOf who (set_rest who rest' e) = Some rest').
  { destruct who; cbn in *; [by destruct (reader e) | by destruct (writer e) | done]. }
  pose proof (alone_sending _ _ _ Ha' Hs') as Hse. destruct who; cbn [sendingOf set_rest] in *.
  - destruct (reader e) as [| | len r rest0 |] eqn:Er; try done.
    split; [apply calm_reader; try done; intros ??? [= <- <- <-]; by eapply Hr |]. split_and!; try done. cbn. intros ? ? [= <- -> <-]. eauto.
  - destruct (writer e) as [| | data m n rest0 |] eqn:Ew; try done.
    assert (Hopen : closed e = false) by (destruct (closed e); [by specialize (Hq eq_refl) | done]).
    split; [apply calm_writer; try done; [by left | intros ???? [= <- <- <- <-]; by eapply Hfl] |]. split_and!; try done. cbn. eauto.
  - destruct (stopper e) as [| rest0 | |] eqn:Es; try done.
    assert (Hopen : closed e = true) by (unfold closed; by rewrite Es).
    split; [apply calm_stopper; auto | split_and!; try done; cbn; eauto].
Qed.

Lemma flushed_kept who (ok : bool) e :
  given (flushed who ok e) = given e /\ failed (flushed who ok e) = failed e /\ lost (flushed who ok e) = lost e.
Proof.
  destruct who; cbn; [| by destruct (writer e) | done]. destruct (reader e); try done.
  by destruct (readAfter _ _ _ _).
Qed.

Lemma set_rest_kept who (rest : bytes) e :
  given (set_rest who rest e) = given e /\ got (set_rest who rest e) = got e
  /\ failed (set_rest who rest e) = failed e /\ lost (set_rest who rest e) = lost e.
Proof. destruct who; cbn; [by destruct (reader e) | by destruct (writer e) | done]. Qed.

Lemma sendTurn_inv who (k : nat) w : inv w -> inv (sendTurn who k w).
Proof.
  intros Hinv. unfold sendTurn. destruct (sendingOf who (here w)) as [rest |] eqn:Hs; [| done].
  destruct (failed (here w)) eqn:Hf; [done |]. pose proof Hinv as (Hc & _).
  pose proof Hc as (_ & _ & _ & _ & _ & _ & Hl & Ha). specialize (Hl Hf). pose proof (alone_sending _ _ _ Ha Hs) as Hse.
  assert (Hw : forall o, o = rest -> (out w ++ o) ++ [] ++ [] = wire w) by (intros ? ->; unfold wire; by rewrite Hl, Hse, !app_nil_r).
  destruct (drop (Nat.max k 1) rest) as [| b r] eqn:Hd.
  - destruct (flushed_spec who true _ _ Hc Hs) as (H1 & H2 & H3 & H4 & H5 & H6 & H7).
    destruct (flushed_kept who true (here w)) as (K1 & K2 & K3).
    apply inv_here; try done; rewrite ?K1, ?K2, ?K3, ?H4, ?Hl; try done; try congruence.
    + apply Hw. rewrite <- (take_drop (Nat.max k 1) rest) at 2. by rewrite Hd, app_nil_r.
    + intros E. destruct (H6 E) as [? | [? | ?]]; [by left | done | by right; right].
    + eauto.
  - rewrite <- Hd. destruct (set_rest_spec who _ _ (drop (Nat.max k 1) rest) Hc Hs) as (H1 & H2 & H3 & H4 & H5).
    destruct (set_rest_kept who (drop (Nat.max k 1) rest) (here w)) as (K1 & K2 & K3 & K4).
    apply inv_here; try done; rewrite ?K1, ?K2, ?K3, ?K4, ?H4, ?Hl, ?H2; try done; try congruence; auto.
    + unfold wire. by rewrite Hl, Hse, !app_nil_l, <- app_assoc, take_drop.
    + intros len rest0 E. destruct (H5 _ _ E) as [r' ?]. eauto.
Qed.

Lemma failTurn_inv who (what : option bytes) w : inv w -> inv (failTurn who what w).
Proof.
  intros Hinv. unfold failTurn. pose proof Hinv as (Hc & _). pose proof Hc as (_ & _ & _ & _ & _ & _ & _ & Ha).
  destruct (sendingOf who (here w)) as [rest |] eqn:Hs.
  - assert (Hc' := calm_lost _ rest Hc). assert (Hs' : sendingOf who (add_lost rest (here w)) = Some rest) by by destruct who.
    assert (Hw : out w ++ (lost (here w) ++ rest) ++ [] = wire w).
    { unfold wire. by rewrite (alone_sending _ _ _ Ha Hs), app_nil_r. }
    destruct what as [m |].
    + destruct (threw_spec who m _ _ Hc' Hs' eq_refl) as (H1 & H2 & H3 & H4).
      apply inv_here; try done; [by destruct who | rewrite H3; by destruct who | by destruct who | by destruct who | by destruct who | |].
      * intros E. right; left. by destruct who.
      * intros len r E. exists len, r. by apply H4.
    + destruct (flushed_spec who false _ _ Hc' Hs') as (H1 & H2 & H3 & H4 & H5 & H6 & H7).
      destruct (flushed_kept who false (add_lost rest (here w))) as (K1 & K2 & K3).
      apply inv_here; try done; rewrite ?K1, ?K2, ?K3, ?H4; try done; [by right; left |]. intros len r E. exists len, r. by apply H7.
  - destruct who; try done. destruct (reader (here w)) as [| len | |] eqn:Er; try done. destruct what as [m |]; [| done].
    destruct (wantsMore _); [| done].
    assert (Hal : alone (threw Reader m (add_lost [] (here w))) = true /\ sending (threw Reader m (add_lost [] (here w))) = sending (here w)).
    { revert Ha. unfold alone, inWrite, sending. cbn. by rewrite Er. }
    destruct Hal as [Hal Hse]. apply inv_here; try done; [apply calm_reader; try done; [by apply calm_lost | apply Hc] | | by right; left].
    rewrite Hse. cbn. by rewrite app_nil_r.
Qed.
(** *** Reading *)

Lemma arrived_parts (k : Z) w : inn w = arrived k w ++ drop (length (arrived k w)) (inn w).
Proof.
  unfold arrived. set (n := Z.to_nat _). rewrite length_take.
  destruct (Nat.min_spec n (length (inn w))) as [[H ->] | [H ->]]; [by rewrite take_drop |].
  rewrite take_ge by lia. by rewrite drop_all, app_nil_r.
Qed.

Lemma arrived_some (k : Z) w : inn w <> [] -> arrived k w <> [].
Proof.
  intros H Ha. unfold arrived in Ha. apply H. destruct (inn w) as [| b l]; [done |].
  destruct (Z.to_nat (Z.min (Z.max k 1) 16384)) eqn:E; [lia | done].
Qed.

Lemma finished_sent e : alone e = true -> finished e = true -> sending e = [].
Proof.
  unfold alone, inWrite, sending. cbn [sendingOf]. intros Ha Hf. rewrite Hf in Ha. unfold finished in Hf.
  destruct (reader e), (writer e), (stopper e); done.
Qed.

Lemma finished_closed e : finished e = true -> closed e = true.
Proof. unfold finished, closed. by destruct (stopper e). Qed.

Lemma readRound_spec (len : nat) (raw plain enc : bytes) (r : FeedResult) (p : P) (s : TlsStream P) :
  raw <> [] -> feedEncrypted raw (provider_ s) = (r, plain, enc, p) -> encryptedOutBuf_ s = [] -> r = FOk \/ r = FEof ->
  exists pc s', readRound len raw s = (pc, s') /\ provider_ s' = p /\ encryptedOutBuf_ s' = [] /\ plainBuf_ s' = plainBuf_ s ++ plain
  /\ ((enc = [] /\ pc = RLoop len /\ (eof_ s' = true -> eof_ s = true \/ r = FEof))
      \/ (enc <> [] /\ pc = RFlush len r enc /\ eof_ s' = eof_ s)).
Proof.
  intros Hraw Hf He Hr. unfold readRound, feedBegin. destruct raw as [| b raw]; [done |]. rewrite Hf, He. cbn [app].
  destruct enc as [| o enc]; cbn [flushEncrypted encryptedOutBuf_].
  - destruct Hr as [-> | ->]; eexists _, _; (split; [reflexivity |]); (split; [done |]); (split; [done |]); (split; [done |]); left; auto.
  - eexists _, _. split; [reflexivity |]. do 3 (split; [done |]). by right.
Qed.

Lemma readTurn_inv (k : Z) w : inv w -> alone (here (readTurn k w)) = true -> inv (readTurn k w).
Proof.
  intros Hinv. pose proof Hinv as (Hh & Ht & d & d' & Hs & H1 & Hg & He & Hr). unfold readTurn.
  destruct (reader (here w)) as [| len | |] eqn:Hreader; try done. pose proof Hh as (Henc & _ & _ & _ & _ & _ & _ & Hah).
  destruct (wantsMore (strm (here w))) eqn:Hwant.
  - apply andb_true_iff in Hwant as [Hp Hneof]. apply bool_decide_eq_true in Hp. apply negb_true_iff in Hneof.
    destruct (bool_decide (inn w = []) && negb (finished (there w))) eqn:Hwait; [done |].
    destruct (decide (inn w = [])) as [Hin | Hin].
    + rewrite bool_decide_eq_true_2 in Hwait by done. apply negb_false_iff in Hwait.
      assert (Hraw : arrived k w = []) by (unfold arrived; by rewrite Hin, take_nil). rewrite Hraw, Hin. cbn. intros Ha.
      split; [by apply calm_reader |]. split; [done |]. exists d, d'.
      assert (Hw : wire (mkWorld (set_reader (set_eof (set_eof (strm (here w)))) (RLoop len) (here w)) (out w) (there w) []) = wire w).
      { unfold wire, sending. cbn. by rewrite Hreader. }
      rewrite Hw. unfold wire at 2 in Hs. unfold wire at 2. cbn [out here there inn swap app strm set_reader provider_ set_eof closed stopper] in Hs |- *. rewrite Hin in Hs. split; [exact Hs |]. split; [done |].
      split; [done |]. split; [| done]. intros _. right. destruct (failed (there w)) eqn:Hfail; [by left | right].
      split; [by apply finished_closed |]. pose proof Ht as (_ & _ & _ & _ & _ & _ & Hl & Hat).
      rewrite (Hl Hfail), (finished_sent _ Hat Hwait) in Hs. by apply session_empty in Hs.
    + pose proof (arrived_parts k w) as Hparts. pose proof (arrived_some k w Hin) as Hsome. set (raw := arrived k w) in *. clearbody raw.
      set (inn' := drop (length raw) (inn w)) in *. clearbody inn'. unfold wire at 2 in Hs. cbn in Hs. rewrite Hparts, <- app_assoc in Hs.
      pose proof (session_feed _ _ _ _ _ _ _ _ _ Hs Hsome) as Hfeed.
      destruct (feedEncrypted raw (provider_ (strm (here w)))) as [[[r pl] enc] p'] eqn:Ef.
      destruct Hfeed as (d2 & -> & Hs' & Hr' & _).
      destruct (readRound_spec len raw pl enc r p' (strm (here w))) as (pc & s' & -> & <- & Hout & Hplain & Hpc); [done | done | done | tauto |].
      intros Ha. cbn [here] in Ha. split; [| split; [done |]].
      { apply calm_reader; try done; destruct Hpc as [(_ & -> & _) | (_ & -> & _)]; try done. intros ??? [= _ <- _]. tauto. }
      exists d, d2. replace (wire (mkWorld _ _ _ _)) with (wire w ++ enc).
      2: { unfold wire. cbn [out here lost set_reader]. rewrite <- !app_assoc. do 2 f_equal. symmetry.
           destruct Hpc as [(-> & -> & _) | (_ & -> & _)].
           - rewrite app_nil_r. unfold sending. cbn. by rewrite Hreader.
           - apply (sends_more Reader); try done; [cbn; by rewrite Hreader | by intros []]. }
      split; [exact Hs' |]. split; [done |]. assert (Hend : r = FEof -> closed (there w) = true /\ d2 = []) by (intros ->; by destruct Hr' as [? | (_ & ? & ?)]).
      split; [cbn; by rewrite Hg, Hplain, Hp |]. cbn [strm set_reader reader here]. split.
      * intros E. right; right. apply Hend. destruct Hpc as [(_ & _ & H) | (_ & _ & H)]; [| congruence]. destruct (H E); [congruence | done].
      * intros len' rest' E. apply Hend. destruct Hpc as [(_ & -> & _) | (_ & -> & _)]; congruence.
  - unfold readEnd. intros Ha. apply inv_here; try done; [by apply calm_reader | | | by left].
    + unfold wire, sending. cbn. by rewrite Hreader.
    + cbn. by rewrite <- app_assoc, take_drop.
Qed.

(** *** Writing *)

Lemma writing_open w data n : calm (here w) -> writer (here w) = WLoop data n -> closed (here w) = false.
Proof. intros (_ & _ & Hq & _) Hw. destruct (closed (here w)); [| done]. specialize (Hq eq_refl). by rewrite Hw in Hq. Qed.

(** A round hands over some octets and sends what the provider makes of them. *)
Lemma writeTurn_spec w data n :
  inv w -> writer (here w) = WLoop data n -> (n < length data)%nat ->
  exists pc s j enc d d', writeTurn w = set_here (add_given (take j (drop n data)) (set_writer s pc (here w))) w
  /\ (0 < j)%nat /\ (n + j <= length data)%nat
  /\ session (provider_ s) (provider_ (strm (there w))) (wire w ++ enc) (d ++ take j (drop n data)) false (wire (swap w)) d' (closed (there w))
  /\ half (here w) (there w) d /\ half (there w) (here w) d'
  /\ encryptedOutBuf_ s = [] /\ plainBuf_ s = plainBuf_ (strm (here w)) /\ eof_ s = eof_ (strm (here w))
  /\ ((enc = [] /\ pc = WLoop data (n + j)) \/ (enc <> [] /\ pc = WFlush data n j enc)).
Proof.
  intros (Hh & Ht & d & d' & Hs & H1 & H2) Hwr Hlt. pose proof Hh as (Henc & _ & _ & Hl & _). destruct (Hl _ _ Hwr) as [_ Hsize].
  rewrite (writing_open _ _ _ Hh Hwr) in Hs. unfold writeTurn, writeRound. rewrite Hwr. destruct (Nat.ltb_spec n (length data)); [| lia].
  assert (Hne : drop n data <> []) by (intros E; apply (f_equal length) in E; rewrite length_drop in E; cbn in E; lia).
  pose proof (session_send _ _ _ _ _ _ _ (drop n data) Hs Hne) as Hsend.
  assert (Hlen : size (drop n data) = size data - Z.of_nat n) by (unfold size; rewrite length_drop; lia). rewrite Hlen in Hsend.
  specialize (Hsend ltac:(lia)). destruct (sendPlain (drop n data) (provider_ (strm (here w)))) as [[m enc] p'].
  destruct Hsend as [Hm Hs']. destruct (Z.ltb_spec m 0); [lia |]. destruct (Z.eqb_spec m 0); [lia |]. rewrite Henc. cbn [app].
  assert (Hj : (0 < Z.to_nat m)%nat /\ (n + Z.to_nat m <= length data)%nat) by (unfold size in *; lia).
  destruct enc as [| o enc]; cbn [flushEncrypted encryptedOutBuf_ writeAfter negb].
  - replace (n + Z.to_nat m - n)%nat with (Z.to_nat m) by lia.
    eexists _, _, (Z.to_nat m), [], d, d'. split; [reflexivity |]. do 8 (split; [by try apply Hj |]). by left.
  - eexists _, _, (Z.to_nat m), (o :: enc), d, d'. split; [reflexivity |]. do 8 (split; [by try apply Hj |]). by right.
Qed.

Lemma writeTurn_inv w : inv w -> alone (here (writeTurn w)) = true -> inv (writeTurn w).
Proof.
  intros Hinv. destruct (writer (here w)) as [| data n | |] eqn:Hwr; try by (unfold writeTurn; rewrite Hwr).
  pose proof Hinv as (Hh & Ht & _). pose proof Hh as (Henc & _ & _ & Hl & _ & _ & _ & Hah). destruct (Hl _ _ Hwr) as [Hle Hsize].
  assert (Hopen : closed (here w) = false) by by apply (writing_open w data n).
  destruct (decide (n < length data)%nat) as [Hlt | Hge].
  - destruct (writeTurn_spec w data n Hinv Hwr Hlt) as (pc & s & j & enc & d & d' & -> & Hj & Hjle & Hs & H1 & H2 & Ho & Hp & He & Hpc).
    intros Ha. split; [| split; [done |]].
    { change (calm (set_writer s pc (here w))). apply calm_writer; try done; [| by left | |];
        destruct Hpc as [(_ & ->) | (_ & ->)]; try done; [by intros ? ? [= <- <-] | by intros ? ? ? ? [= <- <- <- <-]]. }
    exists (d ++ take j (drop n data)), d'. replace (wire (set_here _ _)) with (wire w ++ enc).
    2: { unfold wire. cbn [set_here out here lost set_writer add_given]. rewrite <- !app_assoc. do 2 f_equal. symmetry.
         destruct Hpc as [(-> & ->) | (_ & ->)].
         - rewrite app_nil_r. unfold sending. cbn. by rewrite Hwr.
         - apply (sends_more Writer); try done; [cbn; by rewrite Hwr | by intros []]. }
    cbn [set_here here there strm add_given set_writer]. change (closed (add_given _ _)) with (closed (here w)). rewrite Hopen.
    split; [exact Hs |]. destruct H1 as (Hg & Heof & Hr). split.
    + split; [cbn; by rewrite Hg, <- !app_assoc |]. split.
      * intros E. destruct (Heof E) as [? | [? | [? _]]]; [by left | by right; left | congruence].
      * intros len rest E. destruct (Hr _ _ E). congruence.
    + apply (half_dst _ (here w)); try done; cbn; [by rewrite Hp | rewrite He; by left | eauto].
  - intros Ha. unfold writeTurn, writeRound in *. rewrite Hwr in *. destruct (Nat.ltb_spec n (length data)); [lia |].
    apply inv_here; try done; [by apply calm_writer; try done; right | | cbn; by rewrite app_nil_r | by left | cbn; eauto].
    unfold wire, sending. cbn. by rewrite Hwr.
Qed.
(** [SSL_write] takes an [int]. *)
Definition small (t : Turn) : Prop := match t with WriteCall data => size data < 2 ^ 31 | _ => True end.

Lemma alone_idle e e' :
  (forall who, inWrite who e' = inWrite who e) -> finished e' = finished e -> alone e' = alone e.
Proof. intros Hw Hf. unfold alone. by rewrite !Hw, Hf. Qed.

Lemma sending_idle e e' : (forall who, sendingOf who e' = sendingOf who e) -> sending e' = sending e.
Proof. intros H. unfold sending. by rewrite !H. Qed.

Lemma shutdown_inv w :
  inv w -> quiet (writer (here w)) = true -> closed (here w) = false ->
  let w' := (let '(pc, s) := shutdown (strm (here w)) in set_here (set_stopper s pc (here w)) w) in
  alone (here w') = true -> inv w'.
Proof.
  intros (Hh & Ht & d & d' & Hs & H1 & H2) Hq Hopen. rewrite Hopen in Hs. pose proof (session_close _ _ _ _ _ _ _ Hs) as Hcl.
  pose proof Hh as (Henc & _). unfold shutdown. destruct (closeProvider (provider_ (strm (here w)))) as [enc p']. rewrite Henc. cbn [app].
  set (s0 := mkStream p' _ _ _). assert (Hno : sendingOf Stopper (here w) = None).
  { unfold closed in Hopen. cbn. by destruct (stopper (here w)). }
  assert (Hpc : exists pc s, (match flushEncrypted s0 with (Some toSend, s) => (SFlush toSend, s) | (None, s) => (SDone, s) end) = (pc, s)
    /\ provider_ s = p' /\ encryptedOutBuf_ s = [] /\ plainBuf_ s = plainBuf_ (strm (here w)) /\ eof_ s = eof_ (strm (here w))
    /\ ((enc = [] /\ pc = SDone) \/ pc = SFlush enc)).
  { destruct enc; eexists _, _; (split; [reflexivity |]); split_and!; try done; auto. }
  destruct Hpc as (pc & s & -> & Hp & Ho & Hpl & He & Hpc). cbv zeta. intros Ha. cbn [set_here here] in Ha.
  assert (Hclosed : closed (set_stopper s pc (here w)) = true) by (unfold closed; cbn; by destruct Hpc as [(_ & ->) | ->]).
  split; [by apply calm_stopper |]. split; [done |]. exists d, d'. cbn [set_here here there].
  replace (wire _) with (wire w ++ enc).
  2: { unfold wire. cbn [set_here out here lost set_stopper]. rewrite <- !app_assoc. do 2 f_equal. symmetry.
       destruct Hpc as [(-> & ->) | ->].
       - rewrite app_nil_r. unfold sending. cbn [sendingOf set_stopper stopper reader writer]. cbn [sendingOf] in Hno. by rewrite Hno.
       - apply (sends_more Stopper); try done. by intros []. }
  rewrite Hclosed. cbn [strm set_stopper]. rewrite Hp. split; [exact Hcl |]. destruct H1 as (Hg & Heof & Hr). split.
  - split; [done |]. rewrite Hclosed. split.
    + intros E. destruct (Heof E) as [? | [? | [? _]]]; [by left | by right; left | congruence].
    + intros len rest E. destruct (Hr _ _ E). congruence.
  - apply (half_dst _ (here w)); try done; cbn; [by rewrite Hpl | rewrite He; by left | eauto].
Qed.

Lemma turn_inv (t : Turn) w : small t -> inv w -> alone (here (turn t w)) = true -> inv (turn t w).
Proof.
  intros Hsm Hinv. pose proof Hinv as (Hh & _). pose proof Hh as (Henc & _ & _ & _ & _ & _ & _ & Ha). destruct t; cbn [turn].
  - assert (Hcall : inWrite Reader (here w) = false -> inv (set_here (set_reader (strm (here w)) (RLoop len) (here w)) w)).
    { unfold inWrite. cbn [sendingOf]. intros Hno. assert (Hno' : sendingOf Reader (here w) = None) by (cbn; by destruct (reader (here w))).
      apply inv_here; try done; [apply calm_reader; try done; rewrite <- Ha; apply alone_idle; [| done] | | by left].
      - intros []; unfold inWrite; [by rewrite Hno' | done..].
      - cbn [lost set_reader]. rewrite (sending_idle (here w)); [done |]. intros []; [by rewrite Hno' | done..]. }
    unfold inWrite in Hcall. cbn [sendingOf] in Hcall. destruct (reader (here w)); try done; by intros _; apply Hcall.
  - by apply readTurn_inv.
  - destruct (quiet (writer (here w)) && negb (closed (here w))) eqn:Hq; [| done]. intros _.
    apply andb_true_iff in Hq as [Hq Hopen]. apply negb_true_iff in Hopen.
    assert (Hno : forall who, sendingOf who (set_writer (strm (here w)) (writeCall data) (here w)) = sendingOf who (here w)).
    { intros []; try done. cbn. destruct data; cbn; by destruct (writer (here w)). }
    apply inv_here; try done; [| | by left | by eauto].
    + apply calm_writer; try done; try (by destruct data); [by left | |].
      * destruct data; [done |]. intros ? ? [= <- <-]. split; [lia | exact Hsm].
      * rewrite <- Ha. apply alone_idle; [| done]. intros who. unfold inWrite. by rewrite Hno.
    + cbn [lost set_writer]. by rewrite (sending_idle (here w)).
  - by apply writeTurn_inv.
  - destruct (quiet (writer (here w)) && negb (closed (here w))) eqn:Hq; [| done].
    apply andb_true_iff in Hq as [Hq Hopen]. apply negb_true_iff in Hopen. by apply shutdown_inv.
  - intros _. by apply sendTurn_inv.
  - intros _. by apply failTurn_inv.
Qed.

Lemma tls_step_inv (t : bool * Turn) w :
  small (snd t) -> inv w -> alone (here (step t w)) = true -> alone (there (step t w)) = true -> inv (step t w).
Proof.
  intros Hsm H. unfold step. destruct (fst t); intros Hh Ht; [by apply turn_inv |]. by apply inv_swap, turn_inv; [| apply inv_swap |].
Qed.

Lemma tls_run_inv (ts : list (bool * Turn)) w :
  Forall (fun t => small (snd t)) ts -> apart ts w = true -> inv w -> inv (run ts w).
Proof.
  intros Hts. revert w. induction Hts as [| t ts Ht Hts IH]; intros w Hap H; [done |]. cbn [run foldl apart] in *.
  apply andb_true_iff in Hap as [[H1 H2]%andb_true_iff Hap]. by apply IH; [| apply tls_step_inv].
Qed.
(** *** Progress *)

(** The data of a write, and what of it the provider has still to take. *)
Definition unwritten (pc : WriterPc) : option (bytes * bytes) :=
  match pc with
  | WLoop data n => Some (data, drop n data)
  | WFlush data m n _ => Some (data, drop (m + n) data)
  | _ => None
  end.

(** The kernel takes octets of the write, or the write goes on. *)
Definition writes (t : bool * Turn) : Prop := t = (true, WriteTurn) \/ exists k, t = (true, SendTurn Writer k).

Definition unsent (pc : WriterPc) : nat := match pc with WFlush _ _ _ _ => 1 | _ => 0 end.

Lemma alone_writer e (s : TlsStream P) pc : closed e = false -> inWrite Reader e = false -> alone (set_writer s pc e) = true.
Proof.
  unfold closed, alone, inWrite, finished. cbn. intros Hc Hr. destruct (reader e); try done; destruct (stopper e); try done; by destruct pc.
Qed.

Lemma writes_on data rest w :
  inv w -> unwritten (writer (here w)) = Some (data, rest) -> failed (here w) = false -> inWrite Reader (here w) = false ->
  exists t w', writes t /\ step t w = w' /\ inv w' /\ failed (here w') = false /\ inWrite Reader (here w') = false
  /\ ((rest = [] /\ writer (here w') = WIdle (length data) /\ given (here w') = given (here w))
      \/ exists x rest', rest = x ++ rest' /\ unwritten (writer (here w')) = Some (data, rest') /\ given (here w') = given (here w) ++ x
         /\ (2 * length rest' + unsent (writer (here w')) < 2 * length rest + unsent (writer (here w)))%nat).
Proof.
  intros Hinv Hun Hf Hr. pose proof Hinv as (Hc & _). destruct (writer (here w)) as [| data' n | data' a n r |] eqn:Hwr; try done.
  - injection Hun as -> <-. pose proof (writing_open w data n Hc Hwr) as Hopen. pose proof Hc as (_ & _ & _ & Hl & _).
    destruct (Hl _ _ Hwr) as [Hle _]. exists (true, WriteTurn), (writeTurn w). split; [by left |]. split; [done |].
    destruct (decide (n < length data)%nat) as [Hlt | Hge].
    + destruct (writeTurn_spec w data n Hinv Hwr Hlt) as (pc & s & j & enc & d & d' & E & Hj & Hjle & _ & _ & _ & _ & _ & _ & Hpc).
      pose proof (writeTurn_inv w Hinv) as Hinv'. rewrite E in *. split; [apply Hinv'; by apply (alone_writer (here w)) |].
      split; [done |]. split; [done |]. right. exists (take j (drop n data)), (drop (n + j) data).
      split; [by rewrite <- drop_drop, take_drop |]. cbn [here set_here add_given set_writer writer given].
      rewrite !length_drop. destruct Hpc as [(_ & ->) | (_ & ->)]; cbn; (split; [done |]); (split; [done |]); lia.
    + assert (n = length data) as -> by lia. pose proof (writeTurn_inv w Hinv) as Hinv'.
      unfold writeTurn, writeRound in *. rewrite Hwr in *. rewrite Nat.ltb_irrefl in *.
      split; [apply Hinv'; by apply (alone_writer (here w)) |]. split; [done |]. split; [done |]. left.
      cbn. by rewrite drop_all, app_nil_r.
  - injection Hun as -> <-. exists (true, SendTurn Writer (length r)), (sendTurn Writer (length r) w). split; [right; by eexists |]. split; [done |].
    pose proof (sendTurn_inv Writer (length r) w Hinv) as Hinv'. unfold sendTurn in *. cbn [sendingOf] in *. rewrite Hwr, Hf in *.
    rewrite (drop_ge r) in * by lia. split; [done |]. cbn [flushed] in *. rewrite Hwr in *. split; [done |]. split; [done |]. right.
    exists [], (drop (a + n) data). split; [done |]. cbn. rewrite app_nil_r. split; [done |]. split; [done |]. lia.
Qed.

Lemma write_ends (m : nat) (data rest : bytes) w :
  inv w -> unwritten (writer (here w)) = Some (data, rest) -> failed (here w) = false -> inWrite Reader (here w) = false ->
  (2 * length rest + unsent (writer (here w)) < m)%nat ->
  exists ts, Forall writes ts /\ (length ts <= m)%nat /\ writer (here (run ts w)) = WIdle (length data)
  /\ given (here (run ts w)) = given (here w) ++ rest.
Proof.
  revert rest w. induction m as [| m IH]; intros rest w Hinv Hun Hf Hr Hm; [lia |].
  destruct (writes_on data rest w Hinv Hun Hf Hr) as (t & w' & Ht & Hstep & Hinv' & Hf' & Hr' & [(-> & Hw & Hg) | (x & rest' & -> & Hun' & Hg & Hlt)]).
  - exists [t]. split; [by apply Forall_singleton |]. split; [cbn; lia |]. cbn [run foldl]. by rewrite Hstep, Hg, app_nil_r.
  - destruct (IH rest' w' Hinv' Hun' Hf' Hr') as (ts & Hts & Hlen & Hend & Hgiven); [lia |].
    exists (t :: ts). split; [by constructor |]. split; [cbn; lia |]. cbn [run foldl]. rewrite Hstep. split; [exact Hend |].
    change (foldl _ _ _) with (run ts w'). by rewrite Hgiven, Hg, app_assoc.
Qed.
End invariant.

(** ** Properties *)

Section properties.
Context {P : Type} `{!TlsProvider P, !TlsSession P}.

(** The way from [here] to [there]. *)
Definition flows (w : World P) : Prop :=
  (* what was written is what the other end's reads returned, what it holds and a rest that is on the way *)
  (exists rest, given (here w) = got (there w) ++ plainBuf_ (strm (there w)) ++ rest /\ (wire w = [] -> rest = []))
  (* a read that waits has returned everything *)
  /\ (forall len, reader (there w) = RLoop len -> wantsMore (strm (there w)) = true -> wire w = [] ->
        given (here w) = got (there w))
  (* while the connection lasts the end of the stream is seen behind everything that was written *)
  /\ (eof_ (strm (there w)) = true -> failed (there w) = true \/ failed (here w) = true
        \/ (closed (here w) = true /\ given (here w) = got (there w) ++ plainBuf_ (strm (there w))))
  (* nothing throws, and nothing is lost *)
  /\ (forall what, reader (here w) = RThrew what \/ writer (here w) = WThrew what -> failed (here w) = true)
  /\ (failed (here w) = false -> lost (here w) = [])
  (* a write ends, with all of its data handed over, when the kernel takes its octets *)
  /\ (forall data rest, unwritten (writer (here w)) = Some (data, rest) -> failed (here w) = false ->
        inWrite Reader (here w) = false ->
        exists ts, Forall writes ts /\ (length ts <= 2 * length data + 2)%nat
        /\ writer (here (run ts w)) = WIdle (length data) /\ given (here (run ts w)) = given (here w) ++ rest).

Lemma inv_flows (w : World P) : inv w -> flows w.
Proof.
  intros Hinv. pose proof Hinv as (Hh & Ht & d & d' & Hs & (Hg & Heof & _) & _).
  assert (Hempty : wire w = [] -> d = []).
  { intros E. apply session_sym in Hs. rewrite E in Hs. by apply session_empty in Hs. }
  pose proof Hh as (_ & Hthrew & _ & _ & _ & _ & Hl & _). split_and!; try done.
  - exists d. done.
  - intros len _ Hm E. unfold wantsMore in Hm. apply andb_true_iff in Hm as [Hp _]. apply bool_decide_eq_true in Hp.
    by rewrite Hg, Hp, (Hempty E), app_nil_r.
  - intros E. destruct (Heof E) as [? | [? | [? ->]]]; [by left | by right; left | right; right].
    split; [done |]. by rewrite Hg, app_nil_r.
  - intros data rest Hun Hf Hr. apply (write_ends (2 * length data + 2) data rest w Hinv Hun Hf Hr).
    destruct (writer (here w)); try done; injection Hun as -> <-; rewrite length_drop; cbn; lia.
Qed.

(** C9: A TLS connection carries plaintext both ways, whatever the segments of the
    network, however much of a write the kernel takes at a time and however reads,
    writes and shutdowns of both ends interleave, as long as no two coroutines of
    an end are in a write to the connection at the same time, and none when it is
    shut down, which the source does not see to: reads return in order and without
    loss what the other end wrote, none waits while anything is left, and every
    write whose octets the kernel takes ends; until the connection fails nothing
    throws and the end of the stream is told only behind everything that was
    written. *)
Theorem tls_delivers (p q : P) (ts : list (bool * Turn)) (Hs : session p q [] [] false [] [] false)
    (Hts : Forall (fun t => small (snd t)) ts) (Hap : apart ts (start p q) = true) :
  flows (run ts (start p q)) /\ flows (swap (run ts (start p q))).
Proof.
  assert (H : inv (run ts (start p q))) by by apply tls_run_inv; [| | apply start_inv].
  split; [by apply inv_flows | by apply inv_flows, inv_swap].
Qed.

(** The handshake ends at the first read that completes it, fails or finds the
    end, with everything sent that the provider asked for. *)
Lemma handshake_first (raws : list (bytes * bool)) (raw : bytes) (wrote : bool) (s s' : TlsStream P) (o o' : bytes) (h : Handshake) :
  handshakeLoop raws s = (o, HGoesOn s') -> handshakeTurn raw wrote s' = (o', h) ->
  handshakeLoop (raws ++ [(raw, wrote)]) s = (o ++ o', h).
Proof.
  revert s o. induction raws as [| [r0 w0] raws IH]; intros s o; cbn [app handshakeLoop].
  - intros [= <- ->] ->. cbn. by destruct h; rewrite ?app_nil_r.
  - destruct (handshakeTurn r0 w0 s) as [o1 [s1 | s1 | m]] eqn:E; [| done..].
    destruct (handshakeLoop raws s1) as [o2 h2] eqn:E2. intros [= <- ->] Ht.
    by rewrite (IH s1 o2 E2 Ht), app_assoc.
Qed.
End properties.

(** ** A provider that does not encrypt *)

#[local] Instance plainProvider : TlsProvider unit := {
  startHandshake p := ([], p);
  feedEncrypted c p := (FOk, c, [], p);
  sendPlain x p := (size x, x, p);
  closeProvider p := ([], p);
  lastError p := []
}.

#[local, refine] Instance plainSession : TlsSession unit := {
  session p q c d e c' d' e' := c = d /\ c' = d'
}.
Proof.
  - by intros p q c d e c' d' e' [-> ->].
  - by intros p q c d e d' e' [-> <-].
  - intros p q c d c' d' e' x [-> ->] Hx. cbn. intros _. pose proof (size_nonneg x).
    assert (size x <> 0) by (unfold size; destruct x; [done | cbn; lia]).
    split; [lia |]. unfold size. by rewrite Nat2Z.id, firstn_all.
  - intros p q c d e c1 c2 d' e' [-> <-] _. cbn. exists c2. rewrite app_nil_r. by split_and!; [..| left |].
  - intros p q c d c' d' e' [-> ->]. cbn. by rewrite app_nil_r.
Defined.

(** The write is taken by the kernel in two parts, between which the other end
    reads and writes. *)
Lemma tls_delivers_witness :
  let w := run [(true, WriteCall (str "hello")); (true, WriteTurn); (true, SendTurn Writer 2); (false, ReadCall 4); (false, ReadTurn 3);
    (false, WriteCall (str "yes")); (false, WriteTurn); (false, ReadTurn 3); (true, SendTurn Writer 9); (true, WriteTurn);
    (false, ReadCall 9); (false, ReadTurn 9); (false, ReadTurn 9); (false, Fails Writer None)] (start tt tt) in
  got (there w) = str "hello" /\ lost (there w) = str "yes" /\ flows w.
Proof.
  intros w. split; [by vm_compute |]. split; [by vm_compute |].
  refine (proj1 (tls_delivers tt tt _ _ _ _)); [by split | by repeat constructor | by vm_compute].
Defined.

(** A provider that has records of its own to send. *)
Module Ticket.
#[local] Instance ticketProvider : TlsProvider unit := {
  startHandshake p := ([], p);
  feedEncrypted c p := (FOk, c, str "<ticket>", p);
  sendPlain x p := (size x, str "<" ++ x ++ str ">", p);
  closeProvider p := ([], p);
  lastError p := []
}.

(** The kernel takes two octets of a write's record; a read of the same stream
    then has a record to send, which goes out in the midst of the other: no mutex
    covers both. *)
Example tls_records_mix :
  let ts := [(true, WriteCall (str "hello")); (true, WriteTurn); (true, SendTurn Writer 2);
    (false, WriteCall (str "x")); (false, WriteTurn); (false, SendTurn Writer 9);
    (true, ReadCall 4); (true, ReadTurn 9); (true, SendTurn Reader 9); (true, SendTurn Writer 9)] in
  out (run ts (start tt tt)) = str "<h<ticket>ello>" /\ apart ts (start tt tt) = false.
Proof. by vm_compute. Qed.
End Ticket.
