(* ===== verification/OpenSSLProvider.v ===== *)
(** The provider of TLS that is built on OpenSSL:
    src/extensions/tls/src/providers/OpenSSLProvider.cc.

    OpenSSL is outside src/: the class [OpenSSL] has the calls the source makes
    and what is documented of the memory BIOs, [OpenSSLSession] what is documented
    of two connections that talk.  The provider implements the interface of
    [TlsStream] and its promise; the selection of a protocol by ALPN is the
    source's own and is compared with its specification. *)

From Stdlib Require Import ZArith Lia String Strings.Byte.
From stdpp Require Import base numbers option list.
From S2P Require Import Prelude CxxStd TlsStream.
Open Scope Z_scope.

(** ** OpenSSL *)

Definition SSL_ERROR_NONE : Z := 0.
Definition SSL_ERROR_WANT_READ : Z := 2.
Definition SSL_ERROR_WANT_WRITE : Z := 3.
Definition SSL_ERROR_ZERO_RETURN : Z := 6.
Definition X509_V_OK : Z := 0.

(** An [SSL] with its two BIOs.  [SSL_read] gives the octets it wrote, none when
    it returns zero or less; [SSL_get_error] is asked right after the call that
    failed; [ERR_get_error] is the text of the error queue's head.  [wbio] is what
    the write BIO holds, [readable] a bound of what can still be read. *)
Class OpenSSL (L : Type) := {
  SSL_set_accept_state : L -> L;
  SSL_set_connect_state : L -> L;
  SSL_set_alpn_protos : bytes -> L -> L;
  SSL_is_init_finished : L -> bool;
  SSL_do_handshake : L -> Z * L;
  SSL_read : nat -> L -> bytes * L;
  SSL_write : bytes -> Z -> L -> Z * L;
  SSL_shutdown : L -> L;
  SSL_get_error : L -> Z;
  ERR_get_error : L -> option bytes;
  SSL_get_servername : L -> option bytes;
  SSL_get0_alpn_selected : L -> option bytes;
  SSL_get_peer_certificate : L -> bool;
  SSL_get_verify_result : L -> Z;
  X509_verify_cert_error_string : Z -> bytes;
  BIO_write : bytes -> L -> L;
  BIO_read : nat -> L -> bytes * L;
  wbio : L -> bytes;
  readable : L -> nat;
  BIO_read_law n l : fst (BIO_read n l) = take n (wbio l) /\ wbio (snd (BIO_read n l)) = drop n (wbio l);
  SSL_read_law n l : fst (SSL_read n l) <> [] -> (readable (snd (SSL_read n l)) < readable l)%nat
}.

Section provider.
Context {L : Type} `{!OpenSSL L}.

(** ** State *)

(** [TlsPolicy], as far as a connection uses it, and the side. *)
Record Policy : Type := mkPolicy {
  isServer : bool;
  hostname : bytes;
  alpn : list bytes;
  validate : bool
}.

Record OpenSSLProvider : Type := mkProvider {
  policy_ : Policy;
  ssl_ : L;
  peerClosed_ : bool;
  sniName_ : bytes;
  alpn_ : bytes;
  lastError_ : bytes
}.

Definition newProvider (pol : Policy) (l : L) : OpenSSLProvider := mkProvider pol l false [] [] [].

Definition set_ssl (l : L) (p : OpenSSLProvider) : OpenSSLProvider :=
  mkProvider (policy_ p) l (peerClosed_ p) (sniName_ p) (alpn_ p) (lastError_ p).
Definition set_closed (p : OpenSSLProvider) : OpenSSLProvider :=
  mkProvider (policy_ p) (ssl_ p) true (sniName_ p) (alpn_ p) (lastError_ p).
Definition set_names (s a : bytes) (p : OpenSSLProvider) : OpenSSLProvider :=
  mkProvider (policy_ p) (ssl_ p) (peerClosed_ p) s a (lastError_ p).
Definition set_error (e : bytes) (p : OpenSSLProvider) : OpenSSLProvider :=
  mkProvider (policy_ p) (ssl_ p) (peerClosed_ p) (sniName_ p) (alpn_ p) e.

Definition sslError (prefix : string) (l : L) : bytes :=
  match ERR_get_error l with Some text => str prefix ++ str ": " ++ text | None => str prefix end.

(** ** The loops over the BIO and the connection *)

Definition chunk : nat := Z.to_nat 16384.

(** Every round but the last takes an octet at least. *)
Fixpoint flushLoop (fuel : nat) (out : bytes) (l : L) : bytes * L :=
  match fuel with
  | O => (out, l)
  | S fuel' =>
      let '(tmp, l) := BIO_read chunk l in
      match tmp with [] => (out, l) | _ => flushLoop fuel' (out ++ tmp) l end
  end.

Definition flushWbio (l : L) : bytes * L := flushLoop (S (length (wbio l))) [] l.

Fixpoint drainLoop (fuel : nat) (out : bytes) (l : L) : bytes * L :=
  match fuel with
  | O => (out, l)
  | S fuel' =>
      let '(tmp, l) := SSL_read chunk l in
      match tmp with [] => (out, l) | _ => drainLoop fuel' (out ++ tmp) l end
  end.

Definition drainPlaintext (p : OpenSSLProvider) : bytes * OpenSSLProvider :=
  let '(out, l) := drainLoop (S (readable (ssl_ p))) [] (ssl_ p) in
  let p := set_ssl l p in
  let err := SSL_get_error l in
  (out,
   if err =? SSL_ERROR_ZERO_RETURN then set_closed p
   else if negb (err =? SSL_ERROR_WANT_READ) && negb (err =? SSL_ERROR_WANT_WRITE) && negb (err =? SSL_ERROR_NONE) then
     set_error (sslError "SSL_read failed" l) p
   else p).

(** ** The methods *)

(** The protocols a client offers, as they are sent: each behind its length,
    which is cast to a [char]. *)
Definition alpnWire (protos : list bytes) : bytes :=
  concat (map (fun p => z2b (size p) :: p) protos).

Definition ssl_startHandshake (p : OpenSSLProvider) : bytes * OpenSSLProvider :=
  let pol := policy_ p in
  if isServer pol then ([], set_ssl (SSL_set_accept_state (ssl_ p)) p)
  else
    let l := match alpn pol with [] => ssl_ p | protos => SSL_set_alpn_protos (alpnWire protos) (ssl_ p) end in
    let '(_, l) := SSL_do_handshake (SSL_set_connect_state l) in
    let '(enc, l) := flushWbio l in
    (enc, set_ssl l p).

Definition finishHandshake (p : OpenSSLProvider) : bool * OpenSSLProvider :=
  let l := ssl_ p in
  let sni := match SSL_get_servername l with
             | Some s => s
             | None => if isServer (policy_ p) then sniName_ p else hostname (policy_ p)
             end in
  let a := match SSL_get0_alpn_selected l with Some a => a | None => alpn_ p end in
  let p := set_names sni a p in
  if validate (policy_ p) then
    if negb (SSL_get_peer_certificate l) then (false, set_error (str "No peer certificate") p)
    else
      let result := SSL_get_verify_result l in
      if negb (result =? X509_V_OK) then
        (false, set_error (str "Certificate verification failed: " ++ X509_verify_cert_error_string result) p)
      else (true, p)
  else (true, p).

Definition ssl_feedEncrypted (data : bytes) (p : OpenSSLProvider) : FeedResult * bytes * bytes * OpenSSLProvider :=
  let l := BIO_write data (ssl_ p) in
  if negb (SSL_is_init_finished l) then
    let '(ret, l) := SSL_do_handshake l in
    let '(enc, l) := flushWbio l in
    let p := set_ssl l p in
    let err := SSL_get_error l in
    if ret =? 1 then
      let '(ok, p) := finishHandshake p in
      if negb ok then (FError, [], enc, p)
      else let '(plain, p) := drainPlaintext p in (HandshakeDone, plain, enc, p)
    else if negb (err =? SSL_ERROR_WANT_READ) && negb (err =? SSL_ERROR_WANT_WRITE) then (FError, [], enc, set_error (sslError "TLS handshake failed" l) p)
    else (FOk, [], enc, p)
  else
    let '(plain, p) := drainPlaintext (set_ssl l p) in
    let '(enc, l) := flushWbio (ssl_ p) in
    let p := set_ssl l p in
    (match lastError_ p with [] => if peerClosed_ p then FEof else FOk | _ => FError end, plain, enc, p).

(** [static_cast<int>] *)
Definition int_of (n : Z) : Z := let m := n mod 2 ^ 32 in if m <? 2 ^ 31 then m else m - 2 ^ 32.

Definition ssl_sendPlain (data : bytes) (p : OpenSSLProvider) : Z * bytes * OpenSSLProvider :=
  let '(n, l) := SSL_write data (int_of (size data)) (ssl_ p) in
  if n <=? 0 then
    let err := SSL_get_error l in
    if (err =? SSL_ERROR_WANT_WRITE) || (err =? SSL_ERROR_WANT_READ) then (0, [], set_ssl l p)
    else (-1, [], set_error (sslError "SSL_write failed" l) (set_ssl l p))
  else let '(enc, l) := flushWbio l in (n, enc, set_ssl l p).

Definition ssl_close (p : OpenSSLProvider) : bytes * OpenSSLProvider :=
  if SSL_is_init_finished (ssl_ p) then
    let '(enc, l) := flushWbio (SSL_shutdown (ssl_ p)) in (enc, set_ssl l p)
  else ([], p).

#[export] Instance openssl_provider : TlsProvider OpenSSLProvider := {
  startHandshake := ssl_startHandshake;
  feedEncrypted := ssl_feedEncrypted;
  sendPlain := ssl_sendPlain;
  closeProvider := ssl_close;
  lastError := lastError_
}.

(** *** Both loops end, with nothing left *)

Lemma flushLoop_all (fuel : nat) (out : bytes) (l : L) :
  (length (wbio l) < fuel)%nat ->
  fst (flushLoop fuel out l) = out ++ wbio l /\ wbio (snd (flushLoop fuel out l)) = [].
Proof.
  revert out l. induction fuel as [| fuel IH]; intros out l Hf; [lia |]. cbn [flushLoop].
  destruct (BIO_read_law chunk l) as [Ht Hd]. destruct (BIO_read chunk l) as [tmp l1]. cbn [fst snd] in *.
  assert (Hc : (0 < chunk)%nat) by (unfold chunk; lia).
  destruct tmp as [| b tmp].
  - assert (Hw : wbio l = []) by (destruct (wbio l); [done |]; destruct chunk; [lia | done]).
    cbn. by rewrite Hd, Hw, app_nil_r, drop_nil.
  - destruct (IH (out ++ b :: tmp) l1) as [E1 E2].
    { rewrite Hd, length_drop. destruct (wbio l) as [| x wl] eqn:Hw; [by rewrite take_nil in Ht |].
      cbn [length] in *. lia. }
    rewrite E1, E2. split; [| done]. by rewrite <- app_assoc, Ht, Hd, take_drop.
Qed.

Lemma flushWbio_all (l : L) : fst (flushWbio l) = wbio l /\ wbio (snd (flushWbio l)) = [].
Proof. unfold flushWbio. apply (flushLoop_all _ []). lia. Qed.

(** The loop ends with a read that gives nothing. *)
Lemma drainLoop_ends (fuel : nat) (out : bytes) (l : L) :
  (readable l < fuel)%nat -> exists l0, SSL_read chunk l0 = ([], snd (drainLoop fuel out l)).
Proof.
  revert out l. induction fuel as [| fuel IH]; intros out l Hf; [lia |]. cbn [drainLoop].
  pose proof (SSL_read_law chunk l) as Hlaw. destruct (SSL_read chunk l) as [tmp l1] eqn:E. cbn [fst snd] in *.
  destruct tmp as [| b tmp]; [by exists l |]. apply IH. specialize (Hlaw ltac:(done)). lia.
Qed.
End provider.

(** ** Selection of a protocol *)

Section selection.

(** The walk over the client's list; [None] is the end of the walk. *)
Fixpoint offered (fuel : nat) (proto : bytes) (cur : bytes) : option bytes :=
  match fuel with
  | O => None
  | S fuel' =>
      match cur with
      | [] => None
      | b :: cur =>
          let plen := b2z b in
          if size cur <? plen then None
          else if (size proto =? plen) && bool_decide (take (Z.to_nat plen) cur = proto) then Some (take (Z.to_nat plen) cur)
          else offered fuel' proto (drop (Z.to_nat plen) cur)
      end
  end.

(** [alpnSelectCb]: [None] is [SSL_TLSEXT_ERR_NOACK]. *)
Fixpoint alpnSelectCb (protos : list bytes) (inn : bytes) : option bytes :=
  match protos with
  | [] => None
  | proto :: protos' =>
      match offered (S (length inn)) proto inn with
      | Some out => Some out
      | None => alpnSelectCb protos' inn
      end
  end.
End selection.

Lemma offered_wire (fuel : nat) (proto : bytes) (client : list bytes) :
  Forall (fun p => size p < 256) client -> (length (alpnWire client) < fuel)%nat ->
  offered fuel proto (alpnWire client) = if decide (proto ∈ client) then Some proto else None.
Proof.
  intros Hc. revert fuel. induction Hc as [| p client Hp Hc IH]; intros [| fuel] Hf; [cbn in Hf; lia | done | lia |].
  change (alpnWire (p :: client)) with (z2b (size p) :: p ++ alpnWire client) in *. cbn [offered].
  pose proof (size_nonneg p). rewrite b2z_z2b_small by lia.
  destruct (Z.ltb_spec (size (p ++ alpnWire client)) (size p)) as [Hlt |].
  { rewrite size_app in Hlt. pose proof (size_nonneg (alpnWire client)). lia. }
  assert (Ht : take (Z.to_nat (size p)) (p ++ alpnWire client) = p) by (unfold size; by rewrite Nat2Z.id, take_app_length).
  assert (Hd : drop (Z.to_nat (size p)) (p ++ alpnWire client) = alpnWire client) by (unfold size; by rewrite Nat2Z.id, drop_app_length).
  rewrite Ht, Hd. destruct (decide (p = proto)) as [<- | Hne].
  - rewrite Z.eqb_refl, bool_decide_eq_true_2 by done. cbn [andb]. by rewrite decide_True by by left.
  - rewrite (bool_decide_eq_false_2 (p = proto)) by done. rewrite andb_false_r.
    rewrite IH by (cbn [length] in Hf; rewrite length_app in Hf; lia).
    destruct (decide (proto ∈ client)) as [Hin | Hin]; [by rewrite decide_True by by right |].
    rewrite decide_False; [done |]. intros [<- | H']%elem_of_cons; done.
Qed.

(** The server's selection is its first protocol that the client offers,
    whatever both lists are, when no name is longer than 255 octets: what a client
    sends is what the server walks over. *)
Theorem alpn_negotiated (server client : list bytes) (Hsizes : Forall (fun p => size p < 256) client) :
  alpnSelectCb server (alpnWire client) = head (filter (fun p => p ∈ client) server).
Proof.
  induction server as [| proto server IH]; [done |]. cbn [alpnSelectCb]. rewrite offered_wire by (done || lia).
  destruct (decide (proto ∈ client)) as [Hin | Hin].
  - by rewrite filter_cons_True.
  - by rewrite filter_cons_False.
Qed.

Lemma alpn_negotiated_witness :
  alpnSelectCb [str "h2"; str "http/1.1"] (alpnWire [str "spdy/3"; str "http/1.1"]) = Some (str "http/1.1").
Proof.
  rewrite (alpn_negotiated [str "h2"; str "http/1.1"] [str "spdy/3"; str "http/1.1"]) by by repeat constructor.
  reflexivity.
Defined.

(** ** The provider keeps the promise of its interface *)

(** [ssl_session p q c d e c' d' e']: as [session], for two connections whose
    handshake is over, with the octets outside their BIOs.  [SSL_read] gives the
    next plaintext, or nothing with an error: [SSL_ERROR_WANT_READ], when all that
    came was decrypted, which is all when nothing is on the way, or [SSL_ERROR_ZERO_RETURN], behind everything when the peer
    has shut down.  The write BIO grows by what a call has to send. *)
Class OpenSSLSession (L : Type) `{!OpenSSL L} := {
  ssl_session : L -> L -> bytes -> bytes -> bool -> bytes -> bytes -> bool -> Prop;
  ssl_sym p q c d e c' d' e' : ssl_session p q c d e c' d' e' -> ssl_session q p c' d' e' c d e;
  ssl_finished p q c d e c' d' e' : ssl_session p q c d e c' d' e' -> SSL_is_init_finished p = true;
  ssl_bio_write p q c d e c1 c2 d' e' :
    ssl_session p q c d e (c1 ++ c2) d' e' ->
    ssl_session (BIO_write c1 p) q c d e c2 d' e' /\ wbio (BIO_write c1 p) = wbio p;
  ssl_bio_read p q c d e c' d' e' n :
    ssl_session p q c d e c' d' e' ->
    ssl_session (snd (BIO_read n p)) q (c ++ fst (BIO_read n p)) d e c' d' e';
  ssl_read p q c d e c' d' e' n :
    ssl_session p q c d e c' d' e' ->
    let '(plain, p') := SSL_read n p in
    exists d2, d' = plain ++ d2 /\ ssl_session p' q c d e c' d2 e' /\ (e = true -> wbio p' = wbio p)
    /\ (plain = [] -> (0 < n)%nat ->
        (SSL_get_error p' = SSL_ERROR_WANT_READ /\ (c' = [] -> wbio q = [] -> d2 = []))
        \/ (SSL_get_error p' = SSL_ERROR_ZERO_RETURN /\ e' = true /\ d2 = []));
  ssl_write p q c d c' d' e' x :
    ssl_session p q c d false c' d' e' -> x <> [] -> size x < 2 ^ 31 ->
    let '(n, p') := SSL_write x (size x) p in
    0 < n <= size x /\ wbio p' <> [] /\ ssl_session p' q c (d ++ take (Z.to_nat n) x) false c' d' e';
  ssl_shutdown p q c d c' d' e' :
    ssl_session p q c d false c' d' e' -> ssl_session (SSL_shutdown p) q c d true c' d' e'
}.

Section promise.
Context {L : Type} `{!OpenSSL L, !OpenSSLSession L}.
Implicit Types (p q : @OpenSSLProvider L).

(** Between two calls nothing is left in the BIO, nor undecrypted. *)
Definition settled p (c' d' : bytes) (e' : bool) : Prop :=
  wbio (ssl_ p) = [] /\ lastError_ p = [] /\ (c' = [] -> d' = []) /\ (peerClosed_ p = true -> e' = true /\ d' = []).

Definition openssl_session p q (c d : bytes) (e : bool) (c' d' : bytes) (e' : bool) : Prop :=
  ssl_session (ssl_ p) (ssl_ q) c d e c' d' e' /\ settled p c' d' e' /\ settled q c d e.

Lemma flushLoop_session (fuel : nat) (o : bytes) (l lq : L) c d e c' d' e' :
  ssl_session l lq (c ++ o) d e c' d' e' ->
  ssl_session (snd (flushLoop fuel o l)) lq (c ++ fst (flushLoop fuel o l)) d e c' d' e'.
Proof.
  revert o l. induction fuel as [| fuel IH]; intros o l H; [done |]. cbn [flushLoop].
  pose proof (ssl_bio_read _ _ _ _ _ _ _ _ chunk H) as H'. destruct (BIO_read chunk l) as [[| b tmp] l1]; cbn [fst snd] in *.
  - rewrite app_nil_r in H'. done.
  - rewrite <- app_assoc in H'. by apply IH.
Qed.

Lemma flushWbio_session (l lq : L) c d e c' d' e' :
  ssl_session l lq c d e c' d' e' ->
  ssl_session (snd (flushWbio l)) lq (c ++ wbio l) d e c' d' e'
  /\ fst (flushWbio l) = wbio l /\ wbio (snd (flushWbio l)) = [].
Proof.
  intros H. destruct (flushWbio_all l) as [E1 E2]. split; [| done]. rewrite <- E1.
  apply (flushLoop_session _ []). by rewrite app_nil_r.
Qed.

Lemma drainLoop_session (fuel : nat) (o : bytes) (l lq : L) c d e c' d' e' :
  (readable l < fuel)%nat -> ssl_session l lq c d e c' d' e' ->
  exists plain d2, fst (drainLoop fuel o l) = o ++ plain /\ d' = plain ++ d2
  /\ ssl_session (snd (drainLoop fuel o l)) lq c d e c' d2 e' /\ (e = true -> wbio (snd (drainLoop fuel o l)) = wbio l)
  /\ ((SSL_get_error (snd (drainLoop fuel o l)) = SSL_ERROR_WANT_READ /\ (c' = [] -> wbio lq = [] -> d2 = []))
      \/ (SSL_get_error (snd (drainLoop fuel o l)) = SSL_ERROR_ZERO_RETURN /\ e' = true /\ d2 = [])).
Proof.
  revert o l d'. induction fuel as [| fuel IH]; intros o l d' Hf H; [lia |]. cbn [drainLoop].
  pose proof (SSL_read_law chunk l) as Hlaw. pose proof (ssl_read _ _ _ _ _ _ _ _ chunk H) as Hr.
  destruct (SSL_read chunk l) as [[| b tmp] l1]; cbn [fst snd] in *; destruct Hr as (d2 & -> & H1 & Hw & Hend).
  - exists [], d2. rewrite app_nil_r. split_and!; try done. apply Hend; [done |]. unfold chunk. lia.
  - destruct (IH (o ++ b :: tmp) l1 d2) as (plain & d3 & E1 & -> & H2 & Hw2 & Hend2); [specialize (Hlaw ltac:(done)); lia | done |].
    exists ((b :: tmp) ++ plain), d3. rewrite E1, <- !app_assoc. split_and!; try done. intros E. by rewrite Hw2, Hw.
Qed.

Lemma openssl_feed p q c d e c1 c2 d' e' :
  openssl_session p q c d e (c1 ++ c2) d' e' -> c1 <> [] ->
  let '(r, plain, enc, p') := ssl_feedEncrypted c1 p in
  exists d2, d' = plain ++ d2 /\ openssl_session p' q (c ++ enc) d e c2 d2 e'
  /\ (r = FOk \/ (r = FEof /\ e' = true /\ d2 = [])) /\ (e = true -> enc = []).
Proof.
  intros (Hs & (Hw & Hl & Hem & Hcl) & Hq) _. destruct (ssl_bio_write _ _ _ _ _ _ _ _ _ Hs) as [H1 Hw1].
  unfold ssl_feedEncrypted. rewrite (ssl_finished _ _ _ _ _ _ _ _ H1). cbn [negb].
  unfold drainPlaintext. cbn [ssl_ set_ssl].
  destruct (drainLoop_session (S (readable (BIO_write c1 (ssl_ p)))) [] _ _ _ _ _ _ _ _ (Nat.lt_succ_diag_r _) H1)
    as (plain & d2 & E1 & -> & H2 & Hw2 & Hend).
  destruct (drainLoop _ [] (BIO_write c1 (ssl_ p))) as [o l]. cbn [fst snd app] in *. subst o.
  set (p1 := if SSL_get_error l =? SSL_ERROR_ZERO_RETURN then _ else _).
  assert (Hp1 : ssl_ p1 = l /\ lastError_ p1 = [] /\ (c2 = [] -> d2 = []) /\ (peerClosed_ p1 = true -> e' = true /\ d2 = [])).
  { assert (Hold : peerClosed_ p = true -> e' = true /\ d2 = []).
    { intros E. destruct (Hcl E) as [? Hd]. split; [done |]. by apply app_eq_nil in Hd as [_ ->]. }
    destruct Hq as (Q1 & _). unfold p1. destruct Hend as [[-> Hd] | (-> & -> & ->)]; cbn; [split_and!; auto | done]. }
  clearbody p1. destruct Hp1 as (Hssl & Herr & Hd2 & Hc2).
  destruct (flushWbio_session l (ssl_ q) _ _ _ _ _ _ H2) as (H3 & E2 & E3). rewrite Hssl.
  destruct (flushWbio l) as [enc l3]. cbn [fst snd] in *. subst enc. exists d2. split; [done |].
  split; [| split].
  - split; [done |]. split; [by split_and! |]. destruct Hq as (Q1 & Q2 & Q3 & Q4). split_and!; try done.
    intros [-> _]%app_eq_nil. by apply Q3.
  - cbn [lastError_ set_ssl peerClosed_]. rewrite Herr. destruct (peerClosed_ p1) eqn:E; [right | by left].
    by destruct (Hc2 eq_refl).
  - intros E. by rewrite (Hw2 E), Hw1, Hw.
Qed.

Lemma openssl_send p q c d c' d' e' x :
  openssl_session p q c d false c' d' e' -> x <> [] -> size x < 2 ^ 31 ->
  let '(n, enc, p') := ssl_sendPlain x p in
  0 < n <= size x /\ openssl_session p' q (c ++ enc) (d ++ take (Z.to_nat n) x) false c' d' e'.
Proof.
  intros (Hs & (Hw & Hl & Hem & Hcl) & (Q1 & Q2 & Q3 & Q4)) Hx Hsize. unfold ssl_sendPlain.
  assert (Hint : int_of (size x) = size x).
  { unfold int_of. pose proof (size_nonneg x) as Hpos. cbv zeta. rewrite (Z.mod_small (size x) (2 ^ 32)) by lia.
    destruct (Z.ltb_spec (size x) (2 ^ 31)); [done | lia]. }
  rewrite Hint. pose proof (ssl_write _ _ _ _ _ _ _ x Hs Hx Hsize) as Hwr.
  destruct (SSL_write x (size x) (ssl_ p)) as [n l]. destruct Hwr as (Hn & Hne & H1).
  destruct (Z.leb_spec n 0); [lia |]. destruct (flushWbio_session l _ _ _ _ _ _ _ H1) as (H2 & E2 & E3).
  destruct (flushWbio l) as [enc l2]. cbn [fst snd] in *. subst enc. split; [done |].
  split; [done |]. split; [by split_and! |]. split_and!; try done.
  - intros [_ E]%app_eq_nil. done.
  - intros E. by destruct (Q4 E).
Qed.

Lemma openssl_close p q c d c' d' e' :
  openssl_session p q c d false c' d' e' ->
  let '(enc, p') := ssl_close p in openssl_session p' q (c ++ enc) d true c' d' e'.
Proof.
  intros (Hs & (Hw & Hl & Hem & Hcl) & (Q1 & Q2 & Q3 & Q4)). unfold ssl_close.
  rewrite (ssl_finished _ _ _ _ _ _ _ _ Hs).
  destruct (flushWbio_session _ _ _ _ _ _ _ _ (ssl_shutdown _ _ _ _ _ _ _ Hs)) as (H2 & E2 & E3).
  destruct (flushWbio (SSL_shutdown (ssl_ p))) as [enc l2]. cbn [fst snd] in *. subst enc.
  split; [done |]. split; [by split_and! |]. split_and!; try done.
  - intros [-> _]%app_eq_nil. by apply Q3.
  - intros E. by destruct (Q4 E).
Qed.

#[export, refine] Instance openssl_tls_session : TlsSession OpenSSLProvider := { session := openssl_session }.
Proof.
  - intros p q c d e c' d' e' (H1 & H2 & H3). split; [by apply ssl_sym | done].
  - intros p q c d e d' e' (_ & (_ & _ & Hem & _) & _). by apply Hem.
  - exact openssl_send.
  - exact openssl_feed.
  - exact openssl_close.
Defined.

(** C10: Over OpenSSL the streams of both ends carry plaintext both ways: what
    OpenSSL promises of two connections is what the interface of a provider
    promises, since after every call the provider has decrypted all that came and
    handed over all that is to be sent.  The condition on the writes to the
    connection is that of the streams. *)
Theorem openssl_streams (pol pol' : Policy) (l l' : L) (ts : list (bool * Turn))
    (Hs : ssl_session l l' [] [] false [] [] false) (Hw : wbio l = [] /\ wbio l' = [])
    (Hts : Forall (fun t => small (snd t)) ts) (Hap : apart ts (start (newProvider pol l) (newProvider pol' l')) = true) :
  let w := run ts (start (newProvider pol l) (newProvider pol' l')) in flows w /\ flows (swap w).
Proof.
  assert (H : session (newProvider pol l) (newProvider pol' l') [] [] false [] [] false).
  { destruct Hw. split; [done |]. by split; split_and!. }
  assert (Hi : inv (run ts (start (newProvider pol l) (newProvider pol' l')))) by by apply tls_run_inv; [| | apply start_inv].
  split; [by apply inv_flows | by apply inv_flows, inv_swap].
Qed.
End promise.

(** ** An OpenSSL that does not encrypt *)

Record Toy : Type := mkToy { toy_in : bytes; toy_out : bytes }.

#[local, refine] Instance toySSL : OpenSSL Toy := {
  SSL_set_accept_state l := l;
  SSL_set_connect_state l := l;
  SSL_set_alpn_protos _ l := l;
  SSL_is_init_finished l := true;
  SSL_do_handshake l := (1, l);
  SSL_read n l := (take n (toy_in l), mkToy (drop n (toy_in l)) (toy_out l));
  SSL_write x n l := (n, mkToy (toy_in l) (toy_out l ++ take (Z.to_nat n) x));
  SSL_shutdown l := l;
  SSL_get_error l := SSL_ERROR_WANT_READ;
  ERR_get_error l := None;
  SSL_get_servername l := None;
  SSL_get0_alpn_selected l := None;
  SSL_get_peer_certificate l := true;
  SSL_get_verify_result l := 0;
  X509_verify_cert_error_string r := [];
  BIO_write c l := mkToy (toy_in l ++ c) (toy_out l);
  BIO_read n l := (take n (toy_out l), mkToy (toy_in l) (drop n (toy_out l)));
  wbio := toy_out;
  readable l := length (toy_in l)
}.
Proof.
  - done.
  - intros n [i o] H. cbn in *. rewrite length_drop. destruct n, i; cbn in *; try done. lia.
Defined.

#[local, refine] Instance toySession : OpenSSLSession Toy := {
  ssl_session p q c d e c' d' e' := d = toy_in q ++ c ++ toy_out p /\ d' = toy_in p ++ c' ++ toy_out q
}.
Proof.
  - by intros p q c d e c' d' e' [-> ->].
  - done.
  - intros p q c d e c1 c2 d' e' [-> ->]. cbn. by rewrite <- !app_assoc.
  - intros p q c d e c' d' e' n [-> ->].
    change (BIO_read n p) with (take n (toy_out p), mkToy (toy_in p) (drop n (toy_out p))).
    cbn [fst snd toy_in toy_out]. by rewrite <- !app_assoc, take_drop.
  - intros p q c d e c' d' e' n [-> ->]. cbn. exists (drop n (toy_in p) ++ c' ++ toy_out q).
    split; [by rewrite (app_assoc (take _ _)), take_drop |]. split; [done |]. split; [done |]. intros Ht Hn. left. split; [done |].
    intros -> ->. destruct (toy_in p); [by rewrite drop_nil | destruct n; [lia | done]].
  - intros p q c d c' d' e' x [-> ->] Hx Hs. cbn. pose proof (size_nonneg x).
    assert (size x <> 0) by (unfold size; destruct x; [done | cbn; lia]). unfold size. rewrite Nat2Z.id, firstn_all.
    split; [unfold size in *; lia |]. split; [intros [_ E]%app_eq_nil; by subst x |]. by rewrite <- !app_assoc.
  - done.
Defined.

Lemma openssl_streams_witness :
  let w := run [(false, WriteCall (str "hi")); (false, WriteTurn); (false, SendTurn Writer 1); (true, ReadCall 4); (true, ReadTurn 1); (true, ReadTurn 1)]
    (start (newProvider (mkPolicy true [] [] false) (mkToy [] [])) (newProvider (mkPolicy false [] [] false) (mkToy [] []))) in
  got (here w) = str "h" /\ flows (swap w).
Proof.
  intros w. split; [by vm_compute |].
  refine (proj2 (openssl_streams (mkPolicy true [] [] false) (mkPolicy false [] [] false) (mkToy [] []) (mkToy [] []) _ _ _ _ _));
    [done | done | by repeat constructor | by vm_compute].
Defined.

(** A write of 2^31 octets reaches [SSL_write] with a negative length. *)
Example ssl_write_length : int_of (2 ^ 31) = - 2 ^ 31.
Proof. reflexivity. Qed.
