(* ===== verification/TcpServer.v ===== *)
(** Accepting and opening connections: src/src/TcpServer.cc and the [Connector]
    of src/src/TcpConnection.cc.

    Everything of a server runs on its scheduler; a turn is what happens between
    two suspensions.  The answers of [accept4] and [connect] are arguments; a
    listening socket that was shut down accepts nothing more. *)

From Stdlib Require Import ZArith Lia String.
From stdpp Require Import base numbers option list gmap.
From S2P Require Import Prelude.
Open Scope Z_scope.

(** ** The adapters *)

Definition EINTR : Z := 4.
Definition EAGAIN : Z := 11.
Definition EISCONN : Z := 106.
Definition EALREADY : Z := 114.
Definition EINPROGRESS : Z := 115.

(** [Channel::IoStatus], as far as they give it. *)
Inductive IoStatus : Type := Success | NeedRead | NeedWrite | Retry | Error.

(** [Acceptor]: [accept4] gives a descriptor, or [errno]. *)
Definition acceptor (answer : Z + Z) : option Z * IoStatus :=
  match answer with
  | inl fd => (Some fd, Success)
  | inr errno =>
      (None, if errno =? EAGAIN then NeedRead else if errno =? EINTR then Retry else Error)
  end.

Record Connector : Type := mkConnector { connecting_ : bool; savedErrno_ : Z }.

(** What [connector] does next: [ret] is what [connect] returns with [errno], and
    [soerror] the pending error of the socket.  The flag tells what becomes of the
    channel's interest in writing. *)
Definition connector (ret errno soerror : Z) (c : Connector) : IoStatus * option bool * Connector :=
  if connecting_ c then
    if soerror =? 0 then (Success, Some false, c)
    else if (soerror =? EINPROGRESS) || (soerror =? EALREADY) then (NeedWrite, None, c)
    else (Error, None, mkConnector (connecting_ c) soerror)
  else if ret =? 0 then (Success, Some false, c)
  else if errno =? EISCONN then (Success, Some false, c)
  else if (errno =? EINPROGRESS) || (errno =? EALREADY) then (NeedWrite, Some true, mkConnector true (savedErrno_ c))
  else if errno =? EINTR then (Retry, None, c)
  else (Error, None, mkConnector (connecting_ c) errno).

(** ** The server *)

(** A connection that was accepted: whether its coroutine is to run, runs the
    handler, is back from it and on its way to the scheduler, or is over; how often
    [stop] shut it down. *)
Inductive HandlerPc : Type := HSpawned | HRunning | HReturned | HEnded.

#[export] Instance handler_eq_dec : EqDecision HandlerPc.
Proof. solve_decision. Defined.

Record Conn : Type := mkConn { c_handler : HandlerPc; c_shut : nat }.

(** The coroutine of [start]: suspended in [performRead], woken there, cancelled
    or not, returned, threw. *)
Inductive AcceptPc : Type := ANone | AWaiting | AWoken (canceled : bool) | AEnded | AThrew (what : string).

(** A coroutine in [stop]: with the connections that are left to shut down,
    waiting for the future, returned. *)
Inductive StopPc : Type := SLoop (l : list nat) | SWait | SReturned.

(** [conns] are the connections that were accepted, [connSet_] is the set of them
    [connSetPtr_] leads to.  [listenChannel_] is the channel's interest, once there is one.  [startSet] and
    [stopSet] count how often the promises were set; setting one again throws.
    [fault] is the use of a null channel. *)
Record Server : Type := mkServer {
  started_ : bool;
  stopped_ : bool;
  startSet : nat;
  stopSet : nat;
  listenChannel_ : option bool;
  acceptLoop_ : AcceptPc;
  conns : list Conn;
  connSet_ : gset nat;
  stops : list StopPc;
  fault : bool
}.

Definition newServer : Server := mkServer false false 0 0 None ANone [] ∅ [] false.

Definition set_accept (a : AcceptPc) (s : Server) : Server :=
  mkServer (started_ s) (stopped_ s) (startSet s) (stopSet s) (listenChannel_ s) a (conns s) (connSet_ s) (stops s) (fault s).
Definition set_channel (c : option bool) (s : Server) : Server :=
  mkServer (started_ s) (stopped_ s) (startSet s) (stopSet s) c (acceptLoop_ s) (conns s) (connSet_ s) (stops s) (fault s).
Definition set_conns (l : list Conn) (s : Server) : Server :=
  mkServer (started_ s) (stopped_ s) (startSet s) (stopSet s) (listenChannel_ s) (acceptLoop_ s) l (connSet_ s) (stops s) (fault s).
Definition set_stops (l : list StopPc) (s : Server) : Server :=
  mkServer (started_ s) (stopped_ s) (startSet s) (stopSet s) (listenChannel_ s) (acceptLoop_ s) (conns s) (connSet_ s) l (fault s).
Definition set_stopped (s : Server) : Server :=
  mkServer (started_ s) true (startSet s) (stopSet s) (listenChannel_ s) (acceptLoop_ s) (conns s) (connSet_ s) (stops s) (fault s).
Definition set_started (s : Server) : Server :=
  mkServer true (stopped_ s) (startSet s) (stopSet s) (listenChannel_ s) (acceptLoop_ s) (conns s) (connSet_ s) (stops s) (fault s).
Definition set_promises (n m : nat) (s : Server) : Server :=
  mkServer (started_ s) (stopped_ s) n m (listenChannel_ s) (acceptLoop_ s) (conns s) (connSet_ s) (stops s) (fault s).
Definition set_fault (s : Server) : Server :=
  mkServer (started_ s) (stopped_ s) (startSet s) (stopSet s) (listenChannel_ s) (acceptLoop_ s) (conns s) (connSet_ s) (stops s) true.

Definition set_connSet (l : gset nat) (s : Server) : Server :=
  mkServer (started_ s) (stopped_ s) (startSet s) (stopSet s) (listenChannel_ s) (acceptLoop_ s) (conns s) l (stops s) (fault s).

(** [connSetPtr_->insert(connPtr)], and its coroutine is spawned. *)
Definition accept (s : Server) : Server :=
  set_connSet ({[length (conns s)]} ∪ connSet_ s) (set_conns (conns s ++ [mkConn HSpawned 0]) s).

(** The end of the loop. *)
Definition leaveLoop (s : Server) : Server :=
  set_accept AEnded (set_promises (startSet s) (S (stopSet s)) (set_channel (Some false) s)).

(** The loop from [performRead] on, with the answers of [accept4] until one
    suspends it; there is none left when [accept4] would block.  A socket that was
    shut down answers with an error. *)
Fixpoint acceptLoop (answers : list (Z + Z)) (s : Server) : Server :=
  if stopped_ s then leaveLoop s
  else
    match answers with
    | [] => set_accept AWaiting s
    | a :: answers' =>
        match acceptor a with
        | (Some fd, _) => acceptLoop answers' (accept s)
        | (None, NeedRead) => set_accept AWaiting s
        | (None, Retry) => acceptLoop answers' s
        | (None, _) => leaveLoop s
        end
    end.

(** [start], up to its first suspension. *)
Definition startCall (listenOk : bool) (s : Server) : Server :=
  if started_ s then s
  else
    let s := set_started s in
    if negb listenOk then set_accept (AThrew "Failed to listen: ") (set_promises (startSet s) (S (stopSet s)) (set_stopped s))
    else
      let s := set_channel (Some true) s in
      let s := set_promises (S (startSet s)) (stopSet s) s in
      if stopped_ s then leaveLoop s else set_accept AWaiting s.

Definition acceptTurn (answers : list (Z + Z)) (s : Server) : Server :=
  match acceptLoop_ s with
  | AWoken true => leaveLoop s
  | AWoken false => if stopped_ s then leaveLoop s else acceptLoop answers s
  | _ => s
  end.

(** [stop], up to the first connection. *)
Definition stopCall (s : Server) : Server :=
  if stopped_ s then set_stops (stops s ++ [SReturned]) s
  else
    let s := set_stopped s in
    match listenChannel_ s with
    | None => set_fault s
    | Some _ =>
        let s := set_channel (Some false) s in
        let s := match acceptLoop_ s with AWaiting => set_accept (AWoken true) s | _ => s end in
        set_stops (stops s ++ [SLoop (elements (connSet_ s))]) s
    end.

Definition stopTurn (j : nat) (s : Server) : Server :=
  match stops s !! j with
  | Some (SLoop (i :: l)) =>
      let s := match conns s !! i with
               | Some c => set_conns (<[i := mkConn (c_handler c) (S (c_shut c))]> (conns s)) s
               | None => s
               end in
      set_stops (<[j := SLoop l]> (stops s)) s
  | Some (SLoop []) => set_stops (<[j := SWait]> (stops s)) s
  | Some SWait => if (0 <? stopSet s)%nat then set_stops (<[j := SReturned]> (stops s)) s else s
  | _ => s
  end.

(** The coroutine of a connection goes on: it begins its handler, comes back from
    it with or without an exception, and, on the scheduler, erases the connection
    from the set. *)
Definition handlerTurn (i : nat) (s : Server) : Server :=
  match conns s !! i with
  | Some c =>
      let to pc := set_conns (<[i := mkConn pc (c_shut c)]> (conns s)) s in
      match c_handler c with
      | HSpawned => to HRunning
      | HRunning => to HReturned
      | HReturned => set_connSet (connSet_ s ∖ {[i]}) (to HEnded)
      | HEnded => s
      end
  | None => s
  end.

(** The listening descriptor is readable. *)
Definition readable (s : Server) : Server :=
  match acceptLoop_ s, listenChannel_ s with AWaiting, Some true => set_accept (AWoken false) s | _, _ => s end.

Inductive Turn : Type :=
| StartCall (listenOk : bool)
| Readable
| AcceptTurn (answers : list (Z + Z))
| StopCall
| StopTurn (j : nat)
| HandlerTurn (i : nat).

Definition turn (t : Turn) (s : Server) : Server :=
  if fault s then s
  else
    match t with
    | StartCall ok => startCall ok s
    | Readable => readable s
    | AcceptTurn answers => acceptTurn answers s
    | StopCall => stopCall s
    | StopTurn j => stopTurn j s
    | HandlerTurn i => handlerTurn i s
    end.

Definition run (ts : list Turn) (s : Server) : Server := foldl (fun s t => turn t s) s ts.

(** ** The invariant *)

Definition over (a : AcceptPc) : bool := match a with AEnded | AThrew _ => true | _ => false end.

(** The coroutine of connection [i] is not over. *)
Definition alive (i : nat) (s : Server) : Prop := exists c, conns s !! i = Some c /\ c_handler c <> HEnded.

Definition shut (i : nat) (s : Server) : Prop := exists c, conns s !! i = Some c /\ (1 <= c_shut c)%nat.

(** The connections that are in the set and were not shut down are in [l]. *)
Definition left_in (l : list nat) (s : Server) : Prop := forall i, i ∈ connSet_ s -> shut i s \/ i ∈ l.

Record inv (s : Server) : Prop := {
  inv_start : startSet s = match acceptLoop_ s with ANone | AThrew _ => 0%nat | _ => 1%nat end;
  inv_stop : stopSet s = if over (acceptLoop_ s) then 1%nat else 0%nat;
  inv_none : started_ s = match acceptLoop_ s with ANone => false | _ => true end;
  inv_threw : forall m, acceptLoop_ s = AThrew m -> conns s = [] /\ stopped_ s = true;
  inv_fresh : acceptLoop_ s = ANone -> conns s = [] /\ stopped_ s = false;
  inv_channel : match acceptLoop_ s with
                | ANone => listenChannel_ s = None
                | AThrew _ => True
                | AWaiting => listenChannel_ s = Some true /\ stopped_ s = false
                | AWoken _ => is_Some (listenChannel_ s) /\ (stopped_ s = false -> listenChannel_ s = Some true)
                | _ => is_Some (listenChannel_ s)
                end;
  inv_conns : forall i, i ∈ connSet_ s <-> alive i s;
  inv_stops : stopped_ s = false -> stops s = [];
  inv_failed : stopped_ s = true -> stops s = [] -> exists m, acceptLoop_ s = AThrew m;
  inv_first : match stops s !! 0%nat with
              | Some (SLoop l) => left_in l s
              | Some SWait => left_in [] s
              | Some SReturned => left_in [] s /\ over (acceptLoop_ s) = true
              | None => True
              end;
  inv_others : forall j p, stops s !! S j = Some p -> p = SReturned
}.

Lemma new_server_inv : inv newServer.
Proof. split; try done. intros i. split; [set_solver | by intros (c & Hc & _)]. Qed.

Lemma leaveLoop_inv (s : Server) :
  inv s -> (exists b, acceptLoop_ s = AWoken b) \/ acceptLoop_ s = AWaiting -> inv (leaveLoop s).
Proof.
  intros [H1 H2 H3 H4 H5 H6 H7 H8 H11 H9 H10] Ha.
  assert (Hn : startSet s = 1%nat /\ stopSet s = 0%nat /\ started_ s = true)
    by (destruct Ha as [[b Ha] | Ha]; rewrite Ha in H1, H2, H3; done).
  destruct Hn as (E1 & E2 & E3). split; try done; cbn.
  - by rewrite E2.
  - by eexists.
  - intros Hs Hn. destruct (H11 Hs Hn) as [m Hm]. destruct Ha as [[b Ha] | Ha]; congruence.
  - destruct (stops s !! 0%nat) as [[] |]; try done. split; [apply H9 | done].
Qed.

(** A connection is accepted. *)
Lemma accepted_inv (s : Server) :
  inv s -> stopped_ s = false -> (exists b, acceptLoop_ s = AWoken b) -> inv (accept s).
Proof.
  intros [H1 H2 H3 H4 H5 H6 H7 H8 H11 H9 H10] Hs [b Ha]. split; try done; cbn; try congruence.
  - intros i. unfold alive. cbn. rewrite elem_of_union, elem_of_singleton, H7. split.
    + intros [-> | (c & Hi & Hc)]; [eexists; rewrite list_lookup_middle by done; by split |].
      exists c. split; [by apply lookup_app_l_Some | done].
    + intros (c & [Hi | [Hi Hc]]%lookup_app_Some & Hne); [by right; exists c |].
      apply list_lookup_singleton_Some in Hc as [Hc _]. left. lia.
  - by rewrite (H8 Hs).
Qed.

Lemma waiting_inv (s : Server) :
  inv s -> stopped_ s = false -> listenChannel_ s = Some true -> (exists b, acceptLoop_ s = AWoken b) -> inv (set_accept AWaiting s).
Proof.
  intros [H1 H2 H3 H4 H5 H6 H7 H8 H11 H9 H10] Hs Hc [b Ha]. rewrite Ha in *. split; try done; cbn; congruence.
Qed.

Lemma acceptLoop_inv (answers : list (Z + Z)) (s : Server) :
  inv s -> listenChannel_ s = Some true -> (exists b, acceptLoop_ s = AWoken b) -> inv (acceptLoop answers s).
Proof.
  revert s. induction answers as [| a answers IH]; intros s H Hc Ha; cbn [acceptLoop];
    (destruct (stopped_ s) eqn:Hs; [by apply leaveLoop_inv; [| left] |]); [by apply waiting_inv |].
  destruct a as [fd | errno]; cbn [acceptor].
  - apply IH; [by apply accepted_inv | done | done].
  - destruct (errno =? EAGAIN); [by apply waiting_inv |]. destruct (errno =? EINTR); [by apply IH |].
    by apply leaveLoop_inv; [| left].
Qed.

(** *** Every turn keeps it *)

Lemma startCall_inv (ok : bool) (s : Server) : inv s -> inv (startCall ok s).
Proof.
  intros H. unfold startCall. destruct (started_ s) eqn:Hst; [done |].
  pose proof H as [H1 H2 H3 H4 H5 H6 H7 H8 H11 H9 H10]. rewrite Hst in H3.
  destruct (acceptLoop_ s) eqn:Ha; try done. destruct (H5 eq_refl) as [Hc Hs]. pose proof (H8 Hs) as Hsl.
  destruct ok; cbn [negb].
  - cbn [stopped_ set_promises set_channel set_started]. rewrite Hs. split; cbn; rewrite ?H1, ?H2, ?Hsl; try done; congruence.
  - split; cbn; rewrite ?H1, ?H2, ?Hsl; try done; try congruence. intros _ _. by eexists.
Qed.

Lemma acceptTurn_inv (answers : list (Z + Z)) (s : Server) : inv s -> inv (acceptTurn answers s).
Proof.
  intros H. unfold acceptTurn. destruct (acceptLoop_ s) as [| | [] | |] eqn:Ha; try done.
  - apply leaveLoop_inv; [done | left; by eexists].
  - destruct (stopped_ s) eqn:Hs; [apply leaveLoop_inv; [done | left; by eexists] |].
    pose proof (inv_channel _ H) as Hc. rewrite Ha in Hc. apply acceptLoop_inv; [done | by apply Hc | by eexists].
Qed.

Lemma readable_inv (s : Server) : inv s -> inv (readable s).
Proof.
  intros H. unfold readable. destruct (acceptLoop_ s) eqn:Ha; try done.
  destruct (listenChannel_ s) as [[] |] eqn:Hc; try done.
  destruct H as [H1 H2 H3 H4 H5 H6 H7 H8 H11 H9 H10]. rewrite Ha in *.
  destruct H6 as [_ Hs]. split; try done; cbn; congruence.
Qed.

(** A call of [stop] that returns at once. *)
Lemma stop_again_inv (s : Server) : inv s -> stopped_ s = true ->
  (stops s = [] -> left_in [] s /\ over (acceptLoop_ s) = true) -> inv (set_stops (stops s ++ [SReturned]) s).
Proof.
  intros [H1 H2 H3 H4 H5 H6 H7 H8 H11 H9 H10] Hs Hfirst. split; try done; cbn.
  - congruence.
  - intros _ E. by apply app_eq_nil in E as [_ E].
  - destruct (stops s) as [| p l] eqn:E; [| done]. by destruct (Hfirst eq_refl).
  - intros j p Hp. destruct (stops s) as [| p0 l] eqn:E; [done |]. cbn in Hp.
    apply lookup_app_Some in Hp as [Hp | [_ Hp]]; [by apply (H10 j) | by apply list_lookup_singleton_Some in Hp as [_ <-]].
Qed.

Lemma stopCall_inv (s : Server) : inv s -> fault (stopCall s) = true \/ inv (stopCall s).
Proof.
  intros H. unfold stopCall. destruct (stopped_ s) eqn:Hs.
  - right. apply stop_again_inv; [done | done |]. intros Hn. destruct (inv_failed _ H Hs Hn) as [m Hm].
    destruct (inv_threw _ H m Hm) as [Hc _]. rewrite Hm. split; [| done].
    intros i (c & Hi & _)%(inv_conns _ H). by rewrite Hc in Hi.
  - destruct (listenChannel_ (set_stopped s)) as [b |] eqn:Hch; [right | by left]. cbn in Hch.
    pose proof (inv_stops _ H Hs) as Hn. destruct H as [H1 H2 H3 H4 H5 H6 H7 H8 H11 H9 H10].
    assert (Hleft : left_in (elements (connSet_ s)) s) by (intros i Hi; right; by apply elem_of_elements).
    cbn [acceptLoop_ set_channel set_stopped].
    destruct (acceptLoop_ s) as [| | w | | m] eqn:Ha;
      [| | | | by destruct (H4 m eq_refl); congruence]; (split; cbn; rewrite ?Ha, ?Hn; try done; try congruence).
Qed.

(** A connection changes, and leaves the set when its coroutine is over. *)
Lemma inv_set_conns (i : nat) (c c' : Conn) (cs : gset nat) (s : Server) :
  inv s -> conns s !! i = Some c -> c_handler c <> HEnded -> (c_shut c <= c_shut c')%nat ->
  cs = (if decide (c_handler c' = HEnded) then connSet_ s ∖ {[i]} else connSet_ s) ->
  let s' := set_connSet cs (set_conns (<[i := c']> (conns s)) s) in
  inv s' /\ forall l, left_in l s -> left_in l s'.
Proof.
  intros [H1 H2 H3 H4 H5 H6 H7 H8 H11 H9 H10] Hi Hlive Hsh -> s'.
  pose proof (lookup_lt_Some _ _ _ Hi) as Hlt.
  assert (Hsub : forall j, j ∈ connSet_ s' -> j ∈ connSet_ s) by (intros j; cbn; case_decide; set_solver).
  assert (Hleft : forall l, left_in l s -> left_in l s').
  { intros l Hl k Hk. destruct (Hl k (Hsub k Hk)) as [(d & Hd & Hds) | ?]; [left | by right]. unfold shut. cbn.
    destruct (decide (i = k)) as [<- | Hne]; [| exists d; by rewrite list_lookup_insert_ne].
    exists c'. rewrite list_lookup_insert_eq by done. simplify_eq. split; [done | lia]. }
  assert (Hne : conns s <> []) by (intros E; by rewrite E in Hi).
  split; [split; try done; cbn | done].
  - intros m Hm. by destruct (H4 m Hm).
  - intros Ha. by destruct (H5 Ha).
  - intros k. unfold alive. cbn. destruct (decide (i = k)) as [<- | Hik].
    + rewrite list_lookup_insert_eq by done. case_decide as Hc'.
      * split; [set_solver |]. by intros (d & [= <-] & ?).
      * rewrite H7. split; [intros _; by exists c' | intros _; by exists c].
    + rewrite list_lookup_insert_ne by done. change (exists c0, conns s !! k = Some c0 /\ c_handler c0 <> HEnded) with (alive k s).
      rewrite <- H7. case_decide; set_solver.
  - revert H9. destruct (stops s !! 0%nat) as [[l | |] |]; [apply Hleft | apply Hleft | | done].
    intros [Hl Ho]. split; [by apply Hleft | done].
Qed.

Lemma connSet_same (s : Server) : set_connSet (connSet_ s) s = s.
Proof. by destruct s. Qed.

Lemma handlerTurn_inv (i : nat) (s : Server) : inv s -> inv (handlerTurn i s).
Proof.
  intros H. unfold handlerTurn. destruct (conns s !! i) as [c |] eqn:Hi; [| done].
  destruct (c_handler c) eqn:Hh; [| | | done].
  - rewrite <- (connSet_same (set_conns _ s)). eapply (inv_set_conns i c); [done | done | congruence | done | done].
  - rewrite <- (connSet_same (set_conns _ s)). eapply (inv_set_conns i c); [done | done | congruence | done | done].
  - eapply (inv_set_conns i c); [done | done | congruence | done | done].
Qed.

(** The first call of [stop] goes on. *)
Lemma inv_set_stops (p : StopPc) (s : Server) :
  inv s -> is_Some (stops s !! 0%nat) ->
  match p with SLoop l => left_in l s | SWait => left_in [] s | SReturned => left_in [] s /\ over (acceptLoop_ s) = true end ->
  inv (set_stops (<[0%nat := p]> (stops s)) s).
Proof.
  intros [H1 H2 H3 H4 H5 H6 H7 H8 H11 H9 H10] [q Hq] Hp. destruct (stops s) as [| q' l] eqn:E; [done |].
  split; try done. cbn. intros Hs. by specialize (H8 Hs).
Qed.

(** [stop] shuts a connection down. *)
Lemma inv_shut (i : nat) (l : list nat) (s : Server) :
  inv s -> left_in (i :: l) s ->
  let s' := match conns s !! i with
            | Some c => set_conns (<[i := mkConn (c_handler c) (S (c_shut c))]> (conns s)) s
            | None => s
            end in
  inv s' /\ left_in l s'.
Proof.
  intros H Hf. destruct (conns s !! i) as [c |] eqn:Hi.
  2: { split; [done |]. intros k Hk. destruct (Hf k Hk) as [? | [-> | ?]%elem_of_cons]; [by left | | by right].
       apply (inv_conns _ H) in Hk as (c & Hc & _). congruence. }
  pose proof (lookup_lt_Some _ _ _ Hi) as Hlt. set (c' := mkConn (c_handler c) (S (c_shut c))).
  assert (Hkeep : forall k, shut k s -> shut k (set_conns (<[i := c']> (conns s)) s)).
  { intros k (d & Hd & Hds). unfold shut. cbn. destruct (decide (i = k)) as [<- | Hne];
      [exists c'; rewrite list_lookup_insert_eq by done; split; [done | cbn; lia] | exists d; by rewrite list_lookup_insert_ne]. }
  assert (Hleft : forall m, left_in (i :: m) s -> left_in m (set_conns (<[i := c']> (conns s)) s)).
  { intros m Hm k Hk. destruct (Hm k Hk) as [? | [-> | ?]%elem_of_cons]; [left; by apply Hkeep | | by right].
    left. exists c'. cbn. rewrite list_lookup_insert_eq by done. split; [done | cbn; lia]. }
  assert (Hmore : forall m, left_in m s -> left_in m (set_conns (<[i := c']> (conns s)) s)).
  { intros m Hm. apply Hleft. intros k Hk. destruct (Hm k Hk); [by left | right; by right]. }
  split; [| by apply Hleft]. destruct H as [H1 H2 H3 H4 H5 H6 H7 H8 H11 H9 H10].
  assert (Hne : conns s <> []) by (intros E; by rewrite E in Hi). split; try done; cbn.
  - intros m Hm. by destruct (H4 m Hm).
  - intros Ha. by destruct (H5 Ha).
  - intros k. rewrite H7. unfold alive. cbn. destruct (decide (i = k)) as [<- | Hik];
      [rewrite list_lookup_insert_eq by done | by rewrite list_lookup_insert_ne].
    split; [intros (d & Hd & Hdc); simplify_eq; by exists c' | intros (d & [= <-] & Hdc); by exists c].
  - revert H9. destruct (stops s !! 0%nat) as [[m | |] |]; [apply Hmore | apply Hmore | | done].
    intros [Hl Ho]. split; [by apply Hmore | done].
Qed.

Lemma stopTurn_inv (j : nat) (s : Server) : inv s -> inv (stopTurn j s).
Proof.
  intros H. unfold stopTurn. destruct (stops s !! j) as [p |] eqn:Hj; [| done]. destruct j as [| j].
  2: { by rewrite (inv_others _ H j p Hj). }
  pose proof (inv_first _ H) as Hf. rewrite Hj in Hf. destruct p as [[| i l] | |]; [| | | done].
  - apply inv_set_stops; [done | by rewrite Hj | done].
  - destruct (inv_shut i l s H Hf) as [H' Hl]. cbv zeta. apply (inv_set_stops (SLoop l) _ H'); [| exact Hl].
    destruct (conns s !! i); cbn; by rewrite Hj.
  - destruct (0 <? stopSet s)%nat eqn:Hs; [| done]. apply Nat.ltb_lt in Hs.
    apply inv_set_stops; [done | by rewrite Hj |]. split; [done |]. rewrite (inv_stop _ H) in Hs.
    by destruct (over (acceptLoop_ s)); [| lia].
Qed.

Lemma server_turn_inv (t : Turn) (s : Server) : fault s = true \/ inv s -> fault (turn t s) = true \/ inv (turn t s).
Proof.
  intros [Hf | H]; unfold turn; [rewrite Hf; by left |]. destruct (fault s) eqn:Hf; [by left |].
  destruct t; [right; by apply startCall_inv | right; by apply readable_inv | right; by apply acceptTurn_inv
    | by apply stopCall_inv | right; by apply stopTurn_inv | right; by apply handlerTurn_inv].
Qed.

Lemma server_run_inv (ts : list Turn) (s : Server) : fault s = true \/ inv s -> fault (run ts s) = true \/ inv (run ts s).
Proof. revert s. induction ts as [| t ts IH]; intros s H; [done |]. cbn [run foldl]. by apply IH, server_turn_inv. Qed.

(** *** [stop] returns *)

Lemma stop_returns (l : list nat) (s : Server) :
  fault s = false -> (0 < stopSet s)%nat -> stops s !! 0%nat = Some (SLoop l) ->
  stops (run (replicate (length l + 2) (StopTurn 0)) s) !! 0%nat = Some SReturned.
Proof.
  revert s. induction l as [| i l IH]; intros s Hf Hp Hs.
  - cbn. unfold turn at 2. rewrite Hf. unfold stopTurn. rewrite Hs.
    destruct (stops s) as [| p ps] eqn:E; [done |]. unfold turn. cbn. rewrite Hf. cbn.
    destruct (stopSet s); [lia | done].
  - cbn [length Nat.add replicate run foldl].
    assert (Hn : stops (turn (StopTurn 0) s) !! 0%nat = Some (SLoop l) /\ fault (turn (StopTurn 0) s) = false
      /\ stopSet (turn (StopTurn 0) s) = stopSet s).
    { unfold turn. rewrite Hf. unfold stopTurn. rewrite Hs.
      destruct (stops s) as [| p ps] eqn:E; [done |]. destruct (conns s !! i); cbn; rewrite ?E; done. }
    destruct Hn as (Hn & Hf' & Hp'). apply (IH (turn (StopTurn 0) s)); [done | by rewrite Hp' | done].
Qed.

(** What the first call of [stop] still has to do, in turns. *)
Definition stopLeft (p : StopPc) : nat :=
  match p with SLoop l => length l + 2 | SWait => 1 | SReturned => 0 end.

Lemma stop_returns_from (p : StopPc) (s : Server) :
  fault s = false -> (0 < stopSet s)%nat -> stops s !! 0%nat = Some p ->
  stops (run (replicate (stopLeft p) (StopTurn 0)) s) !! 0%nat = Some SReturned.
Proof.
  intros Hf Hp Hs. destruct p as [l | |]; [by apply stop_returns | | done].
  cbn. unfold turn. rewrite Hf. unfold stopTurn. rewrite Hs. destruct (stopSet s); [lia |]. cbn.
  by destruct (stops s).
Qed.

(** *** [start] comes first *)

(** [stop] is not called before [start]. *)
Fixpoint starts_first (ts : list Turn) : Prop :=
  match ts with
  | StopCall :: _ => False
  | [] | StartCall _ :: _ => True
  | _ :: ts => starts_first ts
  end.

Lemma acceptLoop_started (answers : list (Z + Z)) (s : Server) : started_ (acceptLoop answers s) = started_ s.
Proof.
  revert s. induction answers as [| a answers IH]; intros s; cbn [acceptLoop]; destruct (stopped_ s); try done.
  destruct (acceptor a) as [[fd |] []]; rewrite ?IH; done.
Qed.

Lemma turn_started (t : Turn) (s : Server) : started_ s = true -> started_ (turn t s) = true.
Proof.
  intros Hs. unfold turn. destruct (fault s); [done |]. destruct t as [ok | | answers | | j | i].
  - unfold startCall. by rewrite Hs.
  - unfold readable. destruct (acceptLoop_ s); try done. by destruct (listenChannel_ s) as [[] |].
  - unfold acceptTurn. destruct (acceptLoop_ s) as [| | [] | |]; try done.
    destruct (stopped_ s); [done | by rewrite acceptLoop_started].
  - unfold stopCall. destruct (stopped_ s); [done |]. cbn. destruct (listenChannel_ s); [| done].
    by destruct (acceptLoop_ s).
  - unfold stopTurn. destruct (stops s !! j) as [[[| i l] | |] |]; try done; [by destruct (conns s !! i) |].
    by destruct (0 <? stopSet s)%nat.
  - unfold handlerTurn. destruct (conns s !! i) as [c |]; [| done]. by destruct (c_handler c).
Qed.

Lemma started_fault (t : Turn) (s : Server) : inv s -> started_ s = true -> fault s = false -> fault (turn t s) = false.
Proof.
  intros H Hst Hf. unfold turn. rewrite Hf. destruct t as [ok | | answers | | j | i].
  - unfold startCall. by rewrite Hst.
  - unfold readable. destruct (acceptLoop_ s); try done. by destruct (listenChannel_ s) as [[] |].
  - unfold acceptTurn. destruct (acceptLoop_ s) as [| | [] | |]; try done. destruct (stopped_ s); [done |].
    clear -Hf. revert s Hf. induction answers as [| a answers IH]; intros s Hf; cbn [acceptLoop];
      destruct (stopped_ s); try done. destruct (acceptor a) as [[fd |] []]; try done; by apply IH.
  - unfold stopCall. destruct (stopped_ s) eqn:Hs; [done |].
    pose proof (inv_channel _ H) as Hc. pose proof (inv_none _ H) as Hn. rewrite Hst in Hn. cbn.
    destruct (listenChannel_ s) as [b |] eqn:Hl; [by destruct (acceptLoop_ s) |].
    destruct (acceptLoop_ s) as [| | w | | m] eqn:Ha; [done | by destruct Hc | by destruct Hc as [[] _] | by destruct Hc |].
    destruct (inv_threw _ H m Ha). congruence.
  - unfold stopTurn. destruct (stops s !! j) as [[[| i l] | |] |]; try done; [by destruct (conns s !! i) |].
    by destruct (0 <? stopSet s)%nat.
  - unfold handlerTurn. destruct (conns s !! i) as [c |]; [| done]. by destruct (c_handler c).
Qed.

Lemma started_run (ts : list Turn) (s : Server) :
  inv s -> started_ s = true -> fault s = false -> inv (run ts s) /\ fault (run ts s) = false.
Proof.
  revert s. induction ts as [| t ts IH]; intros s H Hs Hf; [done |]. cbn [run foldl].
  pose proof (started_fault t s H Hs Hf) as Hf'. apply IH; [| by apply turn_started | done].
  destruct (server_turn_inv t s (or_intror H)); [congruence | done].
Qed.

Lemma first_run (ts : list Turn) : starts_first ts -> inv (run ts newServer) /\ fault (run ts newServer) = false.
Proof.
  induction ts as [| t ts IH]; intros Hts; [by split; [apply new_server_inv |] |].
  destruct t as [ok | | answers | | j | i]; [| by apply IH | by apply IH | done | by apply IH | by apply IH].
  cbn [run foldl]. apply started_run; [apply startCall_inv, new_server_inv | by destruct ok | by destruct ok].
Qed.

(** C25: Whatever the network brings and handlers do, and however calls of [start]
    and [stop] interleave when [stop] is not called before [start] (then it would
    use a channel that is not there, see [tcp_stop_before_start]): both promises
    are set at most once; the server's set holds exactly the connections whose
    coroutines are not over; once the first call of [stop] has returned, the accept
    loop is over and every connection whose coroutine is not over was shut down;
    the first call of [stop] does return: the accept loop does not wait while it is
    under way, and one more turn of that loop and as many of [stop] as it has
    connections left, and two, are enough; every further call returns at once. *)
Theorem tcp_server_stops (ts : list Turn) :
  let s := run ts newServer in
  starts_first ts ->
  fault s = false
  /\ (startSet s <= 1 /\ stopSet s <= 1)%nat
  /\ (forall i, i ∈ connSet_ s <-> alive i s)
  /\ (stops s !! 0%nat = Some SReturned -> over (acceptLoop_ s) = true /\ forall i, alive i s -> shut i s)
  /\ (stopped_ s = true -> acceptLoop_ s <> AWaiting)
  /\ (forall p answers, stops s !! 0%nat = Some p ->
        stops (run (AcceptTurn answers :: replicate (stopLeft p) (StopTurn 0)) s) !! 0%nat = Some SReturned)
  /\ (forall j p, stops s !! S j = Some p -> p = SReturned).
Proof.
  intros s Hts. destruct (first_run ts Hts) as [H Hf]. fold s in H, Hf. split; [done |].
  split; [| split; [| split; [| split; [| split]]]].
  - rewrite (inv_start _ H), (inv_stop _ H). by destruct (acceptLoop_ s); cbn; lia.
  - apply (inv_conns _ H).
  - intros Hs. pose proof (inv_first _ H) as Hfirst. rewrite Hs in Hfirst. destruct Hfirst as [Hl Ho]. split; [done |].
    intros i Hi%(inv_conns _ H). destruct (Hl i Hi) as [? | Hn]; [done | by apply elem_of_nil in Hn].
  - intros Hs Ha. pose proof (inv_channel _ H) as Hc. rewrite Ha in Hc. destruct Hc. congruence.
  - intros p answers Hs. cbn [run foldl].
    assert (Hstopped : stopped_ s = true).
    { destruct (stopped_ s) eqn:E; [done |]. by rewrite (inv_stops _ H E) in Hs. }
    assert (Hn : stops (turn (AcceptTurn answers) s) = stops s /\ fault (turn (AcceptTurn answers) s) = false
      /\ (0 < stopSet (turn (AcceptTurn answers) s))%nat).
    { unfold turn. rewrite Hf. unfold acceptTurn. pose proof (inv_channel _ H) as Hc. pose proof (inv_stop _ H) as Hp.
      destruct (acceptLoop_ s) as [| | [] | |] eqn:Ha; cbn in Hp.
      - destruct (inv_fresh _ H Ha). congruence.
      - destruct Hc. congruence.
      - cbn. split_and!; [done | done | lia].
      - rewrite Hstopped. cbn. split_and!; [done | done | lia].
      - split_and!; [done | done | lia].
      - split_and!; [done | done | lia]. }
    destruct Hn as (Hn & Hf' & Hp). apply stop_returns_from; [done | done | by rewrite Hn].
  - apply (inv_others _ H).
Qed.

Lemma tcp_server_stops_witness :
  let s := run [StartCall true; Readable; AcceptTurn [inl 7; inr EINTR; inl 8]; HandlerTurn 0; HandlerTurn 1; HandlerTurn 0; HandlerTurn 0;
    StopCall] newServer in
  stops (run [AcceptTurn []; StopTurn 0; StopTurn 0; StopTurn 0] s) !! 0%nat = Some SReturned
  /\ map c_shut (conns (run [AcceptTurn []; StopTurn 0; StopTurn 0; StopTurn 0] s)) = [0%nat; 1%nat]
  /\ (1%nat ∈ connSet_ s <-> alive 1 s).
Proof.
  intros s.
  destruct (tcp_server_stops [StartCall true; Readable; AcceptTurn [inl 7; inr EINTR; inl 8]; HandlerTurn 0; HandlerTurn 1; HandlerTurn 0;
    HandlerTurn 0; StopCall] I) as (_ & _ & Hset & _ & _ & Hr & _).
  split; [exact (Hr (SLoop [1%nat]) [] eq_refl) | split; [by vm_compute | exact (Hset 1%nat)]].
Defined.

(** [stop] before [start] uses the channel that is not there yet. *)
Example tcp_stop_before_start : fault (run [StopCall] newServer) = true.
Proof. reflexivity. Qed.

(** One error of [accept4] ends the server, also one that only concerns the
    connection, such as ECONNABORTED, or passes, such as EMFILE. *)
Example tcp_accept_error : acceptLoop_ (run [StartCall true; Readable; AcceptTurn [inl 7; inr 103; inl 8]] newServer) = AEnded.
Proof. reflexivity. Qed.

(** A second call of [stop] returns before the server has stopped. *)
Example tcp_second_stop :
  let s := run [StartCall true; Readable; AcceptTurn [inl 7]; StopCall; StopCall] newServer in
  stops s !! 1%nat = Some SReturned /\ over (acceptLoop_ s) = false.
Proof. by split. Qed.
