(* ===== verification/Http2Facade.v ===== *)
(** How the HTTP/2 session meets the HTTP types: the reader a handler gets its
    body from ([Http2BodyReader], src/extensions/http2/src/Http2BodyReader.h),
    the sink its response goes to ([Http2ResponseSink], Http2ResponseSink.cc) and
    the coroutine of a request ([Http2Session::dispatchStream]).

    The reader implements the interface of [BodyReader], over what the session
    put into the request's pipe; the sink is what one coroutine adds to the
    schedule of [Http2Session]. *)

From Stdlib Require Import ZArith Lia String Strings.Byte.
From stdpp Require Import base numbers option list gmap.
From S2P Require Import Prelude CxxStd ByteStream BodyReader OrdMap HttpTypes HttpOutgoing Router HpackTable Hpack.
From S2P Require Import Http2Frame Http2Request Http2Session Http2SessionInv Http2SessionSpec.
Open Scope Z_scope.

(** ** [Http2BodyReader] *)

(** [rx_]: what the pipe still gives; [rx_open_]: its sender is never destroyed, so
    that after that it is not found closed. *)
Record Http2BodyReader : Type := mkBodyReader {
  rx_ : list bytes;
  rx_open_ : bool;
  buf_ : bytes;
  pos_ : nat;
  done_ : bool
}.

Definition newBodyReader (chunks : list bytes) (isOpen : bool) : Http2BodyReader :=
  mkBodyReader chunks isOpen [] 0 false.

(** The second half of [read]: copy from the chunk that is kept. *)
Definition copyOut (len : nat) (r : Http2BodyReader) : outcome bytes * Http2BodyReader :=
  let n := (len `min` (length (buf_ r) - pos_ r))%nat in
  let pos := (pos_ r + n)%nat in
  (Ok (take n (drop (pos_ r) (buf_ r))),
   mkBodyReader (rx_ r) (rx_open_ r) (if (pos =? length (buf_ r))%nat then [] else buf_ r) pos (done_ r)).

(** [recv] on an empty pipe that stays open waits for ever. *)
Definition http2Read (len : nat) : M Http2BodyReader bytes := fun r =>
  match buf_ r with
  | [] =>
      match rx_ r with
      | [] =>
          if rx_open_ r then (Diverge, r)
          else (Ok [], mkBodyReader [] false [] (pos_ r) true)
      | chunk :: rx =>
          if (length chunk <=? len)%nat then (Ok chunk, mkBodyReader rx (rx_open_ r) [] (pos_ r) (done_ r))
          else copyOut len (mkBodyReader rx (rx_open_ r) chunk 0 (done_ r))
      end
  | _ => copyOut len r
  end.

(** [drain]: receive until the pipe is closed. *)
Definition http2Drain : M Http2BodyReader unit := fun r =>
  if done_ r then (Ok tt, r)
  else if rx_open_ r then (Diverge, mkBodyReader [] true (buf_ r) (pos_ r) false)
  else (Ok tt, mkBodyReader [] false (buf_ r) (pos_ r) true).

(** What it has to deliver; nothing follows it. *)
Definition http2Delivers (r : Http2BodyReader) (d rest : bytes) : Prop :=
  d = drop (pos_ r) (buf_ r) ++ concat (rx_ r) /\ rest = []
  /\ Forall (fun c => c <> []) (rx_ r) /\ rx_open_ r = false /\ (buf_ r <> [] -> (pos_ r < length (buf_ r))%nat)
  /\ (done_ r = true -> buf_ r = [] /\ rx_ r = []).

Lemma copyOut_ok (n : nat) (r : Http2BodyReader) (d rest : bytes) :
  http2Delivers r d rest -> (0 < n)%nat -> buf_ r <> [] -> done_ r = false ->
  exists out r', copyOut n r = (Ok out, r') /\ (length out <= n)%nat
    /\ exists d', d = out ++ d' /\ http2Delivers r' d' rest /\ out <> [].
Proof.
  intros (-> & -> & Hrx & Hopen & Hpos & _) Hn Hb Hdone. specialize (Hpos Hb). unfold copyOut.
  set (k := (n `min` _)%nat). assert (Hk : (0 < k <= n)%nat /\ (pos_ r + k <= length (buf_ r))%nat) by lia.
  set (l := drop (pos_ r) (buf_ r)).
  assert (Hl : length l = (length (buf_ r) - pos_ r)%nat) by (unfold l; by rewrite length_drop).
  eexists _, _. split; [done |]. split; [rewrite length_take; lia |].
  exists (drop k l ++ concat (rx_ r)). rewrite app_assoc, take_drop. split; [done |]. split.
  - unfold http2Delivers. cbn [rx_ rx_open_ buf_ pos_ done_]. rewrite Hdone, Hopen.
    destruct (Nat.eqb_spec (pos_ r + k) (length (buf_ r))) as [He | He].
    + rewrite drop_nil. rewrite (drop_ge l) by lia. by repeat split.
    + unfold l. rewrite drop_drop. repeat split; try done. lia.
  - intros Hnil. apply (f_equal length) in Hnil. rewrite length_take in Hnil. simpl in Hnil. lia.
Qed.

Lemma http2Read_ok (n : nat) (r : Http2BodyReader) (d rest : bytes) :
  http2Delivers r d rest -> (0 < n)%nat -> done_ r = false ->
  exists out r', http2Read n r = (Ok out, r') /\ (length out <= n)%nat
    /\ exists d', d = out ++ d' /\ http2Delivers r' d' rest /\ (out = [] -> done_ r' = true).
Proof.
  intros Hd Hn Hdone. unfold http2Read. destruct (buf_ r) as [| b bs] eqn:Hb.
  - destruct Hd as (-> & -> & Hrx & Hopen & _). rewrite Hopen. rewrite Hb, drop_nil. cbn [app].
    destruct (rx_ r) as [| chunk rx].
    { eexists _, _. split; [done |]. split; [cbn; lia |]. exists []. split; [done |]. split; [| done].
      unfold http2Delivers. cbn. rewrite drop_nil. by repeat split. }
    apply Forall_cons in Hrx as [Hc Hrx]. destruct (Nat.leb_spec (length chunk) n).
    + eexists _, _. split; [done |]. split; [done |]. exists (concat rx). split; [done |].
      split; [| done]. unfold http2Delivers. cbn. rewrite drop_nil, Hdone. by repeat split.
    + destruct (copyOut_ok n (mkBodyReader rx false chunk 0 (done_ r)) (chunk ++ concat rx) [])
        as (out & r' & H1 & H2 & d' & H3 & H4 & H5); [| done .. |].
      { unfold http2Delivers. cbn. rewrite Hdone. repeat split; try done. lia. }
      exists out, r'. split; [done |]. split; [done |]. by exists d'.
  - destruct (copyOut_ok n r d rest Hd Hn) as (out & r' & H1 & H2 & d' & H3 & H4 & H5); [by rewrite Hb | done |].
    exists out, r'. split; [done |]. split; [done |]. by exists d'.
Qed.

#[export, refine] Instance http2_body_reader : BodyReader Http2BodyReader := {
  readImpl := http2Read;
  isComplete := done_;
  delivers := http2Delivers
}.
Proof.
  - intros n r d rest. apply http2Read_ok.
  - intros r d rest (-> & _ & _ & _ & _ & H) Hc. destruct (H Hc) as [-> ->]. by rewrite drop_nil.
Defined.

(** A pipe without empty chunks that is closed is a body.  A body reader of HTTP/2 has no
    [draining_] flag; while it is not set, [Http1BodyReader::read] is [readImpl]
    of a reader that is not complete. *)
Lemma newBodyReader_delivers (chunks : list bytes) :
  Forall (fun c => c <> []) chunks -> http2Delivers (newBodyReader chunks false) (concat chunks) [].
Proof. intros H. by repeat split. Qed.

Lemma http2Drain_complete (r : Http2BodyReader) :
  rx_open_ r = false -> fst (http2Drain r) = Ok tt /\ done_ (snd (http2Drain r)) = true.
Proof. unfold http2Drain. intros ->. by destruct (done_ r) eqn:H. Qed.

(** A body that never ends: its reader gets what was sent and then waits. *)
Lemma open_pipe_waits : fst (readBody 10 (mkReader (newBodyReader [str "ab"] true) false)) = Diverge.
Proof. vm_compute. reflexivity. Qed.

(** An empty chunk would end a body before its time: the session must not send
    one. *)
Lemma empty_chunk_ends : readBody 10 (mkReader (newBodyReader [str "ab"; []; str "cd"] false) false)
  = (Ok (str "ab"), mkReader (newBodyReader [str "cd"] false) false).
Proof. vm_compute. reflexivity. Qed.

(** ** [Http2ResponseSink] *)

(** [write(resp, body)], when the session is still there; the assertion on the
    length is a precondition. *)
Definition sinkWrite (streamId : Z) (isHeadMethod : bool) (resp : HttpResponse) (body : bytes) : outcome (list event) :=
  let endStream := isHeadMethod || bool_decide (body = []) in
  if negb (size body =? r_contentLength resp) then Undefined
  else Ok (SendHeaders streamId resp endStream :: if endStream then [] else [SendData streamId body true]).

(** [write(resp, bodyWriterFn)], where [pieces] are the calls of
    [Http2BodyWriter::write] the function makes. *)
Definition sinkWriteFn (streamId : Z) (isHeadMethod : bool) (resp : HttpResponse) (pieces : list bytes) : list event :=
  if isHeadMethod then [SendHeaders streamId resp true]
  else SendHeaders streamId resp false :: map (fun d => SendData streamId d false) pieces
       ++ [SendData streamId [] true].

Definition flushHttp2 (streamId : Z) (isHeadMethod : bool) (m : ServerResponse) : outcome (list event) :=
  match bodyWriterFn_ m with
  | Some pieces => Ok (sinkWriteFn streamId isHeadMethod (data_ m) pieces)
  | None => sinkWrite streamId isHeadMethod (data_ m) (body_ m)
  end.

(** ** [dispatchStream] *)

Section dispatch.
Context {Regex : Type} (reg : MethodRegistry) (regex_match : bytes -> Regex -> option (list bytes)).

(** What a handler is given. *)
Record Exchange : Type := mkExchange {
  x_request : HttpRequest;
  x_pathParams : PathParams;
  x_reader : @Http1BodyReader Http2BodyReader;
  x_response : ServerResponse
}.

Definition Handler : Type := M Exchange unit.

(** The reader has the receiving end of the stream's pipe. *)
Definition newExchange (req : HttpRequest) (params : PathParams) (st : Http2Stream) : Exchange :=
  mkExchange req params (mkReader (newBodyReader (received st) (open_ st)) false) newServerResponse.

(** What the coroutine of a stream does to the session: what it throws is
    logged, and the stream is erased at its end.  The coroutine has a share of the
    stream: [st] is what the session has made of it when it does no more to it. *)
Definition dispatchStream (router : @HttpRouter Regex Handler) (sid : Z) (st : Http2Stream)
    : outcome (list event) :=
  let! es :=
    (match buildRequest reg (decodedHeaders st) with
     | Ok req =>
         let result := route regex_match (method req) (path req) router in
         let isHead := method req =? Head in
         match handler result with
         | None =>
             flushHttp2 sid isHead
               (setStatus (match reason result with MethodNotAllowed => 405 | _ => 404 end) [] newServerResponse)
         | Some invoke =>
             match invoke (newExchange req (rr_params result) st) with
             | (Ok _, x) => flushHttp2 sid isHead (x_response x)
             | (Throw _, _) => Ok [SendRstStream sid ErrorCode.InternalError]
             | (Undefined, _) => Undefined
             | (Diverge, _) => Diverge
             end
         end
     | Throw _ => Ok []
     | Undefined => Undefined
     | Diverge => Diverge
     end) in
  Ok (es ++ [Finished sid]).
End dispatch.

(** ** What a response is on the wire *)

Definition responseBody (m : ServerResponse) : bytes :=
  match bodyWriterFn_ m with Some pieces => concat pieces | None => body_ m end.

Definition dataOctets (sid : Z) (f : bool * bytes) : bytes :=
  frameOctets FrameType.Data (flagsOf (fst f)) sid (snd f).

(** One HEADERS frame with the response's block, DATA frames with the body (none
    to HEAD), and END_STREAM on the last of them all and nowhere else. *)
Definition reply_octets (sid : Z) (isHead : bool) (m : ServerResponse) (t : HpackTable) (w : bytes) : Prop :=
  exists block t' fin frames,
    encodeResponse (data_ m) t = (Ok block, t')
    /\ w = frameOctets FrameType.Headers (Z.lor FrameFlags.EndHeaders (flagsOf fin)) sid block
            ++ concat (map (dataOctets sid) frames)
    /\ concat (map snd frames) = (if isHead then [] else responseBody m)
    /\ fin :: map fst frames = replicate (length frames) false ++ [true].

Section wire.
Context {S : Type} `{!ByteStream S}.
Abbreviation Session := (Http2Session S).

(** [m] writes [w] and leaves the streams and what is still to be read alone. *)
Definition writes {A : Type} (m : M Session A) (h : Session) (a : A) (h' : Session) (w : bytes) : Prop :=
  m h = (Ok a, h') /\ sent (reader_ h') = sent (reader_ h) ++ w /\ pending (reader_ h') = pending (reader_ h)
  /\ streams_ h' = streams_ h.

Lemma write_writes (type flags sid : Z) (payload : bytes) (h : Session) :
  exists h', writes (on_reader (writeFrame type flags sid payload)) h tt h' (frameOctets type flags sid payload)
    /\ encoder_ h' = encoder_ h.
Proof.
  destruct (writeFrame_ok type flags sid payload (reader_ h)) as (r & Hr & Hs & Hp).
  exists (set_reader r h). unfold writes, on_reader. rewrite Hr. by repeat split.
Qed.

Lemma happenAll_app (es es' : list event) (h h1 : Session) :
  happenAll es h = (Ok tt, h1) -> happenAll (es ++ es') h = happenAll es' h1.
Proof.
  revert h. induction es as [| e es IH]; intros h; [by intros [= ->] |]. cbn [happenAll app].
  unfold mbind. destruct (happen e h) as [[[] | | |] h2]; [| discriminate ..]. intros H. by apply IH.
Qed.

Lemma cons_writes (e : event) (es : list event) (h h1 h2 : Session) (w1 w2 : bytes) :
  writes (happen e) h tt h1 w1 -> writes (happenAll es) h1 tt h2 w2 -> writes (happenAll (e :: es)) h tt h2 (w1 ++ w2).
Proof.
  intros (H1 & Hs1 & Hp1 & Hm1) (H2 & Hs2 & Hp2 & Hm2). unfold writes. cbn [happenAll].
  rewrite (mbind_ok _ _ _ _ _ H1), Hs2, Hs1, app_assoc. repeat split; congruence.
Qed.

Lemma headers_writes (sid : Z) (resp : HttpResponse) (fin : bool) (h : Session) :
  exists h' block t, encodeResponse resp (encoder_ h) = (Ok block, t)
    /\ writes (happen (SendHeaders sid resp fin)) h tt h'
         (frameOctets FrameType.Headers (Z.lor FrameFlags.EndHeaders (flagsOf fin)) sid block).
Proof.
  destruct (encodeResponse_total resp (encoder_ h)) as (block & t & H). cbn [happen]. unfold sendHeaders.
  destruct (write_writes FrameType.Headers (Z.lor FrameFlags.EndHeaders (flagsOf fin)) sid block (set_encoder t h))
    as (h' & (Hw & Hs & Hp & Hm) & _).
  exists h', block, t. split; [done |]. unfold writes.
  assert (Hon : on_encoder (encodeResponse resp) h = (Ok block, set_encoder t h)) by (unfold on_encoder; by rewrite H).
  rewrite (mbind_ok _ _ _ _ _ Hon). by rewrite Hw, Hs, Hp, Hm.
Qed.

Lemma frames_write (sid : Z) (frames : list (bool * bytes)) (h : Session) :
  exists h', writes (happenAll (map (fun f => SendData sid (snd f) (fst f)) frames)) h tt h'
    (concat (map (dataOctets sid) frames)).
Proof.
  revert h. induction frames as [| [fin d] frames IH]; intros h.
  { exists h. unfold writes. cbn. by rewrite app_nil_r. }
  destruct (write_writes FrameType.Data (flagsOf fin) sid d h) as (h1 & Hw1 & _).
  destruct (IH h1) as (h2 & Hw2). exists h2. by apply (cons_writes _ _ h h1 h2).
Qed.

(** The frames of a response. *)
Definition bodyFrames (isHead : bool) (m : ServerResponse) : bool * list (bool * bytes) :=
  if isHead then (true, [])
  else match bodyWriterFn_ m with
       | Some pieces => (false, map (pair false) pieces ++ [(true, [])])
       | None => if decide (body_ m = []) then (true, []) else (false, [(true, body_ m)])
       end.

Lemma flush_frames (sid : Z) (isHead : bool) (m : ServerResponse) (es : list event) :
  flushHttp2 sid isHead m = Ok es ->
  es = SendHeaders sid (data_ m) (fst (bodyFrames isHead m))
       :: map (fun f => SendData sid (snd f) (fst f)) (snd (bodyFrames isHead m)).
Proof.
  unfold flushHttp2, sinkWriteFn, sinkWrite, bodyFrames. destruct (bodyWriterFn_ m) as [pieces |].
  - intros [= <-]. destruct isHead; [done |]. cbn [fst snd]. rewrite map_app, map_map. done.
  - destruct (negb _); [done |]. intros [= <-]. destruct isHead; [done |]. cbn [orb].
    by destruct (decide (body_ m = [])) as [-> | Hne]; [| rewrite bool_decide_eq_false_2].
Qed.

Lemma bodyFrames_ok (isHead : bool) (m : ServerResponse) :
  concat (map snd (snd (bodyFrames isHead m))) = (if isHead then [] else responseBody m)
  /\ fst (bodyFrames isHead m) :: map fst (snd (bodyFrames isHead m))
     = replicate (length (snd (bodyFrames isHead m))) false ++ [true].
Proof.
  unfold bodyFrames, responseBody. destruct isHead; [done |]. destruct (bodyWriterFn_ m) as [pieces |].
  - cbn [fst snd]. rewrite !map_app, !map_map, concat_app, map_id, length_app, length_map. cbn [map concat snd fst].
    split; [by rewrite !app_nil_r |]. rewrite Nat.add_comm. cbn [length replicate Nat.add app]. f_equal. f_equal.
    induction pieces as [| p ps IH]; [done |]. cbn. by rewrite IH.
  - destruct (decide (body_ m = [])) as [-> |]; [done |]. cbn. by rewrite app_nil_r.
Qed.

Lemma flush_writes (sid : Z) (isHead : bool) (m : ServerResponse) (es : list event) (h : Session) :
  flushHttp2 sid isHead m = Ok es ->
  exists h' w, writes (happenAll es) h tt h' w /\ reply_octets sid isHead m (encoder_ h) w.
Proof.
  intros ->%flush_frames. destruct (bodyFrames_ok isHead m) as [Hc Hf].
  destruct (headers_writes sid (data_ m) (fst (bodyFrames isHead m)) h) as (h1 & block & t & He & Hw1).
  destruct (frames_write sid (snd (bodyFrames isHead m)) h1) as (h2 & Hw2).
  exists h2. eexists. split; [by apply (cons_writes _ _ h h1 h2) |].
  by exists block, t, (fst (bodyFrames isHead m)), (snd (bodyFrames isHead m)).
Qed.
End wire.

(** ** A stream is answered *)

Section answered.
Context {S : Type} `{!ByteStream S} {Regex : Type}.
Context (reg : MethodRegistry) (regex_match : bytes -> Regex -> option (list bytes)).

(** What a stream's answer must be: nothing for headers that are no request, 404
    or 405 without a handler, the handler's response, or RST_STREAM when it
    throws. *)
Definition answered (router : @HttpRouter Regex Handler) (sid : Z) (st : Http2Stream)
    (t : HpackTable) (w : bytes) : Prop :=
  match buildRequest reg (decodedHeaders st) with
  | Ok req =>
      let result := route regex_match (method req) (path req) router in
      let isHead := method req =? Head in
      match handler result with
      | None => exists code, (code = 404 \/ code = 405) /\
          reply_octets sid isHead (setStatus code [] newServerResponse) t w
      | Some invoke =>
          match invoke (newExchange req (rr_params result) st) with
          | (Ok _, x) => reply_octets sid isHead (x_response x) t w
          | _ => w = frameOctets FrameType.RstStream 0 sid (octets4 ErrorCode.InternalError)
          end
      end
  | _ => w = []
  end.

Lemma finish_writes (sid : Z) (es : list event) (h h1 : Http2Session S) (w : bytes) :
  writes (happenAll es) h tt h1 w ->
  exists h', happenAll (es ++ [Finished sid]) h = (Ok tt, h') /\ sent (reader_ h') = sent (reader_ h) ++ w
    /\ pending (reader_ h') = pending (reader_ h) /\ streams_ h' = delete sid (streams_ h).
Proof.
  intros (Hw & Hs & Hp & Hm). exists (set_streams (delete sid (streams_ h1)) h1).
  rewrite (happenAll_app _ _ _ _ Hw). split; [done |]. cbn [reader_ set_streams streams_]. by rewrite Hs, Hp, Hm.
Qed.

Lemma dispatch_answers (router : @HttpRouter Regex Handler) (sid : Z) (st : Http2Stream)
    (es : list event) (h : Http2Session S) :
  dispatchStream reg regex_match router sid st = Ok es ->
  exists h' w, happenAll es h = (Ok tt, h') /\ sent (reader_ h') = sent (reader_ h) ++ w
    /\ pending (reader_ h') = pending (reader_ h) /\ streams_ h' = delete sid (streams_ h)
    /\ answered router sid st (encoder_ h) w.
Proof.
  unfold dispatchStream, answered.
  assert (Hfin : forall es0 w h1, writes (happenAll es0) h tt h1 w -> forall P : bytes -> Prop, P w ->
    forall es, Ok (es0 ++ [Finished sid]) = Ok es ->
    exists h' w, happenAll es h = (Ok tt, h') /\ sent (reader_ h') = sent (reader_ h) ++ w
      /\ pending (reader_ h') = pending (reader_ h) /\ streams_ h' = delete sid (streams_ h) /\ P w).
  { intros es0 w h1 Hw P HP es1 [= <-]. destruct (finish_writes sid es0 h h1 w Hw) as (h' & H1 & H2 & H3 & H4).
    by exists h', w. }
  destruct (buildRequest reg (decodedHeaders st)) as [req | e | |]; [| | done ..].
  2: { apply (Hfin [] [] h); [| done]. unfold writes. cbn. by rewrite app_nil_r. }
  set (result := route _ _ _ _). destruct (handler result) as [invoke |].
  - destruct (invoke _) as [[[] | e | |] x]; [| | done ..].
    + destruct (flushHttp2 _ _ _) as [es0 | | |] eqn:Hfl; [| done ..].
      destruct (flush_writes sid _ _ es0 h Hfl) as (h1 & w & Hw & Hr). exact (Hfin es0 w h1 Hw _ Hr es).
    + destruct (write_writes FrameType.RstStream 0 sid (octets4 ErrorCode.InternalError) h) as (h1 & Hw & _).
      apply (Hfin [SendRstStream sid ErrorCode.InternalError]
        (frameOctets FrameType.RstStream 0 sid (octets4 ErrorCode.InternalError)) h1); [| done].
      rewrite <- (app_nil_r (frameOctets _ _ _ _)). apply (cons_writes _ _ h h1 h1); [exact Hw |].
      unfold writes. cbn. by rewrite app_nil_r.
  - destruct (flushHttp2 _ _ _) as [es0 | | |] eqn:Hfl; [| done ..].
    destruct (flush_writes sid _ _ es0 h Hfl) as (h1 & w & Hw & Hr).
    apply (Hfin es0 w h1 Hw (fun w => exists code, (code = 404 \/ code = 405) /\
      reply_octets sid _ (setStatus code [] newServerResponse) _ w)).
    eexists. split; [| exact Hr]. destruct (reason result); auto.
Qed.

(** The body a handler reads is what the session put into the pipe. *)
Lemma exchange_body (req : HttpRequest) (params : PathParams) (st : Http2Stream) (fuel : nat) :
  Forall (fun c => c <> []) (received st) -> open_ st = false -> (length (concat (received st)) < fuel)%nat ->
  exists r, readBody fuel (x_reader (newExchange req params st)) = (Ok (concat (received st)), r)
    /\ isComplete (impl r) = true.
Proof.
  intros Hc Ho Hf. unfold newExchange. rewrite Ho. cbn [x_reader].
  destruct (readBody_ok fuel (newBodyReader (received st) false) (concat (received st)) []) as (r & Hr & _ & Hd);
    [by apply newBodyReader_delivers | done |]. by exists r.
Qed.
End answered.

(** ** Properties *)

(** C15: a request to the HTTP/2 server is served.  Let the octets of a request
    arrive in whatever segments: its header block cut into HEADERS and CONTINUATION
    frames, its body into DATA frames with or without padding, END_STREAM on the
    last frame; the stream is one the client may open, its block decodes to headers
    that make up a request, and the coroutines of other requests write and end
    meanwhile.  The session's loop comes to where it has read these octets and the
    stream, handed to its coroutine, has these headers, the pieces of the body, and
    a pipe that is closed.  A handler that reads the body to its end gets exactly
    the pieces in a row.  And when the stream's coroutine ends, whatever the session
    has become ([h2]), it has written the answer of the route, 404 or 405 without
    one, as one HEADERS frame and DATA frames whose data make up the body, nothing
    of it to HEAD, with END_STREAM on the last frame only, or RST_STREAM when the
    handler threw; and the stream is forgotten. *)
Theorem h2_stream_answered {S : Type} `{!ByteStream S} {Regex : Type} (reg : MethodRegistry)
    (regex_match : bytes -> Regex -> option (list bytes)) (router : @HttpRouter Regex Handler)
    (h : Http2Session S) (sid : Z) (b : bytes) (bs : list bytes) (body : list (option Z * bytes))
    (dh : DecodedHeaders) (t : HpackTable) (more : bytes) (n : nat) :
  0 < sid < 2 ^ 31 -> openable sid h -> continuationStreamId_ h = 0 ->
  Forall (fun c => size c <= 16384) (b :: bs) -> Forall piece_ok body ->
  decode (b ++ concat bs) (decoder_ h) = (Ok dh, t) -> acceptable dh ->
  running sid (octetsAll (requestFrames sid b bs body) ++ more) h ->
  let st := mkStream dh (map snd body) false in
  let d := concat (map snd body) in
  exists h1, runLoop (length (requestFrames sid b bs body) + n) h = runLoop n h1
    /\ pending (reader_ h1) = more /\ streams_ h1 !! sid = Some st /\ spawned_ h1 = spawned_ h ++ [sid]
    /\ (forall req params fuel, (length d < fuel)%nat ->
         exists r, readBody fuel (x_reader (newExchange req params st)) = (Ok d, r))
    /\ forall es h2, dispatchStream reg regex_match router sid st = Ok es ->
       exists h3 w, happenAll es h2 = (Ok tt, h3) /\ sent (reader_ h3) = sent (reader_ h2) ++ w
         /\ streams_ h3 = delete sid (streams_ h2)
         /\ answered reg regex_match router sid st (encoder_ h2) w.
Proof.
  intros Hsid Hop Hc Hb Hbody Hdec Hacc Hrun st d.
  destruct (loop_request h sid b bs body dh t more n Hsid Hop Hc Hb Hbody Hdec Hacc Hrun)
    as (h1 & Hloop & (_ & _ & Hp) & _ & Hst & Hs).
  exists h1. split; [exact Hloop |]. split; [done |]. split; [done |]. split; [done |]. split.
  - intros req params fuel Hf. destruct (exchange_body req params st fuel) as (r & Hr & _); [| done | exact Hf | by exists r].
    apply Forall_map. eapply Forall_impl; [exact Hbody |]. by intros p (_ & ? & _).
  - intros es h2 Hd. destruct (dispatch_answers reg regex_match router sid st es h2 Hd) as (h3 & w & H1 & H2 & _ & H3 & H4).
    by exists h3, w.
Qed.

(** A POST of two chunks to a handler that answers with the body it reads. *)
Definition echo : Handler := fun x =>
  let '(o, r) := readBody 10 (x_reader x) in
  match o with
  | Ok body => (Ok tt, mkExchange (x_request x) (x_pathParams x) r (setBody body (x_response x)))
  | Throw e => (Throw e, x)
  | Undefined => (Undefined, x)
  | Diverge => (Diverge, x)
  end.

Definition echo_router : @HttpRouter unit Handler :=
  snd (addHandler initRegistry (fun _ => []) (str "/") [Post] echo (mkHttpRouter newRouterCore [])).

Definition echo_body : list (option Z * bytes) := [(None, str "ab"); (Some 3, str "cd")].

(** The session when the client's preface is read, before the request. *)
Definition echo_session : Http2Session script :=
  newSession (Script [octetsAll (requestFrames 1 [x83; x84] [[x86]] echo_body)] []) [[SendData 3 (str "other") true]].

Definition echo_headers : DecodedHeaders :=
  match fst (decode [x83; x84; x86] (decoder_ echo_session)) with Ok dh => dh | _ => noHeaders end.

Definition echo_stream : Http2Stream := mkStream echo_headers [str "ab"; str "cd"] false.

Definition echo_response : HttpResponse := data_ (setBody (str "abcd") newServerResponse).

Lemma h2_stream_answered_witness :
  exists h1, runLoop 5 echo_session = runLoop 1 h1 /\ streams_ h1 !! 1 = Some echo_stream
    /\ exists h3 w,
        happenAll [SendHeaders 1 echo_response false; SendData 1 (str "abcd") true; Finished 1] h1 = (Ok tt, h3)
        /\ sent (reader_ h3) = sent (reader_ h1) ++ w
        /\ answered initRegistry (fun _ (_ : unit) => None) echo_router 1 echo_stream (encoder_ h1) w.
Proof.
  destruct (h2_stream_answered initRegistry (fun _ (_ : unit) => None) echo_router echo_session 1
    [x83; x84] [[x86]] echo_body echo_headers (decoder_ echo_session) [] 1)
    as (h1 & Hloop & _ & Hst & _ & _ & Hans).
  - done.
  - split; [done | split; done].
  - done.
  - by repeat constructor.
  - by repeat constructor.
  - vm_compute. reflexivity.
  - split; [vm_compute; by repeat constructor | done].
  - split; [done | split; [by repeat constructor | by rewrite app_nil_r]].
  - exists h1. split; [exact Hloop |]. split; [exact Hst |].
    destruct (Hans [SendHeaders 1 echo_response false; SendData 1 (str "abcd") true; Finished 1] h1)
      as (h3 & w & H1 & H2 & _ & H4); [vm_compute; reflexivity |].
    exists h3, w. exact (conj H1 (conj H2 H4)).
Defined.
