(* ===== verification/Http2EndToEnd.v ===== *)
(** A request from the HTTP/2 client to the HTTP/2 server: what
    [Http2RequestSink::write] makes the client session write
    (src/extensions/http2/src/Http2RequestSink.cc, Http2ClientSession.cc) is what
    the server session's loop reads and hands to a handler
    (src/extensions/http2/src/Http2Session.cc, Http2BodyReader.h). *)

From Stdlib Require Import ZArith Lia String Strings.Byte.
From stdpp Require Import base numbers option list gmap.
From S2P Require Import Prelude CxxStd ByteStream BodyReader OrdMap HttpTypes HttpParser HttpOutgoing Router HpackTable Hpack.
From S2P Require Import Http2ClientSession.
From S2P Require Import Http2Frame Http2Request Http2Session Http2SessionInv Http2SessionSpec Http2Facade.
Open Scope Z_scope.

(** ** What the client writes *)

Section client.
Context {S : Type} `{!ByteStream S} (reg : MethodRegistry).

(** A body of one piece, or none. *)
Definition pieces (body : bytes) : list (option Z * bytes) := if decide (body = []) then [] else [(None, body)].

Lemma client_writes (type flags sid : Z) (payload : bytes) (h : Http2ClientSession S) :
  exists r, Http2ClientSession.on_reader (writeFrame type flags sid payload) h = (Ok tt, Http2ClientSession.set_reader r h)
    /\ sent r = sent (Http2ClientSession.reader_ h) ++ frameOctets type flags sid payload.
Proof.
  destruct (writeFrame_ok type flags sid payload (Http2ClientSession.reader_ h)) as (r & Hr & Hs & _). exists r.
  unfold Http2ClientSession.on_reader. by rewrite Hr.
Qed.

(** HEADERS with the block, and DATA with the body unless there is none. *)
Lemma sink_octets (sid : Z) (req : HttpRequest) (body block : bytes) (h : Http2ClientSession S) :
  Http2ClientSession.ready_ h = true -> requestBlock reg (Http2ClientSession.scheme_ h) req = Ok block ->
  exists r, Http2ClientSession.happenAll reg (Http2ClientSession.sinkWrite sid req body) h = (Ok tt, Http2ClientSession.set_reader r h)
    /\ sent r = sent (Http2ClientSession.reader_ h) ++ octetsAll (requestFrames sid block [] (pieces body)).
Proof.
  intros Hready Hb. destruct (client_writes FrameType.Headers
    (Z.lor FrameFlags.EndHeaders (flagsOf (bool_decide (body = [])))) sid block h) as (r1 & H1 & Hs1).
  assert (Hh : Http2ClientSession.happen reg (Http2ClientSession.SendHeaders sid req (bool_decide (body = []))) h
    = (Ok tt, Http2ClientSession.set_reader r1 h)).
  { rewrite <- H1. unfold Http2ClientSession.happen, Http2ClientSession.sendHeaders. rewrite !mbind_get, Hready.
    rewrite mbind_get. unfold mbind at 1, mlift. by rewrite Hb. }
  unfold Http2ClientSession.sinkWrite, pieces. cbn [Http2ClientSession.happenAll]. rewrite (mbind_ok _ _ _ _ _ Hh).
  unfold octetsAll, requestFrames, blockFrames, octetsOf, headersFrame, headersFlags.
  destruct (decide (body = [])) as [-> | Hne].
  - exists r1. split; [done |]. cbn [continuations dataFrames app map concat f_type f_flags f_streamId f_payload].
    rewrite app_nil_r. exact Hs1.
  - destruct (client_writes FrameType.Data FrameFlags.EndStream sid body (Http2ClientSession.set_reader r1 h)) as (r2 & H2 & Hs2).
    assert (Hd : Http2ClientSession.happen reg (Http2ClientSession.SendData sid body true) (Http2ClientSession.set_reader r1 h)
      = (Ok tt, Http2ClientSession.set_reader r2 (Http2ClientSession.set_reader r1 h))).
    { rewrite <- H2. unfold Http2ClientSession.happen. rewrite mbind_get.
      change (Http2ClientSession.ready_ (Http2ClientSession.set_reader r1 h)) with (Http2ClientSession.ready_ h). by rewrite Hready. }
    exists r2. cbn [Http2ClientSession.happenAll]. rewrite (mbind_ok _ _ _ _ _ Hd). split; [done |].
    rewrite Hs2. cbn [Http2ClientSession.reader_ Http2ClientSession.set_reader]. rewrite Hs1, <- app_assoc. do 2 f_equal.
    rewrite !bool_decide_eq_false_2 by done. cbn. by rewrite app_nil_r.
Qed.
End client.

(** ** What the server takes *)

(** A request with no header that HTTP/2 does not allow, less those the client
    leaves out. *)
Definition allowed (req : HttpRequest) : Prop := Forall (fun kh => badHeader (snd kh) = false) (kept (headers req)).

Lemma insert_allowed (key : bytes) (value : bytes) (hs : HttpHeaderMap) :
  Forall (fun kh => badHeader (snd kh) = false) hs ->
  Forall (fun kh => badHeader (snd kh) = false) (om_insert key (newHeader (str "cookie") value) hs).
Proof.
  assert (Hcookie : badHeader (newHeader (str "cookie") value) = false) by by vm_compute.
  induction 1 as [| [k h] hs Hk Hhs IH]; cbn [om_insert]; [by repeat constructor |].
  repeat case_match; repeat constructor; done.
Qed.

Lemma sent_acceptable (reg : MethodRegistry) (scheme : bytes) (req : HttpRequest) :
  h2_writable reg scheme req -> allowed req -> acceptable (sentHeaders reg scheme req).
Proof.
  intros [_ [_ Hm] Hs _ _ _ _ _] Hall. split; [| split; [done | split; [| done]]].
  - cbn [d_headers sentHeaders]. assert (Hreg : Forall (fun kh => badHeader (snd kh) = false) (regularOf (headers req))).
    { unfold allowed, regularOf in *. rewrite Forall_forall in Hall |- *. intros kh Hin. apply Hall.
      apply list_elem_of_In, filter_In in Hin as [Hin _]. by apply list_elem_of_In. }
    unfold withCookie. destruct (decide _); [done |]. by apply insert_allowed.
  - cbn [d_path sentHeaders]. unfold targetOf. by destruct (decide (path req = [])).
Qed.

(** ** Property *)

(** C31: A request a program sends through the HTTP/2 client reaches the server.  Let
    the request have its [Host] header first and none HTTP/2 forbids, and let its
    header block and its body fit into a frame each, which the client does not
    check.  When the sink has written it on a session that is ready, and the octets
    written arrive in whatever segments at a server session that may take the
    stream, while the coroutines of other requests write and end, the server's loop
    comes to where it has read exactly these octets and has handed the stream to a
    coroutine: what is built of it is the same request, and a handler that reads
    the body to its end gets exactly the body. *)
Theorem h2_request_delivered {S S' : Type} `{!ByteStream S} `{!ByteStream S'} (reg : MethodRegistry)
    (c : Http2ClientSession S) (h : Http2Session S') (sid : Z) (req : HttpRequest) (body more : bytes) (n : nat) :
  Http2ClientSession.ready_ c = true -> h2_writable reg (Http2ClientSession.scheme_ c) req -> allowed req ->
  (forall block, requestBlock reg (Http2ClientSession.scheme_ c) req = Ok block -> size block <= 16384) -> size body <= 16384 ->
  0 < sid < 2 ^ 31 -> openable sid h -> continuationStreamId_ h = 0 ->
  exists c' w, Http2ClientSession.happenAll reg (Http2ClientSession.sinkWrite sid req body) c = (Ok tt, c')
  /\ sent (Http2ClientSession.reader_ c') = sent (Http2ClientSession.reader_ c) ++ w
  /\ (running sid (w ++ more) h ->
      exists k h' st, runLoop (k + n) h = runLoop n h' /\ pending (reader_ h') = more
      /\ streams_ h' !! sid = Some st /\ spawned_ h' = spawned_ h ++ [sid]
      /\ buildRequest reg (decodedHeaders st) = Ok (h2_received req)
      /\ forall params fuel, (length body < fuel)%nat ->
           exists r, readBody fuel (x_reader (newExchange (h2_received req) params st)) = (Ok body, r)).
Proof.
  intros Hready Hw Hall Hblock Hbody Hsid Hop Hc. destruct (request_decodes _ _ _ Hw) as (block & Hb & Hdec). specialize (Hblock _ Hb).
  destruct (sink_octets reg sid req body block c Hready Hb) as (r & Hsink & Hsent). eexists _, _. split; [exact Hsink |]. split; [exact Hsent |].
  intros Hrun. assert (Hp : Forall piece_ok (pieces body)).
  { unfold pieces. destruct (decide (body = [])); [constructor |]. repeat constructor; cbn; done. }
  destruct (loop_request h sid block [] (pieces body) (sentHeaders reg (Http2ClientSession.scheme_ c) req) (decoder_ h) more n Hsid Hop Hc)
    as (h1 & Hloop & (_ & _ & Hpend) & _ & Hst & Hs); [by repeat constructor | done | | by apply sent_acceptable | done |].
  { cbn [concat]. rewrite app_nil_r. apply Hdec. lia. }
  eexists _, h1, _. split; [exact Hloop |]. split; [done |]. split; [exact Hst |]. split; [done |].
  split; [by apply (buildRequest_ok reg (Http2ClientSession.scheme_ c)) |]. intros params fuel Hf.
  assert (Hconcat : concat (map snd (pieces body)) = body).
  { unfold pieces. destruct (decide (body = [])) as [-> |]; [done |]. apply app_nil_r. }
  destruct (exchange_body (h2_received req) params (mkStream (sentHeaders reg (Http2ClientSession.scheme_ c) req) (map snd (pieces body)) false) fuel)
    as (rd & Hr & _); [| done | cbn [received]; by rewrite Hconcat |].
  - cbn [received]. unfold pieces. destruct (decide (body = [])); by repeat constructor.
  - exists rd. rewrite Hr. cbn [received]. by rewrite Hconcat.
Qed.

(** A client that is ready, what it writes for a request, and a server that these
    octets arrive at in two segments. *)
Definition ready_client : Http2ClientSession script :=
  Http2ClientSession.set_status false true true true (newClientSession (Script [] []) (str "https") []).

Definition sample_octets : bytes :=
  written (Http2ClientSession.reader_
    (snd (Http2ClientSession.happenAll initRegistry (Http2ClientSession.sinkWrite 1 h2_sample (str "hello")) ready_client))).

Definition sample_server : Http2Session script := newSession (Script [take 20 sample_octets; drop 20 sample_octets] []) [].

Lemma h2_request_delivered_witness :
  exists k h' st, runLoop k sample_server = runLoop 0 h' /\ streams_ h' !! 1 = Some st
  /\ buildRequest initRegistry (decodedHeaders st) = Ok (h2_received h2_sample).
Proof.
  destruct (h2_request_delivered initRegistry ready_client sample_server 1 h2_sample (str "hello") [] 0)
    as (c' & w & Hsink & Hsent & Hrun).
  - done.
  - apply h2_sample_writable.
  - unfold allowed. vm_compute. by repeat constructor.
  - intros block Hb. vm_compute in Hb. injection Hb as <-. by vm_compute.
  - by vm_compute.
  - done.
  - by split.
  - done.
  - assert (Hw : w = sample_octets).
    { transitivity (sent (Http2ClientSession.reader_ c')); [by rewrite Hsent |]. unfold sample_octets. by rewrite Hsink. }
    destruct Hrun as (k & h' & st & Hloop & _ & Hst & _ & Hreq & _).
    + rewrite Hw. split; [done |]. split; [constructor |]. vm_compute. reflexivity.
    + exists (k + 0)%nat, h', st. exact (conj Hloop (conj Hst Hreq)).
Defined.
