(* ===== verification/Http2Client.v ===== *)
(** The HTTP/2 client, src/extensions/http2/src/Http2Client.cc, and how an HTTP
    server is made to speak HTTP/2, Http2Server.cc: the choice of a protocol by
    ALPN, the session that requests share, the fallback to HTTP/1.1, cookies.

    Requests are coroutines of one scheduler; a turn is what one does between two
    suspensions.  The cookie lock is never held over a suspension.  What a
    connection gives (the protocol TLS selected, or an exception), what a request
    on a session gives and when a session ends are arguments of the turns; the
    session itself is [Http2ClientSession], the fallback [HttpClient]. *)

From Stdlib Require Import ZArith Lia String Strings.Byte.
From stdpp Require Import base numbers option list gmap.
From S2P Require Import Prelude CxxStd OrdMap HttpTypes CookieCodec CookieStore HttpOutgoing Url OpenSSLProvider.
Open Scope Z_scope.

(** ** Data *)

Inductive ProtocolVersion : Type := Http11 | Http2.

#[export] Instance ProtocolVersion_eq_dec : EqDecision ProtocolVersion.
Proof. solve_decision. Defined.

(** [Http2ClientConfig], with the two members of its [TlsPolicy] that the client
    sets. *)
Record Http2ClientConfig : Type := mkConfig {
  add_host_header : bool;
  allow_http1_fallback : bool;
  policy_alpn : list bytes;
  policy_hostname : bytes
}.

Section client.
Context {T : Type} `{!CookieStore T}.

(** [http2Session_] is the number of a session object of the [World];
    [http1Fallback_] tells whether the pointer is set. *)
Record Http2Client : Type := mkClient {
  client_url : Url;
  config_ : Http2ClientConfig;
  isHttps_ : bool;
  negotiatedProtocol_ : ProtocolVersion;
  http2Session_ : option nat;
  http1Fallback_ : bool;
  negotiatedAlpn_ : bytes;
  cookieStore_ : option T
}.

Definition set_protocol (p : ProtocolVersion) (cl : Http2Client) : Http2Client :=
  mkClient (client_url cl) (config_ cl) (isHttps_ cl) p (http2Session_ cl) (http1Fallback_ cl) (negotiatedAlpn_ cl)
    (cookieStore_ cl).
Definition set_session (s : nat) (cl : Http2Client) : Http2Client :=
  mkClient (client_url cl) (config_ cl) (isHttps_ cl) (negotiatedProtocol_ cl) (Some s) (http1Fallback_ cl)
    (negotiatedAlpn_ cl) (cookieStore_ cl).
Definition set_fallback (cl : Http2Client) : Http2Client :=
  mkClient (client_url cl) (config_ cl) (isHttps_ cl) (negotiatedProtocol_ cl) (http2Session_ cl) true
    (negotiatedAlpn_ cl) (cookieStore_ cl).
Definition set_alpn (a : bytes) (cl : Http2Client) : Http2Client :=
  mkClient (client_url cl) (config_ cl) (isHttps_ cl) (negotiatedProtocol_ cl) (http2Session_ cl) (http1Fallback_ cl)
    a (cookieStore_ cl).
Definition set_store (st : T) (cl : Http2Client) : Http2Client :=
  mkClient (client_url cl) (config_ cl) (isHttps_ cl) (negotiatedProtocol_ cl) (http2Session_ cl) (http1Fallback_ cl)
    (negotiatedAlpn_ cl) (Some st).

Definition newHttp2Client (url : Url) (config : Http2ClientConfig) (store : option T) : outcome Http2Client :=
  let isHttps := bool_decide (scheme_ url = str "https") in
  if negb (bool_decide (scheme_ url = str "http")) && negb isHttps
  then Throw (InvalidArgument ("Http2Client: unsupported scheme: " ++ string_of_list_byte (scheme_ url)))
  else
    let config :=
      if isHttps then
        mkConfig (add_host_header config) (allow_http1_fallback config)
          (str "h2" :: if allow_http1_fallback config then [str "http/1.1"] else [])
          (if bool_decide (policy_hostname config = []) then host_ url else policy_hostname config)
      else config in
    Ok (mkClient url config isHttps Http2 None false [] store).

(** ** The choice of a protocol *)

Definition negotiateProtocol (cl : Http2Client) : outcome ProtocolVersion :=
  if isHttps_ cl then
    if bool_decide (negotiatedAlpn_ cl = str "h2") then Ok Http2
    else if bool_decide (negotiatedAlpn_ cl = str "http/1.1") && allow_http1_fallback (config_ cl) then Ok Http11
    else Throw (RuntimeError "Http2Client: No compatible protocol negotiated via ALPN")
  else Ok Http2.

(** [connect]: [net::resolve], [TcpConnection::connect] with an address and a
    port, and [TlsStream::connect] with what the server selected by ALPN; without
    TLS nothing is selected. *)
Definition connect {Addr Tcp : Type} (resolve : bytes -> outcome (list Addr)) (tcpConnect : Addr -> Z -> outcome Tcp)
    (tlsConnect : Tcp -> outcome bytes) (cl : Http2Client) : outcome bytes :=
  let! addresses := resolve (host_ (client_url cl)) in
  match addresses with
  | [] =>
      Throw (RuntimeError ("Http2Client: DNS resolution failed for " ++ string_of_list_byte (host_ (client_url cl))))
  | addr :: _ =>
      let port :=
        if negb (port_ (client_url cl) =? 0) then port_ (client_url cl) else if isHttps_ cl then 443 else 80 in
      let! conn := tcpConnect addr port in
      if isHttps_ cl then tlsConnect conn else Ok []
  end.

(** ** Cookies *)

Definition injectCookies (clock : Clock) (req : ClientRequest) (path : bytes) (cl : Http2Client)
    : outcome ClientRequest :=
  match cookieStore_ cl with
  | None => Ok req
  | Some st =>
      let! cs := cs_load clock path st in
      Ok (foldl (fun r c => if c_secure c && negb (isHttps_ cl) then r else setCookie (c_name c) (c_value c) r) req cs)
  end.

Definition collectCookies (clock : Clock) (path : bytes) (cookies : list Cookie) (cl : Http2Client)
    : outcome Http2Client :=
  match cookieStore_ cl with
  | None => Ok cl
  | Some st => let! st' := cs_store clock path cookies st in Ok (set_store st' cl)
  end.

(** ** Requests *)

(** What [get] and [post] ask for. *)
Definition getRequest (path : bytes) : ClientRequest := setPath path (setMethod Get newClientRequest).
Definition postRequest (path body : bytes) : ClientRequest :=
  setRequestBody body (setPath path (setMethod Post newClientRequest)).

(** Where a request is: waiting for its connection, sent on a session with
    [reqPath] kept, given to the fallback, over. *)
Inductive Progress : Type :=
| Connecting (req : ClientRequest)
| OnSession (session : nat) (reqPath : bytes) (req : ClientRequest)
| OnFallback (req : ClientRequest)
| Returned
| Failed (e : exn)
| NullPointer
| Undef.

(** The sessions ever made: the protocol TLS had selected, and [isAlive]. *)
Record World : Type := mkWorld {
  client : Http2Client;
  sessions : list (bytes * bool);
  requests : list Progress
}.

Definition set_client (cl : Http2Client) (w : World) : World := mkWorld cl (sessions w) (requests w).
Definition set_progress (i : nat) (p : Progress) (w : World) : World :=
  mkWorld (client w) (sessions w) (<[i := p]> (requests w)).

Definition isAlive (s : nat) (w : World) : bool :=
  match sessions w !! s with Some (_, alive) => alive | None => false end.

(** [http1Fallback_->request(req)] *)
Definition useFallback (req : ClientRequest) (cl : Http2Client) : Progress :=
  if http1Fallback_ cl then OnFallback req else NullPointer.

(** The rest of [request] after [getSession] returned, up to the answer. *)
Definition afterSession (clock : Clock) (session : option nat) (req : ClientRequest) (cl : Http2Client) : Progress :=
  if decide (negotiatedProtocol_ cl = Http11) then useFallback req cl
  else
    match injectCookies clock req (path (data_ req)) cl with
    | Ok req =>
        match session with
        | None => NullPointer
        | Some s => OnSession s (path (data_ req)) req
        end
    | Throw e => Failed e
    | _ => Undef
    end.

(** [request] up to its first suspension. *)
Definition request (clock : Clock) (req : ClientRequest) (w : World) : Progress :=
  let cl := client w in
  let req := if add_host_header (config_ cl) then setRequestHeaderCode NC_Host (host_ (client_url cl)) req else req in
  if decide (negotiatedProtocol_ cl = Http11) then useFallback req cl
  else
    match http2Session_ cl with
    | Some s => if isAlive s w then afterSession clock (Some s) req cl else Connecting req
    | None => Connecting req
    end.

(** [getSession] and [request] from the end of [connect], with what it gave. *)
Definition connected (clock : Clock) (alpn : bytes) (req : ClientRequest) (w : World) : World * Progress :=
  let cl := if isHttps_ (client w) then set_alpn alpn (client w) else client w in
  match negotiateProtocol cl with
  | Ok Http11 =>
      let cl := set_fallback (set_protocol Http11 cl) in
      (set_client cl w, afterSession clock None req cl)
  | Ok Http2 =>
      let s := length (sessions w) in
      let cl := set_session s (set_protocol Http2 cl) in
      (mkWorld cl (sessions w ++ [(negotiatedAlpn_ cl, true)]) (requests w), afterSession clock (Some s) req cl)
  | Throw e => (set_client cl w, Failed e)
  | _ => (w, Undef)
  end.

(** What happens next: a program asks, a connection or a session answers a
    request, a session ends. *)
Inductive turn : Type :=
| Request (clock : Clock) (req : ClientRequest)
| Connected (i : nat) (clock : Clock) (alpn : outcome bytes)
| Answered (i : nat) (clock : Clock) (cookies : outcome (list Cookie))
| SessionEnds (s : nat).

Definition run_turn (t : turn) (w : World) : World :=
  match t with
  | Request clock req => mkWorld (client w) (sessions w) (requests w ++ [request clock req w])
  | Connected i clock alpn =>
      match requests w !! i, alpn with
      | Some (Connecting req), Ok a => let '(w', p) := connected clock a req w in set_progress i p w'
      | Some (Connecting _), Throw e => set_progress i (Failed e) w
      | _, _ => w
      end
  | Answered i clock cookies =>
      match requests w !! i with
      | Some (OnSession _ reqPath _) =>
          match (let! cs := cookies in collectCookies clock reqPath cs (client w)) with
          | Ok cl => set_progress i Returned (set_client cl w)
          | Throw e => set_progress i (Failed e) w
          | _ => set_progress i Undef w
          end
      | _ => w
      end
  | SessionEnds s => mkWorld (client w) (alter (fun o => (fst o, false)) s (sessions w)) (requests w)
  end.

Definition run_turns (ts : list turn) (w : World) : World := foldl (fun w t => run_turn t w) w ts.
End client.
Arguments Http2Client : clear implicits.
Arguments World : clear implicits.

(** ** [enableHttp2] *)

(** The protocols [enableHttp2(server, policy)] offers, and what its upgrader
    does with a connection: an [Http2Session] serves it, or HTTP/1.1 goes on. *)
Definition serverAlpn : list bytes := [str "h2"; str "http/1.1"].

Inductive Upgraded : Type := RunsHttp2Session | TlsStreamForHttp1.

Definition upgrader (negotiatedAlpn : bytes) : Upgraded :=
  if bool_decide (negotiatedAlpn = str "h2") then RunsHttp2Session else TlsStreamForHttp1.

(** ** Invariants *)

Section invariants.
Context {T : Type} `{!CookieStore T}.

Definition request_ok (w : World T) (p : Progress) : Prop :=
  match p with
  | OnSession s _ _ => is_Some (sessions w !! s)
  | OnFallback _ => http1Fallback_ (client w) = true
  | NullPointer => False
  | _ => True
  end.

(** Pointers lead somewhere; over TLS a session is made only when h2 was
    selected, and the fallback only when it is allowed. *)
Record world_ok (w : World T) : Prop := {
  ok_fallback : negotiatedProtocol_ (client w) = Http11 -> http1Fallback_ (client w) = true;
  ok_allowed : http1Fallback_ (client w) = true ->
    isHttps_ (client w) = true /\ allow_http1_fallback (config_ (client w)) = true;
  ok_made : isHttps_ (client w) = true -> Forall (fun o => fst o = str "h2") (sessions w);
  ok_requests : Forall (request_ok w) (requests w)
}.

Definition is_connecting (p : Progress) : bool := match p with Connecting _ => true | _ => false end.

Definition nobody_connects (w : World T) : Prop := Forall (fun p => is_connecting p = false) (requests w).

(** No session is alive but the client's, and none while a request connects,
    which only one does. *)
Record single (w : World T) : Prop := {
  si_alive s : isAlive s w = true -> http2Session_ (client w) = Some s /\ nobody_connects w;
  si_connecting i j p q : requests w !! i = Some p -> requests w !! j = Some q ->
    is_connecting p = true -> is_connecting q = true -> i = j
}.

(** Requests begin only while no other connects. *)
Fixpoint sequential (ts : list turn) (w : World T) : Prop :=
  match ts with
  | [] => True
  | t :: ts' =>
      match t with Request _ _ => nobody_connects w | _ => True end /\ sequential ts' (run_turn t w)
  end.

Definition start (cl : Http2Client T) : World T := mkWorld cl [] [].

Lemma afterSession_ok (clock : Clock) (s : nat) (req : ClientRequest) (cl : Http2Client T) (w : World T) :
  (negotiatedProtocol_ cl = Http11 -> http1Fallback_ cl = true) -> http1Fallback_ cl = http1Fallback_ (client w) ->
  is_Some (sessions w !! s) -> request_ok w (afterSession clock (Some s) req cl).
Proof.
  intros Hf Heq Hs. unfold afterSession, useFallback. destruct (decide _) as [H11 |].
  - rewrite (Hf H11). cbn. by rewrite <- Heq, Hf.
  - by destruct (injectCookies _ _ _ _).
Qed.

Lemma request_begins (clock : Clock) (req : ClientRequest) (w : World T) :
  world_ok w -> request_ok w (request clock req w).
Proof.
  intros [H1 H2 H3 H4]. unfold request, useFallback. set (req' := if add_host_header _ then _ else _).
  destruct (decide _) as [H11 |]; [by rewrite (H1 H11); cbn; apply H1 |].
  destruct (http2Session_ _) as [s |]; [| done]. destruct (isAlive s w) eqn:Ha; [| done].
  apply afterSession_ok; [done | done |]. unfold isAlive in Ha. by destruct (sessions w !! s).
Qed.

Lemma request_ok_grows (w w' : World T) (p : Progress) :
  (forall s, is_Some (sessions w !! s) -> is_Some (sessions w' !! s)) ->
  (http1Fallback_ (client w) = true -> http1Fallback_ (client w') = true) ->
  request_ok w p -> request_ok w' p.
Proof. intros Hs Hf. destruct p; cbn; auto. Qed.

Lemma world_ok_progress (i : nat) (p : Progress) (w : World T) :
  world_ok w -> request_ok w p -> world_ok (set_progress i p w).
Proof.
  intros [H1 H2 H3 H4] Hp. split; [done .. |]. cbn [requests set_progress].
  apply Forall_insert; [exact H4 | exact Hp].
Qed.

Lemma connected_ok (clock : Clock) (alpn : bytes) (req : ClientRequest) (w w' : World T) (p : Progress) :
  world_ok w -> connected clock alpn req w = (w', p) -> world_ok w' /\ request_ok w' p /\ requests w' = requests w.
Proof.
  intros Hok. pose proof Hok as [H1 H2 H3 H4]. unfold connected. set (cl := if isHttps_ (client w) then _ else _).
  assert (Hcl : isHttps_ cl = isHttps_ (client w) /\ config_ cl = config_ (client w)
    /\ http1Fallback_ cl = http1Fallback_ (client w) /\ negotiatedProtocol_ cl = negotiatedProtocol_ (client w))
    by (unfold cl; destruct (isHttps_ (client w)) eqn:E; cbn; by rewrite ?E).
  destruct Hcl as (Hh & Hc & Hf & Hn). clearbody cl.
  destruct (negotiateProtocol cl) as [[] | e | |] eqn:Hneg.
  - intros [= <- <-]. unfold negotiateProtocol in Hneg. destruct (isHttps_ cl) eqn:Hs; [| done].
    destruct (bool_decide _); [done |]. destruct (_ && _) eqn:Ha; [| done]. apply andb_true_iff in Ha as [_ Ha].
    split; [split; cbn |].
    + done.
    + intros _. by split.
    + intros _. by apply H3.
    + eapply Forall_impl; [exact H4 |]. intros q. by apply request_ok_grows.
    + split; [| done]. by unfold afterSession, useFallback.
  - intros [= <- <-]. split; [split; cbn; try done |].
    + intros H. rewrite Hh, Hc. apply H2. congruence.
    + rewrite Hh. intros Hs. apply Forall_app. split; [by apply H3 |]. repeat constructor. cbn.
      unfold negotiateProtocol in Hneg. rewrite Hh, Hs in Hneg.
      destruct (bool_decide_reflect (negotiatedAlpn_ cl = str "h2")); [done |]. by destruct (_ && _).
    + eapply Forall_impl; [exact H4 |]. intros q. apply request_ok_grows; cbn; [| congruence].
      intros s [o Ho]. exists o. by apply lookup_app_l_Some.
    + split; [| done]. apply afterSession_ok; [done | done |]. cbn. exists (negotiatedAlpn_ cl, true).
      by rewrite lookup_app_r, Nat.sub_diag by lia.
  - intros [= <- <-]. split; [| done]. split; cbn; try congruence.
    + rewrite Hn, Hf. done.
    + rewrite Hh, Hc, Hf. done.
    + rewrite Hh. done.
    + eapply Forall_impl; [exact H4 |]. intros q. apply request_ok_grows; cbn; [done | congruence].
  - intros [= <- <-]. by split; [| split].
  - intros [= <- <-]. by split; [| split].
Qed.

Lemma collectCookies_same (clock : Clock) (path : bytes) (cs : list Cookie) (cl cl' : Http2Client T) :
  collectCookies clock path cs cl = Ok cl' ->
  exists st, cl' = mkClient (client_url cl) (config_ cl) (isHttps_ cl) (negotiatedProtocol_ cl) (http2Session_ cl)
    (http1Fallback_ cl) (negotiatedAlpn_ cl) st.
Proof.
  unfold collectCookies. destruct (cookieStore_ cl) as [st |] eqn:Hst.
  - destruct (cs_store _ _ _ _) as [st' | | |]; [| done ..]. intros [= <-]. by exists (Some st').
  - intros [= <-]. exists None. destruct cl. cbn in *. by subst.
Qed.

Lemma run_turn_ok (t : turn) (w : World T) : world_ok w -> world_ok (run_turn t w).
Proof.
  intros Hok. destruct t as [clock req | i clock alpn | i clock cookies | s]; cbn [run_turn].
  - pose proof Hok as [H1 H2 H3 H4]. split; [done .. |]. cbn. apply Forall_app. split; [exact H4 |].
    repeat constructor. by apply (request_begins clock req w).
  - destruct (requests w !! i) as [[req | | | | | |] |]; try done. destruct alpn as [a | e | |]; try done.
    + destruct (connected clock a req w) as [w' p] eqn:Hc.
      destruct (connected_ok clock a req w w' p Hok Hc) as (H1 & H2 & _). by apply world_ok_progress.
    + by apply world_ok_progress.
  - destruct (requests w !! i) as [[| s p req | | | | |] |]; try done.
    destruct (obind cookies _) as [cl | e | |] eqn:Hc; [| by apply world_ok_progress ..].
    destruct cookies as [cs | | |]; [| done ..]. destruct (collectCookies_same _ _ _ _ _ Hc) as (st & ->).
    apply world_ok_progress; [| done]. destruct Hok as [H1 H2 H3 H4]. by split.
  - destruct Hok as [H1 H2 H3 H4]. split; [done | done | |].
    + intros Hs. cbn. apply Forall_alter; [by apply H3 |]. by intros [a b] _.
    + eapply Forall_impl; [exact H4 |]. intros q. apply request_ok_grows; [| done]. cbn. intros s'.
      rewrite !lookup_lt_is_Some. by rewrite length_alter.
Qed.

Lemma run_turns_ok (ts : list turn) (w : World T) : world_ok w -> world_ok (run_turns ts w).
Proof. revert w. induction ts as [| t ts IH]; intros w Hw; [done |]. by apply IH, run_turn_ok. Qed.

Lemma start_ok (url : Url) (config : Http2ClientConfig) (store : option T) (cl : Http2Client T) :
  newHttp2Client url config store = Ok cl -> world_ok (start cl) /\ single (start cl).
Proof.
  unfold newHttp2Client. destruct (_ && _); [done |]. intros [= <-].
  by split; split.
Qed.

(** *** One session at a time *)

Lemma afterSession_sent (clock : Clock) (s : option nat) (req : ClientRequest) (cl : Http2Client T) :
  is_connecting (afterSession clock s req cl) = false.
Proof.
  unfold afterSession, useFallback. destruct (decide _); [by destruct (http1Fallback_ cl) |].
  destruct (injectCookies _ _ _ _); [by destruct s | done ..].
Qed.

Lemma connected_sent (clock : Clock) (alpn : bytes) (req : ClientRequest) (w : World T) :
  is_connecting (snd (connected clock alpn req w)) = false.
Proof.
  unfold connected. destruct (negotiateProtocol _) as [[] | | |]; cbn [snd]; by rewrite ?afterSession_sent.
Qed.

Lemma single_progress (i : nat) (p : Progress) (w : World T) :
  single w -> is_connecting p = false -> single (set_progress i p w).
Proof.
  intros [H1 H2] Hp. split.
  - intros s Hs. destruct (H1 s Hs) as [He Hn]. split; [exact He |]. by apply Forall_insert.
  - intros a b q r. cbn [requests set_progress]. rewrite !list_lookup_insert_Some.
    intros [(<- & <- & _) | (_ & Ha)] Hb Hq Hr; [congruence |]. destruct Hb as [(<- & <- & _) | (_ & Hb)]; [congruence |].
    by eapply H2.
Qed.

Lemma connecting_alone (i : nat) (req : ClientRequest) (w : World T) :
  single w -> requests w !! i = Some (Connecting req) ->
  (forall s, isAlive s w = false)
  /\ forall p, is_connecting p = false -> Forall (fun p => is_connecting p = false) (<[i := p]> (requests w)).
Proof.
  intros [H1 H2] Hi. split.
  - intros s. destruct (isAlive s w) eqn:Hs; [| done]. destruct (H1 s Hs) as [_ Hn].
    exact (Forall_lookup_1 _ _ _ _ Hn Hi).
  - intros p Hp. apply Forall_lookup. intros j q. rewrite list_lookup_insert_Some.
    intros [(_ & <- & _) | (Hne & Hj)]; [done |]. destruct (is_connecting q) eqn:Hq; [| done].
    by destruct (Hne (H2 i j _ q Hi Hj eq_refl Hq)).
Qed.

Lemma connected_single (i : nat) (clock : Clock) (alpn : bytes) (req : ClientRequest) (w : World T) :
  single w -> requests w !! i = Some (Connecting req) ->
  single (set_progress i (snd (connected clock alpn req w)) (fst (connected clock alpn req w))).
Proof.
  intros Hw Hi. destruct (connecting_alone i req w Hw Hi) as [Hdead Hnone].
  pose proof (connected_sent clock alpn req w) as Hp. specialize (Hnone _ Hp).
  assert (Hreq : requests (fst (connected clock alpn req w)) = requests w)
    by (unfold connected; by destruct (negotiateProtocol _) as [[] | | |]).
  split.
  - intros s Hs. unfold nobody_connects. cbn [requests set_progress]. rewrite Hreq. split; [| exact Hnone].
    specialize (Hdead s). revert Hs. unfold isAlive in *. cbn [sessions client set_progress].
    unfold connected. destruct (negotiateProtocol _) as [[] | | |]; cbn; try (rewrite Hdead; done).
    destruct (decide (s < length (sessions w))%nat); [rewrite lookup_app_l by done; by rewrite Hdead |].
    rewrite lookup_app_r by lia. destruct (s - length (sessions w))%nat as [| k] eqn:Hk; [| done].
    intros _. f_equal. lia.
  - intros a b p q. cbn [requests set_progress]. rewrite Hreq. intros Ha _ Hq _.
    pose proof (Forall_lookup_1 _ _ _ _ Hnone Ha) as H. cbn in H. congruence.
Qed.

Lemma run_turn_single (t : turn) (w : World T) :
  match t with Request _ _ => nobody_connects w | _ => True end -> single w -> single (run_turn t w).
Proof.
  intros Ht Hw. destruct t as [clock req | i clock alpn | i clock cookies | s]; cbn [run_turn].
  - pose proof Hw as [H1 H2].
    assert (Hsent : forall s, isAlive s w = true -> is_connecting (request clock req w) = false).
    { intros s Hs. unfold request, useFallback. destruct (decide _); [by destruct (http1Fallback_ _) |].
      destruct (H1 s Hs) as [-> _]. rewrite Hs. apply afterSession_sent. }
    split.
    + intros s Hs. destruct (H1 s Hs) as [He _]. split; [exact He |]. apply Forall_app. split; [done |].
      repeat constructor. by apply (Hsent s).
    + assert (Hlast : forall a p, (requests w ++ [request clock req w]) !! a = Some p -> is_connecting p = true ->
        a = length (requests w)).
      { intros a p. rewrite lookup_app_Some. intros [Ha | [Hlen Ha]] Hp.
        - pose proof (Forall_lookup_1 _ _ _ _ Ht Ha) as Hn. cbn in Hn. congruence.
        - apply lookup_lt_Some in Ha. cbn in Ha. lia. }
      intros a b p q Ha Hb Hp Hq. by rewrite (Hlast a p), (Hlast b q).
  - destruct (requests w !! i) as [[req | | | | | |] |] eqn:Hi; try done. destruct alpn as [a | e | |]; try done.
    + pose proof (connected_single i clock a req w Hw Hi) as H. by destruct (connected clock a req w).
    + by apply single_progress.
  - destruct (requests w !! i) as [[| s p req | | | | |] |]; try done.
    destruct (obind cookies _) as [cl | e | |] eqn:Hc; [| by apply single_progress ..].
    destruct cookies as [cs | | |]; [| done ..]. destruct (collectCookies_same _ _ _ _ _ Hc) as (st & ->).
    apply single_progress; [| done]. destruct Hw as [H1 H2]. split; [| exact H2]. intros s' Hs'. exact (H1 s' Hs').
  - destruct Hw as [H1 H2]. split; [| exact H2]. intros s' Hs'. apply H1. revert Hs'. unfold isAlive. cbn.
    destruct (decide (s' = s)) as [-> | Hne]; [| by rewrite list_lookup_alter_ne].
    rewrite list_lookup_alter_eq. by destruct (sessions w !! s) as [[]|].
Qed.

Lemma run_turns_single (ts : list turn) (w : World T) : sequential ts w -> single w -> single (run_turns ts w).
Proof.
  revert w. induction ts as [| t ts IH]; intros w Hseq Hw; [done |]. destruct Hseq as [Ht Hs].
  apply (IH (run_turn t w)); [done | by apply run_turn_single].
Qed.

Lemma run_turns_fixed (ts : list turn) (w : World T) :
  isHttps_ (client (run_turns ts w)) = isHttps_ (client w) /\ config_ (client (run_turns ts w)) = config_ (client w).
Proof.
  revert w. induction ts as [| t ts IH]; intros w; [done |]. unfold run_turns. cbn [foldl].
  destruct (IH (run_turn t w)) as [H1 H2]. unfold run_turns in H1, H2. rewrite H1, H2. clear.
  destruct t as [clock req | i clock alpn | i clock cookies | s]; [done | | | done]; cbn [run_turn].
  - destruct (requests w !! i) as [[req | | | | | |] |]; try done. destruct alpn as [a | | |]; try done.
    unfold connected. destruct (isHttps_ (client w)) eqn:E; by destruct (negotiateProtocol _) as [[] | | |].
  - destruct (requests w !! i) as [[| s p req | | | | |] |]; try done. destruct cookies as [cs | | |]; try done.
    cbn [obind]. destruct (collectCookies _ _ _ _) as [cl | | |] eqn:Hc; try done.
    by destruct (collectCookies_same _ _ _ _ _ Hc) as (st & ->).
Qed.
End invariants.

(** ** Properties *)

(** C17: what requests of an HTTP/2 client meet.  However programs begin requests,
    connections come up with whatever protocol or fail, answers arrive and
    sessions end: no request follows a null pointer; one on a session has a session
    that exists, and that TLS selected h2 for when the scheme is https; one goes to
    HTTP/1.1 only under https and when the configuration allows it; and when
    requests begin while no other is connecting, no session lives but the one the
    client has. *)
Theorem h2_client_requests {T : Type} `{!CookieStore T} (url : Url) (config : Http2ClientConfig) (store : option T)
    (cl : Http2Client T) (ts : list turn) :
  newHttp2Client url config store = Ok cl ->
  let w := run_turns ts (start cl) in
  (NullPointer ∉ requests w)
  /\ (forall s q r, OnSession s q r ∈ requests w ->
        exists a alive, sessions w !! s = Some (a, alive) /\ (scheme_ url = str "https" -> a = str "h2"))
  /\ (forall r, OnFallback r ∈ requests w -> scheme_ url = str "https" /\ allow_http1_fallback config = true)
  /\ (sequential ts (start cl) -> forall s, isAlive s w = true -> http2Session_ (client w) = Some s).
Proof.
  intros Hnew. cbv zeta. destruct (start_ok url config store cl Hnew) as [Hok Hone].
  pose proof (fun Hseq => run_turns_single ts (start cl) Hseq Hone) as Hsingle.
  pose proof (run_turns_ok ts _ Hok) as Hw. destruct (run_turns_fixed ts (start cl)) as [Hh Hc].
  set (w := run_turns ts (start cl)) in *. clearbody w. destruct Hw as [H1 H2 H3 H4].
  assert (Hcl : isHttps_ cl = bool_decide (scheme_ url = str "https")
    /\ allow_http1_fallback (config_ cl) = allow_http1_fallback config).
  { unfold newHttp2Client in Hnew. destruct (_ && _); [done |]. injection Hnew as <-. cbn. by destruct (bool_decide _). }
  destruct Hcl as [Hs Ha]. rewrite Hh, Hc in *. cbn [client start] in *. rewrite Hs, Ha, bool_decide_eq_true in *.
  rewrite Forall_forall in H4. split; [| split; [| split]].
  - intros Hin. exact (H4 _ Hin).
  - intros s q r Hin. destruct (H4 _ Hin) as [[a alive] Ho]. exists a, alive. split; [done |]. intros Hscheme.
    exact (Forall_lookup_1 _ _ _ _ (H3 Hscheme) Ho).
  - intros r Hin. apply H2. exact (H4 _ Hin).
  - intros Hseq s Hs'. by apply (Hsingle Hseq).
Qed.

Definition sample_url : Url :=
  mkUrl (str "https://example.com") (str "https") (str "example.com") 443 (str "/") [] (str "/") true.

Definition sample_config : Http2ClientConfig := mkConfig true true [] [].

(** A request makes a session, the next one uses it; it ends, and the server
    then has only HTTP/1.1. *)
Definition sample_turns : list turn :=
  let req := getRequest (str "/") in
  [Request (fun _ => 0) req; Connected 0 (fun _ => 0) (Ok (str "h2")); Request (fun _ => 0) req;
   Answered 1 (fun _ => 0) (Ok []); SessionEnds 0; Request (fun _ => 0) req; Connected 2 (fun _ => 0) (Ok (str "http/1.1"))].

#[local] Instance memory_store : CookieStore (list CookieStore.Entry) := MemoryCookieStore (fun _ => None).

Definition sample_client : Http2Client (list CookieStore.Entry) :=
  mkClient sample_url (mkConfig true true [str "h2"; str "http/1.1"] (str "example.com")) true Http2 None false []
    (Some []).

Lemma h2_client_requests_witness :
  let w := run_turns sample_turns (start sample_client) in
  (NullPointer ∉ requests w)
  /\ (forall s q r, OnSession s q r ∈ requests w ->
        exists a alive, sessions w !! s = Some (a, alive) /\ (scheme_ sample_url = str "https" -> a = str "h2"))
  /\ (forall r, OnFallback r ∈ requests w ->
        scheme_ sample_url = str "https" /\ allow_http1_fallback sample_config = true)
  /\ (sequential sample_turns (start sample_client) ->
        forall s, isAlive s w = true -> http2Session_ (client w) = Some s).
Proof.
  apply (h2_client_requests sample_url sample_config (Some []) sample_client sample_turns).
  vm_compute. reflexivity.
Defined.

Lemma sample_progress :
  match requests (run_turns sample_turns (start sample_client)) with
  | [OnSession 0 _ _; Returned; OnFallback _] => True
  | _ => False
  end.
Proof. vm_compute. exact I. Qed.

(** Two requests that begin before the first connection is up make two
    sessions, and the client forgets one of them while it lives. *)
Lemma two_sessions_alive :
  let req := getRequest (str "/") in
  let w := run_turns
    [Request (fun _ => 0) req; Request (fun _ => 0) req;
     Connected 0 (fun _ => 0) (Ok (str "h2")); Connected 1 (fun _ => 0) (Ok (str "h2"))] (start sample_client) in
  isAlive 0 w = true /\ isAlive 1 w = true /\ http2Session_ (client w) = Some 1%nat.
Proof. vm_compute. by split. Qed.

Lemma selected_cases (server : list bytes) (allow : bool) :
  let offer := str "h2" :: if allow then [str "http/1.1"] else [] in
  let selected := alpnSelectCb server (alpnWire offer) in
  Forall (fun p => size p < 256) offer ->
  selected = None \/ selected = Some (str "h2") \/ (allow = true /\ selected = Some (str "http/1.1")).
Proof.
  intros offer selected Hsizes. unfold selected. rewrite alpn_negotiated by done.
  destruct (filter _ server) as [| p l] eqn:Hf; [by left | right].
  assert (Hin : p ∈ filter (fun p => p ∈ offer) server) by (rewrite Hf; by left).
  apply list_elem_of_filter in Hin as [Hin _]. unfold offer in Hin. cbn [head].
  apply elem_of_cons in Hin as [-> | Hin]; [by left | right]. destruct allow; [| by apply elem_of_nil in Hin].
  by apply list_elem_of_singleton in Hin as ->.
Qed.

(** C33: both ends agree on the protocol.  For an https client with any
    configuration and a server with any list of protocols, let ALPN select as the
    server's callback does: the client speaks HTTP/2 exactly when h2 is
    selected, HTTP/1.1 exactly when http/1.1 is, and otherwise refuses; with a
    server made by [enableHttp2] it speaks HTTP/2 and the server runs a session.
    To clients with any other offer that server speaks HTTP/2 exactly when h2
    is offered. *)
Theorem h2_negotiation {T : Type} (url : Url) (config : Http2ClientConfig) (store : option T)
    (cl : Http2Client T) (server : list bytes) :
  newHttp2Client url config store = Ok cl -> scheme_ url = str "https" ->
  let offer := policy_alpn (config_ cl) in
  let selected s := alpnSelectCb s (alpnWire offer) in
  let chosen s := negotiateProtocol (set_alpn (default [] (selected s)) cl) in
  (chosen server = Ok Http2 <-> selected server = Some (str "h2"))
  /\ (chosen server = Ok Http11 <-> selected server = Some (str "http/1.1"))
  /\ ((exists e, chosen server = Throw e) <-> selected server = None)
  /\ chosen serverAlpn = Ok Http2 /\ upgrader (default [] (selected serverAlpn)) = RunsHttp2Session
  /\ forall others, Forall (fun p => size p < 256) others ->
       (upgrader (default [] (alpnSelectCb serverAlpn (alpnWire others))) = RunsHttp2Session <-> str "h2" ∈ others).
Proof.
  intros Hnew Hs. unfold newHttp2Client in Hnew. rewrite Hs in Hnew. injection Hnew as <-. cbv zeta.
  cbn [policy_alpn config_]. set (allow := allow_http1_fallback config).
  set (offer := str "h2" :: if allow then [str "http/1.1"] else []).
  assert (Hsizes : Forall (fun p => size p < 256) offer) by (unfold offer; destruct allow; by repeat constructor).
  assert (Hcases : forall s, alpnSelectCb s (alpnWire offer) = None \/ alpnSelectCb s (alpnWire offer) = Some (str "h2")
    \/ (allow = true /\ alpnSelectCb s (alpnWire offer) = Some (str "http/1.1"))) by (intros s; by apply selected_cases).
  unfold upgrader. split_and!; [| | | | | intros others Ho].
  1-3: destruct (Hcases server) as [-> | [-> | [Hallow ->]]];
    unfold negotiateProtocol; cbn [set_alpn isHttps_ negotiatedAlpn_ config_ allow_http1_fallback default];
    fold allow; rewrite ?Hallow; split; try done; (by eexists) || (by intros [? [=]]).
  1-2: destruct (Hcases serverAlpn) as [H | [H | [Hallow H]]]; rewrite H; try done;
    rewrite alpn_negotiated in H by exact Hsizes; by destruct allow.
  rewrite alpn_negotiated by done. unfold serverAlpn. rewrite !filter_cons, filter_nil.
  destruct (decide (str "h2" ∈ others)); [done |]. split; [| done]. by destruct (decide _).
Qed.

Lemma h2_negotiation_witness :
  let selected s := alpnSelectCb s (alpnWire [str "h2"; str "http/1.1"]) in
  let chosen s := negotiateProtocol (set_alpn (default [] (selected s)) sample_client) in
  let server := [str "spdy/3"; str "http/1.1"] in
  (chosen server = Ok Http2 <-> selected server = Some (str "h2"))
  /\ (chosen server = Ok Http11 <-> selected server = Some (str "http/1.1"))
  /\ ((exists e, chosen server = Throw e) <-> selected server = None)
  /\ chosen serverAlpn = Ok Http2 /\ upgrader (default [] (selected serverAlpn)) = RunsHttp2Session
  /\ forall others, Forall (fun p => size p < 256) others ->
       (upgrader (default [] (alpnSelectCb serverAlpn (alpnWire others))) = RunsHttp2Session <-> str "h2" ∈ others).
Proof.
  apply (h2_negotiation sample_url sample_config (Some []) sample_client [str "spdy/3"; str "http/1.1"]);
    [vm_compute; reflexivity | reflexivity].
Defined.
