(* ===== verification/Generator.v ===== *)
(** Generators: src/include/nitrocoro/core/Generator.h.

    A body is a program that runs from one suspension to the next: [body] gives
    the value it yields with its variables, or how it ends.  The frame of the
    coroutine and the promise in it are modelled as they are used: a frame whose
    body has ended must not be resumed.  [moved] says what the body's variables
    are after the value it yielded was moved out. *)

From Stdlib Require Import ZArith Lia String.
From stdpp Require Import base numbers option list.
From S2P Require Import Prelude.
Open Scope Z_scope.

Section generator.
Context {S T : Type}.

Inductive Resumed : Type :=
| Yielded (v : T) (s : S)
| Ended (e : option exn).

Context (body : S -> Resumed) (moved : S -> S).

(** ** The frame *)

(** [at_]: where the body is, nothing at its final suspension; [value_]: what the
    pointer of the promise leads to, nothing once that is gone. *)
Record Frame : Type := mkFrame {
  at_ : option S;
  value_ : option T;
  exception_ : option exn;
  consumer_ : option nat
}.

Definition newFrame (s : S) : Frame := mkFrame (Some s) None None None.

(** [handle_.done()] *)
Definition done_ (f : Frame) : bool := match at_ f with None => true | Some _ => false end.

(** [handle_.resume()]: to the next [yield_value], or to [return_void] or
    [unhandled_exception] and the final suspension. *)
Definition resume (f : Frame) : outcome Frame :=
  match at_ f with
  | None => Undefined
  | Some s =>
      match body s with
      | Yielded v s' => Ok (mkFrame (Some s') (Some v) (exception_ f) (consumer_ f))
      | Ended (Some e) => Ok (mkFrame None None (Some e) (consumer_ f))
      | Ended None => Ok (mkFrame None None (exception_ f) (consumer_ f))
      end
  end.

(** ** [Generator] *)

(** The handle: a frame, or null. *)
Definition Generator : Type := option Frame.

(** An iterator has the generator's handle, or null. *)
Inductive Iterator : Type := Here | Null.

Definition begin_ : M Generator Iterator := fun g =>
  match g with
  | None => (Ok Null, None)
  | Some f =>
      match resume f with
      | Ok f' =>
          if done_ f' then (Ok Null, Some f')
          else match exception_ f' with
               | Some e => (Throw e, Some f')
               | None => (Ok Here, Some f')
               end
      | Throw e => (Throw e, g)
      | Undefined => (Undefined, g)
      | Diverge => (Diverge, g)
      end
  end.

(** [operator++] *)
Definition increment (it : Iterator) : M Generator Iterator := fun g =>
  match it, g with
  | Here, Some f =>
      match resume f with
      | Ok f' =>
          if done_ f' then
            match exception_ f' with
            | Some e => (Throw e, Some f')
            | None => (Ok Null, Some f')
            end
          else (Ok Here, Some f')
      | Throw e => (Throw e, g)
      | Undefined => (Undefined, g)
      | Diverge => (Diverge, g)
      end
  | _, _ => (Undefined, g)
  end.

(** [operator*] *)
Definition dereference (it : Iterator) (g : Generator) : outcome T :=
  match it, g with
  | Here, Some f => match value_ f with Some v => Ok v | None => Undefined end
  | _, _ => Undefined
  end.

(** [for (auto & v : g)]: the values the loop's body is given, and how the loop
    ends. *)
Fixpoint forLoop (fuel : nat) (it : Iterator) (g : Generator) : list T * outcome unit :=
  match it with
  | Null => ([], Ok tt)
  | Here =>
      match fuel with
      | O => ([], Diverge)
      | Datatypes.S fuel' =>
          match dereference it g with
          | Ok v =>
              match increment it g with
              | (Ok it', g') => let '(vs, o) := forLoop fuel' it' g' in (v :: vs, o)
              | (Throw e, _) => ([v], Throw e)
              | (Undefined, _) => ([v], Undefined)
              | (Diverge, _) => ([v], Diverge)
              end
          | Throw e => ([], Throw e)
          | Undefined => ([], Undefined)
          | Diverge => ([], Diverge)
          end
      end
  end.

Definition forEach (fuel : nat) (g : Generator) : list T * outcome unit :=
  match begin_ g with
  | (Ok it, g') => forLoop fuel it g'
  | (Throw e, _) => ([], Throw e)
  | (Undefined, _) => ([], Undefined)
  | (Diverge, _) => ([], Diverge)
  end.

(** ** [AsyncGenerator] *)

(** [co_await gen.next()] of the coroutine [c]: what it gets, and who goes on
    when the generator suspends.  Between two calls, and within one, others may
    run; nobody else has the frame. *)
Definition next (c : nat) : M Frame (option T * option nat) := fun f =>
  match resume (mkFrame (at_ f) (value_ f) (exception_ f) (Some c)) with
  | Ok f' =>
      match exception_ f' with
      | Some e => (Throw e, f')
      | None =>
          match at_ f' with
          | None => (Ok (None, consumer_ f'), f')
          | Some s =>
              match value_ f' with
              | None => (Undefined, f')
              | Some v => (Ok (Some v, consumer_ f'), mkFrame (Some (moved s)) (value_ f') None (consumer_ f'))
              end
          end
      end
  | Throw e => (Throw e, f)
  | Undefined => (Undefined, f)
  | Diverge => (Diverge, f)
  end.

(** [while (auto v = co_await gen.next())]: the values and how it ends. *)
Fixpoint whileNext (fuel : nat) (c : nat) (f : Frame) : list T * outcome Frame :=
  match fuel with
  | O => ([], Diverge)
  | Datatypes.S fuel' =>
      match next c f with
      | (Ok (Some v, _), f') => let '(vs, o) := whileNext fuel' c f' in (v :: vs, o)
      | (Ok (None, _), f') => ([], Ok f')
      | (Throw e, _) => ([], Throw e)
      | (Undefined, _) => ([], Undefined)
      | (Diverge, _) => ([], Diverge)
      end
  end.

(** ** What a body does *)

(** [yields mv s vs s']: from [s] the body yields [vs] and is at [s'], its
    variables changed by [mv] after each value. *)
Inductive yields (mv : S -> S) : S -> list T -> S -> Prop :=
| yields_nil (s : S) : yields mv s [] s
| yields_cons (s s1 s2 : S) (v : T) (vs : list T) :
    body s = Yielded v s1 -> yields mv (mv s1) vs s2 -> yields mv s (v :: vs) s2.

Lemma forLoop_ends (s1 s2 : S) (v : T) (vs : list T) (e : option exn) (c : option nat) (fuel : nat) :
  yields id s1 vs s2 -> body s2 = Ended e -> (length vs < fuel)%nat ->
  forLoop fuel Here (Some (mkFrame (Some s1) (Some v) None c))
  = (v :: vs, match e with Some x => Throw x | None => Ok tt end).
Proof.
  intros H He. revert v fuel. induction H as [s1 | s1 s3 s2 x vs Hb Hy IH]; intros v fuel Hf;
    (destruct fuel as [| fuel]; [lia |]); cbn [forLoop dereference value_];
    unfold increment, resume; cbn [at_ exception_ consumer_].
  - rewrite He. destruct e as [x |]; cbn; [done |]. by destruct fuel.
  - rewrite Hb. cbn [done_ at_]. unfold id in IH. rewrite IH by (done || (cbn in Hf; lia)). done.
Qed.

Lemma forLoop_prefix (s1 s2 : S) (v : T) (vs : list T) (c : option nat) :
  yields id s1 vs s2 ->
  forLoop (length vs) Here (Some (mkFrame (Some s1) (Some v) None c)) = (take (length vs) (v :: vs), Diverge).
Proof.
  intros H. revert v. induction H as [s1 | s1 s3 s2 x vs Hb Hy IH]; intros v; [done |].
  cbn [length forLoop dereference value_]. unfold increment, resume. cbn [at_ exception_ consumer_].
  rewrite Hb. cbn [done_ at_]. unfold id in IH. by rewrite IH.
Qed.

(** A loop over a generator is a loop over what its body yields, and ends as the
    body ends; but what a body throws before its first value is lost. *)
Theorem generator_iterates (s s' : S) (vs : list T) (e : option exn) (fuel : nat) :
  yields id s vs s' -> body s' = Ended e -> (length vs < fuel)%nat ->
  forEach fuel (Some (newFrame s))
  = (vs, match e, vs with Some x, _ :: _ => Throw x | _, _ => Ok tt end).
Proof.
  intros H He Hf. unfold forEach, begin_, resume, newFrame. cbn [at_ exception_ consumer_].
  destruct H as [s | s s1 s2 v vs Hb Hy].
  - rewrite He. destruct e; cbn; by destruct fuel.
  - rewrite Hb. cbn [done_ at_ exception_]. unfold id in Hy.
    rewrite (forLoop_ends s1 s2 v vs e None fuel) by (done || (cbn in Hf; lia)). by destruct e.
Qed.

(** Also a body that never ends is read value by value. *)
Theorem generator_prefix (s s' : S) (v : T) (vs : list T) :
  yields id s (v :: vs) s' ->
  forEach (length vs) (Some (newFrame s)) = (take (length vs) (v :: vs), Diverge).
Proof.
  intros H. inversion H as [| ? s1 ? ? ? Hb Hy]; subst. unfold forEach, begin_, resume, newFrame.
  cbn [at_ exception_ consumer_]. rewrite Hb. cbn [done_ at_ exception_]. unfold id in Hy.
  by apply (forLoop_prefix s1 s').
Qed.

Lemma next_resumes_caller (c : nat) (f f' : Frame) (r : option T) (k : option nat) :
  next c f = (Ok (r, k), f') -> k = Some c.
Proof.
  unfold next, resume. cbn [at_ value_ exception_ consumer_]. destruct (at_ f) as [s |]; [| done].
  destruct (body s) as [v s1 | [e |]]; cbn; [| done |]; destruct (exception_ f); cbn; congruence.
Qed.

Lemma next_value (c : nat) (s s1 : S) (v : T) (w : option T) (k : option nat) :
  body s = Yielded v s1 ->
  next c (mkFrame (Some s) w None k) = (Ok (Some v, Some c), mkFrame (Some (moved s1)) (Some v) None (Some c)).
Proof. intros Hb. unfold next, resume. cbn. by rewrite Hb. Qed.

Lemma next_end (c : nat) (s : S) (e : option exn) (w : option T) (k : option nat) :
  body s = Ended e ->
  next c (mkFrame (Some s) w None k)
  = (match e with Some x => Throw x | None => Ok (None, Some c) end, mkFrame None None e (Some c)).
Proof. intros Hb. unfold next, resume. cbn. rewrite Hb. by destruct e. Qed.

(** The loop over an asynchronous generator gives what the body yields, its
    variables losing each value, until it ends or throws; the generator must not be
    asked again after its end. *)
Theorem async_generator_iterates (c : nat) (s s' : S) (vs : list T) (e : option exn) (fuel : nat) :
  yields moved s vs s' -> body s' = Ended e -> (length vs < fuel)%nat ->
  match e with
  | Some x => whileNext fuel c (newFrame s) = (vs, Throw x)
  | None => exists f, whileNext fuel c (newFrame s) = (vs, Ok f) /\ fst (next c f) = Undefined
  end.
Proof.
  intros H He. unfold newFrame. generalize (@None T) (@None nat). revert fuel.
  induction H as [s | s s1 s2 v vs Hb Hy IH]; intros fuel w k Hf; (destruct fuel as [| fuel]; [cbn in Hf; lia |]);
    cbn [whileNext].
  - rewrite (next_end c s e) by done. destruct e as [x |]; [done |]. by eexists.
  - rewrite (next_value c s s1 v) by done. specialize (IH He fuel (Some v) (Some c) ltac:(cbn in Hf; lia)).
    destruct e as [x |]; [by rewrite IH |]. destruct IH as (f & -> & Hn). by exists f.
Qed.
End generator.
Arguments Resumed : clear implicits.

(** ** Bodies *)

(** The body of the generator [range] of the tests. *)
Definition rangeBody (n : Z) (i : Z) : Resumed Z Z := if i <? n then Yielded i (i + 1) else Ended None.

Lemma range_loop : forEach (rangeBody 5) 10 (Some (newFrame 0)) = ([0; 1; 2; 3; 4], Ok tt).
Proof. reflexivity. Qed.

(** A body that throws at once: the loop ends as if it were empty, whereas
    [AsyncGenerator] throws. *)
Definition throwingBody (_ : unit) : Resumed unit Z := Ended (Some (RuntimeError "gen error")).

Lemma begin_loses_exception :
  forEach throwingBody 1 (Some (newFrame tt)) = ([], Ok tt)
  /\ whileNext throwingBody id 1 0 (newFrame tt) = ([], Throw (RuntimeError "gen error")).
Proof. by split. Qed.
