(* ===== verification/Task.v ===== *)
(** Tasks: src/include/nitrocoro/core/Task.h.

    A coroutine is a program that returns, throws, awaits a task it makes by
    calling another coroutine, or waits for an event of the scheduler.  Frames live
    on a heap; resuming one runs it until control goes back to who resumed it,
    through any number of transfers from frame to frame.  The theorem is what
    allows the rest of this development to write [co_await f()] as a call. *)

From Stdlib Require Import ZArith Lia String.
From stdpp Require Import base numbers option list relations.
From S2P Require Import Prelude.
Open Scope Z_scope.

Section task.
Context {V : Type}.

(** What a coroutine goes on with after [co_await]: a value or an exception. *)
Definition Result : Type := (V + exn)%type.

Inductive Program : Type :=
| CoReturn (v : V)
| CoThrow (e : exn)
| CoAwait (callee : Program) (k : Result -> Program)
| Event (k : Program).

(** ** Frames *)

(** Where a coroutine is: to be run next (from its initial suspension, or in an
    [await_resume] that has its result), suspended in [co_await] of the task with
    a handle, suspended until an event, at its final suspension. *)
Inductive Point : Type :=
| At (p : Program)
| Awaiting (task : nat) (k : Result -> Program)
| Waiting (k : Program)
| Final.

(** A frame with its promise: [continuation_], [value_] and [exception_]. *)
Record Frame : Type := mkFrame {
  point : Point;
  continuation_ : option nat;
  value_ : option V;
  exception_ : option exn
}.

Definition newFrame (p : Program) : Frame := mkFrame (At p) None None None.

(** The heap, where a destroyed frame leaves a hole, and the frame that runs; no
    frame runs while the scheduler does. *)
Record Machine : Type := mkMachine {
  heap : list (option Frame);
  running : option nat
}.

Definition frame (h : nat) (m : Machine) : option Frame := heap m !! h ≫= id.

Definition set_frame (h : nat) (f : option Frame) (r : option nat) (m : Machine) : Machine :=
  mkMachine (<[h := f]> (heap m)) r.

(** ** The operations *)

(** [promise.result()], and [std::optional::value] of what was never set throws. *)
Definition result (f : Frame) : Result :=
  match exception_ f with
  | Some e => inr e
  | None => match value_ f with Some v => inl v | None => inr (RuntimeError "bad_optional_access") end
  end.

(** [handle_.done()] *)
Definition done_ (f : Frame) : bool := match point f with Final => true | _ => false end.

(** [TaskAwaiter::await_suspend]: the awaiting coroutine [h], at [point], becomes
    the continuation of the task, which runs next. *)
Definition await_suspend (h task : nat) (p : Point) (f t : Frame) (m : Machine) : Machine :=
  set_frame task (Some (mkFrame (point t) (Some h) (value_ t) (exception_ t))) (Some task)
    (set_frame h (Some (mkFrame p (continuation_ f) (value_ f) (exception_ f))) (running m) m).

(** [return_value] or [unhandled_exception], then [TaskFinalAwaiter]: the
    continuation runs next, or control goes back. *)
Definition finish (h : nat) (r : Result) (f : Frame) (m : Machine) : Machine :=
  let '(v, e) := match r with inl v => (Some v, exception_ f) | inr e => (value_ f, Some e) end in
  set_frame h (Some (mkFrame Final (continuation_ f) v e)) (continuation_ f) m.

(** What the running frame does up to the next transfer of control.  A call of a
    coroutine makes its frame; the task is destroyed at the end of the full
    expression that awaited it. *)
Definition step (m : Machine) : outcome Machine :=
  match running m with
  | None => Undefined
  | Some h =>
      match frame h m with
      | None => Undefined
      | Some f =>
          match point f with
          | At (CoReturn v) => Ok (finish h (inl v) f m)
          | At (CoThrow e) => Ok (finish h (inr e) f m)
          | At (CoAwait callee k) =>
              let task := length (heap m) in
              let m := mkMachine (heap m ++ [Some (newFrame callee)]) (running m) in
              Ok (await_suspend h task (Awaiting task k) f (newFrame callee) m)
          | At (Event k) =>
              Ok (set_frame h (Some (mkFrame (Waiting k) (continuation_ f) (value_ f) (exception_ f))) None m)
          | Awaiting task k =>
              match frame task m with
              | Some t =>
                  if done_ t then
                    Ok (set_frame h (Some (mkFrame (At (k (result t))) (continuation_ f) (value_ f) (exception_ f)))
                          (Some h) (set_frame task None (running m) m))
                  else Undefined
              | None => Undefined
              end
          | Waiting _ | Final => Undefined
          end
      end
  end.

(** The scheduler resumes a frame that waits for an event. *)
Definition wake (h : nat) (m : Machine) : outcome Machine :=
  match running m, frame h m with
  | None, Some f =>
      match point f with
      | Waiting k => Ok (set_frame h (Some (mkFrame (At k) (continuation_ f) (value_ f) (exception_ f))) (Some h) m)
      | _ => Undefined
      end
  | _, _ => Undefined
  end.

(** Everything that may happen. *)
Inductive moves : Machine -> Machine -> Prop :=
| moves_step (m m' : Machine) : step m = Ok m' -> moves m m'
| moves_wake (h : nat) (m m' : Machine) : wake h m = Ok m' -> moves m m'.

(** Coroutines the scheduler will begin, as [Scheduler::spawn] has it: their
    frames, at their initial suspension.  Such a frame is kept at its end, so that
    its result can be told; the one of [spawn] destroys itself, and terminates the
    program on an exception. *)
Definition spawned (ps : list Program) : Machine :=
  mkMachine (map (fun p => Some (mkFrame (Waiting p) None None None)) ps) None.

(** ** Direct style *)

(** What a program computes when [co_await] is a call. *)
Fixpoint direct (p : Program) : Result :=
  match p with
  | CoReturn v => inl v
  | CoThrow e => inr e
  | CoAwait callee k => direct (k (direct callee))
  | Event k => direct k
  end.

(** How many moves it takes as tasks. *)
Fixpoint cost (p : Program) : nat :=
  match p with
  | CoReturn _ | CoThrow _ => 1
  | CoAwait callee k => 2 + cost callee + cost (k (direct callee))
  | Event k => 2 + cost k
  end.

(** ** What a frame will compute *)

Section frames.
Context (F : nat -> option Frame).

(** The result of a frame once it is over, and the moves until then. *)
Inductive computes : nat -> Result -> nat -> Prop :=
| computes_at (h : nat) (f : Frame) (p : Program) :
    F h = Some f -> point f = At p -> value_ f = None -> exception_ f = None -> computes h (direct p) (cost p)
| computes_waiting (h : nat) (f : Frame) (p : Program) :
    F h = Some f -> point f = Waiting p -> value_ f = None -> exception_ f = None -> computes h (direct p) (S (cost p))
| computes_awaiting (h t : nat) (f g : Frame) (k : Result -> Program) (r : Result) (n : nat) :
    F h = Some f -> point f = Awaiting t k -> value_ f = None -> exception_ f = None ->
    F t = Some g -> continuation_ g = Some h -> computes t r n ->
    computes h (direct (k r)) (S (n + cost (k r)))
| computes_final (h : nat) (f : Frame) :
    F h = Some f -> point f = Final -> computes h (result f) 0.

Definition awaits (h t : nat) : Prop := exists f k, F h = Some f /\ point f = Awaiting t k.

(** Continuations lead to who awaits, all the way to a root. *)
Record linked (roots : nat) : Prop := {
  li_up t g c : F t = Some g -> continuation_ g = Some c -> awaits c t /\ (c < t)%nat;
  li_root t g : F t = Some g -> continuation_ g = None -> (t < roots)%nat
}.

Lemma awaits_root (roots b : nat) : linked roots -> is_Some (F b) -> exists x, (x < roots)%nat /\ rtc awaits x b.
Proof.
  intros [Hup Hroot]. induction (lt_wf b) as [b _ IH]. intros [g Hg].
  destruct (continuation_ g) as [c |] eqn:Hc; [| exists b; split; [by eapply Hroot | done]].
  destruct (Hup b g c Hg Hc) as [Haw Hlt]. destruct (IH c Hlt) as (x & Hx & Hr).
  { destruct Haw as (f & k & Hf & _). by exists f. }
  exists x. split; [done |]. by eapply rtc_r.
Qed.
End frames.

(** A move changes the frame [b], to one that computes the same in fewer moves,
    and may destroy the task [b] awaited. *)
Lemma computes_moved (F F' : nat -> option Frame) (b : nat) (dead : option nat) :
  (forall x f, F x = Some f -> x <> b -> Some x <> dead -> F' x = Some f) ->
  (forall f, F b = Some f -> exists f', F' b = Some f' /\ continuation_ f' = continuation_ f) ->
  (forall t g, dead = Some t -> F t = Some g -> continuation_ g = Some b) ->
  (forall r n, computes F b r n -> exists n', (n' < n)%nat /\ computes F' b r n') ->
  forall x r n, computes F x r n -> Some x <> dead ->
    exists n', (n' <= n)%nat /\ computes F' x r n' /\ (rtc (awaits F) x b -> (n' < n)%nat).
Proof.
  intros Hsame Hb Hdead Hbase x r n Hc.
  assert (Hleaf : forall h, h <> b -> (forall t, ~ awaits F h t) -> ~ rtc (awaits F) h b).
  { intros h Hne Hno Hr. inversion Hr as [| ? t ? Ht]; subst; [done | by eapply Hno]. }
  induction Hc as [h f p Hf Hp Hv He | h f p Hf Hp Hv He | h t f g k r n Hf Hp Hv He Hg Hk Hc IH | h f Hf Hp]; intros Hx;
    (destruct (decide (h = b)) as [-> |]; [| pose proof (Hsame h f Hf ltac:(done) Hx) as Hf']).
  all: try (destruct (Hbase _ _ ltac:(by econstructor)) as (n' & Hlt & Hc'); exists n'; split; [lia | by split]).
  - eexists. split; [reflexivity |]. split; [by econstructor |]. intros Hr. exfalso.
    eapply Hleaf; [done | | done]. intros t (f0 & k0 & Hf0 & Hk0). congruence.
  - eexists. split; [reflexivity |]. split; [by econstructor |]. intros Hr. exfalso.
    eapply Hleaf; [done | | done]. intros t (f0 & k0 & Hf0 & Hk0). congruence.
  - assert (Ht : Some t <> dead).
    { intros Ht. specialize (Hdead t g (eq_sym Ht) Hg). congruence. }
    destruct (IH Ht) as (n' & Hle & Hc' & Hlt). exists (S (n' + cost (k r))). split; [lia |]. split.
    + destruct (decide (t = b)) as [-> | Hne].
      * destruct (Hb g Hg) as (g' & Hg' & Hcg). eapply computes_awaiting; eauto. congruence.
      * eapply computes_awaiting; eauto.
    + intros Hr. inversion Hr as [| ? t' ? Haw Hr']; subst; [done |].
      destruct Haw as (f0 & k0 & Hf0 & Hk0). assert (t' = t) as -> by congruence. specialize (Hlt Hr'). lia.
  - eexists. split; [reflexivity |]. split; [by econstructor |]. intros Hr. exfalso.
    eapply Hleaf; [done | | done]. intros t (f0 & k0 & Hf0 & Hk0). congruence.
Qed.

(** ** The invariant *)

(** Only the running frame is not suspended, and a task at its end has its
    continuation running. *)
Record machine_ok (roots : nat) (m : Machine) : Prop := {
  mo_linked : linked (fun h => frame h m) roots;
  mo_running h : running m = Some h -> exists f, frame h m = Some f /\
    ((exists p, point f = At p) \/ exists t k g, point f = Awaiting t k /\ frame t m = Some g /\ point g = Final);
  mo_at h f p : frame h m = Some f -> point f = At p -> running m = Some h;
  mo_awaited h f t k : frame h m = Some f -> point f = Awaiting t k ->
    exists g, frame t m = Some g /\ continuation_ g = Some h;
  mo_final t g c : frame t m = Some g -> point g = Final -> continuation_ g = Some c -> running m = Some c;
  mo_clear h f : frame h m = Some f -> point f <> Final -> value_ f = None /\ exception_ f = None;
  mo_heap : (roots <= length (heap m))%nat
}.

Lemma frame_set (h x : nat) (f : option Frame) (r : option nat) (m : Machine) :
  (h < length (heap m))%nat -> frame x (set_frame h f r m) = if decide (x = h) then f else frame x m.
Proof.
  intros Hh. unfold frame, set_frame. cbn [heap]. destruct (decide (x = h)) as [-> | Hne].
  - by rewrite list_lookup_insert_eq.
  - by rewrite list_lookup_insert_ne.
Qed.

Lemma frame_push (x : nat) (g : Frame) (r : option nat) (m : Machine) :
  frame x (mkMachine (heap m ++ [Some g]) r) = if decide (x = length (heap m)) then Some g else frame x m.
Proof.
  unfold frame. cbn [heap]. destruct (decide (x = length (heap m))) as [-> | Hne].
  - by rewrite lookup_app_r, Nat.sub_diag by lia.
  - destruct (decide (x < length (heap m))%nat); [by rewrite lookup_app_l |].
    rewrite lookup_ge_None_2 by (rewrite length_app; cbn; lia). by rewrite lookup_ge_None_2 by lia.
Qed.

Lemma frame_lt (h : nat) (f : Frame) (m : Machine) : frame h m = Some f -> (h < length (heap m))%nat.
Proof. unfold frame. destruct (heap m !! h) eqn:E; [intros _; by eapply lookup_lt_Some | done]. Qed.

Lemma length_set (h : nat) (f : option Frame) (r : option nat) (m : Machine) :
  length (heap (set_frame h f r m)) = length (heap m).
Proof. unfold set_frame. cbn. by rewrite length_insert. Qed.

(** What a move does: the frame [b] is replaced, and a task is made or
    destroyed. *)
Inductive effect (m m' : Machine) : Prop :=
| effect_one (b : nat) (f : Frame) (q : Point) (v : option V) (e : option exn) (r : option nat) :
    frame b m = Some f -> running m' = r -> length (heap m') = length (heap m) ->
    (forall x, frame x m' = if decide (x = b) then Some (mkFrame q (continuation_ f) v e) else frame x m) ->
    ((exists res, point f = At (match res with inl v => CoReturn v | inr e => CoThrow e end) /\ running m = Some b
        /\ q = Final /\ r = continuation_ f /\ result (mkFrame q (continuation_ f) v e) = res)
     \/ (exists k, point f = At (Event k) /\ running m = Some b /\ q = Waiting k /\ r = None /\ v = None /\ e = None)
     \/ (exists k, point f = Waiting k /\ running m = None /\ q = At k /\ r = Some b /\ v = None /\ e = None)) ->
    effect m m'
| effect_call (b : nat) (f : Frame) (callee : Program) (k : Result -> Program) :
    frame b m = Some f -> point f = At (CoAwait callee k) -> running m = Some b ->
    running m' = Some (length (heap m)) -> length (heap m') = S (length (heap m)) ->
    (forall x, frame x m' = if decide (x = length (heap m)) then Some (mkFrame (At callee) (Some b) None None)
                            else if decide (x = b) then Some (mkFrame (Awaiting (length (heap m)) k) (continuation_ f) None None)
                            else frame x m) ->
    effect m m'
| effect_back (b t : nat) (f g : Frame) (k : Result -> Program) :
    frame b m = Some f -> point f = Awaiting t k -> running m = Some b ->
    frame t m = Some g -> point g = Final -> continuation_ g = Some b -> t <> b ->
    running m' = Some b -> length (heap m') = length (heap m) ->
    (forall x, frame x m' = if decide (x = b) then Some (mkFrame (At (k (result g))) (continuation_ f) None None)
                            else if decide (x = t) then None else frame x m) ->
    effect m m'.

Lemma moves_effect (roots : nat) (m m' : Machine) : machine_ok roots m -> moves m m' -> effect m m'.
Proof.
  intros Hok Hm. revert Hok. destruct Hm as [m0 m1 Hs | h m0 m1 Hw]; intros Hok.
  - unfold step in Hs. destruct (running m0) as [h |] eqn:Hr; [| done].
    destruct (frame h m0) as [f |] eqn:Hf; [| done]. pose proof (frame_lt h f m0 Hf) as Hlt.
    destruct (point f) as [p | t k | k |] eqn:Hp; [| | done ..].
    + destruct (mo_clear _ _ Hok h f Hf ltac:(by rewrite Hp)) as [Hv He].
      destruct p as [v | e | callee k | k]; injection Hs as <-; cbn [finish].
      * eapply (effect_one _ _ h f Final (Some v)); [done | reflexivity | by rewrite length_set | |].
        { intros x. by rewrite frame_set. }
        left. exists (inl v). rewrite Hp. repeat split; try done. unfold result. cbn. by rewrite He.
      * eapply (effect_one _ _ h f Final); [done | reflexivity | by rewrite length_set | |].
        { intros x. by rewrite frame_set. }
        left. exists (inr e). rewrite Hp. by repeat split.
      * apply (effect_call _ _ h f callee k); [done | done | done | reflexivity | |].
        { unfold await_suspend. rewrite !length_set. cbn. rewrite length_app. cbn. lia. }
        intros x. unfold await_suspend. rewrite frame_set by (rewrite length_set; cbn; rewrite length_app; cbn; lia).
        destruct (decide (x = length (heap m0))); [done |].
        rewrite frame_set by (cbn; rewrite length_app; cbn; lia). destruct (decide (x = h)); [by rewrite Hv, He |].
        rewrite frame_push. by rewrite decide_False.
      * eapply (effect_one _ _ h f (Waiting k) None None None); [done | reflexivity | by rewrite length_set | |].
        { intros x. rewrite frame_set by done. by rewrite Hv, He. }
        right. left. by exists k.
    + destruct (frame t m0) as [g |] eqn:Hg; [| done]. destruct (done_ g) eqn:Hd; [| done]. injection Hs as <-.
      destruct (mo_clear _ _ Hok h f Hf ltac:(by rewrite Hp)) as [Hv He].
      destruct (mo_awaited _ _ Hok h f t k Hf Hp) as (g' & Hg' & Hc). assert (g' = g) as -> by congruence.
      assert (t <> h) by (intros ->; rewrite Hf in Hg; injection Hg as <-; unfold done_ in Hd; by rewrite Hp in Hd).
      apply (effect_back _ _ h t f g k); try done.
      { unfold done_ in Hd. by destruct (point g). }
      { by rewrite !length_set. }
      intros x. rewrite frame_set by by rewrite length_set. destruct (decide (x = h)); [by rewrite Hv, He |].
      rewrite frame_set by (by eapply frame_lt). done.
  - unfold wake in Hw. destruct (running m0) eqn:Hr; [done |]. destruct (frame h m0) as [f |] eqn:Hf; [| done].
    destruct (point f) as [| | k |] eqn:Hp; try done. injection Hw as <-.
    destruct (mo_clear _ _ Hok h f Hf ltac:(by rewrite Hp)) as [Hv He].
    eapply (effect_one _ _ h f (At k) None None (Some h)); [done | reflexivity | by rewrite length_set | |].
    { intros x. rewrite frame_set by (by eapply frame_lt). by rewrite Hv, He. }
    right. right. by exists k.
Qed.

Lemma effect_one_ok (roots : nat) (m m' : Machine) (b : nat) (f : Frame) (q : Point) (v : option V) (e : option exn) :
  machine_ok roots m -> frame b m = Some f -> length (heap m') = length (heap m) ->
  (forall x, frame x m' = if decide (x = b) then Some (mkFrame q (continuation_ f) v e) else frame x m) ->
  (forall t k, point f <> Awaiting t k) -> (forall t k, q <> Awaiting t k) ->
  (running m = Some b /\ q = Final /\ running m' = continuation_ f
   \/ running m = Some b /\ (exists k, q = Waiting k) /\ running m' = None /\ v = None /\ e = None
   \/ running m = None /\ (exists k, q = At k) /\ running m' = Some b /\ v = None /\ e = None) ->
  machine_ok roots m'.
Proof.
  intros [[Hup Hroot] Hrun Hat Haw Hfin Hclear Hheap] Hb Hlen Hfr Hpf Hq Hcase.
  assert (Hawaits : forall c t, awaits (fun h => frame h m) c t -> c <> b /\ awaits (fun h => frame h m') c t).
  { intros c t (fc & k & Hc & Hk). assert (Hne : c <> b) by (intros ->; rewrite Hb in Hc; injection Hc as <-; by eapply Hpf).
    split; [done |]. exists fc, k. cbv beta. by rewrite Hfr, decide_False. }
  split; [split | | | | | | lia].
  - intros t g c Hg Hc. cbv beta in Hg. rewrite Hfr in Hg. destruct (decide (t = b)) as [-> |].
    + injection Hg as <-. destruct (Hup b f c Hb Hc) as [H ?]. by destruct (Hawaits _ _ H).
    + destruct (Hup t g c Hg Hc) as [H ?]. by destruct (Hawaits _ _ H).
  - intros t g Hg Hc. cbv beta in Hg. rewrite Hfr in Hg. destruct (decide (t = b)) as [-> |]; [| by eapply Hroot].
    injection Hg as <-. by eapply Hroot.
  - intros h Hh. destruct Hcase as [(_ & -> & Hr) | [(_ & _ & Hr & _) | (_ & (k & ->) & Hr & _)]]; rewrite Hr in Hh;
      [| done |].
    + destruct (Hup b f h Hb Hh) as [H _]. destruct (Hawaits _ _ H) as [_ (fc & k & Hc & Hk)].
      exists fc. split; [exact Hc |]. right. eexists b, k, _. rewrite Hfr, decide_True by done. by repeat split.
    + injection Hh as <-. eexists. rewrite Hfr, decide_True by done. split; [done |]. left. by exists k.
  - intros h fh p Hh Hp. rewrite Hfr in Hh. destruct (decide (h = b)) as [-> | Hne].
    + injection Hh as <-. cbn in Hp. destruct Hcase as [(_ & -> & _) | [(_ & (k & ->) & _) | (_ & _ & Hr & _)]]; done.
    + pose proof (Hat h fh p Hh Hp). destruct Hcase as [(Hr & _) | [(Hr & _) | (Hr & _)]]; congruence.
  - intros h fh t k Hh Hk. rewrite Hfr in Hh. destruct (decide (h = b)) as [-> | Hne].
    + injection Hh as <-. by apply Hq in Hk.
    + destruct (Haw h fh t k Hh Hk) as (g & Hg & Hc). rewrite Hfr. destruct (decide (t = b)) as [-> |]; [| by exists g].
      eexists. split; [reflexivity |]. cbn. congruence.
  - intros t g c Hg Hp Hc. rewrite Hfr in Hg. destruct (decide (t = b)) as [-> | Hne].
    + injection Hg as <-. cbn in Hp, Hc. destruct Hcase as [(_ & _ & Hr) | [(_ & (k & ->) & _) | (_ & (k & ->) & _)]];
        [congruence | done ..].
    + pose proof (Hfin t g c Hg Hp Hc) as Hr'. destruct (Hup t g c Hg Hc) as [H _]. apply Hawaits in H as [? _].
      destruct Hcase as [(Hr & _) | [(Hr & _) | (Hr & _)]]; congruence.
  - intros h fh Hh Hp. rewrite Hfr in Hh. destruct (decide (h = b)) as [-> |]; [| by eapply Hclear].
    injection Hh as <-. cbn in *. destruct Hcase as [(_ & -> & _) | [(_ & _ & _ & ? & ?) | (_ & _ & _ & ? & ?)]]; done.
Qed.

Lemma effect_call_ok (roots : nat) (m m' : Machine) (b : nat) (f : Frame) (callee : Program) (k : Result -> Program) :
  machine_ok roots m -> frame b m = Some f -> point f = At (CoAwait callee k) -> running m = Some b ->
  running m' = Some (length (heap m)) -> length (heap m') = S (length (heap m)) ->
  (forall x, frame x m' = if decide (x = length (heap m)) then Some (mkFrame (At callee) (Some b) None None)
                          else if decide (x = b) then Some (mkFrame (Awaiting (length (heap m)) k) (continuation_ f) None None)
                          else frame x m) ->
  machine_ok roots m'.
Proof.
  intros [[Hup Hroot] Hrun Hat Haw Hfin Hclear Hheap] Hb Hpf Hr Hr' Hlen Hfr.
  pose proof (frame_lt b f m Hb) as Hlt.
  assert (Hold : forall x g, frame x m = Some g -> x <> b -> frame x m' = Some g).
  { intros x g Hg Hne. pose proof (frame_lt x g m Hg). rewrite Hfr, !decide_False by lia. done. }
  assert (Hawaits : forall c t, awaits (fun h => frame h m) c t -> c <> b /\ awaits (fun h => frame h m') c t).
  { intros c t (fc & kc & Hc & Hk). assert (Hne : c <> b) by congruence. split; [done |].
    exists fc, kc. cbv beta. by rewrite (Hold c fc). }
  split; [split | | | | | | lia].
  - intros t g c Hg Hc. cbv beta in Hg. rewrite Hfr in Hg. destruct (decide (t = length (heap m))) as [-> |].
    + injection Hg as <-. injection Hc as <-. split; [| lia]. eexists _, k. cbv beta.
      rewrite Hfr, decide_False, decide_True by lia. done.
    + destruct (decide (t = b)) as [-> |].
      * injection Hg as <-. destruct (Hup b f c Hb Hc) as [H ?]. by destruct (Hawaits _ _ H).
      * destruct (Hup t g c Hg Hc) as [H ?]. by destruct (Hawaits _ _ H).
  - intros t g Hg Hc. cbv beta in Hg. rewrite Hfr in Hg. destruct (decide (t = length (heap m))); [by injection Hg as <- |].
    destruct (decide (t = b)) as [-> |]; [| by eapply Hroot]. injection Hg as <-. by eapply Hroot.
  - intros h Hh. rewrite Hr' in Hh. injection Hh as <-. eexists. rewrite Hfr, decide_True by done. split; [done |].
    left. by exists callee.
  - intros h fh p Hh Hp. rewrite Hfr in Hh. destruct (decide (h = length (heap m))) as [-> |]; [done |].
    destruct (decide (h = b)) as [-> | Hne]; [by injection Hh as <- |]. pose proof (Hat h fh p Hh Hp). congruence.
  - intros h fh t kt Hh Hk. rewrite Hfr in Hh. destruct (decide (h = length (heap m))) as [-> |]; [by injection Hh as <- |].
    destruct (decide (h = b)) as [-> | Hne].
    + injection Hh as <-. injection Hk as <- <-. eexists. rewrite Hfr, decide_True by done. by split.
    + destruct (Haw h fh t kt Hh Hk) as (g & Hg & Hc). destruct (decide (t = b)) as [-> |].
      * eexists. rewrite Hfr, decide_False, decide_True by lia. split; [done |]. cbn. congruence.
      * exists g. by rewrite (Hold t g).
  - intros t g c Hg Hp Hc. rewrite Hfr in Hg. destruct (decide (t = length (heap m))); [by injection Hg as <- |].
    destruct (decide (t = b)) as [-> | Hne]; [by injection Hg as <- |].
    pose proof (Hfin t g c Hg Hp Hc) as Hrc. destruct (Hup t g c Hg Hc) as [H _]. apply Hawaits in H as [? _]. congruence.
  - intros h fh Hh Hp. rewrite Hfr in Hh. destruct (decide (h = length (heap m))); [by injection Hh as <- |].
    destruct (decide (h = b)) as [-> |]; [by injection Hh as <- | by eapply Hclear].
Qed.

Lemma effect_back_ok (roots : nat) (m m' : Machine) (b t : nat) (f g : Frame) (k : Result -> Program) :
  machine_ok roots m -> frame b m = Some f -> point f = Awaiting t k -> running m = Some b ->
  frame t m = Some g -> point g = Final -> continuation_ g = Some b -> t <> b ->
  running m' = Some b -> length (heap m') = length (heap m) ->
  (forall x, frame x m' = if decide (x = b) then Some (mkFrame (At (k (result g))) (continuation_ f) None None)
                          else if decide (x = t) then None else frame x m) ->
  machine_ok roots m'.
Proof.
  intros [[Hup Hroot] Hrun Hat Haw Hfin Hclear Hheap] Hb Hpf Hr Hg Hpg Hcg Hne Hr' Hlen Hfr.
  assert (Hold : forall x y, frame x m = Some y -> x <> b -> x <> t -> frame x m' = Some y).
  { intros x y Hy ? ?. by rewrite Hfr, !decide_False. }
  assert (Hawaits : forall c x, awaits (fun h => frame h m) c x -> x <> t -> awaits (fun h => frame h m') c x).
  { intros c x (fc & kc & Hc & Hk) Hx. exists fc, kc. cbv beta. split; [| done]. apply Hold; [done | congruence |].
    intros ->. congruence. }
  split; [split | | | | | | lia].
  - intros x y c Hy Hc. cbv beta in Hy. rewrite Hfr in Hy. destruct (decide (x = b)) as [-> |].
    + injection Hy as <-. destruct (Hup b f c Hb Hc) as [H ?]. split; [| done]. by apply Hawaits.
    + destruct (decide (x = t)); [done |]. destruct (Hup x y c Hy Hc) as [H ?]. split; [| done]. by apply Hawaits.
  - intros x y Hy Hc. cbv beta in Hy. rewrite Hfr in Hy. destruct (decide (x = b)) as [-> |].
    + injection Hy as <-. by eapply Hroot.
    + destruct (decide (x = t)); [done | by eapply Hroot].
  - intros h Hh. rewrite Hr' in Hh. injection Hh as <-. eexists. rewrite Hfr, decide_True by done. split; [done |].
    left. by eexists.
  - intros h fh p Hh Hp. rewrite Hfr in Hh. destruct (decide (h = b)) as [-> |]; [done |].
    destruct (decide (h = t)); [done |]. pose proof (Hat h fh p Hh Hp). congruence.
  - intros h fh x kx Hh Hk. rewrite Hfr in Hh. destruct (decide (h = b)) as [-> |]; [by injection Hh as <- |].
    destruct (decide (h = t)); [done |]. destruct (Haw h fh x kx Hh Hk) as (y & Hy & Hc).
    destruct (decide (x = b)) as [-> |].
    + eexists. rewrite Hfr, decide_True by done. split; [done |]. cbn. congruence.
    + exists y. rewrite (Hold x y); [done | done | done |]. intros ->. congruence.
  - intros x y c Hy Hp Hc. rewrite Hfr in Hy. destruct (decide (x = b)) as [-> |]; [by injection Hy as <- |].
    destruct (decide (x = t)) as [-> |]; [done |]. pose proof (Hfin x y c Hy Hp Hc) as Hrc.
    destruct (Hup x y c Hy Hc) as [(fc & kc & Hfc & Hkc) _]. cbv beta in Hfc. congruence.
  - intros h fh Hh Hp. rewrite Hfr in Hh. destruct (decide (h = b)) as [-> |]; [by injection Hh as <- |].
    destruct (decide (h = t)); [done | by eapply Hclear].
Qed.

Lemma moves_ok (roots : nat) (m m' : Machine) : machine_ok roots m -> moves m m' -> machine_ok roots m'.
Proof.
  intros Hok Hm. destruct (moves_effect roots m m' Hok Hm)
    as [b f q v e r Hb Hr Hlen Hfr Hcase | b f callee k | b t f g k].
  - eapply (effect_one_ok roots m m' b f q v e); [done .. | | |];
      destruct Hcase as [(res & Hp & Hr1 & -> & Hr2 & _) | [(k & Hp & Hr1 & -> & Hr2 & -> & ->) | (k & Hp & Hr1 & -> & Hr2 & -> & ->)]];
      try (intros; congruence).
    + left. by subst r.
    + right. left. subst r. split; [done |]. split; [by eexists | done].
    + right. right. subst r. split; [done |]. split; [by eexists | done].
  - by apply (effect_call_ok roots m m' b f callee k).
  - by apply (effect_back_ok roots m m' b t f g k).
Qed.

(** ** Every move brings the roots on *)

Lemma computes_at_inv (F : nat -> option Frame) (b : nat) (f : Frame) (p : Program) (r : Result) (n : nat) :
  computes F b r n -> F b = Some f -> point f = At p -> r = direct p /\ n = cost p.
Proof. intros Hc Hf Hp. inversion Hc; simplify_eq/=; try congruence. split; congruence. Qed.

Lemma computes_waiting_inv (F : nat -> option Frame) (b : nat) (f : Frame) (p : Program) (r : Result) (n : nat) :
  computes F b r n -> F b = Some f -> point f = Waiting p -> r = direct p /\ n = S (cost p).
Proof. intros Hc Hf Hp. inversion Hc; simplify_eq/=; try congruence. split; congruence. Qed.

Lemma computes_final_inv (F : nat -> option Frame) (b : nat) (f : Frame) (r : Result) (n : nat) :
  computes F b r n -> F b = Some f -> point f = Final -> r = result f /\ n = 0%nat.
Proof. intros Hc Hf Hp. inversion Hc; simplify_eq/=; try congruence. split; congruence. Qed.

Lemma computes_awaiting_inv (F : nat -> option Frame) (b t : nat) (f g : Frame) (k : Result -> Program)
    (r : Result) (n : nat) :
  computes F b r n -> F b = Some f -> point f = Awaiting t k -> F t = Some g -> point g = Final ->
  r = direct (k (result g)) /\ n = S (cost (k (result g))).
Proof.
  intros Hc Hf Hp Hg Hpg. inversion Hc as [| | h t' f0 g0 k0 r0 n0 Hf0 Hp0 _ _ Hg0 _ Hc0 |]; simplify_eq/=; try congruence.
  assert (t' = t /\ k0 = k) as [-> ->] by (split; congruence).
  destruct (computes_final_inv F t g r0 n0 Hc0 Hg Hpg) as [-> ->]. done.
Qed.

Lemma effect_one_computes (m m' : Machine) (b : nat) (f : Frame) (q : Point) (v : option V) (e : option exn)
    (r : option nat) :
  frame b m = Some f -> frame b m' = Some (mkFrame q (continuation_ f) v e) ->
  ((exists res, point f = At (match res with inl v => CoReturn v | inr e => CoThrow e end) /\ running m = Some b
      /\ q = Final /\ r = continuation_ f /\ result (mkFrame q (continuation_ f) v e) = res)
   \/ (exists k, point f = At (Event k) /\ running m = Some b /\ q = Waiting k /\ r = None /\ v = None /\ e = None)
   \/ (exists k, point f = Waiting k /\ running m = None /\ q = At k /\ r = Some b /\ v = None /\ e = None)) ->
  forall res n, computes (fun h => frame h m) b res n ->
    exists n', (n' < n)%nat /\ computes (fun h => frame h m') b res n'.
Proof.
  intros Hb Hb' Hcase res n Hc.
  destruct Hcase as [(r0 & Hp & _ & -> & _ & Hres) | [(k & Hp & _ & -> & _ & -> & ->) | (k & Hp & _ & -> & _ & -> & ->)]].
  - destruct (computes_at_inv _ b f _ res n Hc Hb Hp) as [-> ->]. exists 0%nat.
    split; [by destruct r0; cbn; lia |]. replace (direct _) with (result (mkFrame Final (continuation_ f) v e))
      by (rewrite Hres; by destruct r0). by eapply computes_final.
  - destruct (computes_at_inv _ b f _ res n Hc Hb Hp) as [-> ->]. exists (S (cost k)).
    split; [cbn; lia |]. by eapply (computes_waiting _ b _ k).
  - destruct (computes_waiting_inv _ b f _ res n Hc Hb Hp) as [-> ->]. exists (cost k).
    split; [lia |]. by eapply (computes_at _ b _ k).
Qed.

Lemma effect_computes (roots : nat) (m m' : Machine) :
  machine_ok roots m -> effect m m' ->
  exists b, is_Some (frame b m) /\ forall x r n,
    (forall f, frame x m = Some f -> continuation_ f = None) -> computes (fun h => frame h m) x r n ->
    exists n', (n' <= n)%nat /\ computes (fun h => frame h m') x r n'
      /\ (rtc (awaits (fun h => frame h m)) x b -> (n' < n)%nat).
Proof.
  intros Hok [b f q v e r Hb Hr Hlen Hfr Hcase | b f callee k Hb Hpf Hr Hr' Hlen Hfr | b t f g k Hb Hpf Hr Hg Hpg Hcg Hne Hr' Hlen Hfr];
    exists b; (split; [by eexists |]); intros x r0 n Hroot Hc.
  - apply (computes_moved (fun h => frame h m) _ b None); [| | done | | done | done].
    + intros y fy Hy Hyb _. cbv beta in *. by rewrite Hfr, decide_False.
    + intros f0 Hf0. cbv beta in *. rewrite Hfr, decide_True by done. eexists. split; [done |]. cbn. congruence.
    + eapply effect_one_computes; [done | by rewrite Hfr, decide_True | done].
  - pose proof (frame_lt b f m Hb) as Hlt.
    apply (computes_moved (fun h => frame h m) _ b None); [| | done | | done | done].
    + intros y fy Hy Hyb _. cbv beta in *. pose proof (frame_lt y fy m Hy). by rewrite Hfr, !decide_False by lia.
    + intros f0 Hf0. cbv beta in *. rewrite Hfr, decide_False, decide_True by lia. eexists. split; [done |]. cbn. congruence.
    + intros r1 n1 Hc1. destruct (computes_at_inv _ b f _ r1 n1 Hc1 Hb Hpf) as [-> ->]. cbn [direct cost].
      exists (S (cost callee + cost (k (direct callee)))). split; [lia |].
      eapply (computes_awaiting _ b (length (heap m))); cbv beta;
        [rewrite Hfr, decide_False, decide_True by lia; reflexivity | done .. | | |].
      * rewrite Hfr, decide_True by done. reflexivity.
      * done.
      * eapply (computes_at _ _ _ callee); [rewrite Hfr, decide_True by done; reflexivity | done ..].
  - apply (computes_moved (fun h => frame h m) _ b (Some t)); [| | | | done |].
    + intros y fy Hy Hyb Hyt. cbv beta in *. by rewrite Hfr, !decide_False by congruence.
    + intros f0 Hf0. cbv beta in *. rewrite Hfr, decide_True by done. eexists. split; [done |]. cbn. congruence.
    + intros t0 g0 [= <-] Hg0. cbv beta in *. congruence.
    + intros r1 n1 Hc1. destruct (computes_awaiting_inv _ b t f g k r1 n1 Hc1 Hb Hpf Hg Hpg) as [-> ->].
      exists (cost (k (result g))). split; [lia |]. eapply (computes_at _ b _ (k (result g)));
        [rewrite Hfr, decide_True by done; reflexivity | done ..].
    + intros [= ->]. specialize (Hroot g Hg). congruence.
Qed.

Lemma effect_continuation (m m' : Machine) (x : nat) (f' : Frame) :
  effect m m' -> (x < length (heap m))%nat -> frame x m' = Some f' ->
  exists f, frame x m = Some f /\ continuation_ f' = continuation_ f.
Proof.
  intros [b f q v e r Hb Hr Hlen Hfr Hcase | b f callee k Hb Hpf Hr Hr' Hlen Hfr | b t f g k Hb Hpf Hr Hg Hpg Hcg Hne Hr' Hlen Hfr] Hx;
    rewrite Hfr.
  - destruct (decide (x = b)) as [-> |]; [intros [= <-] |]; eauto.
  - rewrite decide_False by lia. destruct (decide (x = b)) as [-> |]; [intros [= <-] |]; eauto.
  - destruct (decide (x = b)) as [-> |]; [intros [= <-] |]; [by eauto |]. destruct (decide (x = t)); [done | eauto].
Qed.

(** [N]: how many moves each root still takes. *)
Definition inv (ps : list Program) (N : list nat) (m : Machine) : Prop :=
  machine_ok (length ps) m
  /\ (forall i f, (i < length ps)%nat -> frame i m = Some f -> continuation_ f = None)
  /\ Forall2 (fun (ip : nat * Program) n => computes (fun h => frame h m) (fst ip) (direct (snd ip)) n)
       (imap pair ps) N.

Lemma spawned_inv (ps : list Program) : inv ps (map (fun p => S (cost p)) ps) (spawned ps).
Proof.
  assert (Hfr : forall h f, frame h (spawned ps) = Some f ->
    exists p, ps !! h = Some p /\ f = mkFrame (Waiting p) None None None).
  { intros h f. unfold frame, spawned. cbn [heap]. rewrite list_lookup_fmap.
    destruct (ps !! h) as [p |]; [| done]. intros [= <-]. by exists p. }
  split; [split; [split | ..] | split].
  - intros t g c Hg Hc. by destruct (Hfr t g Hg) as (p & _ & ->).
  - intros t g Hg _. destruct (Hfr t g Hg) as (p & Hp & _). by eapply lookup_lt_Some.
  - done.
  - intros h f p Hf Hp. by destruct (Hfr h f Hf) as (p' & _ & ->).
  - intros h f t k Hf Hp. by destruct (Hfr h f Hf) as (p' & _ & ->).
  - intros h f c Hf Hp. by destruct (Hfr h f Hf) as (p' & _ & ->).
  - intros h f Hf _. by destruct (Hfr h f Hf) as (p' & _ & ->).
  - cbn. by rewrite length_map.
  - intros i f _ Hf. by destruct (Hfr i f Hf) as (p' & _ & ->).
  - apply Forall2_same_length_lookup. split; [by rewrite length_imap, length_map |].
    intros i [j p] n Hi Hn. rewrite list_lookup_imap in Hi. rewrite list_lookup_fmap in Hn.
    destruct (ps !! i) as [p0 |] eqn:Hp0; [| done]. simplify_eq/=.
    eapply (computes_waiting _ j (mkFrame (Waiting p) None None None)); [| done ..].
    unfold frame, spawned. cbn [heap]. by rewrite list_lookup_fmap, Hp0.
Qed.

(** A list of measures that shrink together. *)
Lemma Forall2_shrinks {A : Type} (P Q : A -> nat -> Prop) (strict : A -> Prop) (l : list A) (N : list nat) :
  Forall2 P l N ->
  (forall a n, a ∈ l -> P a n -> exists n', (n' <= n)%nat /\ Q a n' /\ (strict a -> (n' < n)%nat)) ->
  exists N', Forall2 Q l N' /\ (sum_list N' <= sum_list N)%nat /\ (Exists strict l -> (sum_list N' < sum_list N)%nat).
Proof.
  intros H. induction H as [| a n l N Ha Hl IH]; intros Hs.
  - exists []. split; [done |]. split; [done |]. by rewrite Exists_nil.
  - destruct (Hs a n ltac:(left) Ha) as (n' & Hle & Hq & Hlt).
    destruct IH as (N' & HN & HNle & HNlt); [intros a' n0 Ha'; apply Hs; by right |].
    exists (n' :: N'). split; [by constructor |]. cbn. split; [lia |].
    rewrite Exists_cons. intros [Hst | Hst]; [specialize (Hlt Hst) | specialize (HNlt Hst)]; lia.
Qed.

Lemma moves_inv (ps : list Program) (N : list nat) (m m' : Machine) :
  inv ps N m -> moves m m' -> exists N', inv ps N' m' /\ (sum_list N' < sum_list N)%nat.
Proof.
  intros (Hok & Hroot & Hc) Hm. pose proof (moves_ok _ m m' Hok Hm) as Hok'.
  pose proof (moves_effect _ m m' Hok Hm) as Heff. pose proof (mo_heap _ _ Hok) as Hheap.
  destruct (effect_computes _ m m' Hok Heff) as (b & Hb & Hmove).
  destruct (Forall2_shrinks _ (fun (ip : nat * Program) n => computes (fun h => frame h m') (fst ip) (direct (snd ip)) n)
    (fun ip => rtc (awaits (fun h => frame h m)) (fst ip) b) _ N Hc) as (N' & HN & _ & Hlt).
  - intros [i p] n Hip Hn. apply Hmove; [| done]. intros f. apply Hroot.
    apply elem_of_lookup_imap in Hip as (j & p' & [= -> ->] & Hj). by eapply lookup_lt_Some.
  - exists N'. split; [split; [done | split; [| done]] |].
    + intros i f' Hi Hf'. destruct (effect_continuation m m' i f' Heff ltac:(lia) Hf') as (f & Hf & ->). by eapply Hroot.
    + apply Hlt. destruct (awaits_root _ _ b (mo_linked _ _ Hok) Hb) as (x & Hx & Hr).
      destruct (lookup_lt_is_Some_2 ps x Hx) as [p Hp]. apply Exists_exists. exists (x, p). split; [| done].
      apply elem_of_lookup_imap. by exists x, p.
Qed.

Lemma running_steps (roots : nat) (m : Machine) (h : nat) :
  machine_ok roots m -> running m = Some h -> exists m', step m = Ok m'.
Proof.
  intros Hok Hr. destruct (mo_running _ _ Hok h Hr) as (f & Hf & Hp). unfold step. rewrite Hr, Hf.
  destruct Hp as [[p ->] | (t & k & g & -> & Hg & Hpg)]; [destruct p; by eexists |].
  rewrite Hg. unfold done_. rewrite Hpg. by eexists.
Qed.

(** With nothing running, a frame waits or the root is done. *)
Lemma idle_waits (roots : nat) (m : Machine) (x : nat) (r : Result) (n : nat) :
  machine_ok roots m -> running m = None -> computes (fun h => frame h m) x r n ->
  (exists h m', wake h m = Ok m') \/ exists f, frame x m = Some f /\ point f = Final /\ result f = r.
Proof.
  intros Hok Hr Hc. induction Hc as [h f p Hf Hp _ _ | h f p Hf Hp _ _ | h t f g k r n Hf Hp _ _ Hg Hk Hc IH | h f Hf Hp].
  - pose proof (mo_at _ _ Hok h f p Hf Hp). congruence.
  - left. exists h. unfold wake. rewrite Hr, Hf, Hp. by eexists.
  - destruct IH as [? | (g' & Hg' & Hpg & _)]; [by left |]. cbv beta in *. simplify_eq/=.
    pose proof (mo_final _ _ Hok t g h Hg Hpg Hk). congruence.
  - right. by exists f.
Qed.

Lemma all_or {A : Type} (P : Prop) (Q : A -> Prop) (l : list A) :
  (forall a, a ∈ l -> P \/ Q a) -> P \/ forall a, a ∈ l -> Q a.
Proof.
  induction l as [| a l IH]; intros H; [right; intros a Ha; by apply elem_of_nil in Ha |].
  destruct (H a ltac:(left)) as [? | Ha]; [by left |].
  destruct IH as [? | Hl]; [intros a' Ha'; apply H; by right | by left |].
  right. intros a' [-> | Ha']%elem_of_cons; [done | by apply Hl].
Qed.

Lemma runs_inv (ps : list Program) (N : list nat) (j : nat) (m m' : Machine) :
  inv ps N m -> nsteps moves j m m' -> exists N', inv ps N' m' /\ (j + sum_list N' <= sum_list N)%nat.
Proof.
  intros Hi Hn. revert N Hi. induction Hn as [m | j m m1 m' Hm _ IH]; intros N Hi; [by exists N |].
  destruct (moves_inv ps N m m1 Hi Hm) as (N1 & Hi1 & Hlt). destruct (IH N1 Hi1) as (N' & Hi' & Hle).
  exists N'. split; [done | lia].
Qed.
End task.
Arguments Program : clear implicits.
Arguments Machine : clear implicits.

(** ** Properties *)

(** C6: awaiting a task is a call.  Let any coroutines be spawned and the
    scheduler resume what waits in any order: what runs can always go on; there are
    at most as many moves as the programs have in all; and when nothing runs,
    either something waits for an event, or every coroutine is at its end with the
    value or the exception of its program in direct style, every other frame
    having been destroyed. *)
Theorem task_direct_style {V : Type} (ps : list (Program V)) (j : nat) (m : Machine V) :
  nsteps moves j (spawned ps) m ->
  (j <= sum_list (map (fun p => S (cost p)) ps))%nat
  /\ (forall h, running m = Some h -> exists m', step m = Ok m')
  /\ (running m = None ->
        (exists h m', wake h m = Ok m')
        \/ ((forall i p, ps !! i = Some p -> exists f, frame i m = Some f /\ point f = Final /\ result f = direct p)
            /\ forall h, (length ps <= h)%nat -> frame h m = None)).
Proof.
  intros Hn. destruct (runs_inv ps _ j _ m (spawned_inv ps) Hn) as (N & (Hok & _ & Hc) & Hle).
  split; [lia |]. split; [intros h; by apply (running_steps (length ps)) |]. intros Hr.
  destruct (all_or (exists h m', wake h m = Ok m')
    (fun ip => exists f, frame (fst ip) m = Some f /\ point f = Final /\ result f = direct (snd ip)) (imap pair ps))
    as [Hw | Hall].
  { intros [i p] Hip. apply list_elem_of_lookup in Hip as [a Ha].
    destruct (Forall2_lookup_l _ _ _ _ _ Hc Ha) as (n & _ & Hcn). by eapply idle_waits. }
  { by left. }
  right. assert (Hfinal : forall i p, ps !! i = Some p ->
      exists f, frame i m = Some f /\ point f = Final /\ result f = direct p).
  { intros i p Hp. apply (Hall (i, p)). apply elem_of_lookup_imap. by exists i, p. }
  split; [done |]. intros h Hh. destruct (frame h m) as [g |] eqn:Hg; [exfalso | done].
  destruct (awaits_root _ _ h (mo_linked _ _ Hok) ltac:(by exists g)) as (x & Hx & Hrtc).
  destruct (lookup_lt_is_Some_2 ps x Hx) as [p Hp]. destruct (Hfinal x p Hp) as (f & Hf & Hpf & _).
  inversion Hrtc as [| ? y ? (f' & k & Hf' & Hk)]; subst; [lia |]. congruence.
Qed.

(** A run that is told whom to resume when nothing runs. *)
Fixpoint drive {V : Type} (moves : list (option nat)) (m : Machine V) : outcome (Machine V) :=
  match moves with
  | [] => Ok m
  | o :: os => let! m' := (match o with None => step m | Some h => wake h m end) in drive os m'
  end.

Lemma drive_moves {V : Type} (os : list (option nat)) (m m' : Machine V) :
  drive os m = Ok m' -> nsteps moves (length os) m m'.
Proof.
  revert m. induction os as [| o os IH]; intros m; cbn [drive length]; [intros [= ->]; constructor |].
  destruct o as [h |]; [destruct (wake h m) as [m1 | | |] eqn:H | destruct (step m) as [m1 | | |] eqn:H]; try done;
    cbn [obind]; intros Hd; apply (nsteps_l _ _ m m1 m'); [by eapply moves_wake | by apply IH | by eapply moves_step | by apply IH].
Qed.

(** A coroutine that catches what the task it awaits throws after an event, and
    one that waits twice. *)
Definition sample : list (Program Z) :=
  [CoAwait (Event (CoThrow FutureError)) (fun r => match r with inl v => CoReturn v | inr _ => CoReturn 7 end);
   Event (Event (CoReturn 5))].

Definition sample_moves : list (option nat) :=
  [Some 1; None; Some 0; None; None; Some 1; None; Some 2; None; None; None; Some 1; None]%nat.

Definition sample_end : Machine Z :=
  match drive sample_moves (spawned sample) with Ok m => m | _ => spawned [] end.

Lemma task_direct_style_witness :
  (13 <= 13)%nat
  /\ (forall h, running sample_end = Some h -> exists m', step sample_end = Ok m')
  /\ (running sample_end = None ->
        (exists h m', wake h sample_end = Ok m')
        \/ ((forall i p, sample !! i = Some p ->
               exists f, frame i sample_end = Some f /\ point f = Final /\ result f = direct p)
            /\ forall h, (2 <= h)%nat -> frame h sample_end = None)).
Proof.
  apply (task_direct_style sample 13 sample_end). apply (drive_moves sample_moves). vm_compute. reflexivity.
Defined.

Lemma sample_results : map direct sample = [inl 7; inl 5].
Proof. reflexivity. Qed.
