(* ===== verification/InetAddress.v ===== *)
(** Addresses: src/src/InetAddress.cc.

    The two socket addresses of the union share their memory: 28 octets, of which
    a constructor writes 16 or 28.  [inet_pton] and [inet_ntop] are the system's. *)

From Stdlib Require Import ZArith Lia String Strings.Byte.
From stdpp Require Import base numbers option list.
From S2P Require Import Prelude CxxStd Endian.
Open Scope Z_scope.

Definition AF_INET : Z := 2.
Definition AF_INET6 : Z := 10.

(** [inet_pton] reads the text up to its first zero and gives the address in
    network order, or nothing; [inet_ntop] gives the text. *)
Class AddressText := {
  inet_pton : Z -> bytes -> option bytes;
  inet_ntop : Z -> bytes -> bytes;
  inet_pton_length f s a : inet_pton f s = Some a -> length a = if f =? AF_INET6 then 16%nat else 4%nat;
  inet_pton_ntop f a : f = AF_INET /\ length a = 4%nat \/ f = AF_INET6 /\ length a = 16%nat ->
    inet_pton f (inet_ntop f a) = Some a
}.

(** ** Memory *)

(** The union; [None] is an octet that was never written. *)
Definition InetAddress : Type := list (option byte).

Definition sizeof_in6 : nat := 28.

(** Where the members are: [sin_family] and [sin6_family], [sin_port] and
    [sin6_port], [sin_addr], [sin6_addr]. *)
Definition o_port : nat := 2.
Definition o_addr : nat := 4.
Definition o_addr6 : nat := 8.

Definition put (off : nat) (bs : bytes) (m : InetAddress) : InetAddress := take off m ++ map Some bs ++ drop (off + length bs) m.

(** Reading an octet that was not written is undefined. *)
Definition load (off n : nat) (m : InetAddress) : outcome bytes :=
  let cells := take n (drop off m) in
  if (length cells =? n)%nat then match mapM (fun c => c) cells with Some bs => Ok bs | None => Undefined end
  else Undefined.

(** The family is in the host's order, which is little-endian. *)
Definition family_bytes (f : Z) : bytes := [z2b f; x00].

(** [memset] of one of the structs, and its family and port. *)
Definition cleared (v6 : bool) (port : Z) : InetAddress :=
  let f := if v6 then AF_INET6 else AF_INET in
  let n := if v6 then sizeof_in6 else 16%nat in
  put o_port (be_bytes 2 port) (put 0 (family_bytes f) (replicate n (Some x00) ++ replicate (sizeof_in6 - n) None)).

Definition o_ip (v6 : bool) : nat := if v6 then o_addr6 else o_addr.

(** ** The constructors *)

(** [in6addr_any], [in6addr_loopback], [INADDR_ANY] and [INADDR_LOOPBACK]. *)
Definition anyOrLoopback (loopback_only v6 : bool) : bytes :=
  if v6 then replicate 15 x00 ++ [if loopback_only then x01 else x00]
  else if loopback_only then be_bytes 4 0x7f000001 else be_bytes 4 0.

Definition fromPort (port : Z) (loopback_only v6 : bool) : InetAddress :=
  put (o_ip v6) (anyOrLoopback loopback_only v6) (cleared v6 port).

Section addresses.
Context {text : AddressText}.

(** A text that is no address leaves the zeroes. *)
Definition fromIp (ip : bytes) (port : Z) (v6 : bool) : InetAddress :=
  match inet_pton (if v6 then AF_INET6 else AF_INET) ip with
  | Some a => put (o_ip v6) a (cleared v6 port)
  | None => cleared v6 port
  end.

(** ** The accessors *)

Definition family (m : InetAddress) : outcome Z :=
  let! bs := load 0 2 m in
  match bs with [lo; hi] => Ok (b2z lo + 256 * b2z hi) | _ => Undefined end.

Definition isIpV6 (m : InetAddress) : outcome bool := let! f := family m in Ok (f =? AF_INET6).

Definition toPort (m : InetAddress) : outcome Z := let! bs := load o_port 2 m in Ok (be_value 0 bs).

(** Of another family [buf] is returned as it is, which nothing has set. *)
Definition toIp (m : InetAddress) : outcome bytes :=
  let! f := family m in
  if f =? AF_INET then let! a := load o_addr 4 m in Ok (inet_ntop AF_INET a)
  else if f =? AF_INET6 then let! a := load o_addr6 16 m in Ok (inet_ntop AF_INET6 a)
  else Undefined.

Definition toIpPort (m : InetAddress) : outcome bytes :=
  let! port := toPort m in
  let! ip := toIp m in
  Ok (ip ++ str ":" ++ to_string port).

Definition isLoopbackIp (m : InetAddress) : outcome bool :=
  let! f := family m in
  if f =? AF_INET then let! a := load o_addr 4 m in Ok (be_value 0 a =? 0x7f000001)
  else if f =? AF_INET6 then
    let! a := load o_addr6 16 m in
    Ok (bool_decide (take 12 a = replicate 12 x00) && (be_value 0 (drop 12 a) =? 1))
  else Ok false.

(** [getLocalAddr], with what [getsockname] wrote into a zeroed [sockaddr_in6]. *)
Definition getLocalAddr (written : bytes) : InetAddress :=
  let ss := written ++ replicate (sizeof_in6 - length written) x00 in
  match ss with
  | lo :: hi :: _ =>
      if b2z lo + 256 * b2z hi =? AF_INET6 then map Some (take sizeof_in6 ss)
      else map Some (take 16 ss) ++ replicate 12 None
  | _ => []
  end.

(** ** What an address is *)

(** An address of this family, port and octets. *)
Definition is_address (v6 : bool) (port : Z) (a : bytes) (m : InetAddress) : Prop :=
  length a = (if v6 then 16 else 4)%nat /\ 0 <= port < 2 ^ 16
  /\ load 0 2 m = Ok (family_bytes (if v6 then AF_INET6 else AF_INET))
  /\ load o_port 2 m = Ok (be_bytes 2 port) /\ load (o_ip v6) (length a) m = Ok a.

Lemma be_value_inj (a b : bytes) (x y : Z) :
  length a = length b -> be_value x a = be_value y b -> a = b /\ x = y.
Proof.
  revert b x y. induction a as [| c a IH]; intros [| d b] x y Hl; try done.
  unfold be_value. cbn [foldl]. rewrite !be_value_step. intros H. injection Hl as Hl.
  destruct (IH b _ _ Hl H) as [-> Hxy]. pose proof (b2z_range c). pose proof (b2z_range d).
  assert (b2z c = b2z d /\ x = y) as [->%b2z_inj ->] by lia. done.
Qed.

Lemma be_value_decide (a b : bytes) : length a = length b -> (be_value 0 a =? be_value 0 b) = bool_decide (a = b).
Proof.
  intros Hl. destruct (Z.eqb_spec (be_value 0 a) (be_value 0 b)) as [H | H]; symmetry.
  - apply bool_decide_eq_true. by destruct (be_value_inj a b 0 0 Hl H).
  - apply bool_decide_eq_false. by intros ->.
Qed.

Lemma mapM_some (bs : bytes) : mapM (fun c : option byte => c) (map Some bs) = Some bs.
Proof. induction bs as [| b bs IH]; [done |]. cbn. by rewrite IH. Qed.

Lemma load_put (off : nat) (bs : bytes) (m : InetAddress) :
  (off <= length m)%nat -> load off (length bs) (put off bs m) = Ok bs.
Proof.
  intros Hoff. unfold load, put.
  assert (Hc : take (length bs) (drop off (take off m ++ map Some bs ++ drop (off + length bs) m)) = map Some bs).
  { assert (Ht : length (take off m) = off) by (rewrite length_take; lia).
    rewrite <- Ht at 1. rewrite drop_app_length. rewrite <- (length_map Some bs) at 1. apply take_app_length. }
  by rewrite Hc, length_map, Nat.eqb_refl, mapM_some.
Qed.

Lemma load_put_before (off n k : nat) (bs : bytes) (m : InetAddress) :
  (off + n <= k)%nat -> (k <= length m)%nat -> load off n (put k bs m) = load off n m.
Proof.
  intros Hoff Hk. unfold load, put.
  assert (Hc : take n (drop off (take k m ++ map Some bs ++ drop (k + length bs) m)) = take n (drop off m)).
  { assert (Ht : length (take k m) = k) by (rewrite length_take; lia).
    rewrite drop_app_le by lia. rewrite take_app_le by (rewrite length_drop; lia).
    rewrite skipn_firstn_comm, take_take. f_equal. lia. }
  by rewrite Hc.
Qed.

Lemma cleared_parts (v6 : bool) (port : Z) :
  length (cleared v6 port) = 28%nat
  /\ load 0 2 (cleared v6 port) = Ok (family_bytes (if v6 then AF_INET6 else AF_INET))
  /\ load o_port 2 (cleared v6 port) = Ok (be_bytes 2 port)
  /\ load (o_ip v6) (if v6 then 16 else 4) (cleared v6 port) = Ok (replicate (if v6 then 16 else 4) x00).
Proof. destruct v6; repeat split. Qed.

Lemma put_address (v6 : bool) (port : Z) (a : bytes) :
  length a = (if v6 then 16 else 4)%nat -> 0 <= port < 2 ^ 16 ->
  is_address v6 port a (put (o_ip v6) a (cleared v6 port)).
Proof.
  intros Ha Hp. destruct (cleared_parts v6 port) as (Hl & Hf & Hport & _). split; [done |]. split; [done |].
  rewrite !load_put_before by (rewrite ?Hl; destruct v6; unfold o_port, o_ip, o_addr, o_addr6; lia). split; [done |]. split; [done |].
  apply load_put. rewrite Hl. destruct v6; unfold o_ip, o_addr, o_addr6; lia.
Qed.

Lemma address_family (v6 : bool) (port : Z) (a : bytes) (m : InetAddress) :
  is_address v6 port a m -> family m = Ok (if v6 then AF_INET6 else AF_INET).
Proof. intros (_ & _ & Hf & _). unfold family. rewrite Hf. by destruct v6. Qed.

(** What the accessors say of an address. *)
Lemma address_reads (v6 : bool) (port : Z) (a : bytes) (m : InetAddress) :
  is_address v6 port a m ->
  isIpV6 m = Ok v6 /\ toPort m = Ok port /\ toIp m = Ok (inet_ntop (if v6 then AF_INET6 else AF_INET) a).
Proof.
  intros H. pose proof (address_family v6 port a m H) as Hf. destruct H as (Ha & Hp & _ & Hport & Hip).
  unfold isIpV6, toPort, toIp. rewrite Hf, Hport. cbn [obind]. split; [by destruct v6 |]. split.
  - f_equal. by apply (be_value_exact 2).
  - destruct v6; cbn [o_ip] in Hip; rewrite Ha in Hip; by rewrite Hip.
Qed.

(** An address is what its text says, and a client that makes one of the text,
    the family and another port, as the HTTP clients do, connects to the same
    host. *)
Theorem address_roundtrip (v6 : bool) (port port' : Z) (a : bytes) (m : InetAddress) :
  is_address v6 port a m -> 0 <= port' < 2 ^ 16 ->
  exists ip, toIp m = Ok ip /\ isIpV6 m = Ok v6 /\ is_address v6 port' a (fromIp ip port' v6)
    /\ toIpPort (fromIp ip port' v6) = Ok (ip ++ str ":" ++ to_string port').
Proof.
  intros H Hp'. destruct (address_reads v6 port a m H) as (H6 & _ & Hip). destruct H as (Ha & _).
  exists (inet_ntop (if v6 then AF_INET6 else AF_INET) a). split; [done |]. split; [done |].
  assert (Haddr : is_address v6 port' a (fromIp (inet_ntop (if v6 then AF_INET6 else AF_INET) a) port' v6)).
  { unfold fromIp. rewrite inet_pton_ntop by (destruct v6; auto). by apply put_address. }
  split; [done |]. destruct (address_reads v6 port' a _ Haddr) as (_ & Hport & Hi).
  unfold toIpPort. by rewrite Hport, Hi.
Qed.

(** A text that is no address is taken for the address of all zeroes. *)
Theorem address_of_nonsense (v6 : bool) (port : Z) (ip : bytes) :
  0 <= port < 2 ^ 16 -> inet_pton (if v6 then AF_INET6 else AF_INET) ip = None ->
  is_address v6 port (replicate (if v6 then 16 else 4) x00) (fromIp ip port v6).
Proof.
  intros Hp Hn. unfold fromIp. rewrite Hn. destruct (cleared_parts v6 port) as (_ & Hf & Hport & Hz).
  split; [by destruct v6 |]. split; [done |]. split; [done |]. split; [done |]. by rewrite length_replicate.
Qed.

(** The loopback addresses are 127.0.0.1 and ::1 alone. *)
Theorem loopback_exact (v6 : bool) (port : Z) (a : bytes) (m : InetAddress) :
  is_address v6 port a m -> isLoopbackIp m = Ok (bool_decide (a = anyOrLoopback true v6)).
Proof.
  intros H. pose proof (address_family v6 port a m H) as Hf. destruct H as (Ha & _ & _ & _ & Hip).
  unfold isLoopbackIp. rewrite Hf. cbn [obind]. destruct v6; cbn [o_ip] in Hip; rewrite Ha in Hip; rewrite Hip;
    cbn [obind Z.eqb AF_INET AF_INET6 Pos.eqb]; f_equal.
  - change 1 with (be_value 0 (drop 12 (anyOrLoopback true true))).
    rewrite be_value_decide by (by rewrite length_drop, Ha).
    change (replicate 12 x00) with (take 12 (anyOrLoopback true true)). rewrite <- bool_decide_and.
    apply bool_decide_ext. split; [intros [H1 H2] | by intros ->].
    by rewrite <- (take_drop 12 a), H1, H2.
  - change 0x7f000001 with (be_value 0 (anyOrLoopback true false)). by apply be_value_decide.
Qed.

(** The addresses of a port alone. *)
Theorem address_of_port (port : Z) (loopback_only v6 : bool) :
  0 <= port < 2 ^ 16 ->
  is_address v6 port (anyOrLoopback loopback_only v6) (fromPort port loopback_only v6)
  /\ isLoopbackIp (fromPort port loopback_only v6) = Ok loopback_only.
Proof.
  intros Hp.
  assert (Ha : is_address v6 port (anyOrLoopback loopback_only v6) (fromPort port loopback_only v6))
    by (apply put_address; [by destruct v6, loopback_only | done]).
  split; [done |]. rewrite (loopback_exact v6 port _ _ Ha). by destruct v6, loopback_only.
Qed.
End addresses.

(** A text of addresses that has the laws: the octets themselves. *)
#[local, refine] Instance toy_text : AddressText := {
  inet_pton f s := if (length s =? (if (f =? AF_INET6)%Z then 16 else 4))%nat then Some s else None;
  inet_ntop f a := a
}.
Proof.
  - intros f s a. destruct (Nat.eqb_spec (length s) (if (f =? AF_INET6)%Z then 16 else 4)); [by intros [= <-] | done].
  - intros f a [[-> H] | [-> H]]; cbn; by rewrite H.
Defined.

(** A socket of another family has no text. *)
Lemma other_family : toIp (getLocalAddr [x01; x00]) = Undefined.
Proof. reflexivity. Qed.
